(* ===== verification/_CoqProject ===== *)
-Q . S2P
Prelude.v
Encoding.v
Timestamp.v
Floats.v
Decimal.v
DecimalArith.v
DecimalTotal.v
DecimalBin.v
Rows.v
KeyEncoding.v
RowEncoding.v
Store.v
WriteBatch.v
Table.v
LocalStore.v
ShardSM.v
ShardSMProps.v
ShardReplicas.v
ShardRecovery.v
SequenceSM.v
LocksSM.v
Scheduler.v
PullExec.v
PullSort.v
KeyRanges.v
PullScan.v
RowsBatch.v
PushExec.v
TableExec.v
Views.v
ViewKeys.v
IndexExec.v
RowCache.v
Engine.v
EngineProps.v
SimCluster.v
Sharder.v
QueryInfo.v
PullEngine.v
RemoteExecutor.v
RemoteCluster.v
PointGets.v
Builtins.v
Expressions.v
IntArith.v
ExprTyping.v
ExprLogic.v
AggFuncs.v
Aggregator.v
AggregatorProps.v
AggregateTable.v
Pipeline.v
AggregateFlow.v
TableHeap.v
Reaper.v
ReaperProps.v
Reaping.v
Retention.v
ReaperRun.v
