(* ===== verification/Prelude.v ===== *)
(** * PranaDB: the verification library

    PranaDB (src/) is a distributed streaming database. Sources receive rows, materialized
    views, aggregations and indexes are kept up to date from them by the push engine, and
    clients read tables and views with pull queries. The data is partitioned into shards;
    every shard is a replicated state machine on a Raft library (dragonboat) over a local
    key-value store (Pebble).

    ** How the parts interact

    A row that is received for a shard is written through Raft into the receiver table of the
    shard ([ShardSM]); the shard's scheduler ([Scheduler]) hands batches of such rows to the
    push engine ([Engine]), which decodes them, gives them to the entities they are for
    ([PushExec], [TableExec], [Aggregator]), and commits what these write in one batch
    ([WriteBatch]) together with the removal of the rows. Rows for other shards are forwarded
    ([Sharder], [AggregateFlow]) and screened for duplicates there. A pull query reads the
    stored rows ([PullScan]) through executors ([PullExec], [PullSort]) that evaluate the
    expressions of the planner ([Expressions]); the scans run on the leaders of the shards
    ([PullEngine]) and the remote executor collects their pages ([RemoteExecutor]). The reaper ([Reaper]) deletes rows that are
    older than the retention of their table. All stored keys are memory-comparable encodings
    ([KeyEncoding]) under the prefix of a table and shard ([Table]).

    ** What models what

    Results of Go functions are [outcome]s: a value, an error, a panic, or undefined. State is
    passed explicitly. Integers are [Z] with the wrap-around of their width written out ([u64],
    [i64], ...), bytes are lists of [Z].

    - [Prelude]: outcomes and their monad, lists, integers, the order of byte strings.
    - [Encoding] (common/encoding.go), [Timestamp] (tidb/types/time.go, core_time.go), [Floats],
      [Decimal] and [DecimalArith] (tidb/types/mydecimal.go, common/decimal.go), [Rows]
      (common/rows.go, meta.go), [KeyEncoding] (common/key_encoding.go,
      string_key_encoding.go), [RowEncoding] (common/row_encoding.go).
    - [Store]: the class [KVStore] of what is relied on of Pebble, and an instance; [WriteBatch]
      (cluster/write_batch.go, dedup.go), [Table] (table/table.go, common/sys_table.go),
      [LocalStore] (the local part of cluster/dragon/dragon.go).
    - [ShardSM], [ShardSMProps], [ShardReplicas], [ShardRecovery] (cluster/dragon/shard_odsm.go,
      sm_utils.go), [SequenceSM] (sequence_odsm.go), [LocksSM] (locks_odsm.go).
    - [Scheduler] and [RowCache] (push/sched/scheduler.go), [Engine] and [EngineProps]
      (push/engine.go, push/util/util.go), [SimCluster]: an instance of the contracts.
    - [RowsBatch], [PushExec], [TableExec], [Views], [ViewKeys], [IndexExec] (push/exec),
      [AggFuncs] (aggfuncs), [Aggregator], [AggregatorProps], [AggregateTable],
      [AggregateFlow] (push/exec/aggregator.go), [Pipeline]: source, view and indexes together.
    - [PullExec], [PullSort], [KeyRanges], [PullScan] (pull/exec); [QueryInfo] (the query that is
      sent to another node, cluster/cluster.go), [PullEngine] (pull/engine.go), [RemoteExecutor]
      (pull/exec/remote_executor.go), [RemoteCluster] (the reads of cluster/dragon/dragon.go and
      [Lookup] of shard_odsm.go), [PointGets] (pull/exec_builder.go).
    - [Sharder] (sharder/sharder.go).
    - [Builtins], [Expressions], [IntArith], [ExprTyping], [ExprLogic] (tidb/expression: columns,
      constants, functions and the classes that choose them).
    - [TableHeap], [Reaper], [ReaperProps], [Reaping], [Retention], [ReaperRun] (push/reaper).

    Definitions have the names of the Go functions, with a prefix where several types have the
    method. Interfaces between components are type classes: [KVStore] and [DroppedCache] for
    libraries, [ClusterContract] for what the engine relies on of the cluster, [PullContract]
    for the promise of a pull executor to its parent, [RemoteContract] for that of the cluster to
    the remote executor, [Maintains] and [HandlesRows] for the
    promises of consumers of changes, [OrderedCode] and [BoundedCode] for encodings.

    ** What the theorems show

    - Encodings: keys compare as values do, and rows, keys, batches and decimals are read back
      as they were written. Decimal comparison, sum and difference are exact.
    - Replication: forwarded batches take effect exactly once, replicas agree, a restart and a
      snapshot restore the state, leader terms never go back; locks and sequences implement
      their contracts.
    - Processing: a batch of received rows is committed whole and once, in whatever order its
      entities are visited, and rows left over from a crash are processed as if just received.
    - Views: tables, views over them, indexes and aggregate tables are after every batch what the
      changed source rows determine; rows of views are keyed as the source rows are.
    - Queries: a scan reads exactly the rows of its ranges, pages neither repeat nor lose rows,
      sorting, filtering, projecting and limiting do what the query says. A query over the cluster
      returns the rows of all the shards it asks, for every order of its goroutines.
    - Expressions: evaluation is type safe; integer arithmetic is exact or reports an overflow;
      comparisons compare what the arguments stand for.
    - The scheduler never gets stuck, drains its queues and keeps their order.
    - The reaper deletes the expired rows, the oldest first, and no others.

    Some theorems state what the code does where it fails its purpose: a delete captured during
    a fill, a reaper whose range deletes are dropped, a session after a failed page, a point get
    with other ranges, negative arguments of a remote query; and, not claimed as properties, a resume
    after a failure, rows of an unknown entity, a group change, a second decimal sum.

    ** Fuel and bounds

    Loops whose bound is in the data recurse on the data. The others take fuel: the executors of
    pull queries (the contract says that some amount is enough and that more changes nothing),
    the loops over decimal words (eleven rounds for nine words), the halving search (one round
    more than there are arguments), the rounds of the remote executor (the limit and the getters
    together), the pages of a query (one more than there are rows), the heap (one round per element), a run of the reaper (one
    round more than there are tables). The theorems are stated for the fuel that is given there
    and say that the result is reached. Lengths of slices and counters of rows in memory are not
    wrapped.

    ** What is not modelled

    The Raft library, the storage engine, the SQL parser and planner (vendored or external);
    network, files, timers, goroutines other than as the interleavings that the scheduler's relation
    and the orders of the remote executor have; the Kafka sources and sinks with their JSON and protobuf decoding; commands, metadata
    loading and the servers, which orchestrate the modelled parts; the fill of new consumers,
    a protocol between goroutines; of the expression library casts, vectorized evaluation,
    durations, JSON, products of decimals, and the string, time and mathematical functions. *)

From stdpp Require Import base list list_numbers strings gmap sorting.
From Stdlib Require Import ZArith Lia.

#[global] Open Scope Z_scope.

(** ** Results of Go code

    A Go function of the program returns a value, returns an [error], panics, or
    (for the [unsafe.Pointer] loads of common/encoding.go) reads memory past the
    end of a slice, which has no defined value. *)

Inductive outcome (A : Type) : Type :=
  | Ok (a : A)
  | Err (msg : string)
  | Panic (msg : string)
  | Undef.
Arguments Ok {A} a.
Arguments Err {A} msg.
Arguments Panic {A} msg.
Arguments Undef {A}.

#[global] Instance outcome_ret : MRet outcome := λ A a, Ok a.
#[global] Instance outcome_bind : MBind outcome := λ A B f m,
  match m with
  | Ok a => f a
  | Err e => Err e
  | Panic e => Panic e
  | Undef => Undef
  end.
#[global] Instance outcome_fmap : FMap outcome := λ A B f m,
  match m with
  | Ok a => Ok (f a)
  | Err e => Err e
  | Panic e => Panic e
  | Undef => Undef
  end.

Definition is_ok {A} (m : outcome A) : bool :=
  match m with Ok _ => true | _ => false end.

(** A loop [for _, x := range l] that threads a state and stops at the first
    failure. *)
Fixpoint foldM {A T} (f : T → A → outcome T) (s : T) (l : list A) : outcome T :=
  match l with
  | [] => Ok s
  | x :: l' => s' ← f s x; foldM f s' l'
  end.

(** The same loop with the index of the element, from [i]. *)
Fixpoint foldMi {A T} (f : nat → T → A → outcome T) (i : nat) (s : T) (l : list A) : outcome T :=
  match l with
  | [] => Ok s
  | x :: l' => s' ← f i s x; foldMi f (S i) s' l'
  end.

(** A loop that builds one result per element. *)
Fixpoint mapM_o {A B} (f : A → outcome B) (l : list A) : outcome (list B) :=
  match l with
  | [] => Ok []
  | x :: l' => y ← f x; ys ← mapM_o f l'; Ok (y :: ys)
  end.

(** ** Machine integers *)

Abbreviation two64 := 18446744073709551616.
Abbreviation two63 := 9223372036854775808.
Abbreviation two32 := 4294967296.
Abbreviation two31 := 2147483648.

(** Conversions of Go: wrap-around at the width of the target type. *)
Definition u64 (z : Z) : Z := z mod two64.
Definition u32 (z : Z) : Z := z mod two32.
Definition u16 (z : Z) : Z := z mod 65536.
Definition u8 (z : Z) : Z := z mod 256.
Definition i64 (z : Z) : Z := (z + two63) mod two64 - two63.
Definition i32 (z : Z) : Z := (z + two31) mod two32 - two31.
Definition i8 (z : Z) : Z := (z + 128) mod 256 - 128.

Definition u64_ok (z : Z) : Prop := 0 ≤ z < two64.
Definition u32_ok (z : Z) : Prop := 0 ≤ z < two32.
Definition i64_ok (z : Z) : Prop := - two63 ≤ z < two63.

(** ** Bytes and byte slices *)

Abbreviation byte := Z (only parsing).
Abbreviation bytes := (list Z) (only parsing).

Definition byte_ok (b : Z) : Prop := 0 ≤ b < 256.
Definition bytes_ok (bs : bytes) : Prop := Forall byte_ok bs.

#[global] Instance byte_ok_dec b : Decision (byte_ok b).
Proof. unfold byte_ok; apply _. Defined.
#[global] Instance bytes_ok_dec bs : Decision (bytes_ok bs).
Proof. unfold bytes_ok; apply _. Defined.

(** [b\[lo:hi\]], [b\[lo:\]] and [b\[i\]]: out of range is a panic. *)
Definition slice (b : bytes) (lo hi : nat) : outcome bytes :=
  if decide (lo ≤ hi ≤ length b)%nat then Ok (take (hi - lo) (drop lo b))
  else Panic "slice bounds out of range".
Definition slice_from (b : bytes) (lo : nat) : outcome bytes := slice b lo (length b).
Definition index {A} (b : list A) (i : nat) : outcome A :=
  match b !! i with
  | Some x => Ok x
  | None => Panic "index out of range"
  end.

(** [bytes.Compare]: the order the storage engine keeps keys in. *)
Fixpoint bytes_cmp (a b : bytes) : comparison :=
  match a, b with
  | [], [] => Eq
  | [], _ => Lt
  | _, [] => Gt
  | x :: a', y :: b' =>
      match Z.compare x y with
      | Eq => bytes_cmp a' b'
      | c => c
      end
  end.
Definition bytes_lt (a b : bytes) : Prop := bytes_cmp a b = Lt.
Definition bytes_le (a b : bytes) : Prop := bytes_cmp a b ≠ Gt.
Definition bytes_ltb (a b : bytes) : bool :=
  match bytes_cmp a b with Lt => true | _ => false end.
Definition bytes_leb (a b : bytes) : bool :=
  match bytes_cmp a b with Gt => false | _ => true end.
Definition bytes_eqb (a b : bytes) : bool := bool_decide (a = b).

#[global] Instance bytes_lt_dec : RelDecision bytes_lt.
Proof. intros a b; unfold bytes_lt; destruct (bytes_cmp a b); [right|left|right]; congruence. Defined.
#[global] Instance bytes_le_dec : RelDecision bytes_le.
Proof. intros a b; unfold bytes_le; destruct (bytes_cmp a b); [left|left|right]; congruence. Defined.

(** [strings.HasPrefix s p]. *)
Fixpoint has_prefix (s p : bytes) {struct p} : bool :=
  match p, s with
  | [], _ => true
  | _, [] => false
  | y :: p', x :: s' => (x =? y) && has_prefix s' p'
  end.

(** The bytes of an ASCII literal of the source. *)
Fixpoint lit (s : string) : bytes :=
  match s with
  | EmptyString => []
  | String.String c s' => Z.of_N (Ascii.N_of_ascii c) :: lit s'
  end.

(** Big- and little-endian values of a byte list, and the bytes of a value. *)
Definition be_val (bs : bytes) : Z := foldl (λ acc b, acc * 256 + b) 0 bs.
Definition le_val (bs : bytes) : Z := be_val (rev bs).
Fixpoint be_bytes (n : nat) (v : Z) : bytes :=
  match n with
  | O => []
  | S n' => u8 (v ≫ (8 * Z.of_nat n')) :: be_bytes n' v
  end.
Definition le_bytes (n : nat) (v : Z) : bytes := rev (be_bytes n v).

(** ** Automation *)

Create HintDb prana.

(** Destructs the outcome of a monadic step in hypothesis [H]. *)
Ltac ostep H :=
  match type of H with
  | mbind _ ?m = _ => let E := fresh "E" in destruct m eqn:E; simpl in H; try discriminate H
  end.
Ltac osteps H := repeat (ostep H).

(** Reduces the binds whose first step is known, and nothing else. *)
Ltac osimpl := cbn [mbind outcome_bind mret outcome_ret fmap outcome_fmap fst snd].
Tactic Notation "osimpl" "in" hyp(H) :=
  cbn [mbind outcome_bind mret outcome_ret fmap outcome_fmap fst snd] in H.

(** Equal up to the arithmetic in the fields. *)
Ltac fields_eq := repeat (lia || f_equal).

(** A closed decidable goal, by evaluation. *)
Ltac by_decide :=
  match goal with |- ?P => refine (@bool_decide_unpack P _ _); vm_compute; exact I end.

Ltac unfold_width := unfold u64, u32, u16, u8, i64, i32, i8, u64_ok, u32_ok, i64_ok, byte_ok in *.

(** ** Machine integers: lemmas *)

Lemma u64_small z : u64_ok z → u64 z = z.
Proof. unfold_width; intros; apply Z.mod_small; lia. Qed.

Lemma u32_small z : u32_ok z → u32 z = z.
Proof. unfold_width; intros; apply Z.mod_small; lia. Qed.

Lemma i64_small z : i64_ok z → i64 z = z.
Proof. unfold_width; intros; rewrite Z.mod_small; lia. Qed.

Lemma u64_range z : u64_ok (u64 z).
Proof. unfold_width; apply Z.mod_pos_bound; lia. Qed.

Lemma i64_range z : i64_ok (i64 z).
Proof. unfold_width; pose proof (Z.mod_pos_bound (z + two63) two64); lia. Qed.

Lemma u8_range z : byte_ok (u8 z).
Proof. unfold_width; apply Z.mod_pos_bound; lia. Qed.

(** [int64(uint64(v))] gives [v] back. *)
Lemma i64_u64 v : i64_ok v → i64 (u64 v) = v.
Proof.
  unfold_width; intros. rewrite Zplus_mod_idemp_l, Z.mod_small; lia.
Qed.

(** [uint64(int64(u))] gives [u] back. *)
Lemma u64_i64 u : u64_ok u → u64 (i64 u) = u.
Proof.
  unfold_width; intros. rewrite Zminus_mod_idemp_l.
  replace (u + two63 - two63) with u by lia. apply Z.mod_small; lia.
Qed.

#[export] Hint Resolve u64_range i64_range u8_range : prana.

(** ** The order of byte strings *)

Lemma bytes_cmp_refl a : bytes_cmp a a = Eq.
Proof. induction a as [|x a IH]; simpl; [done|]. by rewrite Z.compare_refl. Qed.

Lemma bytes_cmp_eq a b : bytes_cmp a b = Eq ↔ a = b.
Proof.
  split; [|intros ->; apply bytes_cmp_refl].
  revert b; induction a as [|x a IH]; intros [|y b]; simpl; try done.
  destruct (Z.compare_spec x y) as [->| |]; try done. intros H; f_equal; auto.
Qed.

Lemma bytes_cmp_antisym a b : bytes_cmp b a = CompOpp (bytes_cmp a b).
Proof.
  revert b; induction a as [|x a IH]; intros [|y b]; simpl; try done.
  rewrite (Z.compare_antisym x y). destruct (x ?= y)%Z; simpl; auto.
Qed.

(** Two keys that start with blocks of the same length are ordered by the
    blocks first and by what follows only when the blocks are equal. *)
Lemma bytes_cmp_app_same_length a b s t :
  length a = length b →
  bytes_cmp (a ++ s) (b ++ t) =
    match bytes_cmp a b with Eq => bytes_cmp s t | c => c end.
Proof.
  revert b; induction a as [|x a IH]; intros [|y b] Hl; simplify_eq/=; [done|].
  destruct (x ?= y)%Z; auto.
Qed.

Lemma bytes_cmp_app_common p a b : bytes_cmp (p ++ a) (p ++ b) = bytes_cmp a b.
Proof. by rewrite bytes_cmp_app_same_length, bytes_cmp_refl. Qed.

Lemma bytes_cmp_prefix a s : s ≠ [] → bytes_cmp a (a ++ s) = Lt.
Proof.
  intros Hs. rewrite <- (app_nil_r a) at 1. rewrite bytes_cmp_app_common.
  by destruct s.
Qed.

Lemma bytes_cmp_lt_trans a b c : bytes_lt a b → bytes_lt b c → bytes_lt a c.
Proof.
  unfold bytes_lt. revert b c; induction a as [|x a IH]; intros [|y b] [|z c]; simpl; try done.
  destruct (Z.compare_spec x y), (Z.compare_spec y z), (Z.compare_spec x z); try done; try lia.
  intros; eauto.
Qed.

Lemma bytes_lt_irrefl a : ¬ bytes_lt a a.
Proof. unfold bytes_lt; by rewrite bytes_cmp_refl. Qed.

Lemma bytes_cmp_gt a b : bytes_cmp a b = Gt ↔ bytes_lt b a.
Proof.
  unfold bytes_lt. rewrite (bytes_cmp_antisym a b). destruct (bytes_cmp a b); simpl; split; congruence.
Qed.

Lemma bytes_le_lt_eq a b : bytes_le a b ↔ bytes_lt a b ∨ a = b.
Proof.
  unfold bytes_le, bytes_lt. rewrite <- (bytes_cmp_eq a b).
  destruct (bytes_cmp a b); split; intros; try tauto; try (destruct H; congruence); congruence.
Qed.

Lemma bytes_not_lt a b : ¬ bytes_lt a b ↔ bytes_le b a.
Proof.
  unfold bytes_lt, bytes_le. rewrite (bytes_cmp_antisym a b).
  destruct (bytes_cmp a b); simpl; split; congruence.
Qed.

#[global] Instance bytes_lt_strict : StrictOrder bytes_lt.
Proof. split; [intros a; apply bytes_lt_irrefl|intros a b c; apply bytes_cmp_lt_trans]. Qed.

#[global] Instance bytes_le_preorder : PreOrder bytes_le.
Proof.
  split.
  - intros a. apply bytes_le_lt_eq; auto.
  - intros a b c. rewrite !bytes_le_lt_eq. intros [?| ->] [?| ->]; auto.
    left; by etrans.
Qed.

#[global] Instance bytes_le_antisym : AntiSymm (=) bytes_le.
Proof.
  intros a b. rewrite !bytes_le_lt_eq. intros [H1|?] [H2|?]; auto.
  exfalso. by apply (bytes_lt_irrefl a), (bytes_cmp_lt_trans _ b).
Qed.

#[global] Instance bytes_le_total : Total bytes_le.
Proof.
  intros a b. rewrite !bytes_le_lt_eq. unfold bytes_lt. rewrite (bytes_cmp_antisym a b), <- (bytes_cmp_eq a b).
  destruct (bytes_cmp a b); simpl; auto.
Qed.

Lemma bytes_le_lt_trans a b c : bytes_le a b → bytes_lt b c → bytes_lt a c.
Proof. rewrite bytes_le_lt_eq. intros [?| ->] ?; [by etrans|done]. Qed.

Lemma bytes_lt_le_trans a b c : bytes_lt a b → bytes_le b c → bytes_lt a c.
Proof. rewrite bytes_le_lt_eq. intros ? [?| <-]; [by etrans|done]. Qed.

Lemma bytes_ltb_spec a b : bytes_ltb a b = true ↔ bytes_lt a b.
Proof. unfold bytes_ltb, bytes_lt. destruct (bytes_cmp a b); split; congruence. Qed.

Lemma bytes_leb_spec a b : bytes_leb a b = true ↔ bytes_le a b.
Proof. unfold bytes_leb, bytes_le. destruct (bytes_cmp a b); split; congruence. Qed.

Lemma has_prefix_spec s p : has_prefix s p = true ↔ p `prefix_of` s.
Proof.
  revert s; induction p as [|y p IH]; intros s.
  - simpl. split; [intros _; apply prefix_nil|done].
  - destruct s as [|x s]; simpl.
    + split; [done|intros H%prefix_nil_inv; done].
    + rewrite andb_true_iff, Z.eqb_eq, IH. split.
      * intros [-> H]. by apply prefix_cons.
      * intros H. split; [symmetry; by eapply prefix_cons_inv_1|by eapply prefix_cons_inv_2].
Qed.

(** ** Big- and little-endian bytes *)

Lemma be_val_app a b : be_val (a ++ b) = be_val a * 256 ^ Z.of_nat (length b) + be_val b.
Proof.
  unfold be_val. rewrite foldl_app. generalize (foldl (λ acc b, acc * 256 + b) 0 a) as z.
  induction b as [|x b IH]; intros z; [simpl; lia|]. cbn [foldl length].
  rewrite (IH (z * 256 + x)), (IH (0 * 256 + x)), Nat2Z.inj_succ, Z.pow_succ_r by lia. lia.
Qed.

Lemma be_val_cons x b : be_val (x :: b) = x * 256 ^ Z.of_nat (length b) + be_val b.
Proof. change (x :: b) with ([x] ++ b). rewrite be_val_app. unfold be_val at 1; simpl. lia. Qed.

Lemma length_be_bytes n v : length (be_bytes n v) = n.
Proof. induction n; simpl; auto. Qed.

Lemma length_le_bytes n v : length (le_bytes n v) = n.
Proof. unfold le_bytes. by rewrite length_rev, length_be_bytes. Qed.

Lemma be_bytes_ok n v : bytes_ok (be_bytes n v).
Proof. induction n; simpl; constructor; auto with prana. Qed.

Lemma le_bytes_ok n v : bytes_ok (le_bytes n v).
Proof. unfold le_bytes, bytes_ok. apply Forall_rev, be_bytes_ok. Qed.

Lemma pow256_2 n : 256 ^ Z.of_nat n = 2 ^ (8 * Z.of_nat n).
Proof. change 256 with (2 ^ 8). rewrite <- Z.pow_mul_r by lia. done. Qed.

Lemma be_val_be_bytes n v : be_val (be_bytes n v) = v mod 256 ^ Z.of_nat n.
Proof.
  induction n as [|n IH]; [by rewrite Z.mod_1_r|].
  cbn [be_bytes]. rewrite be_val_cons, length_be_bytes, IH. unfold u8.
  rewrite Z.shiftr_div_pow2, <- pow256_2, Nat2Z.inj_succ, Z.pow_succ_r by lia.
  rewrite (Z.mul_comm 256), Z.rem_mul_r by lia. lia.
Qed.

Lemma le_val_le_bytes n v : le_val (le_bytes n v) = v mod 256 ^ Z.of_nat n.
Proof. unfold le_val, le_bytes. by rewrite rev_involutive, be_val_be_bytes. Qed.

Lemma be_val_bound bs : bytes_ok bs → 0 ≤ be_val bs < 256 ^ Z.of_nat (length bs).
Proof.
  induction 1 as [|x bs Hx _ IH]; [unfold be_val; simpl; lia|].
  rewrite be_val_cons. cbn [length]. rewrite Nat2Z.inj_succ, Z.pow_succ_r by lia.
  unfold byte_ok in Hx. nia.
Qed.

(** Big-endian bytes are compared in the order of the numbers they stand for. *)
Lemma bytes_cmp_be_val a b :
  length a = length b → bytes_ok a → bytes_ok b →
  bytes_cmp a b = (be_val a ?= be_val b)%Z.
Proof.
  intros Hl Ha; revert b Hl; induction Ha as [|x a Hx Ha IH]; intros [|y b] Hl Hb; simplify_eq/=; [done|].
  inv Hb. rewrite !be_val_cons, Hl.
  pose proof (be_val_bound a Ha) as Ba. rewrite Hl in Ba. pose proof (be_val_bound b H2) as Bb.
  destruct (Z.compare_spec x y) as [->|Hlt|Hlt].
  - rewrite IH by done. destruct (Z.compare_spec (be_val a) (be_val b)) as [->| |];
      symmetry; rewrite ?Z.compare_eq_iff, ?Z.compare_lt_iff, ?Z.compare_gt_iff; nia.
  - symmetry. apply Z.compare_lt_iff. nia.
  - symmetry. apply Z.compare_gt_iff. nia.
Qed.

Lemma be_bytes_be_val bs : bytes_ok bs → be_bytes (length bs) (be_val bs) = bs.
Proof.
  intros Hok. apply bytes_cmp_eq.
  rewrite bytes_cmp_be_val by (rewrite ?length_be_bytes; auto using be_bytes_ok).
  rewrite be_val_be_bytes, Z.mod_small by (by apply be_val_bound). apply Z.compare_refl.
Qed.

Lemma le_bytes_le_val bs : bytes_ok bs → le_bytes (length bs) (le_val bs) = bs.
Proof.
  intros Hok. unfold le_bytes, le_val. rewrite <- (length_rev bs), be_bytes_be_val.
  - apply rev_involutive.
  - by apply Forall_rev.
Qed.

Lemma bytes_cmp_be_bytes n u v s t :
  0 ≤ u < 256 ^ Z.of_nat n → 0 ≤ v < 256 ^ Z.of_nat n →
  bytes_cmp (be_bytes n u ++ s) (be_bytes n v ++ t) =
    match (u ?= v)%Z with Eq => bytes_cmp s t | c => c end.
Proof.
  intros Hu Hv. rewrite bytes_cmp_app_same_length by (by rewrite !length_be_bytes).
  rewrite bytes_cmp_be_val by (rewrite ?length_be_bytes; auto using be_bytes_ok).
  by rewrite !be_val_be_bytes, !Z.mod_small.
Qed.

#[export] Hint Resolve be_bytes_ok le_bytes_ok : prana.

Lemma bytes_ok_app a b : bytes_ok (a ++ b) ↔ bytes_ok a ∧ bytes_ok b.
Proof. apply Forall_app. Qed.

Lemma bytes_ok_take n a : bytes_ok a → bytes_ok (take n a).
Proof. apply Forall_take. Qed.

Lemma bytes_ok_drop n a : bytes_ok a → bytes_ok (drop n a).
Proof. apply Forall_drop. Qed.

#[export] Hint Resolve bytes_ok_take bytes_ok_drop : prana.

Lemma le_bytes_mod n v : le_bytes n (v mod 256 ^ Z.of_nat n) = le_bytes n v.
Proof.
  unfold le_bytes. f_equal. apply bytes_cmp_eq.
  rewrite bytes_cmp_be_val by (rewrite ?length_be_bytes; auto with prana).
  rewrite !be_val_be_bytes, Z.mod_mod by lia. apply Z.compare_refl.
Qed.

Lemma be_bytes_mod n v : be_bytes n (v mod 256 ^ Z.of_nat n) = be_bytes n v.
Proof.
  apply bytes_cmp_eq. rewrite bytes_cmp_be_val by (rewrite ?length_be_bytes; auto with prana).
  rewrite !be_val_be_bytes, Z.mod_mod by lia. apply Z.compare_refl.
Qed.

(** ** Indexing and loops *)

Lemma index_ok {A} (l : list A) i x : l !! i = Some x → index l i = Ok x.
Proof. unfold index. by intros ->. Qed.

Lemma index_app_mid {A} (p : list A) x s i : i = length p → index (p ++ x :: s) i = Ok x.
Proof. intros ->. apply index_ok. by rewrite lookup_app_r, Nat.sub_diag by lia. Qed.

Lemma mapM_o_ok {A B} (f : A → outcome B) (g : A → B) l :
  (∀ x, x ∈ l → f x = Ok (g x)) → mapM_o f l = Ok (map g l).
Proof.
  induction l as [|x l IH]; intros H; simpl; [done|].
  rewrite H by set_solver. osimpl. rewrite IH by set_solver. done.
Qed.

Lemma foldM_ext {A T} (f g : T → A → outcome T) st l : (∀ st x, f st x = g st x) → foldM f st l = foldM g st l.
Proof.
  intros Hfg. revert st. induction l as [|x l IH]; intros st; simpl; [done|]. rewrite Hfg.
  destruct (g st x); simpl; [apply IH|done..].
Qed.

Lemma foldM_app {A T} (f : T → A → outcome T) st a b : foldM f st (a ++ b) = (st ← foldM f st a; foldM f st b).
Proof. revert st. induction a as [|x a IH]; intros st; simpl; [done|]. destruct (f st x); simpl; [apply IH|done..]. Qed.

Lemma foldM_snoc {A B} (f : A → B) (acc : list B) l : foldM (λ acc x, Ok (acc ++ [f x])) acc l = Ok (acc ++ map f l).
Proof.
  revert acc. induction l as [|x l IH]; intros acc; simpl; [by rewrite app_nil_r|]. rewrite IH. by rewrite <- app_assoc.
Qed.

(** A property that every step keeps holds at the end of the loop. *)
Lemma foldM_inv {A T} (R : T → Prop) (f : T → A → outcome T) l st st' :
  (∀ st x st', x ∈ l → R st → f st x = Ok st' → R st') → R st → foldM f st l = Ok st' → R st'.
Proof.
  revert st. induction l as [|x l IH]; intros st Hstep Hst Hrun; simpl in Hrun; [by inv Hrun|].
  destruct (f st x) as [st1| | |] eqn:E; simpl in Hrun; try done. eapply IH; [|by eapply Hstep; [left|..]|done].
  intros st2 y st3 Hy. apply Hstep. by right.
Qed.

(** Two loops over the same list, in step. *)
Lemma foldM_rel {A T U} (R : T → U → Prop) (f : T → A → outcome T) (g : U → A → outcome U) l st st' u u' :
  (∀ st u x st' u', R st u → f st x = Ok st' → g u x = Ok u' → R st' u') →
  R st u → foldM f st l = Ok st' → foldM g u l = Ok u' → R st' u'.
Proof.
  intros Hstep. revert st u. induction l as [|x l IH]; intros st u HR Hf Hg; simpl in *; [congruence|].
  destruct (f st x) as [st1| | |] eqn:Ef; simpl in Hf; try done.
  destruct (g u x) as [u1| | |] eqn:Eg; simpl in Hg; try done. eauto.
Qed.
