(* ===== verification/Encoding.v ===== *)
(** * Fixed-width integers, floats and strings in byte buffers

    Models common/encoding.go: the [Append...ToBuffer...] functions, which append
    to a byte slice, and the [Read...FromBuffer...] functions, which read at an
    offset and return the value with the offset after it.

    A buffer is a list of bytes and an offset a [nat]. [float64] and [float32] are
    the IEEE bit patterns they have in memory ([math.Float64bits] is a projection).
    The little-endian reads cast a pointer into the slice when the host is little
    endian ([IsLittleEndian]); such a load checks only the first byte of the value
    against the slice bounds, so a load that runs past the end is [Undef]. *)

From stdpp Require Import base list strings.
From Stdlib Require Import ZArith Lia.
From S2P Require Import Prelude.

(** ** Floats as bit patterns *)

Record float64 := Float64frombits { Float64bits : Z }.
Record float32 := Float32frombits { Float32bits : Z }.

#[global] Instance float64_eq_dec : EqDecision float64.
Proof. solve_decision. Defined.
#[global] Instance float32_eq_dec : EqDecision float32.
Proof. solve_decision. Defined.

(** ** Append *)

Definition AppendUint16ToBufferBE (buffer : bytes) (v : Z) : bytes :=
  buffer ++ [u8 (v ≫ 8); u8 v].

Definition AppendUint32ToBufferLE (buffer : bytes) (v : Z) : bytes :=
  buffer ++ [u8 v; u8 (v ≫ 8); u8 (v ≫ 16); u8 (v ≫ 24)].

Definition AppendUint32ToBufferBE (buffer : bytes) (v : Z) : bytes :=
  buffer ++ [u8 (v ≫ 24); u8 (v ≫ 16); u8 (v ≫ 8); u8 v].

Definition AppendUint64ToBufferLE (buffer : bytes) (v : Z) : bytes :=
  buffer ++ [u8 v; u8 (v ≫ 8); u8 (v ≫ 16); u8 (v ≫ 24); u8 (v ≫ 32);
             u8 (v ≫ 40); u8 (v ≫ 48); u8 (v ≫ 56)].

Definition AppendUint64ToBufferBE (buffer : bytes) (v : Z) : bytes :=
  buffer ++ [u8 (v ≫ 56); u8 (v ≫ 48); u8 (v ≫ 40); u8 (v ≫ 32); u8 (v ≫ 24);
             u8 (v ≫ 16); u8 (v ≫ 8); u8 v].

Definition AppendFloat64ToBufferLE (buffer : bytes) (value : float64) : bytes :=
  AppendUint64ToBufferLE buffer (Float64bits value).

Definition AppendFloat64ToBufferBE (buffer : bytes) (value : float64) : bytes :=
  AppendUint64ToBufferBE buffer (Float64bits value).

Definition AppendFloat32ToBufferBE (buffer : bytes) (value : float32) : bytes :=
  AppendUint32ToBufferBE buffer (Float32bits value).

Definition AppendStringToBufferLE (buffer : bytes) (value : bytes) : bytes :=
  AppendUint32ToBufferLE buffer (u32 (Z.of_nat (length value))) ++ value.

(** ** Read *)

Inductive endian := LittleEndianHost | BigEndianHost.

(** A [uintN] load through [unsafe.Pointer(&buffer[offset])]. *)
Definition native_load (h : endian) (n : nat) (buffer : bytes) (offset : nat) : outcome Z :=
  if decide (offset < length buffer)%nat then
    if decide (offset + n ≤ length buffer)%nat then
      let w := take n (drop offset buffer) in
      Ok (match h with LittleEndianHost => le_val w | BigEndianHost => be_val w end)
    else Undef
  else Panic "index out of range".

(** [bigEndian.UintN(buffer[offset:])] and [littleEndian.UintN(buffer[offset:])]. *)
Definition bigEndian_Uint (n : nat) (buffer : bytes) (offset : nat) : outcome Z :=
  s ← slice_from buffer offset;
  if decide (n ≤ length s)%nat then Ok (be_val (take n s)) else Panic "index out of range".
Definition littleEndian_Uint (n : nat) (buffer : bytes) (offset : nat) : outcome Z :=
  s ← slice_from buffer offset;
  if decide (n ≤ length s)%nat then Ok (le_val (take n s)) else Panic "index out of range".

(** Are we running on a machine with a little endian architecture? *)
Definition isLittleEndian (h : endian) : bool :=
  let buffer := AppendUint64ToBufferLE [] 123456 in
  match native_load h 8 buffer 0 with
  | Ok valRead => 123456 =? valRead
  | _ => false
  end.

Definition read_BE (h : endian) (n : nat) (buffer : bytes) (offset : nat) : outcome (Z * nat) :=
  v ← (if negb (isLittleEndian h) then native_load h n buffer offset
       else bigEndian_Uint n buffer offset);
  Ok (v, offset + n)%nat.

Definition read_LE (h : endian) (n : nat) (buffer : bytes) (offset : nat) : outcome (Z * nat) :=
  v ← (if isLittleEndian h then native_load h n buffer offset
       else littleEndian_Uint n buffer offset);
  Ok (v, offset + n)%nat.

(** The development runs the code on a little-endian host; [read_LE_in_range] and
    [read_BE_in_range] below show, for either host, that the choice does not matter inside the buffer. *)
Definition host : endian := LittleEndianHost.

Definition ReadUint16FromBufferBE (buffer : bytes) (offset : nat) : outcome (Z * nat) :=
  read_BE host 2 buffer offset.
Definition ReadUint32FromBufferLE (buffer : bytes) (offset : nat) : outcome (Z * nat) :=
  read_LE host 4 buffer offset.
Definition ReadUint32FromBufferBE (buffer : bytes) (offset : nat) : outcome (Z * nat) :=
  read_BE host 4 buffer offset.
Definition ReadUint64FromBufferLE (buffer : bytes) (offset : nat) : outcome (Z * nat) :=
  read_LE host 8 buffer offset.
Definition ReadUint64FromBufferBE (buffer : bytes) (offset : nat) : outcome (Z * nat) :=
  read_BE host 8 buffer offset.

Definition ReadInt64FromBufferLE (buffer : bytes) (offset : nat) : outcome (Z * nat) :=
  '(u, off) ← ReadUint64FromBufferLE buffer offset;
  Ok (i64 u, off).

Definition ReadFloat64FromBufferLE (buffer : bytes) (offset : nat) : outcome (float64 * nat) :=
  '(u, offset) ← ReadUint64FromBufferLE buffer offset;
  Ok (Float64frombits u, offset).

Definition ReadFloat64FromBufferBE (buffer : bytes) (offset : nat) : outcome (float64 * nat) :=
  '(u, offset) ← ReadUint64FromBufferBE buffer offset;
  Ok (Float64frombits u, offset).

Definition ReadFloat32FromBufferBE (buffer : bytes) (offset : nat) : outcome (float32 * nat) :=
  '(u, offset) ← ReadUint32FromBufferBE buffer offset;
  Ok (Float32frombits u, offset).

Definition ReadStringFromBufferLE (buffer : bytes) (offset : nat) : outcome (bytes * nat) :=
  '(lu, offset) ← ReadUint32FromBufferLE buffer offset;
  let l := Z.to_nat lu in
  str ← slice buffer offset (offset + l);
  Ok (str, offset + l)%nat.

(** ** The appended bytes *)

Lemma AppendUint16ToBufferBE_eq b v : AppendUint16ToBufferBE b v = b ++ be_bytes 2 v.
Proof. reflexivity. Qed.
Lemma AppendUint32ToBufferBE_eq b v : AppendUint32ToBufferBE b v = b ++ be_bytes 4 v.
Proof. reflexivity. Qed.
Lemma AppendUint64ToBufferBE_eq b v : AppendUint64ToBufferBE b v = b ++ be_bytes 8 v.
Proof. reflexivity. Qed.
Lemma AppendUint32ToBufferLE_eq b v : AppendUint32ToBufferLE b v = b ++ le_bytes 4 v.
Proof. reflexivity. Qed.
Lemma AppendUint64ToBufferLE_eq b v : AppendUint64ToBufferLE b v = b ++ le_bytes 8 v.
Proof. reflexivity. Qed.

Create Rewrite HintDb append_eq.
#[export] Hint Rewrite AppendUint16ToBufferBE_eq AppendUint32ToBufferBE_eq AppendUint64ToBufferBE_eq
  AppendUint32ToBufferLE_eq AppendUint64ToBufferLE_eq : append_eq.

(** From here on the bytes of a value are kept folded. *)
#[global] Opaque be_bytes le_bytes be_val le_val.

(** ** Reads inside the buffer *)

Lemma slice_ok b lo hi : (lo ≤ hi ≤ length b)%nat → slice b lo hi = Ok (take (hi - lo) (drop lo b)).
Proof. intros. unfold slice. by rewrite decide_True. Qed.

Lemma slice_app p x s lo hi :
  lo = length p → hi = (length p + length x)%nat → slice (p ++ x ++ s) lo hi = Ok x.
Proof.
  intros -> ->. rewrite slice_ok by (rewrite !length_app; lia).
  rewrite drop_app_length, Nat.add_comm, Nat.add_sub, take_app_length. done.
Qed.

Lemma slice_from_ok b lo : (lo ≤ length b)%nat → slice_from b lo = Ok (drop lo b).
Proof.
  intros. unfold slice_from. rewrite slice_ok by lia. f_equal. apply take_ge. rewrite length_drop. lia.
Qed.

Lemma isLittleEndian_spec h : isLittleEndian h = match h with LittleEndianHost => true | BigEndianHost => false end.
Proof. destruct h; reflexivity. Qed.

Lemma read_LE_in_range h n b off :
  (0 < n)%nat → (off + n ≤ length b)%nat → read_LE h n b off = Ok (le_val (take n (drop off b)), (off + n)%nat).
Proof.
  intros Hn Hb. unfold read_LE. rewrite isLittleEndian_spec. destruct h; simpl.
  - unfold native_load. by rewrite !decide_True by lia.
  - unfold littleEndian_Uint. rewrite slice_from_ok by lia. simpl.
    by rewrite decide_True by (rewrite length_drop; lia).
Qed.

Lemma read_BE_in_range h n b off :
  (0 < n)%nat → (off + n ≤ length b)%nat → read_BE h n b off = Ok (be_val (take n (drop off b)), (off + n)%nat).
Proof.
  intros Hn Hb. unfold read_BE. rewrite isLittleEndian_spec. destruct h; simpl.
  - unfold bigEndian_Uint. rewrite slice_from_ok by lia. simpl.
    by rewrite decide_True by (rewrite length_drop; lia).
  - unfold native_load. by rewrite !decide_True by lia.
Qed.

Lemma read_LE_app h n p v s :
  (0 < n)%nat → 0 ≤ v < 256 ^ Z.of_nat n →
  read_LE h n (p ++ le_bytes n v ++ s) (length p) = Ok (v, (length p + n)%nat).
Proof.
  intros Hn Hv. rewrite read_LE_in_range by (rewrite ?length_app, ?length_le_bytes; lia).
  rewrite drop_app_length, take_app_length' by (by rewrite length_le_bytes).
  by rewrite le_val_le_bytes, Z.mod_small.
Qed.

Lemma read_BE_app h n p v s :
  (0 < n)%nat → 0 ≤ v < 256 ^ Z.of_nat n →
  read_BE h n (p ++ be_bytes n v ++ s) (length p) = Ok (v, (length p + n)%nat).
Proof.
  intros Hn Hv. rewrite read_BE_in_range by (rewrite ?length_app, ?length_be_bytes; lia).
  rewrite drop_app_length, take_app_length' by (by rewrite length_be_bytes).
  by rewrite be_val_be_bytes, Z.mod_small.
Qed.

(** The forms the other components use: an encoded value [v] between what was
    written before it and what was written after it. *)
Lemma ReadUint64LE_app p v s off :
  off = length p → u64_ok v →
  ReadUint64FromBufferLE (p ++ le_bytes 8 v ++ s) off = Ok (v, (off + 8)%nat).
Proof. intros -> Hv. apply read_LE_app; unfold_width; lia. Qed.

Lemma ReadUint64BE_app p v s off :
  off = length p → u64_ok v →
  ReadUint64FromBufferBE (p ++ be_bytes 8 v ++ s) off = Ok (v, (off + 8)%nat).
Proof. intros -> Hv. apply read_BE_app; unfold_width; lia. Qed.

(** The same at the end of the buffer and at its start. *)
Lemma ReadUint64LE_last p v off :
  off = length p → u64_ok v → ReadUint64FromBufferLE (p ++ le_bytes 8 v) off = Ok (v, (off + 8)%nat).
Proof. intros. rewrite <- (app_nil_r (le_bytes 8 v)). by apply ReadUint64LE_app. Qed.

Lemma ReadUint64LE_head v s : u64_ok v → ReadUint64FromBufferLE (le_bytes 8 v ++ s) 0 = Ok (v, 8%nat).
Proof. by apply (ReadUint64LE_app []). Qed.

Lemma ReadUint64LE_whole v : u64_ok v → ReadUint64FromBufferLE (le_bytes 8 v) 0 = Ok (v, 8%nat).
Proof. by apply (ReadUint64LE_last []). Qed.

Lemma ReadUint64BE_whole v : u64_ok v → ReadUint64FromBufferBE (be_bytes 8 v) 0 = Ok (v, 8%nat).
Proof. intros. rewrite <- (app_nil_r (be_bytes 8 v)). by apply (ReadUint64BE_app []). Qed.

Lemma ReadUint32LE_app p v s off :
  off = length p → u32_ok v →
  ReadUint32FromBufferLE (p ++ le_bytes 4 v ++ s) off = Ok (v, (off + 4)%nat).
Proof. intros -> Hv. apply read_LE_app; unfold_width; lia. Qed.

Lemma ReadUint32BE_app p v s off :
  off = length p → u32_ok v →
  ReadUint32FromBufferBE (p ++ be_bytes 4 v ++ s) off = Ok (v, (off + 4)%nat).
Proof. intros -> Hv. apply read_BE_app; unfold_width; lia. Qed.

Lemma ReadStringLE_app p str s off :
  off = length p → u32_ok (Z.of_nat (length str)) →
  ReadStringFromBufferLE (p ++ le_bytes 4 (u32 (Z.of_nat (length str))) ++ str ++ s) off =
    Ok (str, (off + 4 + length str)%nat).
Proof.
  intros -> Hl. unfold ReadStringFromBufferLE. rewrite u32_small by done.
  rewrite ReadUint32LE_app by done. simpl. rewrite Nat2Z.id.
  rewrite (app_assoc p). rewrite (slice_app _ str s); rewrite ?length_app, ?length_le_bytes; done.
Qed.

Lemma ReadString_AppendString p str s off :
  off = length p → u32_ok (Z.of_nat (length str)) →
  ReadStringFromBufferLE (AppendStringToBufferLE p str ++ s) off = Ok (str, length (AppendStringToBufferLE p str)).
Proof.
  intros Ho Hl. unfold AppendStringToBufferLE. rewrite AppendUint32ToBufferLE_eq, <- !app_assoc, ReadStringLE_app by done.
  rewrite !length_app, length_le_bytes. do 2 f_equal. lia.
Qed.
