(* ===== verification/Timestamp.v ===== *)
(** * Timestamps

    Models the [Time] type of tidb/types/time.go and tidb/types/core_time.go that
    [common.Timestamp] is an alias of: a 64-bit word of bit fields, its packed
    form, and the buffer encodings of common/encoding.go and
    common/key_encoding.go. *)

From stdpp Require Import base list strings.
From Stdlib Require Import ZArith Lia.
From S2P Require Import Prelude Encoding.

(** ** Core time: bit fields of a uint64 *)

Definition bitFieldMask (offset width : Z) : Z := (1 ≪ width - 1) ≪ offset.

Definition yearBitFieldOffset := 50.
Definition yearBitFieldWidth := 14.
Definition monthBitFieldOffset := 46.
Definition monthBitFieldWidth := 4.
Definition dayBitFieldOffset := 41.
Definition dayBitFieldWidth := 5.
Definition hourBitFieldOffset := 36.
Definition hourBitFieldWidth := 5.
Definition minuteBitFieldOffset := 30.
Definition minuteBitFieldWidth := 6.
Definition secondBitFieldOffset := 24.
Definition secondBitFieldWidth := 6.
Definition microsecondBitFieldOffset := 4.
Definition microsecondBitFieldWidth := 20.
Definition fspTtBitFieldMask := 15.
Definition fspTtForDate := 14.
Definition fspBitFieldMask := 14.
Definition coreTimeBitFieldMask := Z.lxor (two64 - 1) fspTtBitFieldMask.

Definition getField (offset width t : Z) : Z := Z.land t (bitFieldMask offset width) ≫ offset.

Definition Year (t : Z) : Z := u16 (getField yearBitFieldOffset yearBitFieldWidth t).
Definition Month (t : Z) : Z := u8 (getField monthBitFieldOffset monthBitFieldWidth t).
Definition Day (t : Z) : Z := u8 (getField dayBitFieldOffset dayBitFieldWidth t).
Definition Hour (t : Z) : Z := u8 (getField hourBitFieldOffset hourBitFieldWidth t).
Definition Minute (t : Z) : Z := u8 (getField minuteBitFieldOffset minuteBitFieldWidth t).
Definition Second (t : Z) : Z := u8 (getField secondBitFieldOffset secondBitFieldWidth t).
Definition Microsecond (t : Z) : Z := u32 (getField microsecondBitFieldOffset microsecondBitFieldWidth t).

Definition putField (offset width x : Z) : Z := Z.land (u64 (u64 x ≪ offset)) (bitFieldMask offset width).

Definition ZeroCoreTime : Z := 0.

Definition FromDate (year month day hour minute second microsecond : Z) : Z :=
  let v := ZeroCoreTime in
  let v := Z.lor v (putField microsecondBitFieldOffset microsecondBitFieldWidth microsecond) in
  let v := Z.lor v (putField secondBitFieldOffset secondBitFieldWidth second) in
  let v := Z.lor v (putField minuteBitFieldOffset minuteBitFieldWidth minute) in
  let v := Z.lor v (putField hourBitFieldOffset hourBitFieldWidth hour) in
  let v := Z.lor v (putField dayBitFieldOffset dayBitFieldWidth day) in
  let v := Z.lor v (putField monthBitFieldOffset monthBitFieldWidth month) in
  let v := Z.lor v (putField yearBitFieldOffset yearBitFieldWidth year) in
  v.

(** datetimeToUint64 converts time value to integer in YYYYMMDDHHMMSS format. *)
Definition datetimeToUint64 (t : Z) : Z :=
  u64 (Year t * 10000000000 + Month t * 100000000 + Day t * 1000000 +
       Hour t * 10000 + Minute t * 100 + Second t).

Definition compareTime (a b : Z) : comparison :=
  match (datetimeToUint64 a ?= datetimeToUint64 b)%Z with
  | Lt => Lt
  | Gt => Gt
  | Eq => (Microsecond a ?= Microsecond b)%Z
  end.

(** ** Time *)

Record Time := MkTime { coreTime : Z }.
Abbreviation Timestamp := Time (only parsing).

#[global] Instance Time_eq_dec : EqDecision Time.
Proof. solve_decision. Defined.

(** The MySQL types a [Time] can have. *)
Inductive timeType := TypeDate | TypeDatetime | TypeTimestamp_.

Definition UnspecifiedFsp : Z := -1.
Definition DefaultFsp : Z := 0.
Definition ZeroTime : Time := MkTime 0.

Definition getFspTt (t : Time) : Z := u8 (Z.land (coreTime t) fspTtBitFieldMask).

Definition setFspTt (t : Time) (fspTt : Z) : Time :=
  MkTime (Z.lor (Z.ldiff (coreTime t) fspTtBitFieldMask) fspTt).

Definition SetType (t : Time) (tp : timeType) : Time :=
  let fspTt := getFspTt t in
  let fspTt :=
    match tp with
    | TypeDate => fspTt
    | _ => if fspTt =? fspTtForDate then 0 else fspTt
    end in
  let fspTt :=
    match tp with
    | TypeDate => fspTtForDate
    | TypeTimestamp_ => Z.lor fspTt 1
    | TypeDatetime => Z.ldiff fspTt 1
    end in
  setFspTt t fspTt.

Definition SetFsp (t : Time) (fsp : Z) : Time :=
  if getFspTt t =? fspTtForDate then t
  else
    let fsp := if fsp =? UnspecifiedFsp then DefaultFsp else fsp in
    MkTime (Z.lor (Z.ldiff (coreTime t) fspBitFieldMask) (u64 (u64 fsp ≪ 1))).

Definition SetCoreTime (t : Time) (ct : Z) : Time :=
  MkTime (Z.lor (Z.ldiff (coreTime t) coreTimeBitFieldMask) (Z.land ct coreTimeBitFieldMask)).

Definition NewTime (ct : Z) (tp : timeType) (fsp : Z) : Time :=
  let p := Z.land ct coreTimeBitFieldMask in
  match tp with
  | TypeDate => MkTime (Z.lor p fspTtForDate)
  | _ =>
      let fsp := if fsp =? UnspecifiedFsp then DefaultFsp else fsp in
      let p := Z.lor p (u64 (u64 fsp ≪ 1)) in
      match tp with
      | TypeTimestamp_ => MkTime (Z.lor p 1)
      | _ => MkTime p
      end
  end.

Definition IsZero (t : Time) : bool :=
  match compareTime (coreTime t) ZeroCoreTime with Eq => true | _ => false end.

Definition Compare (t o : Time) : comparison := compareTime (coreTime t) (coreTime o).

(** ToPackedUint encodes Time to a packed uint64 value. *)
Definition ToPackedUint (t : Time) : outcome Z :=
  if IsZero t then Ok 0
  else
    let c := coreTime t in
    let ymd := u64 (Z.lor ((Year c * 13 + Month c) ≪ 5) (Day c)) in
    let hms := u64 (Z.lor (Z.lor (Hour c ≪ 12) (Minute c ≪ 6)) (Second c)) in
    let micro := u64 (Microsecond c) in
    Ok (Z.lor (u64 (Z.lor (u64 (ymd ≪ 17)) hms ≪ 24)) micro).

(** FromPackedUint decodes Time from a packed uint64 value. *)
Definition FromPackedUint (t : Time) (packed : Z) : outcome Time :=
  if packed =? 0 then Ok (SetCoreTime t ZeroCoreTime)
  else
    let ymdhms := packed ≫ 24 in
    let ymd := ymdhms ≫ 17 in
    let day := Z.land ymd (1 ≪ 5 - 1) in
    let ym := ymd ≫ 5 in
    let month := ym mod 13 in
    let year := ym / 13 in
    let hms := Z.land ymdhms (1 ≪ 17 - 1) in
    let second := Z.land hms (1 ≪ 6 - 1) in
    let minute := Z.land (hms ≫ 6) (1 ≪ 6 - 1) in
    let hour := hms ≫ 12 in
    let microsec := packed mod (1 ≪ 24) in
    Ok (SetCoreTime t (FromDate year month day hour minute second microsec)).

(** ** Buffer encodings *)

Definition AppendTimestampToBuffer (buffer : bytes) (ts : Timestamp) : outcome bytes :=
  enc ← ToPackedUint ts;
  Ok (AppendUint64ToBufferLE buffer enc).

Definition ReadTimestampFromBuffer (buffer : bytes) (offset : nat) (fsp : Z) : outcome (Timestamp * nat) :=
  let ts := ZeroTime in
  '(enc, off) ← ReadUint64FromBufferLE buffer offset;
  ts ← FromPackedUint ts enc;
  let ts := SetType ts TypeTimestamp_ in
  let ts := SetFsp ts fsp in
  Ok (ts, off).

Definition ReadTimestampFromBufferBE (buffer : bytes) (offset : nat) (fsp : Z) : outcome (Timestamp * nat) :=
  let ts := ZeroTime in
  '(enc, off) ← ReadUint64FromBufferBE buffer offset;
  ts ← FromPackedUint ts enc;
  let ts := SetType ts TypeTimestamp_ in
  let ts := SetFsp ts fsp in
  Ok (ts, off).

Definition KeyEncodeTimestamp (buffer : bytes) (val : Timestamp) : outcome bytes :=
  enc ← ToPackedUint val;
  Ok (AppendUint64ToBufferBE buffer enc).

Definition KeyDecodeTimestamp (buffer : bytes) (offset : nat) (fsp : Z) : outcome (Timestamp * nat) :=
  ReadTimestampFromBufferBE buffer offset fsp.

(** ** Well-formed timestamps

    What the TIMESTAMP columns hold: a 64-bit word with the timestamp type bit,
    the column's fractional-seconds precision and a month of a calendar. *)

Definition time_ok (fsp : Z) (t : Time) : Prop :=
  u64_ok (coreTime t) ∧ 0 ≤ fsp ≤ 6 ∧ coreTime t mod 16 = 2 * fsp + 1 ∧ Month (coreTime t) ≤ 12.

#[global] Instance time_ok_dec fsp t : Decision (time_ok fsp t).
Proof. unfold time_ok, u64_ok. apply _. Defined.

(** ** Bit fields as arithmetic *)

Lemma lor_add a b k : 0 ≤ k → 0 ≤ b < 2 ^ k → Z.lor (a * 2 ^ k) b = a * 2 ^ k + b.
Proof.
  intros Hk Hb. rewrite <- (Z.mod_small b (2 ^ k)) by done.
  rewrite <- Z.lxor_lor; [rewrite Z.add_nocarry_lxor; [done|]|].
  all: apply Z.bits_inj'; intros n Hn; rewrite Z.land_spec, Z.bits_0;
    destruct (decide (n < k));
    [by rewrite Z.mul_pow2_bits_low|rewrite Z.mod_pow2_bits_high by lia; apply andb_false_r].
Qed.

Lemma lor_add_l a b k : 0 ≤ k → 0 ≤ b < 2 ^ k → Z.lor b (a * 2 ^ k) = a * 2 ^ k + b.
Proof. intros. rewrite Z.lor_comm. by apply lor_add. Qed.

Lemma land_mask z k : 0 ≤ k → Z.land z (1 ≪ k - 1) = z mod 2 ^ k.
Proof. intros. rewrite Z.shiftl_1_l, <- Z.land_ones by lia. f_equal. by rewrite Z.ones_equiv. Qed.

Lemma getField_eq off w t : 0 ≤ off → 0 ≤ w → getField off w t = (t / 2 ^ off) mod 2 ^ w.
Proof.
  intros. unfold getField, bitFieldMask. rewrite Z.shiftr_land, Z.shiftr_shiftl_l, Z.sub_diag, Z.shiftl_0_r by lia.
  by rewrite land_mask, Z.shiftr_div_pow2 by lia.
Qed.

Lemma putField_eq off w x :
  0 ≤ off → 0 ≤ w → off + w ≤ 64 → 0 ≤ x < 2 ^ w → putField off w x = x * 2 ^ off.
Proof.
  intros Ho Hw How Hx. unfold putField, bitFieldMask, u64.
  assert (x * 2 ^ off < two64).
  { change two64 with (2 ^ 64). apply Z.lt_le_trans with (2 ^ (off + w)).
    - rewrite Z.pow_add_r by lia. nia.
    - by apply Z.pow_le_mono_r. }
  assert (2 ^ off > 0) by lia.
  rewrite (Z.mod_small x) by nia. rewrite Z.shiftl_mul_pow2, Z.mod_small by nia.
  rewrite <- Z.shiftl_mul_pow2, <- Z.shiftl_land, land_mask, Z.mod_small by lia. done.
Qed.

(** The fields of a 64-bit word. *)
Lemma time_fields c :
  Year c = (c / 2 ^ 50) mod 2 ^ 14 ∧ Month c = (c / 2 ^ 46) mod 2 ^ 4 ∧ Day c = (c / 2 ^ 41) mod 2 ^ 5 ∧
  Hour c = (c / 2 ^ 36) mod 2 ^ 5 ∧ Minute c = (c / 2 ^ 30) mod 2 ^ 6 ∧ Second c = (c / 2 ^ 24) mod 2 ^ 6 ∧
  Microsecond c = (c / 2 ^ 4) mod 2 ^ 20.
Proof.
  unfold Year, Month, Day, Hour, Minute, Second, Microsecond, u16, u8, u32,
    yearBitFieldOffset, yearBitFieldWidth, monthBitFieldOffset, monthBitFieldWidth, dayBitFieldOffset,
    dayBitFieldWidth, hourBitFieldOffset, hourBitFieldWidth, minuteBitFieldOffset, minuteBitFieldWidth,
    secondBitFieldOffset, secondBitFieldWidth, microsecondBitFieldOffset, microsecondBitFieldWidth.
  rewrite !getField_eq by lia.
  split_and!; apply Z.mod_small;
    (split; [apply Z.mod_pos_bound; done|eapply Z.lt_le_trans; [by apply Z.mod_pos_bound|done]]).
Qed.

Lemma FromDate_eq y mo d h mi s us :
  0 ≤ y < 2 ^ 14 → 0 ≤ mo < 2 ^ 4 → 0 ≤ d < 2 ^ 5 → 0 ≤ h < 2 ^ 5 → 0 ≤ mi < 2 ^ 6 → 0 ≤ s < 2 ^ 6 →
  0 ≤ us < 2 ^ 20 →
  FromDate y mo d h mi s us =
    y * 2 ^ 50 + (mo * 2 ^ 46 + (d * 2 ^ 41 + (h * 2 ^ 36 + (mi * 2 ^ 30 + (s * 2 ^ 24 + us * 2 ^ 4))))).
Proof.
  intros. unfold FromDate, ZeroCoreTime, yearBitFieldOffset, yearBitFieldWidth, monthBitFieldOffset,
    monthBitFieldWidth, dayBitFieldOffset, dayBitFieldWidth, hourBitFieldOffset, hourBitFieldWidth,
    minuteBitFieldOffset, minuteBitFieldWidth, secondBitFieldOffset, secondBitFieldWidth,
    microsecondBitFieldOffset, microsecondBitFieldWidth.
  rewrite !putField_eq, Z.lor_0_l by lia. 
  rewrite (lor_add_l s _ 24) by lia. rewrite (lor_add_l mi _ 30) by lia. rewrite (lor_add_l h _ 36) by lia.
  rewrite (lor_add_l d _ 41) by lia. rewrite (lor_add_l mo _ 46) by lia. by rewrite (lor_add_l y _ 50) by lia.
Qed.

(** The bounds every field has, and the word put together from its fields. *)
Lemma time_field_bounds c :
  0 ≤ Year c < 2 ^ 14 ∧ 0 ≤ Month c < 2 ^ 4 ∧ 0 ≤ Day c < 2 ^ 5 ∧ 0 ≤ Hour c < 2 ^ 5 ∧
  0 ≤ Minute c < 2 ^ 6 ∧ 0 ≤ Second c < 2 ^ 6 ∧ 0 ≤ Microsecond c < 2 ^ 20.
Proof.
  destruct (time_fields c) as (-> & -> & -> & -> & -> & -> & ->).
  split_and!; apply Z.mod_pos_bound; done.
Qed.

Lemma time_word c :
  u64_ok c →
  c = FromDate (Year c) (Month c) (Day c) (Hour c) (Minute c) (Second c) (Microsecond c) + c mod 16.
Proof.
  intros Hc. pose proof (time_field_bounds c). rewrite FromDate_eq by tauto.
  destruct (time_fields c) as (-> & -> & -> & -> & -> & -> & ->). unfold_width.
  Z.to_euclidean_division_equations. lia.
Qed.

(** ** The packed form *)

Definition pack (c : Z) : Z :=
  (((Year c * 13 + Month c) * 2 ^ 5 + Day c) * 2 ^ 17 +
   ((Hour c * 2 ^ 6 + Minute c) * 2 ^ 6 + Second c)) * 2 ^ 24 + Microsecond c.

Lemma pack_range c : u64_ok (pack c).
Proof. pose proof (time_field_bounds c). unfold pack; unfold_width. lia. Qed.

Lemma IsZero_pack t : IsZero t = true → pack (coreTime t) = 0.
Proof.
  unfold IsZero, compareTime, ZeroCoreTime. change (datetimeToUint64 0) with 0. change (Microsecond 0) with 0.
  pose proof (time_field_bounds (coreTime t)). unfold datetimeToUint64, u64. rewrite Z.mod_small by lia.
  destruct (Z.compare_spec (Year (coreTime t) * 10000000000 + Month (coreTime t) * 100000000 +
    Day (coreTime t) * 1000000 + Hour (coreTime t) * 10000 + Minute (coreTime t) * 100 + Second (coreTime t)) 0);
    try done.
  destruct (Z.compare_spec (Microsecond (coreTime t)) 0); try done. intros _. unfold pack. lia.
Qed.

Lemma ToPackedUint_eq t : ToPackedUint t = Ok (pack (coreTime t)).
Proof.
  unfold ToPackedUint. destruct (IsZero t) eqn:HZ; [by rewrite (IsZero_pack t)|]. f_equal.
  pose proof (time_field_bounds (coreTime t)). unfold pack, u64.
  rewrite !Z.shiftl_mul_pow2 by lia. rewrite (lor_add _ (Day _) 5) by lia.
  replace (Hour (coreTime t) * 2 ^ 12) with (Hour (coreTime t) * 2 ^ 6 * 2 ^ 6) by lia.
  rewrite <- Z.lor_assoc, (lor_add _ (Second _) 6) by lia.
  rewrite <- (Z.mul_assoc _ (2 ^ 6) (2 ^ 6)). change (2 ^ 6 * 2 ^ 6) with (2 ^ 12).
  rewrite (lor_add _ _ 12) by lia.
  rewrite (Z.mod_small (_ + Day _)) by lia. rewrite (Z.mod_small (_ * 2 ^ 17)) by lia.
  rewrite (Z.mod_small (Hour _ * _ + _)) by lia. rewrite (Z.mod_small (Microsecond _)) by lia.
  rewrite (lor_add _ (Hour _ * _ + _)) by lia.
  rewrite (Z.mod_small (_ * 2 ^ 24)) by lia. rewrite lor_add by lia. lia.
Qed.

Lemma ldiff_low z k : 0 ≤ k → Z.ldiff z (Z.ones k) = z - z mod 2 ^ k.
Proof.
  intros. rewrite Z.ldiff_ones_r, Z.shiftl_mul_pow2, Z.shiftr_div_pow2 by lia.
  pose proof (Z.div_mod z (2 ^ k)). lia.
Qed.

(** Clearing bits below position [k] leaves the bits above it alone. *)
Lemma ldiff_high q r k m :
  0 ≤ k → 0 ≤ r < 2 ^ k → 0 ≤ m < 2 ^ k → Z.ldiff (q * 2 ^ k + r) m = q * 2 ^ k + Z.ldiff r m.
Proof.
  intros Hk Hr Hm.
  assert (0 ≤ Z.ldiff r m < 2 ^ k).
  { assert (Z.ldiff r m = Z.ldiff r m mod 2 ^ k) as ->; [|by apply Z.mod_pos_bound; lia].
    apply Z.bits_inj'; intros n Hn. destruct (decide (n < k)); [by rewrite Z.mod_pow2_bits_low|].
    rewrite Z.mod_pow2_bits_high, Z.ldiff_spec, <- (Z.mod_small r (2 ^ k)), Z.mod_pow2_bits_high by lia. done. }
  rewrite <- !lor_add by lia. apply Z.bits_inj'; intros n Hn.
  rewrite Z.ldiff_spec, !Z.lor_spec, Z.ldiff_spec.
  destruct (decide (n < k)).
  - by rewrite Z.mul_pow2_bits_low.
  - rewrite <- (Z.mod_small m (2 ^ k)) by lia. rewrite Z.mod_pow2_bits_high by lia.
    by rewrite !andb_true_r.
Qed.

Lemma coreTimeBitField_land c : u64_ok c → c mod 16 = 0 → Z.land c coreTimeBitFieldMask = c.
Proof.
  intros Hc H0. unfold coreTimeBitFieldMask, fspTtBitFieldMask.
  change (two64 - 1) with (Z.ones 64). change 15 with (Z.ones 4).
  replace (Z.lxor (Z.ones 64) (Z.ones 4)) with (Z.ldiff (Z.ones 64) (Z.ones 4)) by reflexivity.
  rewrite Z.ldiff_land, Z.land_assoc, Z.land_ones, <- Z.ldiff_land, ldiff_low by lia.
  unfold_width. rewrite (Z.mod_small c) by lia. change (2 ^ 4) with 16. lia.
Qed.

Definition core_of (c : Z) : Z :=
  FromDate (Year c) (Month c) (Day c) (Hour c) (Minute c) (Second c) (Microsecond c).

Lemma core_of_low c : u64_ok (core_of c) ∧ core_of c mod 16 = 0.
Proof.
  pose proof (time_field_bounds c). unfold core_of. rewrite FromDate_eq by tauto. unfold_width.
  split; [lia|]. apply Z.mod_divide; [done|].
  exists (Year c * 2 ^ 46 + (Month c * 2 ^ 42 + (Day c * 2 ^ 37 + (Hour c * 2 ^ 32 +
    (Minute c * 2 ^ 26 + (Second c * 2 ^ 20 + Microsecond c)))))). lia.
Qed.

Lemma core_of_zero c : pack c = 0 → core_of c = 0.
Proof. pose proof (time_field_bounds c). unfold core_of. rewrite FromDate_eq by tauto. unfold pack. lia. Qed.

Lemma unpack_fields c (p := pack c) :
  Month c ≤ 12 →
  (((p ≫ 24) ≫ 17) ≫ 5) / 13 = Year c ∧ (((p ≫ 24) ≫ 17) ≫ 5) mod 13 = Month c ∧
  Z.land ((p ≫ 24) ≫ 17) (1 ≪ 5 - 1) = Day c ∧
  Z.land (p ≫ 24) (1 ≪ 17 - 1) ≫ 12 = Hour c ∧
  Z.land (Z.land (p ≫ 24) (1 ≪ 17 - 1) ≫ 6) (1 ≪ 6 - 1) = Minute c ∧
  Z.land (Z.land (p ≫ 24) (1 ≪ 17 - 1)) (1 ≪ 6 - 1) = Second c ∧
  p mod (1 ≪ 24) = Microsecond c.
Proof.
  intros Hmo. pose proof (time_field_bounds c) as B.
  rewrite !land_mask, !Z.shiftr_div_pow2, Z.shiftl_1_l by lia.
  assert (p / 2 ^ 24 = ((Year c * 13 + Month c) * 2 ^ 5 + Day c) * 2 ^ 17 +
                       ((Hour c * 2 ^ 6 + Minute c) * 2 ^ 6 + Second c) ∧
          p mod 2 ^ 24 = Microsecond c) as [-> ->] by (unfold p, pack; split;
    [rewrite Z.div_add_l, (Z.div_small (Microsecond c)) by lia; lia|
     rewrite Z.add_comm, Z.mod_add by lia; apply Z.mod_small; lia]).
  set (hms := (Hour c * 2 ^ 6 + Minute c) * 2 ^ 6 + Second c).
  assert (0 ≤ hms < 2 ^ 17) by (unfold hms; lia).
  rewrite Z.div_add_l, (Z.div_small hms), Z.add_0_r by lia.
  rewrite Z.div_add_l, (Z.div_small (Day c)), Z.add_0_r by lia.
  rewrite (Z.add_comm _ hms), Z.mod_add, (Z.mod_small hms) by lia.
  unfold hms. Z.to_euclidean_division_equations. lia.
Qed.

(** The type and precision bits [SetType] and [SetFsp] put under a core time. *)
Lemma set_type_fsp c fsp :
  0 ≤ fsp ≤ 6 → c mod 16 = 0 → SetFsp (SetType (MkTime c) TypeTimestamp_) fsp = MkTime (c + (2 * fsp + 1)).
Proof.
  intros Hfsp H0.
  assert (c = c / 16 * 2 ^ 4 + 0) as Hc by (change (2 ^ 4) with 16; Z.to_euclidean_division_equations; lia).
  set (q := c / 16) in *. clearbody q. subst c. clear H0.
  unfold SetType, SetFsp, setFspTt, getFspTt, fspTtBitFieldMask, fspTtForDate, fspBitFieldMask, UnspecifiedFsp, u64.
  cbn [coreTime]. rewrite (ldiff_high q 0 4 15) by lia. change (Z.ldiff 0 15) with 0.
  change 15 with (Z.ones 4). rewrite (Z.land_ones (q * 2 ^ 4 + 0)) by lia.
  rewrite Z.add_0_r, Z.mod_mul by lia. change (u8 0) with 0. cbn [Z.eqb Z.lor].
  change (Z.lor 0 1) with 1. rewrite (lor_add q 1 4) by lia. rewrite Z.land_ones, (Z.add_comm (q * 2 ^ 4) 1), Z.mod_add by lia.
  change (u8 (1 mod 2 ^ 4) =? 14) with false. cbn match. destruct (Z.eqb_spec fsp (-1)); [lia|].
  rewrite Z.add_comm, (ldiff_high q 1 4 14) by lia. change (Z.ldiff 1 14) with 1.
  rewrite (Z.mod_small fsp), Z.shiftl_mul_pow2, Z.mod_small by lia. f_equal.
  rewrite <- lor_add, <- Z.lor_assoc, (Z.lor_comm 1), (lor_add fsp 1 1), lor_add by lia. lia.
Qed.

(** The time a packed value stands for, for a column of precision [fsp]. *)
Lemma unpack_pack fsp t :
  time_ok fsp t →
  (ts ← FromPackedUint ZeroTime (pack (coreTime t)); Ok (SetFsp (SetType ts TypeTimestamp_) fsp)) = Ok t.
Proof.
  intros (Hu & Hfsp & Hlow & Hmo). destruct t as [c]. cbn [coreTime] in *.
  assert (FromPackedUint ZeroTime (pack c) = Ok (MkTime (core_of c))) as ->.
  { pose proof (pack_range c) as Hp. unfold FromPackedUint. destruct (Z.eqb_spec (pack c) 0) as [H0|H0].
    - rewrite core_of_zero by done. reflexivity.
    - destruct (unpack_fields c Hmo) as (-> & -> & -> & -> & -> & -> & ->).
      unfold SetCoreTime, ZeroTime. cbn [coreTime]. fold (core_of c).
      by rewrite coreTimeBitField_land, Z.ldiff_0_l, Z.lor_0_l by apply core_of_low. }
  osimpl. destruct (core_of_low c) as [Hcu Hc0]. f_equal. f_equal.
  rewrite (time_word c Hu) at 2. fold (core_of c). rewrite Hlow.
  by apply set_type_fsp.
Qed.

Lemma ReadTimestampLE_app p t s fsp off :
  off = length p → time_ok fsp t →
  ReadTimestampFromBuffer (p ++ le_bytes 8 (pack (coreTime t)) ++ s) off fsp = Ok (t, (off + 8)%nat).
Proof.
  intros -> Ht. unfold ReadTimestampFromBuffer. rewrite ReadUint64LE_app by (auto using pack_range). osimpl.
  pose proof (unpack_pack fsp t Ht) as H. ostep H. osimpl. by inv H.
Qed.

Lemma ReadTimestampBE_app p t s fsp off :
  off = length p → time_ok fsp t →
  ReadTimestampFromBufferBE (p ++ be_bytes 8 (pack (coreTime t)) ++ s) off fsp = Ok (t, (off + 8)%nat).
Proof.
  intros -> Ht. unfold ReadTimestampFromBufferBE. rewrite ReadUint64BE_app by (auto using pack_range). osimpl.
  pose proof (unpack_pack fsp t Ht) as H. ostep H. osimpl. by inv H.
Qed.

(** ** Order *)

Lemma lex_compare a b k x y :
  0 ≤ x < k → 0 ≤ y < k →
  (a * k + x ?= b * k + y) = match (a ?= b) with Eq => (x ?= y) | c => c end.
Proof.
  intros. destruct (Z.compare_spec a b) as [->| |].
  - destruct (Z.compare_spec x y) as [->| |]; rewrite ?Z.compare_eq_iff, ?Z.compare_lt_iff, ?Z.compare_gt_iff; lia.
  - apply Z.compare_lt_iff. nia.
  - apply Z.compare_gt_iff. nia.
Qed.

(** Packed times are ordered like the times. *)
Lemma pack_compare a b :
  Month a ≤ 12 → Month b ≤ 12 → (pack a ?= pack b) = compareTime a b.
Proof.
  intros Ha Hb. pose proof (time_field_bounds a). pose proof (time_field_bounds b).
  unfold compareTime, datetimeToUint64, u64. rewrite !Z.mod_small by lia.
  replace (Year a * _ + _ + _ + _ + _ + _) with
    (((((Year a * 100 + Month a) * 100 + Day a) * 100 + Hour a) * 100 + Minute a) * 100 + Second a) by lia.
  replace (Year b * _ + _ + _ + _ + _ + _) with
    (((((Year b * 100 + Month b) * 100 + Day b) * 100 + Hour b) * 100 + Minute b) * 100 + Second b) by lia.
  unfold pack. repeat (rewrite lex_compare by lia).
  destruct (Year a ?= Year b), (Month a ?= Month b), (Day a ?= Day b), (Hour a ?= Hour b),
    (Minute a ?= Minute b), (Second a ?= Second b); done.
Qed.
