(* ===== verification/Floats.v ===== *)
(** * Doubles

    Go's [float64] is the 64 bits of an IEEE 754 double. Its arithmetic is that of Stdlib's
    [SpecFloat], on the numbers the bits stand for. *)

From stdpp Require Import base list strings.
From Stdlib Require Import ZArith Lia SpecFloat.
From S2P Require Import Prelude Encoding.

(** The number that the 64 bits stand for, and the bits of a number with a mantissa of 53
    bits; there is no one encoding of not-a-number. *)
Definition float_decode (f : float64) : spec_float :=
  let b := Float64bits f in
  let s := Z.testbit b 63 in
  let e := (b ≫ 52) mod 2048 in
  let m := b mod 2 ^ 52 in
  if e =? 2047 then (if m =? 0 then S754_infinity s else S754_nan)
  else if e =? 0 then match m with Zpos p => S754_finite s p (-1074) | _ => S754_zero s end
  else match m + 2 ^ 52 with Zpos p => S754_finite s p (e - 1075) | _ => S754_nan end.

Definition float_encode (x : spec_float) : outcome float64 :=
  let sign (s : bool) := if s then 2 ^ 63 else 0 in
  match x with
  | S754_zero s => Ok (Float64frombits (sign s))
  | S754_infinity s => Ok (Float64frombits (sign s + 2047 * 2 ^ 52))
  | S754_nan => Undef
  | S754_finite s p e =>
      Ok (Float64frombits (sign s + (if Zpos p <? 2 ^ 52 then Zpos p else (e + 1075) * 2 ^ 52 + (Zpos p - 2 ^ 52))))
  end.

Definition float_add (a b : float64) : outcome float64 := float_encode (SFadd 53 1024 (float_decode a) (float_decode b)).
Definition float_sub (a b : float64) : outcome float64 := float_encode (SFsub 53 1024 (float_decode a) (float_decode b)).

Definition float_neg (x : spec_float) : spec_float := SFopp x.
Definition sf_add (x y : spec_float) : spec_float := SFadd 53 1024 x y.
Definition sf_sub (x y : spec_float) : spec_float := SFsub 53 1024 x y.
Definition sf_mul (x y : spec_float) : spec_float := SFmul 53 1024 x y.
Definition sf_div (x y : spec_float) : spec_float := SFdiv 53 1024 x y.

(** [x < y] and [x == y] of Go: false when either is not a number. *)
Definition sf_lt (x y : spec_float) : bool := SFltb x y.
Definition sf_eq (x y : spec_float) : bool := SFeqb x y.
Definition sf_zero : spec_float := S754_zero false.
Definition sf_isZero (x : spec_float) : bool := match x with S754_zero _ => true | _ => false end.

(** [math.IsInf(f, 0)]. *)
Definition IsInf (x : spec_float) : bool := match x with S754_infinity _ => true | _ => false end.
Definition sf_isNaN (x : spec_float) : bool := match x with S754_nan => true | _ => false end.
