(* ===== verification/Decimal.v ===== *)
(** * Decimals

    Models the [MyDecimal] type of tidb/types/mydecimal.go that [common.Decimal]
    wraps, with its fixed-length binary form: [WriteBin], [FromBin] and their
    helpers, and [Encode], [Decode] and [ReadDecimalFromBuffer] of
    common/decimal.go and common/encoding.go.

    A decimal is nine 32-bit words of nine digits each, most significant first.
    Go's [int] arithmetic is on [Z], with [Z.quot] and [Z.rem] for its truncating
    division; [int32] and [int8] results are wrapped. *)

From stdpp Require Import base list strings.
From Stdlib Require Import ZArith Lia.
From S2P Require Import Prelude Encoding.

Definition maxWordBufLen : Z := 9.
Definition digitsPerWord : Z := 9.
Definition wordSize : Z := 4.
Definition wordMax : Z := 999999999.
(** [mysql.MaxDecimalScale] of the MySQL parser. *)
Definition MaxDecimalScale : Z := 30.

Definition powers10 : list Z :=
  [1; 10; 100; 1000; 10000; 100000; 1000000; 10000000; 100000000; 1000000000].
Definition dig2bytes : list Z := [0; 1; 1; 2; 2; 3; 3; 4; 4; 4].

Record MyDecimal := MkDecimal {
  digitsInt : Z;   (* the number of decimal digits before the point *)
  digitsFrac : Z;  (* the number of decimal digits after the point *)
  resultFrac : Z;  (* result fraction digits *)
  negative : bool;
  wordBuf : list Z (* nine words, 0 <= word < 10^9 *)
}.

#[global] Instance MyDecimal_eq_dec : EqDecision MyDecimal.
Proof. solve_decision. Defined.

Definition zeroMyDecimal : MyDecimal := MkDecimal 0 0 0 false (replicate 9 0).

Definition ErrBadNumber : string := "Bad Number".
Definition ErrOverflow : string := "value is out of range".
Definition ErrTruncated : string := "Data truncated for column".

(** ** Array accesses with an [int] index *)

Definition indexZ {A} (l : list A) (i : Z) : outcome A :=
  if i <? 0 then Panic "index out of range" else index l (Z.to_nat i).

Definition storeZ {A} (l : list A) (i : Z) (x : A) : outcome (list A) :=
  if (i <? 0) || (Z.of_nat (length l) <=? i) then Panic "index out of range"
  else Ok (<[Z.to_nat i := x]> l).

(** The bytes [bs] stored one after another from index [i]. *)
Fixpoint write_at (bin : bytes) (i : Z) (bs : bytes) : outcome bytes :=
  match bs with
  | [] => Ok bin
  | b :: bs' => bin ← storeZ bin i b; write_at bin (i + 1) bs'
  end.

(** ** Words *)

Definition readWord (b : bytes) (size : Z) : outcome Z :=
  if size =? 1 then
    b0 ← index b 0; Ok (i32 (i8 b0))
  else if size =? 2 then
    b1 ← index b 1; b0 ← index b 0; Ok (i32 (i32 (i8 b0 ≪ 8) + b1))
  else if size =? 3 then
    b0 ← index b 0; b1 ← index b 1; b2 ← index b 2;
    let low := Z.lor (Z.lor (b0 ≪ 16) (b1 ≪ 8)) b2 in
    if 0 <? Z.land b0 128 then Ok (i32 (Z.lor (255 ≪ 24) low)) else Ok (i32 low)
  else if size =? 4 then
    b3 ← index b 3; b2 ← index b 2; b1 ← index b 1; b0 ← index b 0;
    Ok (i32 (b3 + (b2 ≪ 8) + (b1 ≪ 16) + (i8 b0 ≪ 24)))
  else Ok 0.

(** The bytes [writeWord] stores at the start of its slice. *)
Definition writeWord (word size : Z) : bytes :=
  let v := u32 word in
  if size =? 1 then [u8 word]
  else if size =? 2 then [u8 (v ≫ 8); u8 v]
  else if size =? 3 then [u8 (v ≫ 16); u8 (v ≫ 8); u8 v]
  else if size =? 4 then [u8 (v ≫ 24); u8 (v ≫ 16); u8 (v ≫ 8); u8 v]
  else [].

Definition DecimalBinSize (precision frac : Z) : outcome Z :=
  let digitsInt := precision - frac in
  let wordsInt := digitsInt `quot` digitsPerWord in
  let wordsFrac := frac `quot` digitsPerWord in
  let xInt := digitsInt - wordsInt * digitsPerWord in
  let xFrac := frac - wordsFrac * digitsPerWord in
  dI ← indexZ dig2bytes xInt;
  dF ← indexZ dig2bytes xFrac;
  Ok (wordsInt * wordSize + dI + wordsFrac * wordSize + dF).

Definition fixWordCntError (wordsInt wordsFrac : Z) : Z * Z * option string :=
  if maxWordBufLen <? wordsInt + wordsFrac then
    if maxWordBufLen <? wordsInt then (maxWordBufLen, 0, Some ErrOverflow)
    else (wordsInt, maxWordBufLen - wordsInt, Some ErrTruncated)
  else (wordsInt, wordsFrac, None).

(** [for word < powers10\[i\] { i--; leading++ }], from [i], at most ten steps:
    [i] only goes down and [powers10\[-1\]] panics. *)
Fixpoint countLeadingZeroes_loop (fuel : nat) (i word leading : Z) : outcome Z :=
  match fuel with
  | O => Panic "index out of range"
  | S fuel' =>
      p ← indexZ powers10 i;
      if word <? p then countLeadingZeroes_loop fuel' (i - 1) word (leading + 1) else Ok leading
  end.
Definition countLeadingZeroes (i word : Z) : outcome Z := countLeadingZeroes_loop 11 i word 0.

(** The loop of [removeLeadingZeros] over the words from [wordIdx] on. *)
Fixpoint removeLeadingZeros_loop (ws : list Z) (wordIdx digits i : Z) : outcome (Z * Z) :=
  if 0 <? digits then
    match ws with
    | [] => Panic "index out of range"
    | w :: ws' =>
        if w =? 0 then removeLeadingZeros_loop ws' (wordIdx + 1) (digits - i) digitsPerWord
        else Ok (wordIdx, digits)
    end
  else Ok (wordIdx, digits).

Definition removeLeadingZeros (d : MyDecimal) : outcome (Z * Z) :=
  let i := (digitsInt d - 1) `rem` digitsPerWord + 1 in
  '(wordIdx, digits) ← removeLeadingZeros_loop (wordBuf d) 0 (digitsInt d) i;
  if 0 <? digits then
    w ← indexZ (wordBuf d) wordIdx;
    lead ← countLeadingZeroes ((digits - 1) `rem` digitsPerWord) w;
    Ok (wordIdx, digits - lead)
  else Ok (wordIdx, 0).

(** ** The binary form *)

(** [for trailingDigitsFrom < lim && dig2bytes\[trailingDigitsFrom\] == i
    { trailingDigitsFrom++ }]; [lim] is at most 9, which bounds the steps. *)
Fixpoint widenTrailing (fuel : nat) (t lim i : Z) : outcome Z :=
  match fuel with
  | O => Ok t
  | S fuel' =>
      if t <? lim then
        b ← indexZ dig2bytes t;
        if b =? i then widenTrailing fuel' (t + 1) lim i else Ok t
      else Ok t
  end.

(** The words of the integer and fraction parts, [n] of them from [wordIdx]. *)
Fixpoint writeWords (n : nat) (d : MyDecimal) (mask : Z) (bin : bytes) (binIdx wordIdx : Z) : outcome (bytes * Z * Z) :=
  match n with
  | O => Ok (bin, binIdx, wordIdx)
  | S n' =>
      w ← indexZ (wordBuf d) wordIdx;
      bin ← write_at bin binIdx (writeWord (Z.lxor w mask) 4);
      writeWords n' d mask bin (binIdx + wordSize) (wordIdx + 1)
  end.

(** The integer part of [WriteBin] before anything is written: an integer part that is
    too long is cut off with an overflow, a shorter one gets mask bytes in front of it.
    Returns the buffer, [binIdx], [wordIdxFrom], [wordsIntFrom], [leadingDigitsFrom] and the error. *)
Definition fitInt (mask digitsI wordsInt leadingDigits intSize iSizeFrom : Z) (bin : bytes)
    (digitsIntFrom wordIdxFrom wordsIntFrom leadingDigitsFrom : Z) : outcome (bytes * Z * Z * Z * Z * option string) :=
  if digitsI <? digitsIntFrom then
    let wordIdxFrom := wordIdxFrom + (wordsIntFrom - wordsInt) in
    let wordIdxFrom := if 0 <? leadingDigitsFrom then wordIdxFrom + 1 else wordIdxFrom in
    let wordIdxFrom := if 0 <? leadingDigits then wordIdxFrom - 1 else wordIdxFrom in
    Ok (bin, 0, wordIdxFrom, wordsInt, leadingDigits, Some ErrOverflow)
  else if iSizeFrom <? intSize then
    bin ← write_at bin 0 (replicate (Z.to_nat (intSize - iSizeFrom)) (u8 mask));
    Ok (bin, intSize - iSizeFrom, wordIdxFrom, wordsIntFrom, leadingDigitsFrom, None)
  else Ok (bin, 0, wordIdxFrom, wordsIntFrom, leadingDigitsFrom, None).

(** The fraction part: truncation, or widening. Returns [wordsFracFrom],
    [trailingDigitsFrom], [fracSize] and the error. *)
Definition fitFrac (wordsFrac trailingDigits fracSize wordsFracFrom trailingDigitsFrom fracSizeFrom : Z)
    (err : option string) : Z * Z * Z * option string :=
  if (fracSize <? fracSizeFrom) ||
     ((fracSize =? fracSizeFrom) && ((trailingDigits <=? trailingDigitsFrom) || (wordsFrac <=? wordsFracFrom)))
  then
    let err :=
      if (fracSize <? fracSizeFrom) || ((fracSize =? fracSizeFrom) && (trailingDigits <? trailingDigitsFrom)) ||
         ((fracSize =? fracSizeFrom) && (wordsFrac <? wordsFracFrom))
      then Some ErrTruncated else err in
    (wordsFrac, trailingDigits, fracSize, err)
  else if (fracSizeFrom <? fracSize) && (0 <? trailingDigitsFrom) then
    if wordsFrac =? wordsFracFrom then (wordsFracFrom, trailingDigits, fracSizeFrom, err)
    else (wordsFracFrom + 1, 0, fracSize, err)
  else (wordsFracFrom, trailingDigitsFrom, fracSize, err).

(** The xIntFrom part. *)
Definition writeLeading (d : MyDecimal) (mask leadingDigitsFrom : Z) (bin : bytes) (binIdx wordIdxFrom : Z) :
    outcome (bytes * Z * Z) :=
  if 0 <? leadingDigitsFrom then
    i ← indexZ dig2bytes leadingDigitsFrom;
    w ← indexZ (wordBuf d) wordIdxFrom;
    p ← indexZ powers10 leadingDigitsFrom;
    bin ← write_at bin binIdx (writeWord (Z.lxor (w `rem` p) mask) i);
    Ok (bin, binIdx + i, wordIdxFrom + 1)
  else Ok (bin, binIdx, wordIdxFrom).

(** The xFracFrom part. *)
Definition writeTrailing (d : MyDecimal) (mask wordsFrac trailingDigits wordsFracFrom trailingDigitsFrom : Z)
    (bin : bytes) (binIdx wordIdxFrom : Z) : outcome (bytes * Z) :=
  if 0 <? trailingDigitsFrom then
    i ← indexZ dig2bytes trailingDigitsFrom;
    let lim := if wordsFracFrom <? wordsFrac then digitsPerWord else trailingDigits in
    trailingDigitsFrom ← widenTrailing 10 trailingDigitsFrom lim i;
    w ← indexZ (wordBuf d) wordIdxFrom;
    p ← indexZ powers10 (digitsPerWord - trailingDigitsFrom);
    bin ← write_at bin binIdx (writeWord (Z.lxor (w `quot` p) mask) i);
    Ok (bin, binIdx + i)
  else Ok (bin, binIdx).

(** [for fracSize > fracSizeFrom && binIdx < binIdxEnd]: mask bytes to the end. *)
Definition padFrac (mask fracSize fracSizeFrom binIdxEnd : Z) (bin : bytes) (binIdx : Z) : outcome bytes :=
  if fracSizeFrom <? fracSize then
    let n := Z.min (fracSize - fracSizeFrom) (binIdxEnd - binIdx) in
    write_at bin binIdx (replicate (Z.to_nat n) (u8 mask))
  else Ok bin.

(** [WriteBin] returns the buffer together with an error that may be set although
    the bytes were written. *)
Definition WriteBin (d : MyDecimal) (precision frac : Z) (buf : bytes) : outcome (bytes * option string) :=
  if (digitsPerWord * maxWordBufLen <? precision) || (precision <? 0) || (MaxDecimalScale <? frac) || (frac <? 0)
  then Ok (buf, Some ErrBadNumber)
  else
  let mask := if negative d then -1 else 0 in
  let digitsI := precision - frac in
  let wordsInt := digitsI `quot` digitsPerWord in
  let leadingDigits := digitsI - wordsInt * digitsPerWord in
  let wordsFrac := frac `quot` digitsPerWord in
  let trailingDigits := frac - wordsFrac * digitsPerWord in
  let wordsFracFrom := digitsFrac d `quot` digitsPerWord in
  let trailingDigitsFrom := digitsFrac d - wordsFracFrom * digitsPerWord in
  dL ← indexZ dig2bytes leadingDigits;
  dT ← indexZ dig2bytes trailingDigits;
  dTF ← indexZ dig2bytes trailingDigitsFrom;
  let intSize := wordsInt * wordSize + dL in
  let fracSize := wordsFrac * wordSize + dT in
  let fracSizeFrom := wordsFracFrom * wordSize + dTF in
  let originIntSize := intSize in
  let originFracSize := fracSize in
  let bin := replicate (Z.to_nat (intSize + fracSize)) 0 in
  '(wordIdxFrom, digitsIntFrom) ← removeLeadingZeros d;
  let '(mask, digitsI) := if digitsIntFrom + fracSizeFrom =? 0 then (0, 1) else (mask, digitsI) in
  let wordsIntFrom := digitsIntFrom `quot` digitsPerWord in
  let leadingDigitsFrom := digitsIntFrom - wordsIntFrom * digitsPerWord in
  dLF ← indexZ dig2bytes leadingDigitsFrom;
  let iSizeFrom := wordsIntFrom * wordSize + dLF in
  '(bin, binIdx, wordIdxFrom, wordsIntFrom, leadingDigitsFrom, err) ←
    fitInt mask digitsI wordsInt leadingDigits intSize iSizeFrom bin digitsIntFrom wordIdxFrom wordsIntFrom leadingDigitsFrom;
  let '(wordsFracFrom, trailingDigitsFrom, fracSize, err) :=
    fitFrac wordsFrac trailingDigits fracSize wordsFracFrom trailingDigitsFrom fracSizeFrom err in
  '(bin, binIdx, wordIdxFrom) ← writeLeading d mask leadingDigitsFrom bin binIdx wordIdxFrom;
  (* wordsInt + wordsFrac part *)
  '(bin, binIdx, wordIdxFrom) ←
    writeWords (Z.to_nat (wordsIntFrom + wordsFracFrom)) d mask bin binIdx wordIdxFrom;
  '(bin, binIdx) ← writeTrailing d mask wordsFrac trailingDigits wordsFracFrom trailingDigitsFrom bin binIdx wordIdxFrom;
  bin ← padFrac mask fracSize fracSizeFrom (originIntSize + originFracSize) bin binIdx;
  b0 ← index bin 0;
  Ok (buf ++ <[0%nat := Z.lxor b0 128]> bin, err).

(** The words of the integer part: leading zero words are dropped. *)
Fixpoint readIntWords (n : nat) (d : MyDecimal) (bin : bytes) (binIdx wordIdx mask : Z) : outcome (MyDecimal * Z * Z) :=
  match n with
  | O => Ok (d, binIdx, wordIdx)
  | S n' =>
      b ← slice_from bin (Z.to_nat binIdx);
      x ← readWord b 4;
      let w := Z.lxor x mask in
      ws ← storeZ (wordBuf d) wordIdx w;
      if wordMax <? u32 w then Err ErrBadNumber
      else if (0 <? wordIdx) || negb (w =? 0) then
        readIntWords n' (MkDecimal (digitsInt d) (digitsFrac d) (resultFrac d) (negative d) ws) bin
          (binIdx + wordSize) (wordIdx + 1) mask
      else
        readIntWords n' (MkDecimal (i8 (digitsInt d - digitsPerWord)) (digitsFrac d) (resultFrac d) (negative d) ws)
          bin (binIdx + wordSize) wordIdx mask
  end.

(** The whole words of the fraction part. *)
Fixpoint readFracWords (n : nat) (d : MyDecimal) (bin : bytes) (binIdx wordIdx mask : Z) : outcome (MyDecimal * Z * Z) :=
  match n with
  | O => Ok (d, binIdx, wordIdx)
  | S n' =>
      b ← slice_from bin (Z.to_nat binIdx);
      x ← readWord b 4;
      let w := Z.lxor x mask in
      ws ← storeZ (wordBuf d) wordIdx w;
      if wordMax <? u32 w then Err ErrBadNumber
      else readFracWords n' (MkDecimal (digitsInt d) (digitsFrac d) (resultFrac d) (negative d) ws) bin
             (binIdx + wordSize) (wordIdx + 1) mask
  end.

(** The leading digits of the integer part; a zero is dropped. Returns the decimal, [binIdx]
    and [wordIdx]. *)
Definition readLeading (d : MyDecimal) (bin : bytes) (binIdx leadingDigits dL mask : Z) : outcome (MyDecimal * Z * Z) :=
  if 0 <? leadingDigits then
    b ← slice_from bin (Z.to_nat binIdx);
    x ← readWord b dL;
    let w := Z.lxor x mask in
    ws ← storeZ (wordBuf d) 0 w;
    p ← indexZ powers10 (leadingDigits + 1);
    if p <=? u64 w then Err ErrBadNumber
    else if negb (w =? 0) then
      Ok (MkDecimal (digitsInt d) (digitsFrac d) (resultFrac d) (negative d) ws, binIdx + dL, 1)
    else
      Ok (MkDecimal (i8 (digitsInt d - leadingDigits)) (digitsFrac d) (resultFrac d) (negative d) ws, binIdx + dL, 0)
  else Ok (d, binIdx, 0).

(** The trailing digits of the fraction part. *)
Definition readTrailing (d : MyDecimal) (bin : bytes) (binIdx wordIdx trailingDigits mask : Z) : outcome MyDecimal :=
  if 0 <? trailingDigits then
    i ← indexZ dig2bytes trailingDigits;
    b ← slice_from bin (Z.to_nat binIdx);
    x ← readWord b i;
    p ← indexZ powers10 (digitsPerWord - trailingDigits);
    let w := i32 (Z.lxor x mask * p) in
    ws ← storeZ (wordBuf d) wordIdx w;
    if wordMax <? u32 w then Err ErrBadNumber
    else Ok (MkDecimal (digitsInt d) (digitsFrac d) (resultFrac d) (negative d) ws)
  else Ok d.

(** [FromBin] on a fresh decimal. Every caller drops the decimal when the error is
    set, so an error is the whole result. *)
Definition FromBin (bin : bytes) (precision frac : Z) : outcome (MyDecimal * Z) :=
  match bin with
  | [] => Err ErrBadNumber
  | bin0 :: _ =>
  let digitsI := precision - frac in
  let wordsInt := digitsI `quot` digitsPerWord in
  let leadingDigits := digitsI - wordsInt * digitsPerWord in
  let wordsFrac := frac `quot` digitsPerWord in
  let trailingDigits := frac - wordsFrac * digitsPerWord in
  let wordsIntTo := if 0 <? leadingDigits then wordsInt + 1 else wordsInt in
  let wordsFracTo := if 0 <? trailingDigits then wordsFrac + 1 else wordsFrac in
  let mask := if 0 <? Z.land bin0 128 then 0 else -1 in
  binSize ← DecimalBinSize precision frac;
  (* dCopy: [binSize] bytes, zero where [bin] is shorter *)
  let dCopy := take (Z.to_nat binSize) (bin ++ replicate (Z.to_nat binSize) 0) in
  dCopy ← (if 40 <? binSize then Panic "slice bounds out of range" else Ok dCopy);
  c0 ← index dCopy 0;
  let bin := <[0%nat := Z.lxor c0 128]> dCopy in
  let oldWordsIntTo := wordsIntTo in
  let '(wordsIntTo, wordsFracTo, err) := fixWordCntError wordsIntTo wordsFracTo in
  dL ← indexZ dig2bytes leadingDigits;
  let '(binIdx, trailingDigits, wordsFrac) :=
    match err with
    | Some _ =>
        if wordsIntTo <? oldWordsIntTo then (dL + (wordsInt - wordsIntTo) * wordSize, trailingDigits, wordsFrac)
        else (0, 0, wordsFracTo)
    | None => (0, trailingDigits, wordsFrac)
    end in
  let d := MkDecimal (i8 (wordsInt * digitsPerWord + leadingDigits))
             (i8 (wordsFrac * digitsPerWord + trailingDigits)) 0 (negb (mask =? 0)) (replicate 9 0) in
  '(d, binIdx, wordIdx) ← readLeading d bin binIdx leadingDigits dL mask;
  '(d, binIdx, wordIdx) ← readIntWords (Z.to_nat wordsInt) d bin binIdx wordIdx mask;
  '(d, binIdx, wordIdx) ← readFracWords (Z.to_nat wordsFrac) d bin binIdx wordIdx mask;
  d ← readTrailing d bin binIdx wordIdx trailingDigits mask;
  let d := if (digitsInt d =? 0) && (digitsFrac d =? 0) then zeroMyDecimal else d in
  match err with
  | Some e => Err e
  | None => Ok (MkDecimal (digitsInt d) (digitsFrac d) (i8 frac) (negative d) (wordBuf d), binSize)
  end
  end.

(** ** common/decimal.go *)

Abbreviation Decimal := MyDecimal (only parsing).

Definition Encode (d : Decimal) (buffer : bytes) (precision scale : Z) : outcome bytes :=
  '(b, err) ← WriteBin d precision scale buffer;
  match err with
  | Some e => Err e
  | None => Ok b
  end.

Definition Decode (buffer : bytes) (offset : nat) (precision scale : Z) : outcome (Decimal * nat) :=
  b ← slice_from buffer offset;
  '(mydec, binSize) ← FromBin b precision scale;
  Ok (mydec, (offset + Z.to_nat binSize)%nat).

Definition ReadDecimalFromBuffer (buffer : bytes) (offset : nat) (precision scale : Z) : outcome (Decimal * nat) :=
  Decode buffer offset precision scale.

Definition KeyEncodeDecimal (buffer : bytes) (val : Decimal) (precision scale : Z) : outcome bytes :=
  Encode val buffer precision scale.

Definition KeyDecodeDecimal (buffer : bytes) (offset : nat) (precision scale : Z) : outcome (Decimal * nat) :=
  ReadDecimalFromBuffer buffer offset precision scale.

(** ** Examples *)

(** 1234567890.1234 as decimal(14,4): the worked example of mydecimal.go. *)
Definition dec_1234567890_1234 : MyDecimal := MkDecimal 10 4 4 false [1; 234567890; 123400000; 0; 0; 0; 0; 0; 0].
Definition dec_neg_1234567890_1234 : MyDecimal := MkDecimal 10 4 4 true [1; 234567890; 123400000; 0; 0; 0; 0; 0; 0].

Example Encode_positive : Encode dec_1234567890_1234 [] 14 4 = Ok [129; 13; 251; 56; 210; 4; 210].
Proof. vm_compute. reflexivity. Qed.

Example Encode_negative : Encode dec_neg_1234567890_1234 [] 14 4 = Ok [126; 242; 4; 199; 45; 251; 45].
Proof. vm_compute. reflexivity. Qed.

Example Decode_negative :
  Decode [126; 242; 4; 199; 45; 251; 45] 0 14 4 = Ok (dec_neg_1234567890_1234, 7%nat).
Proof. vm_compute. reflexivity. Qed.
