(* ===== verification/DecimalArith.v ===== *)
(** * Decimal comparison, addition and subtraction

    [Compare], [DecimalAdd], [DecimalSub] of src/tidb/types/mydecimal.go with their
    workers [doAdd] and [doSub], and [CompareTo], [Add] and [Subtract] of
    src/common/decimal.go. The loops over words are recursive functions on the number
    of rounds the loop's bounds give; the searches over words take fuel, and eleven
    rounds are more than the nine words there are.

    A decimal is specified by its value: the integer that the decimal is times ten to
    the 81st. Comparison is the order of the values, and addition and subtraction are
    exact when they return no error. *)

From stdpp Require Import base list strings.
From Stdlib Require Import ZArith Lia.
From S2P Require Import Prelude Encoding Decimal.

Definition wordBase : Z := 1000000000.

(** [div9] is the table of [x / 9] up to 127. *)
Definition digitsToWords (digits : Z) : Z := (digits + digitsPerWord - 1) `quot` digitsPerWord.

Definition add (a b carry : Z) : Z * Z :=
  let sum := i32 (a + b + carry) in
  if wordBase <=? sum then (i32 (sum - wordBase), 1) else (sum, 0).

Definition sub (a b carry : Z) : Z * Z :=
  let diff := i32 (a - b - carry) in
  if diff <? 0 then (i32 (diff + wordBase), 1) else (diff, 0).

(** ** Loops over words *)

(** [for idx < stop && ws\[idx\] == 0 { idx++ }] *)
Fixpoint skipZeroWords (fuel : nat) (ws : list Z) (idx stop : Z) : outcome Z :=
  match fuel with
  | O => Undef
  | S fuel' =>
      if idx <? stop then
        w ← indexZ ws idx;
        if w =? 0 then skipZeroWords fuel' ws (idx + 1) stop else Ok idx
      else Ok idx
  end.

(** [for idx <= end && ws\[end\] == 0 { end-- }] *)
Fixpoint dropZeroWords (fuel : nat) (ws : list Z) (idx end_ : Z) : outcome Z :=
  match fuel with
  | O => Undef
  | S fuel' =>
      if idx <=? end_ then
        w ← indexZ ws end_;
        if w =? 0 then dropZeroWords fuel' ws idx (end_ - 1) else Ok end_
      else Ok end_
  end.

(** [for idx1 <= end1 && idx2 <= end2 && ws1\[idx1\] == ws2\[idx2\] { idx1++; idx2++ }] *)
Fixpoint skipEqualWords (fuel : nat) (ws1 ws2 : list Z) (idx1 end1 idx2 end2 : Z) : outcome (Z * Z) :=
  match fuel with
  | O => Undef
  | S fuel' =>
      if (idx1 <=? end1) && (idx2 <=? end2) then
        w1 ← indexZ ws1 idx1;
        w2 ← indexZ ws2 idx2;
        if w1 =? w2 then skipEqualWords fuel' ws1 ws2 (idx1 + 1) end1 (idx2 + 1) end2 else Ok (idx1, idx2)
      else Ok (idx1, idx2)
  end.

(** [n] rounds of [idxTo--; to\[idxTo\] = 0]. *)
Fixpoint zeroWords (n : nat) (to : list Z) (idxTo : Z) : outcome (list Z * Z) :=
  match n with
  | O => Ok (to, idxTo)
  | S n' => to ← storeZ to (idxTo - 1) 0; zeroWords n' to (idxTo - 1)
  end.

(** [n] rounds of [idxTo--; idx1--; to\[idxTo\] = ws\[idx1\]]. *)
Fixpoint copyWords (n : nat) (ws to : list Z) (idx1 idxTo : Z) : outcome (list Z * Z * Z) :=
  match n with
  | O => Ok (to, idx1, idxTo)
  | S n' =>
      w ← indexZ ws (idx1 - 1);
      to ← storeZ to (idxTo - 1) w;
      copyWords n' ws to (idx1 - 1) (idxTo - 1)
  end.

(** [n] rounds that combine a word of each decimal, with [op] for [add] or [sub]. *)
Fixpoint opWords (op : Z → Z → Z → Z * Z) (n : nat) (ws1 ws2 to : list Z) (idx1 idx2 idxTo carry : Z) :
    outcome (list Z * Z * Z * Z * Z) :=
  match n with
  | O => Ok (to, idx1, idx2, idxTo, carry)
  | S n' =>
      w1 ← indexZ ws1 (idx1 - 1);
      w2 ← indexZ ws2 (idx2 - 1);
      let '(w, carry) := op w1 w2 carry in
      to ← storeZ to (idxTo - 1) w;
      opWords op n' ws1 ws2 to (idx1 - 1) (idx2 - 1) (idxTo - 1) carry
  end.

(** [n] rounds that combine a word of the first decimal with zero. *)
Fixpoint opLeft (op : Z → Z → Z → Z * Z) (n : nat) (ws1 to : list Z) (idx1 idxTo carry : Z) :
    outcome (list Z * Z * Z * Z) :=
  match n with
  | O => Ok (to, idx1, idxTo, carry)
  | S n' =>
      w1 ← indexZ ws1 (idx1 - 1);
      let '(w, carry) := op w1 0 carry in
      to ← storeZ to (idxTo - 1) w;
      opLeft op n' ws1 to (idx1 - 1) (idxTo - 1) carry
  end.

(** [n] rounds that subtract a word of the second decimal from zero. *)
Fixpoint subRight (n : nat) (ws2 to : list Z) (idx2 idxTo carry : Z) : outcome (list Z * Z * Z * Z) :=
  match n with
  | O => Ok (to, idx2, idxTo, carry)
  | S n' =>
      w2 ← indexZ ws2 (idx2 - 1);
      let '(w, carry) := sub 0 w2 carry in
      to ← storeZ to (idxTo - 1) w;
      subRight n' ws2 to (idx2 - 1) (idxTo - 1) carry
  end.

(** [for carry > 0 && idx1 > start1 { ... }], then the rest is copied. *)
Fixpoint subCarry (n : nat) (ws1 to : list Z) (idx1 idxTo carry : Z) : outcome (list Z * Z * Z * Z) :=
  match n with
  | O => Ok (to, idx1, idxTo, carry)
  | S n' =>
      if 0 <? carry then
        w1 ← indexZ ws1 (idx1 - 1);
        let '(w, carry) := sub w1 0 carry in
        to ← storeZ to (idxTo - 1) w;
        subCarry n' ws1 to (idx1 - 1) (idxTo - 1) carry
      else Ok (to, idx1, idxTo, carry)
  end.

(** ** Addition *)

(** [maxDecimal(wordBufLen*digitsPerWord, 0, to)]: 81 nines. *)
Definition maxDecimal81 (toResultFrac : Z) : MyDecimal := MkDecimal 81 0 toResultFrac false (replicate 9 wordMax).

Definition is_overflow (err : option string) : bool := bool_decide (err = Some ErrOverflow).

(** The three loops of [doAdd]: the fraction words only one decimal has, the words both
    have, and the integer words only one has ([dec3], [idx3] of them). *)
Definition addWords (dec1 dec2 dec3 : list Z) (idx1 idx2 stop stop2 idx3 idxTo : Z) : outcome (list Z) :=
  '(to, idx1, idxTo) ← copyWords (Z.to_nat (idx1 - stop)) dec1 (replicate 9 0) idx1 idxTo;
  '(to, idx1, idx2, idxTo, carry) ← opWords add (Z.to_nat (idx1 - stop2)) dec1 dec2 to idx1 idx2 idxTo 0;
  '(to, idx1, idxTo, carry) ← opLeft add (Z.to_nat idx3) dec3 to idx3 idxTo carry;
  if 0 <? carry then storeZ to (idxTo - 1) 1 else Ok to.

(** [doAdd] on a cleared result whose [resultFrac] is set. The error may be set
    although a (truncated) result was computed. *)
Definition doAdd (from1 from2 : MyDecimal) (toResultFrac : Z) : outcome (MyDecimal * option string) :=
  let wordsInt1 := digitsToWords (digitsInt from1) in
  let wordsFrac1 := digitsToWords (digitsFrac from1) in
  let wordsInt2 := digitsToWords (digitsInt from2) in
  let wordsFrac2 := digitsToWords (digitsFrac from2) in
  let wordsIntTo := Z.max wordsInt1 wordsInt2 in
  let wordsFracTo := Z.max wordsFrac1 wordsFrac2 in
  x1 ← indexZ (wordBuf from1) 0;
  x2 ← indexZ (wordBuf from2) 0;
  let x := if wordsInt2 <? wordsInt1 then x1 else if wordsInt1 <? wordsInt2 then x2 else i32 (x1 + x2) in
  let wordsIntTo := if wordMax - 1 <? x then wordsIntTo + 1 else wordsIntTo in
  let '(wordsIntTo, wordsFracTo, err) := fixWordCntError wordsIntTo wordsFracTo in
  if is_overflow err then Ok (maxDecimal81 toResultFrac, err)
  else
  let toDigitsFrac := Z.max (digitsFrac from1) (digitsFrac from2) in
  let toDigitsFrac :=
    match err with Some _ => Z.min toDigitsFrac (i8 (wordsFracTo * digitsPerWord)) | None => toDigitsFrac end in
  let wordsFrac1 := match err with Some _ => Z.min wordsFrac1 wordsFracTo | None => wordsFrac1 end in
  let wordsFrac2 := match err with Some _ => Z.min wordsFrac2 wordsFracTo | None => wordsFrac2 end in
  let wordsInt1 := match err with Some _ => Z.min wordsInt1 wordsIntTo | None => wordsInt1 end in
  let wordsInt2 := match err with Some _ => Z.min wordsInt2 wordsIntTo | None => wordsInt2 end in
  let '(dec1, dec2, idx1, idx2, stop, stop2) :=
    if wordsFrac2 <? wordsFrac1 then
      (wordBuf from1, wordBuf from2, wordsInt1 + wordsFrac1, wordsInt2 + wordsFrac2, wordsInt1 + wordsFrac2,
       if wordsInt2 <? wordsInt1 then wordsInt1 - wordsInt2 else 0)
    else
      (wordBuf from2, wordBuf from1, wordsInt2 + wordsFrac2, wordsInt1 + wordsFrac1, wordsInt2 + wordsFrac1,
       if wordsInt1 <? wordsInt2 then wordsInt2 - wordsInt1 else 0) in
  let '(dec3, idx3) :=
    if wordsInt2 <? wordsInt1 then (wordBuf from1, wordsInt1 - wordsInt2) else (wordBuf from2, wordsInt2 - wordsInt1) in
  to ← addWords dec1 dec2 dec3 idx1 idx2 stop stop2 idx3 (wordsIntTo + wordsFracTo);
  Ok (MkDecimal (i8 (wordsIntTo * digitsPerWord)) toDigitsFrac toResultFrac (negative from1) to, err).

(** ** Comparison of magnitudes *)

(** What the first half of [doSub] finds: [None] when the magnitudes are equal, and
    otherwise whether the second is larger ([carry]), where the words of each start, and
    the numbers of words that matter. *)
Record aligned := MkAligned {
  al_carry : bool;
  al_start1 : Z; al_wordsInt1 : Z; al_wordsFrac1 : Z;
  al_start2 : Z; al_wordsInt2 : Z; al_wordsFrac2 : Z
}.

Definition align (from1 from2 : MyDecimal) : outcome (option aligned) :=
  let wordsInt1 := digitsToWords (digitsInt from1) in
  let wordsFrac1 := digitsToWords (digitsFrac from1) in
  let wordsInt2 := digitsToWords (digitsInt from2) in
  let wordsFrac2 := digitsToWords (digitsFrac from2) in
  let stop1 := wordsInt1 in
  let stop2 := wordsInt2 in
  idx1 ← skipZeroWords 11 (wordBuf from1) 0 stop1;
  idx2 ← skipZeroWords 11 (wordBuf from2) 0 stop2;
  let start1 := idx1 in
  let start2 := idx2 in
  let wordsInt1 := stop1 - idx1 in
  let wordsInt2 := stop2 - idx2 in
  if wordsInt1 <? wordsInt2 then
    Ok (Some (MkAligned true start1 wordsInt1 wordsFrac1 start2 wordsInt2 wordsFrac2))
  else if wordsInt2 =? wordsInt1 then
    end1 ← dropZeroWords 11 (wordBuf from1) idx1 (stop1 + wordsFrac1 - 1);
    end2 ← dropZeroWords 11 (wordBuf from2) idx2 (stop2 + wordsFrac2 - 1);
    let wordsFrac1 := end1 - stop1 + 1 in
    let wordsFrac2 := end2 - stop2 + 1 in
    '(idx1, idx2) ← skipEqualWords 11 (wordBuf from1) (wordBuf from2) idx1 end1 idx2 end2;
    if idx1 <=? end1 then
      carry ← (if idx2 <=? end2 then
                 w1 ← indexZ (wordBuf from1) idx1;
                 w2 ← indexZ (wordBuf from2) idx2;
                 Ok (w1 <? w2)
               else Ok false);
      Ok (Some (MkAligned carry start1 wordsInt1 wordsFrac1 start2 wordsInt2 wordsFrac2))
    else if idx2 <=? end2 then
      Ok (Some (MkAligned true start1 wordsInt1 wordsFrac1 start2 wordsInt2 wordsFrac2))
    else Ok None
  else Ok (Some (MkAligned false start1 wordsInt1 wordsFrac1 start2 wordsInt2 wordsFrac2)).

(** [doSub(from1, from2, nil)] *)
Definition doSub_cmp (from1 from2 : MyDecimal) : outcome Z :=
  a ← align from1 from2;
  match a with
  | None => Ok 0
  | Some a => Ok (if Bool.eqb (al_carry a) (negative from1) then 1 else -1)
  end.

Definition decimal_Compare (d to : MyDecimal) : outcome Z :=
  if Bool.eqb (negative d) (negative to) then doSub_cmp d to
  else if negative d then Ok (-1) else Ok 1.

Definition CompareTo (d dec : Decimal) : outcome Z := decimal_Compare d dec.

(** ** Subtraction *)

(** The second half of [doSub]: [from1] is the larger, [from2] the smaller magnitude,
    aligned by [a]. *)
Definition subtract (from1 from2 : MyDecimal) (start1 wordsInt1 wordsFrac1 start2 wordsInt2 wordsFrac2 wordsFracTo : Z)
    (neg : bool) (toResultFrac : Z) : outcome (MyDecimal * option string) :=
  let '(wordsInt1, wordsFracTo, err) := fixWordCntError wordsInt1 wordsFracTo in
  let idxTo := wordsInt1 + wordsFracTo in
  let toDigitsFrac := Z.max (digitsFrac from1) (digitsFrac from2) in
  let toDigitsInt := i8 (wordsInt1 * digitsPerWord) in
  let toDigitsFrac :=
    match err with Some _ => Z.min toDigitsFrac (i8 (wordsFracTo * digitsPerWord)) | None => toDigitsFrac end in
  let wordsFrac1 := match err with Some _ => Z.min wordsFrac1 wordsFracTo | None => wordsFrac1 end in
  let wordsFrac2 := match err with Some _ => Z.min wordsFrac2 wordsFracTo | None => wordsFrac2 end in
  let wordsInt2 := match err with Some _ => Z.min wordsInt2 wordsInt1 | None => wordsInt2 end in
  let idx1 := start1 + wordsInt1 + wordsFrac1 in
  let idx2 := start2 + wordsInt2 + wordsFrac2 in
  (* part 1 - max(frac) ... min(frac) *)
  '(to, idx1, idx2, idxTo, carry) ←
    (if wordsFrac2 <? wordsFrac1 then
       '(to, idxTo) ← zeroWords (Z.to_nat (wordsFracTo - wordsFrac1)) (replicate 9 0) idxTo;
       '(to, idx1, idxTo) ← copyWords (Z.to_nat (idx1 - (start1 + wordsInt1 + wordsFrac2))) (wordBuf from1) to idx1 idxTo;
       Ok (to, idx1, idx2, idxTo, 0)
     else
       '(to, idxTo) ← zeroWords (Z.to_nat (wordsFracTo - wordsFrac2)) (replicate 9 0) idxTo;
       '(to, idx2, idxTo, carry) ←
         subRight (Z.to_nat (idx2 - (start2 + wordsInt2 + wordsFrac1))) (wordBuf from2) to idx2 idxTo 0;
       Ok (to, idx1, idx2, idxTo, carry));
  (* part 2 - min(frac) ... wordsInt2 *)
  '(to, idx1, idx2, idxTo, carry) ←
    opWords sub (Z.to_nat (idx2 - start2)) (wordBuf from1) (wordBuf from2) to idx1 idx2 idxTo carry;
  (* part 3 - wordsInt2 ... wordsInt1 *)
  '(to, idx1, idxTo, carry) ← subCarry (Z.to_nat (idx1 - start1)) (wordBuf from1) to idx1 idxTo carry;
  '(to, idx1, idxTo) ← copyWords (Z.to_nat (idx1 - start1)) (wordBuf from1) to idx1 idxTo;
  '(to, idxTo) ← zeroWords (Z.to_nat idxTo) to idxTo;
  Ok (MkDecimal toDigitsInt toDigitsFrac toResultFrac neg to, err).

(** [doSub(from1, from2, to)] on a cleared result whose [resultFrac] is set. *)
Definition doSub (from1 from2 : MyDecimal) (toResultFrac : Z) : outcome (MyDecimal * option string) :=
  a ← align from1 from2;
  let wordsFracTo := Z.max (digitsToWords (digitsFrac from1)) (digitsToWords (digitsFrac from2)) in
  match a with
  | None => Ok (MkDecimal 0 toResultFrac toResultFrac false (replicate 9 0), None)
  | Some a =>
      if al_carry a then
        subtract from2 from1 (al_start2 a) (al_wordsInt2 a) (al_wordsFrac2 a)
          (al_start1 a) (al_wordsInt1 a) (al_wordsFrac1 a) wordsFracTo (negb (negative from1)) toResultFrac
      else
        subtract from1 from2 (al_start1 a) (al_wordsInt1 a) (al_wordsFrac1 a)
          (al_start2 a) (al_wordsInt2 a) (al_wordsFrac2 a) wordsFracTo (negative from1) toResultFrac
  end.

Definition DecimalAdd (from1 from2 : MyDecimal) : outcome (MyDecimal * option string) :=
  let rf := Z.max (resultFrac from1) (resultFrac from2) in
  if Bool.eqb (negative from1) (negative from2) then doAdd from1 from2 rf else doSub from1 from2 rf.

Definition DecimalSub (from1 from2 : MyDecimal) : outcome (MyDecimal * option string) :=
  let rf := Z.max (resultFrac from1) (resultFrac from2) in
  if Bool.eqb (negative from1) (negative from2) then doSub from1 from2 rf else doAdd from1 from2 rf.

Definition or_error (r : outcome (MyDecimal * option string)) : outcome Decimal :=
  '(d, err) ← r;
  match err with Some e => Err e | None => Ok d end.

Definition Add (d other : Decimal) : outcome Decimal := or_error (DecimalAdd d other).
Definition Subtract (d other : Decimal) : outcome Decimal := or_error (DecimalSub d other).

(** ** The value of a decimal *)

Definition wordsInt (d : MyDecimal) : Z := digitsToWords (digitsInt d).
Definition wordsFrac (d : MyDecimal) : Z := digitsToWords (digitsFrac d).

(** The word of [d] with the weight [wordBase ^ p]; the words outside the integer and
    fraction parts do not count. *)
Definition digit (d : MyDecimal) (p : Z) : Z :=
  if (- wordsFrac d <=? p) && (p <? wordsInt d) then default 0 (wordBuf d !! Z.to_nat (wordsInt d - 1 - p)) else 0.

(** [f lo + f (lo + 1) * wordBase + ...], [n] terms. *)
Fixpoint total (f : Z → Z) (lo : Z) (n : nat) : Z :=
  match n with
  | O => 0
  | S n' => total f lo n' + f (lo + Z.of_nat n') * wordBase ^ Z.of_nat n'
  end.

(** The magnitude times [10 ^ 81]. *)
Definition magnitude (d : MyDecimal) : Z := total (digit d) (-9) 18.
Definition value_of (d : MyDecimal) : Z := if negative d then - magnitude d else magnitude d.

Definition word_ok (w : Z) : Prop := 0 ≤ w < wordBase.

Record dec_ok (d : MyDecimal) : Prop := {
  do_words : length (wordBuf d) = 9%nat;
  do_range : Forall word_ok (wordBuf d);
  do_int : 0 ≤ digitsInt d;
  do_frac : 0 ≤ digitsFrac d;
  do_fit : wordsInt d + wordsFrac d ≤ 9;
  do_neg : negative d = true → magnitude d ≠ 0;
  do_result : 0 ≤ resultFrac d ≤ 81
}.

(** ** Lemmas: words and totals *)

Definition wd (ws : list Z) (i : Z) : Z := default 0 (ws !! Z.to_nat i).

Lemma indexZ_wd ws i : 0 ≤ i < Z.of_nat (length ws) → indexZ ws i = Ok (wd ws i).
Proof.
  intros Hi. unfold indexZ, wd. rewrite (proj2 (Z.ltb_ge i 0)) by lia.
  destruct (lookup_lt_is_Some_2 ws (Z.to_nat i)) as [w Hw]; [lia|]. by rewrite (index_ok _ _ _ Hw), Hw.
Qed.

Lemma wd_ok ws i : Forall word_ok ws → word_ok (wd ws i).
Proof.
  intros H. unfold wd. destruct (ws !! Z.to_nat i) as [w|] eqn:E; [|unfold word_ok, wordBase; simpl; lia].
  rewrite Forall_lookup in H. by eapply H.
Qed.

Lemma storeZ_ok (ws : list Z) i w : 0 ≤ i < Z.of_nat (length ws) → storeZ ws i w = Ok (<[Z.to_nat i := w]> ws).
Proof.
  intros Hi. unfold storeZ. rewrite (proj2 (Z.ltb_ge i 0)) by lia. by rewrite (proj2 (Z.leb_gt (Z.of_nat (length ws)) i)) by lia.
Qed.

Lemma wd_insert ws i j w : 0 ≤ i < Z.of_nat (length ws) → 0 ≤ j →
  wd (<[Z.to_nat i := w]> ws) j = if i =? j then w else wd ws j.
Proof.
  intros Hi Hj. unfold wd. destruct (Z.eqb_spec i j) as [<-|].
  - by rewrite list_lookup_insert_eq by lia.
  - by rewrite list_lookup_insert_ne by lia.
Qed.

Lemma total_ext f g lo n : (∀ k, 0 ≤ k < Z.of_nat n → f (lo + k) = g (lo + k)) → total f lo n = total g lo n.
Proof. induction n as [|n IH]; intros Hf; simpl; [done|]. rewrite IH, Hf by (intros; try apply Hf; lia). done. Qed.

Lemma total_bound f lo n : (∀ k, 0 ≤ k < Z.of_nat n → word_ok (f (lo + k))) → 0 ≤ total f lo n < wordBase ^ Z.of_nat n.
Proof.
  induction n as [|n IH]; intros Hf; [simpl; lia|]. cbn [total].
  rewrite Nat2Z.inj_succ, Z.pow_succ_r by lia.
  assert (0 ≤ total f lo n < wordBase ^ Z.of_nat n) by (apply IH; intros; apply Hf; lia).
  assert (word_ok (f (lo + Z.of_nat n))) by (apply Hf; lia). unfold word_ok in *. nia.
Qed.

Lemma total_add f g s lo n : total (λ p, f p + s * g p) lo n = total f lo n + s * total g lo n.
Proof. induction n as [|n IH]; simpl; [lia|]. rewrite IH. ring. Qed.

Lemma total_app f lo n m : total f lo (n + m) = total f lo n + wordBase ^ Z.of_nat n * total f (lo + Z.of_nat n) m.
Proof.
  induction m as [|m IH]; [rewrite Nat.add_0_r; simpl; lia|]. rewrite Nat.add_succ_r. cbn [total]. rewrite IH.
  replace (lo + Z.of_nat (n + m)) with (lo + Z.of_nat n + Z.of_nat m) by lia.
  rewrite Nat2Z.inj_add, Z.pow_add_r by lia. ring.
Qed.

Lemma total_zero f lo n : (∀ k, 0 ≤ k < Z.of_nat n → f (lo + k) = 0) → total f lo n = 0.
Proof. induction n as [|n IH]; intros Hf; simpl; [done|]. rewrite IH, Hf by (intros; try apply Hf; lia). lia. Qed.

(** The magnitude only depends on the exponents between [-F] and [W]. *)
Lemma total_window f W F : 0 ≤ F ≤ 9 → W ≤ 9 → 0 ≤ W + F →
  (∀ p, p < -F ∨ W ≤ p → f p = 0) →
  total f (-9) 18 = wordBase ^ (9 - F) * total f (-F) (Z.to_nat (W + F)).
Proof.
  intros HF HW HWF Hz.
  replace 18%nat with (Z.to_nat (9 - F) + (Z.to_nat (W + F) + Z.to_nat (9 - W)))%nat by lia.
  rewrite !total_app. rewrite (total_zero _ (-9)) by (intros; apply Hz; lia).
  replace (-9 + Z.of_nat (Z.to_nat (9 - F))) with (-F) by lia.
  rewrite (total_zero _ (-F + _)) by (intros; apply Hz; lia). rewrite Z2Nat.id by lia. lia.
Qed.

(** The first difference from the top decides. *)
Lemma total_lt f g lo n q :
  (∀ k, 0 ≤ k < Z.of_nat n → word_ok (f (lo + k)) ∧ word_ok (g (lo + k))) →
  0 ≤ q < Z.of_nat n → (∀ k, q < k < Z.of_nat n → f (lo + k) = g (lo + k)) → f (lo + q) < g (lo + q) →
  total f lo n < total g lo n.
Proof.
  induction n as [|n IH]; intros Hok Hq Heq Hlt; [lia|]. cbn [total].
  assert (Bf : 0 ≤ total f lo n < wordBase ^ Z.of_nat n) by (apply total_bound; intros; apply Hok; lia).
  assert (Bg : 0 ≤ total g lo n < wordBase ^ Z.of_nat n) by (apply total_bound; intros; apply Hok; lia).
  destruct (decide (q = Z.of_nat n)) as [->|Hne].
  - nia.
  - rewrite (Heq (Z.of_nat n)) by lia. apply Z.add_lt_mono_r, IH; try lia; intros; [apply Hok|apply Heq]; lia.
Qed.

(** Larger everywhere and strictly somewhere. *)
Lemma total_lt_pointwise f g lo n q :
  (∀ k, 0 ≤ k < Z.of_nat n → f (lo + k) ≤ g (lo + k)) → 0 ≤ q < Z.of_nat n → f (lo + q) < g (lo + q) →
  total f lo n < total g lo n.
Proof.
  assert (Hmono : ∀ n, (∀ k, 0 ≤ k < Z.of_nat n → f (lo + k) ≤ g (lo + k)) → total f lo n ≤ total g lo n).
  { induction n0 as [|n0 IH]; intros Hle; simpl; [done|].
    apply Z.add_le_mono; [apply IH; intros; apply Hle; lia|]. apply Z.mul_le_mono_nonneg_r; [|apply Hle; lia].
    unfold wordBase. lia. }
  induction n as [|n IH]; intros Hle Hq Hlt; [lia|]. cbn [total].
  assert (0 < wordBase ^ Z.of_nat n) by (unfold wordBase; lia).
  destruct (decide (q = Z.of_nat n)) as [->|Hne].
  - specialize (Hmono n ltac:(intros; apply Hle; lia)). nia.
  - assert (total f lo n < total g lo n) by (apply IH; [intros; apply Hle|..]; lia).
    assert (f (lo + Z.of_nat n) ≤ g (lo + Z.of_nat n)) by (apply Hle; lia). nia.
Qed.

(** ** Lemmas: searches *)

Lemma skipZeroWords_ok ws stop : ∀ fuel idx, 0 ≤ idx ≤ stop → stop ≤ Z.of_nat (length ws) → stop - idx < Z.of_nat fuel →
  ∃ i, skipZeroWords fuel ws idx stop = Ok i ∧ idx ≤ i ≤ stop ∧ (∀ k, idx ≤ k < i → wd ws k = 0) ∧ (i < stop → wd ws i ≠ 0).
Proof.
  induction fuel as [|fuel IH]; intros idx Hi Hs Hf; [lia|]. cbn [skipZeroWords].
  destruct (Z.ltb_spec idx stop); [|exists idx; split_and!; [done|lia..]].
  rewrite indexZ_wd by lia. osimpl. destruct (Z.eqb_spec (wd ws idx) 0) as [Hz|Hz].
  - destruct (IH (idx + 1)) as (i & E & Hr & Hzero & Hnz); [lia..|]. exists i. split_and!; [done|lia|lia| |done].
    intros k Hk. destruct (decide (k = idx)) as [->|]; [done|]. apply Hzero. lia.
  - exists idx. split_and!; [done|lia..|done].
Qed.

Lemma dropZeroWords_ok ws idx : ∀ fuel end_, 0 ≤ idx → idx - 1 ≤ end_ < Z.of_nat (length ws) → end_ - idx + 1 < Z.of_nat fuel →
  ∃ e, dropZeroWords fuel ws idx end_ = Ok e ∧ idx - 1 ≤ e ≤ end_ ∧ (∀ k, e < k ≤ end_ → wd ws k = 0) ∧ (idx ≤ e → wd ws e ≠ 0).
Proof.
  induction fuel as [|fuel IH]; intros end_ Hi He Hf; [lia|]. cbn [dropZeroWords].
  destruct (Z.leb_spec idx end_); [|exists end_; split_and!; [done|lia..]].
  rewrite indexZ_wd by lia. osimpl. destruct (Z.eqb_spec (wd ws end_) 0) as [Hz|Hz].
  - destruct (IH (end_ - 1)) as (e & E & Hr & Hzero & Hnz); [lia..|]. exists e. split_and!; [done|lia|lia| |done].
    intros k Hk. destruct (decide (k = end_)) as [->|]; [done|]. apply Hzero. lia.
  - exists end_. split_and!; [done|lia..|done].
Qed.

Lemma skipEqualWords_ok ws1 ws2 end1 end2 : ∀ fuel idx1 idx2,
  0 ≤ idx1 ≤ end1 + 1 → 0 ≤ idx2 → end1 < Z.of_nat (length ws1) → end2 < Z.of_nat (length ws2) → end1 - idx1 + 1 < Z.of_nat fuel →
  ∃ n, skipEqualWords fuel ws1 ws2 idx1 end1 idx2 end2 = Ok (idx1 + n, idx2 + n) ∧ 0 ≤ n ∧
    (∀ k, 0 ≤ k < n → idx1 + k ≤ end1 ∧ idx2 + k ≤ end2 ∧ wd ws1 (idx1 + k) = wd ws2 (idx2 + k)) ∧
    (idx1 + n ≤ end1 → idx2 + n ≤ end2 → wd ws1 (idx1 + n) ≠ wd ws2 (idx2 + n)).
Proof.
  induction fuel as [|fuel IH]; intros idx1 idx2 H1 H2 He1 He2 Hf; cbn [skipEqualWords].
  { lia. }
  destruct ((idx1 <=? end1) && (idx2 <=? end2)) eqn:E.
  - apply andb_true_iff in E as [E1%Z.leb_le E2%Z.leb_le]. rewrite !indexZ_wd by lia. osimpl.
    destruct (Z.eqb_spec (wd ws1 idx1) (wd ws2 idx2)) as [Hz|Hz].
    + destruct (IH (idx1 + 1) (idx2 + 1)) as (n & E & Hn & Heq & Hne); [lia..|].
      exists (n + 1). rewrite E. split_and!; [do 2 f_equal; lia|lia| |].
      * intros k Hk. destruct (decide (k = 0)) as [->|]; [rewrite !Z.add_0_r; lia|].
        specialize (Heq (k - 1)). replace (idx1 + 1 + (k - 1)) with (idx1 + k) in Heq by lia.
        replace (idx2 + 1 + (k - 1)) with (idx2 + k) in Heq by lia. apply Heq. lia.
      * replace (idx1 + (n + 1)) with (idx1 + 1 + n) by lia. by replace (idx2 + (n + 1)) with (idx2 + 1 + n) by lia.
    + exists 0. rewrite !Z.add_0_r. split_and!; [done|lia..|done].
  - apply andb_false_iff in E. rewrite !Z.leb_gt in E. exists 0. rewrite !Z.add_0_r. split_and!; [done|lia|intros; lia|]. lia.
Qed.

(** ** Lemmas: the digits of a well-formed decimal *)

Lemma digitsToWords_range x : 0 ≤ x → 0 ≤ digitsToWords x ∧ x ≤ 9 * digitsToWords x < x + 9.
Proof.
  intros Hx. unfold digitsToWords, digitsPerWord. rewrite Z.quot_div_nonneg by lia.
  pose proof (Z.div_mod (x + 9 - 1) 9 ltac:(lia)). pose proof (Z.mod_pos_bound (x + 9 - 1) 9 ltac:(lia)). lia.
Qed.

Lemma dec_words d : dec_ok d → 0 ≤ wordsInt d ∧ 0 ≤ wordsFrac d ∧ wordsInt d + wordsFrac d ≤ 9.
Proof.
  intros []. destruct (digitsToWords_range (digitsInt d)); [done|]. destruct (digitsToWords_range (digitsFrac d)); [done|].
  unfold wordsInt, wordsFrac in *. lia.
Qed.

Lemma digit_in d p : - wordsFrac d ≤ p < wordsInt d → digit d p = wd (wordBuf d) (wordsInt d - 1 - p).
Proof. intros Hp. unfold digit. rewrite (proj2 (Z.leb_le _ p)), (proj2 (Z.ltb_lt p _)) by lia. done. Qed.

Lemma digit_out d p : p < - wordsFrac d ∨ wordsInt d ≤ p → digit d p = 0.
Proof.
  intros Hp. unfold digit. destruct (Z.leb_spec (- wordsFrac d) p), (Z.ltb_spec p (wordsInt d)); try done. lia.
Qed.

Lemma digit_ok d p : dec_ok d → word_ok (digit d p).
Proof.
  intros Hd. unfold digit. case_match; [|unfold word_ok, wordBase; lia]. apply (wd_ok _ (wordsInt d - 1 - p)), Hd.
Qed.

(** The words from [start] on, [W] of them integer words and [F] after the point, hold
    all of the decimal. *)
Record layout (d : MyDecimal) (start W F : Z) : Prop := {
  la_start : 0 ≤ start ∧ start + W = wordsInt d;
  la_W : 0 ≤ W;
  la_F : - W ≤ F ≤ wordsFrac d;
  la_zero : ∀ p, p < - F ∨ W ≤ p → digit d p = 0
}.

Lemma skip_layout d i : dec_ok d → 0 ≤ i ≤ wordsInt d → (∀ k, 0 ≤ k < i → wd (wordBuf d) k = 0) →
  layout d i (wordsInt d - i) (wordsFrac d).
Proof.
  intros Hd Hi Hz. pose proof (dec_words d Hd). split; [lia..|]. intros p Hp.
  destruct (decide (- wordsFrac d ≤ p < wordsInt d)); [|apply digit_out; lia].
  rewrite digit_in by lia. apply Hz. lia.
Qed.

Lemma drop_layout d i e : dec_ok d → layout d i (wordsInt d - i) (wordsFrac d) →
  i - 1 ≤ e ≤ wordsInt d + wordsFrac d - 1 → (∀ k, e < k ≤ wordsInt d + wordsFrac d - 1 → wd (wordBuf d) k = 0) →
  layout d i (wordsInt d - i) (e - wordsInt d + 1).
Proof.
  intros Hd [Hs HW HF Hz] He Hze. split; [lia..|]. intros p Hp.
  destruct (decide (- wordsFrac d ≤ p < wordsInt d - i)); [|apply Hz; lia].
  rewrite digit_in by lia. apply Hze. lia.
Qed.

Lemma magnitude_lt a b q : dec_ok a → dec_ok b → -9 ≤ q < 9 →
  (∀ p, q < p → digit a p = digit b p) → digit a q < digit b q → magnitude a < magnitude b.
Proof.
  intros Ha Hb Hq Heq Hlt. apply (total_lt _ _ _ _ (q + 9)).
  - intros; split; by apply digit_ok.
  - lia.
  - intros; apply Heq. lia.
  - by replace (-9 + (q + 9)) with q by lia.
Qed.

(** The word [k] places after the start of a layout. *)
Lemma layout_digit d start W F k : layout d start W F → 0 ≤ k < W + F → digit d (W - 1 - k) = wd (wordBuf d) (start + k).
Proof. intros [Hs HW HF _] Hk. rewrite digit_in by lia. f_equal. lia. Qed.

Lemma digit_pos d p : dec_ok d → digit d p ≠ 0 → 0 < digit d p.
Proof. intros Hd Hp. pose proof (digit_ok d p Hd) as []. lia. Qed.

(** Fewer integer words, the first of which is not zero: smaller. *)
Lemma fewer_words_lt a b s1 W1 F1 s2 W2 F2 : dec_ok a → dec_ok b → layout a s1 W1 F1 → layout b s2 W2 F2 →
  W1 < W2 → (0 ≤ F2) → wd (wordBuf b) s2 ≠ 0 → magnitude a < magnitude b.
Proof.
  intros Ha Hb La Lb Hlt HF Hnz. pose proof (dec_words b Hb). pose proof (la_W _ _ _ _ La). destruct (la_start _ _ _ _ Lb).
  apply (magnitude_lt a b (W2 - 1)); [done|done|lia| |].
  - intros p Hp. rewrite (la_zero _ _ _ _ La), (la_zero _ _ _ _ Lb) by lia. done.
  - rewrite (la_zero _ _ _ _ La) by lia. apply digit_pos; [done|].
    replace (W2 - 1) with (W2 - 1 - 0) by lia. rewrite (layout_digit b s2 W2 F2) by (done || lia). by rewrite Z.add_0_r.
Qed.

(** The words agree up to [n] and then the first ends, or has the smaller word. *)
Lemma common_words_lt a b s1 s2 W F1 F2 n : dec_ok a → dec_ok b → layout a s1 W F1 → layout b s2 W F2 →
  0 ≤ n → n < W + F2 → (∀ k, 0 ≤ k < n → k < W + F1 ∧ wd (wordBuf a) (s1 + k) = wd (wordBuf b) (s2 + k)) →
  (n < W + F1 ∧ wd (wordBuf a) (s1 + n) < wd (wordBuf b) (s2 + n)) ∨
  (n = W + F1 ∧ wd (wordBuf b) (s2 + (W + F2 - 1)) ≠ 0) →
  magnitude a < magnitude b.
Proof.
  intros Ha Hb La Lb Hn Hn2 Heq Hc. pose proof (dec_words a Ha). pose proof (dec_words b Hb).
  destruct (la_start _ _ _ _ La), (la_start _ _ _ _ Lb), (la_F _ _ _ _ La), (la_F _ _ _ _ Lb).
  assert (Hsame : ∀ p, W - 1 - n < p → digit a p = digit b p).
  { intros p Hp. destruct (decide (W ≤ p)); [rewrite (la_zero _ _ _ _ La), (la_zero _ _ _ _ Lb) by lia; done|].
    replace p with (W - 1 - (W - 1 - p)) by lia. destruct (Heq (W - 1 - p)) as [? E]; [lia|].
    rewrite (layout_digit a s1 W F1), (layout_digit b s2 W F2) by (done || lia). done. }
  destruct Hc as [[Hn1 Hw]|[Hn1 Hw]].
  - apply (magnitude_lt a b (W - 1 - n)); [done|done|lia|done|].
    rewrite (layout_digit a s1 W F1), (layout_digit b s2 W F2) by (done || lia). done.
  - apply (total_lt_pointwise _ _ _ _ (9 - F2)).
    + intros k _. destruct (decide (W - 1 - n < -9 + k)); [rewrite Hsame by lia; done|].
      rewrite (la_zero _ _ _ _ La) by lia. apply digit_ok. done.
    + lia.
    + rewrite (la_zero _ _ _ _ La) by lia. apply digit_pos; [done|].
      replace (-9 + (9 - F2)) with (W - 1 - (W + F2 - 1)) by lia. rewrite (layout_digit b s2 W F2) by (done || lia). done.
Qed.

Record aligned_ok (a b : MyDecimal) (al : aligned) : Prop := {
  ao_order : if al_carry al then magnitude a < magnitude b else magnitude b < magnitude a;
  ao_1 : layout a (al_start1 al) (al_wordsInt1 al) (al_wordsFrac1 al);
  ao_2 : layout b (al_start2 al) (al_wordsInt2 al) (al_wordsFrac2 al);
  ao_int : if al_carry al then al_wordsInt1 al ≤ al_wordsInt2 al else al_wordsInt2 al ≤ al_wordsInt1 al;
  ao_12 : 0 ≤ al_wordsInt1 al + al_wordsFrac2 al;
  ao_21 : 0 ≤ al_wordsInt2 al + al_wordsFrac1 al
}.

(** [align] on decimals with the same number of integer words. *)
Lemma align_same_int a b s1 s2 W : dec_ok a → dec_ok b →
  layout a s1 W (wordsFrac a) → layout b s2 W (wordsFrac b) →
  ∃ e1 e2 n, dropZeroWords 11 (wordBuf a) s1 (wordsInt a + wordsFrac a - 1) = Ok e1 ∧
    dropZeroWords 11 (wordBuf b) s2 (wordsInt b + wordsFrac b - 1) = Ok e2 ∧
    skipEqualWords 11 (wordBuf a) (wordBuf b) s1 e1 s2 e2 = Ok (s1 + n, s2 + n) ∧ 0 ≤ n ∧
    layout a s1 W (e1 - wordsInt a + 1) ∧ layout b s2 W (e2 - wordsInt b + 1) ∧ e1 < 9 ∧ e2 < 9 ∧ 
    (s1 ≤ e1 → wd (wordBuf a) e1 ≠ 0) ∧ (s2 ≤ e2 → wd (wordBuf b) e2 ≠ 0) ∧
    (∀ k, 0 ≤ k < n → s1 + k ≤ e1 ∧ s2 + k ≤ e2 ∧ wd (wordBuf a) (s1 + k) = wd (wordBuf b) (s2 + k)) ∧
    (s1 + n ≤ e1 → s2 + n ≤ e2 → wd (wordBuf a) (s1 + n) ≠ wd (wordBuf b) (s2 + n)).
Proof.
  intros Ha Hb La Lb. pose proof (dec_words a Ha). pose proof (dec_words b Hb).
  pose proof (do_words a Ha) as La9. pose proof (do_words b Hb) as Lb9.
  destruct (la_start _ _ _ _ La), (la_start _ _ _ _ Lb).
  pose proof (la_W _ _ _ _ La).
  destruct (dropZeroWords_ok (wordBuf a) s1 11 (wordsInt a + wordsFrac a - 1)) as (e1 & E1 & R1 & Z1 & N1); [lia..|].
  destruct (dropZeroWords_ok (wordBuf b) s2 11 (wordsInt b + wordsFrac b - 1)) as (e2 & E2 & R2 & Z2 & N2); [lia..|].
  destruct (skipEqualWords_ok (wordBuf a) (wordBuf b) e1 e2 11 s1 s2) as (n & En & Hn & Heq & Hne); [lia..|].
  exists e1, e2, n; split_and!; try done; try lia.
  all: match goal with |- layout ?d ?s ?W _ => replace W with (wordsInt d - s) by lia end; apply drop_layout; try done; try lia.
  all: match goal with |- layout ?d ?s ?x _ => by replace x with W by lia end.
Qed.

Lemma align_ok a b : dec_ok a → dec_ok b →
  (align a b = Ok None ∧ magnitude a = magnitude b) ∨ (∃ al, align a b = Ok (Some al) ∧ aligned_ok a b al).
Proof.
  intros Ha Hb. pose proof (dec_words a Ha). pose proof (dec_words b Hb).
  pose proof (do_words a Ha) as La9. pose proof (do_words b Hb) as Lb9.
  unfold align. fold (wordsInt a) (wordsInt b) (wordsFrac a) (wordsFrac b).
  destruct (skipZeroWords_ok (wordBuf a) (wordsInt a) 11 0) as (s1 & -> & R1 & Z1 & N1); [lia..|]. osimpl.
  destruct (skipZeroWords_ok (wordBuf b) (wordsInt b) 11 0) as (s2 & -> & R2 & Z2 & N2); [lia..|]. osimpl.
  pose proof (skip_layout a s1 Ha R1 Z1) as La. pose proof (skip_layout b s2 Hb R2 Z2) as Lb.
  destruct (Z.ltb_spec (wordsInt a - s1) (wordsInt b - s2)).
  { right. eexists. split; [done|]. split; simpl; try done; try lia.
    eapply fewer_words_lt; try done; [lia|]. apply N2. lia. }
  destruct (Z.eqb_spec (wordsInt b - s2) (wordsInt a - s1)) as [Heq|Hne].
  2:{ right. eexists. split; [done|]. split; simpl; try done; try lia.
      eapply (fewer_words_lt b a); try done; [lia..|]. apply N1. lia. }
  rewrite Heq in Lb. destruct (align_same_int a b s1 s2 _ Ha Hb La Lb)
    as (e1 & e2 & n & -> & E2 & E3 & Hn & La' & Lb' & He1 & He2 & Hz1 & Hz2 & Hcom & Hdiff).
  osimpl. rewrite E2. osimpl. rewrite E3. osimpl. rewrite Heq.
  pose proof (la_F _ _ _ _ La') as HF1. pose proof (la_F _ _ _ _ Lb') as HF2.
  destruct (Z.leb_spec (s1 + n) e1) as [Hi1|Hi1]; [destruct (Z.leb_spec (s2 + n) e2) as [Hi2|Hi2]|destruct (Z.leb_spec (s2 + n) e2) as [Hi2|Hi2]].
  - rewrite !indexZ_wd by lia. osimpl. right. eexists. split; [done|]. split; simpl; try done; try lia; [|by case_match].
    specialize (Hdiff Hi1 Hi2). destruct (Z.ltb_spec (wd (wordBuf a) (s1 + n)) (wd (wordBuf b) (s2 + n))).
    + eapply (common_words_lt a b s1 s2 _ _ _ n); try done; [lia| |left; lia]. intros k Hk. destruct (Hcom k Hk) as (? & ? & ?). lia.
    + eapply (common_words_lt b a s2 s1 _ _ _ n); try done; [lia| |left; lia]. intros k Hk. destruct (Hcom k Hk) as (? & ? & ?). lia.
  - right. eexists. split; [done|]. split; simpl; try done; try lia.
    eapply (common_words_lt b a s2 s1 _ _ _ n); try done; [lia| |right].
    + intros k Hk. destruct (Hcom k Hk) as (? & ? & ?). lia.
    + split; [|replace (s1 + _) with e1 by lia; apply Hz1; lia].
      destruct (decide (n = 0)) as [->|]; [lia|]. destruct (Hcom (n - 1)) as (? & ? & _); lia.
  - right. eexists. split; [done|]. split; simpl; try done; try lia.
    eapply (common_words_lt a b s1 s2 _ _ _ n); try done; [lia| |right].
    + intros k Hk. destruct (Hcom k Hk) as (? & ? & ?). lia.
    + split; [|replace (s2 + _) with e2 by lia; apply Hz2; lia].
      destruct (decide (n = 0)) as [->|]; [lia|]. destruct (Hcom (n - 1)) as (? & ? & _); lia.
  - left. split; [done|]. apply total_ext. intros k _. set (p := -9 + k). set (W := wordsInt a - s1) in *.
    destruct (decide (W ≤ p)); [rewrite (la_zero _ _ _ _ La'), (la_zero _ _ _ _ Lb') by lia; done|].
    destruct (decide (W - 1 - p < n)) as [Hp|Hp].
    + destruct (Hcom (W - 1 - p)) as (? & ? & E); [lia|]. replace p with (W - 1 - (W - 1 - p)) by lia.
      rewrite (layout_digit a s1 W _ _ La'), (layout_digit b s2 W _ _ Lb') by lia. done.
    + rewrite (la_zero _ _ _ _ La'), (la_zero _ _ _ _ Lb') by lia. done.
Qed.

(** The sign of a difference, as Go's comparison functions return it. *)
Definition comparison_sign (x y : Z) : Z := match x ?= y with Lt => -1 | Eq => 0 | Gt => 1 end.

Lemma magnitude_nonneg d : dec_ok d → 0 ≤ magnitude d.
Proof. intros Hd. apply total_bound. intros. by apply digit_ok. Qed.

Lemma CompareTo_ok a b : dec_ok a → dec_ok b → CompareTo a b = Ok (comparison_sign (value_of a) (value_of b)).
Proof.
  intros Ha Hb. unfold CompareTo, decimal_Compare, comparison_sign, value_of.
  pose proof (magnitude_nonneg a Ha). pose proof (magnitude_nonneg b Hb).
  pose proof (do_neg a Ha). pose proof (do_neg b Hb).
  destruct (negative a) eqn:Na, (negative b) eqn:Nb; cbn [Bool.eqb].
  1,4: unfold doSub_cmp; destruct (align_ok a b Ha Hb) as [[-> E]|(al & -> & [Ho _ _ _ _ _])]; osimpl;
    [rewrite E, Z.compare_refl; reflexivity|rewrite Na].
  all: try (destruct (al_carry al); cbn [Bool.eqb]); f_equal; symmetry;
    match goal with |- context [?x ?= ?y] => destruct (Z.compare_spec x y) end; reflexivity || lia.
Qed.

(** ** Lemmas: computing the words of a result *)

(** The result words [to] from [idxTo] on, with the carry (or borrow, [sgn] being -1),
    are the total of [g] over the exponents done so far. *)
Record partial (g : Z → Z) (sgn W F : Z) (to : list Z) (idxTo carry : Z) : Prop := {
  pa_len : length to = 9%nat;
  pa_words : Forall word_ok to;
  pa_fit : 0 ≤ W ∧ 0 ≤ F ∧ W + F ≤ 9;
  pa_idx : 0 ≤ idxTo ≤ W + F;
  pa_carry : 0 ≤ carry ≤ 1;
  pa_rest : ∀ i, 0 ≤ i < idxTo → wd to i = 0;
  pa_after : ∀ i, W + F ≤ i → wd to i = 0;
  pa_total : total (λ p, wd to (W - 1 - p)) (-F) (Z.to_nat (W + F - idxTo)) + sgn * carry * wordBase ^ (W + F - idxTo) =
             total g (-F) (Z.to_nat (W + F - idxTo))
}.

Lemma partial_start g sgn W F : 0 ≤ W → 0 ≤ F → W + F ≤ 9 → partial g sgn W F (replicate 9 0) (W + F) 0.
Proof.
  intros. assert (Hz : ∀ i, 0 ≤ i → wd (replicate 9 0) i = 0).
  { intros i Hi. unfold wd. destruct (replicate 9 0 !! Z.to_nat i) as [x|] eqn:E; [|done]. by apply lookup_replicate in E as [-> _]. }
  split; try lia; [done|repeat constructor; unfold wordBase; lia|intros; apply Hz; lia..|].
  - rewrite Z.sub_diag. simpl. lia.
Qed.

(** One more word. *)
Lemma partial_step g sgn W F to idxTo carry w carry' : partial g sgn W F to idxTo carry → 0 < idxTo → word_ok w → 0 ≤ carry' ≤ 1 →
  w + sgn * carry' * wordBase = g (W - idxTo) + sgn * carry →
  storeZ to (idxTo - 1) w = Ok (<[Z.to_nat (idxTo - 1) := w]> to) ∧
  partial g sgn W F (<[Z.to_nat (idxTo - 1) := w]> to) (idxTo - 1) carry'.
Proof.
  intros [Hlen Hw Hfit Hidx Hc Hrest Hafter Ht] Hpos Hok Hc' Hstep. split; [apply storeZ_ok; lia|].
  split; try lia; try done.
  - by rewrite length_insert.
  - by apply Forall_insert.
  - intros i Hi. rewrite wd_insert by lia. rewrite (proj2 (Z.eqb_neq (idxTo - 1) i)) by lia. apply Hrest. lia.
  - intros i Hi. rewrite wd_insert by lia. rewrite (proj2 (Z.eqb_neq (idxTo - 1) i)) by lia. by apply Hafter.
  - replace (Z.to_nat (W + F - (idxTo - 1))) with (S (Z.to_nat (W + F - idxTo))) by lia. cbn [total].
    rewrite Z2Nat.id by lia. replace (W + F - (idxTo - 1)) with (W + F - idxTo + 1) by lia.
    rewrite Z.pow_add_r, Z.pow_1_r by lia.
    rewrite (total_ext (λ p, wd (<[Z.to_nat (idxTo - 1) := w]> to) (W - 1 - p)) (λ p, wd to (W - 1 - p))).
    + rewrite <- Ht. replace (- F + (W + F - idxTo)) with (W - idxTo) by lia. rewrite wd_insert by lia.
      rewrite (proj2 (Z.eqb_eq (idxTo - 1) _)) by lia. nia.
    + intros k Hk. rewrite wd_insert by lia. by rewrite (proj2 (Z.eqb_neq (idxTo - 1) _)) by lia.
Qed.

Lemma add_ok a b c : word_ok a → word_ok b → 0 ≤ c ≤ 1 →
  ∃ w c', add a b c = (w, c') ∧ word_ok w ∧ 0 ≤ c' ≤ 1 ∧ w + 1 * c' * wordBase = a + b + c.
Proof.
  unfold add, word_ok, i32, wordBase. intros. rewrite (Z.mod_small (a + b + c + two31)) by lia.
  destruct (Z.leb_spec 1000000000 (a + b + c + two31 - two31)); do 2 eexists; (split; [done|]);
    rewrite ?Z.mod_small by lia; lia.
Qed.

Lemma sub_ok a b c : word_ok a → word_ok b → 0 ≤ c ≤ 1 →
  ∃ w c', sub a b c = (w, c') ∧ word_ok w ∧ 0 ≤ c' ≤ 1 ∧ w + -1 * c' * wordBase = a - b - c.
Proof.
  unfold sub, word_ok, i32, wordBase. intros. rewrite (Z.mod_small (a - b - c + two31)) by lia.
  destruct (Z.ltb_spec (a - b - c + two31 - two31) 0); do 2 eexists; (split; [done|]);
    rewrite ?Z.mod_small by lia; lia.
Qed.

(** [op] adds ([sgn = 1]) or subtracts ([sgn = -1]) a word with a carry. *)
Definition op_spec (sgn : Z) (op : Z → Z → Z → Z * Z) : Prop :=
  ∀ a b c, word_ok a → word_ok b → 0 ≤ c ≤ 1 →
  ∃ w c', op a b c = (w, c') ∧ word_ok w ∧ 0 ≤ c' ≤ 1 ∧ w + sgn * c' * wordBase = a + sgn * (b + c).

Lemma add_spec : op_spec 1 add.
Proof. intros a b c Ha Hb Hc. destruct (add_ok a b c) as (w & c' & ? & ? & ? & ?); try done. exists w, c'. split_and!; try done; lia. Qed.

Lemma sub_spec : op_spec (-1) sub.
Proof. intros a b c Ha Hb Hc. destruct (sub_ok a b c) as (w & c' & ? & ? & ? & ?); try done. exists w, c'. split_and!; try done; lia. Qed.

Section loops.
Context (g : Z → Z) (sgn W F : Z).

Lemma zeroWords_ok n : ∀ to idxTo, partial g sgn W F to idxTo 0 → Z.of_nat n ≤ idxTo →
  (∀ k, 0 ≤ k < Z.of_nat n → g (W - idxTo + k) = 0) →
  ∃ to', zeroWords n to idxTo = Ok (to', idxTo - Z.of_nat n) ∧ partial g sgn W F to' (idxTo - Z.of_nat n) 0.
Proof.
  induction n as [|n IH]; intros to idxTo Hp Hn Hg; cbn [zeroWords].
  - exists to. by rewrite Z.sub_0_r.
  - destruct (partial_step g sgn W F to idxTo 0 0 0) as [-> Hp']; [done|lia|unfold word_ok, wordBase; lia|lia| |].
    { rewrite <- (Z.add_0_r (W - idxTo)), Hg by lia. lia. }
    osimpl. destruct (IH _ (idxTo - 1) Hp') as (to' & -> & Hp2); [lia| |].
    + intros k Hk. replace (W - (idxTo - 1) + k) with (W - idxTo + (k + 1)) by lia. apply Hg. lia.
    + exists to'. replace (idxTo - Z.of_nat (S n)) with (idxTo - 1 - Z.of_nat n) by lia. done.
Qed.

Context (ws1 ws2 : list Z) (Hok1 : Forall word_ok ws1) (Hok2 : Forall word_ok ws2).

Lemma copyWords_ok n : ∀ to idx1 idxTo, partial g sgn W F to idxTo 0 → Z.of_nat n ≤ idxTo →
  Z.of_nat n ≤ idx1 ≤ Z.of_nat (length ws1) →
  (∀ k, 0 ≤ k < Z.of_nat n → g (W - idxTo + k) = wd ws1 (idx1 - 1 - k)) →
  ∃ to', copyWords n ws1 to idx1 idxTo = Ok (to', idx1 - Z.of_nat n, idxTo - Z.of_nat n) ∧
    partial g sgn W F to' (idxTo - Z.of_nat n) 0.
Proof using Hok1.
  induction n as [|n IH]; intros to idx1 idxTo Hp Hn Hi Hg; cbn [copyWords].
  - exists to. by rewrite !Z.sub_0_r.
  - rewrite indexZ_wd by lia. osimpl.
    destruct (partial_step g sgn W F to idxTo 0 (wd ws1 (idx1 - 1)) 0) as [-> Hp']; [done|lia|by apply wd_ok|lia| |].
    { rewrite <- (Z.add_0_r (W - idxTo)), Hg by lia. rewrite !Z.sub_0_r. lia. }
    osimpl. destruct (IH _ (idx1 - 1) (idxTo - 1) Hp') as (to' & -> & Hp2); [lia|lia| |].
    + intros k Hk. replace (W - (idxTo - 1) + k) with (W - idxTo + (k + 1)) by lia. rewrite Hg by lia. f_equal. lia.
    + exists to'. replace (idxTo - Z.of_nat (S n)) with (idxTo - 1 - Z.of_nat n) by lia.
      by replace (idx1 - Z.of_nat (S n)) with (idx1 - 1 - Z.of_nat n) by lia.
Qed.

Context (op : Z → Z → Z → Z * Z) (Hop : op_spec sgn op).

Lemma opWords_ok n : ∀ to idx1 idx2 idxTo carry, partial g sgn W F to idxTo carry → Z.of_nat n ≤ idxTo →
  Z.of_nat n ≤ idx1 ≤ Z.of_nat (length ws1) → Z.of_nat n ≤ idx2 ≤ Z.of_nat (length ws2) →
  (∀ k, 0 ≤ k < Z.of_nat n → g (W - idxTo + k) = wd ws1 (idx1 - 1 - k) + sgn * wd ws2 (idx2 - 1 - k)) →
  ∃ to' carry', opWords op n ws1 ws2 to idx1 idx2 idxTo carry =
      Ok (to', idx1 - Z.of_nat n, idx2 - Z.of_nat n, idxTo - Z.of_nat n, carry') ∧
    partial g sgn W F to' (idxTo - Z.of_nat n) carry'.
Proof using Hok1 Hok2 Hop.
  induction n as [|n IH]; intros to idx1 idx2 idxTo carry Hp Hn Hi1 Hi2 Hg; cbn [opWords].
  - exists to, carry. by rewrite !Z.sub_0_r.
  - rewrite !indexZ_wd by lia. osimpl.
    destruct (Hop (wd ws1 (idx1 - 1)) (wd ws2 (idx2 - 1)) carry) as (w & c & -> & Hw & Hc & E); [by apply wd_ok..|apply Hp|].
    destruct (partial_step g sgn W F to idxTo carry w c) as [-> Hp']; [done|lia|done|done| |].
    { rewrite <- (Z.add_0_r (W - idxTo)), Hg by lia. rewrite !Z.sub_0_r. lia. }
    osimpl. destruct (IH _ (idx1 - 1) (idx2 - 1) (idxTo - 1) c Hp') as (to' & c' & -> & Hp2); [lia|lia|lia| |].
    + intros k Hk. replace (W - (idxTo - 1) + k) with (W - idxTo + (k + 1)) by lia. rewrite Hg by lia. do 2 f_equal; [|f_equal]; lia.
    + exists to', c'. replace (idxTo - Z.of_nat (S n)) with (idxTo - 1 - Z.of_nat n) by lia.
      replace (idx2 - Z.of_nat (S n)) with (idx2 - 1 - Z.of_nat n) by lia.
      by replace (idx1 - Z.of_nat (S n)) with (idx1 - 1 - Z.of_nat n) by lia.
Qed.

Lemma opLeft_ok n : ∀ to idx1 idxTo carry, partial g sgn W F to idxTo carry → Z.of_nat n ≤ idxTo →
  Z.of_nat n ≤ idx1 ≤ Z.of_nat (length ws1) →
  (∀ k, 0 ≤ k < Z.of_nat n → g (W - idxTo + k) = wd ws1 (idx1 - 1 - k)) →
  ∃ to' carry', opLeft op n ws1 to idx1 idxTo carry = Ok (to', idx1 - Z.of_nat n, idxTo - Z.of_nat n, carry') ∧
    partial g sgn W F to' (idxTo - Z.of_nat n) carry'.
Proof using Hok1 Hop.
  induction n as [|n IH]; intros to idx1 idxTo carry Hp Hn Hi1 Hg; cbn [opLeft].
  - exists to, carry. by rewrite !Z.sub_0_r.
  - rewrite !indexZ_wd by lia. osimpl.
    destruct (Hop (wd ws1 (idx1 - 1)) 0 carry) as (w & c & -> & Hw & Hc & E);
      [by apply wd_ok|unfold word_ok, wordBase; lia|apply Hp|].
    destruct (partial_step g sgn W F to idxTo carry w c) as [-> Hp']; [done|lia|done|done| |].
    { rewrite <- (Z.add_0_r (W - idxTo)), Hg by lia. rewrite !Z.sub_0_r. lia. }
    osimpl. destruct (IH _ (idx1 - 1) (idxTo - 1) c Hp') as (to' & c' & -> & Hp2); [lia|lia| |].
    + intros k Hk. replace (W - (idxTo - 1) + k) with (W - idxTo + (k + 1)) by lia. rewrite Hg by lia. f_equal. lia.
    + exists to', c'. replace (idxTo - Z.of_nat (S n)) with (idxTo - 1 - Z.of_nat n) by lia.
      by replace (idx1 - Z.of_nat (S n)) with (idx1 - 1 - Z.of_nat n) by lia.
Qed.

End loops.

Lemma subRight_ok g W F ws2 n : Forall word_ok ws2 → ∀ to idx2 idxTo carry, partial g (-1) W F to idxTo carry → Z.of_nat n ≤ idxTo →
  Z.of_nat n ≤ idx2 ≤ Z.of_nat (length ws2) →
  (∀ k, 0 ≤ k < Z.of_nat n → g (W - idxTo + k) = - wd ws2 (idx2 - 1 - k)) →
  ∃ to' carry', subRight n ws2 to idx2 idxTo carry = Ok (to', idx2 - Z.of_nat n, idxTo - Z.of_nat n, carry') ∧
    partial g (-1) W F to' (idxTo - Z.of_nat n) carry'.
Proof.
  intros Hok. induction n as [|n IH]; intros to idx2 idxTo carry Hp Hn Hi1 Hg; cbn [subRight].
  - exists to, carry. by rewrite !Z.sub_0_r.
  - rewrite !indexZ_wd by lia. osimpl.
    destruct (sub_spec 0 (wd ws2 (idx2 - 1)) carry) as (w & c & -> & Hw & Hc & E);
      [unfold word_ok, wordBase; lia|by apply wd_ok|apply Hp|].
    destruct (partial_step g (-1) W F to idxTo carry w c) as [-> Hp']; [done|lia|done|done| |].
    { rewrite <- (Z.add_0_r (W - idxTo)), Hg by lia. rewrite !Z.sub_0_r. lia. }
    osimpl. destruct (IH _ (idx2 - 1) (idxTo - 1) c Hp') as (to' & c' & -> & Hp2); [lia|lia| |].
    + intros k Hk. replace (W - (idxTo - 1) + k) with (W - idxTo + (k + 1)) by lia. rewrite Hg by lia. do 2 f_equal. lia.
    + exists to', c'. replace (idxTo - Z.of_nat (S n)) with (idxTo - 1 - Z.of_nat n) by lia.
      by replace (idx2 - Z.of_nat (S n)) with (idx2 - 1 - Z.of_nat n) by lia.
Qed.

(** The borrow is taken from the words of the larger decimal until it is gone. *)
Lemma subCarry_ok g W F ws1 n : Forall word_ok ws1 → ∀ to idx1 idxTo carry, partial g (-1) W F to idxTo carry → Z.of_nat n ≤ idxTo →
  Z.of_nat n ≤ idx1 ≤ Z.of_nat (length ws1) →
  (∀ k, 0 ≤ k < Z.of_nat n → g (W - idxTo + k) = wd ws1 (idx1 - 1 - k)) →
  ∃ to' m carry', subCarry n ws1 to idx1 idxTo carry = Ok (to', idx1 - m, idxTo - m, carry') ∧ 0 ≤ m ≤ Z.of_nat n ∧
    partial g (-1) W F to' (idxTo - m) carry' ∧ (m < Z.of_nat n → carry' = 0).
Proof.
  intros Hok. induction n as [|n IH]; intros to idx1 idxTo carry Hp Hn Hi1 Hg; cbn [subCarry].
  - exists to, 0, carry. rewrite !Z.sub_0_r. split_and!; try done; lia.
  - destruct (Z.ltb_spec 0 carry).
    2:{ exists to, 0, carry. rewrite !Z.sub_0_r. split_and!; try done; try lia. destruct (pa_carry _ _ _ _ _ _ _ Hp). lia. }
    rewrite !indexZ_wd by lia. osimpl.
    destruct (sub_spec (wd ws1 (idx1 - 1)) 0 carry) as (w & c & -> & Hw & Hc & E);
      [by apply wd_ok|unfold word_ok, wordBase; lia|apply Hp|].
    destruct (partial_step g (-1) W F to idxTo carry w c) as [-> Hp']; [done|lia|done|done| |].
    { rewrite <- (Z.add_0_r (W - idxTo)), Hg by lia. rewrite !Z.sub_0_r. lia. }
    osimpl. destruct (IH _ (idx1 - 1) (idxTo - 1) c Hp') as (to' & m & c' & -> & Hm & Hp2 & Hz); [lia|lia| |].
    + intros k Hk. replace (W - (idxTo - 1) + k) with (W - idxTo + (k + 1)) by lia. rewrite Hg by lia. f_equal. lia.
    + exists to', (m + 1), c'. replace (idxTo - (m + 1)) with (idxTo - 1 - m) by lia.
      replace (idx1 - (m + 1)) with (idx1 - 1 - m) by lia. split_and!; try done; try lia.
Qed.

(** A word that is not written is zero. *)
Lemma partial_skip g sgn W F to : partial g sgn W F to 1 0 → g (W - 1) = 0 → partial g sgn W F to 0 0.
Proof.
  intros Hp Hg. destruct (partial_step g sgn W F to 1 0 0 0 Hp) as [_ Hp']; [lia|unfold word_ok, wordBase; lia|lia|lia|].
  simpl in Hp'. rewrite list_insert_id in Hp'; [done|].
  pose proof (pa_rest _ _ _ _ _ _ _ Hp 0 ltac:(lia)) as H0. pose proof (pa_len _ _ _ _ _ _ _ Hp).
  destruct to as [|x to]; [done|]. change (x = 0) in H0. by rewrite H0.
Qed.

(** The finished words, as a decimal. *)
Lemma partial_result g sgn W F to df rf neg (d := MkDecimal (i8 (W * digitsPerWord)) df rf neg to) :
  partial g sgn W F to 0 0 → 0 ≤ df → digitsToWords df = F →
  wordsInt d = W ∧ wordsFrac d = F ∧ magnitude d = wordBase ^ (9 - F) * total g (-F) (Z.to_nat (W + F)).
Proof.
  intros [Hlen Hw Hfit Hidx Hc Hrest _ Ht] Hdf HF.
  assert (HW : wordsInt d = W).
  { unfold wordsInt, d, i8, digitsPerWord, digitsToWords. simpl. rewrite Z.mod_small by lia. unfold digitsPerWord.
    rewrite Z.quot_div_nonneg by lia. symmetry. apply (Z.div_unique _ _ _ 8); lia. }
  assert (HF' : wordsFrac d = F) by done.
  split_and!; [done|done|]. unfold magnitude.
  rewrite (total_window _ W F) by (try lia; intros; apply digit_out; lia). f_equal.
  rewrite Z.mul_0_r, Z.mul_0_l, Z.add_0_r, Z.sub_0_r in Ht. rewrite <- Ht. apply total_ext. intros k Hk.
  rewrite digit_in by lia. rewrite HW. done.
Qed.

(** ** Addition is exact *)

(** Without a carry word the top words leave room for a carry. *)
Lemma top_room d1 d2 M F : dec_ok d1 → dec_ok d2 → 0 ≤ M + F → digit d1 (M - 1) + digit d2 (M - 1) < wordBase - 1 →
  total (λ p, digit d1 p + 1 * digit d2 p) (-F) (Z.to_nat (M + F)) < wordBase ^ (M + F).
Proof.
  intros H1 H2 HMF Htop. destruct (decide (M + F = 0)) as [->|]; [done|].
  replace (Z.to_nat (M + F)) with (S (Z.to_nat (M + F - 1))) by lia. cbn [total]. rewrite total_add.
  rewrite Z2Nat.id by lia. replace (- F + (M + F - 1)) with (M - 1) by lia.
  assert (B1 := total_bound (digit d1) (-F) (Z.to_nat (M + F - 1)) ltac:(intros; by apply digit_ok)).
  assert (B2 := total_bound (digit d2) (-F) (Z.to_nat (M + F - 1)) ltac:(intros; by apply digit_ok)).
  rewrite Z2Nat.id in B1, B2 by lia.
  replace (wordBase ^ (M + F)) with (wordBase * wordBase ^ (M + F - 1)) by (rewrite <- Z.pow_succ_r by lia; f_equal; lia).
  set (P := wordBase ^ (M + F - 1)) in *. nia.
Qed.

Lemma addWords_ok d1 d2 d3 W (M := Z.max (wordsInt d1) (wordsInt d2)) :
  dec_ok d1 → dec_ok d2 → wordsFrac d2 ≤ wordsFrac d1 → M ≤ W ≤ M + 1 → W + wordsFrac d1 ≤ 9 →
  (W = M → digit d1 (M - 1) + digit d2 (M - 1) < wordBase - 1) →
  (wordsInt d2 < wordsInt d1 → d3 = d1) → (wordsInt d1 < wordsInt d2 → d3 = d2) → dec_ok d3 →
  ∃ to, addWords (wordBuf d1) (wordBuf d2) (wordBuf d3) (wordsInt d1 + wordsFrac d1) (wordsInt d2 + wordsFrac d2)
      (wordsInt d1 + wordsFrac d2) (if wordsInt d2 <? wordsInt d1 then wordsInt d1 - wordsInt d2 else 0)
      (Z.abs (wordsInt d1 - wordsInt d2)) (W + wordsFrac d1) = Ok to ∧
    partial (λ p, digit d1 p + 1 * digit d2 p) 1 W (wordsFrac d1) to 0 0.
Proof.
  intros H1 H2 HF HW Hfit Htop H31 H32 H3. pose proof (dec_words d1 H1). pose proof (dec_words d2 H2).
  pose proof (do_words d1 H1) as L1. pose proof (do_words d2 H2) as L2. pose proof (do_words d3 H3) as L3.
  set (wi1 := wordsInt d1) in *. set (wi2 := wordsInt d2) in *. set (F := wordsFrac d1) in *. set (f2 := wordsFrac d2) in *.
  set (g := λ p, digit d1 p + 1 * digit d2 p). unfold addWords.
  pose proof (partial_start g 1 W F ltac:(lia) ltac:(lia) ltac:(lia)) as P0.
  destruct (copyWords_ok g 1 W F (wordBuf d1) (do_range d1 H1) (Z.to_nat (wi1 + F - (wi1 + f2))) _ (wi1 + F) (W + F) P0)
    as (to1 & -> & P1); [lia|lia| |].
  { intros k Hk. unfold g. rewrite (digit_out d2) by lia. rewrite digit_in by lia. rewrite Z.mul_0_r, Z.add_0_r. f_equal. lia. }
  osimpl. rewrite Z2Nat.id in * by lia. set (stop2 := if wi2 <? wi1 then wi1 - wi2 else 0).
  assert (Hstop2 : stop2 = wi1 - Z.min wi1 wi2) by (unfold stop2; case_match; lia).
  destruct (opWords_ok g 1 W F (wordBuf d1) (wordBuf d2) (do_range d1 H1) (do_range d2 H2) add add_spec
    (Z.to_nat (wi1 + F - (wi1 + F - (wi1 + f2)) - stop2)) to1 (wi1 + F - (wi1 + F - (wi1 + f2))) (wi2 + f2)
    (W + F - (wi1 + F - (wi1 + f2))) 0) as (to2 & c2 & -> & P2); [done|lia..| |].
  { intros k Hk. unfold g. rewrite !digit_in by lia. f_equal; [|do 2 f_equal]; [f_equal|]; lia. }
  osimpl. rewrite Z2Nat.id in * by lia.
  destruct (opLeft_ok g 1 W F (wordBuf d3) (do_range d3 H3) add add_spec (Z.to_nat (Z.abs (wi1 - wi2))) to2
    (Z.abs (wi1 - wi2)) (W + F - (wi1 + F - (wi1 + f2)) - (wi1 + F - (wi1 + F - (wi1 + f2)) - stop2)) c2) as (to3 & c3 & -> & P3);
    [done|lia|lia| |].
  { intros k Hk. unfold g. destruct (decide (wi2 < wi1)).
    - rewrite H31 by lia. rewrite (digit_out d2) by lia. rewrite digit_in by lia. rewrite Z.mul_0_r, Z.add_0_r. f_equal. lia.
    - rewrite H32 by lia. rewrite (digit_out d1) by lia. rewrite digit_in by lia. rewrite Z.mul_1_l, Z.add_0_l. f_equal. lia. }
  osimpl. set (idxTo := _ - Z.of_nat _) in *. assert (Hidx : idxTo = W - M) by (unfold idxTo; lia). clearbody idxTo. subst idxTo.
  destruct (decide (W = M)) as [->|HWM].
  - assert (c3 = 0) as ->; [|exists to3; by rewrite Z.sub_diag in P3].
    pose proof (top_room d1 d2 M F H1 H2 ltac:(lia) (Htop eq_refl)) as Hroom. destruct P3 as [_ Hw _ _ Hc _ _ Ht].
    rewrite Z.sub_diag, Z.sub_0_r in Ht. fold g in Hroom. rewrite <- Ht in Hroom.
    assert (HT := total_bound (λ p, wd to3 (M - 1 - p)) (-F) (Z.to_nat (M + F)) ltac:(intros; by apply wd_ok)).
    assert (c3 = 0 ∨ c3 = 1) as [->| ->] by lia; [done|]. rewrite !Z.mul_1_l in Hroom. lia.
  - replace (W - M) with 1 in * by lia. assert (Hg : g (W - 1) = 0) by (unfold g; rewrite !digit_out by lia; done).
    destruct (Z.ltb_spec 0 c3) as [Hc|Hc].
    + assert (c3 = 1) as -> by (destruct (pa_carry _ _ _ _ _ _ _ P3); lia).
      destruct (partial_step g 1 W F to3 1 1 1 0 P3) as [-> P4]; [lia|unfold word_ok, wordBase; lia|lia|lia|]. by eexists.
    + assert (c3 = 0) as -> by (destruct (pa_carry _ _ _ _ _ _ _ P3); lia). exists to3. split; [done|]. by apply partial_skip.
Qed.

(** A decimal with no word set outside its digits: it is zero only when all words are. *)
Definition clean (d : MyDecimal) : Prop := dec_ok d ∧ ∀ j, wordsInt d + wordsFrac d ≤ j → wd (wordBuf d) j = 0.

(** The words and digit counts of a result that is well formed up to its sign. *)
Lemma result_ok g sgn W F to df rf neg (d := MkDecimal (i8 (W * digitsPerWord)) df rf neg to) :
  partial g sgn W F to 0 0 → 0 ≤ df → digitsToWords df = F → 0 ≤ rf ≤ 81 → (neg = true → magnitude d ≠ 0) → clean d.
Proof.
  intros Hp Hdf HF Hrf Hneg. destruct (partial_result g sgn W F to df rf neg Hp Hdf HF) as (HW & HF' & _). fold d in HW, HF'.
  pose proof (pa_fit _ _ _ _ _ _ _ Hp). split; [|rewrite HW, HF'; apply Hp]. split; try done; try apply Hp.
  - simpl. unfold i8, digitsPerWord. rewrite Z.mod_small by lia. lia.
  - rewrite HW, HF'. lia.
Qed.

Lemma digitsToWords_max x y : 0 ≤ x → 0 ≤ y → digitsToWords (Z.max x y) = Z.max (digitsToWords x) (digitsToWords y).
Proof.
  intros. destruct (Z.max_spec x y) as [[? ->]|[? ->]];
    pose proof (digitsToWords_range x); pose proof (digitsToWords_range y); lia.
Qed.

Lemma digit_top d : dec_ok d → digit d (wordsInt d - 1) ≤ wd (wordBuf d) 0.
Proof.
  intros Hd. pose proof (dec_words d Hd). destruct (decide (- wordsFrac d ≤ wordsInt d - 1)).
  - rewrite digit_in by lia. replace (wordsInt d - 1 - (wordsInt d - 1)) with 0 by lia. done.
  - rewrite digit_out by lia. apply (wd_ok (wordBuf d) 0), Hd.
Qed.

(** The word [doAdd] looks at to see whether there can be a carry out of the top. *)
Definition carry_word (a b : MyDecimal) : Z :=
  if wordsInt b <? wordsInt a then wd (wordBuf a) 0
  else if wordsInt a <? wordsInt b then wd (wordBuf b) 0 else i32 (wd (wordBuf a) 0 + wd (wordBuf b) 0).

Lemma carry_word_room a b (M := Z.max (wordsInt a) (wordsInt b)) : dec_ok a → dec_ok b →
  carry_word a b ≤ wordMax - 1 → digit a (M - 1) + digit b (M - 1) < wordBase - 1.
Proof.
  intros Ha Hb Hx. pose proof (wd_ok (wordBuf a) 0 (do_range a Ha)) as Wa. pose proof (wd_ok (wordBuf b) 0 (do_range b Hb)) as Wb.
  pose proof (digit_top a Ha). pose proof (digit_top b Hb). unfold carry_word, i32, word_ok, wordMax, wordBase, M in *.
  destruct (Z.ltb_spec (wordsInt b) (wordsInt a)); [rewrite Z.max_l, (digit_out b) by lia; lia|].
  destruct (Z.ltb_spec (wordsInt a) (wordsInt b)); [rewrite Z.max_r, (digit_out a) by lia; lia|].
  rewrite Z.mod_small in Hx by lia. replace (Z.max (wordsInt a) (wordsInt b)) with (wordsInt a) by lia.
  replace (wordsInt b) with (wordsInt a) in * by lia. lia.
Qed.

(** The loops of [doAdd], whichever decimal has more fraction or integer words. *)
Lemma addWords_either a b W (M := Z.max (wordsInt a) (wordsInt b)) (F := Z.max (wordsFrac a) (wordsFrac b)) :
  dec_ok a → dec_ok b → M ≤ W ≤ M + 1 → W + F ≤ 9 → (W = M → digit a (M - 1) + digit b (M - 1) < wordBase - 1) →
  ∃ g to, (if wordsFrac b <? wordsFrac a then
      addWords (wordBuf a) (wordBuf b) (if wordsInt b <? wordsInt a then wordBuf a else wordBuf b) (wordsInt a + wordsFrac a)
        (wordsInt b + wordsFrac b) (wordsInt a + wordsFrac b) (if wordsInt b <? wordsInt a then wordsInt a - wordsInt b else 0)
        (if wordsInt b <? wordsInt a then wordsInt a - wordsInt b else wordsInt b - wordsInt a) (W + F)
    else
      addWords (wordBuf b) (wordBuf a) (if wordsInt b <? wordsInt a then wordBuf a else wordBuf b) (wordsInt b + wordsFrac b)
        (wordsInt a + wordsFrac a) (wordsInt b + wordsFrac a) (if wordsInt a <? wordsInt b then wordsInt b - wordsInt a else 0)
        (if wordsInt b <? wordsInt a then wordsInt a - wordsInt b else wordsInt b - wordsInt a) (W + F)) = Ok to ∧
    partial g 1 W F to 0 0 ∧ total g (-F) (Z.to_nat (W + F)) =
      total (digit a) (-F) (Z.to_nat (W + F)) + total (digit b) (-F) (Z.to_nat (W + F)).
Proof.
  intros Ha Hb HW Hfit Htop. pose proof (dec_words a Ha). pose proof (dec_words b Hb).
  destruct (Z.ltb_spec (wordsFrac b) (wordsFrac a)) as [Hf|Hf].
  - destruct (addWords_ok a b (if wordsInt b <? wordsInt a then a else b) W) as (to & E & Hp); try done; try lia;
      [repeat case_match; lia || done..|by case_match|].
    exists (λ p, digit a p + 1 * digit b p), to. replace F with (wordsFrac a) by lia. split_and!; [|done|rewrite total_add; lia].
    rewrite <- E. f_equal; [by case_match|]. case_match; lia.
  - destruct (addWords_ok b a (if wordsInt b <? wordsInt a then a else b) W) as (to & E & Hp); try done; try lia;
      [rewrite Z.max_comm; fold M; lia|repeat case_match; lia || done..|by case_match|].
    exists (λ p, digit b p + 1 * digit a p), to. replace F with (wordsFrac b) by lia. split_and!; [|done|rewrite total_add; lia].
    rewrite <- E. f_equal; [by case_match|]. case_match; lia.
Qed.

(** The magnitude over a window that holds both decimals of an operation. *)
Lemma magnitude_window d W F : 0 ≤ F ≤ 9 → W ≤ 9 → 0 ≤ W + F → (∀ p, p < -F ∨ W ≤ p → digit d p = 0) →
  magnitude d = wordBase ^ (9 - F) * total (digit d) (-F) (Z.to_nat (W + F)).
Proof. intros. by apply total_window. Qed.

(** The integer words of a sum. *)
Definition sum_words (a b : MyDecimal) : Z :=
  if wordMax - 1 <? carry_word a b then Z.max (wordsInt a) (wordsInt b) + 1 else Z.max (wordsInt a) (wordsInt b).

(** The sum of the magnitudes, for decimals with the same sign. *)
Lemma doAdd_ok a b rf : dec_ok a → dec_ok b → 0 ≤ rf ≤ 81 → sum_words a b + Z.max (wordsFrac a) (wordsFrac b) ≤ 9 →
  ∃ d, doAdd a b rf = Ok (d, None) ∧ clean d ∧ negative d = negative a ∧ magnitude d = magnitude a + magnitude b.
Proof.
  intros Ha Hb Hrf Hfit. pose proof (dec_words a Ha). pose proof (dec_words b Hb).
  unfold doAdd. fold (wordsInt a) (wordsInt b) (wordsFrac a) (wordsFrac b).
  rewrite !indexZ_wd by (rewrite ?(do_words a Ha), ?(do_words b Hb); lia). osimpl. fold (carry_word a b).
  set (M := Z.max (wordsInt a) (wordsInt b)) in *. set (F := Z.max (wordsFrac a) (wordsFrac b)) in *.
  set (W := if wordMax - 1 <? carry_word a b then M + 1 else M). change (sum_words a b) with W in Hfit.
  assert (HW : M ≤ W ≤ M + 1) by (unfold W; case_match; lia).
  assert (Htop : W = M → digit a (M - 1) + digit b (M - 1) < wordBase - 1).
  { unfold W. destruct (Z.ltb_spec (wordMax - 1) (carry_word a b)); [lia|]. intros _. by apply carry_word_room. }
  unfold fixWordCntError. rewrite (proj2 (Z.ltb_ge maxWordBufLen (W + F))) by (unfold maxWordBufLen; lia).
  change (is_overflow None) with false. cbn match. set (df := Z.max (digitsFrac a) (digitsFrac b)).
  assert (Hdf : digitsToWords df = F) by (unfold df; rewrite digitsToWords_max by (apply Ha || apply Hb); done).
  assert (Hdf0 : 0 ≤ df) by (pose proof (do_frac a Ha); unfold df; lia).
  destruct (addWords_either a b W) as (g & to & E & Hp & Hg); [done|done|done|fold F; lia|done|]. fold F in E, Hp, Hg.
  destruct (partial_result g 1 W F to df rf (negative a) Hp Hdf0 Hdf) as (_ & _ & Hm).
  rewrite Hg, Z.mul_add_distr_l, <- !magnitude_window in Hm by (try lia; intros; apply digit_out; lia).
  eexists. split; [|split; [|split; [|exact Hm]]].
  - destruct (wordsFrac b <? wordsFrac a), (wordsInt b <? wordsInt a); cbn match; rewrite E; done.
  - eapply result_ok; try done. rewrite Hm. intros Hn. pose proof (do_neg a Ha Hn).
    pose proof (magnitude_nonneg a Ha). pose proof (magnitude_nonneg b Hb). lia.
  - done.
Qed.

(** ** Subtraction is exact *)

(** The first part: zero words, then the fraction words only one of the two has. *)
Lemma subtract_fraction d1 d2 s1 W1 F1 s2 W2 F2 F (g := λ p, digit d1 p + -1 * digit d2 p) :
  dec_ok d1 → dec_ok d2 → layout d1 s1 W1 F1 → layout d2 s2 W2 F2 → W2 ≤ W1 → 0 ≤ W1 + F2 → 0 ≤ W2 + F1 →
  F1 ≤ F → F2 ≤ F → 0 ≤ F → W1 + F ≤ 9 →
  ∃ to carry, (if F2 <? F1 then
       '(to, idxTo) ← zeroWords (Z.to_nat (F - F1)) (replicate 9 0) (W1 + F);
       '(to, idx1, idxTo) ← copyWords (Z.to_nat (s1 + W1 + F1 - (s1 + W1 + F2))) (wordBuf d1) to (s1 + W1 + F1) idxTo;
       Ok (to, idx1, s2 + W2 + F2, idxTo, 0)
     else
       '(to, idxTo) ← zeroWords (Z.to_nat (F - F2)) (replicate 9 0) (W1 + F);
       '(to, idx2, idxTo, carry) ← subRight (Z.to_nat (s2 + W2 + F2 - (s2 + W2 + F1))) (wordBuf d2) to (s2 + W2 + F2) idxTo 0;
       Ok (to, s1 + W1 + F1, idx2, idxTo, carry)) =
    Ok (to, s1 + W1 + Z.min F1 F2, s2 + W2 + Z.min F1 F2, W1 + Z.min F1 F2, carry) ∧
    partial g (-1) W1 F to (W1 + Z.min F1 F2) carry.
Proof.
  intros H1 H2 La Lb HW H12 H21 HF1 HF2 HF Hfit. pose proof (dec_words d1 H1). pose proof (dec_words d2 H2).
  pose proof (do_words d1 H1) as L1. pose proof (do_words d2 H2) as L2.
  destruct (la_start _ _ _ _ La), (la_start _ _ _ _ Lb), (la_F _ _ _ _ La), (la_F _ _ _ _ Lb).
  pose proof (la_W _ _ _ _ La). pose proof (la_W _ _ _ _ Lb).
  pose proof (partial_start g (-1) W1 F ltac:(lia) ltac:(lia) ltac:(lia)) as P0.
  destruct (Z.ltb_spec F2 F1).
  - destruct (zeroWords_ok g (-1) W1 F (Z.to_nat (F - F1)) _ _ P0) as (to1 & -> & P1); [lia| |].
    { intros k Hk. unfold g. rewrite (la_zero _ _ _ _ La), (la_zero _ _ _ _ Lb) by lia. done. }
    osimpl. rewrite Z2Nat.id in * by lia.
    destruct (copyWords_ok g (-1) W1 F (wordBuf d1) (do_range d1 H1) (Z.to_nat (s1 + W1 + F1 - (s1 + W1 + F2))) to1 (s1 + W1 + F1)
      (W1 + F - (F - F1)) P1) as (to2 & -> & P2); [lia|lia| |].
    { intros k Hk. unfold g. rewrite (la_zero _ _ _ _ Lb) by lia. rewrite digit_in by lia. rewrite Z.mul_0_r, Z.add_0_r. f_equal. lia. }
    osimpl. rewrite Z2Nat.id in * by lia. exists to2, 0. split; [apply f_equal; rewrite !pair_eq; split_and!; done || lia|].
    by replace (W1 + Z.min F1 F2) with (W1 + F - (F - F1) - (s1 + W1 + F1 - (s1 + W1 + F2))) by lia.
  - destruct (zeroWords_ok g (-1) W1 F (Z.to_nat (F - F2)) _ _ P0) as (to1 & -> & P1); [lia| |].
    { intros k Hk. unfold g. rewrite (la_zero _ _ _ _ La), (la_zero _ _ _ _ Lb) by lia. done. }
    osimpl. rewrite Z2Nat.id in * by lia.
    destruct (subRight_ok g W1 F (wordBuf d2) (Z.to_nat (s2 + W2 + F2 - (s2 + W2 + F1))) (do_range d2 H2) to1 (s2 + W2 + F2)
      (W1 + F - (F - F2)) 0 P1) as (to2 & c & -> & P2); [lia|lia| |].
    { intros k Hk. unfold g. rewrite (la_zero _ _ _ _ La) by lia. rewrite digit_in by lia. rewrite Z.add_0_l.
      replace (-1 * wd _ _) with (- wd (wordBuf d2) (wordsInt d2 - 1 - (W1 - (W1 + F - (F - F2)) + k))) by lia. do 2 f_equal. lia. }
    osimpl. rewrite Z2Nat.id in * by lia. exists to2, c. split; [apply f_equal; rewrite !pair_eq; split_and!; done || lia|].
    by replace (W1 + Z.min F1 F2) with (W1 + F - (F - F2) - (s2 + W2 + F2 - (s2 + W2 + F1))) by lia.
Qed.

(** No borrow is left when the whole difference is not negative. *)
Lemma no_borrow g W F to carry : partial g (-1) W F to 0 carry → 0 ≤ total g (-F) (Z.to_nat (W + F)) → carry = 0.
Proof.
  intros [_ Hw Hf _ Hc _ _ Ht] Hg. rewrite Z.sub_0_r in Ht.
  assert (HT := total_bound (λ p, wd to (W - 1 - p)) (-F) (Z.to_nat (W + F)) ltac:(intros; by apply wd_ok)).
  rewrite Z2Nat.id in HT by lia. nia.
Qed.

Lemma subtract_ok d1 d2 s1 W1 F1 s2 W2 F2 neg rf (F := Z.max (wordsFrac d1) (wordsFrac d2)) :
  dec_ok d1 → dec_ok d2 → layout d1 s1 W1 F1 → layout d2 s2 W2 F2 → W2 ≤ W1 → 0 ≤ W1 + F2 → 0 ≤ W2 + F1 →
  magnitude d2 < magnitude d1 → W1 + F ≤ 9 → 0 ≤ rf ≤ 81 →
  ∃ d, subtract d1 d2 s1 W1 F1 s2 W2 F2 F neg rf = Ok (d, None) ∧ clean d ∧ negative d = neg ∧
    magnitude d = magnitude d1 - magnitude d2.
Proof.
  intros H1 H2 La Lb HW H12 H21 Hlt Hfit Hrf. pose proof (dec_words d1 H1). pose proof (dec_words d2 H2).
  pose proof (do_words d1 H1) as L1. pose proof (do_words d2 H2) as L2.
  destruct (la_start _ _ _ _ La), (la_start _ _ _ _ Lb), (la_F _ _ _ _ La), (la_F _ _ _ _ Lb).
  pose proof (la_W _ _ _ _ La). pose proof (la_W _ _ _ _ Lb).
  unfold subtract, fixWordCntError. rewrite (proj2 (Z.ltb_ge maxWordBufLen (W1 + F))) by (unfold maxWordBufLen; lia).
  set (g := λ p, digit d1 p + -1 * digit d2 p).
  destruct (subtract_fraction d1 d2 s1 W1 F1 s2 W2 F2 F) as (to1 & c1 & -> & P1); try done; try lia. osimpl. fold g in P1.
  destruct (opWords_ok g (-1) W1 F (wordBuf d1) (wordBuf d2) (do_range d1 H1) (do_range d2 H2) sub sub_spec
    (Z.to_nat (s2 + W2 + Z.min F1 F2 - s2)) to1 (s1 + W1 + Z.min F1 F2) (s2 + W2 + Z.min F1 F2) (W1 + Z.min F1 F2) c1)
    as (to2 & c2 & -> & P2); [done|lia..| |].
  { intros k Hk. unfold g. rewrite !digit_in by lia. f_equal; [|do 2 f_equal]; [f_equal|]; lia. }
  osimpl. rewrite Z2Nat.id in * by lia. replace (s1 + W1 + Z.min F1 F2 - (s2 + W2 + Z.min F1 F2 - s2)) with (s1 + (W1 - W2)) by lia.
  replace (W1 + Z.min F1 F2 - (s2 + W2 + Z.min F1 F2 - s2)) with (W1 - W2) in * by lia.
  assert (Hg : ∀ k, 0 ≤ k < W1 - W2 → g (W1 - (W1 - W2) + k) = wd (wordBuf d1) (s1 + (W1 - W2) - 1 - k)).
  { intros k Hk. unfold g. rewrite (la_zero _ _ _ _ Lb) by lia. rewrite digit_in by lia. rewrite Z.mul_0_r, Z.add_0_r. f_equal. lia. }
  destruct (subCarry_ok g W1 F (wordBuf d1) (Z.to_nat (s1 + (W1 - W2) - s1)) (do_range d1 H1) to2 (s1 + (W1 - W2)) (W1 - W2) c2)
    as (to3 & m & c3 & -> & Hm & P3 & Hc3); [done|lia|lia|intros k Hk; apply Hg; lia|].
  osimpl. rewrite Z2Nat.id in * by lia.
  assert (Hma := magnitude_window d1 W1 F ltac:(lia) ltac:(lia) ltac:(lia) ltac:(intros; apply (la_zero _ _ _ _ La); lia)).
  assert (Hmb := magnitude_window d2 W1 F ltac:(lia) ltac:(lia) ltac:(lia) ltac:(intros; apply (la_zero _ _ _ _ Lb); lia)).
  assert (Htot : total g (-F) (Z.to_nat (W1 + F)) = total (digit d1) (-F) (Z.to_nat (W1 + F)) - total (digit d2) (-F) (Z.to_nat (W1 + F)))
    by (unfold g; rewrite total_add; lia).
  assert (c3 = 0) as ->.
  { destruct (decide (m = W1 - W2)) as [->|]; [|apply Hc3; lia]. rewrite Z.sub_diag in P3. apply (no_borrow _ _ _ _ _ P3).
    rewrite Htot. assert (0 < wordBase ^ (9 - F)) by (unfold wordBase; lia). nia. }
  destruct (copyWords_ok g (-1) W1 F (wordBuf d1) (do_range d1 H1) (Z.to_nat (s1 + (W1 - W2) - m - s1)) to3 (s1 + (W1 - W2) - m)
    (W1 - W2 - m) P3) as (to4 & -> & P4); [lia|lia| |].
  { intros k Hk. replace (W1 - (W1 - W2 - m) + k) with (W1 - (W1 - W2) + (m + k)) by lia. rewrite Hg by lia. f_equal. lia. }
  osimpl. rewrite Z2Nat.id in * by lia. replace (W1 - W2 - m - (s1 + (W1 - W2) - m - s1)) with 0 in * by lia. cbn [zeroWords Z.to_nat]. osimpl.
  set (df := Z.max (digitsFrac d1) (digitsFrac d2)).
  assert (Hdf : digitsToWords df = F) by (unfold df; rewrite digitsToWords_max by (apply H1 || apply H2); done).
  assert (Hdf0 : 0 ≤ df) by (pose proof (do_frac d1 H1); unfold df; lia).
  destruct (partial_result g (-1) W1 F to4 df rf neg P4 Hdf0 Hdf) as (_ & _ & Hmag).
  rewrite Htot, Z.mul_sub_distr_l, <- Hma, <- Hmb in Hmag.
  eexists. split_and!; [done| |done|exact Hmag]. eapply result_ok; try done. rewrite Hmag. lia.
Qed.

Lemma zero_clean rf : 0 ≤ rf ≤ 81 → clean (MkDecimal 0 rf rf false (replicate 9 0)) ∧ magnitude (MkDecimal 0 rf rf false (replicate 9 0)) = 0.
Proof.
  intros Hrf. assert (Hz : ∀ i, wd (replicate 9 0) i = 0).
  { intros i. unfold wd. destruct (replicate 9 0 !! Z.to_nat i) as [x|] eqn:E; [|done]. by apply lookup_replicate in E as [-> _]. }
  assert (Hm : magnitude (MkDecimal 0 rf rf false (replicate 9 0)) = 0).
  { apply total_zero. intros k _. unfold digit. case_match; [|done]. apply (Hz (wordsInt (MkDecimal 0 rf rf false (replicate 9 0)) - 1 - (-9 + k))). }
  split; [|done]. split; [|intros; apply Hz]. split; try done; simpl; try lia; [by repeat constructor|].
  unfold wordsInt, wordsFrac. simpl. pose proof (digitsToWords_range rf). change (digitsToWords 0) with 0. lia.
Qed.

(** The difference of the magnitudes; the words that matter have to fit. *)
Lemma doSub_ok a b rf : dec_ok a → dec_ok b → 0 ≤ rf ≤ 81 →
  (∀ al, align a b = Ok (Some al) →
    (if al_carry al then al_wordsInt2 al else al_wordsInt1 al) + Z.max (wordsFrac a) (wordsFrac b) ≤ 9) →
  ∃ d, doSub a b rf = Ok (d, None) ∧ clean d ∧ value_of d = (if negative a then -1 else 1) * (magnitude a - magnitude b).
Proof.
  intros Ha Hb Hrf Hfit. unfold doSub. fold (wordsFrac a) (wordsFrac b).
  destruct (align_ok a b Ha Hb) as [[-> E]|(al & Eal & [Ho L1 L2 Hi H12 H21])]; osimpl.
  - destruct (zero_clean rf Hrf) as [Hc Hm]. eexists. split; [done|]. split; [done|]. rewrite E, Z.sub_diag. unfold value_of. rewrite Hm. simpl. lia.
  - specialize (Hfit al Eal). rewrite Eal. osimpl. unfold value_of. destruct (al_carry al).
    + destruct (subtract_ok b a (al_start2 al) (al_wordsInt2 al) (al_wordsFrac2 al) (al_start1 al) (al_wordsInt1 al)
        (al_wordsFrac1 al) (negb (negative a)) rf) as (d & E & Hd & Hn & Hm); try done; [lia|].
      exists d. rewrite Z.max_comm in E. split_and!; [done|done|]. rewrite Hn, Hm. destruct (negative a); simpl; lia.
    + destruct (subtract_ok a b (al_start1 al) (al_wordsInt1 al) (al_wordsFrac1 al) (al_start2 al) (al_wordsInt2 al)
        (al_wordsFrac2 al) (negative a) rf) as (d & E & Hd & Hn & Hm); try done.
      exists d. split_and!; [done|done|]. rewrite Hn, Hm. destruct (negative a); simpl; lia.
Qed.

(** No more words than the decimals have. *)
Lemma align_fit a b al : dec_ok a → dec_ok b → align a b = Ok (Some al) →
  (if al_carry al then al_wordsInt2 al else al_wordsInt1 al) ≤ Z.max (wordsInt a) (wordsInt b).
Proof.
  intros Ha Hb E. destruct (align_ok a b Ha Hb) as [[E' _]|(al' & E' & [_ L1 L2 _ _ _])]; rewrite E in E'; [done|]. injection E' as <-.
  destruct (la_start _ _ _ _ L1), (la_start _ _ _ _ L2). case_match; lia.
Qed.

(** ** Arithmetic *)

(** Decimals compare as numbers: [CompareTo] returns the sign of the difference of the
    values, whatever leading or trailing zero words the two decimals carry. *)
Theorem CompareTo_numeric (a b : Decimal) :
  dec_ok a → dec_ok b →
  CompareTo a b = Ok (match value_of a ?= value_of b with Lt => -1 | Eq => 0 | Gt => 1 end).
Proof. apply CompareTo_ok. Qed.

(** C26. Decimal addition and subtraction are exact: when one word more than the larger
    integer part and the larger fraction part fit into the nine words, [Add] and
    [Subtract] return well-formed decimals whose values are the sum and the difference. *)
Theorem decimal_arithmetic_exact (a b : Decimal) :
  dec_ok a → dec_ok b → Z.max (wordsInt a) (wordsInt b) + 1 + Z.max (wordsFrac a) (wordsFrac b) ≤ 9 →
  (∃ s, Add a b = Ok s ∧ dec_ok s ∧ value_of s = value_of a + value_of b) ∧
  (∃ d, Subtract a b = Ok d ∧ dec_ok d ∧ value_of d = value_of a - value_of b).
Proof.
  intros Ha Hb Hfit. assert (Hrf : 0 ≤ Z.max (resultFrac a) (resultFrac b) ≤ 81) by (destruct Ha, Hb; lia).
  destruct (doAdd_ok a b _ Ha Hb Hrf ltac:(unfold sum_words; case_match; lia)) as (s & Es & [Hs _] & Hn & Hm).
  destruct (doSub_ok a b _ Ha Hb Hrf ltac:(intros al Eal; pose proof (align_fit a b al Ha Hb Eal); lia)) as (d & Ed & [Hd _] & Hv).
  unfold Add, Subtract, DecimalAdd, DecimalSub, value_of in *.
  destruct (negative a) eqn:Na, (negative b) eqn:Nb; cbn [Bool.eqb]; rewrite Es, Ed; osimpl;
    (split; eexists; (split; [done|]); (split; [done|]); rewrite ?Hn, ?Hm, ?Hv; lia).
Qed.

(** The well-formedness of a decimal, as a test. *)
Definition dec_okb (d : MyDecimal) : bool :=
  Nat.eqb (length (wordBuf d)) 9 && forallb (λ w, (0 <=? w) && (w <? wordBase)) (wordBuf d) &&
  (0 <=? digitsInt d) && (0 <=? digitsFrac d) && (wordsInt d + wordsFrac d <=? 9) &&
  (negb (negative d) || negb (magnitude d =? 0)) && (0 <=? resultFrac d) && (resultFrac d <=? 81).

Lemma dec_okb_ok d : dec_okb d = true → dec_ok d.
Proof.
  unfold dec_okb. rewrite !andb_true_iff, !Z.leb_le, orb_true_iff, !negb_true_iff, Z.eqb_neq, Nat.eqb_eq, forallb_forall.
  intros (((((((H1 & H2) & H3) & H4) & H5) & H6) & H7) & H8). split; try done.
  - apply Forall_forall. intros w Hw. apply list_elem_of_In, H2 in Hw. apply andb_true_iff in Hw.
    unfold word_ok. rewrite Z.leb_le, Z.ltb_lt in Hw. done.
  - intros Hn. destruct H6; congruence.
Qed.

Lemma dec_ok_example : dec_ok dec_1234567890_1234 ∧ dec_ok dec_neg_1234567890_1234.
Proof. split; apply dec_okb_ok; vm_compute; reflexivity. Qed.

(** 1234567890.1234 is larger than its negation, and the two add up to zero. *)
Lemma CompareTo_numeric_witness :
  CompareTo dec_1234567890_1234 dec_neg_1234567890_1234 = Ok 1.
Proof.
  rewrite CompareTo_numeric by apply dec_ok_example.
  replace (_ ?= _) with Gt; [done|]. vm_compute. reflexivity.
Defined.

Lemma decimal_arithmetic_exact_witness :
  ∃ s, Add dec_1234567890_1234 dec_neg_1234567890_1234 = Ok s ∧ value_of s = 0.
Proof.
  destruct (decimal_arithmetic_exact dec_1234567890_1234 dec_neg_1234567890_1234) as [(s & E & _ & Hv) _];
    [apply dec_ok_example..|vm_compute; discriminate|].
  exists s. split; [exact E|]. rewrite Hv. vm_compute. reflexivity.
Defined.
