(* ===== verification/DecimalTotal.v ===== *)
(** * Decimal addition and subtraction on all decimals

    DecimalArith.v proves [DecimalAdd] and [DecimalSub] exact where the words of the result
    fit. Here they are followed on every pair of well-formed decimals: they never
    panic, they report an overflow or a truncation when the words do not fit, and
    otherwise the result is exact. *)

From stdpp Require Import base list strings.
From Stdlib Require Import ZArith Lia.
From S2P Require Import Prelude Encoding Decimal DecimalArith.

(** ** Loops inside the bounds *)

Lemma zeroWords_total n : ∀ to i, Z.of_nat n ≤ i ≤ Z.of_nat (length to) →
  ∃ to', zeroWords n to i = Ok (to', i - Z.of_nat n) ∧ length to' = length to.
Proof.
  induction n as [|n IH]; intros to i Hi; cbn [zeroWords]; [exists to; by rewrite Z.sub_0_r|].
  rewrite storeZ_ok by lia. osimpl. destruct (IH (<[Z.to_nat (i - 1) := 0]> to) (i - 1)) as (to' & -> & Ht); [rewrite length_insert; lia|].
  exists to'. split; [fields_eq|]. by rewrite length_insert in Ht.
Qed.

Lemma copyWords_total ws n : ∀ to i1 i, Z.of_nat n ≤ i ≤ Z.of_nat (length to) → Z.of_nat n ≤ i1 ≤ Z.of_nat (length ws) →
  ∃ to', copyWords n ws to i1 i = Ok (to', i1 - Z.of_nat n, i - Z.of_nat n) ∧ length to' = length to.
Proof.
  induction n as [|n IH]; intros to i1 i Hi H1; cbn [copyWords]; [exists to; by rewrite !Z.sub_0_r|].
  rewrite indexZ_wd by lia. osimpl. rewrite storeZ_ok by lia. osimpl.
  destruct (IH (<[Z.to_nat (i - 1) := wd ws (i1 - 1)]> to) (i1 - 1) (i - 1)) as (to' & -> & Ht); [rewrite ?length_insert; lia..|].
  exists to'. split; [fields_eq|]. by rewrite length_insert in Ht.
Qed.

Lemma opWords_total op ws1 ws2 n : ∀ to i1 i2 i c, Z.of_nat n ≤ i ≤ Z.of_nat (length to) →
  Z.of_nat n ≤ i1 ≤ Z.of_nat (length ws1) → Z.of_nat n ≤ i2 ≤ Z.of_nat (length ws2) →
  ∃ to' c', opWords op n ws1 ws2 to i1 i2 i c = Ok (to', i1 - Z.of_nat n, i2 - Z.of_nat n, i - Z.of_nat n, c') ∧ length to' = length to.
Proof.
  induction n as [|n IH]; intros to i1 i2 i c Hi H1 H2; cbn [opWords]; [exists to, c; by rewrite !Z.sub_0_r|].
  rewrite !indexZ_wd by lia. osimpl. destruct (op _ _ c) as [w c1]. rewrite storeZ_ok by lia. osimpl.
  destruct (IH (<[Z.to_nat (i - 1) := w]> to) (i1 - 1) (i2 - 1) (i - 1) c1) as (to' & c' & -> & Ht); [rewrite ?length_insert; lia..|].
  exists to', c'. split; [fields_eq|]. by rewrite length_insert in Ht.
Qed.

Lemma opLeft_total op ws1 n : ∀ to i1 i c, Z.of_nat n ≤ i ≤ Z.of_nat (length to) → Z.of_nat n ≤ i1 ≤ Z.of_nat (length ws1) →
  ∃ to' c', opLeft op n ws1 to i1 i c = Ok (to', i1 - Z.of_nat n, i - Z.of_nat n, c') ∧ length to' = length to.
Proof.
  induction n as [|n IH]; intros to i1 i c Hi H1; cbn [opLeft]; [exists to, c; by rewrite !Z.sub_0_r|].
  rewrite !indexZ_wd by lia. osimpl. destruct (op _ _ c) as [w c1]. rewrite storeZ_ok by lia. osimpl.
  destruct (IH (<[Z.to_nat (i - 1) := w]> to) (i1 - 1) (i - 1) c1) as (to' & c' & -> & Ht); [rewrite ?length_insert; lia..|].
  exists to', c'. split; [fields_eq|]. by rewrite length_insert in Ht.
Qed.

Lemma subRight_total ws2 n : ∀ to i2 i c, Z.of_nat n ≤ i ≤ Z.of_nat (length to) → Z.of_nat n ≤ i2 ≤ Z.of_nat (length ws2) →
  ∃ to' c', subRight n ws2 to i2 i c = Ok (to', i2 - Z.of_nat n, i - Z.of_nat n, c') ∧ length to' = length to.
Proof.
  induction n as [|n IH]; intros to i2 i c Hi H2; cbn [subRight]; [exists to, c; by rewrite !Z.sub_0_r|].
  rewrite !indexZ_wd by lia. osimpl. destruct (sub _ _ c) as [w c1]. rewrite storeZ_ok by lia. osimpl.
  destruct (IH (<[Z.to_nat (i - 1) := w]> to) (i2 - 1) (i - 1) c1) as (to' & c' & -> & Ht); [rewrite ?length_insert; lia..|].
  exists to', c'. split; [fields_eq|]. by rewrite length_insert in Ht.
Qed.

Lemma subCarry_total ws1 n : ∀ to i1 i c, Z.of_nat n ≤ i ≤ Z.of_nat (length to) → Z.of_nat n ≤ i1 ≤ Z.of_nat (length ws1) →
  ∃ to' m c', subCarry n ws1 to i1 i c = Ok (to', i1 - m, i - m, c') ∧ 0 ≤ m ≤ Z.of_nat n ∧ length to' = length to.
Proof.
  induction n as [|n IH]; intros to i1 i c Hi H1; cbn [subCarry]; [exists to, 0, c; by rewrite !Z.sub_0_r|].
  destruct (0 <? c); [|exists to, 0, c; rewrite !Z.sub_0_r; split_and!; done || lia].
  rewrite !indexZ_wd by lia. osimpl. destruct (sub _ _ c) as [w c1]. rewrite storeZ_ok by lia. osimpl.
  destruct (IH (<[Z.to_nat (i - 1) := w]> to) (i1 - 1) (i - 1) c1) as (to' & m & c' & -> & Hm & Ht); [rewrite ?length_insert; lia..|].
  exists to', (m + 1), c'. split; [fields_eq|]. split; [lia|]. by rewrite length_insert in Ht.
Qed.

(** [subtract] when the words do not fit. *)
Lemma subtract_truncated d1 d2 s1 W1 F1 s2 W2 F2 F neg rf : dec_ok d1 → dec_ok d2 → layout d1 s1 W1 F1 → layout d2 s2 W2 F2 → W2 ≤ W1 →
  0 ≤ W1 + F2 → 0 ≤ W2 + F1 → 9 < W1 + F → ∃ d, subtract d1 d2 s1 W1 F1 s2 W2 F2 F neg rf = Ok (d, Some ErrTruncated).
Proof.
  intros H1 H2 La Lb HW H12 H21 Hbig. pose proof (dec_words d1 H1). pose proof (dec_words d2 H2).
  pose proof (do_words d1 H1) as L1. pose proof (do_words d2 H2) as L2.
  destruct (la_start _ _ _ _ La), (la_start _ _ _ _ Lb), (la_F _ _ _ _ La), (la_F _ _ _ _ Lb). pose proof (la_W _ _ _ _ La). pose proof (la_W _ _ _ _ Lb).
  unfold subtract, fixWordCntError, maxWordBufLen. rewrite (proj2 (Z.ltb_lt 9 (W1 + F))), (proj2 (Z.ltb_ge 9 W1)) by lia. replace (Z.min W2 W1) with W2 by lia.
  set (F' := 9 - W1). set (G1 := Z.min F1 F'). set (G2 := Z.min F2 F').
  assert (Hbounds : G1 ≤ F' ∧ G2 ≤ F' ∧ G1 ≤ F1 ∧ G2 ≤ F2 ∧ 0 ≤ W1 + G2 ∧ 0 ≤ W2 + G1 ∧ 0 ≤ W1 + G1 ∧ 0 ≤ W2 + G2 ∧ W1 + F' = 9) by (unfold G1, G2, F'; lia).
  clearbody G1 G2 F'. destruct Hbounds as (B1 & B2 & B3 & B4 & B5 & B6 & B7 & B8 & B9).
  match goal with |- context [mbind _ (if _ then ?x else ?y)] => set (part1 := if G2 <? G1 then x else y) end.
  assert (Hpart1 : ∃ to c, part1 = Ok (to, s1 + W1 + Z.min G1 G2, s2 + W2 + Z.min G1 G2, W1 + Z.min G1 G2, c) ∧ length to = 9%nat).
  { unfold part1. destruct (Z.ltb_spec G2 G1).
    - destruct (zeroWords_total (Z.to_nat (F' - G1)) (replicate 9 0) (W1 + F')) as (to1 & -> & T1); [rewrite length_replicate; lia|]. osimpl. rewrite length_replicate in T1.
      destruct (copyWords_total (wordBuf d1) (Z.to_nat (s1 + W1 + G1 - (s1 + W1 + G2))) to1 (s1 + W1 + G1) (W1 + F' - Z.of_nat (Z.to_nat (F' - G1)))) as (to2 & -> & T2);
        [lia..|]. osimpl. exists to2, 0. split; [fields_eq|lia].
    - destruct (zeroWords_total (Z.to_nat (F' - G2)) (replicate 9 0) (W1 + F')) as (to1 & -> & T1); [rewrite length_replicate; lia|]. osimpl. rewrite length_replicate in T1.
      destruct (subRight_total (wordBuf d2) (Z.to_nat (s2 + W2 + G2 - (s2 + W2 + G1))) to1 (s2 + W2 + G2) (W1 + F' - Z.of_nat (Z.to_nat (F' - G2))) 0) as (to2 & c & -> & T2);
        [lia..|]. osimpl. exists to2, c. split; [fields_eq|lia]. }
  destruct Hpart1 as (to1 & c1 & -> & T1). osimpl.
  destruct (opWords_total sub (wordBuf d1) (wordBuf d2) (Z.to_nat (s2 + W2 + Z.min G1 G2 - s2)) to1 (s1 + W1 + Z.min G1 G2) (s2 + W2 + Z.min G1 G2) (W1 + Z.min G1 G2) c1)
    as (to2 & c2 & -> & T2); [lia..|]. osimpl. rewrite Z2Nat.id by lia.
  replace (s1 + W1 + Z.min G1 G2 - (s2 + W2 + Z.min G1 G2 - s2)) with (s1 + (W1 - W2)) by lia.
  replace (W1 + Z.min G1 G2 - (s2 + W2 + Z.min G1 G2 - s2)) with (W1 - W2) by lia.
  destruct (subCarry_total (wordBuf d1) (Z.to_nat (s1 + (W1 - W2) - s1)) to2 (s1 + (W1 - W2)) (W1 - W2) c2) as (to3 & m & c3 & -> & Hm & T3); [lia..|]. osimpl.
  destruct (copyWords_total (wordBuf d1) (Z.to_nat (s1 + (W1 - W2) - m - s1)) to3 (s1 + (W1 - W2) - m) (W1 - W2 - m)) as (to4 & -> & T4); [lia..|].
  osimpl. rewrite Z2Nat.id by lia.
  destruct (zeroWords_total (Z.to_nat (W1 - W2 - m - (s1 + (W1 - W2) - m - s1))) to4 (W1 - W2 - m - (s1 + (W1 - W2) - m - s1))) as (to5 & -> & T5); [lia..|]. osimpl.
  by eexists.
Qed.

(** ** Results *)

(** The digits of zero. *)
Lemma zero_digits d : dec_ok d → magnitude d = 0 → ∀ q, digit d q = 0.
Proof.
  intros Hd Hm q. destruct (dec_words d Hd) as (? & ? & ?). destruct (decide (- wordsFrac d ≤ q < wordsInt d)); [|apply digit_out; lia].
  destruct (digit_ok d q Hd) as [Hq _]. destruct (decide (digit d q = 0)) as [|Hne]; [done|].
  assert (Hlt : total (λ _, 0) (-9) 18 < magnitude d); [|rewrite total_zero in Hlt by done; lia].
  apply (total_lt_pointwise _ _ _ _ (q + 9)); [intros; apply (digit_ok d _ Hd)|lia|].
  replace (-9 + (q + 9)) with q by lia. lia.
Qed.

(** What a result is: exact, or an error. *)
Definition exact_or_error (r : outcome (MyDecimal * option string)) (v : Z) : Prop :=
  ∃ d err, r = Ok (d, err) ∧ (err = None ∧ clean d ∧ value_of d = v ∨ err = Some ErrOverflow ∨ err = Some ErrTruncated).

Lemma doSub_total a b rf : dec_ok a → dec_ok b → 0 ≤ rf ≤ 81 →
  exact_or_error (doSub a b rf) ((if negative a then -1 else 1) * (magnitude a - magnitude b)).
Proof.
  intros Ha Hb Hrf. assert (Hfit : (∀ al, align a b = Ok (Some al) → (if al_carry al then al_wordsInt2 al else al_wordsInt1 al) + Z.max (wordsFrac a) (wordsFrac b) ≤ 9) ∨
    ∃ al, align a b = Ok (Some al) ∧ 9 < (if al_carry al then al_wordsInt2 al else al_wordsInt1 al) + Z.max (wordsFrac a) (wordsFrac b)).
  { destruct (align_ok a b Ha Hb) as [[-> _]|(al & -> & _)]; [by left|].
    destruct (Z.le_gt_cases ((if al_carry al then al_wordsInt2 al else al_wordsInt1 al) + Z.max (wordsFrac a) (wordsFrac b)) 9); [left|right; by exists al].
    by intros ? [= <-]. }
  destruct Hfit as [Hfit|(al & Eal & Hbig)].
  - destruct (doSub_ok a b rf Ha Hb Hrf Hfit) as (d & E & Hd & Hv). exists d, None. by split; [|left].
  - destruct (align_ok a b Ha Hb) as [[E _]|(al' & E & [_ L1 L2 Hi H12 H21])]; rewrite Eal in E; [done|]. injection E as <-.
    unfold doSub. rewrite Eal. osimpl. fold (wordsFrac a) (wordsFrac b). destruct (al_carry al).
    + destruct (subtract_truncated b a (al_start2 al) (al_wordsInt2 al) (al_wordsFrac2 al) (al_start1 al) (al_wordsInt1 al) (al_wordsFrac1 al)
        (Z.max (wordsFrac a) (wordsFrac b)) (negb (negative a)) rf) as (d & ->); try done. exists d, (Some ErrTruncated). by split; [|right; right].
    + destruct (subtract_truncated a b (al_start1 al) (al_wordsInt1 al) (al_wordsFrac1 al) (al_start2 al) (al_wordsInt2 al) (al_wordsFrac2 al)
        (Z.max (wordsFrac a) (wordsFrac b)) (negative a) rf) as (d & ->); try done. exists d, (Some ErrTruncated). by split; [|right; right].
Qed.

(** A decimal cut off after [F] fraction words, without its sign. *)
Definition cut (d : MyDecimal) (F : Z) : MyDecimal :=
  MkDecimal (digitsInt d) (Z.min (digitsFrac d) (9 * F)) (resultFrac d) false (wordBuf d).

Lemma cut_ok d F : dec_ok d → 0 ≤ F → dec_ok (cut d F) ∧ wordsInt (cut d F) = wordsInt d ∧ wordsFrac (cut d F) = Z.min (wordsFrac d) F.
Proof.
  intros Hd HF. destruct (dec_words d Hd) as (? & ? & ?). pose proof (do_frac d Hd). pose proof (digitsToWords_range (digitsFrac d) ltac:(lia)).
  pose proof (digitsToWords_range (Z.min (digitsFrac d) (9 * F)) ltac:(lia)).
  assert (E : wordsFrac (cut d F) = Z.min (wordsFrac d) F) by (unfold wordsFrac, cut in *; simpl; lia).
  split; [|by split]. split; [apply Hd|apply Hd|apply Hd|simpl; lia| |done|apply Hd]. rewrite E. change (wordsInt (cut d F)) with (wordsInt d). lia.
Qed.

Lemma doAdd_total a b rf : dec_ok a → dec_ok b → 0 ≤ rf ≤ 81 →
  exact_or_error (doAdd a b rf) ((if negative a then -1 else 1) * (magnitude a + magnitude b)).
Proof.
  intros Ha Hb Hrf. destruct (dec_words a Ha) as (? & ? & ?), (dec_words b Hb) as (? & ? & ?).
  destruct (Z.le_gt_cases (sum_words a b + Z.max (wordsFrac a) (wordsFrac b)) 9) as [Hfit|Hbig].
  { destruct (doAdd_ok a b rf Ha Hb Hrf Hfit) as (d & E & Hd & Hn & Hm). exists d, None. split; [done|]. left. split_and!; try done.
    unfold value_of. rewrite Hn, Hm. destruct (negative a); lia. }
  unfold doAdd. fold (wordsInt a) (wordsInt b) (wordsFrac a) (wordsFrac b).
  rewrite !indexZ_wd by (rewrite ?(do_words a Ha), ?(do_words b Hb); lia). osimpl. fold (carry_word a b). fold (sum_words a b).
  assert (HW : Z.max (wordsInt a) (wordsInt b) ≤ sum_words a b ≤ Z.max (wordsInt a) (wordsInt b) + 1) by (unfold sum_words; case_match; lia).
  unfold fixWordCntError, maxWordBufLen. rewrite (proj2 (Z.ltb_lt 9 _)) by lia. destruct (Z.ltb_spec 9 (sum_words a b)) as [Ho|Ho].
  { change (is_overflow (Some ErrOverflow)) with true. cbn match. eexists _, _. split; [done|]. by right; left. }
  change (is_overflow (Some ErrTruncated)) with false. cbn match. set (F := 9 - sum_words a b).
  destruct (cut_ok a F Ha ltac:(lia)) as (Ha' & Ia & Fa), (cut_ok b F Hb ltac:(lia)) as (Hb' & Ib & Fb).
  assert (HF : Z.max (wordsFrac (cut a F)) (wordsFrac (cut b F)) = F) by (rewrite Fa, Fb; lia).
  destruct (addWords_either (cut a F) (cut b F) (sum_words a b) Ha' Hb') as (g & to & E & _); rewrite ?Ia, ?Ib, ?HF; [lia|lia| |].
  { intros HWM. pose proof (carry_word_room (cut a F) (cut b F) Ha' Hb') as Hroom. rewrite Ia, Ib in Hroom. apply Hroom.
    change (carry_word (cut a F) (cut b F)) with (carry_word a b). unfold sum_words in HWM. destruct (Z.ltb_spec (wordMax - 1) (carry_word a b)); lia. }
  rewrite HF, Ia, Ib, Fa, Fb in E. cbn [cut wordBuf] in E. rewrite !(Z.min_l _ (sum_words a b)) by lia.
  eexists _, _. split; [|by right; right].
  destruct (Z.min (wordsFrac b) F <? Z.min (wordsFrac a) F), (wordsInt b <? wordsInt a); cbn match; rewrite E; done.
Qed.

(** Adding and subtracting decimals. *)
Lemma add_sub_total a b : dec_ok a → dec_ok b →
  exact_or_error (DecimalAdd a b) (value_of a + value_of b) ∧ exact_or_error (DecimalSub a b) (value_of a - value_of b).
Proof.
  intros Ha Hb. assert (Hrf : 0 ≤ Z.max (resultFrac a) (resultFrac b) ≤ 81) by (destruct Ha, Hb; lia).
  pose proof (doSub_total a b _ Ha Hb Hrf) as Hs. pose proof (doAdd_total a b _ Ha Hb Hrf) as Hd. unfold DecimalAdd, DecimalSub, value_of.
  destruct (negative a), (negative b); cbn [Bool.eqb]; split;
    match goal with |- exact_or_error ?r ?v => match goal with H : exact_or_error r ?w |- _ => by replace v with w by lia end end.
Qed.
