(* ===== verification/DecimalBin.v ===== *)
(** * The binary form of decimals

    What [WriteBin] and [FromBin] of src/tidb/types/mydecimal.go, modelled in Decimal.v,
    compute for a decimal that fits a column of type decimal(p, s).

    The bytes are a group of bytes for the leading digits, four bytes for every whole
    word, and a group for the trailing digits; each group is the two's complement
    big-endian form of the digits, complemented for a negative decimal, and the first
    bit of all is flipped. The bytes of two decimals of one type compare as the decimals'
    values do, and [FromBin] reads back a decimal with the same digits, in a normal form
    that depends only on them. *)

From stdpp Require Import base list strings.
From Stdlib Require Import ZArith Lia.
From S2P Require Import Prelude Encoding Timestamp Decimal DecimalArith.

#[local] Transparent be_bytes.

(** ** The specification *)

(** The bytes of a group of [n] digits. *)
Definition d2b (n : Z) : nat := Z.to_nat (wd dig2bytes n).

(** A group is complemented for a negative decimal. *)
Definition complemented (neg : bool) (g : Z) : Z := if neg then -1 - g else g.
Definition group (neg : bool) (k : nat) (g : Z) : bytes := be_bytes k (complemented neg g).
Definition mask_byte (neg : bool) : Z := if neg then 255 else 0.

(** [n] whole words, from the exponent [pos] down. *)
Fixpoint groups (d : MyDecimal) (n : nat) (pos : Z) : bytes :=
  match n with
  | O => []
  | S n' => group (negative d) 4 (digit d pos) ++ groups d n' (pos - 1)
  end.

(** The integer part with [w] whole words and a group for [l] leading digits. *)
Definition int_body (d : MyDecimal) (w : nat) (l : Z) : bytes :=
  group (negative d) (d2b l) (digit d (Z.of_nat w)) ++ groups d w (Z.of_nat w - 1).
(** The fraction part with [w] whole words and a group for [t] trailing digits. *)
Definition frac_body (d : MyDecimal) (w : nat) (t : Z) : bytes :=
  groups d w (-1) ++ group (negative d) (d2b t) (digit d (- Z.of_nat w - 1) / 10 ^ (9 - t)).

Definition dec_body (p s : Z) (d : MyDecimal) : bytes :=
  int_body d (Z.to_nat ((p - s) / 9)) ((p - s) mod 9) ++ frac_body d (Z.to_nat (s / 9)) (s mod 9).

(** The bytes of [n] digits on one side of the point. *)
Definition dsize (n : Z) : Z := n / 9 * 4 + Z.of_nat (d2b (n mod 9)).

Definition flip_sign (b : bytes) : bytes := match b with [] => [] | x :: b' => Z.lxor x 128 :: b' end.

Definition dec_bytes (p s : Z) (d : MyDecimal) : bytes := flip_sign (dec_body p s d).

(** Decimals of a column of type decimal(p, s): at most [p - s] digits before and [s] after
    the point, and only digits the decimal says it has. [WriteBin] reports truncation for
    a decimal with one or two fraction digits less than a scale of whole words. *)
Record dec_fits (p s : Z) (d : MyDecimal) : Prop := {
  df_ok : dec_ok d;
  df_type : 1 ≤ p ≤ 65 ∧ 0 ≤ s ≤ 30 ∧ s ≤ p;
  df_first : digit d (wordsInt d - 1) < 10 ^ (digitsInt d - 9 * (wordsInt d - 1));
  df_last : (10 ^ (9 * wordsFrac d - digitsFrac d) | digit d (- wordsFrac d));
  df_scale : digitsFrac d ≤ s;
  df_size : magnitude d < 10 ^ (81 + p - s);
  df_exact : ¬ (s mod 9 = 0 ∧ s - 2 ≤ digitsFrac d < s)
}.

(** ** Groups *)

Lemma digits_cases n : 0 ≤ n ≤ 9 → n = 0 ∨ n = 1 ∨ n = 2 ∨ n = 3 ∨ n = 4 ∨ n = 5 ∨ n = 6 ∨ n = 7 ∨ n = 8 ∨ n = 9.
Proof. lia. Qed.

Ltac digit_cases H := apply digits_cases in H as [->|[->|[->|[->|[->|[->|[->|[->|[->| ->]]]]]]]]].

Lemma d2b_index n : 0 ≤ n ≤ 9 → indexZ dig2bytes n = Ok (Z.of_nat (d2b n)).
Proof. intros H. by digit_cases H. Qed.

Lemma powers10_index n : 0 ≤ n ≤ 9 → indexZ powers10 n = Ok (10 ^ n).
Proof. intros H. by digit_cases H. Qed.

Lemma d2b_le n : 0 ≤ n ≤ 9 → (d2b n ≤ 4)%nat.
Proof. intros H. digit_cases H; vm_compute; lia. Qed.

Lemma d2b_mono m n : 0 ≤ m ≤ n → n ≤ 9 → (d2b m ≤ d2b n)%nat.
Proof. intros H Hn. assert (H0 : 0 ≤ n ≤ 9) by lia. assert (H1 : 0 ≤ m ≤ 9) by lia.
  digit_cases H0; digit_cases H1; try lia; vm_compute; lia. Qed.

Lemma d2b_0 n : 0 ≤ n ≤ 9 → d2b n = 0%nat → n = 0.
Proof. intros H. by digit_cases H. Qed.

Lemma d2b_4 n : 0 ≤ n < 9 → d2b n = 4%nat → 7 ≤ n.
Proof. intros H. assert (H0 : 0 ≤ n ≤ 9) by lia. digit_cases H0; done || lia. Qed.

(** The digits of a group leave its first bit free. *)
Lemma d2b_room n : 0 < n ≤ 9 → 10 ^ n ≤ 128 * 256 ^ (Z.of_nat (d2b n) - 1).
Proof. intros H. assert (H0 : 0 ≤ n ≤ 9) by lia. digit_cases H0; try lia; vm_compute; discriminate. Qed.

Lemma d2b_holds n : 0 ≤ n ≤ 9 → 10 ^ n ≤ 256 ^ Z.of_nat (d2b n).
Proof. intros H. digit_cases H; vm_compute; discriminate. Qed.

Lemma be_bytes_ext k : ∀ u v, u mod 256 ^ Z.of_nat k = v mod 256 ^ Z.of_nat k → be_bytes k u = be_bytes k v.
Proof. intros u v H. by rewrite <- (be_bytes_mod k u), H, be_bytes_mod. Qed.

Lemma writeWord_eq w k : 0 ≤ k ≤ 4 → writeWord w k = be_bytes (Z.to_nat k) w.
Proof.
  intros Hk. assert (Hb : ∀ i, 0 ≤ i ≤ 24 → u8 (u32 w ≫ i) = u8 (w ≫ i)).
  { intros i Hi. unfold u8, u32. change 256 with (2 ^ 8). change two32 with (2 ^ 32). apply Z.bits_inj'. intros n Hn.
    destruct (Z.lt_ge_cases n 8); [|by rewrite !Z.mod_pow2_bits_high by lia].
    by rewrite !Z.mod_pow2_bits_low, !Z.shiftr_spec, Z.mod_pow2_bits_low by lia. }
  pose proof (Hb 0 ltac:(lia)) as H0. rewrite !Z.shiftr_0_r in H0.
  unfold writeWord. assert (k = 0 ∨ k = 1 ∨ k = 2 ∨ k = 3 ∨ k = 4) as [->|[->|[->|[->| ->]]]] by lia; simpl;
    rewrite ?Z.shiftr_0_r, ?Hb, ?H0 by lia; done.
Qed.

Lemma complemented_lxor (neg : bool) g : Z.lxor g (if neg then -1 else 0) = complemented neg g.
Proof.
  destruct neg; simpl; [|apply Z.lxor_0_r]. rewrite Z.lxor_m1_r. unfold Z.lnot. lia.
Qed.

Lemma u8_mask (neg : bool) : u8 (if neg then -1 else 0) = mask_byte neg.
Proof. by destruct neg. Qed.

Lemma length_group neg k g : length (group neg k g) = k.
Proof. apply length_be_bytes. Qed.

Lemma length_groups d n : ∀ pos, length (groups d n pos) = (4 * n)%nat.
Proof. induction n as [|n IH]; intros pos; [done|]. cbn [groups]. rewrite length_app, length_group, IH. lia. Qed.

Lemma groups_app d m n : ∀ pos, groups d (m + n) pos = groups d m pos ++ groups d n (pos - Z.of_nat m).
Proof.
  induction m as [|m IH]; intros pos; [simpl; f_equal; lia|]. cbn [Nat.add groups]. rewrite IH, <- app_assoc. do 3 f_equal. lia.
Qed.

(** A wider group starts with mask bytes. *)
Lemma group_pad neg j k g : 0 ≤ g < 256 ^ Z.of_nat k → group neg (j + k) g = replicate j (mask_byte neg) ++ group neg k g.
Proof.
  intros Hg. unfold group. induction j as [|j IH]; [done|]. cbn [Nat.add be_bytes replicate app]. rewrite IH. f_equal.
  rewrite Z.shiftr_div_pow2, <- pow256_2 by lia.
  assert (256 ^ Z.of_nat k ≤ 256 ^ Z.of_nat (j + k)) by (apply Z.pow_le_mono_r; lia).
  destruct neg; simpl.
  - replace ((-1 - g) / _) with (-1); [done|]. apply (Z.div_unique_pos _ _ _ (256 ^ Z.of_nat (j + k) - 1 - g)); lia.
  - by rewrite Z.div_small by lia.
Qed.

Lemma group_zero neg k : group neg k 0 = replicate k (mask_byte neg).
Proof. rewrite <- (Nat.add_0_r k) at 1. rewrite group_pad by (simpl; lia). apply app_nil_r. Qed.

Lemma groups_zero d n : ∀ pos, (∀ q, pos - Z.of_nat n < q ≤ pos → digit d q = 0) →
  groups d n pos = replicate (4 * n) (mask_byte (negative d)).
Proof.
  induction n as [|n IH]; intros pos Hz; [done|]. cbn [groups]. rewrite IH by (intros; apply Hz; lia).
  rewrite (Hz pos), group_zero by lia. by rewrite <- replicate_add, Nat.mul_succ_r, (Nat.add_comm 4).
Qed.

Lemma length_int_body d w l : length (int_body d w l) = (4 * w + d2b l)%nat.
Proof. unfold int_body. rewrite length_app, length_group, length_groups. lia. Qed.
Lemma length_frac_body d w t : length (frac_body d w t) = (4 * w + d2b t)%nat.
Proof. unfold frac_body. rewrite length_app, length_group, length_groups. lia. Qed.

(** A word more is a group of nine digits. *)
Lemma int_body_9 d w : groups d (S w) (Z.of_nat w) = int_body d w 9.
Proof. done. Qed.

(** The integer part of a decimal with [9 * v + m] digits, written with more digits. *)
Lemma int_body_pad d w l v m : dec_ok d → 0 ≤ m < 9 → 0 ≤ l ≤ 9 → (v ≤ w)%nat → (v = w → m ≤ l) →
  digit d (Z.of_nat v) < 10 ^ m → (∀ q, Z.of_nat v < q → digit d q = 0) →
  int_body d w l = replicate ((4 * w + d2b l) - (4 * v + d2b m)) (mask_byte (negative d)) ++ int_body d v m.
Proof.
  intros Hd Hm Hl Hle Hml Hv Hz. destruct (digit_ok d (Z.of_nat v) Hd) as [Hv0 _]. pose proof (d2b_holds m ltac:(lia)).
  assert (Hcut : ∀ k, (d2b m ≤ k)%nat → group (negative d) k (digit d (Z.of_nat v)) ++ groups d v (Z.of_nat v - 1) =
    replicate (k - d2b m) (mask_byte (negative d)) ++ int_body d v m).
  { intros k Hk. unfold int_body. rewrite app_assoc. f_equal. rewrite <- group_pad by lia. f_equal. lia. }
  revert l Hl Hle Hml. induction w as [|w IH]; intros l Hl Hle Hml.
  - assert (v = 0%nat) as -> by lia. unfold int_body at 1. rewrite Hcut by (apply d2b_mono; lia). do 2 f_equal.
  - destruct (decide (v = S w)) as [->|Hne].
    + unfold int_body at 1. rewrite Hcut by (apply d2b_mono; lia). do 2 f_equal. lia.
    + unfold int_body at 1. rewrite Hz, group_zero by lia. replace (Z.of_nat (S w) - 1) with (Z.of_nat w) by lia.
      rewrite int_body_9, (IH 9) by lia. rewrite app_assoc, <- replicate_add. do 2 f_equal.
      change (d2b 9) with 4%nat. pose proof (d2b_le m ltac:(lia)).
      assert (v < w ∨ v = w)%nat as [?| ->] by lia; lia.
Qed.

(** ** Leading zeros *)

Lemma removeLeadingZeros_loop_ok n : ∀ ws idx digits i, (n ≤ length ws)%nat →
  (n = 0%nat → digits = 0) → (n ≠ 0%nat → digits = 9 * (Z.of_nat n - 1) + i ∧ 1 ≤ i ≤ 9) →
  ∃ z, 0 ≤ z ≤ Z.of_nat n ∧
    removeLeadingZeros_loop ws idx digits i = Ok (idx + z, if z =? 0 then digits else 9 * (Z.of_nat n - z)) ∧
    (∀ k, 0 ≤ k < z → wd ws k = 0) ∧ (z < Z.of_nat n → wd ws z ≠ 0).
Proof.
  induction n as [|n IH]; intros ws idx digits i Hl H0 HS.
  - exists 0. split; [lia|]. rewrite H0 by done. split; [|split; [lia|lia]]. destruct ws; simpl; rewrite Z.add_0_r; done.
  - destruct HS as [-> Hi]; [done|]. destruct ws as [|w ws]; simpl in Hl; [lia|]. cbn [removeLeadingZeros_loop].
    rewrite (proj2 (Z.ltb_lt 0 _)) by lia. destruct (Z.eqb_spec w 0) as [->|Hw].
    + destruct (IH ws (idx + 1) (9 * (Z.of_nat (S n) - 1) + i - i) digitsPerWord) as (z & Hz & E & Hzero & Hnz); [lia|lia|unfold digitsPerWord; lia|].
      exists (z + 1). split; [lia|]. rewrite E. destruct (Z.eqb_spec (z + 1) 0); [lia|]. split; [|split].
      * f_equal. f_equal; [lia|]. case_match; lia.
      * intros k Hk. destruct (decide (k = 0)) as [->|]; [done|]. specialize (Hzero (k - 1) ltac:(lia)).
        unfold wd in *. by replace (Z.to_nat k) with (S (Z.to_nat (k - 1))) by lia.
      * intros Hlt. unfold wd. replace (Z.to_nat (z + 1)) with (S (Z.to_nat z)) by lia. apply Hnz. lia.
    + exists 0. rewrite Z.add_0_r. split; [lia|]. split; [done|]. split; [lia|]. intros _. done.
Qed.

Lemma countLeadingZeroes_loop_ok w : 0 < w → ∀ fuel i lead, 0 ≤ i < Z.of_nat fuel → i ≤ 9 → w < 10 ^ (i + 1) →
  ∃ j, 0 ≤ j ≤ i ∧ countLeadingZeroes_loop fuel i w lead = Ok (lead + (i - j)) ∧ 10 ^ j ≤ w < 10 ^ (j + 1).
Proof.
  intros Hw. induction fuel as [|fuel IH]; intros i lead Hi Hi9 Hlt; [lia|]. cbn [countLeadingZeroes_loop].
  rewrite powers10_index by lia. osimpl. destruct (Z.ltb_spec w (10 ^ i)).
  - assert (i ≠ 0) by (intros ->; simpl in *; lia).
    destruct (IH (i - 1) (lead + 1)) as (j & Hj & E & Hr); [lia|lia|by replace (i - 1 + 1) with i by lia|].
    exists j. split; [lia|]. split; [|done]. rewrite E. f_equal. lia.
  - exists i. split; [lia|]. split; [f_equal; lia|]. done.
Qed.

Lemma rem_digits n x : 0 ≤ n → 0 ≤ x < 9 → (9 * n + x) `rem` 9 = x.
Proof. intros. rewrite Z.rem_mod_nonneg, Z.add_comm, Z.mul_comm, Z_mod_plus_full, Z.mod_small by lia. done. Qed.

(** The number of significant digits before the point: it is the index of the first word
    that matters, and the range of that word. *)
Definition significant (d : MyDecimal) (D : Z) : Prop :=
  (D = 0 ∧ ∀ q, 0 ≤ q → digit d q = 0) ∨
  ∃ P j, 0 ≤ P < wordsInt d ∧ 0 ≤ j ≤ 8 ∧ D = 9 * P + j + 1 ∧ 10 ^ j ≤ digit d P < 10 ^ (j + 1) ∧ ∀ q, P < q → digit d q = 0.

Lemma removeLeadingZeros_ok d : dec_ok d → digit d (wordsInt d - 1) < 10 ^ (digitsInt d - 9 * (wordsInt d - 1)) →
  ∃ D, removeLeadingZeros d = Ok (wordsInt d - digitsToWords D, D) ∧ significant d D.
Proof.
  intros Hd Hfirst. destruct (dec_words d Hd) as (HI & HF & Hfit). pose proof (do_int d Hd) as Hdi.
  destruct (digitsToWords_range _ Hdi) as [_ Hr]. fold (wordsInt d) in Hr. unfold removeLeadingZeros.
  set (i := (digitsInt d - 1) `rem` digitsPerWord + 1).
  assert (Hi : wordsInt d ≠ 0 → digitsInt d = 9 * (wordsInt d - 1) + i ∧ 1 ≤ i ≤ 9).
  { intros Hne. assert (i = digitsInt d - 9 * (wordsInt d - 1)); [|lia]. unfold i, digitsPerWord.
    replace (digitsInt d - 1) with (9 * (wordsInt d - 1) + (digitsInt d - 1 - 9 * (wordsInt d - 1))) by lia.
    rewrite rem_digits by lia. lia. }
  destruct (removeLeadingZeros_loop_ok (Z.to_nat (wordsInt d)) (wordBuf d) 0 (digitsInt d) i) as (z & Hz & E & Hzero & Hnz).
  { rewrite (do_words d Hd). lia. } { lia. } { rewrite Z2Nat.id by done. intros. apply Hi. lia. }
  rewrite Z2Nat.id in * by done. rewrite E. osimpl. rewrite Z.add_0_l.
  assert (Hout : ∀ q, wordsInt d - z ≤ q → digit d q = 0).
  { intros q Hq. destruct (decide (- wordsFrac d ≤ q < wordsInt d)); [|apply digit_out; lia].
    rewrite digit_in by lia. apply Hzero. lia. }
  remember (wordsInt d - z) as P eqn:EP. set (digits := if z =? 0 then digitsInt d else 9 * P).
  destruct (decide (P = 0)) as [HP|HP].
  - assert (digits = 0) as -> by (unfold digits; destruct (Z.eqb_spec z 0); [|lia]; lia).
    change (0 <? 0) with false. cbv iota. exists 0. split; [change (digitsToWords 0) with 0; do 2 f_equal; lia|].
    left. split; [done|]. intros; apply Hout; lia.
  - assert (∃ x, 0 ≤ x ≤ 8 ∧ digits = 9 * (P - 1) + x + 1 ∧ digit d (P - 1) < 10 ^ (x + 1)) as (x & Hx & -> & Hlt).
    { exists (digits - 9 * (P - 1) - 1). unfold digits. destruct (Z.eqb_spec z 0) as [Hz0|Hz0].
      - assert (HPI : P = wordsInt d) by lia. rewrite HPI in *. split; [lia|]. split; [lia|]. eapply Z.lt_le_trans; [exact Hfirst|].
        apply Z.pow_le_mono_r; lia.
      - split; [lia|]. split; [lia|]. replace (9 * P - 9 * (P - 1) - 1 + 1) with 9 by lia. apply (digit_ok d (P - 1) Hd). }
    rewrite (proj2 (Z.ltb_lt 0 _)) by lia. rewrite indexZ_wd by (rewrite (do_words d Hd); lia).
    osimpl. replace (9 * (P - 1) + x + 1 - 1) with (9 * (P - 1) + x) by lia. unfold digitsPerWord. rewrite rem_digits by lia.
    assert (Hw : wd (wordBuf d) z = digit d (P - 1)) by (rewrite digit_in by lia; f_equal; lia).
    pose proof (Hnz ltac:(lia)) as Hne. rewrite Hw in *. pose proof (digit_pos d _ Hd Hne) as Hpos.
    destruct (countLeadingZeroes_loop_ok _ Hpos 11 x 0) as (j & Hj & Ec & Hrange); [lia|lia|done|].
    unfold countLeadingZeroes. rewrite Ec. osimpl. eexists. split; [|right; exists (P - 1), j; split_and!; try done; try lia].
    + do 2 f_equal; [|lia].
      pose proof (digitsToWords_range (9 * (P - 1) + j + 1) ltac:(lia)). lia.
    + intros; apply Hout; lia.
Qed.

(** ** Room for the digits *)

Lemma total_ge f lo n k : (∀ k, 0 ≤ k < Z.of_nat n → 0 ≤ f (lo + k)) → 0 ≤ k < Z.of_nat n → f (lo + k) * wordBase ^ k ≤ total f lo n.
Proof.
  induction n as [|n IH]; intros Hf Hk; [lia|]. cbn [total].
  assert (0 ≤ total f lo n).
  { clear IH Hk. induction n as [|n IH]; [done|]. cbn [total]. apply Z.add_nonneg_nonneg; [apply IH; intros; apply Hf; lia|].
    apply Z.mul_nonneg_nonneg; [apply Hf; lia|]. unfold wordBase. lia. }
  assert (0 ≤ f (lo + Z.of_nat n) * wordBase ^ Z.of_nat n) by (apply Z.mul_nonneg_nonneg; [apply Hf; lia|unfold wordBase; lia]).
  destruct (decide (k = Z.of_nat n)) as [->|]; [lia|].
  assert (f (lo + k) * wordBase ^ k ≤ total f lo n) by (apply IH; [intros; apply Hf; lia|lia]). lia.
Qed.

Lemma wordBase_pow n : 0 ≤ n → wordBase ^ n = 10 ^ (9 * n).
Proof. intros. by rewrite Z.pow_mul_r by lia. Qed.

(** A word of a decimal with at most [N] digits before the point. *)
Lemma digit_room d N P : dec_ok d → magnitude d < 10 ^ (81 + N) → 0 ≤ N → 0 ≤ P →
  (9 * P ≤ N → digit d P < 10 ^ (N - 9 * P)) ∧ (N ≤ 9 * P → digit d P = 0).
Proof.
  intros Hd Hm HN HP. destruct (dec_words d Hd) as (_ & ? & ?).
  destruct (decide (wordsInt d ≤ P)); [rewrite digit_out by lia; split; [|done]; intros; apply Z.pow_pos_nonneg; lia|].
  assert (Hge : digit d P * wordBase ^ (P + 9) ≤ magnitude d).
  { replace (digit d P) with (digit d (-9 + (P + 9))) by (f_equal; lia). apply total_ge; [|lia]. intros. by apply digit_ok. }
  rewrite wordBase_pow in Hge by lia. assert (0 < 10 ^ (9 * (P + 9))) by (apply Z.pow_pos_nonneg; lia). split; intros Hle.
  - replace (81 + N) with ((N - 9 * P) + 9 * (P + 9)) in Hm by lia. rewrite Z.pow_add_r in Hm by lia. nia.
  - destruct (digit_ok d P Hd) as [Hp _]. assert (10 ^ (81 + N) ≤ 10 ^ (9 * (P + 9))) by (apply Z.pow_le_mono_r; lia). nia.
Qed.

Lemma significant_room d D N : dec_ok d → magnitude d < 10 ^ (81 + N) → 0 ≤ N → significant d D → 0 ≤ D ≤ N.
Proof.
  intros Hd Hm HN [[-> _]|(P & j & HP & Hj & -> & Hr & _)]; [lia|]. split; [lia|].
  destruct (digit_room d N P Hd Hm HN ltac:(lia)) as [H1 H2].
  destruct (Z.le_gt_cases N (9 * P)) as [Hle|Hgt].
  - rewrite H2 in Hr by lia. assert (0 < 10 ^ j) by (apply Z.pow_pos_nonneg; lia). lia.
  - specialize (H1 ltac:(lia)). assert (10 ^ j < 10 ^ (N - 9 * P)) by lia.
    apply Z.pow_lt_mono_r_iff in H; lia.
Qed.

(** The digits as whole words and a group. *)
Lemma significant_parts d D : significant d D → 0 ≤ D ∧
  digitsToWords D = D / 9 + (if 0 <? D mod 9 then 1 else 0) ∧
  digit d (D / 9) < 10 ^ (D mod 9) ∧ (∀ q, D / 9 < q → digit d q = 0) ∧ (0 ≤ wordsInt d → digitsToWords D ≤ wordsInt d).
Proof.
  intros [[-> Hz]|(P & j & HP & Hj & -> & Hr & Hz)].
  - split; [done|]. split; [done|]. split; [simpl; rewrite Hz by done; done|]. split; [|done]. intros q Hq. change (0 / 9) with 0 in Hq. apply Hz. lia.
  - pose proof (digitsToWords_range (9 * P + j + 1) ltac:(lia)). split; [lia|]. destruct (decide (j = 8)) as [->|].
    + replace (9 * P + 8 + 1) with ((P + 1) * 9) in * by lia. rewrite Z.div_mul, Z_mod_mult by lia. simpl.
      rewrite (Hz (P + 1)) by lia. split_and!; [lia|done|intros; apply Hz; lia|lia].
    + assert ((9 * P + j + 1) / 9 = P ∧ (9 * P + j + 1) mod 9 = j + 1) as [-> ->].
      { split; symmetry; [apply (Z.div_unique_pos _ _ _ (j + 1))|apply (Z.mod_unique_pos _ _ P)]; lia. }
      rewrite (proj2 (Z.ltb_lt 0 _)) by lia. split_and!; [lia|apply Hr|done|lia].
Qed.

(** ** Writing *)

Lemma write_at_app bs : ∀ (pre : bytes) n, (length bs ≤ n)%nat →
  write_at (pre ++ replicate n 0) (Z.of_nat (length pre)) bs = Ok (pre ++ bs ++ replicate (n - length bs) 0).
Proof.
  induction bs as [|b bs IH]; intros pre n Hn; cbn [write_at length app]; [by rewrite Nat.sub_0_r|]. simpl in Hn.
  destruct n as [|n]; [lia|]. rewrite storeZ_ok by (rewrite length_app, length_replicate; lia). osimpl.
  rewrite Nat2Z.id, insert_app_r_alt by lia. rewrite Nat.sub_diag. cbn [replicate list_insert].
  replace (Z.of_nat (length pre) + 1) with (Z.of_nat (length (pre ++ [b]))) by (rewrite length_app; simpl; lia).
  change (pre ++ <[0%nat := b]> (0 :: replicate n 0)) with (pre ++ [b] ++ replicate n 0). rewrite app_assoc, IH by lia. by rewrite <- app_assoc.
Qed.

(** The bytes written so far, with room for [n] more. *)
Lemma write_group pre n neg k g i : i = Z.of_nat (length pre) → (k ≤ n)%nat → (k ≤ 4)%nat →
  write_at (pre ++ replicate n 0) i (writeWord (Z.lxor g (if (neg : bool) then -1 else 0)) (Z.of_nat k)) =
    Ok ((pre ++ group neg k g) ++ replicate (n - k) 0).
Proof.
  intros -> Hn Hk. rewrite complemented_lxor, writeWord_eq, Nat2Z.id by lia. fold (group neg k g).
  rewrite write_at_app by (by rewrite length_group). by rewrite length_group, <- app_assoc.
Qed.

Lemma write_mask pre n neg k i : i = Z.of_nat (length pre) → (k ≤ n)%nat →
  write_at (pre ++ replicate n 0) i (replicate k (u8 (if (neg : bool) then -1 else 0))) =
    Ok ((pre ++ replicate k (mask_byte neg)) ++ replicate (n - k) 0).
Proof.
  intros -> Hn. rewrite u8_mask, write_at_app by (by rewrite length_replicate). by rewrite length_replicate, <- app_assoc.
Qed.

Lemma writeWords_ok d n : dec_ok d → ∀ pre m i idx pos,
  i = Z.of_nat (length pre) → idx = wordsInt d - 1 - pos → pos < wordsInt d → - wordsFrac d ≤ pos - Z.of_nat n + 1 → (4 * n ≤ m)%nat →
  writeWords n d (if negative d then -1 else 0) (pre ++ replicate m 0) i idx =
    Ok ((pre ++ groups d n pos) ++ replicate (m - 4 * n) 0, i + 4 * Z.of_nat n, idx + Z.of_nat n).
Proof.
  intros Hd. destruct (dec_words d Hd) as (HI & HF & Hfit). induction n as [|n IH]; intros pre m i idx pos Hi Hidx Hpos Hlo Hm; cbn [writeWords groups].
  - rewrite app_nil_r, Nat.sub_0_r, !Z.add_0_r. done.
  - rewrite (indexZ_wd (wordBuf d)) by (rewrite (do_words d Hd); lia). osimpl. rewrite Hidx, <- digit_in by lia.
    change 4 with (Z.of_nat 4) at 1. rewrite write_group by (done || lia). osimpl.
    rewrite (IH _ _ _ _ (pos - 1)); [|rewrite length_app, length_group; unfold wordSize; lia|lia..].
    rewrite <- !app_assoc. unfold wordSize. f_equal. f_equal; [f_equal|]; [|lia..]. do 4 f_equal. lia.
Qed.

(** The leading group and the whole words of the integer part, and more whole words. *)
Lemma writeInt_ok d pre m i v l n : dec_ok d → i = Z.of_nat (length pre) → 0 ≤ l < 9 →
  Z.of_nat v + (if 0 <? l then 1 else 0) ≤ wordsInt d → digit d (Z.of_nat v) < 10 ^ l → Z.of_nat n ≤ wordsFrac d →
  (4 * v + d2b l + 4 * n ≤ m)%nat →
  ('(bin, binIdx, wordIdxFrom) ← writeLeading d (if negative d then -1 else 0) l (pre ++ replicate m 0) i
      (wordsInt d - (Z.of_nat v + (if 0 <? l then 1 else 0)));
   writeWords (v + n) d (if negative d then -1 else 0) bin binIdx wordIdxFrom) =
  Ok ((pre ++ int_body d v l ++ groups d n (-1)) ++ replicate (m - (4 * v + d2b l + 4 * n)) 0,
      i + Z.of_nat (4 * v + d2b l + 4 * n), wordsInt d + Z.of_nat n).
Proof.
  intros Hd Hi Hl Hv Hlt Hn Hm. destruct (dec_words d Hd) as (HI & HF & Hfit). unfold writeLeading, int_body.
  destruct (Z.ltb_spec 0 l).
  - rewrite d2b_index by lia. osimpl. rewrite (indexZ_wd (wordBuf d)) by (rewrite (do_words d Hd); lia). osimpl.
    rewrite powers10_index by lia. osimpl. replace (wordsInt d - _) with (wordsInt d - 1 - Z.of_nat v) by lia.
    rewrite <- digit_in by lia. destruct (digit_ok d (Z.of_nat v) Hd) as [Hg _].
    rewrite Z.rem_mod_nonneg, Z.mod_small by lia. pose proof (d2b_le l ltac:(lia)). rewrite write_group by (done || lia). osimpl.
    rewrite (writeWords_ok d (v + n) Hd _ _ _ _ (Z.of_nat v - 1)); [|rewrite length_app, length_group; lia|lia..].
    rewrite groups_app. replace (Z.of_nat v - 1 - Z.of_nat v) with (-1) by lia. rewrite <- !app_assoc.
    f_equal. f_equal; [f_equal|]; [|lia..]. do 5 f_equal. lia.
  - assert (l = 0) as -> by lia. osimpl.
    rewrite (writeWords_ok d (v + n) Hd _ _ _ _ (Z.of_nat v - 1)); [|done|lia..].
    rewrite groups_app. replace (Z.of_nat v - 1 - Z.of_nat v) with (-1) by lia. change (d2b 0) with 0%nat.
    change (group (negative d) 0 (digit d (Z.of_nat v))) with (@nil Z). rewrite app_nil_l, <- !app_assoc.
    f_equal. f_equal; [f_equal|]; [|lia..]. do 4 f_equal. lia.
Qed.

Lemma writeTrailing_ok d pre m i w t : dec_ok d → i = Z.of_nat (length pre) → 0 ≤ t < 9 → (0 < t → Z.of_nat w < wordsFrac d) → (d2b t ≤ m)%nat →
  writeTrailing d (if negative d then -1 else 0) (Z.of_nat w) t (Z.of_nat w) t (pre ++ replicate m 0) i (wordsInt d + Z.of_nat w) =
  Ok ((pre ++ group (negative d) (d2b t) (digit d (- Z.of_nat w - 1) / 10 ^ (9 - t))) ++ replicate (m - d2b t) 0, i + Z.of_nat (d2b t)).
Proof.
  intros Hd Hi Ht Hw Hm. destruct (dec_words d Hd) as (HI & HF & Hfit). unfold writeTrailing. destruct (Z.ltb_spec 0 t).
  - rewrite d2b_index by lia. osimpl. rewrite Z.ltb_irrefl. cbn [widenTrailing]. rewrite Z.ltb_irrefl. osimpl.
    specialize (Hw H). rewrite (indexZ_wd (wordBuf d)) by (rewrite (do_words d Hd); lia). osimpl. unfold digitsPerWord. rewrite powers10_index by lia. osimpl.
    replace (wordsInt d + Z.of_nat w) with (wordsInt d - 1 - (- Z.of_nat w - 1)) by lia. rewrite <- digit_in by lia.
    destruct (digit_ok d (- Z.of_nat w - 1) Hd) as [Hg _]. rewrite Z.quot_div_nonneg by lia.
    pose proof (d2b_le t ltac:(lia)). rewrite write_group by (done || lia). osimpl. done.
  - assert (t = 0) as -> by lia. change (d2b 0) with 0%nat. rewrite app_nil_r, Nat.sub_0_r, Z.add_0_r. done.
Qed.

(** ** The fraction part *)

(** What the fraction part of a decimal is written with: all of the [w] words and [t] digits of
    the type, or all the decimal's words, and mask bytes after them. *)
Lemma fitFrac_ok n s (err : option string) : 0 ≤ n ≤ s → ¬ (s mod 9 = 0 ∧ s - 2 ≤ n < s) →
  let fs := dsize s in
  let fsFrom := dsize n in
  ∃ w t fs', fitFrac (s / 9) (s mod 9) fs (n / 9) (n mod 9) fsFrom err = (w, t, fs', err) ∧
  ((w = s / 9 ∧ t = s mod 9 ∧ fs' ≤ fsFrom ∧ w ≤ digitsToWords n ∧ (0 < t → w < digitsToWords n)) ∨
   (w = digitsToWords n ∧ t = 0 ∧ fs' = fs ∧ fsFrom < fs ∧ w ≤ s / 9 ∧ fsFrom ≤ 4 * w)).
Proof.
  intros Hn Hq fs fsFrom. assert (Efs : fs = 4 * (s / 9) + Z.of_nat (d2b (s mod 9))) by (unfold fs, dsize; lia).
  assert (EfsF : fsFrom = 4 * (n / 9) + Z.of_nat (d2b (n mod 9))) by (unfold fsFrom, dsize; lia). clearbody fs fsFrom. pose proof (digitsToWords_range n ltac:(lia)) as [_ Hw].
  pose proof (Z.mod_pos_bound s 9 ltac:(lia)) as HT. pose proof (Z.mod_pos_bound n 9 ltac:(lia)) as HTF.
  pose proof (Z.div_mod s 9 ltac:(lia)) as Es. pose proof (Z.div_mod n 9 ltac:(lia)) as En.
  set (wF := s / 9) in *. set (T := s mod 9) in *. set (wFF := n / 9) in *. set (TF := n mod 9) in *.
  assert (Hww : wFF < wF ∨ wFF = wF ∧ TF ≤ T) by lia.
  assert (HwF : digitsToWords n = wFF + (if 0 <? TF then 1 else 0)) by (destruct (Z.ltb_spec 0 TF); lia).
  pose proof (d2b_le T ltac:(lia)). pose proof (d2b_le TF ltac:(lia)). pose proof (d2b_0 T ltac:(lia)) as HT0. pose proof (d2b_0 TF ltac:(lia)) as HTF0.
  pose proof (d2b_4 TF ltac:(lia)) as H4.
  assert (Hmono : wFF = wF → (d2b TF ≤ d2b T)%nat) by (intros; apply d2b_mono; lia).
  assert (HTT : TF = 0 → d2b TF = 0%nat) by (by intros ->).
  assert (HTT' : T = 0 → d2b T = 0%nat) by (by intros ->).
  unfold fitFrac. rewrite (proj2 (Z.ltb_ge fs fsFrom)) by lia. rewrite !orb_false_l.
  destruct (Z.eqb_spec fs fsFrom) as [He|He].
  - assert (wF = wFF) as Ew by lia.
    rewrite (proj2 (Z.leb_le wF wFF)), orb_true_r by lia. rewrite (proj2 (Z.ltb_ge T TF)), (proj2 (Z.ltb_ge wF wFF)) by lia. simpl.
    exists wF, T, fs. split; [done|]. left. destruct (Z.ltb_spec 0 TF); split_and!; lia.
  - rewrite !andb_false_l. rewrite (proj2 (Z.ltb_lt fsFrom fs)), andb_true_l by lia.
    destruct (Z.ltb_spec 0 TF).
    + destruct (Z.eqb_spec wF wFF) as [Ew|Ew].
      * exists wFF, T, fsFrom. split; [done|]. left. split_and!; lia.
      * exists (wFF + 1), 0, fs. split; [done|]. right. split_and!; lia.
    + exists wFF, TF, fs. split; [done|]. right. split_and!; lia.
Qed.

(** ** [WriteBin] *)

(** The bytes of the binary form. *)
Definition bin_size (p s : Z) : nat := length (dec_body p s zeroMyDecimal).

Lemma length_dec_body p s d : 0 ≤ s ≤ p →
  Z.of_nat (length (dec_body p s d)) = dsize (p - s) + dsize s.
Proof.
  intros. unfold dec_body. rewrite length_app, length_int_body, length_frac_body.
  pose proof (Z.div_pos (p - s) 9 ltac:(lia) ltac:(lia)). pose proof (Z.div_pos s 9 ltac:(lia) ltac:(lia)). unfold dsize. lia.
Qed.

Lemma insert_flip b0 b : b !! 0%nat = Some b0 → <[0%nat := Z.lxor b0 128]> b = flip_sign b.
Proof. destruct b; [done|]. by intros [= ->]. Qed.

(** The mask bytes in front of a short integer part. *)
Lemma fitInt_ok neg N w l intSize D iSizeFrom n wordIdx v m : (N <? D) = false → 0 ≤ iSizeFrom ≤ intSize → intSize ≤ Z.of_nat n →
  fitInt (if (neg : bool) then -1 else 0) N w l intSize iSizeFrom (replicate n 0) D wordIdx v m =
  Ok (replicate (Z.to_nat (intSize - iSizeFrom)) (mask_byte neg) ++ replicate (n - Z.to_nat (intSize - iSizeFrom)) 0,
      intSize - iSizeFrom, wordIdx, v, m, None).
Proof.
  intros HND Hs Hn. unfold fitInt. rewrite HND. destruct (Z.ltb_spec iSizeFrom intSize).
  - pose proof (write_mask [] n neg (Z.to_nat (intSize - iSizeFrom)) 0 eq_refl ltac:(lia)) as E. rewrite !app_nil_l in E. by rewrite E.
  - replace (intSize - iSizeFrom) with 0 by lia. change (Z.to_nat 0) with 0%nat. by rewrite Nat.sub_0_r.
Qed.

(** The fraction part written with the decimal's own words only. *)
Lemma frac_body_short d w t v : 0 ≤ t < 9 → (v ≤ w)%nat → wordsFrac d = Z.of_nat v →
  frac_body d w t = groups d v (-1) ++ replicate (4 * (w - v) + d2b t) (mask_byte (negative d)).
Proof.
  intros Ht Hv Hw. unfold frac_body. replace w with (v + (w - v))%nat at 1 by lia. rewrite groups_app.
  rewrite (groups_zero d (w - v)) by (intros; apply digit_out; lia). rewrite digit_out by lia.
  rewrite Z.div_0_l, group_zero by lia. by rewrite <- app_assoc, <- replicate_add.
Qed.

(** The part of [WriteBin] that follows the integer part's mask bytes. *)
Lemma write_body d s v l pre m N : dec_ok d → 0 ≤ l < 9 → 0 ≤ s → digitsFrac d ≤ s → ¬ (s mod 9 = 0 ∧ s - 2 ≤ digitsFrac d < s) →
  Z.of_nat v + (if 0 <? l then 1 else 0) ≤ wordsInt d → digit d (Z.of_nat v) < 10 ^ l →
  let mask := if negative d then -1 else 0 in
  let fs := dsize s in
  let fsFrom := dsize (digitsFrac d) in
  Z.of_nat m = 4 * Z.of_nat v + Z.of_nat (d2b l) + fs → N = Z.of_nat (length pre + m) →
  ∃ w t fs', fitFrac (s / 9) (s mod 9) fs (digitsFrac d / 9) (digitsFrac d mod 9) fsFrom None = (w, t, fs', None) ∧
  ('(bin, binIdx, wordIdxFrom) ← writeLeading d mask l (pre ++ replicate m 0) (Z.of_nat (length pre))
       (wordsInt d - (Z.of_nat v + (if 0 <? l then 1 else 0)));
   '(bin, binIdx, wordIdxFrom) ← writeWords (Z.to_nat (Z.of_nat v + w)) d mask bin binIdx wordIdxFrom;
   '(bin, binIdx) ← writeTrailing d mask (s / 9) (s mod 9) w t bin binIdx wordIdxFrom;
   padFrac mask fs' fsFrom N bin binIdx) =
  Ok (pre ++ int_body d v l ++ frac_body d (Z.to_nat (s / 9)) (s mod 9)).
Proof.
  intros Hd Hl Hs Hsc Hq Hv Hlt mask fs fsFrom Hm HN. pose proof (do_frac d Hd) as Hf.
  pose proof (Z.div_pos s 9 Hs ltac:(lia)) as HwF. pose proof (Z.mod_pos_bound s 9 ltac:(lia)) as HT.
  destruct (fitFrac_ok (digitsFrac d) s None ltac:(lia) Hq) as (w & t & fs' & E & Hcases). fold fs fsFrom in E, Hcases.
  exists w, t, fs'. split; [exact E|]. fold (wordsFrac d) in Hcases. destruct (dec_words d Hd) as (_ & HF & _).
  assert (Hrun : ∀ n, Z.of_nat n ≤ wordsFrac d → Z.of_nat n ≤ s / 9 →
    ('(bin, binIdx, wordIdxFrom) ← writeLeading d mask l (pre ++ replicate m 0) (Z.of_nat (length pre))
       (wordsInt d - (Z.of_nat v + (if 0 <? l then 1 else 0)));
     writeWords (v + n) d mask bin binIdx wordIdxFrom) = 
    Ok ((pre ++ int_body d v l ++ groups d n (-1)) ++ replicate (m - (4 * v + d2b l + 4 * n)) 0,
      Z.of_nat (length (pre ++ int_body d v l ++ groups d n (-1))), wordsInt d + Z.of_nat n)).
  { intros n Hn1 Hn2. rewrite writeInt_ok by (done || unfold fs, dsize in Hm; lia).
    rewrite !length_app, length_int_body, length_groups. do 3 f_equal. lia. }
  destruct Hcases as [(-> & -> & Hfs & Hw1 & Hw2)|(-> & -> & -> & Hfs & Hw1 & Hw2)].
  - specialize (Hrun (Z.to_nat (s / 9)) ltac:(lia) ltac:(lia)).
    replace (Z.to_nat (Z.of_nat v + s / 9)) with (v + Z.to_nat (s / 9))%nat by lia.
    destruct (writeLeading _ _ _ _ _ _) as [[[b0 i0] x0]| | |]; try discriminate. osimpl in Hrun. osimpl. rewrite Hrun. osimpl.
    rewrite <- (Z2Nat.id (s / 9)) at 1 2 by done. rewrite <- (Z2Nat.id (s / 9) HwF) at 4 5.
    rewrite writeTrailing_ok by (done || rewrite ?Z2Nat.id; unfold fs, dsize in Hm; lia). osimpl.
    unfold padFrac. rewrite (proj2 (Z.ltb_ge fsFrom fs')) by lia. rewrite <- !app_assoc.
    replace (m - _ - _)%nat with 0%nat by (unfold fs, dsize in Hm; lia). rewrite app_nil_r. done.
  - specialize (Hrun (Z.to_nat (wordsFrac d)) ltac:(lia) ltac:(lia)).
    replace (Z.to_nat (Z.of_nat v + wordsFrac d)) with (v + Z.to_nat (wordsFrac d))%nat by lia.
    destruct (writeLeading _ _ _ _ _ _) as [[[b0 i0] x0]| | |]; try discriminate. osimpl in Hrun. osimpl. rewrite Hrun. osimpl.
    unfold writeTrailing. change (0 <? 0) with false. osimpl. unfold padFrac. rewrite (proj2 (Z.ltb_lt fsFrom fs)) by lia.
    rewrite (frac_body_short d _ _ (Z.to_nat (wordsFrac d))) by lia.
    set (k := (m - (4 * v + d2b l + 4 * Z.to_nat (wordsFrac d)))%nat).
    replace (Z.to_nat (Z.min _ _)) with k.
    2:{ rewrite !length_app, length_int_body, length_groups. unfold k, fs, dsize in *. lia. }
    unfold mask. rewrite write_mask by (done || lia). rewrite Nat.sub_diag, app_nil_r, <- !app_assoc. do 5 f_equal.
    unfold k, fs, dsize in *. lia.
Qed.

Lemma parts_9 n : 0 ≤ n → n `quot` 9 = n / 9 ∧ n - n / 9 * 9 = n mod 9 ∧ 0 ≤ n / 9 ∧ 0 ≤ n mod 9 < 9 ∧ n = 9 * (n / 9) + n mod 9.
Proof.
  intros Hn. rewrite Z.quot_div_nonneg by lia. pose proof (Z.div_mod n 9 ltac:(lia)). pose proof (Z.mod_pos_bound n 9 ltac:(lia)).
  pose proof (Z.div_pos n 9 Hn ltac:(lia)). lia.
Qed.

(** The integer part of a type is no shorter than that of a decimal that fits. *)
Lemma int_body_fits d N D : dec_ok d → significant d D → D ≤ N →
  int_body d (Z.to_nat (N / 9)) (N mod 9) =
    replicate (Z.to_nat (dsize N - dsize D)) (mask_byte (negative d)) ++
    int_body d (Z.to_nat (D / 9)) (D mod 9) ∧
  dsize D ≤ dsize N.
Proof.
  intros Hd HD HDN. destruct (significant_parts d D HD) as (HD0 & _ & Hlt & Hz & _).
  destruct (parts_9 D HD0) as (_ & _ & H1 & H2 & H3). destruct (parts_9 N ltac:(lia)) as (_ & _ & H4 & H5 & H6).
  assert (Hm : (Z.to_nat (D / 9) = Z.to_nat (N / 9) → D mod 9 ≤ N mod 9)) by lia.
  rewrite (int_body_pad d _ (N mod 9) (Z.to_nat (D / 9)) (D mod 9)) by (rewrite ?Z2Nat.id by lia; done || lia).
  unfold dsize. pose proof (d2b_le (D mod 9) ltac:(lia)). assert (D / 9 < N / 9 ∨ D / 9 = N / 9) as [?|Heq] by lia.
  - split; [|lia]. do 2 f_equal. lia.
  - pose proof (d2b_mono (D mod 9) (N mod 9) ltac:(lia) ltac:(lia)). split; [|lia]. do 2 f_equal. lia.
Qed.

Lemma dsize_nonneg n : 0 ≤ n → 0 ≤ dsize n.
Proof. intros Hn. pose proof (Z.div_pos n 9 Hn ltac:(lia)). unfold dsize. lia. Qed.

Lemma dsize_pos n : 0 < n → 0 < dsize n.
Proof. intros Hn. destruct (parts_9 n ltac:(lia)) as (_ & _ & ? & ? & ?). pose proof (d2b_0 (n mod 9) ltac:(lia)). unfold dsize. lia. Qed.

(** A decimal without digits is zero, so that its mask is not changed. *)
Lemma zero_mask d D N : dec_ok d → significant d D → D ≤ N →
  ∃ N', (if D + dsize (digitsFrac d) =? 0 then (0, 1) else (if negative d then -1 else 0, N)) = (if negative d then -1 else 0, N') ∧
    (N' <? D) = false.
Proof.
  intros Hd HD HDN. pose proof (do_frac d Hd) as Hf. destruct (Z.eqb_spec (D + dsize (digitsFrac d)) 0) as [H0|]; [|exists N; split; [done|apply Z.ltb_ge; lia]].
  exists 1. assert (D = 0 ∧ digitsFrac d = 0) as [-> Hf0].
  { destruct (parts_9 _ Hf) as (_ & _ & ? & ? & ?). pose proof (d2b_0 (digitsFrac d mod 9) ltac:(lia)).
    destruct (significant_parts d D HD) as [HD0 _]. unfold dsize in H0. lia. }
  destruct (negative d) eqn:Hn; [|done]. destruct (do_neg d Hd Hn). apply total_zero. intros k Hk.
  destruct HD as [[_ HD]|(P & j & ? & ? & ? & _)]; [|lia].
  destruct (Z.le_gt_cases 0 (-9 + k)); [by apply HD|]. apply digit_out. unfold wordsFrac. rewrite Hf0. change (digitsToWords 0) with 0. lia.
Qed.

Theorem WriteBin_eq p s d buf : dec_fits p s d → WriteBin d p s buf = Ok (buf ++ dec_bytes p s d, None).
Proof.
  intros [Hd (Hp & Hs & Hsp) Hfirst _ Hsc Hsize Hq]. pose proof (do_frac d Hd) as Hf. unfold WriteBin, digitsPerWord, maxWordBufLen, MaxDecimalScale, wordSize.
  rewrite (proj2 (Z.ltb_ge (9 * 9) p)), (proj2 (Z.ltb_ge p 0)), (proj2 (Z.ltb_ge 30 s)), (proj2 (Z.ltb_ge s 0)) by lia. cbn [orb].
  destruct (parts_9 (p - s) ltac:(lia)) as (-> & -> & HN1 & HN2 & HN3). destruct (parts_9 s ltac:(lia)) as (-> & -> & Hs1 & Hs2 & Hs3).
  destruct (parts_9 (digitsFrac d) Hf) as (-> & -> & Hf1 & Hf2 & Hf3). rewrite !d2b_index by lia. osimpl.
  fold (dsize (p - s)) (dsize s) (dsize (digitsFrac d)).
  destruct (removeLeadingZeros_ok d Hd Hfirst) as (D & -> & HD). osimpl.
  destruct (significant_parts d D HD) as (HD0 & HW & Hlt & _ & HWI). specialize (HWI (proj1 (dec_words d Hd))).
  pose proof (significant_room d D (p - s) Hd ltac:(by replace (81 + (p - s)) with (81 + p - s) by lia) ltac:(lia) HD) as HDN.
  destruct (int_body_fits d (p - s) D Hd HD ltac:(lia)) as [Hpad Hle].
  destruct (zero_mask d D (p - s) Hd HD ltac:(lia)) as (N' & -> & HND). cbv zeta beta iota.
  destruct (parts_9 D HD0) as (-> & -> & HD1 & HD2 & HD3). rewrite d2b_index by lia. osimpl. fold (dsize D).
  pose proof (dsize_nonneg D HD0). pose proof (dsize_nonneg s ltac:(lia)).
  rewrite fitInt_ok by (done || lia). osimpl. rewrite HW. set (pre := replicate _ (mask_byte (negative d))) in *.
  assert (Hpre : dsize (p - s) - dsize D = Z.of_nat (length pre)) by (unfold pre; rewrite length_replicate; lia). rewrite Hpre, Nat2Z.id.
  assert (HDn : D / 9 = Z.of_nat (Z.to_nat (D / 9))) by lia. rewrite HDn in Hlt |- *. rewrite HW, HDn in HWI.
  destruct (write_body d s (Z.to_nat (D / 9)) (D mod 9) pre (Z.to_nat (dsize (p - s) + dsize s) - length pre) (dsize (p - s) + dsize s)) as (w & t & fs' & -> & Erun);
    try done; [lia|unfold dsize in *; lia|lia|]. cbv beta iota.
  destruct (writeLeading _ _ _ _ _ _) as [[[b1 i1] x1]| | |]; try discriminate. osimpl in Erun. osimpl.
  destruct (writeWords _ _ _ _ _ _) as [[[b2 i2] x2]| | |]; try discriminate. osimpl in Erun. osimpl.
  destruct (writeTrailing _ _ _ _ _ _ _ _ _) as [[b3 i3]| | |]; try discriminate. osimpl in Erun. osimpl. rewrite Erun. osimpl.
  rewrite app_assoc, <- Hpad. fold (dec_body p s d). unfold dec_bytes.
  destruct (dec_body p s d) as [|b0 b] eqn:Eb; [|done]. pose proof (length_dec_body p s d ltac:(lia)) as Hl. rewrite Eb in Hl. simpl in Hl.
  pose proof (dsize_pos (p - s)). pose proof (dsize_pos s). pose proof (dsize_nonneg (p - s) ltac:(lia)). lia.
Qed.

(** ** The order of the binary forms *)

(** Comparison from the word with the exponent [pos] down. *)
Fixpoint digits_cmp (f g : Z → Z) (n : nat) (pos : Z) : comparison :=
  match n with
  | O => Eq
  | S n' => match f pos ?= g pos with Eq => digits_cmp f g n' (pos - 1) | c => c end
  end.

Lemma digits_cmp_total f g n : ∀ pos, (∀ q, word_ok (f q) ∧ word_ok (g q)) →
  digits_cmp f g n pos = (total f (pos - Z.of_nat n + 1) n ?= total g (pos - Z.of_nat n + 1) n).
Proof.
  induction n as [|n IH]; intros pos Hok; [done|]. cbn [digits_cmp total]. rewrite (IH (pos - 1) Hok).
  replace (pos - 1 - Z.of_nat n + 1) with (pos - Z.of_nat (S n) + 1) by lia. set (lo := pos - Z.of_nat (S n) + 1).
  replace (lo + Z.of_nat n) with pos by lia.
  pose proof (total_bound f lo n ltac:(intros; apply Hok)). pose proof (total_bound g lo n ltac:(intros; apply Hok)).
  destruct (Z.compare_spec (f pos) (g pos)) as [->|Hlt|Hlt]; symmetry.
  - by rewrite !(Z.add_comm _ (g pos * _)), Z.add_compare_mono_l.
  - apply Z.compare_lt_iff. nia.
  - apply Z.compare_gt_iff. nia.
Qed.

(** A negative decimal is compared the other way round. *)
Definition directed (neg : bool) (c : comparison) : comparison := if neg then CompOpp c else c.

Lemma group_cmp neg k g h s t : 0 ≤ g < 256 ^ Z.of_nat k → 0 ≤ h < 256 ^ Z.of_nat k →
  bytes_cmp (group neg k g ++ s) (group neg k h ++ t) = match directed neg (g ?= h) with Eq => bytes_cmp s t | c => c end.
Proof.
  intros Hg Hh. unfold group. destruct neg; cbn [complemented directed]; [|by rewrite bytes_cmp_be_bytes].
  assert (E : ∀ x, 0 ≤ x < 256 ^ Z.of_nat k → be_bytes k (-1 - x) = be_bytes k (256 ^ Z.of_nat k - 1 - x)).
  { intros x Hx. apply be_bytes_ext. rewrite (Z.mod_small (256 ^ Z.of_nat k - 1 - x)) by lia.
    symmetry. apply (Z.mod_unique_pos _ _ (-1)); lia. }
  rewrite !E, bytes_cmp_be_bytes by lia. rewrite <- Z.compare_antisym.
  replace (256 ^ Z.of_nat k - 1 - g ?= 256 ^ Z.of_nat k - 1 - h) with (h ?= g); [done|].
  destruct (Z.compare_spec h g); symmetry; [apply Z.compare_eq_iff|apply Z.compare_lt_iff|apply Z.compare_gt_iff]; lia.
Qed.

Lemma digit_bytes d pos : dec_ok d → 0 ≤ digit d pos < 256 ^ Z.of_nat 4.
Proof. intros Hd. destruct (digit_ok d pos Hd). unfold wordBase in *. simpl. lia. Qed.

Lemma groups_cmp a b n s t : dec_ok a → dec_ok b → negative a = negative b → ∀ pos,
  bytes_cmp (groups a n pos ++ s) (groups b n pos ++ t) =
  match directed (negative a) (digits_cmp (digit a) (digit b) n pos) with Eq => bytes_cmp s t | c => c end.
Proof.
  intros Ha Hb Hn. induction n as [|n IH]; intros pos; cbn [groups digits_cmp]; [by destruct (negative a)|].
  rewrite <- !app_assoc, Hn, group_cmp by (by apply digit_bytes). rewrite <- Hn, IH.
  by destruct (digit a pos ?= digit b pos), (negative a).
Qed.

Lemma digits_cmp_app f g m n : ∀ pos, digits_cmp f g (m + n) pos =
  match digits_cmp f g m pos with Eq => digits_cmp f g n (pos - Z.of_nat m) | c => c end.
Proof.
  induction m as [|m IH]; intros pos; [simpl; f_equal; lia|]. cbn [Nat.add digits_cmp].
  destruct (f pos ?= g pos); [|done..]. rewrite IH. case_match; [|done..]. f_equal. lia.
Qed.

Lemma fits_room p s d : dec_fits p s d → 0 ≤ digit d ((p - s) / 9) < 10 ^ ((p - s) mod 9) ∧ (∀ q, (p - s) / 9 < q → digit d q = 0).
Proof.
  intros [Hd (Hp & Hs & Hsp) _ _ _ Hsize _]. destruct (parts_9 (p - s) ltac:(lia)) as (_ & _ & H1 & H2 & H3).
  replace (81 + p - s) with (81 + (p - s)) in Hsize by lia.
  split; [split; [apply (digit_ok _ _ Hd)|]|].
  - destruct (digit_room d (p - s) ((p - s) / 9) Hd Hsize ltac:(lia) ltac:(lia)) as [H _]. replace ((p - s) mod 9) with (p - s - 9 * ((p - s) / 9)) by lia.
    apply H. lia.
  - intros q Hq. apply (digit_room d (p - s) q Hd Hsize); lia.
Qed.

(** The last group of the fraction part: the digits of its word are all written. *)
Lemma fits_trailing p s d : dec_fits p s d → let g := digit d (- (s / 9) - 1) in
  g = g / 10 ^ (9 - s mod 9) * 10 ^ (9 - s mod 9) ∧ 0 ≤ g / 10 ^ (9 - s mod 9) < 10 ^ (s mod 9) ∧ (∀ q, q < - (s / 9) - 1 → digit d q = 0).
Proof.
  intros [Hd (Hp & Hs & Hsp) _ Hlast Hsc _ _] g. destruct (parts_9 s ltac:(lia)) as (_ & _ & H1 & H2 & H3).
  pose proof (digitsToWords_range (digitsFrac d) (do_frac d Hd)) as [HF0 HF]. fold (wordsFrac d) in HF0, HF.
  destruct (digit_ok d (- (s / 9) - 1) Hd) as [Hg0 Hg]. fold g in Hg0, Hg.
  assert (Hp10 : 0 < 10 ^ (9 - s mod 9)) by (apply Z.pow_pos_nonneg; lia).
  assert (Hdiv : (10 ^ (9 - s mod 9) | g)).
  { destruct (decide (wordsFrac d = s / 9 + 1)) as [He|Hne].
    - rewrite He in Hlast. replace (- (s / 9 + 1)) with (- (s / 9) - 1) in Hlast by lia. fold g in Hlast.
      etrans; [|exact Hlast]. exists (10 ^ (9 * (s / 9 + 1) - digitsFrac d - (9 - s mod 9))). rewrite <- Z.pow_add_r by lia. f_equal. lia.
    - unfold g. rewrite digit_out by lia. apply Z.divide_0_r. }
  split; [|split; [split; [apply Z.div_pos; lia|]|intros; apply digit_out; lia]].
  - destruct Hdiv as [x ->]. by rewrite Z.div_mul by lia.
  - apply Z.div_lt_upper_bound; [done|]. rewrite <- Z.pow_add_r by lia. by replace (9 - s mod 9 + s mod 9) with 9 by lia.
Qed.

Lemma dec_body_cmp p s a b u v : dec_fits p s a → dec_fits p s b → negative a = negative b →
  bytes_cmp (dec_body p s a ++ u) (dec_body p s b ++ v) =
  match directed (negative a) (magnitude a ?= magnitude b) with Eq => bytes_cmp u v | c => c end.
Proof.
  intros Ha Hb Hn. pose proof (df_ok _ _ _ Ha) as Hda. pose proof (df_ok _ _ _ Hb) as Hdb. destruct (df_type _ _ _ Ha) as (Hp & Hs & Hsp).
  destruct (fits_room p s a Ha) as [Ra Za], (fits_room p s b Hb) as [Rb Zb].
  destruct (fits_trailing p s a Ha) as (Ea & Ta & La), (fits_trailing p s b Hb) as (Eb & Tb & Lb). cbv zeta in *.
  destruct (parts_9 (p - s) ltac:(lia)) as (_ & _ & HN1 & HN2 & HN3). destruct (parts_9 s ltac:(lia)) as (_ & _ & Hs1 & Hs2 & Hs3).
  set (W := (p - s) / 9) in *. set (F := s / 9) in *. set (T := 10 ^ (9 - s mod 9)) in *.
  assert (Hcmp : (magnitude a ?= magnitude b) = digits_cmp (digit a) (digit b) (1 + (Z.to_nat W + (Z.to_nat F + 1))) W).
  { unfold magnitude. rewrite (total_window (digit a) (W + 1) (F + 1)), (total_window (digit b) (W + 1) (F + 1)) by (lia || (intros q [?|?]; [apply La || apply Lb|apply Za || apply Zb]; lia)).
    rewrite digits_cmp_total by (intros; split; by apply digit_ok). rewrite <- Zmult_compare_compat_l by (apply Z.lt_gt, Z.pow_pos_nonneg; unfold wordBase; lia).
    replace (W - _ + 1) with (- (F + 1)) by lia. by replace (Z.to_nat (W + 1 + (F + 1))) with (1 + (Z.to_nat W + (Z.to_nat F + 1)))%nat by lia. }
  rewrite Hcmp. unfold dec_body, int_body, frac_body. fold W F. rewrite !Z2Nat.id by done. rewrite <- !app_assoc.
  pose proof (d2b_holds ((p - s) mod 9) ltac:(lia)). pose proof (d2b_holds (s mod 9) ltac:(lia)).
  rewrite Hn, group_cmp by lia. rewrite <- Hn, groups_cmp by done. rewrite groups_cmp by done.
  fold T. rewrite Hn, group_cmp by lia. rewrite !digits_cmp_app. cbn [digits_cmp].
  replace (W - Z.of_nat 1) with (W - 1) by lia. replace (W - 1 - Z.of_nat (Z.to_nat W)) with (-1) by lia.
  replace (-1 - Z.of_nat (Z.to_nat F)) with (- F - 1) by lia.
  assert (Hlast : (digit a (- F - 1) ?= digit b (- F - 1)) = (digit a (- F - 1) / T ?= digit b (- F - 1) / T)).
  { rewrite Ea, Eb at 1. symmetry. apply Zmult_compare_compat_r. apply Z.lt_gt, Z.pow_pos_nonneg; lia. }
  rewrite Hlast. by destruct (digit a W ?= digit b W), (digits_cmp _ _ _ (W - 1)), (digits_cmp _ _ _ (-1)), (digit a (- F - 1) / T ?= _), (negative b).
Qed.

(** The first bit of the body is set for a negative decimal. *)
Definition sign_byte (neg : bool) (x : Z) : Prop := if neg then 128 ≤ x < 256 else 0 ≤ x < 128.

Lemma group_first neg k g r : (0 < k)%nat → 0 ≤ g < 128 * 256 ^ (Z.of_nat k - 1) → ∃ x r', group neg k g ++ r = x :: r' ∧ sign_byte neg x.
Proof.
  intros Hk Hg. destruct k as [|k]; [lia|]. unfold group. cbn [be_bytes app]. eexists _, _. split; [done|].
  rewrite Z.shiftr_div_pow2, <- pow256_2 by lia. replace (Z.of_nat (S k) - 1) with (Z.of_nat k) in Hg by lia.
  set (B := 256 ^ Z.of_nat k) in *. assert (0 < B) by (apply Z.pow_pos_nonneg; lia).
  assert (0 ≤ g / B < 128) by (split; [apply Z.div_pos; lia|apply Z.div_lt_upper_bound; lia]).
  destruct neg; unfold sign_byte, u8; cbn [complemented].
  - replace ((-1 - g) / B) with (-1 - g / B); [Z.to_euclidean_division_equations; lia|].
    pose proof (Z.div_mod g B ltac:(lia)). pose proof (Z.mod_pos_bound g B ltac:(lia)).
    apply (Z.div_unique_pos _ _ _ (B - 1 - g mod B)); lia.
  - rewrite Z.mod_small; lia.
Qed.

Lemma dec_body_first p s d u : dec_fits p s d → ∃ x r, dec_body p s d ++ u = x :: r ∧ sign_byte (negative d) x.
Proof.
  intros Hd. pose proof (df_ok _ _ _ Hd) as Hok. destruct (df_type _ _ _ Hd) as (Hp & Hs & Hsp).
  destruct (fits_room p s d Hd) as [Ra _]. destruct (fits_trailing p s d Hd) as (_ & Ta & _). cbv zeta in *.
  destruct (parts_9 (p - s) ltac:(lia)) as (_ & _ & HN1 & HN2 & HN3). destruct (parts_9 s ltac:(lia)) as (_ & _ & Hs1 & Hs2 & Hs3).
  unfold dec_body, int_body, frac_body. rewrite !Z2Nat.id, <- !app_assoc by done.
  pose proof (d2b_0 ((p - s) mod 9) ltac:(lia)). pose proof (d2b_0 (s mod 9) ltac:(lia)).
  assert (Hword : ∀ q, 0 ≤ digit d q < 128 * 256 ^ (Z.of_nat 4 - 1)).
  { intros q. destruct (digit_ok d q Hok). unfold wordBase in *. simpl. lia. }
  destruct (decide ((p - s) mod 9 = 0)) as [HL|HL]; [|pose proof (d2b_room ((p - s) mod 9) ltac:(lia)); apply group_first; lia].
  rewrite HL. change (group _ (d2b 0) _) with (@nil Z). rewrite app_nil_l.
  destruct (Z.to_nat ((p - s) / 9)) as [|w] eqn:EW; cbn [groups]; [|rewrite <- app_assoc; apply group_first; [lia|apply Hword]].
  rewrite app_nil_l. destruct (Z.to_nat (s / 9)) as [|f] eqn:EF; cbn [groups]; [|rewrite <- app_assoc; apply group_first; [lia|apply Hword]].
  rewrite app_nil_l. pose proof (d2b_room (s mod 9) ltac:(lia)). apply group_first; lia.
Qed.

Lemma lxor_128 x : 0 ≤ x < 256 → Z.lxor x 128 = if x <? 128 then x + 128 else x - 128.
Proof.
  intros Hx. assert (Hall : forallb (λ n, Z.lxor (Z.of_nat n) 128 =? (if Z.of_nat n <? 128 then Z.of_nat n + 128 else Z.of_nat n - 128)) (seq 0 256) = true) by (vm_compute; reflexivity).
  rewrite forallb_forall in Hall. specialize (Hall (Z.to_nat x) ltac:(apply in_seq; lia)). rewrite Z2Nat.id in Hall by lia. by apply Z.eqb_eq.
Qed.

Lemma flip_sign_app b x r u : b ++ u = x :: r → b ≠ [] → flip_sign b ++ u = Z.lxor x 128 :: r.
Proof. destruct b; [done|]. by intros [= -> <-]. Qed.

Lemma dec_body_nonempty p s d : dec_fits p s d → dec_body p s d ≠ [].
Proof. intros Hd E. destruct (dec_body_first p s d [] Hd) as (x & r & Er & _). by rewrite E in Er. Qed.

Lemma compare_add x y c : (x + c ?= y + c) = (x ?= y).
Proof. rewrite (Z.add_comm x), (Z.add_comm y). apply Z.add_compare_mono_l. Qed.
Lemma compare_sub x y c : (x - c ?= y - c) = (x ?= y).
Proof. apply (compare_add x y (- c)). Qed.

(** The binary forms of decimals of one type compare as their values do, whatever follows them. *)
Theorem dec_bytes_cmp p s a b u v : dec_fits p s a → dec_fits p s b →
  bytes_cmp (dec_bytes p s a ++ u) (dec_bytes p s b ++ v) = match value_of a ?= value_of b with Eq => bytes_cmp u v | c => c end.
Proof.
  intros Ha Hb. pose proof (df_ok _ _ _ Ha) as Hda. pose proof (df_ok _ _ _ Hb) as Hdb.
  pose proof (magnitude_nonneg a Hda). pose proof (magnitude_nonneg b Hdb). pose proof (do_neg a Hda). pose proof (do_neg b Hdb).
  pose proof (dec_body_cmp p s a b u v Ha Hb) as Hcmp.
  destruct (dec_body_first p s a u Ha) as (x & r & Ex & Hx), (dec_body_first p s b v Hb) as (y & r' & Ey & Hy).
  unfold dec_bytes. rewrite (flip_sign_app _ _ _ _ Ex), (flip_sign_app _ _ _ _ Ey) by (by eapply dec_body_nonempty).
  rewrite Ex, Ey in Hcmp. cbn [bytes_cmp] in Hcmp |- *. unfold value_of. unfold sign_byte in Hx, Hy.
  generalize dependent (magnitude a). generalize dependent (magnitude b). intros mb Hmb Hnb ma Hma Hna Hcmp.
  rewrite !lxor_128 by (destruct (negative a), (negative b); lia).
  destruct (negative a), (negative b); cbn [directed] in Hcmp.
  - rewrite Z.compare_opp, (Z.compare_antisym (ma)), <- (Hcmp eq_refl). rewrite !(proj2 (Z.ltb_ge _ 128)) by lia.
    by rewrite compare_sub.
  - rewrite (proj2 (Z.ltb_ge x 128)), (proj2 (Z.ltb_lt y 128)) by lia.
    rewrite (proj2 (Z.compare_lt_iff (x - 128) (y + 128))) by lia. by rewrite (proj2 (Z.compare_lt_iff (- ma) (mb))) by lia.
  - rewrite (proj2 (Z.ltb_lt x 128)), (proj2 (Z.ltb_ge y 128)) by lia.
    rewrite (proj2 (Z.compare_gt_iff (x + 128) (y - 128))) by lia. by rewrite (proj2 (Z.compare_gt_iff (ma) (- mb))) by lia.
  - rewrite <- (Hcmp eq_refl). rewrite !(proj2 (Z.ltb_lt _ 128)) by lia. by rewrite compare_add.
Qed.

(** ** Reading *)

(** The integer words [n - 1], ..., 0 without the leading zeros: how many are left. *)
Fixpoint top_words (d : MyDecimal) (n : nat) : nat :=
  match n with
  | O => O
  | S n' => if digit d (Z.of_nat n') =? 0 then top_words d n' else n
  end.

(** [n] words from the exponent [pos] down. *)
Fixpoint digits_from (d : MyDecimal) (n : nat) (pos : Z) : list Z :=
  match n with
  | O => []
  | S n' => digit d pos :: digits_from d n' (pos - 1)
  end.

Definition pad_words (ws : list Z) : list Z := ws ++ replicate (9 - length ws) 0.

(** The form in which a decimal of type decimal(p, s) is read back: as many integer words as
    there are digits, and [s] fraction digits. *)
Definition norm_top (p s : Z) (d : MyDecimal) : nat :=
  let w := Z.to_nat ((p - s) / 9) in if digit d (Z.of_nat w) =? 0 then top_words d w else S w.
Definition norm_int (p s : Z) (d : MyDecimal) : Z :=
  if digit d ((p - s) / 9) =? 0 then 9 * Z.of_nat (norm_top p s d) else p - s.
Definition dec_norm (p s : Z) (d : MyDecimal) : MyDecimal :=
  MkDecimal (norm_int p s d) s s (negative d)
    (pad_words (digits_from d (norm_top p s d + Z.to_nat (digitsToWords s)) (Z.of_nat (norm_top p s d) - 1))).

Lemma length_digits_from d n : ∀ pos, length (digits_from d n pos) = n.
Proof. induction n as [|n IH]; intros pos; simpl; [done|]. by rewrite IH. Qed.

Lemma digits_from_app d m n : ∀ pos, digits_from d (m + n) pos = digits_from d m pos ++ digits_from d n (pos - Z.of_nat m).
Proof.
  induction m as [|m IH]; intros pos; [simpl; f_equal; lia|]. cbn [Nat.add digits_from app]. rewrite IH. do 3 f_equal. lia.
Qed.

Lemma digits_from_lookup d n : ∀ pos k, (k < n)%nat → digits_from d n pos !! k = Some (digit d (pos - Z.of_nat k)).
Proof.
  induction n as [|n IH]; intros pos [|k] Hk; [lia|lia|simpl; do 2 f_equal; lia|].
  cbn [digits_from lookup list_lookup]. rewrite IH by lia. do 2 f_equal. lia.
Qed.

Lemma digits_from_ext a b n : (∀ q, digit a q = digit b q) → ∀ pos, digits_from a n pos = digits_from b n pos.
Proof. intros He. induction n as [|n IH]; intros pos; simpl; [done|]. by rewrite IH, He. Qed.

Lemma top_words_ext a b n : (∀ q, digit a q = digit b q) → top_words a n = top_words b n.
Proof. intros He. induction n as [|n IH]; cbn [top_words]; [done|]. by rewrite IH, He. Qed.

Lemma top_words_spec d n : (top_words d n ≤ n)%nat ∧ (∀ q, Z.of_nat (top_words d n) ≤ q < Z.of_nat n → digit d q = 0).
Proof.
  induction n as [|n [IH1 IH2]]; [split; [done|simpl; lia]|]. cbn [top_words]. destruct (Z.eqb_spec (digit d (Z.of_nat n)) 0) as [Hz|Hz].
  - split; [lia|]. intros q Hq. destruct (decide (q = Z.of_nat n)) as [->|]; [done|]. apply IH2. lia.
  - split; [done|]. lia.
Qed.

Lemma land_128 x : 0 ≤ x < 256 → (0 <? Z.land x 128) = (128 <=? x).
Proof.
  intros Hx. assert (Hall : forallb (λ n, Bool.eqb (0 <? Z.land (Z.of_nat n) 128) (128 <=? Z.of_nat n)) (seq 0 256) = true) by (vm_compute; reflexivity).
  rewrite forallb_forall in Hall. specialize (Hall (Z.to_nat x) ltac:(apply in_seq; lia)). rewrite Z2Nat.id in Hall by lia. by apply eqb_prop.
Qed.

(** A big-endian two's complement number is read back. *)
Lemma readWord_ok k x r : (1 ≤ k ≤ 4)%nat → - (128 * 256 ^ (Z.of_nat k - 1)) ≤ x < 128 * 256 ^ (Z.of_nat k - 1) →
  readWord (be_bytes k x ++ r) (Z.of_nat k) = Ok x.
Proof.
  intros Hk Hx. assert (k = 1 ∨ k = 2 ∨ k = 3 ∨ k = 4)%nat as [->|[->|[->| ->]]] by lia;
    cbn [be_bytes app]; unfold readWord; simpl Z.of_nat; simpl Z.mul; simpl Z.eqb; cbv iota; cbn [index lookup list_lookup]; osimpl;
    rewrite ?Z.shiftr_div_pow2, ?Z.shiftl_mul_pow2 by lia; simpl Z.pow in *.
  - f_equal. unfold_width. Z.to_euclidean_division_equations; lia.
  - f_equal. unfold_width. Z.to_euclidean_division_equations; lia.
  - change (2 ^ (8 * Z.of_nat 2)) with 65536. change (2 ^ (8 * Z.of_nat 1)) with 256. change (2 ^ (8 * Z.of_nat 0)) with 1.
    change (2 ^ 16) with 65536. change (2 ^ 8) with 256. change (2 ^ 24) with 16777216.
    assert (H0 : byte_ok (u8 (x / 65536))) by apply u8_range. assert (H1 : byte_ok (u8 (x / 256))) by apply u8_range.
    assert (H2 : byte_ok (u8 (x / 1))) by apply u8_range. unfold byte_ok in *. rewrite land_128 by done.
    assert (Hlow : Z.lor (Z.lor (u8 (x / 65536) * 65536) (u8 (x / 256) * 256)) (u8 (x / 1)) = u8 (x / 65536) * 65536 + u8 (x / 256) * 256 + u8 (x / 1)).
    { pose proof (lor_add (u8 (x / 65536)) (u8 (x / 256) * 256) 16 ltac:(lia) ltac:(lia)) as E. change (2 ^ 16) with 65536 in E. rewrite E.
      replace (_ + _ * 256) with ((u8 (x / 65536) * 256 + u8 (x / 256)) * 2 ^ 8) by lia. rewrite lor_add by lia. lia. }
    rewrite Hlow. destruct (Z.leb_spec 128 (u8 (x / 65536))); f_equal.
    + pose proof (lor_add 255 (u8 (x / 65536) * 65536 + u8 (x / 256) * 256 + u8 (x / 1)) 24 ltac:(lia) ltac:(lia)) as E.
      change (2 ^ 24) with 16777216 in E. rewrite E. unfold_width. Z.to_euclidean_division_equations; lia.
    + unfold_width. Z.to_euclidean_division_equations; lia.
  - f_equal. unfold_width. Z.to_euclidean_division_equations; lia.
Qed.

(** A group in the middle of the bytes. *)
Lemma read_group (pre r : bytes) neg k g i : (1 ≤ k ≤ 4)%nat → 0 ≤ g < 128 * 256 ^ (Z.of_nat k - 1) → i = Z.of_nat (length pre) →
  (b ← slice_from (pre ++ group neg k g ++ r) (Z.to_nat i); readWord b (Z.of_nat k)) = Ok (complemented neg g) ∧
  Z.lxor (complemented neg g) (if (neg : bool) then -1 else 0) = g.
Proof.
  intros Hk Hg ->. rewrite Nat2Z.id, slice_from_ok by (rewrite length_app; lia). osimpl. rewrite drop_app_length. split.
  - apply readWord_ok; [done|]. destruct neg; simpl; lia.
  - rewrite complemented_lxor. destruct neg; simpl; lia.
Qed.

Lemma store_pad ws w : (length ws < 9)%nat → storeZ (pad_words ws) (Z.of_nat (length ws)) w = Ok (pad_words (ws ++ [w])).
Proof.
  intros Hl. unfold pad_words. rewrite storeZ_ok by (rewrite length_app, length_replicate; lia). rewrite Nat2Z.id, insert_app_r_alt by lia.
  rewrite Nat.sub_diag, length_app. replace (9 - length ws)%nat with (S (9 - (length ws + 1)))%nat by lia. by rewrite <- app_assoc.
Qed.

Lemma word_room w : word_ok w → 0 ≤ w < 128 * 256 ^ (Z.of_nat 4 - 1) ∧ (wordMax <? u32 w) = false.
Proof.
  unfold word_ok, wordBase, wordMax. intros Hw. split; [simpl; lia|]. apply Z.ltb_ge. unfold u32. rewrite Z.mod_small; lia.
Qed.

(** Once a word was kept, every word is. *)
Lemma readIntWords_more d n : dec_ok d → ∀ ws pre r D F R pos, ws ≠ [] → (length ws + n ≤ 9)%nat →
  readIntWords n (MkDecimal D F R (negative d) (pad_words ws)) (pre ++ groups d n pos ++ r) (Z.of_nat (length pre)) (Z.of_nat (length ws))
    (if negative d then -1 else 0) =
  Ok (MkDecimal D F R (negative d) (pad_words (ws ++ digits_from d n pos)), Z.of_nat (length pre + 4 * n), Z.of_nat (length ws + n)).
Proof.
  intros Hd. induction n as [|n IH]; intros ws pre r D F R pos Hne Hl; cbn [readIntWords groups digits_from].
  { by rewrite app_nil_r, !Nat.add_0_r. }
  rewrite <- app_assoc. destruct (word_room _ (digit_ok d pos Hd)) as [Hw Hm].
  destruct (read_group pre (groups d n (pos - 1) ++ r) (negative d) 4 (digit d pos) _ ltac:(lia) Hw eq_refl) as [E Ex].
  destruct (slice_from _ _); try discriminate. osimpl in E. osimpl. change (Z.of_nat 4) with 4 in E. rewrite E. osimpl. rewrite Ex. cbn [wordBuf].
  rewrite store_pad by lia. osimpl. rewrite Hm. rewrite (proj2 (Z.ltb_lt 0 (Z.of_nat (length ws)))) by (destruct ws; simpl; done || lia).
  cbn [orb digitsInt digitsFrac resultFrac negative]. rewrite app_assoc.
  replace (Z.of_nat (length pre) + wordSize) with (Z.of_nat (length (pre ++ group (negative d) 4 (digit d pos)))) by (rewrite length_app, length_group; unfold wordSize; lia).
  replace (Z.of_nat (length ws) + 1) with (Z.of_nat (length (ws ++ [digit d pos]))) by (rewrite length_app; simpl; lia).
  rewrite IH; [|by destruct ws|rewrite length_app; simpl; lia]. rewrite <- app_assoc. rewrite !length_app, length_group. simpl length. fields_eq.
Qed.

(** The integer words, without leading zeros. *)
Lemma readIntWords_ok d n : dec_ok d → ∀ pre r D F R, 9 * Z.of_nat n ≤ D ≤ 100 → (n ≤ 9)%nat →
  readIntWords n (MkDecimal D F R (negative d) (replicate 9 0)) (pre ++ groups d n (Z.of_nat n - 1) ++ r) (Z.of_nat (length pre)) 0
    (if negative d then -1 else 0) =
  Ok (MkDecimal (D - 9 * (Z.of_nat n - Z.of_nat (top_words d n))) F R (negative d)
        (pad_words (digits_from d (top_words d n) (Z.of_nat (top_words d n) - 1))),
      Z.of_nat (length pre + 4 * n), Z.of_nat (top_words d n)).
Proof.
  intros Hd. induction n as [|n IH]; intros pre r D F R HD Hn.
  { cbn [readIntWords top_words digits_from]. rewrite Nat.mul_0_r, Nat.add_0_r. by replace (D - _) with D by lia. }
  cbn [readIntWords groups top_words]. replace (Z.of_nat (S n) - 1) with (Z.of_nat n) by lia. rewrite <- app_assoc.
  destruct (word_room _ (digit_ok d (Z.of_nat n) Hd)) as [Hw Hm].
  destruct (read_group pre (groups d n (Z.of_nat n - 1) ++ r) (negative d) 4 (digit d (Z.of_nat n)) _ ltac:(lia) Hw eq_refl) as [E Ex].
  destruct (slice_from _ _); try discriminate. osimpl in E. osimpl. change (Z.of_nat 4) with 4 in E. rewrite E. osimpl. rewrite Ex. cbn [wordBuf].
  pose proof (store_pad [] (digit d (Z.of_nat n)) ltac:(simpl; lia)) as Est.
  change (pad_words []) with (replicate 9 0) in Est. change (Z.of_nat (length [])) with 0 in Est. rewrite Est. osimpl. rewrite Hm.
  change (0 <? 0) with false. cbn [orb digitsInt digitsFrac resultFrac negative]. rewrite app_assoc.
  replace (Z.of_nat (length pre) + wordSize) with (Z.of_nat (length (pre ++ group (negative d) 4 (digit d (Z.of_nat n))))) by (rewrite length_app, length_group; unfold wordSize; lia).
  destruct (Z.eqb_spec (digit d (Z.of_nat n)) 0) as [Hz|Hz]; cbn [negb].
  - rewrite Hz. change (pad_words ([] ++ [0])) with (replicate 9 0).
    assert (i8 (D - digitsPerWord) = D - 9) as -> by (unfold i8, digitsPerWord; rewrite Z.mod_small; lia).
    rewrite IH by lia. rewrite !length_app, length_group. fields_eq.
  - change (0 + 1) with (Z.of_nat (length ([] ++ [digit d (Z.of_nat n)]))). rewrite readIntWords_more by (simpl; done || lia).
    rewrite !length_app, length_group. simpl length. cbn [app digits_from].
    replace (Z.of_nat (S n) - 1) with (Z.of_nat n) by lia. fields_eq.
Qed.

Lemma readFracWords_ok d n : dec_ok d → ∀ ws pre r D F R pos, (length ws + n ≤ 9)%nat →
  readFracWords n (MkDecimal D F R (negative d) (pad_words ws)) (pre ++ groups d n pos ++ r) (Z.of_nat (length pre)) (Z.of_nat (length ws))
    (if negative d then -1 else 0) =
  Ok (MkDecimal D F R (negative d) (pad_words (ws ++ digits_from d n pos)), Z.of_nat (length pre + 4 * n), Z.of_nat (length ws + n)).
Proof.
  intros Hd. induction n as [|n IH]; intros ws pre r D F R pos Hl; cbn [readFracWords groups digits_from].
  { by rewrite app_nil_r, !Nat.add_0_r. }
  rewrite <- app_assoc. destruct (word_room _ (digit_ok d pos Hd)) as [Hw Hm].
  destruct (read_group pre (groups d n (pos - 1) ++ r) (negative d) 4 (digit d pos) _ ltac:(lia) Hw eq_refl) as [E Ex].
  destruct (slice_from _ _); try discriminate. osimpl in E. osimpl. change (Z.of_nat 4) with 4 in E. rewrite E. osimpl. rewrite Ex. cbn [wordBuf].
  rewrite store_pad by lia. osimpl. rewrite Hm. cbn [digitsInt digitsFrac resultFrac negative]. rewrite app_assoc.
  replace (Z.of_nat (length pre) + wordSize) with (Z.of_nat (length (pre ++ group (negative d) 4 (digit d pos)))) by (rewrite length_app, length_group; unfold wordSize; lia).
  replace (Z.of_nat (length ws) + 1) with (Z.of_nat (length (ws ++ [digit d pos]))) by (rewrite length_app; simpl; lia).
  rewrite IH by (rewrite length_app; simpl; lia). rewrite <- app_assoc. rewrite !length_app, length_group. simpl length. fields_eq.
Qed.

(** The leading digits: the integer part so far, without leading zeros. *)
Lemma readLeading_ok d F N r : dec_ok d → 0 ≤ N ≤ 65 → digit d (N / 9) < 10 ^ (N mod 9) →
  readLeading (MkDecimal N F 0 (negative d) (replicate 9 0)) (group (negative d) (d2b (N mod 9)) (digit d (N / 9)) ++ r) 0 (N mod 9)
    (Z.of_nat (d2b (N mod 9))) (if negative d then -1 else 0) =
  Ok (if digit d (N / 9) =? 0 then MkDecimal (9 * (N / 9)) F 0 (negative d) (replicate 9 0)
      else MkDecimal N F 0 (negative d) (pad_words [digit d (N / 9)]), Z.of_nat (d2b (N mod 9)), if digit d (N / 9) =? 0 then 0 else 1).
Proof.
  intros Hd HN Hlt. destruct (parts_9 N ltac:(lia)) as (_ & _ & HN1 & HN2 & HN3). destruct (digit_ok d (N / 9) Hd) as [Hg0 _].
  unfold readLeading. destruct (Z.ltb_spec 0 (N mod 9)) as [HL|HL].
  - pose proof (d2b_room (N mod 9) ltac:(lia)) as Hroom. pose proof (d2b_le (N mod 9) ltac:(lia)). pose proof (d2b_0 (N mod 9) ltac:(lia)) as H0.
    destruct (read_group [] r (negative d) (d2b (N mod 9)) (digit d (N / 9)) 0 ltac:(lia) ltac:(lia) eq_refl) as [E Ex].
    rewrite app_nil_l in E. destruct (slice_from _ _); try discriminate. osimpl in E. osimpl. rewrite E. osimpl. rewrite Ex. cbn [wordBuf].
    pose proof (store_pad [] (digit d (N / 9)) ltac:(simpl; lia)) as Est. change (pad_words []) with (replicate 9 0) in Est.
    change (Z.of_nat (length [])) with 0 in Est. rewrite Est. osimpl. rewrite powers10_index by lia. osimpl.
    assert (Hp1 : 10 ^ (N mod 9) ≤ 10 ^ (N mod 9 + 1) ≤ 10 ^ 9) by (split; apply Z.pow_le_mono_r; lia).
    rewrite u64_small by (unfold u64_ok; lia). rewrite (proj2 (Z.leb_gt _ _)) by lia. cbn [digitsInt digitsFrac resultFrac negative].
    destruct (Z.eqb_spec (digit d (N / 9)) 0) as [Hz|Hz]; cbn [negb]; [|done]. rewrite Hz. do 4 f_equal.
    unfold i8. rewrite Z.mod_small; lia.
  - assert (HL0 : N mod 9 = 0) by lia. rewrite HL0 in Hlt |- *. simpl in Hlt. assert (digit d (N / 9) = 0) as -> by lia. simpl. do 4 f_equal. lia.
Qed.

(** The integer part. *)
Lemma readInt_ok d F N r : dec_ok d → 0 ≤ N ≤ 65 → digit d (N / 9) < 10 ^ (N mod 9) → 
  let top := if digit d (N / 9) =? 0 then top_words d (Z.to_nat (N / 9)) else S (Z.to_nat (N / 9)) in
  ('(d', binIdx, wordIdx) ← readLeading (MkDecimal N F 0 (negative d) (replicate 9 0)) (int_body d (Z.to_nat (N / 9)) (N mod 9) ++ r) 0 (N mod 9)
     (Z.of_nat (d2b (N mod 9))) (if negative d then -1 else 0);
   readIntWords (Z.to_nat (N / 9)) d' (int_body d (Z.to_nat (N / 9)) (N mod 9) ++ r) binIdx wordIdx (if negative d then -1 else 0)) =
  Ok (MkDecimal (if digit d (N / 9) =? 0 then 9 * Z.of_nat top else N) F 0 (negative d) (pad_words (digits_from d top (Z.of_nat top - 1))),
      Z.of_nat (length (int_body d (Z.to_nat (N / 9)) (N mod 9))), Z.of_nat top).
Proof.
  intros Hd HN Hlt top. destruct (parts_9 N ltac:(lia)) as (_ & _ & HN1 & HN2 & HN3).
  rewrite length_int_body. unfold int_body. rewrite Z2Nat.id, <- app_assoc by done. rewrite readLeading_ok by done. osimpl.
  pose proof (length_group (negative d) (d2b (N mod 9)) (digit d (N / 9))) as Hlg. unfold top. destruct (Z.eqb_spec (digit d (N / 9)) 0) as [Hz|Hz].
  - rewrite <- Hlg at 2. rewrite <- (Z2Nat.id (N / 9) HN1) at 5. rewrite readIntWords_ok by (done || lia). rewrite Hlg. fields_eq.
  - rewrite <- Hlg at 2. change 1 with (Z.of_nat (length [digit d (N / 9)])) at 2. rewrite readIntWords_more by (simpl; done || lia).
    rewrite Hlg. cbn [digits_from app]. replace (Z.of_nat (S (Z.to_nat (N / 9))) - 1) with (N / 9) by lia. simpl length. fields_eq.
Qed.

(** The fraction part. *)
Lemma readFrac_ok d D F ws pre s r : dec_ok d → 0 ≤ s → (length ws + Z.to_nat (digitsToWords s) ≤ 9)%nat →
  (let g := digit d (- (s / 9) - 1) in g = g / 10 ^ (9 - s mod 9) * 10 ^ (9 - s mod 9) ∧ 0 ≤ g / 10 ^ (9 - s mod 9) < 10 ^ (s mod 9)) →
  ('(d', binIdx, wordIdx) ← readFracWords (Z.to_nat (s / 9)) (MkDecimal D F 0 (negative d) (pad_words ws))
     (pre ++ frac_body d (Z.to_nat (s / 9)) (s mod 9) ++ r) (Z.of_nat (length pre)) (Z.of_nat (length ws)) (if negative d then -1 else 0);
   readTrailing d' (pre ++ frac_body d (Z.to_nat (s / 9)) (s mod 9) ++ r) binIdx wordIdx (s mod 9) (if negative d then -1 else 0)) =
  Ok (MkDecimal D F 0 (negative d) (pad_words (ws ++ digits_from d (Z.to_nat (digitsToWords s)) (-1)))).
Proof.
  intros Hd Hs Hl Hg. destruct (parts_9 s Hs) as (_ & _ & Hs1 & Hs2 & Hs3). pose proof (digitsToWords_range s Hs) as [_ Hw].
  unfold frac_body. rewrite Z2Nat.id by done. rewrite <- app_assoc. rewrite readFracWords_ok by (done || lia). osimpl. unfold readTrailing.
  destruct (Z.ltb_spec 0 (s mod 9)) as [HT|HT].
  - pose proof (d2b_room (s mod 9) ltac:(lia)) as Hroom. pose proof (d2b_le (s mod 9) ltac:(lia)). pose proof (d2b_0 (s mod 9) ltac:(lia)) as H0.
    rewrite d2b_index by lia. osimpl. set (g := digit d (- (s / 9) - 1)) in *. cbv zeta in Hg. destruct Hg as [Eg Hg]. rewrite app_assoc.
    destruct (read_group (pre ++ groups d (Z.to_nat (s / 9)) (-1)) r (negative d) (d2b (s mod 9)) (g / 10 ^ (9 - s mod 9)) (Z.of_nat (length pre + 4 * Z.to_nat (s / 9)))
      ltac:(lia) ltac:(lia)) as [E Ex]; [by rewrite length_app, length_groups|].
    destruct (slice_from _ _); try discriminate. osimpl in E. osimpl. rewrite E. osimpl. unfold digitsPerWord. rewrite powers10_index by lia. osimpl.
    rewrite Ex, <- Eg. destruct (digit_ok d (- (s / 9) - 1) Hd) as [Hg0 Hg9]. fold g in Hg0, Hg9. unfold wordBase in Hg9.
    assert (i32 g = g) as -> by (unfold i32; rewrite Z.mod_small; lia). cbn [wordBuf].
    replace (Z.of_nat (length ws + Z.to_nat (s / 9))) with (Z.of_nat (length (ws ++ digits_from d (Z.to_nat (s / 9)) (-1)))) by (by rewrite length_app, length_digits_from).
    rewrite store_pad by (rewrite length_app, length_digits_from; lia). osimpl. destruct (word_room g) as [_ ->]; [by split|].
    cbn [digitsInt digitsFrac resultFrac negative]. do 3 f_equal. rewrite <- app_assoc. f_equal.
    replace (Z.to_nat (digitsToWords s)) with (Z.to_nat (s / 9) + 1)%nat by lia. rewrite digits_from_app. cbn [digits_from]. do 3 f_equal. lia.
  - replace (Z.to_nat (digitsToWords s)) with (Z.to_nat (s / 9)) by lia. done.
Qed.

Lemma DecimalBinSize_eq p s d : 0 ≤ s ≤ p → DecimalBinSize p s = Ok (Z.of_nat (length (dec_body p s d))).
Proof.
  intros Hsp. rewrite length_dec_body by done. unfold DecimalBinSize, digitsPerWord, wordSize.
  destruct (parts_9 (p - s) ltac:(lia)) as (-> & -> & HN1 & HN2 & HN3). destruct (parts_9 s ltac:(lia)) as (-> & -> & Hs1 & Hs2 & Hs3).
  rewrite !d2b_index by lia. osimpl. unfold dsize. f_equal. lia.
Qed.

Lemma lxor_flip x : Z.lxor (Z.lxor x 128) 128 = x.
Proof. by rewrite Z.lxor_assoc, Z.lxor_nilpotent, Z.lxor_0_r. Qed.

(** The words of the binary form fit. *)
Lemma dec_words_fit p s : 1 ≤ p ≤ 65 → 0 ≤ s ≤ p → (p - s) / 9 + 1 + digitsToWords s ≤ 9 ∨ (p - s) mod 9 = 0 ∧ (p - s) / 9 + digitsToWords s ≤ 9.
Proof. intros Hp Hs. pose proof (digitsToWords_range s ltac:(lia)). destruct (parts_9 (p - s) ltac:(lia)) as (_ & _ & ? & ? & ?). lia. Qed.

Lemma norm_top_fit p s d : dec_fits p s d → (norm_top p s d + Z.to_nat (digitsToWords s) ≤ 9)%nat.
Proof.
  intros Hd. destruct (df_type _ _ _ Hd) as (Hp & Hs & Hsp). destruct (fits_room p s d Hd) as [Hr _].
  destruct (parts_9 (p - s) ltac:(lia)) as (_ & _ & HN1 & HN2 & HN3). pose proof (digitsToWords_range s ltac:(lia)).
  destruct (top_words_spec d (Z.to_nat ((p - s) / 9))) as [Ht _]. unfold norm_top. rewrite Z2Nat.id by done.
  destruct (Z.eqb_spec (digit d ((p - s) / 9)) 0) as [Hz|Hz].
  - destruct (dec_words_fit p s ltac:(lia) ltac:(lia)); lia.
  - destruct (dec_words_fit p s ltac:(lia) ltac:(lia)) as [?|[HL ?]]; [lia|]. rewrite HL in Hr. simpl in Hr. lia.
Qed.

(** A decimal without digits is read as the zero decimal, which it is. *)
Lemma norm_zero p s d : dec_fits p s d → norm_int p s d = 0 → s = 0 → norm_top p s d = 0%nat ∧ negative d = false.
Proof.
  intros Hd Hi ->. destruct (fits_room p 0 d Hd) as [Hr Hz]. pose proof (df_ok _ _ _ Hd) as Hok. destruct (df_type _ _ _ Hd) as (Hp & _ & _).
  destruct (parts_9 (p - 0) ltac:(lia)) as (_ & _ & HN1 & HN2 & HN3). unfold norm_int in Hi.
  assert (Ht : norm_top p 0 d = 0%nat ∧ digit d ((p - 0) / 9) = 0).
  { destruct (Z.eqb_spec (digit d ((p - 0) / 9)) 0); [split; [lia|done]|]. lia. }
  destruct Ht as [Ht Hg]. split; [done|]. destruct (negative d) eqn:Hn; [|done]. destruct (do_neg d Hok Hn). apply total_zero. intros k Hk.
  unfold norm_top in Ht. rewrite Z2Nat.id, Hg in Ht by done. simpl in Ht. destruct (top_words_spec d (Z.to_nat ((p - 0) / 9))) as [_ Htw]. rewrite Ht in Htw.
  destruct (Z.le_gt_cases 0 (-9 + k)).
  - destruct (Z.lt_trichotomy (-9 + k) ((p - 0) / 9)) as [?|[->|?]]; [apply Htw; lia|done|apply Hz; lia].
  - apply digit_out. pose proof (df_scale _ _ _ Hd). pose proof (do_frac d Hok). unfold wordsFrac. replace (digitsFrac d) with 0 by lia. change (digitsToWords 0) with 0. lia.
Qed.

Lemma readBody_ok p s d : dec_fits p s d → 
  ('(d0, binIdx, wordIdx) ← readLeading (MkDecimal (p - s) s 0 (negative d) (replicate 9 0)) (dec_body p s d) 0 ((p - s) mod 9)
     (Z.of_nat (d2b ((p - s) mod 9))) (if negative d then -1 else 0);
   '(d1, binIdx0, wordIdx0) ← readIntWords (Z.to_nat ((p - s) / 9)) d0 (dec_body p s d) binIdx wordIdx (if negative d then -1 else 0);
   '(d2, binIdx1, wordIdx1) ← readFracWords (Z.to_nat (s / 9)) d1 (dec_body p s d) binIdx0 wordIdx0 (if negative d then -1 else 0);
   readTrailing d2 (dec_body p s d) binIdx1 wordIdx1 (s mod 9) (if negative d then -1 else 0)) =
  Ok (MkDecimal (norm_int p s d) s 0 (negative d) (wordBuf (dec_norm p s d))).
Proof.
  intros Hd. pose proof (df_ok _ _ _ Hd) as Hok. destruct (df_type _ _ _ Hd) as (Hp & Hs & Hsp). pose proof (norm_top_fit p s d Hd) as Hfit.
  destruct (fits_room p s d Hd) as [Hr _]. destruct (fits_trailing p s d Hd) as (T1 & T2 & _). cbv zeta in T1, T2.
  destruct (parts_9 (p - s) ltac:(lia)) as (_ & _ & HN1 & _ & _).
  pose proof (readInt_ok d s (p - s) (frac_body d (Z.to_nat (s / 9)) (s mod 9)) Hok ltac:(lia) ltac:(lia)) as Eint. cbv zeta in Eint.
  rewrite <- (Z2Nat.id ((p - s) / 9) HN1) in Eint at 6. fold (dec_body p s d) in Eint.
  assert (Htop : (if digit d ((p - s) / 9) =? 0 then top_words d (Z.to_nat ((p - s) / 9)) else S (Z.to_nat ((p - s) / 9))) = norm_top p s d).
  { unfold norm_top. by rewrite Z2Nat.id. }
  rewrite Z2Nat.id in Eint by done. rewrite !Htop in Eint. fold (norm_int p s d) in Eint.
  destruct (readLeading _ _ _ _ _ _) as [[[d1 i1] x1]| | |]; try discriminate. osimpl in Eint. osimpl. rewrite Eint. osimpl.
  pose proof (readFrac_ok d (norm_int p s d) s (digits_from d (norm_top p s d) (Z.of_nat (norm_top p s d) - 1)) (int_body d (Z.to_nat ((p - s) / 9)) ((p - s) mod 9)) s []
    Hok ltac:(lia) ltac:(rewrite length_digits_from; lia) (conj T1 T2)) as Efrac.
  rewrite app_nil_r, length_digits_from in Efrac. fold (dec_body p s d) in Efrac. rewrite Efrac. unfold dec_norm. cbn [wordBuf].
  rewrite digits_from_app. replace (Z.of_nat (norm_top p s d) - 1 - Z.of_nat (norm_top p s d)) with (-1) by lia. done.
Qed.

Theorem FromBin_eq p s d r : dec_fits p s d → FromBin (dec_bytes p s d ++ r) p s = Ok (dec_norm p s d, Z.of_nat (length (dec_bytes p s d))).
Proof.
  intros Hd. pose proof (df_ok _ _ _ Hd) as Hok. destruct (df_type _ _ _ Hd) as (Hp & Hs & Hsp).
  destruct (dec_body_first p s d [] Hd) as (x & b & Eb & Hx). rewrite app_nil_r in Eb.
  assert (Hdb : dec_bytes p s d = Z.lxor x 128 :: b) by (unfold dec_bytes; by rewrite Eb). rewrite Hdb.
  destruct (fits_room p s d Hd) as [Hr Hz]. destruct (fits_trailing p s d Hd) as (T1 & T2 & _).
  destruct (parts_9 (p - s) ltac:(lia)) as (EN1 & EN2 & HN1 & HN2 & HN3). destruct (parts_9 s ltac:(lia)) as (Es1 & Es2 & Hs1 & Hs2 & Hs3).
  pose proof (length_dec_body p s d ltac:(lia)) as Hlen. pose proof (digitsToWords_range s ltac:(lia)) as [Hw0 Hw].
  pose proof (d2b_le ((p - s) mod 9) ltac:(lia)). pose proof (d2b_le (s mod 9) ltac:(lia)).
  cbn [app]. unfold FromBin. unfold digitsPerWord, wordSize. rewrite EN1, EN2, Es1, Es2. rewrite (DecimalBinSize_eq p s d) by lia. osimpl.
  assert (Hmask : (if 0 <? Z.land (Z.lxor x 128) 128 then 0 else -1) = (if negative d then -1 else 0)).
  { unfold sign_byte in Hx. rewrite lxor_128 by (destruct (negative d); lia). rewrite land_128 by (repeat case_match; lia).
    destruct (negative d); [rewrite (proj2 (Z.ltb_ge x 128)) by lia|rewrite (proj2 (Z.ltb_lt x 128)) by lia]; case_match; lia. }
  rewrite Hmask, Eb. rewrite (proj2 (Z.ltb_ge 40 _)) by (rewrite <- Eb, Hlen; unfold dsize; lia). osimpl. rewrite Nat2Z.id.
  change (Z.lxor x 128 :: b ++ r) with ((Z.lxor x 128 :: b) ++ r). rewrite <- app_assoc, take_app_length' by done.
  cbn [index lookup list_lookup]. osimpl. cbn [insert list_insert]. rewrite lxor_flip, <- Eb.
  assert (Hneg : negb ((if negative d then -1 else 0) =? 0) = negative d) by (by destruct (negative d)). rewrite Hneg.
  assert (Hfix : fixWordCntError (if 0 <? (p - s) mod 9 then (p - s) / 9 + 1 else (p - s) / 9) (if 0 <? s mod 9 then s / 9 + 1 else s / 9) =
    (if 0 <? (p - s) mod 9 then (p - s) / 9 + 1 else (p - s) / 9, if 0 <? s mod 9 then s / 9 + 1 else s / 9, None)).
  { unfold fixWordCntError, maxWordBufLen. rewrite (proj2 (Z.ltb_ge 9 _)); [done|]. destruct (Z.ltb_spec 0 ((p - s) mod 9)), (Z.ltb_spec 0 (s mod 9)); lia. }
  rewrite Hfix. cbv beta iota. rewrite d2b_index by lia. osimpl.
  assert (Hi8 : ∀ n, 0 ≤ n ≤ 100 → i8 n = n) by (intros; unfold i8; rewrite Z.mod_small; lia).
  replace ((p - s) / 9 * 9 + _) with (p - s) by lia. replace (s / 9 * 9 + _) with s by lia. rewrite !Hi8 by lia. pose proof (readBody_ok p s d Hd) as Erun.
  destruct (readLeading _ _ _ _ _ _) as [[[d1 i1] x1]| | |]; try discriminate. osimpl in Erun. osimpl.
  destruct (readIntWords _ _ _ _ _ _) as [[[d2 i2] x2]| | |]; try discriminate. osimpl in Erun. osimpl.
  destruct (readFracWords _ _ _ _ _ _) as [[[d3 i3] x3]| | |]; try discriminate. osimpl in Erun. osimpl. rewrite Erun. osimpl.
  rewrite Eb. do 2 f_equal. cbn [digitsInt digitsFrac negative wordBuf].
  destruct (Z.eqb_spec (norm_int p s d) 0) as [Hi|Hi]; [|done]. destruct (Z.eqb_spec s 0) as [Hs0|Hs0]; [|done]. cbn [andb].
  destruct (norm_zero p s d Hd Hi Hs0) as [Ht Hn]. unfold dec_norm. rewrite Hi, Hn, Ht, Hs0. done.
Qed.

(** ** The normal form *)

Lemma top_words_zero d n q : Z.of_nat (top_words d n) ≤ q → (∀ q, Z.of_nat n ≤ q → digit d q = 0) → digit d q = 0.
Proof. intros Hq Hz. destruct (Z.le_gt_cases (Z.of_nat n) q); [by apply Hz|]. apply (top_words_spec d n). lia. Qed.

Lemma norm_top_zero p s d q : dec_fits p s d → Z.of_nat (norm_top p s d) ≤ q → digit d q = 0.
Proof.
  intros Hd. destruct (fits_room p s d Hd) as [_ Hz]. destruct (df_type _ _ _ Hd) as (Hp & Hs & Hsp). pose proof (Z.div_pos (p - s) 9 ltac:(lia) ltac:(lia)).
  unfold norm_top. rewrite Z2Nat.id by done. destruct (Z.eqb_spec (digit d ((p - s) / 9)) 0) as [Hg|Hg]; intros Hq.
  - apply (top_words_zero d (Z.to_nat ((p - s) / 9))); [done|]. intros q' Hq'. destruct (decide (q' = (p - s) / 9)) as [->|]; [done|]. apply Hz. lia.
  - apply Hz. lia.
Qed.

Lemma norm_words p s d : dec_fits p s d → wordsInt (dec_norm p s d) = Z.of_nat (norm_top p s d) ∧ wordsFrac (dec_norm p s d) = digitsToWords s ∧ 0 ≤ norm_int p s d.
Proof.
  intros Hd. destruct (fits_room p s d Hd) as [Hr _]. destruct (df_type _ _ _ Hd) as (Hp & Hs & Hsp).
  destruct (parts_9 (p - s) ltac:(lia)) as (_ & _ & HN1 & HN2 & HN3). unfold wordsInt, wordsFrac. cbn [dec_norm digitsInt digitsFrac]. split_and!; [|done|unfold norm_int; case_match; lia].
  unfold norm_int, norm_top. rewrite Z2Nat.id by done. destruct (Z.eqb_spec (digit d ((p - s) / 9)) 0) as [Hg|Hg].
  { pose proof (digitsToWords_range (9 * Z.of_nat (top_words d (Z.to_nat ((p - s) / 9)))) ltac:(lia)). lia. }
  pose proof (digitsToWords_range (p - s) ltac:(lia)).
  assert ((p - s) mod 9 ≠ 0); [|lia]. intros HL. rewrite HL in Hr. simpl in Hr. lia.
Qed.

(** The normal form has the same digits, so the same value. *)
Lemma dec_norm_digit p s d q : dec_fits p s d → digit (dec_norm p s d) q = digit d q.
Proof.
  intros Hd. destruct (norm_words p s d Hd) as (HI & HF & _). destruct (df_type _ _ _ Hd) as (Hp & Hs & Hsp).
  pose proof (digitsToWords_range s ltac:(lia)) as [Hw0 Hw]. unfold digit at 1. rewrite HI, HF. case_match eqn:Hin.
  - apply andb_true_iff in Hin as [H1%Z.leb_le H2%Z.ltb_lt]. cbn [dec_norm wordBuf]. unfold pad_words.
    rewrite lookup_app_l by (rewrite length_digits_from; lia). rewrite digits_from_lookup by lia. simpl. f_equal. lia.
  - apply andb_false_iff in Hin as [H1%Z.leb_gt|H2%Z.ltb_ge]; symmetry.
    + apply digit_out. left. pose proof (df_scale _ _ _ Hd). pose proof (digitsToWords_range (digitsFrac d) (do_frac _ (df_ok _ _ _ Hd))). unfold wordsFrac. lia.
    + by apply (norm_top_zero p s).
Qed.

Lemma magnitude_ext a b : (∀ q, digit a q = digit b q) → magnitude a = magnitude b.
Proof. intros He. apply total_ext. intros. apply He. Qed.

Lemma dec_norm_value p s d : dec_fits p s d → value_of (dec_norm p s d) = value_of d.
Proof. intros Hd. unfold value_of. rewrite (magnitude_ext (dec_norm p s d) d) by (intros; by apply dec_norm_digit). done. Qed.

Lemma length_pad_words ws : (length ws ≤ 9)%nat → length (pad_words ws) = 9%nat.
Proof. intros. unfold pad_words. rewrite length_app, length_replicate. lia. Qed.

Lemma digits_from_ok d n : dec_ok d → ∀ pos, Forall word_ok (digits_from d n pos).
Proof.
  intros Hd. induction n as [|n IH]; intros pos; [apply Forall_nil_2|]. apply Forall_cons. split; [by apply digit_ok|apply IH].
Qed.

Lemma dec_norm_fits p s d : dec_fits p s d → dec_fits p s (dec_norm p s d).
Proof.
  intros Hd. pose proof (df_ok _ _ _ Hd) as Hok. destruct (norm_words p s d Hd) as (HI & HF & Hn0). destruct (df_type _ _ _ Hd) as (Hp & Hs & Hsp).
  pose proof (norm_top_fit p s d Hd) as Hfit. pose proof (digitsToWords_range s ltac:(lia)) as [Hw0 Hw].
  pose proof (magnitude_ext (dec_norm p s d) d (λ q, dec_norm_digit p s d q Hd)) as Hm.
  destruct (parts_9 (p - s) ltac:(lia)) as (_ & _ & HN1 & HN2 & HN3).
  split; [split| | | | | |]; rewrite ?HI, ?HF, ?Hm, ?dec_norm_digit by done; cbn [dec_norm wordBuf digitsInt digitsFrac resultFrac negative]; try done; try lia.
  - rewrite length_pad_words; [done|]. rewrite length_digits_from. lia.
  - apply Forall_app. split; [|apply Forall_replicate; unfold word_ok, wordBase; lia]. by apply digits_from_ok.
  - apply (do_neg d Hok).
  - destruct (fits_room p s d Hd) as [Hr _]. unfold norm_int, norm_top. rewrite Z2Nat.id by done. destruct (Z.eqb_spec (digit d ((p - s) / 9)) 0) as [Hg|Hg].
    + replace (9 * _ - 9 * _) with 9 by lia. by apply digit_ok.
    + replace (Z.of_nat (S _) - 1) with ((p - s) / 9) by lia. replace (p - s - 9 * ((p - s) / 9)) with ((p - s) mod 9) by lia. apply Hr.
  - destruct (fits_trailing p s d Hd) as (T1 & _ & T3). cbv zeta in T1. destruct (parts_9 s ltac:(lia)) as (_ & _ & Hs1 & Hs2 & Hs3).
    destruct (decide (s mod 9 = 0)) as [HT|HT].
    + replace (9 * digitsToWords s - s) with 0 by lia. apply Z.divide_1_l.
    + replace (- digitsToWords s) with (- (s / 9) - 1) by lia. replace (9 * digitsToWords s - s) with (9 - s mod 9) by lia. eexists. exact T1.
  - apply (df_size _ _ _ Hd).
Qed.

(** It depends on nothing but the digits and the sign. *)
Lemma dec_norm_ext p s a b : (∀ q, digit a q = digit b q) → negative a = negative b → dec_norm p s a = dec_norm p s b.
Proof.
  intros He Hn. assert (Ht : norm_top p s a = norm_top p s b) by (unfold norm_top; by rewrite He, (top_words_ext a b _ He)).
  unfold dec_norm, norm_int. by rewrite Ht, He, Hn, (digits_from_ext a b _ He).
Qed.

Lemma dec_norm_idem p s d : dec_fits p s d → dec_norm p s (dec_norm p s d) = dec_norm p s d.
Proof. intros Hd. apply dec_norm_ext; [|done]. intros. by apply dec_norm_digit. Qed.

(** ** Encode and decode *)

Lemma length_dec_bytes p s d : length (dec_bytes p s d) = length (dec_body p s d).
Proof. unfold dec_bytes. by destruct (dec_body p s d). Qed.

Lemma length_dec_body_eq p s d : length (dec_body p s d) = bin_size p s.
Proof. unfold bin_size, dec_body. by rewrite !length_app, !length_int_body, !length_frac_body. Qed.

Lemma dec_bytes_ok p s d : dec_fits p s d → bytes_ok (dec_bytes p s d).
Proof.
  intros Hd. destruct (dec_body_first p s d [] Hd) as (x & r & E & Hx). rewrite app_nil_r in E.
  assert (Hb : bytes_ok (dec_body p s d)).
  { assert (Hg : ∀ n pos, bytes_ok (groups d n pos)) by (induction n as [|n IH]; intros pos; [apply Forall_nil_2|apply bytes_ok_app; split; [apply be_bytes_ok|apply IH]]).
    unfold dec_body, int_body, frac_body. rewrite !bytes_ok_app. split_and!; try apply Hg; apply be_bytes_ok. }
  unfold dec_bytes. rewrite E in *. inv Hb. constructor; [|done]. unfold sign_byte in Hx. rewrite lxor_128 by (destruct (negative d); lia).
  unfold byte_ok. destruct (negative d); case_match; lia.
Qed.

Lemma Encode_eq d buf p s : dec_fits p s d → Encode d buf p s = Ok (buf ++ dec_bytes p s d).
Proof. intros Hd. unfold Encode. by rewrite (WriteBin_eq p s d buf Hd). Qed.

Lemma Decode_app pre d r p s off : dec_fits p s d → off = length pre →
  Decode (pre ++ dec_bytes p s d ++ r) off p s = Ok (dec_norm p s d, (off + length (dec_bytes p s d))%nat).
Proof.
  intros Hd ->. unfold Decode. rewrite slice_from_ok by (rewrite length_app; lia). osimpl. rewrite drop_app_length, FromBin_eq by done. osimpl. by rewrite Nat2Z.id.
Qed.

(** [dec_fits] as a test. *)
Definition dec_fitsb (p s : Z) (d : MyDecimal) : bool :=
  dec_okb d && ((1 <=? p) && (p <=? 65) && (0 <=? s) && (s <=? 30) && (s <=? p)) &&
  (digit d (wordsInt d - 1) <? 10 ^ (digitsInt d - 9 * (wordsInt d - 1))) &&
  (digit d (- wordsFrac d) mod 10 ^ (9 * wordsFrac d - digitsFrac d) =? 0) && (digitsFrac d <=? s) &&
  (magnitude d <? 10 ^ (81 + p - s)) && negb ((s mod 9 =? 0) && (s - 2 <=? digitsFrac d) && (digitsFrac d <? s)).

Lemma dec_fitsb_ok p s d : dec_fitsb p s d = true → dec_fits p s d.
Proof.
  unfold dec_fitsb. rewrite !andb_true_iff, negb_true_iff, !Z.leb_le, !Z.ltb_lt, Z.eqb_eq.
  intros ((((((H1 & ((((Ha & Hb) & Hc) & Hd) & He)) & H3) & H4) & H5) & H6) & H7). apply dec_okb_ok in H1 as Hok.
  split; [done|lia|done| |done|done|].
  - apply Z.mod_divide; [|done]. apply Z.pow_nonzero; [lia|]. pose proof (digitsToWords_range _ (do_frac d Hok)). unfold wordsFrac. lia.
  - rewrite !andb_false_iff, Z.eqb_neq, Z.leb_gt, Z.ltb_ge in H7. lia.
Qed.

(** 1234567890.1234 and -1234567890.1234 as decimal(14, 4). *)
Lemma dec_fits_example : dec_fits 14 4 dec_1234567890_1234 ∧ dec_fits 14 4 dec_neg_1234567890_1234.
Proof. split; apply dec_fitsb_ok; vm_compute; reflexivity. Qed.

(** 0.1234567 has two fraction digits less than decimal(18, 9) holds, and is refused. *)
Example Encode_short_fraction :
  Encode (MkDecimal 0 7 7 false [123456700; 0; 0; 0; 0; 0; 0; 0; 0]) [] 18 9 = Err ErrTruncated ∧
  Encode (MkDecimal 0 6 6 false [123456000; 0; 0; 0; 0; 0; 0; 0; 0]) [] 18 9 = Ok [128; 0; 0; 0; 7; 91; 202; 0].
Proof. split; vm_compute; reflexivity. Qed.
