(* ===== verification/Rows.v ===== *)
(** * Column types, values and row sets

    Models the [Type] and [ColumnType] declarations of common/meta.go and the row
    containers [Row], [Rows] and [Key] of common/rows.go.

    A [Rows] is a chunk: one list of cells per column. A cell is [None] when the
    null bit says so and a value of the column's type otherwise. A getter of the
    wrong type, or a getter on a null cell, reinterprets whatever bytes the column
    holds; the model gives it no value ([Undef]). *)

From stdpp Require Import base list strings.
From Stdlib Require Import ZArith Lia.
From S2P Require Import Prelude Encoding Timestamp Decimal.

Inductive Type_ :=
  | TypeUnknown | TypeTinyInt | TypeInt | TypeBigInt | TypeDouble | TypeDecimal | TypeVarchar | TypeTimestamp.

#[global] Instance Type_eq_dec : EqDecision Type_.
Proof. solve_decision. Defined.

Record ColumnType := MkColumnType {
  Type' : Type_;
  DecPrecision : Z;
  DecScale : Z;
  FSP : Z
}.

#[global] Instance ColumnType_eq_dec : EqDecision ColumnType.
Proof. solve_decision. Defined.

Definition TinyIntColumnType : ColumnType := MkColumnType TypeTinyInt 0 0 0.
Definition IntColumnType : ColumnType := MkColumnType TypeInt 0 0 0.
Definition BigIntColumnType : ColumnType := MkColumnType TypeBigInt 0 0 0.
Definition DoubleColumnType : ColumnType := MkColumnType TypeDouble 0 0 0.
Definition VarcharColumnType : ColumnType := MkColumnType TypeVarchar 0 0 0.
Definition TimestampColumnType : ColumnType := MkColumnType TypeTimestamp 0 0 0.
Definition UnknownColumnType : ColumnType := MkColumnType TypeUnknown 0 0 0.
Definition NewDecimalColumnType (precision scale : Z) : ColumnType := MkColumnType TypeDecimal precision scale 0.
Definition NewTimestampColumnType (fsp : Z) : ColumnType := MkColumnType TypeTimestamp 0 0 fsp.

(** The dynamic types a value can have. *)
Inductive value :=
  | VInt (v : Z)
  | VFloat (v : float64)
  | VDecimal (v : Decimal)
  | VString (v : bytes)
  | VTimestamp (v : Timestamp).

#[global] Instance value_eq_dec : EqDecision value.
Proof. solve_decision. Defined.

Abbreviation cell := (option value) (only parsing).
(** [[]interface{}], [nil] being [None]. *)
Abbreviation Key := (list (option value)) (only parsing).
Abbreviation Row := (list (option value)) (only parsing).

Record Rows := MkRows {
  columnTypes : list ColumnType;
  columns : list (list (option value));
  numVirtualRows : nat
}.

Definition NewRows (colTypes : list ColumnType) : Rows :=
  MkRows colTypes (replicate (length colTypes) []) 0.

Definition RowCount (r : Rows) : nat :=
  match columns r with
  | [] => numVirtualRows r
  | c :: _ => length c
  end.

(** A [Row] points into its chunk; here it is the cells it points to. *)
Definition GetRow (r : Rows) (rowIndex : nat) : outcome Row :=
  mapM_o (λ c, index c rowIndex) (columns r).

Definition appendCell (cols : list (list (option value))) (colIndex : nat) (c : option value) :
    outcome (list (list (option value))) :=
  col ← index cols colIndex;
  Ok (<[colIndex := col ++ [c]]> cols).

Definition appendToColumn (r : Rows) (colIndex : nat) (c : option value) : outcome Rows :=
  cols ← appendCell (columns r) colIndex c;
  Ok (MkRows (columnTypes r) cols (numVirtualRows r)).

Definition AppendRow (r : Rows) (row : Row) : outcome Rows :=
  cols ← foldMi (λ i cols c, appendCell cols i c) 0 (columns r) row;
  Ok (MkRows (columnTypes r) cols (S (numVirtualRows r))).

Definition AppendInt64ToColumn (r : Rows) (colIndex : nat) (val : Z) := appendToColumn r colIndex (Some (VInt val)).
Definition AppendFloat64ToColumn (r : Rows) (colIndex : nat) (val : float64) := appendToColumn r colIndex (Some (VFloat val)).
Definition AppendDecimalToColumn (r : Rows) (colIndex : nat) (val : Decimal) := appendToColumn r colIndex (Some (VDecimal val)).
Definition AppendStringToColumn (r : Rows) (colIndex : nat) (val : bytes) := appendToColumn r colIndex (Some (VString val)).
Definition AppendTimestampToColumn (r : Rows) (colIndex : nat) (val : Timestamp) := appendToColumn r colIndex (Some (VTimestamp val)).
Definition AppendNullToColumn (r : Rows) (colIndex : nat) := appendToColumn r colIndex None.

Definition IsNull (row : Row) (colIndex : nat) : outcome bool :=
  c ← index row colIndex;
  Ok (match c with None => true | Some _ => false end).
Definition GetInt64 (row : Row) (colIndex : nat) : outcome Z :=
  c ← index row colIndex;
  match c with Some (VInt v) => Ok v | _ => Undef end.
Definition GetFloat64 (row : Row) (colIndex : nat) : outcome float64 :=
  c ← index row colIndex;
  match c with Some (VFloat v) => Ok v | _ => Undef end.
Definition GetDecimal (row : Row) (colIndex : nat) : outcome Decimal :=
  c ← index row colIndex;
  match c with Some (VDecimal v) => Ok v | _ => Undef end.
Definition GetString (row : Row) (colIndex : nat) : outcome bytes :=
  c ← index row colIndex;
  match c with Some (VString v) => Ok v | _ => Undef end.
Definition GetTimestamp (row : Row) (colIndex : nat) : outcome Timestamp :=
  c ← index row colIndex;
  match c with Some (VTimestamp v) => Ok v | _ => Undef end.

(** [AppendAll]: the rows of [other] one by one. *)
Definition AppendAll (r other : Rows) : outcome Rows :=
  foldM (λ r i, row ← GetRow other i; AppendRow r row) r (seq 0 (RowCount other)).

(** ** The list of rows a row set holds *)

(** Every column has the same number of cells. *)
Definition rectangular (r : Rows) : Prop :=
  Forall (λ c, length c = RowCount r) (columns r).

Definition rows_list (r : Rows) : list Row :=
  map (λ i, map (λ c, default None (c !! i)) (columns r)) (seq 0 (RowCount r)).

(** A row set of the given rows. *)
Definition rows_of (colTypes : list ColumnType) (rws : list Row) : outcome Rows :=
  foldM AppendRow (NewRows colTypes) rws.

(** [r] holds exactly the rows [rws], in order. *)
Definition rows_rep (r : Rows) (rws : list Row) : Prop :=
  columns r = map (λ j, map (λ row : Row, default None (row !! j)) rws) (seq 0 (length (columnTypes r))) ∧
  Forall (λ row : Row, length row = length (columnTypes r)) rws.

(** ** Lemmas *)

Lemma IsNull_eq row i c : row !! i = Some c → IsNull row i = Ok (match c with None => true | Some _ => false end).
Proof. intros H. unfold IsNull. by rewrite (index_ok _ _ _ H). Qed.

Lemma appendCell_mid pre c post i x :
  i = length pre → appendCell (pre ++ c :: post) i x = Ok (pre ++ (c ++ [x]) :: post).
Proof.
  intros ->. unfold appendCell. rewrite index_app_mid by done. osimpl.
  rewrite insert_app_r_alt by lia. by rewrite Nat.sub_diag.
Qed.

(** One cell appended to every column. *)
Lemma append_cells_ok row : ∀ pre cols i,
  i = length pre → length row = length cols →
  foldMi (λ i cols c, appendCell cols i c) i (pre ++ cols) row =
    Ok (pre ++ zip_with (λ c x, c ++ [x]) cols row).
Proof.
  induction row as [|x row IH]; intros pre [|c cols] i Hi Hl; simplify_eq/=; [done|].
  rewrite appendCell_mid by done. osimpl.
  replace (pre ++ (c ++ [x]) :: cols) with ((pre ++ [c ++ [x]]) ++ cols) by by rewrite <- app_assoc.
  rewrite IH by (rewrite ?length_app; simpl; lia). by rewrite <- app_assoc.
Qed.

(** The columns after one more row. *)
Lemma columns_snoc (rws : list Row) (row : Row) n :
  length row = n →
  zip_with (λ c x, c ++ [x]) (map (λ j, map (λ row : Row, default None (row !! j)) rws) (seq 0 n)) row =
  map (λ j, map (λ row : Row, default None (row !! j)) (rws ++ [row])) (seq 0 n).
Proof.
  intros Hl. apply list_eq. intros i.
  rewrite lookup_zip_with, !list_lookup_fmap.
  destruct (decide (i < n)%nat) as [Hi|Hi].
  - rewrite !lookup_seq_lt by done. simpl.
    destruct (lookup_lt_is_Some_2 row i) as [x Hx]; [lia|]. rewrite Hx. simpl.
    by rewrite map_app; simpl; rewrite Hx.
  - by rewrite !lookup_seq_ge by lia.
Qed.

Lemma NewRows_rep cts : rows_rep (NewRows cts) [].
Proof.
  split; [|done]. simpl. by rewrite const_fmap with (y := []), length_seq by done.
Qed.

Lemma length_rep_columns r rws : rows_rep r rws → length (columns r) = length (columnTypes r).
Proof. intros [-> _]. by rewrite length_map, length_seq. Qed.

(** The cells of one row appended column by column, as the decoders do. *)
Lemma rep_append_cells r rws row :
  rows_rep r rws → length row = length (columnTypes r) →
  ∃ cols, foldMi (λ i cols c, appendCell cols i c) 0 (columns r) row = Ok cols ∧
    ∀ n, rows_rep (MkRows (columnTypes r) cols n) (rws ++ [row]).
Proof.
  intros Hr Hl. pose proof (length_rep_columns _ _ Hr) as Hc. destruct Hr as [Hcol Hall].
  eexists; split.
  - change (columns r) with ([] ++ columns r). apply append_cells_ok; [done|lia].
  - intros n. split; simpl.
    + by rewrite Hcol, columns_snoc.
    + apply Forall_app; split; [done|]. by apply Forall_singleton.
Qed.

Lemma AppendRow_rep r rws row :
  rows_rep r rws → length row = length (columnTypes r) →
  ∃ r', AppendRow r row = Ok r' ∧ columnTypes r' = columnTypes r ∧ rows_rep r' (rws ++ [row]).
Proof.
  intros Hr Hl. destruct (rep_append_cells _ _ _ Hr Hl) as (cols & Hf & Hrep).
  unfold AppendRow. rewrite Hf. osimpl. by eexists.
Qed.

Lemma rep_RowCount r rws : rows_rep r rws → columnTypes r ≠ [] → RowCount r = length rws.
Proof.
  intros [Hcol _] Hne. unfold RowCount. rewrite Hcol.
  destruct (columnTypes r); [done|]. simpl. by rewrite length_map.
Qed.

Lemma rep_GetRow r rws i row : rows_rep r rws → rws !! i = Some row → GetRow r i = Ok row.
Proof.
  intros [Hcol Hall] Hi. unfold GetRow.
  rewrite mapM_o_ok with (g := λ c, default None (c !! i)).
  - f_equal. rewrite Hcol, map_map. rewrite Forall_lookup in Hall. specialize (Hall _ _ Hi).
    apply list_eq. intros j. rewrite list_lookup_fmap. destruct (decide (j < length (columnTypes r))%nat).
    + rewrite lookup_seq_lt by done. simpl. rewrite list_lookup_fmap, Hi. simpl.
      by destruct (lookup_lt_is_Some_2 row j) as [x ->]; [lia|].
    + rewrite lookup_seq_ge by lia. simpl. symmetry. apply lookup_ge_None. lia.
  - rewrite Hcol. intros c (j & -> & _)%list_elem_of_fmap.
    apply index_ok. by rewrite list_lookup_fmap, Hi.
Qed.
