(* ===== verification/KeyEncoding.v ===== *)
(** * Key encoding

    Models common/key_encoding.go and common/string_key_encoding.go: the
    memory-comparable encoding of column values in primary keys and index keys,
    and its decoder.

    [OrderedCode] is what the tables, the index readers and the range scans rely
    on: comparing two encodings byte by byte, whatever follows them, compares the
    values. Each encoder is an instance, and so are the composites built from
    them. *)

From stdpp Require Import base list strings.
From Stdlib Require Import ZArith Lia.
From S2P Require Import Prelude Encoding Timestamp Decimal DecimalArith DecimalBin Rows.

(** ** Integers *)

Definition SignBitMask : Z := two63.

Definition KeyEncodeInt64 (buffer : bytes) (val : Z) : bytes :=
  let uVal := Z.lxor (u64 val) SignBitMask in
  AppendUint64ToBufferBE buffer uVal.

Definition KeyDecodeInt64 (buffer : bytes) (offset : nat) : outcome (Z * nat) :=
  '(u, offset) ← ReadUint64FromBufferBE buffer offset;
  Ok (i64 (Z.lxor u SignBitMask), offset).

(** ** Floats *)

(** The parts of an IEEE 754 double. *)
Definition float_sign (f : float64) : bool := SignBitMask <=? Float64bits f.
Definition float_magnitude (f : float64) : Z := Float64bits f mod SignBitMask.
(** Exponent all ones and a non-zero fraction. *)
Definition isNaN (f : float64) : bool := 9218868437227405312 <? float_magnitude f.
(** Finite doubles and infinities are ordered as their magnitude bits with the
    sign applied; the two zeros are equal. *)
Definition float_rank (f : float64) : Z := if float_sign f then - float_magnitude f else float_magnitude f.
(** [val >= 0] is false for a NaN. *)
Definition float_ge0 (f : float64) : bool := negb (isNaN f) && (0 <=? float_rank f).
Definition float_compare (f g : float64) : comparison := Z.compare (float_rank f) (float_rank g).

Definition KeyEncodeFloat64 (buffer : bytes) (val : float64) : bytes :=
  let uVal := Float64bits val in
  let uVal := if float_ge0 val then Z.lor uVal SignBitMask else u64 (Z.lnot uVal) in
  AppendUint64ToBufferBE buffer uVal.

Definition KeyDecodeFloat64 (buffer : bytes) (offset : nat) : outcome (float64 * nat) :=
  '(u, offset) ← ReadUint64FromBufferBE buffer offset;
  let u := if Z.land u SignBitMask =? SignBitMask then Z.land u (u64 (Z.lnot SignBitMask)) else u64 (Z.lnot u) in
  Ok (Float64frombits u, offset).

(** ** Strings *)

Definition encGroupSize : nat := 8.
Definition encMarker : Z := 255.
Definition encPad : Z := 0.
Definition stringKeyEncodingPads : bytes := replicate encGroupSize 0.

(** [for idx := 0; idx <= dLen; idx += encGroupSize]: at most [dLen + 1] rounds. *)
Fixpoint KeyEncodeString_loop (fuel idx : nat) (data buff : bytes) : outcome bytes :=
  match fuel with
  | O => Ok buff
  | S fuel' =>
      let dLen := length data in
      if decide (idx ≤ dLen)%nat then
        let remain := (dLen - idx)%nat in
        '(buff, padCount) ←
          (if decide (encGroupSize ≤ remain)%nat then
             g ← slice data idx (idx + encGroupSize);
             Ok (buff ++ g, 0%nat)
           else
             let padCount := (encGroupSize - remain)%nat in
             g ← slice_from data idx;
             pads ← slice stringKeyEncodingPads 0 padCount;
             Ok (buff ++ g ++ pads, padCount));
        let marker := u8 (encMarker - Z.of_nat padCount) in
        KeyEncodeString_loop fuel' (idx + encGroupSize) data (buff ++ [marker])
      else Ok buff
  end.

Definition KeyEncodeString (buff val : bytes) : outcome bytes :=
  KeyEncodeString_loop (S (length val)) 0 val buff.

(** Each round of the decoder consumes nine bytes of the buffer. *)
Fixpoint KeyDecodeString_loop (fuel : nat) (buffer : bytes) (offset : nat) (res : bytes) : outcome (bytes * nat) :=
  match fuel with
  | O => Err "insufficient bytes to decode value"
  | S fuel' =>
      if decide (length buffer < encGroupSize + 1)%nat then Err "insufficient bytes to decode value"
      else
        groupBytes ← slice buffer 0 (encGroupSize + 1);
        group ← slice groupBytes 0 encGroupSize;
        marker ← index groupBytes encGroupSize;
        let padCount := u8 (encMarker - marker) in
        if Z.of_nat encGroupSize <? padCount then Err "invalid marker byte"
        else
          let realGroupSize := (encGroupSize - Z.to_nat padCount)%nat in
          real ← slice group 0 realGroupSize;
          let res := res ++ real in
          rest ← slice_from buffer (encGroupSize + 1);
          let offset := (offset + (encGroupSize + 1))%nat in
          if negb (padCount =? 0) then
            pads ← slice_from group realGroupSize;
            if forallb (λ v, v =? encPad) pads then Ok (res, offset) else Err "invalid padding byte"
          else KeyDecodeString_loop fuel' rest offset res
  end.

Definition KeyDecodeString (buffer : bytes) (offset : nat) : outcome (bytes * nat) :=
  b ← (if decide (offset = 0)%nat then Ok buffer else slice_from buffer offset);
  KeyDecodeString_loop (S (length b)) b offset [].

(** ** Key elements and columns *)

Definition EncodeKeyElement (v : option value) (colType : ColumnType) (buffer : bytes) : outcome bytes :=
  match Type' colType with
  | TypeTinyInt | TypeInt | TypeBigInt =>
      match v with
      | Some (VInt valInt64) => Ok (KeyEncodeInt64 buffer valInt64)
      | _ => Err "expected to be int64"
      end
  | TypeDecimal =>
      match v with
      | Some (VDecimal valDec) => KeyEncodeDecimal buffer valDec (DecPrecision colType) (DecScale colType)
      | _ => Err "expected to be Decimal"
      end
  | TypeDouble =>
      match v with
      | Some (VFloat valFloat64) => Ok (KeyEncodeFloat64 buffer valFloat64)
      | _ => Err "expected to be float64"
      end
  | TypeVarchar =>
      match v with
      | Some (VString valString) => KeyEncodeString buffer valString
      | _ => Err "expected to be string"
      end
  | TypeTimestamp =>
      match v with
      | Some (VTimestamp valTime) => KeyEncodeTimestamp buffer valTime
      | _ => Err "expected to be Timestamp"
      end
  | TypeUnknown => Err "unexpected column type"
  end.

Definition EncodeKey (key : Key) (colTypes : list ColumnType) (keyColIndexes : list nat) (buffer : bytes) : outcome bytes :=
  foldMi (λ i buffer v,
      ci ← index keyColIndexes i;
      colType ← index colTypes ci;
      EncodeKeyElement v colType buffer) 0 buffer key.

Definition EncodeKeyCol (row : Row) (colIndex : nat) (colType : ColumnType) (buffer : bytes) : outcome bytes :=
  match Type' colType with
  | TypeTinyInt | TypeInt | TypeBigInt =>
      valInt64 ← GetInt64 row colIndex; Ok (KeyEncodeInt64 buffer valInt64)
  | TypeDecimal =>
      valDec ← GetDecimal row colIndex;
      KeyEncodeDecimal buffer valDec (DecPrecision colType) (DecScale colType)
  | TypeDouble => valFloat64 ← GetFloat64 row colIndex; Ok (KeyEncodeFloat64 buffer valFloat64)
  | TypeVarchar => valString ← GetString row colIndex; KeyEncodeString buffer valString
  | TypeTimestamp => valTime ← GetTimestamp row colIndex; KeyEncodeTimestamp buffer valTime
  | TypeUnknown => Err "unexpected column type"
  end.

Definition EncodeKeyCols (row : Row) (colIndexes : list nat) (colTypes : list ColumnType) (buffer : bytes) : outcome bytes :=
  foldM (λ buffer colIndex,
      colType ← index colTypes colIndex;
      EncodeKeyCol row colIndex colType buffer) buffer colIndexes.

Definition EncodeIndexKeyCols (row : Row) (colIndexes : list nat) (colTypes : list ColumnType) (buffer : bytes) : outcome bytes :=
  foldM (λ buffer colIndex,
      colType ← index colTypes colIndex;
      isNull ← IsNull row colIndex;
      if isNull : bool then Ok (buffer ++ [0])
      else EncodeKeyCol row colIndex colType (buffer ++ [1])) buffer colIndexes.

(** [rows.Append...ToColumn] unless the output column is -1 ([None]). *)
Definition appendOut (rows : Rows) (outputColIndex : option nat) (c : option value) : outcome Rows :=
  match outputColIndex with
  | Some i => appendToColumn rows i c
  | None => Ok rows
  end.

Definition DecodeIndexOrPKCol (buffer : bytes) (offset : nat) (colType : ColumnType)
    (outputColIndex : option nat) (pkCol : bool) (rows : Rows) : outcome (Rows * nat) :=
  '(isNull, offset) ←
    (if pkCol then Ok (false, offset)
     else b ← index buffer offset; Ok (b =? 0, S offset));
  if isNull : bool then rows ← appendOut rows outputColIndex None; Ok (rows, offset)
  else
    match Type' colType with
    | TypeTinyInt | TypeInt | TypeBigInt =>
        '(u, offset) ← KeyDecodeInt64 buffer offset;
        rows ← appendOut rows outputColIndex (Some (VInt u)); Ok (rows, offset)
    | TypeDecimal =>
        '(val, offset) ← KeyDecodeDecimal buffer offset (DecPrecision colType) (DecScale colType);
        rows ← appendOut rows outputColIndex (Some (VDecimal val)); Ok (rows, offset)
    | TypeDouble =>
        '(f, offset) ← KeyDecodeFloat64 buffer offset;
        rows ← appendOut rows outputColIndex (Some (VFloat f)); Ok (rows, offset)
    | TypeVarchar =>
        '(val, offset) ← KeyDecodeString buffer offset;
        rows ← appendOut rows outputColIndex (Some (VString val)); Ok (rows, offset)
    | TypeTimestamp =>
        '(val, offset) ← KeyDecodeTimestamp buffer offset (FSP colType);
        rows ← appendOut rows outputColIndex (Some (VTimestamp val)); Ok (rows, offset)
    | TypeUnknown => Err "unexpected column type"
    end.

Definition DecodeIndexOrPKCols (buffer : bytes) (offset : nat) (pk : bool) (indexOrPKColTypes : list ColumnType)
    (indexOrPKOutputCols : list (option nat)) (rows : Rows) : outcome (Rows * nat) :=
  foldMi (λ i '(rows, offset) outputCol,
      colType ← index indexOrPKColTypes i;
      DecodeIndexOrPKCol buffer offset colType outputCol pk rows) 0 (rows, offset) indexOrPKOutputCols.

(** ** Order-preserving codes *)

Definition lex (c d : comparison) : comparison := match c with Eq => d | Lt => Lt | Gt => Gt end.

(** On values of [dom], encodings compare as the values do, whatever follows them:
    in particular no encoding is a prefix of another one. *)
Class OrderedCode {A} (dom : A → Prop) (enc : A → bytes) (cmp : A → A → comparison) : Prop :=
  ordered_code : ∀ a b s t, dom a → dom b →
    bytes_cmp (enc a ++ s) (enc b ++ t) = lex (cmp a b) (bytes_cmp s t).

(** The encoded groups of a string. *)
Fixpoint str_groups (fuel : nat) (data : bytes) : bytes :=
  match fuel with
  | O => []
  | S fuel' =>
      take 8 (data ++ replicate 8 0) ++ [255 - (8 - Z.of_nat (min 8 (length data)))] ++
      (if decide (8 ≤ length data)%nat then str_groups fuel' (drop 8 data) else [])
  end.
Definition str_bytes (data : bytes) : bytes := str_groups (S (length data)) data.

Definition int64_bytes (v : Z) : bytes := be_bytes 8 (v + two63).
Definition float64_key (f : float64) : Z :=
  if float_ge0 f then float_magnitude f + two63 else two64 - 1 - Float64bits f.
Definition float64_bytes (f : float64) : bytes := be_bytes 8 (float64_key f).
Definition timestamp_bytes (t : Time) : bytes := be_bytes 8 (pack (coreTime t)).

Definition float_ok (f : float64) : Prop := u64_ok (Float64bits f) ∧ isNaN f = false.

(** ** Integers *)

Lemma land_low_sign u : Z.land (u mod two63) SignBitMask = 0.
Proof.
  unfold SignBitMask. change two63 with (2 ^ 63). apply Z.bits_inj'. intros n Hn.
  rewrite Z.land_spec, Z.bits_0. destruct (Z.eq_dec n 63) as [->|].
  - rewrite Z.mod_pow2_bits_high by lia. done.
  - rewrite Z.pow2_bits_false by lia. apply andb_false_r.
Qed.

Lemma u64_split u : u64_ok u → u < two63 ∧ u = u mod two63 ∨ two63 ≤ u ∧ u = u mod two63 + SignBitMask.
Proof.
  unfold u64_ok, SignBitMask. intros. destruct (Z.lt_ge_cases u two63); [left|right]; (split; [done|]);
    Z.to_euclidean_division_equations; lia.
Qed.

Lemma lxor_sign u : u64_ok u → Z.lxor u SignBitMask = (u + two63) mod two64.
Proof.
  intros Hu. pose proof (land_low_sign u) as Hlow. destruct (u64_split u Hu) as [[_ E]|[_ E]].
  - rewrite E at 1. rewrite <- Z.add_nocarry_lxor by done. unfold SignBitMask.
    rewrite <- E, Z.mod_small; unfold u64_ok in Hu; [done|]. Z.to_euclidean_division_equations; lia.
  - rewrite E at 1. rewrite Z.add_nocarry_lxor by done.
    rewrite Z.lxor_assoc, Z.lxor_nilpotent, Z.lxor_0_r.
    unfold u64_ok, SignBitMask in *. Z.to_euclidean_division_equations; lia.
Qed.

Lemma lor_sign u : u64_ok u → Z.lor u SignBitMask = u mod two63 + two63.
Proof.
  intros Hu. pose proof (land_low_sign u) as Hlow. destruct (u64_split u Hu) as [[_ E]|[_ E]].
  - rewrite E at 1. by rewrite <- Z.lxor_lor, <- Z.add_nocarry_lxor.
  - rewrite E at 1. rewrite Z.add_nocarry_lxor, Z.lxor_lor by done.
    by rewrite <- Z.lor_assoc, Z.lor_diag, <- Z.lxor_lor, <- Z.add_nocarry_lxor.
Qed.

Lemma land_sign u : u64_ok u → (Z.land u SignBitMask =? SignBitMask) = (two63 <=? u).
Proof.
  intros Hu. pose proof (land_low_sign u) as Hlow. destruct (u64_split u Hu) as [[? E]|[? E]].
  - rewrite E at 1. rewrite Hlow. symmetry. by apply Z.leb_gt.
  - rewrite E at 1. rewrite Z.add_nocarry_lxor, Z.lxor_lor by done.
    rewrite Z.land_lor_distr_l, Hlow, Z.land_diag. simpl. symmetry. apply Z.leb_le. lia.
Qed.

Lemma KeyEncodeInt64_eq b v : i64_ok v → KeyEncodeInt64 b v = b ++ int64_bytes v.
Proof.
  intros Hv. unfold KeyEncodeInt64, int64_bytes. rewrite AppendUint64ToBufferBE_eq, lxor_sign by apply u64_range.
  f_equal. f_equal. unfold_width. Z.to_euclidean_division_equations; lia.
Qed.

Lemma KeyDecodeInt64_app p v s off :
  i64_ok v → off = length p → KeyDecodeInt64 (p ++ int64_bytes v ++ s) off = Ok (v, off + 8)%nat.
Proof.
  intros Hv ->. unfold KeyDecodeInt64, int64_bytes. rewrite ReadUint64BE_app by (unfold_width; lia || done).
  osimpl. rewrite lxor_sign by (unfold_width; lia). do 2 f_equal.
  unfold_width. Z.to_euclidean_division_equations; lia.
Qed.

#[global] Instance int64_code : OrderedCode i64_ok int64_bytes Z.compare.
Proof.
  intros a b s t Ha Hb. unfold int64_bytes. rewrite bytes_cmp_be_bytes by (unfold_width; lia).
  unfold lex. by rewrite !(Z.add_comm _ two63), Z.add_compare_mono_l.
Qed.

(** ** Floats *)

Lemma float_parts f :
  u64_ok (Float64bits f) →
  0 ≤ float_magnitude f < two63 ∧
  Float64bits f = if float_sign f then float_magnitude f + two63 else float_magnitude f.
Proof.
  intros Hf. unfold float_sign, float_magnitude, SignBitMask.
  destruct (Z.leb_spec two63 (Float64bits f)); unfold_width; Z.to_euclidean_division_equations; lia.
Qed.

Lemma KeyEncodeFloat64_eq b f : u64_ok (Float64bits f) → KeyEncodeFloat64 b f = b ++ float64_bytes f.
Proof.
  intros Hf. unfold KeyEncodeFloat64, float64_bytes, float64_key. rewrite AppendUint64ToBufferBE_eq.
  f_equal. f_equal. destruct (float_ge0 f); [by apply lor_sign|].
  unfold Z.lnot. unfold_width. rewrite <- Z.add_opp_r. Z.to_euclidean_division_equations; lia.
Qed.

(** The key of a double that is not a NaN. *)
Lemma float64_key_rank f :
  float_ok f → - two63 < float_rank f < two63 ∧
  float64_key f = if 0 <=? float_rank f then float_rank f + two63 else float_rank f + two63 - 1.
Proof.
  intros [Hf HN]. destruct (float_parts f Hf) as [Hm Hb].
  unfold float64_key, float_ge0. rewrite HN. simpl. rewrite Hb. unfold float_rank.
  destruct (float_sign f); repeat case_match; lia.
Qed.

#[global] Instance float64_code : OrderedCode float_ok float64_bytes float_compare.
Proof.
  intros f g s t Hf Hg. unfold float64_bytes, float_compare, lex.
  destruct (float64_key_rank f Hf) as [Rf Kf], (float64_key_rank g Hg) as [Rg Kg].
  rewrite bytes_cmp_be_bytes by (rewrite ?Kf, ?Kg; repeat case_match; lia).
  replace (float64_key f ?= float64_key g) with (float_rank f ?= float_rank g); [done|].
  rewrite Kf, Kg. destruct (Z.leb_spec 0 (float_rank f)), (Z.leb_spec 0 (float_rank g)),
    (Z.compare_spec (float_rank f) (float_rank g)); symmetry;
    (apply Z.compare_eq_iff; lia) || (apply Z.compare_lt_iff; lia) || (apply Z.compare_gt_iff; lia).
Qed.

(** Negative zero reads back as zero. *)
Definition float_norm (f : float64) : float64 :=
  if float_rank f =? 0 then Float64frombits 0 else f.

Lemma KeyDecodeFloat64_app p f s off :
  float_ok f → off = length p →
  KeyDecodeFloat64 (p ++ float64_bytes f ++ s) off = Ok (float_norm f, off + 8)%nat.
Proof.
  intros Hf ->. destruct (float64_key_rank f Hf) as [Rf Kf]. destruct Hf as [Hf HN].
  destruct (float_parts f Hf) as [Hm Hb].
  unfold KeyDecodeFloat64, float64_bytes.
  assert (Hk : u64_ok (float64_key f)) by (unfold_width; rewrite Kf; repeat case_match; lia).
  rewrite ReadUint64BE_app by done. osimpl. rewrite land_sign by done. do 2 f_equal.
  destruct f as [b]. simpl in *. unfold float_norm.
  change (u64 (Z.lnot SignBitMask)) with (1 ≪ 63 - 1). rewrite land_mask by lia. change (2 ^ 63) with two63.
  unfold Z.lnot. rewrite Kf in *. unfold float_rank in *.
  destruct (float_sign _); simpl in Hb; repeat case_match; f_equal; unfold_width;
    Z.to_euclidean_division_equations; lia.
Qed.

(** ** Strings *)

Lemma str_groups_fuel n : ∀ m d, (length d < n)%nat → (length d < m)%nat → str_groups n d = str_groups m d.
Proof.
  induction n as [|n IH]; intros [|m] d Hn Hm; try lia. simpl. do 2 f_equal.
  destruct (decide _); [|done]. apply IH; rewrite length_drop; lia.
Qed.

Lemma str_bytes_unfold d :
  str_bytes d = take 8 (d ++ replicate 8 0) ++ [255 - (8 - Z.of_nat (min 8 (length d)))] ++
    (if decide (8 ≤ length d)%nat then str_bytes (drop 8 d) else []).
Proof.
  unfold str_bytes at 1. simpl str_groups. do 2 f_equal. destruct (decide _); [|done].
  apply str_groups_fuel; rewrite ?length_drop; lia.
Qed.

Lemma str_bytes_ok d : bytes_ok d → bytes_ok (str_bytes d).
Proof.
  remember (length d) as n eqn:Hn. revert d Hn. induction (lt_wf n) as [n _ IH]. intros d -> Hd. rewrite str_bytes_unfold.
  rewrite !bytes_ok_app. split_and!.
  - apply bytes_ok_take, bytes_ok_app. split; [done|]. apply Forall_replicate. unfold byte_ok. lia.
  - apply Forall_singleton. unfold byte_ok. lia.
  - case_decide; [|apply Forall_nil_2]. apply IH with (length (drop 8 d)); auto using bytes_ok_drop. rewrite length_drop. lia.
Qed.

Lemma take_pad (d : bytes) : (length d < 8)%nat → take 8 (d ++ replicate 8 0) = d ++ replicate (8 - length d) 0.
Proof. intros. rewrite take_app, (take_ge d), take_replicate by lia. do 2 f_equal. lia. Qed.

Lemma take_full (d : bytes) : (8 ≤ length d)%nat → take 8 (d ++ replicate 8 0) = take 8 d.
Proof. intros. by rewrite take_app_le. Qed.

Lemma KeyEncodeString_loop_eq fuel : ∀ idx data buff,
  (idx ≤ length data)%nat →
  KeyEncodeString_loop fuel idx data buff = Ok (buff ++ str_groups fuel (drop idx data)).
Proof.
  induction fuel as [|fuel IH]; intros idx data buff Hidx; cbn [KeyEncodeString_loop str_groups];
    [by rewrite app_nil_r|].
  rewrite decide_True by done. rewrite length_drop. unfold encGroupSize.
  destruct (decide (8 ≤ length data - idx)%nat) as [Hr|Hr].
  - rewrite slice_ok by lia. osimpl. rewrite IH by lia. rewrite take_full by (rewrite length_drop; lia).
    replace (idx + 8 - idx)%nat with 8%nat by lia. rewrite drop_drop, (Nat.add_comm idx 8).
    replace (min 8 (length data - idx)) with 8%nat by lia. rewrite <- !app_assoc. done.
  - rewrite slice_from_ok by lia. osimpl. rewrite slice_ok by (simpl; lia). osimpl.
    rewrite take_pad by (rewrite length_drop; lia). rewrite length_drop, app_nil_r.
    replace (u8 _) with (255 - (8 - Z.of_nat (min 8 (length data - idx)))).
    2:{ unfold u8, encMarker. rewrite Z.mod_small; lia. }
    replace (take _ _) with (replicate (8 - (length data - idx)) 0 : bytes).
    2:{ unfold stringKeyEncodingPads, encGroupSize. rewrite drop_0, take_replicate. f_equal. lia. }
    destruct fuel; cbn [KeyEncodeString_loop]; [|rewrite decide_False by lia]; by rewrite <- !app_assoc.
Qed.

Lemma KeyEncodeString_eq b v : KeyEncodeString b v = Ok (b ++ str_bytes v).
Proof. unfold KeyEncodeString. by rewrite KeyEncodeString_loop_eq by lia. Qed.

(** Comparing the zero-padded first [n] bytes of two strings. *)
Lemma pad_compare n : ∀ a b : bytes,
  bytes_ok a → bytes_ok b →
  let c := bytes_cmp (take n (a ++ replicate n 0)) (take n (b ++ replicate n 0)) in
  bytes_cmp a b =
    lex c (lex (Nat.compare (min n (length a)) (min n (length b))) (bytes_cmp (drop n a) (drop n b))).
Proof.
  induction n as [|n IH]; intros a b Ha Hb; [done|].
  assert (E : ∀ d : bytes, take (S n) (d ++ replicate (S n) 0) =
            match d with [] => 0 :: replicate n 0 | x :: d' => x :: take n (d' ++ replicate n 0) end).
  { intros [|x d].
    - simpl. by rewrite take_replicate, Nat.min_id.
    - cbn [app take]. f_equal. destruct (decide (n ≤ length d)%nat); [by rewrite !take_app_le|].
      rewrite !take_app, !take_replicate. do 2 f_equal. lia. }
  rewrite !E. destruct a as [|x a], b as [|y b]; cbn [bytes_cmp length Nat.min Nat.compare drop].
  - by rewrite bytes_cmp_refl.
  - apply Forall_cons in Hb as [Hy Hb]. destruct (Z.compare_spec 0 y); [|done|unfold byte_ok in Hy; lia].
    specialize (IH [] b (Forall_nil_2 _) Hb). cbv zeta in IH. rewrite app_nil_l, take_replicate, Nat.min_id in IH.
    revert IH. destruct (bytes_cmp (replicate _ _) (take n _)); try done. by destruct b.
  - apply Forall_cons in Ha as [Hx Ha]. destruct (Z.compare_spec x 0); [|unfold byte_ok in Hx; lia|done].
    specialize (IH a [] Ha (Forall_nil_2 _)). cbv zeta in IH. rewrite app_nil_l, take_replicate, Nat.min_id in IH.
    revert IH. destruct (bytes_cmp (take n _) (replicate _ _)); try done. by destruct a.
  - apply Forall_cons in Ha as [Hx Ha]. apply Forall_cons in Hb as [Hy Hb].
    destruct (x ?= y); [|done|done]. by rewrite (IH a b Ha Hb).
Qed.

Lemma lex_assoc a b c : lex (lex a b) c = lex a (lex b c).
Proof. by destruct a, b. Qed.

Lemma bytes_cmp_app_lex a b s t : length a = length b → bytes_cmp (a ++ s) (b ++ t) = lex (bytes_cmp a b) (bytes_cmp s t).
Proof. intros. by rewrite bytes_cmp_app_same_length. Qed.

#[global] Instance string_code : OrderedCode bytes_ok str_bytes bytes_cmp.
Proof.
  intros a. remember (length a) as n eqn:Hn. revert a Hn.
  induction (lt_wf n) as [n _ IH]. intros a -> b s t Ha Hb.
  rewrite (str_bytes_unfold a), (str_bytes_unfold b), (pad_compare 8 a b Ha Hb). cbv zeta.
  rewrite <- !app_assoc, bytes_cmp_app_lex by (rewrite !length_take, !length_app, length_replicate; lia).
  rewrite !lex_assoc. f_equal. cbn [app bytes_cmp].
  destruct (decide (8 ≤ length a)%nat), (decide (8 ≤ length b)%nat).
  - rewrite !Nat.min_l, Nat.compare_refl, Z.compare_refl by lia. simpl.
    apply IH with (y := length (drop 8 a)); auto using bytes_ok_drop. rewrite length_drop; lia.
  - replace (min 8 (length a) ?= min 8 (length b))%nat with Gt by (symmetry; apply Nat.compare_gt_iff; lia).
    destruct (Z.compare_spec (255 - (8 - Z.of_nat (min 8 (length a)))) (255 - (8 - Z.of_nat (min 8 (length b))))); lia || done.
  - replace (min 8 (length a) ?= min 8 (length b))%nat with Lt by (symmetry; apply Nat.compare_lt_iff; lia).
    destruct (Z.compare_spec (255 - (8 - Z.of_nat (min 8 (length a)))) (255 - (8 - Z.of_nat (min 8 (length b))))); lia || done.
  - rewrite !drop_ge by lia. destruct (Nat.compare_spec (min 8 (length a)) (min 8 (length b)));
      destruct (Z.compare_spec (255 - (8 - Z.of_nat (min 8 (length a)))) (255 - (8 - Z.of_nat (min 8 (length b))))); lia || done.
Qed.

Lemma str_bytes_inj a b : bytes_ok a → bytes_ok b → str_bytes a = str_bytes b → a = b.
Proof.
  intros Ha Hb E. pose proof (string_code a b [] [] Ha Hb) as Hc. rewrite E, bytes_cmp_refl in Hc.
  apply bytes_cmp_eq. by destruct (bytes_cmp a b).
Qed.

Lemma length_str_bytes_ge d : (9 ≤ length (str_bytes d))%nat.
Proof.
  rewrite str_bytes_unfold, !length_app, length_take, length_app, length_replicate. simpl length. lia.
Qed.

Lemma length_pad (v : bytes) : length (take 8 (v ++ replicate 8 0)) = 8%nat.
Proof. rewrite length_take, length_app, length_replicate. lia. Qed.

Lemma forallb_replicate_0 n : forallb (λ v, v =? encPad) (replicate n 0) = true.
Proof. induction n; simpl; done. Qed.

Lemma KeyDecodeString_loop_app v : ∀ fuel s off res,
  bytes_ok v → (length (str_bytes v ++ s) < fuel)%nat →
  KeyDecodeString_loop fuel (str_bytes v ++ s) off res = Ok (res ++ v, off + length (str_bytes v))%nat.
Proof.
  remember (length v) as n eqn:Hn. revert v Hn. induction (lt_wf n) as [n _ IH].
  intros v -> [|fuel] s off res Hv Hf; [lia|].
  rewrite str_bytes_unfold in Hf |- *. rewrite <- !app_assoc in Hf |- *.
  set (G := take 8 (v ++ replicate 8 0)) in *. assert (HG : length G = 8%nat) by apply length_pad.
  set (R := if decide _ then _ else _) in *. set (m := 255 - _) in *.
  cbn [KeyDecodeString_loop]. unfold encGroupSize.
  rewrite decide_False by (rewrite !length_app, HG; simpl; lia).
  rewrite slice_ok by (rewrite !length_app, HG; simpl; lia). osimpl.
  replace (take (8 + 1 - 0) _) with (G ++ [m]).
  2:{ rewrite drop_0. cbn [app]. rewrite take_app, HG, take_ge by lia. done. }
  rewrite slice_ok by (rewrite length_app, HG; simpl; lia). osimpl.
  rewrite drop_0, take_app_le, take_ge by lia. rewrite index_app_mid by done. osimpl.
  assert (u8 (encMarker - m) = 8 - Z.of_nat (min 8 (length v))) as ->.
  { unfold u8, encMarker, m. rewrite Z.mod_small; lia. }
  rewrite (proj2 (Z.ltb_ge _ _)) by lia.
  replace (8 - Z.to_nat (8 - Z.of_nat (min 8 (length v))))%nat with (min 8 (length v)) by lia.
  rewrite slice_ok by lia. osimpl.
  rewrite (slice_from_ok (G ++ _)) by (rewrite !length_app, HG; simpl; lia). osimpl.
  replace (drop (8 + 1) _) with (R ++ s).
  2:{ rewrite (app_assoc G [m]). symmetry. apply drop_app_length'. rewrite length_app, HG. done. }
  rewrite Nat.sub_0_r, drop_0. subst G R. destruct (decide (8 ≤ length v)%nat) as [Hl|Hl].
  - rewrite Nat.min_l by lia. simpl negb. cbv iota. rewrite take_full in * by done.
    rewrite IH with (v := drop 8 v) (y := length (drop 8 v)); rewrite ?length_drop; auto using bytes_ok_drop; try lia.
    2:{ rewrite !length_app, length_take in Hf. simpl length in Hf. rewrite length_app in *. lia. }
    rewrite take_ge by (rewrite length_take; lia). rewrite <- app_assoc, take_drop, !length_app, length_take. simpl length.
    do 2 f_equal. lia.
  - rewrite Nat.min_r by lia. destruct (Z.eqb_spec (8 - Z.of_nat (length v)) 0); [lia|]. cbv iota. simpl negb.
    rewrite slice_from_ok by lia. osimpl. rewrite take_pad by lia.
    rewrite drop_app_length, forallb_replicate_0, take_app_length. rewrite !length_app, length_replicate. simpl length.
    do 2 f_equal. lia.
Qed.

Lemma KeyDecodeString_app p v s off :
  bytes_ok v → off = length p →
  KeyDecodeString (p ++ str_bytes v ++ s) off = Ok (v, off + length (str_bytes v))%nat.
Proof.
  intros Hv ->. unfold KeyDecodeString. destruct (decide (length p = 0)%nat) as [H0|H0].
  - apply nil_length_inv in H0. subst. osimpl. rewrite app_nil_l. apply KeyDecodeString_loop_app; [done|lia].
  - rewrite slice_from_ok by (rewrite length_app; lia). osimpl. rewrite drop_app_length.
    apply KeyDecodeString_loop_app; [done|lia].
Qed.

(** ** Timestamps *)

Lemma KeyEncodeTimestamp_eq b t : KeyEncodeTimestamp b t = Ok (b ++ timestamp_bytes t).
Proof. unfold KeyEncodeTimestamp. rewrite ToPackedUint_eq. osimpl. done. Qed.

#[global] Instance timestamp_code fsp : OrderedCode (time_ok fsp) timestamp_bytes Compare.
Proof.
  intros a b s t (_ & _ & _ & Ha) (_ & _ & _ & Hb). unfold timestamp_bytes, Compare.
  rewrite bytes_cmp_be_bytes by apply pack_range. by rewrite pack_compare.
Qed.

(** ** Values, and columns of values *)

(** The values a key column of type [ct] can hold. *)
Definition key_value_ok (ct : ColumnType) (v : value) : Prop :=
  match Type' ct, v with
  | (TypeTinyInt | TypeInt | TypeBigInt), VInt z => i64_ok z
  | TypeDouble, VFloat f => float_ok f
  | TypeVarchar, VString s => bytes_ok s
  | TypeTimestamp, VTimestamp t => time_ok (FSP ct) t
  | TypeDecimal, VDecimal d => dec_fits (DecPrecision ct) (DecScale ct) d
  | _, _ => False
  end.

Definition key_bytes (ct : ColumnType) (v : value) : bytes :=
  match v with
  | VInt z => int64_bytes z
  | VFloat f => float64_bytes f
  | VString s => str_bytes s
  | VTimestamp t => timestamp_bytes t
  | VDecimal d => dec_bytes (DecPrecision ct) (DecScale ct) d
  end.

(** The order of the values of one type. *)
Definition value_compare (v w : value) : comparison :=
  match v, w with
  | VInt a, VInt b => Z.compare a b
  | VFloat a, VFloat b => float_compare a b
  | VString a, VString b => bytes_cmp a b
  | VTimestamp a, VTimestamp b => Compare a b
  | VDecimal a, VDecimal b => Z.compare (value_of a) (value_of b)
  | _, _ => Eq
  end.

(** What a key value is read back as: negative zero as zero, and a decimal with the
    fraction digits of its type and no leading zero words. *)
Definition key_norm (ct : ColumnType) (v : value) : value :=
  match v with
  | VFloat f => VFloat (float_norm f)
  | VDecimal d => VDecimal (dec_norm (DecPrecision ct) (DecScale ct) d)
  | _ => v
  end.
Definition key_norms (cts : list ColumnType) (cs : list (option value)) : list (option value) :=
  zip_with (λ ct c, key_norm ct <$> c) cts cs.

(** An index column: a null sorts before every value. *)
Definition cell_ok (ct : ColumnType) (c : option value) : Prop :=
  match c with None => True | Some v => key_value_ok ct v end.
Definition cell_bytes (ct : ColumnType) (c : option value) : bytes :=
  match c with None => [0] | Some v => 1 :: key_bytes ct v end.
Definition cell_compare (c d : option value) : comparison :=
  match c, d with
  | None, None => Eq
  | None, Some _ => Lt
  | Some _, None => Gt
  | Some v, Some w => value_compare v w
  end.

(** Several columns: the first difference decides. *)
Fixpoint cols_bytes {C A} (enc : C → A → bytes) (cts : list C) (l : list A) : bytes :=
  match cts, l with
  | ct :: cts', v :: l' => enc ct v ++ cols_bytes enc cts' l'
  | _, _ => []
  end.
Fixpoint cols_compare {A} (cmp : A → A → comparison) (l k : list A) : comparison :=
  match l, k with
  | v :: l', w :: k' => lex (cmp v w) (cols_compare cmp l' k')
  | _, _ => Eq
  end.

#[global] Instance value_code ct : OrderedCode (key_value_ok ct) (key_bytes ct) value_compare.
Proof.
  intros v w s t. unfold key_value_ok.
  destruct (Type' ct), v; try done; destruct w; try done; intros; cbn [key_bytes value_compare].
  1-3: by apply int64_code.
  - by apply float64_code.
  - by apply dec_bytes_cmp.
  - by apply string_code.
  - by eapply timestamp_code.
Qed.

#[global] Instance cell_code ct : OrderedCode (cell_ok ct) (cell_bytes ct) cell_compare.
Proof.
  intros [v|] [w|] s t Hv Hw; simpl; try done. by apply value_code.
Qed.

#[global] Instance cols_code {C A} (dom : C → A → Prop) enc cmp cts :
  (∀ ct, OrderedCode (dom ct) (enc ct) cmp) →
  OrderedCode (Forall2 dom cts) (cols_bytes enc cts) (cols_compare cmp).
Proof.
  intros Hcode l k s t Hl. revert k. induction Hl as [|ct v cts l Hv Hl IH]; intros k Hk; inv Hk; [done|].
  cbn [cols_bytes cols_compare]. rewrite <- !app_assoc, (Hcode ct), IH by done. by rewrite lex_assoc.
Qed.

(** The cells of [row] at [idxs]. *)
Definition cells_at (row : Row) (idxs : list nat) : option (list (option value)) := mapM (λ i, row !! i) idxs.
Definition types_at (colTypes : list ColumnType) (idxs : list nat) : option (list ColumnType) :=
  mapM (λ i, colTypes !! i) idxs.

Lemma EncodeKeyCol_eq row i ct v b :
  row !! i = Some (Some v) → key_value_ok ct v → EncodeKeyCol row i ct b = Ok (b ++ key_bytes ct v).
Proof.
  intros Hi Hv. unfold EncodeKeyCol, key_value_ok in *.
  destruct (Type' ct) eqn:Ect, v; try done;
    unfold GetInt64, GetFloat64, GetDecimal, GetString, GetTimestamp; rewrite (index_ok _ _ _ Hi); osimpl; simpl key_bytes.
  1-3: by rewrite KeyEncodeInt64_eq.
  - by rewrite KeyEncodeFloat64_eq by apply Hv.
  - by apply Encode_eq.
  - by rewrite KeyEncodeString_eq.
  - by rewrite KeyEncodeTimestamp_eq.
Qed.

Lemma EncodeKeyElement_eq ct v b :
  key_value_ok ct v → EncodeKeyElement (Some v) ct b = Ok (b ++ key_bytes ct v).
Proof.
  intros Hv. unfold EncodeKeyElement, key_value_ok in *.
  destruct (Type' ct) eqn:Ect, v; try done; simpl key_bytes.
  1-3: by rewrite KeyEncodeInt64_eq.
  - by rewrite KeyEncodeFloat64_eq by apply Hv.
  - by apply Encode_eq.
  - by rewrite KeyEncodeString_eq.
  - by rewrite KeyEncodeTimestamp_eq.
Qed.

Lemma EncodeKeyCols_eq row colTypes idxs : ∀ cts vs b,
  cells_at row idxs = Some (map Some vs) → types_at colTypes idxs = Some cts → Forall2 key_value_ok cts vs →
  EncodeKeyCols row idxs colTypes b = Ok (b ++ cols_bytes key_bytes cts vs).
Proof.
  unfold cells_at, types_at, EncodeKeyCols. induction idxs as [|i idxs IH]; intros cts vs b Hc Ht Hok.
  - inv Ht. inv Hok. simpl. by rewrite app_nil_r.
  - apply bind_Some in Ht as (ct & Hct & (cts' & Hcts & [= <-])%bind_Some).
    apply bind_Some in Hc as (c & Hc & (cs & Hcs & Heq)%bind_Some).
    destruct vs as [|v vs]; [by inv Hok|]. injection Heq as -> ->. inv Hok. simpl foldM.
    rewrite (index_ok _ _ _ Hct). osimpl. erewrite EncodeKeyCol_eq by done. osimpl.
    by rewrite (IH cts' vs), <- app_assoc.
Qed.

Lemma EncodeIndexKeyCols_eq row colTypes idxs : ∀ cts cs b,
  cells_at row idxs = Some cs → types_at colTypes idxs = Some cts → Forall2 cell_ok cts cs →
  EncodeIndexKeyCols row idxs colTypes b = Ok (b ++ cols_bytes cell_bytes cts cs).
Proof.
  unfold cells_at, types_at, EncodeIndexKeyCols. induction idxs as [|i idxs IH]; intros cts cs b Hc Ht Hok.
  - inv Ht. inv Hok. simpl. by rewrite app_nil_r.
  - apply bind_Some in Ht as (ct & Hct & (cts' & Hcts & [= <-])%bind_Some).
    apply bind_Some in Hc as (c & Hc & (cs' & Hcs & [= <-])%bind_Some). inv Hok. simpl foldM.
    rewrite (index_ok _ _ _ Hct). osimpl. rewrite (IsNull_eq _ _ _ Hc). osimpl.
    destruct c as [v|]; cbv iota.
    + erewrite EncodeKeyCol_eq by done. osimpl. rewrite (IH cts' cs') by done. by rewrite <- !app_assoc.
    + osimpl. rewrite (IH cts' cs') by done. by rewrite <- !app_assoc.
Qed.

Lemma EncodeKey_eq colTypes idxs : ∀ cts vs b,
  types_at colTypes idxs = Some cts → Forall2 key_value_ok cts vs →
  EncodeKey (map Some vs) colTypes idxs b = Ok (b ++ cols_bytes key_bytes cts vs).
Proof.
  unfold types_at, EncodeKey. intros cts vs b Ht Hok.
  apply mapM_Some in Ht. revert b.
  cut (∀ pre k b, length pre = k →
    foldMi (λ i buffer v, ci ← index (pre ++ idxs) i; colType ← index colTypes ci; EncodeKeyElement v colType buffer)
      k b (map Some vs) = Ok (b ++ cols_bytes key_bytes cts vs)). { intros H b. by apply (H []). }
  revert vs Hok. induction Ht as [|i ct idxs cts Hct Ht IH]; intros vs Hok pre k b Hk; inv Hok.
  { simpl. by rewrite app_nil_r. }
  simpl foldMi. rewrite index_app_mid by done. osimpl. rewrite (index_ok _ _ _ Hct). osimpl.
  rewrite EncodeKeyElement_eq by done. osimpl.
  replace (pre ++ i :: idxs) with ((pre ++ [i]) ++ idxs) by by rewrite <- app_assoc.
  rewrite IH by (rewrite ?length_app; simpl; done || lia). cbn [cols_bytes]. by rewrite <- app_assoc.
Qed.

(** ** Decoding key columns *)

(** A column of a primary key ([pk]) or of an index key. *)
Definition col_ok (pk : bool) (ct : ColumnType) (c : option value) : Prop :=
  cell_ok ct c ∧ (pk = true → c ≠ None).
Definition col_bytes (pk : bool) (ct : ColumnType) (c : option value) : bytes :=
  match c with
  | Some v => if pk then key_bytes ct v else cell_bytes ct (Some v)
  | None => cell_bytes ct None
  end.

(** The cells that have an output column, appended in order. *)
Definition append_outs (rows : Rows) (outs : list (option nat)) (cs : list (option value)) : outcome Rows :=
  foldM (λ r '(o, c), appendOut r o c) rows (zip outs cs).

Lemma length_key_bytes_8 u : length (be_bytes 8 u) = 8%nat.
Proof. apply length_be_bytes. Qed.

Lemma decode_key_value p ct v s off out rows :
  off = length p → key_value_ok ct v →
  DecodeIndexOrPKCol (p ++ key_bytes ct v ++ s) off ct out true rows =
    (rows ← appendOut rows out (Some (key_norm ct v)); Ok (rows, off + length (key_bytes ct v)))%nat.
Proof.
  intros -> Hv. unfold DecodeIndexOrPKCol, key_value_ok in *. osimpl. cbv iota.
  destruct (Type' ct) eqn:Ect, v; try done; cbn [key_bytes key_norm].
  1-3: rewrite KeyDecodeInt64_app by done; osimpl; unfold int64_bytes; by rewrite length_key_bytes_8.
  - rewrite KeyDecodeFloat64_app by done. osimpl. unfold float64_bytes. by rewrite length_key_bytes_8.
  - unfold KeyDecodeDecimal, ReadDecimalFromBuffer. rewrite Decode_app by done. osimpl. done.
  - rewrite KeyDecodeString_app by done. osimpl. done.
  - unfold KeyDecodeTimestamp, timestamp_bytes. rewrite ReadTimestampBE_app by done. osimpl. by rewrite length_key_bytes_8.
Qed.

Lemma decode_col pk p ct c s off out rows :
  off = length p → col_ok pk ct c →
  DecodeIndexOrPKCol (p ++ col_bytes pk ct c ++ s) off ct out pk rows =
    (rows ← appendOut rows out (key_norm ct <$> c); Ok (rows, off + length (col_bytes pk ct c)))%nat.
Proof.
  intros -> [Hc Hpk]. destruct pk.
  - destruct c as [v|]; [|by destruct Hpk]. by apply decode_key_value.
  - destruct c as [v|]; cbn [col_bytes cell_bytes].
    + pose proof (decode_key_value (p ++ [1]) ct v s (S (length p)) out rows) as H.
      rewrite <- app_assoc in H. cbn [app] in H. specialize (H ltac:(rewrite length_app; simpl; lia) Hc).
      unfold DecodeIndexOrPKCol in *. rewrite <- app_comm_cons, index_app_mid by done. osimpl in H. osimpl.
      cbv iota in H |- *. simpl (1 =? 0). cbv iota. rewrite H. destruct (appendOut _ _ _); osimpl; try done.
      simpl length. do 2 f_equal. lia.
    + unfold DecodeIndexOrPKCol. rewrite <- app_comm_cons, index_app_mid by done. osimpl. simpl (0 =? 0). cbv iota.
      destruct (appendOut _ _ _); osimpl; try done. simpl length. do 2 f_equal. lia.
Qed.

Lemma DecodeIndexOrPKCols_app pk p cts cs s off outs rows :
  off = length p → Forall2 (col_ok pk) cts cs → length outs = length cts →
  DecodeIndexOrPKCols (p ++ cols_bytes (col_bytes pk) cts cs ++ s) off pk cts outs rows =
    (rows ← append_outs rows outs (key_norms cts cs);
     Ok (rows, off + length (cols_bytes (col_bytes pk) cts cs)))%nat.
Proof.
  intros Hoff Hok Hl. unfold DecodeIndexOrPKCols, append_outs.
  set (cts0 := cts) at 2. assert (Hpre : cts0 = [] ++ cts) by done. clearbody cts0.
  revert p off Hoff rows outs Hl Hpre. change 0%nat with (length (@nil ColumnType)).
  generalize (@nil ColumnType) as pre.
  induction Hok as [|ct c cts cs Hc Hok IH]; intros pre p off Hoff rows outs Hl Hpre; destruct outs as [|o outs];
    try done; simpl foldMi; simpl zip; simpl foldM.
  { osimpl. by rewrite Nat.add_0_r. }
  rewrite (index_ok cts0 _ ct) by (rewrite Hpre, lookup_app_r, Nat.sub_diag; done). osimpl. cbn [cols_bytes]. rewrite <- app_assoc, decode_col by done.
  destruct (appendOut rows o _) as [r| | |]; osimpl; try done.
  specialize (IH (pre ++ [ct]) (p ++ col_bytes pk ct c) (off + length (col_bytes pk ct c))%nat).
  rewrite (length_app pre), Nat.add_1_r, <- (app_assoc p) in IH.
  rewrite IH; [|rewrite length_app; lia|simpl in Hl; lia|by rewrite Hpre, <- app_assoc].
  rewrite length_app, Nat.add_assoc. done.
Qed.

Lemma cols_bytes_index cts cs : cols_bytes (col_bytes false) cts cs = cols_bytes cell_bytes cts cs.
Proof.
  revert cs. induction cts as [|ct cts IH]; intros [|[v|] cs]; cbn [cols_bytes]; by rewrite ?IH.
Qed.

Lemma cols_bytes_pk cts vs : cols_bytes (col_bytes true) cts (map Some vs) = cols_bytes key_bytes cts vs.
Proof. revert vs. induction cts as [|ct cts IH]; intros [|v vs]; cbn [cols_bytes map]; by rewrite ?IH. Qed.

(** The output columns in order: one cell per column. *)
Lemma append_outs_seq rows cs k :
  append_outs rows (map Some (seq k (length cs))) cs =
    (cols ← foldMi (λ i cols c, appendCell cols i c) k (columns rows) cs;
     Ok (MkRows (columnTypes rows) cols (numVirtualRows rows))).
Proof.
  unfold append_outs. revert rows k. induction cs as [|c cs IH]; intros [cts0 cols0 nv] k; simpl; [done|].
  unfold appendToColumn; simpl. destruct (appendCell cols0 k c); simpl; [by rewrite IH|done..].
Qed.

Lemma decode_key_cols_rep pk p cts cs s rows rws :
  Forall2 (col_ok pk) cts cs → rows_rep rows rws → length (columnTypes rows) = length cs →
  ∃ rows', DecodeIndexOrPKCols (p ++ cols_bytes (col_bytes pk) cts cs ++ s) (length p) pk cts
             (map Some (seq 0 (length cs))) rows = Ok (rows', length p + length (cols_bytes (col_bytes pk) cts cs))%nat ∧
    rows_rep rows' (rws ++ [key_norms cts cs]).
Proof.
  intros Hok Hrep Hn. rewrite DecodeIndexOrPKCols_app; [|done|done|].
  2:{ rewrite length_map, length_seq. symmetry. by eapply Forall2_length. }
  assert (Hl : length (key_norms cts cs) = length cs).
  { unfold key_norms. rewrite length_zip_with, (Forall2_length _ _ _ Hok). lia. }
  rewrite <- Hl, append_outs_seq.
  destruct (rep_append_cells rows rws (key_norms cts cs) Hrep) as (cols & -> & Hr); [by rewrite Hl|]. osimpl. eexists. split; [done|apply Hr].
Qed.

(** What is read back compares equal to what was written. *)
Lemma key_norm_compare ct v : key_value_ok ct v → value_compare v (key_norm ct v) = Eq.
Proof.
  unfold key_value_ok. destruct (Type' ct), v; try done; intros Hv; cbn [key_norm value_compare];
    try apply Z.compare_refl; try apply bytes_cmp_refl.
  - unfold float_compare, float_norm. destruct (Z.eqb_spec (float_rank v) 0) as [->|_]; [done|apply Z.compare_refl].
  - rewrite dec_norm_value by done. apply Z.compare_refl.
  - unfold Compare, compareTime. by rewrite !Z.compare_refl.
Qed.

Lemma key_norms_compare cts cs : Forall2 cell_ok cts cs → cols_compare cell_compare cs (key_norms cts cs) = Eq.
Proof.
  induction 1 as [|ct [v|] cts cs Hv Hok IH]; [done| |]; cbn [key_norms zip_with cols_compare cell_compare fmap option_fmap option_map]; [|done].
  by rewrite key_norm_compare.
Qed.

Lemma index_cols_ok cts cs : Forall2 cell_ok cts cs → Forall2 (col_ok false) cts cs.
Proof. intros H. eapply Forall2_impl; [done|]. intros ct c Hc. by split. Qed.

(** * Properties *)

(** The memory-comparable string encoding preserves the byte order of the
    strings and is prefix-free: whatever bytes follow the two encodings, they compare
    as the strings do, and the following bytes only matter when the strings are
    equal. *)
Theorem KeyEncodeString_ordered (p a b s t : bytes) :
  bytes_ok a → bytes_ok b →
  ∃ ea eb, KeyEncodeString p a = Ok (p ++ ea) ∧ KeyEncodeString p b = Ok (p ++ eb) ∧
    bytes_cmp (ea ++ s) (eb ++ t) = lex (bytes_cmp a b) (bytes_cmp s t).
Proof.
  intros Ha Hb. exists (str_bytes a), (str_bytes b). rewrite !KeyEncodeString_eq. split_and!; try done.
  by apply string_code.
Qed.

Lemma KeyEncodeString_ordered_witness :
  ∃ ea eb, KeyEncodeString [7] (lit "abcdefgh") = Ok ([7] ++ ea) ∧ KeyEncodeString [7] (lit "abcdefgh!") = Ok ([7] ++ eb) ∧
    bytes_cmp (ea ++ [255]) (eb ++ [0]) = Lt.
Proof. apply (KeyEncodeString_ordered [7] (lit "abcdefgh") (lit "abcdefgh!") [255] [0]); by_decide. Defined.

(** Decoding an encoded string at its offset returns the string and the offset
    just past it, whatever precedes and follows it in the buffer. *)
Theorem KeyDecodeString_KeyEncodeString (p v s : bytes) :
  bytes_ok v → ∃ b, KeyEncodeString p v = Ok b ∧ KeyDecodeString (b ++ s) (length p) = Ok (v, length b).
Proof.
  intros Hv. exists (p ++ str_bytes v). rewrite KeyEncodeString_eq. split; [done|].
  rewrite <- app_assoc, KeyDecodeString_app by done. by rewrite length_app.
Qed.

Lemma KeyDecodeString_KeyEncodeString_witness :
  ∃ b, KeyEncodeString [1; 2] (lit "twelve bytes") = Ok b ∧ KeyDecodeString (b ++ [9]) 2 = Ok (lit "twelve bytes", length b).
Proof. apply (KeyDecodeString_KeyEncodeString [1; 2] (lit "twelve bytes") [9]). by_decide. Defined.

(** C13. Primary keys: for two rows whose key columns are not null, the encoded keys
    compare, as byte strings and whatever follows them, like the tuples of their key
    values in column order (integers signed, doubles and decimals numerically, strings by
    bytes, timestamps by time). The values are those the columns' types hold: doubles that
    are not NaN, and decimals that fit the type and have neither one nor two fraction digits
    less than a scale that is a multiple of nine, which are refused. *)
Theorem EncodeKeyCols_ordered (row1 row2 : Row) (colTypes cts : list ColumnType) (idxs : list nat)
    (vs ws : list value) (p s t : bytes) :
  types_at colTypes idxs = Some cts →
  cells_at row1 idxs = Some (map Some vs) → cells_at row2 idxs = Some (map Some ws) →
  Forall2 key_value_ok cts vs → Forall2 key_value_ok cts ws →
  ∃ k1 k2, EncodeKeyCols row1 idxs colTypes p = Ok (p ++ k1) ∧ EncodeKeyCols row2 idxs colTypes p = Ok (p ++ k2) ∧
    bytes_cmp (k1 ++ s) (k2 ++ t) = lex (cols_compare value_compare vs ws) (bytes_cmp s t).
Proof.
  intros Ht Hv Hw Ov Ow. exists (cols_bytes key_bytes cts vs), (cols_bytes key_bytes cts ws).
  split_and!; [by eapply EncodeKeyCols_eq..|].
  by apply (cols_code key_value_ok key_bytes value_compare cts (λ ct, value_code ct)).
Qed.

Lemma EncodeKeyCols_ordered_witness :
  ∃ k1 k2,
    EncodeKeyCols [Some (VString (lit "x")); Some (VDecimal dec_neg_1234567890_1234)] [1; 0]%nat [VarcharColumnType; NewDecimalColumnType 14 4] [0] = Ok ([0] ++ k1) ∧
    EncodeKeyCols [Some (VString (lit "a")); Some (VDecimal dec_1234567890_1234)] [1; 0]%nat [VarcharColumnType; NewDecimalColumnType 14 4] [0] = Ok ([0] ++ k2) ∧
    bytes_cmp (k1 ++ []) (k2 ++ []) = Lt.
Proof.
  apply (EncodeKeyCols_ordered [Some (VString (lit "x")); Some (VDecimal dec_neg_1234567890_1234)] [Some (VString (lit "a")); Some (VDecimal dec_1234567890_1234)]
    [VarcharColumnType; NewDecimalColumnType 14 4] [NewDecimalColumnType 14 4; VarcharColumnType] [1; 0]%nat
    [VDecimal dec_neg_1234567890_1234; VString (lit "x")] [VDecimal dec_1234567890_1234; VString (lit "a")] [0] [] []); try reflexivity;
    repeat constructor; by_decide || apply dec_fits_example.
Defined.

(** C14. Secondary index keys: encoded index columns compare like the tuples of their
    cells, a null sorting before every value of its column; the values are those of C13. *)
Theorem EncodeIndexKeyCols_ordered (row1 row2 : Row) (colTypes cts : list ColumnType) (idxs : list nat)
    (cs ds : list (option value)) (p s t : bytes) :
  types_at colTypes idxs = Some cts → cells_at row1 idxs = Some cs → cells_at row2 idxs = Some ds →
  Forall2 cell_ok cts cs → Forall2 cell_ok cts ds →
  ∃ k1 k2, EncodeIndexKeyCols row1 idxs colTypes p = Ok (p ++ k1) ∧ EncodeIndexKeyCols row2 idxs colTypes p = Ok (p ++ k2) ∧
    bytes_cmp (k1 ++ s) (k2 ++ t) = lex (cols_compare cell_compare cs ds) (bytes_cmp s t).
Proof.
  intros Ht Hc Hd Oc Od. exists (cols_bytes cell_bytes cts cs), (cols_bytes cell_bytes cts ds).
  split_and!; [by eapply EncodeIndexKeyCols_eq..|].
  by apply (cols_code cell_ok cell_bytes cell_compare cts (λ ct, cell_code ct)).
Qed.

Lemma EncodeIndexKeyCols_ordered_witness :
  ∃ k1 k2,
    EncodeIndexKeyCols [None; Some (VInt 5)] [1; 0]%nat [VarcharColumnType; IntColumnType] [] = Ok ([] ++ k1) ∧
    EncodeIndexKeyCols [Some (VString []); Some (VInt 5)] [1; 0]%nat [VarcharColumnType; IntColumnType] [] = Ok ([] ++ k2) ∧
    bytes_cmp (k1 ++ [200]) (k2 ++ []) = Lt.
Proof.
  apply (EncodeIndexKeyCols_ordered [None; Some (VInt 5)] [Some (VString []); Some (VInt 5)]
    [VarcharColumnType; IntColumnType] [IntColumnType; VarcharColumnType] [1; 0]%nat
    [Some (VInt 5); None] [Some (VInt 5); Some (VString [])] [] [200] []); try reflexivity;
    repeat constructor; by_decide || (simpl; lia).
Defined.

(** C27. Decoding the columns of an index key back into a row set appends exactly one
    row and returns the offset just past them, where the primary key columns follow. The
    cells of the row are those encoded, but for negative zero, which is read back as zero,
    and decimals, which are read back with the scale of their type; they compare equal to
    the encoded cells. *)
Theorem index_key_roundtrip (row : Row) (colTypes cts : list ColumnType) (idxs : list nat) (cs : list (option value))
    (p s : bytes) (rows : Rows) (rws : list Row) :
  types_at colTypes idxs = Some cts → cells_at row idxs = Some cs → Forall2 cell_ok cts cs →
  rows_rep rows rws → length (columnTypes rows) = length cs →
  ∃ b rows', EncodeIndexKeyCols row idxs colTypes p = Ok b ∧
    DecodeIndexOrPKCols (b ++ s) (length p) false cts (map Some (seq 0 (length cs))) rows = Ok (rows', length b) ∧
    rows_rep rows' (rws ++ [key_norms cts cs]) ∧ cols_compare cell_compare cs (key_norms cts cs) = Eq.
Proof.
  intros Ht Hc Hok Hrep Hn.
  destruct (decode_key_cols_rep false p cts cs s rows rws (index_cols_ok _ _ Hok) Hrep Hn) as (rows' & Hd & Hr).
  rewrite cols_bytes_index in Hd.
  eexists _, rows'. split_and!; [by eapply EncodeIndexKeyCols_eq| |done|by apply key_norms_compare].
  by rewrite <- app_assoc, Hd, length_app.
Qed.

Lemma index_key_roundtrip_witness :
  ∃ b rows', EncodeIndexKeyCols [None; Some (VDecimal dec_neg_1234567890_1234)] [1; 0]%nat [VarcharColumnType; NewDecimalColumnType 14 4] [3] = Ok b ∧
    DecodeIndexOrPKCols (b ++ [8]) 1 false [NewDecimalColumnType 14 4; VarcharColumnType] [Some 0; Some 1]%nat
      (NewRows [NewDecimalColumnType 14 4; VarcharColumnType]) = Ok (rows', length b) ∧
    rows_rep rows' [[Some (VDecimal dec_neg_1234567890_1234); None]].
Proof.
  destruct (index_key_roundtrip [None; Some (VDecimal dec_neg_1234567890_1234)] [VarcharColumnType; NewDecimalColumnType 14 4]
    [NewDecimalColumnType 14 4; VarcharColumnType] [1; 0]%nat [Some (VDecimal dec_neg_1234567890_1234); None] [3] [8]
    (NewRows [NewDecimalColumnType 14 4; VarcharColumnType]) []) as (b & rows' & Hb & Hd & Hr & _);
    [reflexivity|reflexivity|repeat constructor; apply dec_fits_example|apply NewRows_rep|reflexivity|].
  exists b, rows'. split; [exact Hb|]. split; [exact Hd|]. vm_compute key_norms in Hr. exact Hr.
Defined.
