(* ===== verification/RowEncoding.v ===== *)
(** * Row encoding

    Models common/row_encoding.go: the value bytes of a table row. Every column is
    a null byte followed, when it is 1, by the value in little-endian order. *)

From stdpp Require Import base list strings.
From Stdlib Require Import ZArith Lia.
From S2P Require Import Prelude Encoding Timestamp Decimal DecimalArith DecimalBin Rows KeyEncoding.

Definition encodeRowCol (row : Row) (colIndex : nat) (colType : ColumnType) (buffer : bytes) : outcome bytes :=
  isNull ← IsNull row colIndex;
  if isNull : bool then Ok (buffer ++ [0])
  else
    let buffer := buffer ++ [1] in
    match Type' colType with
    | TypeTinyInt | TypeInt | TypeBigInt =>
        valInt64 ← GetInt64 row colIndex; Ok (AppendUint64ToBufferLE buffer (u64 valInt64))
    | TypeDecimal =>
        valDec ← GetDecimal row colIndex; Encode valDec buffer (DecPrecision colType) (DecScale colType)
    | TypeDouble => valFloat64 ← GetFloat64 row colIndex; Ok (AppendFloat64ToBufferLE buffer valFloat64)
    | TypeVarchar => valString ← GetString row colIndex; Ok (AppendStringToBufferLE buffer valString)
    | TypeTimestamp => valTimestamp ← GetTimestamp row colIndex; AppendTimestampToBuffer buffer valTimestamp
    | TypeUnknown => Err "unexpected column type"
    end.

Definition EncodeRow (row : Row) (colTypes : list ColumnType) (buffer : bytes) : outcome bytes :=
  foldMi (λ colIndex buffer colType, encodeRowCol row colIndex colType buffer) 0 buffer colTypes.

(** [if include { rows.Append...ToColumn(colIndex, val) }]. *)
Definition appendIncluded (include : bool) (rows : Rows) (colIndex : nat) (c : option value) : outcome Rows :=
  if include then appendToColumn rows colIndex c else Ok rows.

(** One round of the decoding loop: the row set, the offset and the output column. *)
Definition decodeRowCol (buffer : bytes) (includeCol : option (list bool)) (i : nat)
    (st : Rows * nat * nat) (colType : ColumnType) : outcome (Rows * nat * nat) :=
  let '(rows, offset, colIndex) := st in
  include ← (match includeCol with None => Ok true | Some inc => index inc i end);
  b ← index buffer offset;
  let next (rows : Rows) (offset : nat) := Ok (rows, offset, if include : bool then S colIndex else colIndex) in
  if b =? 0 then
    rows ← appendIncluded include rows colIndex None; next rows (S offset)
  else
    let offset := S offset in
    match Type' colType with
    | TypeTinyInt | TypeInt | TypeBigInt =>
        '(u, offset) ← ReadUint64FromBufferLE buffer offset;
        rows ← appendIncluded include rows colIndex (Some (VInt (i64 u))); next rows offset
    | TypeDecimal =>
        '(val, offset) ← ReadDecimalFromBuffer buffer offset (DecPrecision colType) (DecScale colType);
        rows ← appendIncluded include rows colIndex (Some (VDecimal val)); next rows offset
    | TypeDouble =>
        '(val, offset) ← ReadFloat64FromBufferLE buffer offset;
        rows ← appendIncluded include rows colIndex (Some (VFloat val)); next rows offset
    | TypeVarchar =>
        '(val, offset) ← ReadStringFromBufferLE buffer offset;
        rows ← appendIncluded include rows colIndex (Some (VString val)); next rows offset
    | TypeTimestamp =>
        '(val, offset) ← ReadTimestampFromBuffer buffer offset (FSP colType);
        rows ← appendIncluded include rows colIndex (Some (VTimestamp val)); next rows offset
    | TypeUnknown => Err "unexpected column type"
    end.

Definition DecodeRowWithIgnoredCols (buffer : bytes) (colTypes : list ColumnType)
    (includeCol : option (list bool)) (rows : Rows) : outcome Rows :=
  '(rows, _, _) ← foldMi (decodeRowCol buffer includeCol) 0 (rows, 0%nat, 0%nat) colTypes;
  Ok rows.

Definition DecodeRow (buffer : bytes) (colTypes : list ColumnType) (rows : Rows) : outcome Rows :=
  DecodeRowWithIgnoredCols buffer colTypes None rows.

(** ** The encoded bytes *)

(** The values that are read back as they were written; a decimal has to be in the form in
    which it is read, as decimals from the store are. *)
Definition row_value_ok (ct : ColumnType) (v : value) : Prop :=
  match Type' ct, v with
  | (TypeTinyInt | TypeInt | TypeBigInt), VInt z => i64_ok z
  | TypeDouble, VFloat f => u64_ok (Float64bits f)
  | TypeVarchar, VString s => Z.of_nat (length s) < two32
  | TypeTimestamp, VTimestamp t => time_ok (FSP ct) t
  | TypeDecimal, VDecimal d => dec_fits (DecPrecision ct) (DecScale ct) d ∧ dec_norm (DecPrecision ct) (DecScale ct) d = d
  | _, _ => False
  end.
Definition row_cell_ok (ct : ColumnType) (c : option value) : Prop :=
  match c with None => Type' ct ≠ TypeUnknown | Some v => row_value_ok ct v end.

Definition row_value_bytes (ct : ColumnType) (v : value) : bytes :=
  match v with
  | VInt z => le_bytes 8 (u64 z)
  | VFloat f => le_bytes 8 (Float64bits f)
  | VString s => le_bytes 4 (u32 (Z.of_nat (length s))) ++ s
  | VTimestamp t => le_bytes 8 (pack (coreTime t))
  | VDecimal d => dec_bytes (DecPrecision ct) (DecScale ct) d
  end.
Definition row_cell_bytes (ct : ColumnType) (c : option value) : bytes :=
  match c with None => [0] | Some v => 1 :: row_value_bytes ct v end.

(** The columns of [l] that [includeCol] selects. *)
Fixpoint selected {A} (inc : list bool) (l : list A) : list A :=
  match inc, l with
  | b :: inc', x :: l' => if b then x :: selected inc' l' else selected inc' l'
  | _, _ => []
  end.

(** The flag of column [i]: [includeCol == nil || includeCol\[i\]]. *)
Definition includes (includeCol : option (list bool)) (i : nat) : outcome bool :=
  match includeCol with None => Ok true | Some inc => index inc i end.

(** ** Encoding *)

Lemma encodeRowCol_eq row i ct c b :
  row !! i = Some c → row_cell_ok ct c → encodeRowCol row i ct b = Ok (b ++ row_cell_bytes ct c).
Proof.
  intros Hi Hc. unfold encodeRowCol. rewrite (IsNull_eq _ _ _ Hi). osimpl.
  destruct c as [v|]; cbv iota; [|done]. unfold row_cell_ok, row_value_ok in Hc. cbn [row_cell_bytes].
  destruct (Type' ct) eqn:Ect, v; try done;
    unfold GetInt64, GetFloat64, GetDecimal, GetString, GetTimestamp; rewrite (index_ok _ _ _ Hi); osimpl; cbn [row_value_bytes].
  1-3: by rewrite AppendUint64ToBufferLE_eq, <- app_assoc.
  - unfold AppendFloat64ToBufferLE. by rewrite AppendUint64ToBufferLE_eq, <- app_assoc.
  - destruct Hc as [Hc _]. by rewrite Encode_eq, <- app_assoc.
  - unfold AppendStringToBufferLE. by rewrite AppendUint32ToBufferLE_eq, <- !app_assoc.
  - unfold AppendTimestampToBuffer. rewrite ToPackedUint_eq. osimpl. by rewrite AppendUint64ToBufferLE_eq, <- app_assoc.
Qed.

Lemma EncodeRow_eq cts cs b :
  Forall2 row_cell_ok cts cs → EncodeRow cs cts b = Ok (b ++ cols_bytes row_cell_bytes cts cs).
Proof.
  intros Hok. unfold EncodeRow. change 0%nat with (length (@nil (option value))).
  change cs with ([] ++ cs) at 1. generalize (@nil (option value)) as pre. revert b.
  induction Hok as [|ct c cts cs Hc Hok IH]; intros b pre; simpl foldMi; cbn [cols_bytes]; [by rewrite app_nil_r|].
  rewrite (encodeRowCol_eq _ _ _ c) by (rewrite ?lookup_app_r, ?Nat.sub_diag; done). osimpl.
  specialize (IH (b ++ row_cell_bytes ct c) (pre ++ [c])).
  rewrite length_app, Nat.add_1_r, <- app_assoc in IH. cbn [app] in IH. by rewrite IH, app_assoc.
Qed.

(** ** Decoding *)

Lemma decodeRowCol_app p ct c s includeCol i include rows off ci :
  off = length p → row_cell_ok ct c → includes includeCol i = Ok include →
  decodeRowCol (p ++ row_cell_bytes ct c ++ s) includeCol i (rows, off, ci) ct =
    (rows ← appendIncluded include rows ci c;
     Ok (rows, off + length (row_cell_bytes ct c), if include then S ci else ci))%nat.
Proof.
  intros -> Hc Hinc. unfold decodeRowCol. fold (includes includeCol i). rewrite Hinc. osimpl.
  destruct c as [v|]; cbn [row_cell_bytes].
  - rewrite <- app_comm_cons, index_app_mid by done. osimpl. simpl (1 =? 0). cbv iota.
    replace (p ++ 1 :: row_value_bytes ct v ++ s) with ((p ++ [1]) ++ row_value_bytes ct v ++ s) by by rewrite <- app_assoc.
    unfold row_cell_ok, row_value_ok in Hc.
    destruct (Type' ct) eqn:Ect, v; try done; cbn [row_value_bytes].
    1-3: rewrite ReadUint64LE_app by (rewrite ?length_app; simpl; try lia; apply u64_range); osimpl;
      rewrite i64_u64 by done.
    4: unfold ReadFloat64FromBufferLE; rewrite ReadUint64LE_app by (rewrite ?length_app; simpl; lia || done); osimpl;
      replace (Float64frombits (Float64bits v)) with v by by destruct v.
    5: destruct Hc as [Hc Hn]; unfold ReadDecimalFromBuffer; rewrite Decode_app by (rewrite ?length_app; simpl; lia || done); osimpl; rewrite Hn.
    6: rewrite <- !app_assoc, (app_assoc p), ReadStringLE_app by (rewrite ?length_app; simpl; unfold u32_ok; lia); osimpl.
    7: rewrite ReadTimestampLE_app by (rewrite ?length_app; simpl; done || lia); osimpl.
    all: destruct (appendIncluded _ _ _ _); osimpl; try done; simpl length; rewrite ?length_app, ?length_le_bytes;
      do 3 f_equal; lia.
  - rewrite <- app_comm_cons, index_app_mid by done. osimpl. simpl (0 =? 0). cbv iota.
    destruct (appendIncluded _ _ _ _); osimpl; try done. simpl length. do 3 f_equal. lia.
Qed.

Lemma decode_cols p cts cs s includeCol flags pre rows off ci :
  off = length p → Forall2 row_cell_ok cts cs → length flags = length cts →
  (∀ j b, flags !! j = Some b → includes includeCol (pre + j) = Ok b) →
  foldMi (decodeRowCol (p ++ cols_bytes row_cell_bytes cts cs ++ s) includeCol) pre (rows, off, ci) cts =
    (cols ← foldMi (λ i cols c, appendCell cols i c) ci (columns rows) (selected flags cs);
     Ok (MkRows (columnTypes rows) cols (numVirtualRows rows), off + length (cols_bytes row_cell_bytes cts cs),
         ci + length (selected flags cs)))%nat.
Proof.
  intros Hoff Hok. revert p off Hoff flags pre rows ci.
  induction Hok as [|ct c cts cs Hc Hok IH]; intros p off Hoff [|f flags] pre rows ci Hl Hinc; try done;
    cbn [foldMi cols_bytes selected].
  { simpl. destruct rows. by rewrite !Nat.add_0_r. }
  rewrite <- app_assoc, (decodeRowCol_app _ _ _ _ _ _ f); [|done|done|].
  2:{ rewrite <- (Nat.add_0_r pre). by apply Hinc. }
  specialize (IH (p ++ row_cell_bytes ct c) (off + length (row_cell_bytes ct c))%nat
    ltac:(rewrite length_app; lia) flags (S pre)).
  rewrite <- app_assoc in IH.
  assert (Hinc' : ∀ j b, flags !! j = Some b → includes includeCol (S pre + j) = Ok b).
  { intros j b Hj. specialize (Hinc (S j) b Hj). by rewrite Nat.add_succ_r in Hinc. }
  destruct f; unfold appendIncluded, appendToColumn; cbn [foldMi].
  - destruct (appendCell (columns rows) ci c) as [cols| | |]; osimpl; try done.
    rewrite IH; [|simpl in Hl; lia|done]. cbn [columns columnTypes numVirtualRows].
    destruct (foldMi _ _ _ _); osimpl; try done. rewrite length_app. simpl length. do 2 f_equal; [f_equal|]; lia.
  - osimpl. rewrite IH; [|simpl in Hl; lia|done].
    destruct (foldMi _ _ _ _); osimpl; try done. rewrite length_app. do 2 f_equal. f_equal. lia.
Qed.

(** One more row, the included columns of [cs]. *)
Lemma DecodeRowWithIgnoredCols_ok cts cs s includeCol flags rows rws :
  Forall2 row_cell_ok cts cs → length flags = length cts →
  (∀ j b, flags !! j = Some b → includes includeCol j = Ok b) →
  rows_rep rows rws → length (columnTypes rows) = length (selected flags cs) →
  ∃ rows', DecodeRowWithIgnoredCols (cols_bytes row_cell_bytes cts cs ++ s) cts includeCol rows = Ok rows' ∧
    columnTypes rows' = columnTypes rows ∧ rows_rep rows' (rws ++ [selected flags cs]).
Proof.
  intros Hok Hl Hinc Hrep Hn. unfold DecodeRowWithIgnoredCols.
  pose proof (decode_cols [] cts cs s includeCol flags 0 rows 0 0 eq_refl Hok Hl Hinc) as H.
  rewrite app_nil_l in H. rewrite H.
  destruct (rep_append_cells rows rws (selected flags cs) Hrep) as (cols & -> & Hr); [done|]. osimpl.
  eexists; split; [done|]. split; [done|apply Hr].
Qed.

Lemma selected_all {A} (l : list A) : selected (replicate (length l) true) l = l.
Proof. induction l; simpl; congruence. Qed.

(** * Properties *)

(** A row read back is the row written: decoding an encoded row (followed by any
    bytes) appends exactly that row, nulls included, to the row set. *)
Theorem DecodeRow_EncodeRow (cts : list ColumnType) (row : Row) (s : bytes) (rows : Rows) (rws : list Row) :
  Forall2 row_cell_ok cts row → rows_rep rows rws → length (columnTypes rows) = length cts →
  ∃ b rows', EncodeRow row cts [] = Ok b ∧ DecodeRow (b ++ s) cts rows = Ok rows' ∧ rows_rep rows' (rws ++ [row]).
Proof.
  intros Hok Hrep Hn. pose proof (Forall2_length _ _ _ Hok) as Hl.
  destruct (DecodeRowWithIgnoredCols_ok cts row s None (replicate (length row) true) rows rws) as (rows' & Hd & _ & Hr);
    rewrite ?selected_all, ?length_replicate; try (done || lia).
  { by intros j b [-> _]%lookup_replicate. }
  rewrite selected_all in Hr.
  exists (cols_bytes row_cell_bytes cts row), rows'. split_and!; [by apply EncodeRow_eq|done|done].
Qed.

Lemma DecodeRow_EncodeRow_witness :
  ∃ b rows', EncodeRow [Some (VInt (-1)); None; Some (VString (lit "ok"))] [TinyIntColumnType; DoubleColumnType; VarcharColumnType] [] = Ok b ∧
    DecodeRow (b ++ [77]) [TinyIntColumnType; DoubleColumnType; VarcharColumnType]
      (NewRows [TinyIntColumnType; DoubleColumnType; VarcharColumnType]) = Ok rows' ∧
    rows_rep rows' [[Some (VInt (-1)); None; Some (VString (lit "ok"))]].
Proof.
  apply (DecodeRow_EncodeRow [TinyIntColumnType; DoubleColumnType; VarcharColumnType]
    [Some (VInt (-1)); None; Some (VString (lit "ok"))] [77] (NewRows [TinyIntColumnType; DoubleColumnType; VarcharColumnType]) []);
    [repeat constructor; simpl; done || lia|apply NewRows_rep|reflexivity].
Defined.

(** Reading a row with some columns ignored skips exactly their bytes: the row set
    gets the included columns of the row written, in order. *)
Theorem DecodeRowWithIgnoredCols_EncodeRow (cts : list ColumnType) (row : Row) (include : list bool) (s : bytes)
    (rows : Rows) (rws : list Row) :
  Forall2 row_cell_ok cts row → length include = length cts →
  rows_rep rows rws → length (columnTypes rows) = length (selected include row) →
  ∃ b rows', EncodeRow row cts [] = Ok b ∧
    DecodeRowWithIgnoredCols (b ++ s) cts (Some include) rows = Ok rows' ∧
    rows_rep rows' (rws ++ [selected include row]).
Proof.
  intros Hok Hi Hrep Hn.
  destruct (DecodeRowWithIgnoredCols_ok cts row s (Some include) include rows rws) as (rows' & Hd & _ & Hr); try done.
  { intros j b. apply index_ok. }
  eexists _, rows'. split_and!; [by apply EncodeRow_eq|done|done].
Qed.

Lemma DecodeRowWithIgnoredCols_EncodeRow_witness :
  ∃ b rows', EncodeRow [Some (VInt 12); Some (VString (lit "skip")); Some (VInt 13)] [IntColumnType; VarcharColumnType; BigIntColumnType] [] = Ok b ∧
    DecodeRowWithIgnoredCols (b ++ []) [IntColumnType; VarcharColumnType; BigIntColumnType] (Some [true; false; true])
      (NewRows [IntColumnType; BigIntColumnType]) = Ok rows' ∧
    rows_rep rows' [[Some (VInt 12); Some (VInt 13)]].
Proof.
  apply (DecodeRowWithIgnoredCols_EncodeRow [IntColumnType; VarcharColumnType; BigIntColumnType]
    [Some (VInt 12); Some (VString (lit "skip")); Some (VInt 13)] [true; false; true] []
    (NewRows [IntColumnType; BigIntColumnType]) []);
    [repeat constructor; simpl; done || lia|reflexivity|apply NewRows_rep|reflexivity].
Defined.
