(* ===== verification/Store.v ===== *)
(** * The key-value store

    The storage engine (Pebble) is not part of this repository. [KVStore] states
    what the program relies on: point lookups, batches whose operations take effect
    in order, and ordered range scans. The components are verified against the
    class; [gmap_store] shows that the class can be met and is what the witnesses
    run on. *)

From stdpp Require Import base list strings gmap sorting.
From Stdlib Require Import ZArith Lia.
From S2P Require Import Prelude.

Inductive kv_op :=
  | KVSet (k v : bytes)
  | KVDelete (k : bytes)
  | KVDeleteRange (lo hi : bytes).

#[global] Instance kv_op_eq_dec : EqDecision kv_op.
Proof. solve_decision. Defined.

(** [lo <= k < hi], an absent upper bound being unbounded. *)
Definition in_range (lo : bytes) (hi : option bytes) (k : bytes) : Prop :=
  bytes_le lo k ∧ match hi with Some h => bytes_lt k h | None => True end.

#[global] Instance in_range_dec lo hi k : Decision (in_range lo hi k).
Proof. unfold in_range. destruct hi; apply _. Defined.

(** What one operation does to the value of key [k]. *)
Definition op_effect (k : bytes) (v : option bytes) (op : kv_op) : option bytes :=
  match op with
  | KVSet k' v' => if decide (k = k') then Some v' else v
  | KVDelete k' => if decide (k = k') then None else v
  | KVDeleteRange lo hi => if decide (in_range lo (Some hi) k) then None else v
  end.

Class KVStore (DB : Type) := {
  kv_empty : DB;
  kv_get : DB → bytes → option bytes;
  kv_apply : DB → list kv_op → DB;
  kv_scan : DB → bytes → option bytes → list (bytes * bytes);
  kv_get_empty : ∀ k, kv_get kv_empty k = None;
  kv_get_apply : ∀ db ops k, kv_get (kv_apply db ops) k = foldl (op_effect k) (kv_get db k) ops;
  kv_scan_elem : ∀ db lo hi k v, (k, v) ∈ kv_scan db lo hi ↔ in_range lo hi k ∧ kv_get db k = Some v;
  kv_scan_sorted : ∀ db lo hi, StronglySorted (λ a b, bytes_lt a.1 b.1) (kv_scan db lo hi)
}.

(** Two stores that agree on every lookup. *)
Definition kv_equiv {DB} `{KVStore DB} (a b : DB) : Prop := ∀ k, kv_get a k = kv_get b k.

(** ** Facts of every store *)

Section laws.
Context {DB : Type} `{KVStore DB}.

#[global] Instance kv_equiv_equivalence : Equivalence (kv_equiv (DB := DB)).
Proof.
  split.
  - intros a k. done.
  - intros a b Hab k. by rewrite Hab.
  - intros a b c Hab Hbc k. by rewrite Hab, Hbc.
Qed.

#[global] Instance kv_get_proper : Proper (kv_equiv ==> eq ==> eq) (kv_get (DB := DB)).
Proof. intros a b Hab k ? <-. apply Hab. Qed.

#[global] Instance kv_apply_proper : Proper (kv_equiv ==> eq ==> kv_equiv) (kv_apply (DB := DB)).
Proof. intros a b Hab ops ? <- k. by rewrite !kv_get_apply, Hab. Qed.

Lemma kv_apply_app db o1 o2 : kv_equiv (kv_apply db (o1 ++ o2)) (kv_apply (kv_apply db o1) o2).
Proof. intros k. by rewrite !kv_get_apply, foldl_app. Qed.

Lemma kv_apply_nil db : kv_equiv (kv_apply db []) db.
Proof. intros k. by rewrite kv_get_apply. Qed.

Lemma kv_get_set db k v k' :
  kv_get (kv_apply db [KVSet k v]) k' = if decide (k' = k) then Some v else kv_get db k'.
Proof. by rewrite kv_get_apply. Qed.

(** A strictly sorted list is determined by its elements. *)
Lemma sorted_unique (l1 l2 : list (bytes * bytes)) :
  StronglySorted (λ a b, bytes_lt a.1 b.1) l1 → StronglySorted (λ a b, bytes_lt a.1 b.1) l2 →
  (∀ x, x ∈ l1 ↔ x ∈ l2) → l1 = l2.
Proof.
  intros H1. revert l2. induction H1 as [|x l1 H1 IH Hx]; intros l2 H2 Heq.
  { destruct l2 as [|y l2]; [done|]. destruct (not_elem_of_nil y). apply Heq. left. }
  destruct l2 as [|y l2]. { destruct (not_elem_of_nil x). apply Heq. left. }
  apply StronglySorted_inv in H2 as [H2 Hy]. rewrite Forall_forall in Hx, Hy.
  assert (x = y) as <-.
  { pose proof (proj1 (Heq x) ltac:(left)) as [|Hin1]%elem_of_cons; [done|].
    pose proof (proj2 (Heq y) ltac:(left)) as [|Hin2]%elem_of_cons; [done|].
    destruct (bytes_lt_irrefl x.1). by etrans; [apply Hx|apply Hy]. }
  f_equal. apply IH; [done|]. intros z. split; intros Hz.
  - pose proof (proj1 (Heq z) ltac:(by right)) as [->|]%elem_of_cons; [|done].
    destruct (bytes_lt_irrefl x.1). by apply Hx.
  - pose proof (proj2 (Heq z) ltac:(by right)) as [->|]%elem_of_cons; [|done].
    destruct (bytes_lt_irrefl x.1). by apply Hy.
Qed.

(** Scans only depend on what lookups see. *)
#[global] Instance kv_scan_proper : Proper (kv_equiv ==> eq ==> eq ==> eq) (kv_scan (DB := DB)).
Proof.
  intros a b Hab lo ? <- hi ? <-. apply sorted_unique; [apply kv_scan_sorted..|].
  intros [k v]. by rewrite !kv_scan_elem, Hab.
Qed.
End laws.

(** ** A store as a finite map *)

Definition map_apply (m : gmap bytes bytes) (op : kv_op) : gmap bytes bytes :=
  match op with
  | KVSet k v => <[k := v]> m
  | KVDelete k => delete k m
  | KVDeleteRange lo hi => filter (λ kv, ¬ in_range lo (Some hi) kv.1) m
  end.

Definition key_le (a b : bytes * bytes) : Prop := bytes_le a.1 b.1.
#[global] Instance key_le_dec : RelDecision key_le.
Proof. intros a b. unfold key_le. apply _. Defined.

#[global] Instance key_le_trans : Transitive key_le.
Proof. intros a b c. unfold key_le. apply transitivity. Qed.
#[global] Instance key_le_total : Total key_le.
Proof. intros a b. apply (total bytes_le). Qed.

Definition map_scan (m : gmap bytes bytes) (lo : bytes) (hi : option bytes) : list (bytes * bytes) :=
  merge_sort key_le (map_to_list (filter (λ kv, in_range lo hi kv.1) m)).

Lemma map_get_apply m ops k : foldl map_apply m ops !! k = foldl (op_effect k) (m !! k) ops.
Proof.
  revert m. induction ops as [|op ops IH]; intros m; simpl; [done|]. rewrite IH. f_equal.
  destruct op as [k' v|k'|lo hi]; simpl.
  - destruct (decide (k = k')) as [->|]; by simplify_map_eq.
  - destruct (decide (k = k')) as [->|]; by simplify_map_eq.
  - destruct (decide _) as [Hr|Hr].
    + apply map_lookup_filter_None. right. intros v _. naive_solver.
    + destruct (m !! k) as [v|] eqn:E; [by apply map_lookup_filter_Some|].
      apply map_lookup_filter_None. by left.
Qed.

Lemma map_scan_elem m lo hi k v : (k, v) ∈ map_scan m lo hi ↔ in_range lo hi k ∧ m !! k = Some v.
Proof.
  unfold map_scan. rewrite merge_sort_Permutation, elem_of_map_to_list, map_lookup_filter_Some. simpl. tauto.
Qed.

Lemma map_scan_sorted m lo hi : StronglySorted (λ a b, bytes_lt a.1 b.1) (map_scan m lo hi).
Proof.
  unfold map_scan. set (l := map_to_list _).
  assert (Hnd : NoDup (map fst (merge_sort key_le l))).
  { rewrite merge_sort_Permutation. apply NoDup_fst_map_to_list. }
  assert (Hs : StronglySorted key_le (merge_sort key_le l)).
  { apply (StronglySorted_merge_sort _). }
  induction Hs as [|x l' Hs IH Hx]; constructor; [by apply IH; inv Hnd|].
  rewrite Forall_forall in Hx |- *. intros y Hy. inv Hnd. specialize (Hx y Hy). unfold key_le in Hx.
  apply bytes_le_lt_eq in Hx as [|E]; [done|]. destruct H1. rewrite E. by apply list_elem_of_fmap_2.
Qed.

#[global] Instance gmap_store : KVStore (gmap bytes bytes) := {|
  kv_empty := ∅;
  kv_get := λ m k, m !! k;
  kv_apply := foldl map_apply;
  kv_scan := map_scan;
  kv_get_empty := lookup_empty;
  kv_get_apply := map_get_apply;
  kv_scan_elem := map_scan_elem;
  kv_scan_sorted := map_scan_sorted
|}.
