(* ===== verification/WriteBatch.v ===== *)
(** * Write batches

    Models cluster/write_batch.go, the duplicate screening of cluster/dedup.go, and
    [deserializeWriteBatch] of cluster/dragon/shard_odsm.go, which reads the bytes
    of a batch back on every replica. *)

From stdpp Require Import base list strings gmap.
From Stdlib Require Import ZArith Lia.
From S2P Require Import Prelude Encoding.

Record WriteBatch := MkWriteBatch {
  wb_ShardID : Z;
  BatchID : option bytes;
  Puts : bytes;
  Deletes : bytes;
  DeleteRanges : bytes;
  NumPuts : Z;
  NumDeletes : Z;
  NumDeleteRanges : Z
}.

Definition NewWriteBatch (shardID : Z) : WriteBatch := MkWriteBatch shardID None [] [] [] 0 0 0.

Definition appendBytesWithLength (buff bs : bytes) : bytes :=
  AppendUint32ToBufferLE buff (u32 (Z.of_nat (length bs))) ++ bs.

Definition AddPut (wb : WriteBatch) (k v : bytes) : WriteBatch :=
  MkWriteBatch (wb_ShardID wb) (BatchID wb)
    (appendBytesWithLength (appendBytesWithLength (Puts wb) k) v) (Deletes wb) (DeleteRanges wb)
    (NumPuts wb + 1) (NumDeletes wb) (NumDeleteRanges wb).

Definition AddDelete (wb : WriteBatch) (k : bytes) : WriteBatch :=
  MkWriteBatch (wb_ShardID wb) (BatchID wb) (Puts wb) (appendBytesWithLength (Deletes wb) k) (DeleteRanges wb)
    (NumPuts wb) (NumDeletes wb + 1) (NumDeleteRanges wb).

Definition AddDeleteRange (wb : WriteBatch) (k v : bytes) : WriteBatch :=
  MkWriteBatch (wb_ShardID wb) (BatchID wb) (Puts wb) (Deletes wb)
    (appendBytesWithLength (appendBytesWithLength (DeleteRanges wb) k) v)
    (NumPuts wb) (NumDeletes wb) (NumDeleteRanges wb + 1).

Definition HasWrites (wb : WriteBatch) : bool := (0 <? length (Puts wb))%nat || (0 <? length (Deletes wb))%nat.
Definition HasPuts (wb : WriteBatch) : bool := (0 <? length (Puts wb))%nat.
Definition HasDeleteRanges (wb : WriteBatch) : bool := (0 <? length (DeleteRanges wb))%nat.

Definition SetBatchID (wb : WriteBatch) (id : bytes) : outcome WriteBatch :=
  if negb (length id =? 16)%nat then Panic "id wrong length"
  else Ok (MkWriteBatch (wb_ShardID wb) (Some id) (Puts wb) (Deletes wb) (DeleteRanges wb)
             (NumPuts wb) (NumDeletes wb) (NumDeleteRanges wb)).

Definition Serialize (wb : WriteBatch) (buff : bytes) : bytes :=
  let buff := AppendUint32ToBufferLE buff (u32 (NumPuts wb)) in
  let buff := AppendUint32ToBufferLE buff (u32 (NumDeletes wb)) in
  let buff := AppendUint32ToBufferLE buff (u32 (NumDeleteRanges wb)) in
  let buff := buff ++ Puts wb in
  let buff := buff ++ Deletes wb in
  let buff := buff ++ DeleteRanges wb in
  match BatchID wb with
  | None => buff ++ [0]
  | Some id => (buff ++ [1]) ++ id
  end.

(** A length-prefixed byte string at [offset]. *)
Definition readBytesWithLength (buff : bytes) (offset : nat) : outcome (bytes * nat) :=
  '(lk, offset) ← ReadUint32FromBufferLE buff offset;
  k ← slice buff offset (offset + Z.to_nat lk);
  Ok (k, offset + Z.to_nat lk)%nat.

(** [for offset < len(buff)]: every round moves the offset past a length prefix. *)
Fixpoint forEachKV {T} (fuel : nat) (buff : bytes) (offset : nat) (recv : T → bytes → bytes → outcome T) (st : T) : outcome T :=
  if decide (offset < length buff)%nat then
    match fuel with
    | O => Ok st
    | S fuel' =>
        '(k, offset) ← readBytesWithLength buff offset;
        '(v, offset) ← readBytesWithLength buff offset;
        st ← recv st k v;
        forEachKV fuel' buff offset recv st
    end
  else Ok st.

Fixpoint forEachK {T} (fuel : nat) (buff : bytes) (offset : nat) (recv : T → bytes → outcome T) (st : T) : outcome T :=
  if decide (offset < length buff)%nat then
    match fuel with
    | O => Ok st
    | S fuel' =>
        '(k, offset) ← readBytesWithLength buff offset;
        st ← recv st k;
        forEachK fuel' buff offset recv st
    end
  else Ok st.

Definition ForEachPut {T} (wb : WriteBatch) (recv : T → bytes → bytes → outcome T) (st : T) : outcome T :=
  forEachKV (length (Puts wb)) (Puts wb) 0 recv st.
Definition ForEachDelete {T} (wb : WriteBatch) (recv : T → bytes → outcome T) (st : T) : outcome T :=
  forEachK (length (Deletes wb)) (Deletes wb) 0 recv st.
Definition ForEachDeleteRange {T} (wb : WriteBatch) (recv : T → bytes → bytes → outcome T) (st : T) : outcome T :=
  forEachKV (length (DeleteRanges wb)) (DeleteRanges wb) 0 recv st.

(** ** Reading the bytes back *)

Fixpoint readKVs (n : nat) (buff : bytes) (offset : nat) : outcome (list (bytes * bytes) * nat) :=
  match n with
  | O => Ok ([], offset)
  | S n' =>
      '(k, offset) ← readBytesWithLength buff offset;
      '(v, offset) ← readBytesWithLength buff offset;
      '(l, offset) ← readKVs n' buff offset;
      Ok ((k, v) :: l, offset)
  end.

Fixpoint readKs (n : nat) (buff : bytes) (offset : nat) : outcome (list bytes * nat) :=
  match n with
  | O => Ok ([], offset)
  | S n' =>
      '(k, offset) ← readBytesWithLength buff offset;
      '(l, offset) ← readKs n' buff offset;
      Ok (k :: l, offset)
  end.

Record DeserializedBatch := MkDeserialized {
  d_puts : list (bytes * bytes);
  d_deletes : list bytes;
  d_deleteRanges : list (bytes * bytes);
  d_batchID : option bytes
}.

(** The receiver sequence [seq] of the state machine is appended to the keys of a
    forward batch. *)
Definition deserializeWriteBatch (seq : Z) (buff : bytes) (offset : nat) (forward : bool) :
    outcome (DeserializedBatch * nat) :=
  '(numPuts, offset) ← ReadUint32FromBufferLE buff offset;
  '(numDeletes, offset) ← ReadUint32FromBufferLE buff offset;
  '(numDeleteRanges, offset) ← ReadUint32FromBufferLE buff offset;
  '(puts, offset) ← readKVs (Z.to_nat numPuts) buff offset;
  let puts := map (λ '(k, v), (if forward then AppendUint64ToBufferBE k seq else k, v)) puts in
  '(deletes, offset) ← readKs (Z.to_nat numDeletes) buff offset;
  '(deleteRanges, offset) ← readKVs (Z.to_nat numDeleteRanges) buff offset;
  b ← index buff offset;
  let offset := S offset in
  if b =? 1 then
    batchID ← slice buff offset (offset + 16);
    Ok (MkDeserialized puts deletes deleteRanges (Some batchID), offset + 16)%nat
  else Ok (MkDeserialized puts deletes deleteRanges None, offset).

(** ** Duplicate screening *)

Definition DoDedup (dedupKey : bytes) (dedupMap : gmap bytes Z) : outcome (bool * gmap bytes Z) :=
  oid ← slice dedupKey 0 16;
  '(sequence, _) ← ReadUint64FromBufferBE dedupKey 16;
  match dedupMap !! oid with
  | Some prevSequence =>
      if sequence <=? prevSequence then Ok (true, dedupMap) else Ok (false, <[oid := sequence]> dedupMap)
  | None => Ok (false, <[oid := sequence]> dedupMap)
  end.

(** ** What a batch contains *)

Definition with_length (bs : bytes) : bytes := le_bytes 4 (u32 (Z.of_nat (length bs))) ++ bs.
Definition kv_bytes (kv : bytes * bytes) : bytes := with_length kv.1 ++ with_length kv.2.

(** The batch holds these puts, deletes and delete ranges, in order. *)
Record wb_rep (wb : WriteBatch) (puts : list (bytes * bytes)) (deletes : list bytes) (ranges : list (bytes * bytes)) : Prop := {
  rep_puts : Puts wb = concat (map kv_bytes puts);
  rep_deletes : Deletes wb = concat (map with_length deletes);
  rep_ranges : DeleteRanges wb = concat (map kv_bytes ranges);
  rep_numPuts : NumPuts wb = Z.of_nat (length puts);
  rep_numDeletes : NumDeletes wb = Z.of_nat (length deletes);
  rep_numRanges : NumDeleteRanges wb = Z.of_nat (length ranges)
}.

(** Lengths and counts fit their 32-bit fields. *)
Definition fits (bs : bytes) : Prop := u32_ok (Z.of_nat (length bs)).
Definition kv_fits (kv : bytes * bytes) : Prop := fits kv.1 ∧ fits kv.2.
Definition count_fits {A} (l : list A) : Prop := u32_ok (Z.of_nat (length l)).

(** ** Lemmas *)

Lemma appendBytesWithLength_eq b bs : appendBytesWithLength b bs = b ++ with_length bs.
Proof. unfold appendBytesWithLength, with_length. by rewrite AppendUint32ToBufferLE_eq, <- app_assoc. Qed.

Lemma length_with_length bs : length (with_length bs) = (4 + length bs)%nat.
Proof. unfold with_length. by rewrite length_app, length_le_bytes. Qed.

Lemma NewWriteBatch_rep shard : wb_rep (NewWriteBatch shard) [] [] [].
Proof. by split. Qed.

Lemma AddPut_rep wb puts dels rngs k v :
  wb_rep wb puts dels rngs → wb_rep (AddPut wb k v) (puts ++ [(k, v)]) dels rngs.
Proof.
  intros []. split; simpl; try done.
  - rewrite !appendBytesWithLength_eq, map_app, concat_app, rep_puts0. simpl. unfold kv_bytes. simpl.
    by rewrite app_nil_r, app_assoc.
  - rewrite length_app. simpl. lia.
Qed.

Lemma AddDelete_rep wb puts dels rngs k :
  wb_rep wb puts dels rngs → wb_rep (AddDelete wb k) puts (dels ++ [k]) rngs.
Proof.
  intros []. split; simpl; try done.
  - rewrite appendBytesWithLength_eq, map_app, concat_app, rep_deletes0. simpl. by rewrite app_nil_r.
  - rewrite length_app. simpl. lia.
Qed.

Lemma AddDeleteRange_rep wb puts dels rngs k v :
  wb_rep wb puts dels rngs → wb_rep (AddDeleteRange wb k v) puts dels (rngs ++ [(k, v)]).
Proof.
  intros []. split; simpl; try done.
  - rewrite !appendBytesWithLength_eq, map_app, concat_app, rep_ranges0. simpl. unfold kv_bytes. simpl.
    by rewrite app_nil_r, app_assoc.
  - rewrite length_app. simpl. lia.
Qed.

#[export] Hint Resolve NewWriteBatch_rep AddPut_rep AddDelete_rep AddDeleteRange_rep : prana.

Lemma readBytesWithLength_app p bs s off :
  off = length p → fits bs →
  readBytesWithLength (p ++ with_length bs ++ s) off = Ok (bs, off + length (with_length bs))%nat.
Proof.
  intros -> Hf. unfold readBytesWithLength. pose proof (ReadStringLE_app p bs s (length p) eq_refl Hf) as H.
  unfold ReadStringFromBufferLE in H. unfold with_length at 1. rewrite <- app_assoc. rewrite length_with_length.
  destruct (ReadUint32FromBufferLE _ _) as [[u off]| | |]; osimpl in H; try done.
  osimpl. destruct (slice _ _ _); osimpl in H; try done. osimpl. inv H. do 2 f_equal. lia.
Qed.

(** A pair read in sequence. *)
Lemma read_kv_app {B} p kv s off (f : bytes → bytes → nat → outcome B) :
  off = length p → kv_fits kv →
  ('(k, offset) ← readBytesWithLength (p ++ kv_bytes kv ++ s) off;
   '(v, offset) ← readBytesWithLength (p ++ kv_bytes kv ++ s) offset;
   f k v offset) = f kv.1 kv.2 (off + length (kv_bytes kv))%nat.
Proof.
  intros -> [Hk Hv]. unfold kv_bytes. rewrite <- app_assoc, readBytesWithLength_app by done. osimpl.
  rewrite app_assoc, readBytesWithLength_app by (rewrite ?length_app; done). osimpl.
  rewrite !length_app. by rewrite Nat.add_assoc.
Qed.

Lemma readKVs_app p l s off :
  off = length p → Forall kv_fits l →
  readKVs (length l) (p ++ concat (map kv_bytes l) ++ s) off = Ok (l, off + length (concat (map kv_bytes l)))%nat.
Proof.
  intros Hoff Hl. revert p off Hoff. induction Hl as [|kv l Hkv Hl IH]; intros p off Hoff; simpl.
  { by rewrite Nat.add_0_r. }
  rewrite <- app_assoc, (read_kv_app p kv _ off (λ k v offset, '(l, offset) ← readKVs _ _ offset; Ok ((k, v) :: l, offset)))
    by done.
  rewrite app_assoc, IH by (rewrite length_app; lia). osimpl. rewrite length_app, Nat.add_assoc. by destruct kv.
Qed.

Lemma readKs_app p l s off :
  off = length p → Forall fits l →
  readKs (length l) (p ++ concat (map with_length l) ++ s) off = Ok (l, off + length (concat (map with_length l)))%nat.
Proof.
  intros Hoff Hl. revert p off Hoff. induction Hl as [|k l Hk Hl IH]; intros p off Hoff; simpl.
  { by rewrite Nat.add_0_r. }
  rewrite <- app_assoc, readBytesWithLength_app by done. osimpl.
  rewrite app_assoc, IH by (rewrite length_app; lia). osimpl. by rewrite length_app, Nat.add_assoc.
Qed.

Lemma forEachKV_app {T} (recv : T → bytes → bytes → outcome T) p l off fuel st :
  off = length p → Forall kv_fits l → (length (concat (map kv_bytes l)) ≤ fuel)%nat →
  forEachKV fuel (p ++ concat (map kv_bytes l)) off recv st = foldM (λ st '(k, v), recv st k v) st l.
Proof.
  intros Hoff Hl. revert p off Hoff fuel st. induction Hl as [|kv l Hkv Hl IH]; intros p off Hoff fuel st Hf.
  { destruct fuel; simpl; rewrite decide_False by (rewrite app_nil_r; lia); done. }
  simpl in Hf. rewrite length_app in Hf.
  assert (8 ≤ length (kv_bytes kv))%nat by (unfold kv_bytes; rewrite length_app, !length_with_length; lia).
  destruct fuel as [|fuel]; [lia|]. simpl. rewrite decide_True by (rewrite !length_app; lia).
  rewrite (read_kv_app p kv _ off (λ k v offset, st ← recv st k v; forEachKV _ _ offset recv st)) by done.
  destruct kv as [k v]. simpl. destruct (recv st k v) as [st'| | |]; osimpl; try done.
  rewrite app_assoc. apply IH; [rewrite length_app; lia|lia].
Qed.

Lemma forEachK_app {T} (recv : T → bytes → outcome T) p l off fuel st :
  off = length p → Forall fits l → (length (concat (map with_length l)) ≤ fuel)%nat →
  forEachK fuel (p ++ concat (map with_length l)) off recv st = foldM recv st l.
Proof.
  intros Hoff Hl. revert p off Hoff fuel st. induction Hl as [|k l Hk Hl IH]; intros p off Hoff fuel st Hf.
  { destruct fuel; simpl; rewrite decide_False by (rewrite app_nil_r; lia); done. }
  simpl in Hf. rewrite length_app, length_with_length in Hf.
  destruct fuel as [|fuel]; [lia|]. simpl. rewrite decide_True by (rewrite !length_app, length_with_length; lia).
  rewrite readBytesWithLength_app by done. osimpl. destruct (recv st k) as [st'| | |]; osimpl; try done.
  rewrite app_assoc. apply IH; [rewrite length_app; lia|lia].
Qed.

(** ** Duplicate screening of a stream of rows *)

(** Originator and sequence of a dedup key, with whatever follows them. *)
Definition dedup_key (d : bytes * Z) (rest : bytes) : bytes := d.1 ++ be_bytes 8 d.2 ++ rest.
Definition dedup_ok (d : bytes * Z) : Prop := length d.1 = 16%nat ∧ u64_ok d.2.

(** Is a row with this originator and sequence a duplicate? *)
Definition is_dup (m : gmap bytes Z) (d : bytes * Z) : bool :=
  match m !! d.1 with Some prev => d.2 <=? prev | None => false end.
Definition dedup_next (m : gmap bytes Z) (d : bytes * Z) : gmap bytes Z :=
  if is_dup m d then m else <[d.1 := d.2]> m.

(** A stream of rows: which were ignored, and the sequences after them. *)
Fixpoint dedup_stream (m : gmap bytes Z) (keys : list bytes) : outcome (list bool * gmap bytes Z) :=
  match keys with
  | [] => Ok ([], m)
  | k :: keys' =>
      '(ignore, m) ← DoDedup k m;
      '(l, m) ← dedup_stream m keys';
      Ok (ignore :: l, m)
  end.

Lemma DoDedup_eq m d rest :
  dedup_ok d → DoDedup (dedup_key d rest) m = Ok (is_dup m d, dedup_next m d).
Proof.
  intros [Hl Hs]. unfold DoDedup, dedup_key, dedup_next, is_dup.
  pose proof (slice_app [] d.1 (be_bytes 8 d.2 ++ rest) 0 16 eq_refl) as H. rewrite app_nil_l in H.
  rewrite H by done. osimpl. rewrite ReadUint64BE_app by (rewrite ?Hl; done). osimpl.
  destruct (m !! d.1); [|done]. by destruct (d.2 <=? z).
Qed.

(** Recorded sequences never go back. *)
Lemma dedup_next_mono m d oid prev :
  m !! oid = Some prev → ∃ prev', dedup_next m d !! oid = Some prev' ∧ prev ≤ prev'.
Proof.
  intros H. unfold dedup_next, is_dup. destruct (decide (oid = d.1)) as [->|Hne].
  - rewrite H. destruct (Z.leb_spec (d.2) prev); [by exists prev|]. rewrite lookup_insert_eq. eexists; split; [done|lia].
  - exists prev. split; [|lia]. case_match; [done|]. by rewrite lookup_insert_ne.
Qed.

Lemma dedup_next_covers m d : is_dup (dedup_next m d) d = true.
Proof.
  unfold dedup_next. destruct (is_dup m d) eqn:E; [done|]. unfold is_dup. rewrite lookup_insert_eq. apply Z.leb_refl.
Qed.

Lemma is_dup_mono m d e : is_dup m e = true → is_dup (dedup_next m d) e = true.
Proof.
  unfold is_dup at 1. destruct (m !! e.1) as [prev|] eqn:E; [|done]. intros Hle%Z.leb_le.
  destruct (dedup_next_mono m d _ _ E) as (prev' & H' & Hp). unfold is_dup. rewrite H'. apply Z.leb_le. lia.
Qed.

Lemma dedup_stream_eq m ds rests :
  Forall dedup_ok ds → length rests = length ds →
  dedup_stream m (zip_with dedup_key ds rests) =
    Ok (imap (λ i d, is_dup (foldl dedup_next m (take i ds)) d) ds, foldl dedup_next m ds).
Proof.
  intros Hok. revert m rests. induction Hok as [|d ds Hd Hok IH]; intros m [|r rests] Hl; try done. simpl.
  rewrite DoDedup_eq by done. osimpl. rewrite IH by (simpl in Hl; lia). osimpl. done.
Qed.

Lemma foldl_dup m ds e : is_dup m e = true → is_dup (foldl dedup_next m ds) e = true.
Proof. revert m. induction ds as [|d ds IH]; intros m H; simpl; [done|]. apply IH. by apply is_dup_mono. Qed.

Lemma foldl_covers m ds e : e ∈ ds → is_dup (foldl dedup_next m ds) e = true.
Proof.
  intros (l1 & l2 & ->)%list_elem_of_split. rewrite foldl_app. simpl. apply foldl_dup, dedup_next_covers.
Qed.

Lemma foldl_all_dup m ds : Forall (λ e, is_dup m e = true) ds → foldl dedup_next m ds = m.
Proof. induction 1 as [|d ds Hd Hds IH]; simpl; [done|]. unfold dedup_next at 2. by rewrite Hd. Qed.

Lemma deserialize_eq (wb : WriteBatch) (puts rngs : list (bytes * bytes)) (dels : list bytes)
    (p s : bytes) (seq : Z) (forward : bool) :
  wb_rep wb puts dels rngs →
  Forall kv_fits puts → Forall fits dels → Forall kv_fits rngs →
  count_fits puts → count_fits dels → count_fits rngs →
  (∀ id, BatchID wb = Some id → length id = 16%nat) →
  deserializeWriteBatch seq (Serialize wb p ++ s) (length p) forward =
    Ok (MkDeserialized (map (λ '(k, v), (if forward then AppendUint64ToBufferBE k seq else k, v)) puts)
          dels rngs (BatchID wb), length (Serialize wb p)).
Proof.
  intros [Hp Hd Hr Np Nd Nr] Fp Fd Fr Cp Cd Cr Hid. unfold deserializeWriteBatch, Serialize.
  rewrite !AppendUint32ToBufferLE_eq, Hp, Hd, Hr, Np, Nd, Nr, !u32_small by done.
  set (tail := match BatchID wb with None => [0] | Some id => 1 :: id end).
  replace (match BatchID wb with None => _ | Some id => _ end) with
    (p ++ le_bytes 4 (Z.of_nat (length puts)) ++ le_bytes 4 (Z.of_nat (length dels)) ++ le_bytes 4 (Z.of_nat (length rngs)) ++
     concat (map kv_bytes puts) ++ concat (map with_length dels) ++ concat (map kv_bytes rngs) ++ tail) by (unfold tail; destruct (BatchID wb); by rewrite <- !app_assoc).
  rewrite <- !app_assoc.
  rewrite ReadUint32LE_app by done. osimpl.
  rewrite (app_assoc p), ReadUint32LE_app by (rewrite ?length_app, ?length_le_bytes; done). osimpl.
  rewrite (app_assoc (p ++ _)), ReadUint32LE_app by (rewrite ?length_app, ?length_le_bytes; done || lia). osimpl.
  rewrite (app_assoc ((p ++ _) ++ _)), !Nat2Z.id, readKVs_app by (rewrite ?length_app, ?length_le_bytes; done || lia). osimpl.
  rewrite (app_assoc (((p ++ _) ++ _) ++ _)), readKs_app
    by (rewrite ?length_app, ?length_le_bytes; done || lia). osimpl.
  rewrite (app_assoc ((((p ++ _) ++ _) ++ _) ++ _)), readKVs_app
    by (rewrite ?length_app, ?length_le_bytes; done || lia). osimpl.
  rewrite (app_assoc (((((p ++ _) ++ _) ++ _) ++ _) ++ _)).
  unfold tail. destruct (BatchID wb) as [id|]; rewrite <- app_comm_cons, index_app_mid
    by (rewrite ?length_app, ?length_le_bytes; lia); osimpl.
  - change (?a ++ 1 :: ?b) with (a ++ [1] ++ b). rewrite (app_assoc _ [1]), slice_app
      by (rewrite ?length_app, ?length_le_bytes, ?(Hid id eq_refl); simpl; done || lia). osimpl.
    rewrite !length_app, !length_le_bytes. simpl length. rewrite (Hid id eq_refl). do 2 f_equal. lia.
  - rewrite !length_app, !length_le_bytes. simpl length. do 2 f_equal. lia.
Qed.

(** * Properties *)

(** C28. Every replica reads back the batch that was proposed: deserializing a
    serialized write batch, at any offset and followed by any bytes, gives its puts,
    deletes and delete ranges in the order they were added and its batch id, and the
    offset just past it. A forward batch gets the receiver sequence appended to its
    keys. *)
Theorem deserialize_Serialize (wb : WriteBatch) (puts rngs : list (bytes * bytes)) (dels : list bytes)
    (p s : bytes) (seq : Z) (forward : bool) :
  wb_rep wb puts dels rngs →
  Forall kv_fits puts → Forall fits dels → Forall kv_fits rngs →
  count_fits puts → count_fits dels → count_fits rngs →
  (∀ id, BatchID wb = Some id → length id = 16%nat) →
  deserializeWriteBatch seq (Serialize wb p ++ s) (length p) forward =
    Ok (MkDeserialized (map (λ '(k, v), (if forward then AppendUint64ToBufferBE k seq else k, v)) puts)
          dels rngs (BatchID wb), length (Serialize wb p)).
Proof. apply deserialize_eq. Qed.

Lemma deserialize_Serialize_witness :
  deserializeWriteBatch 7 (Serialize (AddDelete (AddPut (NewWriteBatch 9) [1; 2] [3]) [4]) [2; 0; 1] ++ [255]) 3 false =
    Ok (MkDeserialized [([1; 2], [3])] [[4]] [] None, length (Serialize (AddDelete (AddPut (NewWriteBatch 9) [1; 2] [3]) [4]) [2; 0; 1])).
Proof.
  apply (deserialize_Serialize (AddDelete (AddPut (NewWriteBatch 9) [1; 2] [3]) [4]) [([1; 2], [3])] [] [[4]] [2; 0; 1] [255] 7 false);
    [by apply (AddDelete_rep _ _ []), (AddPut_rep _ [])|repeat constructor; vm_compute; congruence..|done].
Defined.

(** Every put, delete and delete range of a batch is visited exactly once, in the
    order they were added, and the visit stops at the first error. *)
Theorem ForEach_visits {T} (wb : WriteBatch) (puts rngs : list (bytes * bytes)) (dels : list bytes)
    (recv : T → bytes → bytes → outcome T) (recvK : T → bytes → outcome T) (st : T) :
  wb_rep wb puts dels rngs → Forall kv_fits puts → Forall fits dels → Forall kv_fits rngs →
  ForEachPut wb recv st = foldM (λ st '(k, v), recv st k v) st puts ∧
  ForEachDelete wb recvK st = foldM recvK st dels ∧
  ForEachDeleteRange wb recv st = foldM (λ st '(k, v), recv st k v) st rngs.
Proof.
  intros [Hp Hd Hr _ _ _] Fp Fd Fr. unfold ForEachPut, ForEachDelete, ForEachDeleteRange. rewrite Hp, Hd, Hr.
  split_and!; [apply (forEachKV_app _ [])|apply (forEachK_app _ [])|apply (forEachKV_app _ [])]; done.
Qed.

Lemma ForEach_visits_witness :
  let wb := AddPut (AddPut (NewWriteBatch 1) [1] [2]) [3] [] in
  ForEachPut wb (λ l k v, Ok (l ++ [(k, v)])) [] = Ok [([1], [2]); ([3], [])] ∧
  ForEachDelete wb (λ l k, Ok (l ++ [(k, [] : bytes)])) [] = Ok [] ∧
  ForEachDeleteRange wb (λ l k v, Ok (l ++ [(k, v)])) [] = Ok [].
Proof.
  apply (ForEach_visits (AddPut (AddPut (NewWriteBatch 1) [1] [2]) [3] []) [([1], [2]); ([3], [])] [] []
    (λ l k v, Ok (l ++ [(k, v)])) (λ l k, Ok (l ++ [(k, [] : bytes)])) []);
    [by apply (AddPut_rep _ [_]), (AddPut_rep _ [])|repeat constructor; vm_compute; congruence..].
Defined.

(** Rows are taken at most once: after a stream of rows from any number of
    originators has been screened, delivering any of those rows again, in any order
    and any number of times, is ignored and leaves the recorded sequences as they
    were. *)
Theorem redelivery_ignored (m : gmap bytes Z) (ds es : list (bytes * Z)) (rests rests' : list bytes) :
  Forall dedup_ok ds → length rests = length ds → length rests' = length es → (∀ e, e ∈ es → e ∈ ds) →
  ∃ ignored m', dedup_stream m (zip_with dedup_key ds rests) = Ok (ignored, m') ∧
    dedup_stream m' (zip_with dedup_key es rests') = Ok (replicate (length es) true, m').
Proof.
  intros Hok Hl Hl' Hsub. eexists _, _. split; [by apply dedup_stream_eq|].
  set (m' := foldl dedup_next m ds).
  assert (Hes : Forall (λ e, is_dup m' e = true) es).
  { apply Forall_forall. intros e He. by apply foldl_covers, Hsub. }
  rewrite dedup_stream_eq; [|apply Forall_forall; rewrite Forall_forall in Hok; auto|done].
  rewrite (foldl_all_dup m' es Hes). do 2 f_equal.
  apply list_eq. intros i. rewrite list_lookup_imap. destruct (es !! i) as [e|] eqn:E; simpl.
  - rewrite lookup_replicate_2 by (by eapply lookup_lt_Some). f_equal.
    rewrite foldl_all_dup by (by apply Forall_take). rewrite Forall_lookup in Hes. eauto.
  - symmetry. apply lookup_replicate_None. by apply lookup_ge_None.
Qed.

Lemma redelivery_ignored_witness :
  ∃ ignored m', dedup_stream ∅ (zip_with dedup_key [(replicate 16 1, 5); (replicate 16 2, 1); (replicate 16 1, 6)] [[]; [9]; []]) = Ok (ignored, m') ∧
    dedup_stream m' (zip_with dedup_key [(replicate 16 1, 6); (replicate 16 1, 5)] [[]; [1]]) = Ok (replicate 2 true, m').
Proof.
  apply (redelivery_ignored ∅ [(replicate 16 1, 5); (replicate 16 2, 1); (replicate 16 1, 6)]
    [(replicate 16 1, 6); (replicate 16 1, 5)] [[]; [9]; []] [[]; [1]]); [repeat constructor; simpl; lia|done|done|].
  intros e He. repeat (apply elem_of_cons in He as [->|He]); [by do 2 right; left|by left|by apply not_elem_of_nil in He].
Defined.
