(* ===== verification/Table.v ===== *)
(** * Tables and their keys

    Models table/table.go, the table and index descriptions of common/meta.go, the
    system table ids of common/sys_table.go, and [IncrementBytesBigEndian] of
    common/util.go, from which the scans get their upper bounds. *)

From stdpp Require Import base list strings gmap.
From Stdlib Require Import ZArith Lia.
From S2P Require Import Prelude Encoding Timestamp Decimal Rows KeyEncoding RowEncoding Store WriteBatch.

Record IndexInfo := MkIndexInfo {
  ii_ID : Z;
  ii_TableName : bytes;
  ii_Name : bytes;
  IndexCols : list nat
}.

Record TableInfo := MkTableInfo {
  ti_ID : Z;
  ti_SchemaName : bytes;
  ti_Name : bytes;
  PrimaryKeyCols : list nat;
  ti_ColumnNames : list bytes;
  ti_ColumnTypes : list ColumnType;
  ColsVisible : option (list bool);
  RetentionDuration : Z;
  RowTimeIndexID : Z
}.

Definition ReceiverTableID : Z := 1.
Definition SequenceGeneratorTableID : Z := 2.
Definition LocksTableID : Z := 3.
Definition LastLogIndexReceivedTableID : Z := 4.
Definition SyncTableID : Z := 5.
Definition SchemaTableID : Z := 6.
Definition ProtobufTableID : Z := 7.
Definition IndexTableID : Z := 8.
Definition ToDeleteTableID : Z := 9.
Definition LocalConfigTableID : Z := 10.
Definition ForwardDedupTableID : Z := 11.
Definition ShardLeaderTableID : Z := 12.
Definition DummyTableID : Z := 13.

(** [for i := lb - 1; i >= 0; i--], entered with [i = n - 1]. *)
Fixpoint increment_loop (n : nat) (bs inced : bytes) : outcome bytes :=
  match n with
  | O => Ok inced
  | S i =>
      b ← index bs i;
      if b <? 255 then Ok (<[i := b + 1]> inced)
      else if (i =? 0)%nat then Panic "cannot increment key - all bits set"
      else increment_loop i bs (<[i := 0]> inced)
  end.

Definition IncrementBytesBigEndian (bs : bytes) : outcome bytes := increment_loop (length bs) bs bs.

Definition EncodeTableKeyPrefix (tableID shardID : Z) : bytes :=
  let keyBuff := AppendUint64ToBufferBE [] shardID in
  AppendUint64ToBufferBE keyBuff tableID.

Definition encodeKeyFromRow (tableInfo : TableInfo) (row : Row) (shardID : Z) : outcome bytes :=
  let keyBuff := EncodeTableKeyPrefix (ti_ID tableInfo) shardID in
  EncodeKeyCols row (PrimaryKeyCols tableInfo) (ti_ColumnTypes tableInfo) keyBuff.

Definition Upsert (tableInfo : TableInfo) (row : Row) (writeBatch : WriteBatch) : outcome WriteBatch :=
  keyBuff ← encodeKeyFromRow tableInfo row (wb_ShardID writeBatch);
  valueBuff ← EncodeRow row (ti_ColumnTypes tableInfo) [];
  Ok (AddPut writeBatch keyBuff valueBuff).

Definition EncodeIndexKeyValue (tableInfo : TableInfo) (indexInfo : IndexInfo) (shardID : Z) (row : Row) : outcome (bytes * bytes) :=
  let keyBuff := EncodeTableKeyPrefix (ii_ID indexInfo) shardID in
  keyBuff ← EncodeIndexKeyCols row (IndexCols indexInfo) (ti_ColumnTypes tableInfo) keyBuff;
  let pkStart := length keyBuff in
  keyBuff ← EncodeKeyCols row (PrimaryKeyCols tableInfo) (ti_ColumnTypes tableInfo) keyBuff;
  valueBuff ← slice_from keyBuff pkStart;
  Ok (keyBuff, valueBuff).

(** ** Incrementing a key *)

(** Some byte of the key can grow. *)
Definition incrementable (bs : bytes) : Prop := Exists (λ b, b < 255) bs.

#[global] Instance incrementable_dec bs : Decision (incrementable bs).
Proof. unfold incrementable. apply _. Defined.

Lemma increment_loop_eq n : ∀ bs suf,
  bytes_ok bs → length bs = n → incrementable bs →
  ∃ bs', increment_loop n (bs ++ replicate (length suf) 255) (bs ++ suf) = Ok (bs' ++ suf) ∧
    length bs' = n ∧ bytes_ok bs' ∧ be_val bs' = be_val bs + 1.
Proof.
  induction n as [|n IH]; intros bs suf Hok Hl Hinc; [apply nil_length_inv in Hl; subst; by inv Hinc|].
  destruct bs as [|b bs _] using rev_ind; [done|]. rewrite length_app in Hl. simpl in Hl.
  assert (Hn : length bs = n) by lia. apply bytes_ok_app in Hok as [Hbs [Hb _]%Forall_cons].
  simpl. rewrite <- !app_assoc. simpl. rewrite index_app_mid by done. osimpl.
  destruct (Z.ltb_spec b 255).
  - exists (bs ++ [b + 1]). rewrite insert_app_r_alt by lia. rewrite Hn, Nat.sub_diag. simpl. rewrite <- app_assoc.
    split_and!; [done|rewrite length_app; simpl; lia|apply bytes_ok_app; split; [done|];
      apply Forall_singleton; unfold byte_ok in *; lia|]. rewrite !be_val_app. simpl length.
    change [b + 1] with ([] ++ [b + 1]). change [b] with ([] ++ [b]). unfold be_val at 2 4. simpl. lia.
  - assert (b = 255) as -> by (unfold byte_ok in Hb; lia).
    assert (Hinc' : incrementable bs).
    { apply Exists_app in Hinc as [|Hx]; [done|]. inv Hx; [lia|]. match goal with H : Exists _ [] |- _ => inv H end. }
    destruct n as [|n']; [apply nil_length_inv in Hn; subst; by inv Hinc'|]. simpl Nat.eqb. cbv iota.
    destruct (IH bs (0 :: suf) Hbs Hn Hinc') as (bs' & Hrun & Hl' & Hok' & Hval).
    exists (bs' ++ [0]). rewrite insert_app_r_alt by lia. rewrite Hn, Nat.sub_diag. simpl in Hrun |- *.
    rewrite Hrun, <- app_assoc. split_and!; [done|rewrite length_app; simpl; lia| |].
    + apply bytes_ok_app. split; [done|]. apply Forall_singleton. unfold byte_ok. lia.
    + rewrite !be_val_app, Hval. simpl length. unfold be_val at 2 4. simpl. lia.
Qed.

Lemma IncrementBytesBigEndian_eq p :
  bytes_ok p → incrementable p →
  ∃ p', IncrementBytesBigEndian p = Ok p' ∧ length p' = length p ∧ bytes_ok p' ∧ be_val p' = be_val p + 1.
Proof.
  intros Hok Hinc. destruct (increment_loop_eq (length p) p [] Hok eq_refl Hinc) as (p' & H & ?).
  exists p'. simpl in H. rewrite !app_nil_r in H. done.
Qed.

Lemma be_val_inj a b : bytes_ok a → bytes_ok b → length a = length b → be_val a = be_val b → a = b.
Proof. intros. apply bytes_cmp_eq. rewrite bytes_cmp_be_val by done. by apply Z.compare_eq_iff. Qed.

(** The keys between a prefix and its increment are the keys with that prefix. *)
Lemma prefix_range p p' k :
  bytes_ok p → bytes_ok p' → bytes_ok k → length p' = length p → be_val p' = be_val p + 1 →
  (length p ≤ length k)%nat → in_range p (Some p') k ↔ p `prefix_of` k.
Proof.
  intros Hp Hp' Hk Hl Hv Hlk. rewrite <- (take_drop (length p) k).
  assert (Ht : length (take (length p) k) = length p) by (rewrite length_take; lia).
  unfold in_range, bytes_le, bytes_lt.
  rewrite <- (app_nil_r p) at 1. rewrite <- (app_nil_r p') at 1.
  rewrite !bytes_cmp_app_lex, (bytes_cmp_be_val p), (bytes_cmp_be_val _ p')
    by (rewrite ?Hl; auto using bytes_ok_take; by rewrite Ht).
  split.
  - intros [H1 H2]. assert (E : take (length p) k = p); [|exists (drop (length p) k); by rewrite E].
    apply be_val_inj; auto using bytes_ok_take. rewrite Hv in H2.
    destruct (Z.compare_spec (be_val p) (be_val (take (length p) k))); try done.
    destruct (Z.compare_spec (be_val (take (length p) k)) (be_val p + 1)) as [E| |]; try (lia || done).
    simpl in H2. by destruct (drop (length p) k).
  - intros [r Hr]. assert (take (length p) k = p) as ->.
    { rewrite take_drop in Hr. rewrite Hr, take_app_length. done. }
    rewrite Hv, Z.compare_refl. rewrite (proj2 (Z.compare_lt_iff _ _)) by lia.
    simpl. split; [by destruct (drop (length p) k)|done].
Qed.

(** ** Table key prefixes *)

Lemma EncodeTableKeyPrefix_eq t s : EncodeTableKeyPrefix t s = be_bytes 8 s ++ be_bytes 8 t.
Proof. unfold EncodeTableKeyPrefix. by rewrite !AppendUint64ToBufferBE_eq. Qed.

Lemma length_EncodeTableKeyPrefix t s : length (EncodeTableKeyPrefix t s) = 16%nat.
Proof. by rewrite EncodeTableKeyPrefix_eq, length_app, !length_be_bytes. Qed.

Lemma EncodeTableKeyPrefix_ok t s : bytes_ok (EncodeTableKeyPrefix t s).
Proof. rewrite EncodeTableKeyPrefix_eq. apply bytes_ok_app. auto using be_bytes_ok. Qed.

#[export] Hint Resolve EncodeTableKeyPrefix_ok : prana.

Lemma be_val_prefix t s : u64_ok t → u64_ok s → be_val (EncodeTableKeyPrefix t s) = s * two64 + t.
Proof.
  intros Ht Hs. rewrite EncodeTableKeyPrefix_eq, be_val_app, length_be_bytes, !be_val_be_bytes.
  unfold_width. rewrite !Z.mod_small; simpl Z.of_nat; lia.
Qed.

(** Keys of one table of one shard, and no others, lie between its prefix and the
    prefix of the next table id. *)
Lemma table_range t s k :
  u64_ok t → t + 1 < two64 → u64_ok s → bytes_ok k → (16 ≤ length k)%nat →
  in_range (EncodeTableKeyPrefix t s) (Some (EncodeTableKeyPrefix (t + 1) s)) k ↔ EncodeTableKeyPrefix t s `prefix_of` k.
Proof.
  intros Ht Ht1 Hs Hk Hl. apply prefix_range; auto using EncodeTableKeyPrefix_ok; rewrite ?length_EncodeTableKeyPrefix; try done.
  rewrite !be_val_prefix; unfold_width; lia.
Qed.

(** ** Stores of table keys *)

Section stores.
Context {DB : Type} `{KVStore DB}.

(** Every key has at least its shard and table id. *)
Definition keys_ok (db : DB) : Prop := ∀ k v, kv_get db k = Some v → bytes_ok k ∧ (16 ≤ length k)%nat.

Lemma keys_ok_apply db ops :
  keys_ok db → Forall (λ op, match op with KVSet k _ => bytes_ok k ∧ (16 ≤ length k)%nat | _ => True end) ops →
  keys_ok (kv_apply db ops).
Proof.
  intros Hdb Hops k v. rewrite kv_get_apply. specialize (Hdb k). revert v. generalize (kv_get db k) as w, Hdb.
  induction Hops as [|op ops Hop _ IH]; intros w Hw v; cbn [foldl]; [apply Hw|]. apply IH.
  destruct op as [k' u|k'|lo hi]; simpl; case_decide; subst; try done; by intros ? [= <-].
Qed.


Lemma keys_ok_equiv db db' : kv_equiv db db' → keys_ok db → keys_ok db'.
Proof. intros E Hk k v. rewrite <- E. apply Hk. Qed.

(** Scanning a table finds the stored pairs with its prefix. *)
Lemma table_scan_elem db t s k v :
  u64_ok t → t + 1 < two64 → u64_ok s → keys_ok db →
  (k, v) ∈ kv_scan db (EncodeTableKeyPrefix t s) (Some (EncodeTableKeyPrefix (t + 1) s)) ↔
  kv_get db k = Some v ∧ EncodeTableKeyPrefix t s `prefix_of` k.
Proof.
  intros Ht Ht1 Hs Hdb. rewrite kv_scan_elem. split; intros [H1 H2].
  - destruct (Hdb _ _ H2). split; [done|]. by apply table_range.
  - destruct (Hdb _ _ H1). split; [|done]. by apply table_range.
Qed.
End stores.

Lemma be_bytes_inj n u v : 0 ≤ u < 256 ^ Z.of_nat n → 0 ≤ v < 256 ^ Z.of_nat n → be_bytes n u = be_bytes n v → u = v.
Proof. intros Hu Hv H. apply (f_equal be_val) in H. by rewrite !be_val_be_bytes, !Z.mod_small in H. Qed.

Lemma EncodeTableKeyPrefix_inj t s t' s' x y :
  u64_ok t → u64_ok s → u64_ok t' → u64_ok s' →
  EncodeTableKeyPrefix t s ++ x = EncodeTableKeyPrefix t' s' ++ y → t = t' ∧ s = s' ∧ x = y.
Proof.
  intros Ht Hs Ht' Hs' H. apply app_inj_1 in H as [H ->]; [|by rewrite !length_EncodeTableKeyPrefix].
  rewrite !EncodeTableKeyPrefix_eq in H. apply app_inj_1 in H as [H1 H2]; [|by rewrite !length_be_bytes].
  apply be_bytes_inj in H1; [|done..]. apply be_bytes_inj in H2; [|done..]. done.
Qed.

(** ** Row keys *)

(** The primary key values of a row. *)
Definition pk_values (ti : TableInfo) (row : Row) (cts : list ColumnType) (vs : list value) : Prop :=
  types_at (ti_ColumnTypes ti) (PrimaryKeyCols ti) = Some cts ∧
  cells_at row (PrimaryKeyCols ti) = Some (map Some vs) ∧ Forall2 key_value_ok cts vs.

Definition row_key (ti : TableInfo) (shardID : Z) (cts : list ColumnType) (vs : list value) : bytes :=
  EncodeTableKeyPrefix (ti_ID ti) shardID ++ cols_bytes key_bytes cts vs.

Lemma encodeKeyFromRow_eq ti row s cts vs :
  pk_values ti row cts vs → encodeKeyFromRow ti row s = Ok (row_key ti s cts vs).
Proof. intros (Ht & Hc & Hok). unfold encodeKeyFromRow. by erewrite EncodeKeyCols_eq. Qed.

Lemma cols_bytes_cmp cts vs ws :
  Forall2 key_value_ok cts vs → Forall2 key_value_ok cts ws →
  bytes_cmp (cols_bytes key_bytes cts vs) (cols_bytes key_bytes cts ws) = cols_compare value_compare vs ws.
Proof.
  intros Hv Hw. pose proof (cols_code key_value_ok key_bytes value_compare cts (λ ct, value_code ct) vs ws [] [] Hv Hw) as H.
  rewrite !app_nil_r in H. rewrite H. by destruct (cols_compare value_compare vs ws).
Qed.

Lemma row_key_cmp ti s cts vs ws :
  Forall2 key_value_ok cts vs → Forall2 key_value_ok cts ws →
  bytes_cmp (row_key ti s cts vs) (row_key ti s cts ws) = cols_compare value_compare vs ws.
Proof. intros. unfold row_key. by rewrite bytes_cmp_app_common, cols_bytes_cmp. Qed.

Lemma Upsert_eq ti row wb cts vs :
  pk_values ti row cts vs → Forall2 row_cell_ok (ti_ColumnTypes ti) row →
  Upsert ti row wb = Ok (AddPut wb (row_key ti (wb_ShardID wb) cts vs) (cols_bytes row_cell_bytes (ti_ColumnTypes ti) row)).
Proof.
  intros Hpk Hok. unfold Upsert. rewrite (encodeKeyFromRow_eq _ _ _ _ _ Hpk). osimpl.
  rewrite EncodeRow_eq by done. done.
Qed.

Lemma EncodeIndexKeyValue_eq ti ii s row cts vs ictys cs :
  pk_values ti row cts vs →
  types_at (ti_ColumnTypes ti) (IndexCols ii) = Some ictys → cells_at row (IndexCols ii) = Some cs → Forall2 cell_ok ictys cs →
  EncodeIndexKeyValue ti ii s row =
    Ok (EncodeTableKeyPrefix (ii_ID ii) s ++ cols_bytes cell_bytes ictys cs ++ cols_bytes key_bytes cts vs,
        cols_bytes key_bytes cts vs).
Proof.
  intros (Ht & Hc & Hok) Hit Hic Hiok. unfold EncodeIndexKeyValue.
  erewrite EncodeIndexKeyCols_eq by done. osimpl. erewrite EncodeKeyCols_eq by done. osimpl.
  rewrite slice_from_ok by (rewrite !length_app; lia). osimpl. by rewrite drop_app_length, <- app_assoc.
Qed.

(** * Properties *)

(** The upper bound of a prefix scan: incrementing a key prefix that has a byte
    below 255 gives a bound such that the keys at least as long as the prefix that lie
    between the two are exactly the keys with that prefix. *)
Theorem IncrementBytesBigEndian_bounds_prefix (p : bytes) :
  bytes_ok p → incrementable p →
  ∃ p', IncrementBytesBigEndian p = Ok p' ∧ length p' = length p ∧
    ∀ k, bytes_ok k → (length p ≤ length k)%nat → in_range p (Some p') k ↔ p `prefix_of` k.
Proof.
  intros Hok Hinc. destruct (IncrementBytesBigEndian_eq p Hok Hinc) as (p' & H & Hl & Hok' & Hv).
  exists p'. split_and!; [done..|]. intros k Hk Hlk. by apply prefix_range.
Qed.

Lemma IncrementBytesBigEndian_bounds_prefix_witness :
  ∃ p', IncrementBytesBigEndian [1; 7; 255; 255] = Ok p' ∧ length p' = 4%nat ∧
    ∀ k, bytes_ok k → (4 ≤ length k)%nat → in_range [1; 7; 255; 255] (Some p') k ↔ [1; 7; 255; 255] `prefix_of` k.
Proof. apply (IncrementBytesBigEndian_bounds_prefix [1; 7; 255; 255]); by_decide. Defined.

Section scans.
Context {DB : Type} `{KVStore DB}.

(** A scan of one table in one shard sees that table and nothing else: when
    every key of the store has at least its shard and table id, the scan from the
    table's prefix to the prefix of the next table id returns exactly the stored
    pairs whose key starts with the table's prefix. *)
Theorem table_scan_exact (db : DB) (tableID shardID : Z) (k v : bytes) :
  u64_ok tableID → tableID + 1 < two64 → u64_ok shardID → keys_ok db →
  (k, v) ∈ kv_scan db (EncodeTableKeyPrefix tableID shardID) (Some (EncodeTableKeyPrefix (tableID + 1) shardID)) ↔
  kv_get db k = Some v ∧ EncodeTableKeyPrefix tableID shardID `prefix_of` k.
Proof. apply table_scan_elem. Qed.
End scans.

Lemma table_scan_exact_witness :
  let db := kv_apply (DB := gmap bytes bytes) ∅ [KVSet (EncodeTableKeyPrefix 5 2 ++ [8]) [1]] in
  (EncodeTableKeyPrefix 5 2 ++ [8], [1]) ∈ kv_scan db (EncodeTableKeyPrefix 5 2) (Some (EncodeTableKeyPrefix 6 2)).
Proof.
  intros db.
  assert (Hdb : ∀ k v, kv_get db k = Some v → bytes_ok k ∧ (16 ≤ length k)%nat).
  { intros k v. unfold db. rewrite kv_get_apply. simpl. destruct (decide _) as [->|]; [|done]. intros _. split; by_decide. }
  apply (table_scan_exact db 5 2 (EncodeTableKeyPrefix 5 2 ++ [8]) [1]); [split; lia|lia|split; lia|exact Hdb|].
  split; [vm_compute; reflexivity|by apply prefix_app_r].
Defined.

(** Rows have distinct keys: if the stored keys of two rows are equal then the rows
    are in the same shard and the same table, and, when both are rows of one table,
    their primary keys are equal values. *)
Theorem row_keys_distinct (ti ti' : TableInfo) (row row' : Row) (s s' : Z) (cts cts' : list ColumnType) (vs vs' : list value) (k : bytes) :
  u64_ok (ti_ID ti) → u64_ok (ti_ID ti') → u64_ok s → u64_ok s' →
  pk_values ti row cts vs → pk_values ti' row' cts' vs' →
  encodeKeyFromRow ti row s = Ok k → encodeKeyFromRow ti' row' s' = Ok k →
  s = s' ∧ ti_ID ti = ti_ID ti' ∧ (cts = cts' → cols_compare value_compare vs vs' = Eq).
Proof.
  intros Ht Ht' Hs Hs' Hpk Hpk' Hk Hk'.
  rewrite (encodeKeyFromRow_eq _ _ _ _ _ Hpk) in Hk. rewrite (encodeKeyFromRow_eq _ _ _ _ _ Hpk') in Hk'.
  assert (He : row_key ti s cts vs = row_key ti' s' cts' vs') by congruence.
  apply EncodeTableKeyPrefix_inj in He as (? & ? & He); [|done..].
  split_and!; [done..|]. intros <-. destruct Hpk as (_ & _ & Ov), Hpk' as (_ & _ & Ov').
  rewrite <- (cols_bytes_cmp cts) by done. by apply bytes_cmp_eq.
Qed.

Lemma row_keys_distinct_witness :
  let ti := MkTableInfo 1001 [] (lit "t") [0%nat] [] [BigIntColumnType; VarcharColumnType] None 0 0 in
  2 = 2 ∧ ti_ID ti = ti_ID ti ∧
    ([BigIntColumnType] = [BigIntColumnType] → cols_compare value_compare [VInt 3] [VInt 3] = Eq).
Proof.
  set (ti := MkTableInfo 1001 [] (lit "t") [0%nat] [] [BigIntColumnType; VarcharColumnType] None 0 0).
  assert (Hpk : ∀ c, pk_values ti [Some (VInt 3); c] [BigIntColumnType] [VInt 3])
    by (intros c; split_and!; [done|done|repeat constructor; simpl; lia]).
  apply (row_keys_distinct ti ti [Some (VInt 3); None] [Some (VInt 3); Some (VString [])] 2 2
    [BigIntColumnType] [BigIntColumnType] [VInt 3] [VInt 3] (row_key ti 2 [BigIntColumnType] [VInt 3]));
    [split; simpl; lia..|apply Hpk|apply Hpk|by apply encodeKeyFromRow_eq|by apply encodeKeyFromRow_eq].
Defined.

(** An index entry leads to its row: the entry's key starts with the index's
    prefix and continues with the index columns and the primary key, and its value is
    what has to be appended to the table's prefix to get the key the row is stored
    under. *)
Theorem index_entry_points_to_row (ti : TableInfo) (ii : IndexInfo) (s : Z) (row : Row) (cts ictys : list ColumnType)
    (vs : list value) (cs : list (option value)) :
  pk_values ti row cts vs →
  types_at (ti_ColumnTypes ti) (IndexCols ii) = Some ictys → cells_at row (IndexCols ii) = Some cs → Forall2 cell_ok ictys cs →
  ∃ ikey ival icols, EncodeIndexKeyValue ti ii s row = Ok (ikey, ival) ∧
    EncodeIndexKeyCols row (IndexCols ii) (ti_ColumnTypes ti) [] = Ok icols ∧
    ikey = EncodeTableKeyPrefix (ii_ID ii) s ++ icols ++ ival ∧
    encodeKeyFromRow ti row s = Ok (EncodeTableKeyPrefix (ti_ID ti) s ++ ival).
Proof.
  intros Hpk Hit Hic Hok. rewrite (encodeKeyFromRow_eq _ _ _ _ _ Hpk).
  eexists _, _, _. split_and!; [by eapply EncodeIndexKeyValue_eq|by eapply EncodeIndexKeyCols_eq|done|done].
Qed.

Lemma index_entry_points_to_row_witness :
  let ti := MkTableInfo 1001 [] (lit "t") [0%nat] [] [BigIntColumnType; VarcharColumnType] None 0 0 in
  let ii := MkIndexInfo 1002 (lit "t") (lit "i") [1%nat] in
  ∃ ikey ival icols, EncodeIndexKeyValue ti ii 2 [Some (VInt 3); None] = Ok (ikey, ival) ∧
    EncodeIndexKeyCols [Some (VInt 3); None] (IndexCols ii) (ti_ColumnTypes ti) [] = Ok icols ∧
    ikey = EncodeTableKeyPrefix (ii_ID ii) 2 ++ icols ++ ival ∧
    encodeKeyFromRow ti [Some (VInt 3); None] 2 = Ok (EncodeTableKeyPrefix (ti_ID ti) 2 ++ ival).
Proof.
  apply (index_entry_points_to_row (MkTableInfo 1001 [] (lit "t") [0%nat] [] [BigIntColumnType; VarcharColumnType] None 0 0)
    (MkIndexInfo 1002 (lit "t") (lit "i") [1%nat]) 2 [Some (VInt 3); None] [BigIntColumnType] [VarcharColumnType] [VInt 3] [None]);
    [split_and!; [done|done|repeat constructor; simpl; lia]|done|done|repeat constructor].
Defined.
