(* ===== verification/LocalStore.v ===== *)
(** * Local storage of a node

    Models the part of cluster/dragon/dragon.go that works on the node's own store:
    [LocalGet], [LocalScan], [WriteBatchLocally], the range deletes, the to-delete
    table that makes dropping a table recoverable, the configuration properties that
    must not change, and the static placement of shards on nodes. *)

From stdpp Require Import base list strings gmap pretty.
From Stdlib Require Import ZArith Lia.
From S2P Require Import Prelude Encoding Timestamp Decimal Rows KeyEncoding RowEncoding Store WriteBatch Table.

Definition DataShardIDBase : Z := 1000.
Definition tableSequenceClusterID : Z := 1.
Definition locksClusterID : Z := 2.
Definition toDeleteShardID : Z := 4.

(** A conditional delete that was announced: the prefixes to delete unless the
    table exists. *)
Record ToDeleteBatch := MkToDeleteBatch {
  ConditionalTableID : Z;
  Prefixes : list bytes
}.

Section local.
Context {DB : Type} `{KVStore DB}.

Definition localGet (db : DB) (key : bytes) : option bytes := kv_get db key.
Definition LocalGet (db : DB) (key : bytes) : option bytes := localGet db key.

(** The loop runs while [limit == -1 || count < limit] and there is a next pair: a
    negative limit other than -1 gives nothing. *)
Definition limited {A} (limit : Z) (l : list A) : list A :=
  if (limit =? -1) || (Z.of_nat (length l) <=? limit) then l else take (Z.to_nat limit) l.

Definition LocalScan (db : DB) (startKeyPrefix : bytes) (endKeyPrefix : option bytes) (limit : Z) : list (bytes * bytes) :=
  limited limit (kv_scan db startKeyPrefix endKeyPrefix).

(** Only the puts and the deletes of the batch are applied. *)
Definition WriteBatchLocally (db : DB) (batch : WriteBatch) : outcome DB :=
  if wb_ShardID batch <? DataShardIDBase then Panic "invalid shard cluster id"
  else
    pebBatch ← ForEachPut batch (λ ops k v, Ok (ops ++ [KVSet k v])) [];
    pebBatch ← ForEachDelete batch (λ ops k, Ok (ops ++ [KVDelete k])) pebBatch;
    Ok (kv_apply db pebBatch).

Definition deleteAllDataInRangeForShardsLocally (db : DB) (startPrefix endPrefix : bytes) (shardIDs : list Z) : DB :=
  kv_apply db (map (λ shardID,
    KVDeleteRange (AppendUint64ToBufferBE [] shardID ++ startPrefix) (AppendUint64ToBufferBE [] shardID ++ endPrefix)) shardIDs).

Definition DeleteAllDataInRangeForShardLocally (db : DB) (shardID : Z) (startPrefix endPrefix : bytes) : DB :=
  deleteAllDataInRangeForShardsLocally db startPrefix endPrefix [shardID].

(** ** The to-delete table *)

Definition createToDeleteKey (conditionalTableID : Z) (prefix : bytes) : bytes :=
  let key := EncodeTableKeyPrefix ToDeleteTableID toDeleteShardID in
  AppendUint64ToBufferBE key conditionalTableID ++ prefix.

Definition AddToDeleteBatch (db : DB) (b : ToDeleteBatch) : DB :=
  kv_apply db (map (λ prefix, KVSet (createToDeleteKey (ConditionalTableID b) prefix) []) (Prefixes b)).

Definition RemoveToDeleteBatch (db : DB) (b : ToDeleteBatch) : DB :=
  kv_apply db (map (λ prefix, KVDelete (createToDeleteKey (ConditionalTableID b) prefix)) (Prefixes b)).

(** The loop that groups the scanned entries: [localBatches] with [currBatch] as
    its last element. *)
Definition groupEntry (localBatches : list ToDeleteBatch) (kvPair : bytes * bytes) : outcome (list ToDeleteBatch) :=
  '(conditionalTableID, _) ← ReadUint64FromBufferBE kvPair.1 16;
  prefix ← slice_from kvPair.1 24;
  match last localBatches with
  | Some currBatch =>
      if ConditionalTableID currBatch =? conditionalTableID
      then Ok (removelast localBatches ++ [MkToDeleteBatch conditionalTableID (Prefixes currBatch ++ [prefix])])
      else Ok (localBatches ++ [MkToDeleteBatch conditionalTableID [prefix]])
  | None => Ok (localBatches ++ [MkToDeleteBatch conditionalTableID [prefix]])
  end.

(** [ExecuteQuery schema sql] is the query engine of the node, which can fail. *)
Definition tableExists (ExecuteQuery : bytes → bytes → outcome Rows) (id : Z) : outcome bool :=
  rows ← ExecuteQuery (lit "sys") (lit "select * from tables where id=" ++ lit (pretty id));
  Ok (negb (RowCount rows =? 0)%nat).

Definition checkDeleteToDeleteData (queryExec : bytes → bytes → outcome Rows) (db : DB) : outcome DB :=
  let keyStartPrefix := EncodeTableKeyPrefix ToDeleteTableID toDeleteShardID in
  let keyEndPrefix := EncodeTableKeyPrefix (ToDeleteTableID + 1) toDeleteShardID in
  let kvPairs := LocalScan db keyStartPrefix (Some keyEndPrefix) (-1) in
  localBatches ← foldM groupEntry [] kvPairs;
  db ←
    (if (0 <? length localBatches)%nat then
       pBatch ← foldM (λ pBatch b,
           exists_ ← tableExists queryExec (ConditionalTableID b);
           if (exists_ : bool) then Ok pBatch
           else foldM (λ pBatch prefix,
                  endPrefix ← IncrementBytesBigEndian prefix;
                  Ok (pBatch ++ [KVDeleteRange prefix endPrefix])) pBatch (Prefixes b)) [] localBatches;
       Ok (kv_apply db pBatch)
     else Ok db);
  Ok (foldl RemoveToDeleteBatch db localBatches).

(** ** Configuration properties *)

Definition configKey (property : bytes) : bytes :=
  AppendUint32ToBufferBE (EncodeTableKeyPrefix LocalConfigTableID 0) (u32 (Z.of_nat (length property))) ++ property.

Definition GetConfigProperty (db : DB) (property : bytes) : option bytes := LocalGet db (configKey property).

Definition SetConfigProperty (db : DB) (property v : bytes) : DB := kv_apply db [KVSet (configKey property) v].

Definition checkConstantProperty (db : DB) (property : bytes) (expectedValue : Z) : outcome DB :=
  match GetConfigProperty db property with
  | None => Ok (SetConfigProperty db property (AppendUint32ToBufferLE [] (u32 expectedValue)))
  | Some v =>
      '(value, _) ← ReadUint32FromBufferLE v 0;
      if negb (value =? expectedValue) then Err "property in cluster cannot be changed after cluster creation"
      else Ok db
  end.
End local.

(** ** Placement of shards *)

Record Placement := MkPlacement {
  localDataShards : list Z;
  allDataShards : list Z;
  shardAllocs : gmap Z (list Z)
}.

Definition replicaNodes (numNodes : nat) (shardID : Z) (replicationFactor : nat) : list Z :=
  map (λ j, (shardID + Z.of_nat j) mod Z.of_nat numNodes) (seq 0 replicationFactor).

Definition generateReplicas (numNodes : nat) (nodeID : Z) (p : Placement) (shardID : Z) (replicationFactor : nat) (dataShard : bool) : Placement :=
  let nids := replicaNodes numNodes shardID replicationFactor in
  let mine := filter (λ n, n = nodeID) nids in
  MkPlacement (localDataShards p ++ (if dataShard then map (λ _, shardID) mine else [])) (allDataShards p)
    (<[shardID := nids]> (shardAllocs p)).

Definition generateNodesAndShards (numNodes : nat) (nodeID : Z) (numShards replicationFactor : nat) : Placement :=
  let ids := map (λ i, DataShardIDBase + Z.of_nat i) (seq 0 numShards) in
  let p := foldl (λ p shardID, generateReplicas numNodes nodeID p shardID replicationFactor true)
             (MkPlacement [] ids ∅) ids in
  let p := generateReplicas numNodes nodeID p tableSequenceClusterID replicationFactor false in
  generateReplicas numNodes nodeID p locksClusterID replicationFactor false.

(** ** Batches of one kind of operation *)

Lemma effect_deletes k v ks : foldl (op_effect k) v (map KVDelete ks) = if decide (k ∈ ks) then None else v.
Proof.
  revert v. induction ks as [|k' ks IH]; intros v; cbn [map foldl]; [by rewrite decide_False by apply not_elem_of_nil|].
  rewrite IH. cbn [op_effect]. destruct (decide (k = k')), (decide (k ∈ ks)), (decide (k ∈ k' :: ks)); set_solver.
Qed.

Lemma effect_ranges k v (rs : list (bytes * bytes)) :
  foldl (op_effect k) v (map (λ r, KVDeleteRange r.1 r.2) rs) =
    if decide (Exists (λ r, in_range r.1 (Some r.2) k) rs) then None else v.
Proof.
  revert v. induction rs as [|r rs IH]; intros v; cbn [map foldl]; [by rewrite decide_False by (by intros ?%Exists_nil)|].
  rewrite IH. cbn [op_effect]. destruct (decide (in_range _ _ _)), (decide (Exists _ rs)), (decide (Exists _ (r :: rs)));
    rewrite ?Exists_cons in *; naive_solver.
Qed.

Lemma effect_sets_miss k v (kvs : list (bytes * bytes)) :
  k ∉ map fst kvs → foldl (op_effect k) v (map (λ kv, KVSet kv.1 kv.2) kvs) = v.
Proof.
  revert v. induction kvs as [|kv kvs IH]; intros v Hk; simpl; [done|]. simpl in Hk.
  apply not_elem_of_cons in Hk as [Hne Hk]. rewrite decide_False by done. by apply IH.
Qed.

Lemma effect_sets_hit k w v (kvs : list (bytes * bytes)) :
  (k, w) ∈ kvs → (∀ w', (k, w') ∈ kvs → w' = w) → foldl (op_effect k) v (map (λ kv, KVSet kv.1 kv.2) kvs) = Some w.
Proof.
  revert v. induction kvs as [|[k' w'] kvs IH]; intros v Hin Huniq; [by apply not_elem_of_nil in Hin|]. simpl.
  destruct (decide (k ∈ map fst kvs)) as [Hk|Hk].
  - apply list_elem_of_fmap in Hk as ([? w''] & ? & Hk). simpl in *; subst.
    apply IH; [|intros; apply Huniq; by right]. rewrite <- (Huniq w''); [done|by right].
  - rewrite effect_sets_miss by done. apply elem_of_cons in Hin as [[= <- <-]|Hin]; [by rewrite decide_True|].
    destruct Hk. apply list_elem_of_fmap. by exists (k, w).
Qed.

(** ** Dropping data *)

Section drops.
Context {DB : Type} `{KVStore DB}.

(** The entries of the to-delete table, as batches hold them. *)
Definition flat (bs : list ToDeleteBatch) : list (Z * bytes) :=
  concat (map (λ b, map (pair (ConditionalTableID b)) (Prefixes b)) bs).

Lemma flat_app a b : flat (a ++ b) = flat a ++ flat b.
Proof. unfold flat. by rewrite map_app, concat_app. Qed.

Definition entry_ok (e : Z * bytes) : Prop := u64_ok e.1 ∧ bytes_ok e.2 ∧ incrementable e.2.
Definition entry_key (e : Z * bytes) : bytes := createToDeleteKey e.1 e.2.

Lemma entry_key_eq e : entry_key e = EncodeTableKeyPrefix ToDeleteTableID toDeleteShardID ++ be_bytes 8 e.1 ++ e.2.
Proof. unfold entry_key, createToDeleteKey. by rewrite AppendUint64ToBufferBE_eq, <- app_assoc. Qed.

Lemma groupEntry_eq bs e v :
  entry_ok e → ∃ bs', groupEntry bs (entry_key e, v) = Ok bs' ∧ flat bs' = flat bs ++ [e].
Proof.
  intros (Hc & _). unfold groupEntry. cbn [fst]. rewrite entry_key_eq.
  rewrite ReadUint64BE_app by (rewrite ?length_EncodeTableKeyPrefix; done). osimpl.
  rewrite slice_from_ok by (rewrite !length_app, length_EncodeTableKeyPrefix, length_be_bytes; lia). osimpl.
  rewrite app_assoc, drop_app_length' by (by rewrite length_app, length_EncodeTableKeyPrefix, length_be_bytes).
  destruct e as [c p]. cbn [fst snd]. destruct (last bs) as [b|] eqn:Hl.
  - destruct (Z.eqb_spec (ConditionalTableID b) c) as [<-|]; eexists; (split; [done|]).
    + apply last_Some in Hl as [bs0 ->]. rewrite removelast_last, !flat_app. unfold flat at 2 4. simpl.
      by rewrite !app_nil_r, map_app, app_assoc.
    + by rewrite flat_app.
  - eexists; split; [done|]. by rewrite flat_app.
Qed.

Lemma groupEntries_eq es vs bs :
  Forall entry_ok es → length vs = length es →
  ∃ bs', foldM groupEntry bs (zip (map entry_key es) vs) = Ok bs' ∧ flat bs' = flat bs ++ es.
Proof.
  intros Hok. revert bs vs. induction Hok as [|e es He Hok IH]; intros bs [|v vs] Hl; try done.
  { exists bs. by rewrite app_nil_r. }
  destruct (groupEntry_eq bs e v He) as (bs1 & H1 & F1). destruct (IH bs1 vs ltac:(simpl in Hl; lia)) as (bs2 & H2 & F2).
  exists bs2. simpl. rewrite H1. simpl. split; [done|]. by rewrite F2, F1, <- app_assoc.
Qed.

(** The ranges deleted for the entries whose table does not exist. *)
Definition drop_range (p : bytes) : bytes * bytes :=
  (p, match IncrementBytesBigEndian p with Ok p' => p' | _ => [] end).
Definition drop_ranges (exists_ : Z → bool) (es : list (Z * bytes)) : list (bytes * bytes) :=
  map (λ e, drop_range e.2) (filter (λ e, exists_ e.1 = false) es).

Lemma drop_prefixes_eq acc ps :
  Forall (λ p, bytes_ok p ∧ incrementable p) ps →
  foldM (λ pBatch prefix, endPrefix ← IncrementBytesBigEndian prefix; Ok (pBatch ++ [KVDeleteRange prefix endPrefix])) acc ps =
    Ok (acc ++ map (λ r, KVDeleteRange r.1 r.2) (map drop_range ps)).
Proof.
  intros Hok. revert acc. induction Hok as [|p ps [Hp Hi] Hok IH]; intros acc; simpl; [by rewrite app_nil_r|].
  destruct (IncrementBytesBigEndian_eq p Hp Hi) as (p' & Hinc & _). unfold drop_range at 1. rewrite Hinc. simpl.
  rewrite IH. by rewrite <- app_assoc.
Qed.

Lemma drop_batches_eq queryExec (exists_ : Z → bool) acc bs :
  Forall entry_ok (flat bs) → Forall (λ b, tableExists queryExec (ConditionalTableID b) = Ok (exists_ (ConditionalTableID b))) bs →
  foldM (λ pBatch b, x ← tableExists queryExec (ConditionalTableID b); if (x : bool) then Ok pBatch
          else foldM (λ pBatch prefix, endPrefix ← IncrementBytesBigEndian prefix;
                        Ok (pBatch ++ [KVDeleteRange prefix endPrefix])) pBatch (Prefixes b)) acc bs =
    Ok (acc ++ map (λ r, KVDeleteRange r.1 r.2) (drop_ranges exists_ (flat bs))).
Proof.
  revert acc. induction bs as [|b bs IH]; intros acc Hok Hq; simpl; [by rewrite app_nil_r|]. apply Forall_cons in Hq as [-> Hq]. osimpl.
  unfold flat in Hok |- *. simpl in Hok |- *. fold (flat bs) in Hok |- *. apply Forall_app in Hok as [Hb Hbs].
  unfold drop_ranges. rewrite (filter_app (λ e : Z * bytes, exists_ e.1 = false)), map_app, map_app.
  assert (Hf : map (λ e : Z * bytes, drop_range e.2) (filter (λ e : Z * bytes, exists_ e.1 = false) (map (pair (ConditionalTableID b)) (Prefixes b))) =
               if exists_ (ConditionalTableID b) then [] else map drop_range (Prefixes b)).
  { clear. induction (Prefixes b) as [|p ps IH]; simpl; [by case_match|].
    rewrite filter_cons. simpl. destruct (exists_ _); simpl; [done|]. by rewrite IH. }
  rewrite Hf. destruct (exists_ (ConditionalTableID b)); simpl.
  - by rewrite IH.
  - rewrite drop_prefixes_eq.
    2:{ rewrite Forall_map in Hb. eapply Forall_impl; [done|]. intros p (_ & ? & ?). done. }
    simpl. rewrite IH by done. by rewrite <- app_assoc.
Qed.

(** Every batch has an entry. *)
Lemma groupEntry_nonempty bs kv bs' : groupEntry bs kv = Ok bs' → Forall (λ b, Prefixes b ≠ []) bs → Forall (λ b, Prefixes b ≠ []) bs'.
Proof.
  unfold groupEntry. intros E Hbs. destruct (ReadUint64FromBufferBE kv.1 16) as [[id off]| | |]; try done. osimpl in E.
  destruct (slice_from kv.1 24) as [prefix| | |]; try done. osimpl in E. destruct (last bs) as [c|] eqn:El; [destruct (_ =? _)|]; simplify_eq.
  - apply last_Some in El as [l ->]. rewrite removelast_last. apply Forall_app in Hbs as [Hl Hc]. apply Forall_app. split; [done|].
    constructor; [|constructor]. simpl. by destruct (Prefixes c).
  - apply Forall_app. split; [done|]. by repeat constructor.
  - apply Forall_app. split; [done|]. by repeat constructor.
Qed.

Lemma groupEntries_nonempty kvs : ∀ bs bs', foldM groupEntry bs kvs = Ok bs' → Forall (λ b, Prefixes b ≠ []) bs → Forall (λ b, Prefixes b ≠ []) bs'.
Proof.
  induction kvs as [|kv kvs IH]; intros bs bs'; cbn [foldM]; [by intros [= ->]|]. intros E Hbs. ostep E. eapply IH; [exact E|]. by eapply groupEntry_nonempty.
Qed.

Lemma get_RemoveToDeleteBatches db bs k :
  kv_get (foldl RemoveToDeleteBatch db bs) k = if decide (k ∈ map entry_key (flat bs)) then None else kv_get db k.
Proof.
  revert db. induction bs as [|b bs IH]; intros db; cbn [foldl]; [by rewrite decide_False by apply not_elem_of_nil|].
  rewrite IH. unfold RemoveToDeleteBatch at 1. rewrite kv_get_apply.
  replace (map (λ prefix, KVDelete (createToDeleteKey (ConditionalTableID b) prefix)) (Prefixes b))
    with (map KVDelete (map entry_key (map (pair (ConditionalTableID b)) (Prefixes b)))) by (by rewrite !map_map).
  rewrite effect_deletes. change (flat (b :: bs)) with (map (pair (ConditionalTableID b)) (Prefixes b) ++ flat bs).
  rewrite map_app. repeat case_decide; set_solver.
Qed.

Lemma checkDeleteToDeleteData_get queryExec exists_ (db : DB) es vs :
  Forall entry_ok es → length vs = length es → Forall (λ e, tableExists queryExec e.1 = Ok (exists_ e.1)) es →
  kv_scan db (EncodeTableKeyPrefix ToDeleteTableID toDeleteShardID)
    (Some (EncodeTableKeyPrefix (ToDeleteTableID + 1) toDeleteShardID)) = zip (map entry_key es) vs →
  ∃ db', checkDeleteToDeleteData queryExec db = Ok db' ∧
    ∀ k, kv_get db' k =
      if decide (k ∈ map entry_key es) then None
      else if decide (Exists (λ r, in_range r.1 (Some r.2) k) (drop_ranges exists_ es)) then None
      else kv_get db k.
Proof.
  intros Hok Hl Hq Hscan. unfold checkDeleteToDeleteData, LocalScan, limited. simpl (_ || _). cbv iota. rewrite Hscan.
  destruct (groupEntries_eq es vs [] Hok Hl) as (bs & Hgroup & Hflat). rewrite Hgroup. osimpl. simpl in Hflat.
  destruct bs as [|b bs].
  - eexists; split; [done|]. intros k. assert (es = []) as -> by done.
    rewrite decide_False by apply not_elem_of_nil. by rewrite decide_False by (by intros ?%Exists_nil).
  - set (l := b :: bs) in *. change (0 <? length l)%nat with true. cbv iota.
    assert (Hqs : Forall (λ b, tableExists queryExec (ConditionalTableID b) = Ok (exists_ (ConditionalTableID b))) l).
    { pose proof (groupEntries_nonempty _ _ _ Hgroup (Forall_nil_2 _)) as Hne. rewrite <- Hflat in Hq. rewrite Forall_forall in Hq. rewrite Forall_forall in Hne.
      apply Forall_forall. intros c Hc. specialize (Hne c Hc). destruct (Prefixes c) as [|p ps] eqn:Ep; [done|]. apply (Hq (ConditionalTableID c, p)).
      unfold flat. apply list_elem_of_In, in_concat. exists (map (pair (ConditionalTableID c)) (Prefixes c)). split; [apply in_map_iff; exists c; split; [done|by apply list_elem_of_In]|].
      rewrite Ep. by left. }
    rewrite (drop_batches_eq _ exists_) by (done || by rewrite Hflat). osimpl. eexists; split; [done|]. intros k.
    rewrite get_RemoveToDeleteBatches, Hflat. case_decide; [done|]. rewrite kv_get_apply, app_nil_l. apply effect_ranges.
Qed.
End drops.

(** ** The to-delete table as a set of entries *)

Section entries.
Context {DB : Type} `{KVStore DB}.

(** Keys have at least a shard id and a table id, and the to-delete table holds
    announced entries only. *)
Definition store_ok (db : DB) : Prop :=
  keys_ok db ∧
  (∀ k v, kv_get db k = Some v → EncodeTableKeyPrefix ToDeleteTableID toDeleteShardID `prefix_of` k →
     ∃ e, entry_ok e ∧ k = entry_key e).

Definition announced (db : DB) (e : Z * bytes) : Prop := entry_ok e ∧ is_Some (kv_get db (entry_key e)).

Lemma entry_key_inj e f : entry_ok e → entry_ok f → entry_key e = entry_key f → e = f.
Proof.
  intros (He & _) (Hf & _). rewrite !entry_key_eq. intros E. apply app_inv_head in E.
  apply app_inj_1 in E as [E1 E2]; [|by rewrite !length_be_bytes]. apply be_bytes_inj in E1; [|done..].
  destruct e, f; simpl in *; congruence.
Qed.

Lemma entry_key_in_table e :
  entry_ok e → in_range (EncodeTableKeyPrefix ToDeleteTableID toDeleteShardID)
    (Some (EncodeTableKeyPrefix (ToDeleteTableID + 1) toDeleteShardID)) (entry_key e).
Proof.
  intros (Hc & Hp & _). apply table_range; try (unfold u64_ok, ToDeleteTableID, toDeleteShardID; lia).
  - rewrite entry_key_eq. rewrite !bytes_ok_app. auto using EncodeTableKeyPrefix_ok, be_bytes_ok.
  - rewrite entry_key_eq, length_app, length_EncodeTableKeyPrefix. lia.
  - rewrite entry_key_eq. by apply prefix_app_r.
Qed.

Lemma pairs_of_entries (l : list (bytes * bytes)) :
  Forall (λ kv, ∃ e, entry_ok e ∧ kv.1 = entry_key e) l →
  ∃ es vs, Forall entry_ok es ∧ length vs = length es ∧ l = zip (map entry_key es) vs.
Proof.
  induction 1 as [|[k v] l (e & He & Hk) _ (es & vs & Hes & Hl & ->)]; [by exists [], []|].
  exists (e :: es), (v :: vs). simpl in *. split_and!; [by constructor|lia|by rewrite Hk].
Qed.

(** The entries found by the scan are the announced ones. *)
Lemma scanned_entries (db : DB) :
  store_ok db →
  ∃ es vs, Forall entry_ok es ∧ length vs = length es ∧
    kv_scan db (EncodeTableKeyPrefix ToDeleteTableID toDeleteShardID)
      (Some (EncodeTableKeyPrefix (ToDeleteTableID + 1) toDeleteShardID)) = zip (map entry_key es) vs ∧
    ∀ e, e ∈ es ↔ announced db e.
Proof.
  intros [Hk Ht]. set (l := kv_scan db _ _).
  assert (Hl : ∀ k v, (k, v) ∈ l → kv_get db k = Some v ∧ ∃ e, entry_ok e ∧ k = entry_key e).
  { intros k v [Hr Hg]%kv_scan_elem. destruct (Hk _ _ Hg). split; [done|]. eapply Ht; [done|]. by apply table_range in Hr. }
  destruct (pairs_of_entries l) as (es & vs & Hes & Hlen & Heq).
  { apply Forall_forall. intros [k v] Hin. apply Hl in Hin as [_ ?]. done. }
  exists es, vs. split_and!; [done..|]. intros e. split.
  - intros He. rewrite Forall_forall in Hes. split; [by apply Hes|].
    apply list_elem_of_lookup in He as [i Hi].
    destruct (lookup_lt_is_Some_2 vs i) as [v Hv]; [apply lookup_lt_Some in Hi; lia|].
    exists v. apply Hl. rewrite Heq. apply list_elem_of_lookup. exists i.
    by rewrite lookup_zip_with, list_lookup_fmap, Hi, Hv.
  - intros [He [v Hv]]. assert (Hin : (entry_key e, v) ∈ l) by (apply kv_scan_elem; auto using entry_key_in_table).
    rewrite Heq in Hin. apply elem_of_zip_l in Hin. apply list_elem_of_fmap in Hin as (f & Hf & Hin).
    rewrite Forall_forall in Hes. apply entry_key_inj in Hf; auto. by subst.
Qed.

(** * Properties *)

(** C29. Dropping a table is completed on restart: the check removes every announced
    entry; for each entry whose table no longer exists all keys with the announced
    prefix are deleted; and every other key keeps its value, in particular the data of
    entries whose table still exists. Whether a table exists is what the queries on the
    tables table answer, which must not fail. *)
Theorem to_delete_completed (queryExec : bytes → bytes → outcome Rows) (exists_ : Z → bool) (db : DB) :
  store_ok db → (∀ e, announced db e → tableExists queryExec e.1 = Ok (exists_ e.1)) →
  ∃ db', checkDeleteToDeleteData queryExec db = Ok db' ∧
    (∀ e, announced db e → kv_get db' (entry_key e) = None) ∧
    (∀ e k, announced db e → exists_ e.1 = false → bytes_ok k → e.2 `prefix_of` k → kv_get db' k = None) ∧
    (∀ k, bytes_ok k → (∀ e, announced db e → k ≠ entry_key e) →
       (∀ e, announced db e → exists_ e.1 = false → (length e.2 ≤ length k)%nat ∧ ¬ e.2 `prefix_of` k) →
       kv_get db' k = kv_get db k).
Proof.
  intros Hdb Hq. destruct (scanned_entries db Hdb) as (es & vs & Hok & Hl & Hscan & Hann).
  assert (Hqs : Forall (λ e, tableExists queryExec e.1 = Ok (exists_ e.1)) es) by (apply Forall_forall; intros e ?%Hann; by apply Hq).
  destruct (checkDeleteToDeleteData_get queryExec exists_ db es vs Hok Hl Hqs Hscan) as (db' & Hrun & Hget).
  exists db'. rewrite Forall_forall in Hok.
  assert (Hrange : ∀ e k, e ∈ es → bytes_ok k → (length e.2 ≤ length k)%nat →
            in_range (drop_range e.2).1 (Some (drop_range e.2).2) k ↔ e.2 `prefix_of` k).
  { intros e k He Hk Hlk. destruct (Hok e He) as (_ & Hp & Hi).
    destruct (IncrementBytesBigEndian_eq _ Hp Hi) as (p' & Hinc & ? & ? & ?).
    unfold drop_range. rewrite Hinc. by apply prefix_range. }
  split_and!; [done|..].
  - intros e He%Hann. rewrite Hget, decide_True; [done|]. apply list_elem_of_fmap. eauto.
  - intros e k He%Hann Hex Hk Hpre. rewrite Hget. case_decide; [done|]. rewrite decide_True; [done|].
    apply Exists_exists. exists (drop_range e.2). split.
    + unfold drop_ranges. apply list_elem_of_fmap. exists e. split; [done|]. by apply list_elem_of_filter.
    + apply Hrange; [done..| |done]. by apply prefix_length.
  - intros k Hk Hne Hnp. rewrite Hget, decide_False.
    2:{ intros (e & -> & He)%list_elem_of_fmap. by apply (Hne e); [apply Hann|]. }
    rewrite decide_False; [done|]. intros (r & Hr & Hin)%Exists_exists.
    unfold drop_ranges in Hr. apply list_elem_of_fmap in Hr as (e & -> & [Hex He]%list_elem_of_filter).
    destruct (Hnp e) as [Hlen Hno]; [by apply Hann|done|]. apply Hno. by apply Hrange.
Qed.
End entries.

Lemma to_delete_completed_witness :
  let db := AddToDeleteBatch (∅ : gmap bytes bytes) (MkToDeleteBatch 7 [EncodeTableKeyPrefix 1005 1000]) in
  ∃ db', checkDeleteToDeleteData (λ _ _, Ok (NewRows [])) db = Ok db' ∧
    (∀ e, announced db e → kv_get db' (entry_key e) = None) ∧
    (∀ e k, announced db e → false = false → bytes_ok k → e.2 `prefix_of` k → kv_get db' k = None) ∧
    (∀ k, bytes_ok k → (∀ e, announced db e → k ≠ entry_key e) →
       (∀ e, announced db e → false = false → (length e.2 ≤ length k)%nat ∧ ¬ e.2 `prefix_of` k) →
       kv_get db' k = kv_get db k).
Proof.
  intros db. apply (to_delete_completed (λ _ _, Ok (NewRows [])) (λ _, false) db); [|done].
  assert (He : entry_ok (7, EncodeTableKeyPrefix 1005 1000)) by (split_and!; [split; simpl; lia|by_decide|by_decide]).
  assert (Hk : ∀ k v, kv_get db k = Some v → k = entry_key (7, EncodeTableKeyPrefix 1005 1000)).
  { intros k v. unfold db, AddToDeleteBatch. rewrite kv_get_apply. simpl. by destruct (decide _). }
  split; intros k v ->%Hk; [split; by_decide|]. intros _. by exists (7, EncodeTableKeyPrefix 1005 1000).
Defined.

Section props.
Context {DB : Type} `{KVStore DB}.

(** A local write stores the puts of the batch and then removes its deletes; the
    delete ranges of the batch have no effect at all. *)
Theorem WriteBatchLocally_effect (db : DB) (wb : WriteBatch) (puts rngs : list (bytes * bytes)) (dels : list bytes) :
  wb_rep wb puts dels rngs → Forall kv_fits puts → Forall fits dels → DataShardIDBase ≤ wb_ShardID wb →
  ∃ db', WriteBatchLocally db wb = Ok db' ∧
    ∀ k, kv_get db' k = if decide (k ∈ dels) then None else foldl (op_effect k) (kv_get db k) (map (λ kv, KVSet kv.1 kv.2) puts).
Proof.
  intros [Hp Hd _ _ _ _] Fp Fd Hs. unfold WriteBatchLocally. rewrite (proj2 (Z.ltb_ge _ _)) by done.
  unfold ForEachPut, ForEachDelete. rewrite Hp, Hd.
  rewrite (forEachKV_app _ [] puts) by done.
  replace (foldM _ _ puts) with (Ok (map (λ kv, KVSet kv.1 kv.2) puts)).
  2:{ rewrite <- (app_nil_l (map _ puts)), <- foldM_snoc. apply foldM_ext. by intros acc [k v]. }
  osimpl. rewrite (forEachK_app _ [] dels), (foldM_snoc KVDelete) by done. osimpl.
  eexists; split; [done|]. intros k. by rewrite kv_get_apply, foldl_app, effect_deletes.
Qed.

(** A constant property is fixed by the first start: that start stores its value;
    every later start with the same value succeeds and leaves the store unchanged, and
    every start with another value is refused. *)
Theorem constant_property_fixed (db : DB) (property : bytes) (first later : Z) :
  u32_ok first → GetConfigProperty db property = None →
  ∃ db', checkConstantProperty db property first = Ok db' ∧
    checkConstantProperty db' property later =
      if later =? first then Ok db' else Err "property in cluster cannot be changed after cluster creation".
Proof.
  intros Hf Hnone. unfold checkConstantProperty. rewrite Hnone. eexists; split; [done|].
  unfold GetConfigProperty, LocalGet, localGet, SetConfigProperty. rewrite kv_get_set, decide_True by done.
  rewrite AppendUint32ToBufferLE_eq, u32_small by done.
  pose proof (ReadUint32LE_app [] first [] 0 eq_refl Hf) as Hr. rewrite app_nil_r in Hr. rewrite Hr. osimpl.
  rewrite Z.eqb_sym. by destruct (later =? first).
Qed.
End props.

Lemma WriteBatchLocally_effect_witness :
  ∃ db', WriteBatchLocally (∅ : gmap bytes bytes) (AddDeleteRange (AddPut (NewWriteBatch 1000) [5] [6]) [0] [9]) = Ok db' ∧
    ∀ k, kv_get db' k = if decide (k ∈ []) then None else foldl (op_effect k) (kv_get (∅ : gmap bytes bytes) k) (map (λ kv, KVSet kv.1 kv.2) [([5], [6])]).
Proof.
  apply (WriteBatchLocally_effect (∅ : gmap bytes bytes) (AddDeleteRange (AddPut (NewWriteBatch 1000) [5] [6]) [0] [9]) [([5], [6])] [([0], [9])] []);
    [by apply (AddDeleteRange_rep _ _ _ []), (AddPut_rep _ [])|repeat constructor; vm_compute; congruence..|done].
Defined.

Lemma constant_property_fixed_witness :
  ∃ db', checkConstantProperty (∅ : gmap bytes bytes) (lit "num-shards") 30 = Ok db' ∧
    checkConstantProperty db' (lit "num-shards") 31 = Err "property in cluster cannot be changed after cluster creation".
Proof. apply (constant_property_fixed (∅ : gmap bytes bytes) (lit "num-shards") 30 31); [split; lia|reflexivity]. Defined.

(** ** Placement *)

Lemma elem_of_replicaNodes n numNodes shardID rf :
  (0 < numNodes)%nat → n ∈ replicaNodes numNodes shardID rf → 0 ≤ n < Z.of_nat numNodes.
Proof. intros Hn (j & -> & _)%list_elem_of_fmap. apply Z.mod_pos_bound. lia. Qed.

Lemma NoDup_replicaNodes numNodes shardID rf :
  (rf ≤ numNodes)%nat → NoDup (replicaNodes numNodes shardID rf).
Proof.
  intros Hrf. unfold replicaNodes. apply NoDup_alt. intros i j x Hi Hj.
  apply list_lookup_fmap_Some in Hi as (a & -> & Ha). apply list_lookup_fmap_Some in Hj as (b & Heq & Hb).
  apply lookup_seq in Ha as [-> Hi]. apply lookup_seq in Hb as [-> Hj]. simpl in *.
  assert (Hz : (shardID + Z.of_nat i - (shardID + Z.of_nat j)) mod Z.of_nat numNodes = 0)
    by (rewrite Zminus_mod, Heq, Z.sub_diag; apply Z.mod_0_l; lia).
  apply Z.mod_divide in Hz as [q Hq]; [|lia]. assert (q = 0) by nia. subst. lia.
Qed.

Lemma filter_replicas numNodes nodeID shardID rf :
  (rf ≤ numNodes)%nat →
  map (λ _, shardID) (filter (λ n, n = nodeID) (replicaNodes numNodes shardID rf)) =
    if decide (nodeID ∈ replicaNodes numNodes shardID rf) then [shardID] else [].
Proof.
  intros Hrf. pose proof (NoDup_replicaNodes numNodes shardID rf Hrf) as Hnd. revert Hnd.
  generalize (replicaNodes numNodes shardID rf) as l. induction l as [|x l IH]; intros Hnd; [done|].
  inv Hnd. rewrite filter_cons. destruct (decide (x = nodeID)) as [->|Hne].
  - rewrite decide_True by by left. simpl. f_equal. rewrite IH, decide_False by done. done.
  - rewrite IH by done. destruct (decide (nodeID ∈ l)); [by rewrite decide_True by by right|].
    rewrite decide_False; [done|]. rewrite elem_of_cons. naive_solver.
Qed.

Lemma local_shards_filter numNodes nodeID rf ids p :
  (rf ≤ numNodes)%nat →
  localDataShards (foldl (λ p shardID, generateReplicas numNodes nodeID p shardID rf true) p ids) =
    localDataShards p ++ filter (λ shardID, nodeID ∈ replicaNodes numNodes shardID rf) ids.
Proof.
  intros Hrf. revert p. induction ids as [|s ids IH]; intros p; simpl; [by rewrite app_nil_r|].
  rewrite IH. simpl. rewrite filter_replicas, filter_cons by done. case_decide; by rewrite <- app_assoc.
Qed.

Lemma allocs_lookup numNodes nodeID rf ids p s :
  s ∈ ids →
  shardAllocs (foldl (λ p shardID, generateReplicas numNodes nodeID p shardID rf true) p ids) !! s =
    Some (replicaNodes numNodes s rf).
Proof.
  intros Hs. revert p. induction ids as [|s' ids IH] using rev_ind; intros p; [by apply not_elem_of_nil in Hs|].
  rewrite foldl_app. simpl. destruct (decide (s = s')) as [->|]; [by rewrite lookup_insert_eq|].
  rewrite lookup_insert_ne by done. apply IH. apply elem_of_app in Hs as [|[=]%list_elem_of_singleton]; done.
Qed.

(** C30. Every node computes the same placement: the data shards are numbered from 1000 on,
    one for each of the configured number; each gets as many replicas as the replication
    factor, on different nodes of the cluster; no part of this depends on the node; and a
    node's local shards are exactly the data shards it holds a replica of, each listed
    once. *)
Theorem placement_correct (numNodes numShards replicationFactor : nat) (nodeID : Z) :
  (0 < numNodes)%nat → (replicationFactor ≤ numNodes)%nat →
  let p := generateNodesAndShards numNodes nodeID numShards replicationFactor in
  allDataShards p = map (λ i, 1000 + Z.of_nat i) (seq 0 numShards) ∧
  (∀ nodeID', let p' := generateNodesAndShards numNodes nodeID' numShards replicationFactor in
     allDataShards p' = allDataShards p ∧ shardAllocs p' = shardAllocs p) ∧
  NoDup (localDataShards p) ∧ (∀ s, s ∈ localDataShards p → s ∈ allDataShards p) ∧
  ∀ s, s ∈ allDataShards p → ∃ nids, shardAllocs p !! s = Some nids ∧
    length nids = replicationFactor ∧ NoDup nids ∧ (∀ n, n ∈ nids → 0 ≤ n < Z.of_nat numNodes) ∧
    (s ∈ localDataShards p ↔ nodeID ∈ nids).
Proof.
  intros Hn Hrf. unfold generateNodesAndShards. cbv zeta.
  set (ids := map (λ i, DataShardIDBase + Z.of_nat i) (seq 0 numShards)).
  assert (Hnd : NoDup ids).
  { apply NoDup_fmap; [|apply NoDup_seq]. intros i j. unfold DataShardIDBase. lia. }
  assert (Hids : ∀ s, s ∈ ids → 1000 ≤ s).
  { intros s (i & -> & _)%list_elem_of_fmap. unfold DataShardIDBase. lia. }
  assert (Hall : ∀ node p l, allDataShards (foldl (λ p shardID, generateReplicas numNodes node p shardID replicationFactor true) p l) = allDataShards p)
    by (intros node p l; revert p; induction l as [|x l IH]; intros p; simpl; [done|by rewrite IH]).
  assert (Hallocs : ∀ node l p p', shardAllocs p = shardAllocs p' →
    shardAllocs (foldl (λ p shardID, generateReplicas numNodes node p shardID replicationFactor true) p l) =
    shardAllocs (foldl (λ p shardID, generateReplicas numNodes nodeID p shardID replicationFactor true) p' l)).
  { intros node l. induction l as [|x l IH]; intros p p' Hp; simpl; [done|]. apply IH. simpl. by rewrite Hp. }
  cbn [localDataShards allDataShards shardAllocs generateReplicas].
  rewrite !app_nil_r, Hall, local_shards_filter by done. cbn [localDataShards allDataShards]. rewrite app_nil_l.
  split; [done|]. split; [intros node; rewrite !Hall; split; [done|]; by rewrite (Hallocs node ids _ (MkPlacement [] ids ∅) eq_refl)|].
  split; [by apply NoDup_filter|]. split; [by intros s [_ ?]%list_elem_of_filter|]. intros s Hs. exists (replicaNodes numNodes s replicationFactor). split_and!.
  - pose proof (Hids s Hs). rewrite !lookup_insert_ne by (unfold locksClusterID, tableSequenceClusterID; lia).
    by apply allocs_lookup.
  - unfold replicaNodes. by rewrite length_map, length_seq.
  - by apply NoDup_replicaNodes.
  - intros n. by apply elem_of_replicaNodes.
  - rewrite list_elem_of_filter. naive_solver.
Qed.

Lemma placement_correct_witness :
  let p := generateNodesAndShards 3 1 5 2 in
  allDataShards p = [1000; 1001; 1002; 1003; 1004] ∧
  (∀ nodeID', let p' := generateNodesAndShards 3 nodeID' 5 2 in allDataShards p' = allDataShards p ∧ shardAllocs p' = shardAllocs p) ∧
  NoDup (localDataShards p) ∧ (∀ s, s ∈ localDataShards p → s ∈ allDataShards p) ∧
  ∀ s, s ∈ allDataShards p → ∃ nids, shardAllocs p !! s = Some nids ∧
    length nids = 2%nat ∧ NoDup nids ∧ (∀ n, n ∈ nids → 0 ≤ n < 3) ∧ (s ∈ localDataShards p ↔ 1 ∈ nids).
Proof. apply (placement_correct 3 5 2 1); lia. Defined.
