(* ===== verification/ShardSM.v ===== *)
(** * The shard state machine

    Models cluster/dragon/shard_odsm.go: the replicated on-disk state machine that
    owns the data of one shard, and the snapshot functions of
    cluster/dragon/sm_utils.go.

    The state machine keeps in memory the duplicate-screening sequences, the receiver
    sequence and the leader, and persists them in the same store batch as the data, so
    that [Open] on the store finds them again. [Update] applies a run of Raft log
    entries; what it hands to the shard listener (the processor of the shard) is
    recorded as events.

    The store is a [KVStore]. The cache of dropped table ids is the LRU cache of a
    library; [DroppedCache] states what the code relies on. The wall clock is an
    argument. *)

From stdpp Require Import base list strings gmap.
From Stdlib Require Import ZArith Lia.
From S2P Require Import Prelude Encoding Timestamp Decimal Rows KeyEncoding RowEncoding Store WriteBatch Table LocalStore.

(** An LRU set of table ids: a lookup finds only ids that were added, and only
    changes what will be evicted next. *)
Class DroppedCache (C : Type) := {
  cache_new : C;
  cache_add : C → Z → C;
  cache_get : C → Z → bool * C;
  cache_get_new : ∀ k, (cache_get cache_new k).1 = false;
  cache_get_get : ∀ c k k', (cache_get (cache_get c k).2 k').1 = (cache_get c k').1;
  cache_get_add : ∀ c k k', (cache_get (cache_add c k) k').1 = true → k' = k ∨ (cache_get c k').1 = true
}.

(** A bounded list, most recent first. *)
Definition droppedTableCacheMaxSize : nat := 100.
Definition lru_get (c : list Z) (k : Z) : bool * list Z :=
  if decide (k ∈ c) then (true, k :: filter (λ x, x ≠ k) c) else (false, c).
Definition lru_add (c : list Z) (k : Z) : list Z := take droppedTableCacheMaxSize (k :: filter (λ x, x ≠ k) c).

#[global] Instance lru_cache : DroppedCache (list Z).
Proof.
  refine {| cache_new := []; cache_add := lru_add; cache_get := lru_get |}.
  - intros k. done.
  - intros c k k'. unfold lru_get at 2. destruct (decide (k ∈ c)) as [Hk|]; [|done]. unfold lru_get. simpl.
    destruct (decide (k' ∈ c)) as [H|H], (decide (k' ∈ k :: filter (λ x, x ≠ k) c)) as [H'|H']; try done; exfalso.
    + apply H'. apply elem_of_cons. destruct (decide (k' = k)); [by left|right]. by apply list_elem_of_filter.
    + apply H. apply elem_of_cons in H' as [->|[_ ?]%list_elem_of_filter]; done.
  - intros c k k'. unfold lru_get, lru_add.
    destruct (decide (k' ∈ take _ _)) as [Hin|]; [|done]. intros _.
    apply elem_of_take in Hin as (i & Hi & _). apply list_elem_of_lookup_2 in Hi.
    apply elem_of_cons in Hi as [->|[_ Hi]%list_elem_of_filter]; [by left|right]. by rewrite decide_True.
Defined.

(** ** Data *)

Definition shardStateMachineCommandWrite : Z := 1.
Definition shardStateMachineCommandForwardWrite : Z := 2.
Definition shardStateMachineCommandSetLeader : Z := 3.
Definition shardStateMachineResponseOK : Z := 1.

Record ForwardRow := MkForwardRow {
  ReceiverSequence : Z;
  RemoteConsumerID : Z;
  KeyBytes : bytes;
  RowBytes : bytes;
  WriteTime : Z;
  Fill : bool
}.

(** What the state machine tells the shard listener. *)
Inductive event :=
  | CreateShardListener
  | CloseShardListener
  | RemoteWriteOccurred (rows : list ForwardRow).

Record Entry := MkEntry {
  Index : Z;
  Cmd : bytes
}.

(** The fields that change while the state machine runs; [hasListener] is
    [shardListener != nil]. *)
Record ShardState (C : Type) := MkShardState {
  hasListener : bool;
  dedupSequences : gmap bytes Z;
  receiverSequence : Z;
  forwardRows : list ForwardRow;
  lastIndex : Z;
  leaderNodeID : Z;
  leaderTerm : Z;
  droppedTables : C;
  lastPersistedBatch : option bytes
}.
Arguments MkShardState {C}.
Arguments hasListener {C}.
Arguments dedupSequences {C}.
Arguments receiverSequence {C}.
Arguments forwardRows {C}.
Arguments lastIndex {C}.
Arguments leaderNodeID {C}.
Arguments leaderTerm {C}.
Arguments droppedTables {C}.
Arguments lastPersistedBatch {C}.

(** The configuration of one replica. *)
Record ShardConfig := MkShardConfig {
  sm_nodeID : Z;
  sm_shardID : Z;
  sm_TestServer : bool
}.

Section sm.
Context {DB C : Type} `{KVStore DB} `{DroppedCache C}.
Variable cnf : ShardConfig.

Definition set_dedup (s : ShardState C) (m : gmap bytes Z) : ShardState C :=
  MkShardState (hasListener s) m (receiverSequence s) (forwardRows s) (lastIndex s) (leaderNodeID s) (leaderTerm s)
    (droppedTables s) (lastPersistedBatch s).
Definition set_receiverSequence (s : ShardState C) (q : Z) : ShardState C :=
  MkShardState (hasListener s) (dedupSequences s) q (forwardRows s) (lastIndex s) (leaderNodeID s) (leaderTerm s)
    (droppedTables s) (lastPersistedBatch s).
Definition set_forwardRows (s : ShardState C) (rows : list ForwardRow) : ShardState C :=
  MkShardState (hasListener s) (dedupSequences s) (receiverSequence s) rows (lastIndex s) (leaderNodeID s) (leaderTerm s)
    (droppedTables s) (lastPersistedBatch s).
Definition set_lastIndex (s : ShardState C) (i : Z) : ShardState C :=
  MkShardState (hasListener s) (dedupSequences s) (receiverSequence s) (forwardRows s) i (leaderNodeID s) (leaderTerm s)
    (droppedTables s) (lastPersistedBatch s).
Definition set_leader (s : ShardState C) (node term : Z) (listener : bool) : ShardState C :=
  MkShardState listener (dedupSequences s) (receiverSequence s) (forwardRows s) (lastIndex s) node term
    (droppedTables s) (lastPersistedBatch s).
Definition set_dropped (s : ShardState C) (c : C) : ShardState C :=
  MkShardState (hasListener s) (dedupSequences s) (receiverSequence s) (forwardRows s) (lastIndex s) (leaderNodeID s)
    (leaderTerm s) c (lastPersistedBatch s).
Definition set_lastPersistedBatch (s : ShardState C) (b : option bytes) : ShardState C :=
  MkShardState (hasListener s) (dedupSequences s) (receiverSequence s) (forwardRows s) (lastIndex s) (leaderNodeID s)
    (leaderTerm s) (droppedTables s) b.

(** ** Loading from the store *)

Definition loadLeaderInfo (db : DB) : outcome (Z * Z) :=
  match kv_get db (EncodeTableKeyPrefix ShardLeaderTableID (sm_shardID cnf)) with
  | None => Ok (-1, -1)
  | Some vb =>
      '(nodeID, _) ← ReadUint64FromBufferLE vb 0;
      '(term, _) ← ReadUint64FromBufferLE vb 8;
      Ok (i64 nodeID, i64 term)
  end.

Definition loadSequences (db : DB) : outcome (Z * Z) :=
  match kv_get db (EncodeTableKeyPrefix LastLogIndexReceivedTableID (sm_shardID cnf)) with
  | None => Ok (0, 0)
  | Some vb =>
      '(lastRaftIndex, _) ← ReadUint64FromBufferLE vb 0;
      '(receiverSequence, _) ← ReadUint64FromBufferLE vb 8;
      Ok (lastRaftIndex, receiverSequence)
  end.

Definition loadDedupCache (db : DB) : outcome (gmap bytes Z) :=
  let startPrefix := EncodeTableKeyPrefix ForwardDedupTableID (sm_shardID cnf) in
  let endPrefix := EncodeTableKeyPrefix (ForwardDedupTableID + 1) (sm_shardID cnf) in
  foldM (λ m '(k, v),
      oid ← slice k 16 32;
      '(sequence, _) ← ReadUint64FromBufferBE v 0;
      Ok (<[oid := sequence]> m)) ∅ (LocalScan db startPrefix (Some endPrefix) 9223372036854775807).

(** [Open] returns the index of the last log entry the store contains. *)
Definition Open (s : ShardState C) (db : DB) : outcome (ShardState C * Z) :=
  dedup ← loadDedupCache db;
  '(lastRaftIndex, receiverSequence) ← loadSequences db;
  '(leader, term) ← loadLeaderInfo db;
  Ok (MkShardState (hasListener s) dedup receiverSequence (forwardRows s) (lastIndex s) leader term cache_new
        (lastPersistedBatch s), lastRaftIndex).

Definition writeSequences (lastRaftIndex receiverSequence : Z) : kv_op :=
  KVSet (EncodeTableKeyPrefix LastLogIndexReceivedTableID (sm_shardID cnf))
    (AppendUint64ToBufferLE (AppendUint64ToBufferLE [] lastRaftIndex) receiverSequence).

Definition isProcessor (s : ShardState C) : bool := i64 (sm_nodeID cnf) =? leaderNodeID s.

(** ** Writes *)

Definition checkDedup (s : ShardState C) (key : bytes) (batch : list kv_op) : outcome (bool * ShardState C * list kv_op) :=
  '(ignore, m) ← DoDedup key (dedupSequences s);
  if ignore : bool then Ok (true, s, batch)
  else
    oid ← slice key 0 16;
    seq ← slice_from key 16;
    let dupID := EncodeTableKeyPrefix ForwardDedupTableID (sm_shardID cnf) ++ oid in
    Ok (false, set_dedup s m, batch ++ [KVSet dupID seq]).

Definition checkKey (s : ShardState C) (key : bytes) : outcome (bool * ShardState C) :=
  if sm_TestServer cnf then Ok (true, s)
  else
    '(sid, _) ← ReadUint64FromBufferBE key 0;
    if negb (sm_shardID cnf =? sid) then Panic "invalid key in sm write"
    else
      '(tableID, _) ← ReadUint64FromBufferBE key 8;
      let '(found, c) := cache_get (droppedTables s) tableID in
      Ok (negb found, set_dropped s c).

(** One put of a batch. *)
Definition handlePut (forward fill : bool) (timestamp : Z) (st : ShardState C * list kv_op) (kvPair : bytes * bytes) :
    outcome (ShardState C * list kv_op) :=
  let '(s, batch) := st in
  if forward then
    dedupKey ← slice kvPair.1 0 24;
    '(ignore, s, batch) ← checkDedup s dedupKey batch;
    if ignore : bool then Ok (s, batch)
    else
      remoteConsumerBytes ← slice_from kvPair.1 24;
      let s := set_receiverSequence s (u64 (receiverSequence s + 1)) in
      let key := AppendUint64ToBufferBE (EncodeTableKeyPrefix ReceiverTableID (sm_shardID cnf)) (receiverSequence s)
                   ++ remoteConsumerBytes in
      s ←
        (if isProcessor s then
           '(remoteConsumerID, _) ← ReadUint64FromBufferBE remoteConsumerBytes 0;
           Ok (set_forwardRows s (forwardRows s ++
                 [MkForwardRow (receiverSequence s) remoteConsumerID key kvPair.2 timestamp fill]))
         else Ok s);
      Ok (s, batch ++ [KVSet key kvPair.2])
  else
    '(ok, s) ← checkKey s kvPair.1;
    if ok : bool then Ok (s, batch ++ [KVSet kvPair.1 kvPair.2]) else Ok (s, batch).

Definition handleWrite (s : ShardState C) (batch : list kv_op) (offset : nat) (bs : bytes) (forward fill : bool) (timestamp : Z) :
    outcome (ShardState C * list kv_op * option bytes * nat) :=
  '(d, offsetOut) ← deserializeWriteBatch (receiverSequence s) bs offset forward;
  '(s, batch) ← foldM (handlePut forward fill timestamp) (s, batch) (d_puts d);
  if forward && negb (length (d_deletes d) =? 0)%nat then Panic "deletes not supported for forward write"
  else
    '(s, batch) ← foldM (λ '(s, batch) k,
        '(_, s) ← checkKey s k; Ok (s, batch ++ [KVDelete k])) (s, batch) (d_deletes d);
    let batch := batch ++ map (λ r, KVDeleteRange r.1 r.2) (d_deleteRanges d) in
    Ok (s, batch, d_batchID d, offsetOut).

(** ** Leadership *)

Definition handleSetLeader (s : ShardState C) (batch : list kv_op) (bs : bytes) :
    outcome (ShardState C * list kv_op * list event) :=
  '(newLeaderNodeID, _) ← ReadUint64FromBufferLE bs 1;
  '(term, _) ← ReadUint64FromBufferLE bs 9;
  if i64 term <=? leaderTerm s then Ok (s, batch, [])
  else
    let key := EncodeTableKeyPrefix ShardLeaderTableID (sm_shardID cnf) in
    let val := AppendUint64ToBufferLE (AppendUint64ToBufferLE [] newLeaderNodeID) term in
    let batch := batch ++ [KVSet key val] in
    let prevLeaderNodeID := leaderNodeID s in
    let thisNodeID := u64 (sm_nodeID cnf) in
    let '(listener, ev) :=
      if newLeaderNodeID =? thisNodeID then
        if hasListener s then (true, []) else (true, [CreateShardListener])
      else if prevLeaderNodeID =? i64 thisNodeID then
        if hasListener s then (false, [CloseShardListener]) else (false, [])
      else (hasListener s, []) in
    Ok (set_leader s (i64 newLeaderNodeID) (i64 term) listener, batch, ev).

(** ** Update *)

(** [for j := 0; j < numBatches; j++] over the batches of one forward write. *)
Fixpoint handleForwardBatches (n : nat) (s : ShardState C) (batch : list kv_op) (offset : nat) (bs : bytes) (fill : bool)
    (timestamp : Z) : outcome (ShardState C * list kv_op * nat) :=
  match n with
  | O => Ok (s, batch, offset)
  | S n' =>
      '(s, batch, _, offset) ← handleWrite s batch offset bs true fill timestamp;
      handleForwardBatches n' s batch offset bs fill timestamp
  end.

(** What one round of the loop over the entries threads. *)
Record Progress := MkProgress {
  p_state : ShardState C;
  p_batch : list kv_op;
  p_lastBatch : option bytes;
  p_events : list event
}.

Definition updateEntry (timestamp : Z) (p : Progress) (entry : Entry) : outcome Progress :=
  let cmdBytes := Cmd entry in
  command ← index cmdBytes 0;
  if command =? shardStateMachineCommandForwardWrite then
    fill ← index cmdBytes 1;
    numBatches ← index cmdBytes 2;
    '(s, batch, _) ← handleForwardBatches (Z.to_nat numBatches) (p_state p) (p_batch p) 3 cmdBytes (fill =? 1) timestamp;
    Ok (MkProgress s batch (p_lastBatch p) (p_events p))
  else if command =? shardStateMachineCommandWrite then
    '(s, batch, batchID, _) ← handleWrite (p_state p) (p_batch p) 1 cmdBytes false false timestamp;
    Ok (MkProgress s batch (match batchID with Some _ => batchID | None => p_lastBatch p end) (p_events p))
  else if command =? shardStateMachineCommandSetLeader then
    '(s, batch, ev) ← handleSetLeader (p_state p) (p_batch p) cmdBytes;
    Ok (MkProgress s batch (p_lastBatch p) (p_events p ++ ev))
  else Panic "unexpected command".

(** The results are one [shardStateMachineResponseOK] per entry. *)
Definition Update (s : ShardState C) (db : DB) (timestamp : Z) (entries : list Entry) :
    outcome (ShardState C * DB * list event * list Z) :=
  s ←
    (if negb (lastIndex s =? 0) then
       e0 ← index entries 0;
       if negb (lastIndex s =? u64 (Index e0 - 1)) then
         eN ← index entries (length entries - 1);
         Ok (set_lastIndex s (Index eN))
       else Ok s
     else Ok s);
  p ← foldM (updateEntry timestamp) (MkProgress s [] None []) entries;
  eN ← index entries (length entries - 1);
  let lastLogIndex := Index eN in
  let key := EncodeTableKeyPrefix LastLogIndexReceivedTableID (sm_shardID cnf) in
  (* the buffer that AppendUint64ToBufferLE returns is dropped: an empty value is set *)
  let batch := p_batch p ++ [KVSet key []] in
  let batch := batch ++ [writeSequences lastLogIndex (receiverSequence (p_state p))] in
  let db := kv_apply db batch in
  let s := match p_lastBatch p with
           | Some b => set_lastPersistedBatch (p_state p) (Some b)
           | None => p_state p
           end in
  let '(s, ev) :=
    if hasListener s && (0 <? length (forwardRows s))%nat
    then (set_forwardRows s [], p_events p ++ [RemoteWriteOccurred (forwardRows s)])
    else (s, p_events p) in
  Ok (s, db, ev, map (λ _, shardStateMachineResponseOK) entries).

Definition tableDropped (s : ShardState C) (tableID : Z) : ShardState C :=
  set_dropped s (cache_add (droppedTables s) tableID).

(** ** Snapshots *)

Definition shardPrefix : bytes := AppendUint64ToBufferBE [] (sm_shardID cnf).

(** The pairs written to the snapshot table file, in key order. *)
Definition saveSnapshotDataToWriter (db : DB) (prefix : bytes) (shardID : Z) : outcome (list (bytes * bytes)) :=
  upper ← IncrementBytesBigEndian prefix;
  foldM (λ tbl '(k, v),
      '(theShardID, _) ← ReadUint64FromBufferBE k 0;
      if negb (theShardID =? shardID) then Err "wrong shard id"
      else if (length k =? 0)%nat then Panic "invalid zero length key"
      else if (length v =? 0)%nat then Panic "invalid zero length value"
      else if 4294967295 <? Z.of_nat (length k) then Panic "key too long"
      else if 4294967295 <? Z.of_nat (length v) then Panic "value too long"
      else Ok (tbl ++ [(k, v)])) [] (kv_scan db prefix (Some upper)).

Definition SaveSnapshot (db : DB) : outcome (list (bytes * bytes)) := saveSnapshotDataToWriter db shardPrefix (sm_shardID cnf).

(** The data of the shard is deleted, then the file is ingested. *)
Definition restoreSnapshotDataFromReader (db : DB) (startPrefix endPrefix : bytes) (tbl : list (bytes * bytes)) : DB :=
  let db := kv_apply db [KVDeleteRange startPrefix endPrefix] in
  kv_apply db (map (λ kv, KVSet kv.1 kv.2) tbl).

Definition RecoverFromSnapshot (s : ShardState C) (db : DB) (tbl : list (bytes * bytes)) : outcome (ShardState C * DB) :=
  let startPrefix := AppendUint64ToBufferBE [] (sm_shardID cnf) in
  let endPrefix := AppendUint64ToBufferBE [] (u64 (sm_shardID cnf + 1)) in
  let db := restoreSnapshotDataFromReader db startPrefix endPrefix tbl in
  dedup ← loadDedupCache db;
  '(_, receiverSequence) ← loadSequences db;
  '(leader, term) ← loadLeaderInfo db;
  Ok (MkShardState (hasListener s) dedup receiverSequence (forwardRows s) (lastIndex s) leader term (droppedTables s)
        (lastPersistedBatch s), db).
End sm.
