(* ===== verification/ShardSMProps.v ===== *)
(** * Properties of the shard state machine

    Forward writes (exactly-once delivery, gap-free receiver sequences, combining of
    batches), leadership, agreement of replicas, recovery from the store after a
    restart, and snapshots. *)

From stdpp Require Import base list strings gmap.
From Stdlib Require Import ZArith Lia.
From S2P Require Import Prelude Encoding Timestamp Decimal Rows KeyEncoding RowEncoding Store WriteBatch Table LocalStore ShardSM.

(** ** Forward rows *)

(** A row sent to another shard: originator and sequence, the remote consumer, the
    row. *)
Record Fwd := MkFwd {
  f_dedup : bytes * Z;
  f_consumer : Z;
  f_row : bytes
}.

Definition fwd_ok (f : Fwd) : Prop :=
  dedup_ok (f_dedup f) ∧ bytes_ok (f_dedup f).1 ∧ u64_ok (f_consumer f) ∧ fits (f_row f).

(** The put a sender adds to its batch for the row. *)
Definition fwd_key (f : Fwd) : bytes := dedup_key (f_dedup f) (be_bytes 8 (f_consumer f)).
Definition fwd_put (f : Fwd) : bytes * bytes := (fwd_key f, f_row f).

(** The command of one forward write: [fs] holds one list of rows per batch. *)
Definition fwd_batch (shard : Z) (fs : list Fwd) : WriteBatch :=
  foldl (λ wb f, AddPut wb (fwd_key f) (f_row f)) (NewWriteBatch shard) fs.
Definition fwd_cmd (shard : Z) (fill : bool) (fss : list (list Fwd)) : bytes :=
  [shardStateMachineCommandForwardWrite; if fill then 1 else 0; Z.of_nat (length fss)] ++
  concat (map (λ fs, Serialize (fwd_batch shard fs) []) fss).

Section fwd.
Context {DB C : Type} `{KVStore DB} `{DroppedCache C}.
Variable cnf : ShardConfig.
Abbreviation shard := (sm_shardID cnf).

Definition dup_key (oid : bytes) : bytes := EncodeTableKeyPrefix ForwardDedupTableID shard ++ oid.
(** The key a row is stored under: the receiver sequence, the consumer, and the
    receiver sequence before the batch. *)
Definition recv_key (seq consumer seq0 : Z) : bytes :=
  EncodeTableKeyPrefix ReceiverTableID shard ++ be_bytes 8 seq ++ be_bytes 8 consumer ++ be_bytes 8 seq0.

(** What one row of a forward batch does. *)
Definition fwd_step (fill : bool) (ts seq0 : Z) (st : ShardState C * list kv_op) (f : Fwd) : ShardState C * list kv_op :=
  let '(s, batch) := st in
  if is_dup (dedupSequences s) (f_dedup f) then (s, batch)
  else
    let q := u64 (receiverSequence s + 1) in
    let key := recv_key q (f_consumer f) seq0 in
    let s' := set_receiverSequence (set_dedup s (dedup_next (dedupSequences s) (f_dedup f))) q in
    (if isProcessor cnf s then set_forwardRows s' (forwardRows s ++ [MkForwardRow q (f_consumer f) key (f_row f) ts fill]) else s',
     batch ++ [KVSet (dup_key (f_dedup f).1) (be_bytes 8 (f_dedup f).2); KVSet key (f_row f)]).

Lemma checkDedup_eq (s : ShardState C) d batch :
  dedup_ok d →
  checkDedup cnf s (dedup_key d []) batch =
    Ok (if is_dup (dedupSequences s) d then (true, s, batch)
        else (false, set_dedup s (dedup_next (dedupSequences s) d), batch ++ [KVSet (dup_key d.1) (be_bytes 8 d.2)])).
Proof.
  intros [Hl Hs]. unfold checkDedup. rewrite DoDedup_eq by done. osimpl.
  destruct (is_dup (dedupSequences s) d); [done|]. cbv iota. unfold dedup_key. rewrite app_nil_r.
  rewrite slice_ok by (rewrite length_app, length_be_bytes, Hl; lia). osimpl.
  rewrite slice_from_ok by (rewrite length_app, length_be_bytes, Hl; lia). osimpl.
  by rewrite drop_0, take_app_length', drop_app_length' by lia.
Qed.

Lemma handlePut_forward fill ts seq0 (s : ShardState C) batch f :
  fwd_ok f →
  handlePut cnf true fill ts (s, batch) (fwd_key f ++ be_bytes 8 seq0, f_row f) = Ok (fwd_step fill ts seq0 (s, batch) f).
Proof.
  intros (Hd & _ & Hc & _). pose proof Hd as [Hl Hs]. unfold handlePut, fwd_key. cbn [fst snd].
  set (k := dedup_key _ _ ++ _). assert (Hk : k = dedup_key (f_dedup f) [] ++ be_bytes 8 (f_consumer f) ++ be_bytes 8 seq0).
  { unfold k, dedup_key. by rewrite app_nil_r, <- !app_assoc. }
  assert (Hdl : length (dedup_key (f_dedup f) []) = 24%nat).
  { unfold dedup_key. by rewrite app_nil_r, length_app, length_be_bytes, Hl. }
  rewrite (slice_ok k) by (rewrite Hk, length_app; lia). osimpl. rewrite drop_0, Hk, take_app_length' by done.
  rewrite checkDedup_eq by done. unfold fwd_step. osimpl.
  destruct (is_dup (dedupSequences s) (f_dedup f)); [done|]. cbv iota.
  rewrite slice_from_ok by (rewrite length_app; lia). osimpl. rewrite drop_app_length' by done.
  cbn [receiverSequence set_receiverSequence set_dedup]. rewrite AppendUint64ToBufferBE_eq, <- app_assoc.
  fold (recv_key (u64 (receiverSequence s + 1)) (f_consumer f) seq0).
  unfold isProcessor. cbn [leaderNodeID set_receiverSequence set_dedup]. destruct (_ =? _).
  - pose proof (ReadUint64BE_app [] (f_consumer f) (be_bytes 8 seq0) 0 eq_refl Hc) as Hr. rewrite app_nil_l in Hr.
    rewrite Hr. osimpl. by rewrite <- app_assoc.
  - osimpl. by rewrite <- app_assoc.
Qed.

Lemma fwd_batch_rep_gen fs : ∀ wb puts, wb_rep wb puts [] [] →
  wb_rep (foldl (λ wb f, AddPut wb (fwd_key f) (f_row f)) wb fs) (puts ++ map fwd_put fs) [] [].
Proof.
  induction fs as [|f fs IH]; intros wb puts Hrep; simpl; [by rewrite app_nil_r|].
  replace (puts ++ fwd_put f :: map fwd_put fs) with ((puts ++ [fwd_put f]) ++ map fwd_put fs) by by rewrite <- app_assoc.
  apply IH. by apply AddPut_rep.
Qed.

Lemma fwd_batch_rep sh fs : wb_rep (fwd_batch sh fs) (map fwd_put fs) [] [].
Proof. apply (fwd_batch_rep_gen fs _ []), NewWriteBatch_rep. Qed.

Lemma fwd_batch_id sh fs : BatchID (fwd_batch sh fs) = None.
Proof.
  unfold fwd_batch. assert (E : BatchID (NewWriteBatch sh) = None) by done. revert E. generalize (NewWriteBatch sh).
  induction fs as [|f fs IH]; intros wb E; simpl; [done|]. by apply IH.
Qed.

Lemma fwd_key_fits f : fwd_ok f → kv_fits (fwd_put f).
Proof.
  intros ((Hl & _) & _ & _ & Hr). split; [|done]. unfold fits, fwd_put, fwd_key, dedup_key. simpl.
  rewrite !length_app, !length_be_bytes, Hl. unfold u32_ok. simpl. lia.
Qed.

(** One batch of forward rows, at any position of a command. *)
Lemma handleWrite_forward (s : ShardState C) batch p fs suf fill ts off :
  off = length p → Forall fwd_ok fs → count_fits fs →
  handleWrite cnf s batch off (p ++ Serialize (fwd_batch shard fs) [] ++ suf) true fill ts =
    Ok ((foldl (fwd_step fill ts (receiverSequence s)) (s, batch) fs).1,
        (foldl (fwd_step fill ts (receiverSequence s)) (s, batch) fs).2, None,
        off + length (Serialize (fwd_batch shard fs) []))%nat.
Proof.
  intros -> Hok Hc. unfold handleWrite.
  assert (Hser : ∀ wb b, Serialize wb b = b ++ Serialize wb []).
  { intros wb b. unfold Serialize. rewrite !AppendUint32ToBufferLE_eq. destruct (BatchID wb); by rewrite <- !app_assoc. }
  rewrite app_assoc, <- (Hser _ p).
  assert (Hfit : Forall kv_fits (map fwd_put fs)).
  { apply Forall_map. eapply Forall_impl; [done|]. apply fwd_key_fits. }
  rewrite (deserialize_eq _ (map fwd_put fs) [] [] p suf); auto using fwd_batch_rep.
  2:{ unfold count_fits. by rewrite length_map. }
  2,3: by unfold count_fits, u32_ok; simpl; lia.
  2:{ rewrite fwd_batch_id. done. }
  osimpl. cbn [d_puts d_deletes d_deleteRanges d_batchID]. rewrite map_map.
  assert (Hfold : foldM (handlePut cnf true fill ts) (s, batch)
             (map (λ x, let '(k, v) := fwd_put x in (AppendUint64ToBufferBE k (receiverSequence s), v)) fs) =
           Ok (foldl (fwd_step fill ts (receiverSequence s)) (s, batch) fs)).
  { generalize (receiverSequence s) as seq0. generalize (s, batch) as st. clear -Hok. intros st seq0. revert st.
    induction Hok as [|f fs Hf Hok IH]; intros [s batch]; cbn [map foldM foldl fwd_put]; [done|].
    rewrite AppendUint64ToBufferBE_eq. rewrite (handlePut_forward fill ts seq0 s batch f Hf). osimpl. apply IH. }
  rewrite Hfold. osimpl. destruct (foldl _ _ _) as [s' b']. osimpl. cbn [length Nat.eqb negb andb foldM map].
  osimpl. rewrite app_nil_r, fwd_batch_id, (Hser _ p), length_app. done.
Qed.

(** The batches of one forward write, one after another. *)
Definition fwd_batches (fill : bool) (ts : Z) (st : ShardState C * list kv_op) (fss : list (list Fwd)) : ShardState C * list kv_op :=
  foldl (λ st fs, foldl (fwd_step fill ts (receiverSequence st.1)) st fs) st fss.

Definition fwds_ok (fs : list Fwd) : Prop := Forall fwd_ok fs ∧ count_fits fs.

Lemma handleForwardBatches_eq fss : ∀ (s : ShardState C) batch p off fill ts,
  off = length p → Forall fwds_ok fss →
  ∃ off', handleForwardBatches cnf (length fss) s batch off
      (p ++ concat (map (λ fs, Serialize (fwd_batch shard fs) []) fss)) fill ts =
    Ok ((fwd_batches fill ts (s, batch) fss).1, (fwd_batches fill ts (s, batch) fss).2, off').
Proof.
  induction fss as [|fs fss IH]; intros s batch p off fill ts Hoff Hok; cbn [length handleForwardBatches map concat].
  { by exists off. }
  inv Hok. match goal with H : fwds_ok fs |- _ => destruct H as [Hf Hc] end.
  rewrite handleWrite_forward by done. osimpl. rewrite app_assoc.
  change (fwd_batches fill ts (s, batch) (fs :: fss)) with
    (fwd_batches fill ts (foldl (fwd_step fill ts (receiverSequence s)) (s, batch) fs) fss).
  destruct (foldl _ (s, batch) fs) as [s' b']. cbn [fst snd]. apply IH; [|done]. rewrite length_app. lia.
Qed.

Lemma updateEntry_forward ts (p : Progress) i fill fss :
  Forall fwds_ok fss →
  updateEntry cnf ts p (MkEntry i (fwd_cmd shard fill fss)) =
    Ok (MkProgress (fwd_batches fill ts (p_state p, p_batch p) fss).1 (fwd_batches fill ts (p_state p, p_batch p) fss).2
          (p_lastBatch p) (p_events p)).
Proof.
  intros Hok. unfold updateEntry, fwd_cmd. cbn [Cmd app index lookup list_lookup]. osimpl.
  simpl (_ =? _). cbv iota. rewrite Nat2Z.id.
  destruct (handleForwardBatches_eq fss (p_state p) (p_batch p)
    [shardStateMachineCommandForwardWrite; if fill then 1 else 0; Z.of_nat (length fss)] 3 fill ts eq_refl Hok) as [off' Hrun].
  cbn [app] in Hrun. replace ((if fill then 1 else 0) =? 1) with fill by by destruct fill.
  rewrite Hrun. osimpl. done.
Qed.

(** The rows of a batch that are not duplicates, and the pairs stored for them. *)
Fixpoint accepted (m : gmap bytes Z) (fs : list Fwd) : list Fwd :=
  match fs with
  | [] => []
  | f :: fs' => if is_dup m (f_dedup f) then accepted m fs' else f :: accepted (dedup_next m (f_dedup f)) fs'
  end.

Fixpoint fwd_pairs (seq0 q : Z) (acc : list Fwd) : list (bytes * bytes) :=
  match acc with
  | [] => []
  | f :: acc' =>
      (dup_key (f_dedup f).1, be_bytes 8 (f_dedup f).2) :: (recv_key (q + 1) (f_consumer f) seq0, f_row f) ::
      fwd_pairs seq0 (q + 1) acc'
  end.

(** The rows handed to the processor. *)
Fixpoint fwd_rows (fill : bool) (ts seq0 q : Z) (acc : list Fwd) : list ForwardRow :=
  match acc with
  | [] => []
  | f :: acc' => MkForwardRow (q + 1) (f_consumer f) (recv_key (q + 1) (f_consumer f) seq0) (f_row f) ts fill ::
      fwd_rows fill ts seq0 (q + 1) acc'
  end.

Definition after_fwd (fill : bool) (ts seq0 : Z) (s : ShardState C) (fs : list Fwd) : ShardState C :=
  let acc := accepted (dedupSequences s) fs in
  MkShardState (hasListener s) (foldl dedup_next (dedupSequences s) (map f_dedup fs)) (receiverSequence s + Z.of_nat (length acc))
    (forwardRows s ++ (if isProcessor cnf s then fwd_rows fill ts seq0 (receiverSequence s) acc else []))
    (lastIndex s) (leaderNodeID s) (leaderTerm s) (droppedTables s) (lastPersistedBatch s).

Lemma fwd_fold fill ts seq0 fs : ∀ (s : ShardState C) batch,
  0 ≤ receiverSequence s → receiverSequence s + Z.of_nat (length (accepted (dedupSequences s) fs)) < two64 →
  foldl (fwd_step fill ts seq0) (s, batch) fs =
    (after_fwd fill ts seq0 s fs,
     batch ++ map (λ kv, KVSet kv.1 kv.2) (fwd_pairs seq0 (receiverSequence s) (accepted (dedupSequences s) fs))).
Proof.
  induction fs as [|f fs IH]; intros s batch Hge Hlt; unfold after_fwd.
  { destruct s. simpl. rewrite Z.add_0_r, app_nil_r. by case_match; rewrite app_nil_r. }
  cbn [foldl accepted map]. unfold fwd_step at 2.
  cbn [accepted] in Hlt. destruct (is_dup (dedupSequences s) (f_dedup f)) eqn:Hdup.
  { rewrite IH by done. unfold after_fwd. unfold dedup_next at 3. by rewrite Hdup. }
  cbn [length] in Hlt. rewrite u64_small by (unfold u64_ok; lia).
  assert (Hn : dedup_next (dedupSequences s) (f_dedup f) = <[(f_dedup f).1 := (f_dedup f).2]> (dedupSequences s))
    by (unfold dedup_next; by rewrite Hdup).
  destruct (isProcessor cnf s) eqn:Hpr.
  - rewrite IH; cbn [receiverSequence dedupSequences set_forwardRows set_receiverSequence set_dedup]; [|lia..].
    unfold after_fwd. cbn [receiverSequence dedupSequences set_forwardRows set_receiverSequence set_dedup
      hasListener forwardRows lastIndex leaderNodeID leaderTerm droppedTables lastPersistedBatch].
    unfold isProcessor in Hpr |- *. cbn [leaderNodeID set_forwardRows set_receiverSequence set_dedup]. rewrite Hpr, Hn.
    cbn [fwd_rows fwd_pairs map length]. rewrite <- !app_assoc. cbn [app]. f_equal. f_equal. lia.
  - rewrite IH; cbn [receiverSequence dedupSequences set_forwardRows set_receiverSequence set_dedup]; [|lia..].
    unfold after_fwd. cbn [receiverSequence dedupSequences set_receiverSequence set_dedup
      hasListener forwardRows lastIndex leaderNodeID leaderTerm droppedTables lastPersistedBatch].
    unfold isProcessor in Hpr |- *. cbn [leaderNodeID set_receiverSequence set_dedup]. rewrite Hpr, Hn.
    cbn [fwd_pairs map length]. rewrite <- !app_assoc. cbn [app]. f_equal. f_equal. lia.
Qed.

(** ** One forward write *)

Abbreviation index_key := (EncodeTableKeyPrefix LastLogIndexReceivedTableID shard).

(** What [Update] does once the entries have been handled. *)
Definition deliver (s : ShardState C) (ev : list event) : ShardState C * list event :=
  if hasListener s && (0 <? length (forwardRows s))%nat
  then (set_forwardRows s [], ev ++ [RemoteWriteOccurred (forwardRows s)]) else (s, ev).

Lemma deliver_empties s ev : hasListener s = true → forwardRows (deliver s ev).1 = [].
Proof. intros HL. unfold deliver. rewrite HL. destruct (forwardRows s) as [|r rows] eqn:E; simpl; [done|]. done. Qed.

Lemma deliver_nothing s ev : forwardRows s = [] → (deliver s ev).2 = ev.
Proof. intros HF. unfold deliver. rewrite HF. by rewrite andb_false_r. Qed.

Lemma Update_forward (s : ShardState C) (db : DB) ts i fill fs :
  lastIndex s = 0 → fwds_ok fs → 0 ≤ receiverSequence s →
  receiverSequence s + Z.of_nat (length (accepted (dedupSequences s) fs)) < two64 →
  let s' := after_fwd fill ts (receiverSequence s) s fs in
  Update cnf s db ts [MkEntry i (fwd_cmd shard fill [fs])] =
    Ok ((deliver s' []).1,
        kv_apply db (map (λ kv, KVSet kv.1 kv.2) (fwd_pairs (receiverSequence s) (receiverSequence s) (accepted (dedupSequences s) fs))
          ++ [KVSet index_key []; writeSequences cnf i (receiverSequence s')]),
        (deliver s' []).2, [shardStateMachineResponseOK]).
Proof.
  intros Hli Hok Hge Hlt s'. unfold Update. rewrite Hli. cbn [negb Z.eqb]. osimpl. cbn [foldM].
  rewrite updateEntry_forward by (by constructor). cbn [p_state p_batch p_lastBatch p_events]. unfold fwd_batches.
  cbn [foldl fst]. rewrite fwd_fold by done. osimpl. cbn [p_state p_batch p_lastBatch p_events fst snd length Nat.sub].
  cbn [index lookup list_lookup]. osimpl. cbn [Index map app]. fold s'. unfold deliver.
  rewrite <- app_assoc. by destruct (hasListener s' && _).
Qed.

Lemma accepted_nil m fs : Forall (λ f, is_dup m (f_dedup f) = true) fs → accepted m fs = [].
Proof. induction 1 as [|f fs Hf Hfs IH]; simpl; [done|]. by rewrite Hf. Qed.

Lemma redelivered_dup m fs : Forall (λ f, is_dup (foldl dedup_next m (map f_dedup fs)) (f_dedup f) = true) fs.
Proof. apply Forall_forall. intros f Hf. apply foldl_covers. by apply list_elem_of_fmap_2. Qed.

Lemma fwd_pairs_keys seq0 q acc k w :
  (k, w) ∈ fwd_pairs seq0 q acc →
  (∃ f, f ∈ acc ∧ k = dup_key (f_dedup f).1 ∧ w = be_bytes 8 (f_dedup f).2) ∨
  (∃ n f, acc !! n = Some f ∧ k = recv_key (q + 1 + Z.of_nat n) (f_consumer f) seq0 ∧ w = f_row f).
Proof.
  revert q. induction acc as [|f acc IH]; intros q Hin; simpl in Hin; [by apply not_elem_of_nil in Hin|].
  apply elem_of_cons in Hin as [[= -> ->]|[[= -> ->]|Hin]%elem_of_cons].
  - left. exists f. split_and!; [left|done..].
  - right. exists 0%nat, f. split_and!; [done| |done]. f_equal. lia.
  - apply IH in Hin as [(g & Hg & ? & ?)|(n & g & Hg & -> & ?)].
    + left. exists g. split_and!; [by right|done..].
    + right. exists (S n), g. split_and!; [done| |done]. f_equal. lia.
Qed.

Lemma fwd_pairs_recv seq0 q acc n f :
  acc !! n = Some f → (recv_key (q + 1 + Z.of_nat n) (f_consumer f) seq0, f_row f) ∈ fwd_pairs seq0 q acc.
Proof.
  revert q n. induction acc as [|g acc IH]; intros q [|n] Hn; simplify_eq/=.
  - rewrite Z.add_0_r. right. left.
  - right. right. replace (q + 1 + Z.of_nat (S n)) with (q + 1 + 1 + Z.of_nat n) by lia. by apply IH.
Qed.

Definition shard_ok : Prop := u64_ok shard.

Lemma recv_key_inj q c s0 q' c' s0' :
  u64_ok q → u64_ok q' → u64_ok c → u64_ok c' → recv_key q c s0 = recv_key q' c' s0' → q = q' ∧ c = c'.
Proof.
  intros Hq Hq' Hc Hc' E. unfold recv_key in E. apply app_inv_head in E.
  apply app_inj_1 in E as [E1 E]; [|by rewrite !length_be_bytes]. apply app_inj_1 in E as [E2 _]; [|by rewrite !length_be_bytes].
  apply be_bytes_inj in E1; [|done..]. apply be_bytes_inj in E2; [|done..]. done.
Qed.

(** Keys of different tables of the shard differ. *)
Lemma tables_differ t t' x y :
  shard_ok → u64_ok t → u64_ok t' → t ≠ t' → EncodeTableKeyPrefix t shard ++ x ≠ EncodeTableKeyPrefix t' shard ++ y.
Proof. intros Hs Ht Ht' Hne E. by apply EncodeTableKeyPrefix_inj in E as (? & _). Qed.

Lemma index_key_app : index_key = index_key ++ [].
Proof. by rewrite app_nil_r. Qed.

Lemma get_after_forward (db : DB) seq0 q acc i r k :
  k ≠ index_key →
  kv_get (kv_apply db (map (λ kv, KVSet kv.1 kv.2) (fwd_pairs seq0 q acc) ++ [KVSet index_key []; writeSequences cnf i r])) k =
    foldl (op_effect k) (kv_get db k) (map (λ kv, KVSet kv.1 kv.2) (fwd_pairs seq0 q acc)).
Proof.
  intros Hk. rewrite kv_get_apply, foldl_app. unfold writeSequences. cbn [foldl op_effect]. by rewrite !decide_False by done.
Qed.

(** An accepted row is stored under its receiver key. *)
Lemma stored_row (db : DB) seq0 q acc i r n f :
  shard_ok → Forall fwd_ok acc → 0 ≤ q → q + Z.of_nat (length acc) < two64 → acc !! n = Some f →
  kv_get (kv_apply db (map (λ kv, KVSet kv.1 kv.2) (fwd_pairs seq0 q acc) ++ [KVSet index_key []; writeSequences cnf i r]))
    (recv_key (q + 1 + Z.of_nat n) (f_consumer f) seq0) = Some (f_row f).
Proof.
  intros Hs Hok Hq Hlt Hn. rewrite get_after_forward.
  2:{ rewrite index_key_app. apply tables_differ; unfold u64_ok, ReceiverTableID, LastLogIndexReceivedTableID; done || lia. }
  rewrite Forall_lookup in Hok. pose proof (lookup_lt_Some _ _ _ Hn) as Hl.
  apply effect_sets_hit; [by apply fwd_pairs_recv|]. intros w Hw.
  apply fwd_pairs_keys in Hw as [(g & _ & E & _)|(m & g & Hm & E & ->)].
  - exfalso. revert E. apply tables_differ; unfold u64_ok, ReceiverTableID, ForwardDedupTableID; done || lia.
  - pose proof (lookup_lt_Some _ _ _ Hm). destruct (Hok _ _ Hn) as (_ & _ & Hc & _). destruct (Hok _ _ Hm) as (_ & _ & Hc' & _).
    apply recv_key_inj in E as [E _]; [|unfold u64_ok; lia..|done|done].
    assert (m = n) as -> by lia. congruence.
Qed.

Lemma accepted_ok m fs : Forall fwd_ok fs → Forall fwd_ok (accepted m fs).
Proof.
  intros Hok. revert m. induction Hok as [|f fs Hf Hok IH]; intros m; simpl; [constructor|].
  case_match; [apply IH|constructor; [done|apply IH]].
Qed.

(** * Properties *)

(** C1. Forwarded rows are written exactly once. A forward write stores every row that
    is not a duplicate under the next receiver sequences, without a gap, and, on the
    replica that is the processor, hands exactly those rows with those sequences to
    the listener. Delivering the same command again (a retried proposal, a replayed
    source) stores nothing, keeps the sequences, and hands over nothing. *)
Theorem forward_exactly_once (s : ShardState C) (db : DB) (ts ts' i i' : Z) (fill : bool) (fs : list Fwd) :
  shard_ok → lastIndex s = 0 → fwds_ok fs → 0 ≤ receiverSequence s →
  receiverSequence s + Z.of_nat (length (accepted (dedupSequences s) fs)) < two64 →
  let acc := accepted (dedupSequences s) fs in
  let q := receiverSequence s in
  ∃ s1 db1 ev1 s2 db2 ev2,
    Update cnf s db ts [MkEntry i (fwd_cmd shard fill [fs])] = Ok (s1, db1, ev1, [shardStateMachineResponseOK]) ∧
    receiverSequence s1 = q + Z.of_nat (length acc) ∧
    (∀ n f, acc !! n = Some f → kv_get db1 (recv_key (q + 1 + Z.of_nat n) (f_consumer f) q) = Some (f_row f)) ∧
    Update cnf s1 db1 ts' [MkEntry i' (fwd_cmd shard fill [fs])] = Ok (s2, db2, ev2, [shardStateMachineResponseOK]) ∧
    receiverSequence s2 = receiverSequence s1 ∧ dedupSequences s2 = dedupSequences s1 ∧
    (∀ k, k ≠ index_key → kv_get db2 k = kv_get db1 k) ∧
    (hasListener s = true → isProcessor cnf s = true → forwardRows s = [] →
       ev1 = match acc with [] => [] | _ => [RemoteWriteOccurred (fwd_rows fill ts q q acc)] end ∧ ev2 = []).
Proof.
  intros Hs Hli [Hok Hcf] Hge Hlt acc q.
  set (s1' := after_fwd fill ts (receiverSequence s) s fs).
  assert (H1 := Update_forward s db ts i fill fs Hli (conj Hok Hcf) Hge Hlt). cbv zeta in H1. fold s1' in H1.
  assert (Hd1 : dedupSequences (deliver s1' []).1 = dedupSequences s1') by (unfold deliver; by case_match).
  assert (Hq1 : receiverSequence (deliver s1' []).1 = receiverSequence s1') by (unfold deliver; by case_match).
  assert (Hl1 : lastIndex (deliver s1' []).1 = 0) by (unfold deliver; by case_match).
  assert (Hnil : accepted (dedupSequences (deliver s1' []).1) fs = [])
    by (rewrite Hd1; apply accepted_nil, redelivered_dup).
  assert (Hge1 : 0 ≤ receiverSequence (deliver s1' []).1) by (rewrite Hq1; simpl; lia).
  assert (Hlt1 : receiverSequence (deliver s1' []).1 + Z.of_nat (length (accepted (dedupSequences (deliver s1' []).1) fs)) < two64)
    by (rewrite Hnil, Hq1; simpl in *; lia).
  assert (H2 := λ d, Update_forward (deliver s1' []).1 d ts' i' fill fs Hl1 (conj Hok Hcf) Hge1 Hlt1). cbv zeta in H2.
  rewrite Hnil in H2. eexists _, _, _, _, _, _. split; [exact H1|]. split; [by rewrite Hq1|].
  split. { intros n f Hn. apply stored_row; auto using accepted_ok. }
  split; [apply H2|]. split_and!.
  - unfold deliver at 1. case_match; unfold after_fwd; rewrite Hnil; simpl; lia.
  - unfold deliver at 1. case_match; simpl; apply foldl_all_dup, Forall_map; rewrite Hd1; apply redelivered_dup.
  - intros k Hk. by rewrite (get_after_forward _ _ _ []).
  - intros HL HP HF. split.
    + unfold s1', deliver, after_fwd. cbn [hasListener forwardRows]. rewrite HL, HP, HF. fold acc q.
      by destruct acc.
    + apply deliver_nothing. unfold after_fwd. cbn [forwardRows]. rewrite Hnil, deliver_empties by done.
      by case_match.
Qed.

(** Combining batches is transparent: a forward write that carries several batches,
    as the shard scheduler builds them, does to the state machine exactly what the
    batches do when they are written one at a time, in the same order. *)
Theorem combined_forward_write (ts i : Z) (p : Progress) (fill : bool) (fss : list (list Fwd)) :
  Forall fwds_ok fss →
  updateEntry cnf ts p (MkEntry i (fwd_cmd shard fill fss)) =
    foldM (λ p fs, updateEntry cnf ts p (MkEntry i (fwd_cmd shard fill [fs]))) p fss.
Proof.
  intros Hok. rewrite updateEntry_forward by done. revert p. induction Hok as [|fs fss Hf Hok IH]; intros p.
  { by destruct p. }
  cbn [foldM]. rewrite updateEntry_forward by (by constructor). osimpl. rewrite <- IH. cbn [p_state p_batch p_lastBatch p_events].
  unfold fwd_batches. cbn [foldl fst snd]. by destruct (foldl _ (p_state p, p_batch p) fs).
Qed.
End fwd.

Lemma combined_forward_write_witness :
  let cnf := MkShardConfig 1 1000 false in
  let s : ShardState (list Z) := MkShardState true ∅ 5 [] 0 1 3 [] None in
  let f := λ n, MkFwd (replicate 16 7, n) 4 [n] in
  updateEntry cnf 0 (MkProgress s [] None []) (MkEntry 9 (fwd_cmd 1000 false [[f 1; f 2]; [f 2; f 3]])) =
    foldM (λ p fs, updateEntry cnf 0 p (MkEntry 9 (fwd_cmd 1000 false [fs]))) (MkProgress s [] None []) [[f 1; f 2]; [f 2; f 3]].
Proof.
  intros cnf s f. apply (combined_forward_write cnf 0 9 (MkProgress s [] None []) false [[f 1; f 2]; [f 2; f 3]]).
  repeat constructor; vm_compute; congruence.
Defined.

Lemma forward_exactly_once_witness :
  let cnf := MkShardConfig 1 1000 false in
  let s : ShardState (list Z) := MkShardState true ∅ 5 [] 0 1 3 [] None in
  let fs := [MkFwd (replicate 16 7, 1) 4 [1]; MkFwd (replicate 16 7, 1) 4 [1]] in
  let acc := accepted (dedupSequences s) fs in
  let q := receiverSequence s in
  ∃ s1 db1 ev1 s2 db2 ev2,
    Update cnf s (∅ : gmap bytes bytes) 100 [MkEntry 9 (fwd_cmd 1000 false [fs])] = Ok (s1, db1, ev1, [shardStateMachineResponseOK]) ∧
    receiverSequence s1 = q + Z.of_nat (length acc) ∧
    (∀ n f, acc !! n = Some f → kv_get db1 (recv_key cnf (q + 1 + Z.of_nat n) (f_consumer f) q) = Some (f_row f)) ∧
    Update cnf s1 db1 101 [MkEntry 10 (fwd_cmd 1000 false [fs])] = Ok (s2, db2, ev2, [shardStateMachineResponseOK]) ∧
    receiverSequence s2 = receiverSequence s1 ∧ dedupSequences s2 = dedupSequences s1 ∧
    (∀ k, k ≠ EncodeTableKeyPrefix LastLogIndexReceivedTableID 1000 → kv_get db2 k = kv_get db1 k) ∧
    (hasListener s = true → isProcessor cnf s = true → forwardRows s = [] →
       ev1 = match acc with [] => [] | _ => [RemoteWriteOccurred (fwd_rows cnf false 100 q q acc)] end ∧ ev2 = []).
Proof.
  intros cnf s fs.
  apply (forward_exactly_once cnf s (∅ : gmap bytes bytes) 100 101 9 10 false fs);
    [split; simpl; lia|done|split; repeat constructor; vm_compute; congruence|simpl; lia|vm_compute; congruence].
Defined.
