(* ===== verification/ShardReplicas.v ===== *)
(** * Agreement of the replicas of a shard

    Every replica of a shard applies the same Raft log. The replicas agree on the
    sequences, on the leader and on the stored data although they run on different
    nodes with different clocks; the leader term never goes back, and at most one
    replica takes itself for the processor. *)

From stdpp Require Import base list strings gmap.
From Stdlib Require Import ZArith Lia.
From S2P Require Import Prelude Encoding Timestamp Decimal Rows KeyEncoding RowEncoding Store WriteBatch Table LocalStore ShardSM.

Section single.
Context {DB C : Type} `{KVStore DB} `{DroppedCache C}.
Variable cnf : ShardConfig.

(** Writes leave the leadership and the bookkeeping of the log alone. *)
Definition same_leader (s s' : ShardState C) : Prop :=
  leaderNodeID s' = leaderNodeID s ∧ leaderTerm s' = leaderTerm s ∧ lastIndex s' = lastIndex s ∧ hasListener s' = hasListener s.

Lemma same_leader_trans s1 s2 s3 : same_leader s1 s2 → same_leader s2 s3 → same_leader s1 s3.
Proof. unfold same_leader. intuition congruence. Qed.

Lemma checkKey_leader (s s' : ShardState C) k b : checkKey cnf s k = Ok (b, s') → same_leader s s'.
Proof.
  unfold checkKey. destruct (sm_TestServer cnf); [by intros [= <- <-]|].
  destruct (ReadUint64FromBufferBE k 0) as [[sid ?]| | |]; simpl; try done. destruct (negb _); [done|].
  destruct (ReadUint64FromBufferBE k 8) as [[tid ?]| | |]; simpl; try done. destruct (cache_get _ _). by intros [= <- <-].
Qed.

Lemma handlePut_leader forward fill ts (st st' : ShardState C * list kv_op) kv :
  handlePut cnf forward fill ts st kv = Ok st' → same_leader st.1 st'.1.
Proof.
  destruct st as [s batch]. unfold handlePut. destruct forward.
  - destruct (slice kv.1 0 24) as [dk| | |]; simpl; try done. unfold checkDedup.
    destruct (DoDedup _ _) as [[ign m]| | |]; simpl; try done. destruct ign; [by intros [= <-]|].
    destruct (slice dk 0 16) as [oid| | |]; simpl; try done. destruct (slice_from dk 16); simpl; try done.
    destruct (slice_from kv.1 24) as [rc| | |]; simpl; try done. destruct (isProcessor _ _).
    + destruct (ReadUint64FromBufferBE rc 0) as [[c ?]| | |]; simpl; try done. by intros [= <-].
    + by intros [= <-].
  - destruct (checkKey cnf s kv.1) as [[ok s1]| | |] eqn:E; simpl; try done. apply checkKey_leader in E.
    destruct ok; by intros [= <-].
Qed.

Lemma handleWrite_leader (s s' : ShardState C) batch batch' off bs forward fill ts id off' :
  handleWrite cnf s batch off bs forward fill ts = Ok (s', batch', id, off') → same_leader s s'.
Proof.
  unfold handleWrite. destruct (deserializeWriteBatch _ _ _ _) as [[d o]| | |]; simpl; try done.
  destruct (foldM _ (s, batch) (d_puts d)) as [[s1 b1]| | |] eqn:E1; simpl; try done. destruct (forward && _); [done|].
  destruct (foldM _ (s1, b1) (d_deletes d)) as [[s2 b2]| | |] eqn:E2; simpl; try done. intros [= <- _ _ _].
  apply same_leader_trans with s1.
  - refine (foldM_inv (λ st, same_leader s st.1) _ _ _ _ _ _ E1); [|done].
    intros st x st' _ Hst Hp. eapply same_leader_trans; [done|]. by eapply handlePut_leader.
  - refine (foldM_inv (λ st : ShardState C * list kv_op, same_leader s1 st.1) _ _ _ _ _ _ E2); [|done].
    intros [s3 b3] x st' _ Hst. destruct (checkKey cnf s3 x) as [[? s4]| | |] eqn:E; simpl; try done.
    intros [= <-]. eapply same_leader_trans; [done|]. by eapply checkKey_leader.
Qed.

Lemma handleForwardBatches_leader n : ∀ (s s' : ShardState C) batch batch' off bs fill ts off',
  handleForwardBatches cnf n s batch off bs fill ts = Ok (s', batch', off') → same_leader s s'.
Proof.
  induction n as [|n IH]; intros s s' batch batch' off bs fill ts off'; simpl; [by intros [= <- _ _]|].
  destruct (handleWrite _ _ _ _ _ _ _ _) as [[[[s1 b1] ?] o]| | |] eqn:E; simpl; try done. intros Hrun.
  eapply same_leader_trans; [by eapply handleWrite_leader|by eapply IH].
Qed.

(** The leader only changes to a later term. *)
Definition leader_le (s s' : ShardState C) : Prop :=
  leaderTerm s ≤ leaderTerm s' ∧ (leaderTerm s' = leaderTerm s → leaderNodeID s' = leaderNodeID s) ∧ lastIndex s' = lastIndex s.

Lemma leader_le_refl s : leader_le s s.
Proof. split_and!; done || lia. Qed.

Lemma leader_le_trans s1 s2 s3 : leader_le s1 s2 → leader_le s2 s3 → leader_le s1 s3.
Proof.
  intros (H1 & H2 & H3) (H4 & H5 & H6). split_and!; [lia| |congruence].
  intros E. rewrite H5 by lia. apply H2. lia.
Qed.

Lemma same_leader_le s s' : same_leader s s' → leader_le s s'.
Proof. intros (E1 & E2 & E3 & _). split_and!; [lia|done|done]. Qed.

Lemma updateEntry_leader ts (p p' : Progress) e : updateEntry cnf ts p e = Ok p' → leader_le (p_state p) (p_state p').
Proof.
  unfold updateEntry. destruct (index (Cmd e) 0) as [command| | |]; simpl; try done.
  destruct (command =? shardStateMachineCommandForwardWrite).
  { destruct (index (Cmd e) 1) as [fill| | |], (index (Cmd e) 2) as [n| | |]; simpl; try done.
    destruct (handleForwardBatches _ _ _ _ _ _ _ _) as [[[s b] o]| | |] eqn:E; simpl; try done. intros [= <-].
    by eapply same_leader_le, handleForwardBatches_leader. }
  destruct (command =? shardStateMachineCommandWrite).
  { destruct (handleWrite _ _ _ _ _ _ _ _) as [[[[s b] id] o]| | |] eqn:E; simpl; try done. intros [= <-].
    by eapply same_leader_le, handleWrite_leader. }
  destruct (command =? shardStateMachineCommandSetLeader); [|done].
  unfold handleSetLeader. destruct (ReadUint64FromBufferLE (Cmd e) 1) as [[nl ?]| | |]; simpl; try done.
  destruct (ReadUint64FromBufferLE (Cmd e) 9) as [[term ?]| | |]; simpl; try done.
  destruct (Z.leb_spec (i64 term) (leaderTerm (p_state p))); simpl.
  - intros [= <-]. split_and!; [done|done|done].
  - match goal with |- context [if ?c then _ else _] => destruct c end; simpl;
    repeat case_match; simplify_eq/=; intros [= <-]; split_and!; simpl; done || lia.
Qed.

Lemma Update_leader (s s' : ShardState C) (db db' : DB) ts entries ev res :
  lastIndex s = 0 → Update cnf s db ts entries = Ok (s', db', ev, res) → leader_le s s'.
Proof.
  intros Hli. unfold Update. rewrite Hli. simpl.
  destruct (foldM _ _ entries) as [p| | |] eqn:E; simpl; try done.
  destruct (index entries _); simpl; try done. intros Hrun.
  assert (Hp : leader_le s (p_state p)).
  { refine (foldM_inv (λ p : Progress, leader_le s (p_state p)) _ _ _ _ _ _ E); [|apply leader_le_refl].
    intros p1 e p2 _ H1 H2. eapply leader_le_trans; [done|]. by eapply updateEntry_leader. }
  eapply leader_le_trans; [exact Hp|]. destruct (p_lastBatch p); simpl in Hrun; repeat case_match; simplify_eq/=; split_and!; simpl; done || lia.
Qed.
End single.

(** ** Two replicas *)

Section replicas.
Context {DB C : Type} `{KVStore DB} `{DroppedCache C}.
Variables cnf1 cnf2 : ShardConfig.
Hypothesis same_shard : sm_shardID cnf1 = sm_shardID cnf2.
Hypothesis same_mode : sm_TestServer cnf1 = sm_TestServer cnf2.

(** What replicas have in common: everything but the rows queued for the local
    processor, the listener, and the order in which dropped tables are forgotten. *)
Definition agree (s1 s2 : ShardState C) : Prop :=
  dedupSequences s1 = dedupSequences s2 ∧ receiverSequence s1 = receiverSequence s2 ∧
  leaderNodeID s1 = leaderNodeID s2 ∧ leaderTerm s1 = leaderTerm s2 ∧
  ∀ t, (cache_get (droppedTables s1) t).1 = (cache_get (droppedTables s2) t).1.

Definition agree_st (st1 st2 : ShardState C * list kv_op) : Prop := agree st1.1 st2.1 ∧ st1.2 = st2.2.

Lemma checkKey_agree (s1 s2 s1' s2' : ShardState C) k b1 b2 :
  agree s1 s2 → checkKey cnf1 s1 k = Ok (b1, s1') → checkKey cnf2 s2 k = Ok (b2, s2') → b1 = b2 ∧ agree s1' s2'.
Proof.
  intros (A1 & A2 & A3 & A4 & A5). unfold checkKey. rewrite <- same_mode, <- same_shard.
  destruct (sm_TestServer cnf1); [by intros [= <- <-] [= <- <-]|].
  destruct (ReadUint64FromBufferBE k 0) as [[sid ?]| | |]; simpl; try done. destruct (negb _); [done|].
  destruct (ReadUint64FromBufferBE k 8) as [[tid ?]| | |]; simpl; try done.
  pose proof (A5 tid) as Ht. pose proof (cache_get_get (droppedTables s1) tid) as G1. pose proof (cache_get_get (droppedTables s2) tid) as G2.
  destruct (cache_get (droppedTables s1) tid) as [f1 c1], (cache_get (droppedTables s2) tid) as [f2 c2]. simpl in *. subst f2.
  intros [= <- <-] [= <- <-]. split; [done|]. split_and!; simpl; try done. intros t. by rewrite G1, G2.
Qed.

Lemma handlePut_agree forward fill ts1 ts2 (st1 st2 st1' st2' : ShardState C * list kv_op) kv :
  agree_st st1 st2 → handlePut cnf1 forward fill ts1 st1 kv = Ok st1' → handlePut cnf2 forward fill ts2 st2 kv = Ok st2' →
  agree_st st1' st2'.
Proof.
  destruct st1 as [s1 b], st2 as [s2 b2]. intros [A Hb]. simpl in A, Hb. subst b2. unfold handlePut. destruct forward.
  - pose proof A as (A1 & A2 & A3 & A4 & A5).
    destruct (slice kv.1 0 24) as [dk| | |]; simpl; try done. unfold checkDedup. rewrite <- A1, <- same_shard.
    destruct (DoDedup _ _) as [[ign m]| | |]; simpl; try done. destruct ign; [by intros [= <-] [= <-]|].
    destruct (slice dk 0 16) as [oid| | |]; simpl; try done. destruct (slice_from dk 16); simpl; try done.
    destruct (slice_from kv.1 24) as [rc| | |]; simpl; try done. rewrite <- A2.
    destruct (isProcessor cnf1 _), (isProcessor cnf2 _);
      destruct (ReadUint64FromBufferBE rc 0) as [[c ?]| | |]; simpl; try done; intros [= <-] [= <-];
      split; simpl; try done; split_and!; simpl; congruence || done.
  - destruct (checkKey cnf1 s1 kv.1) as [[ok1 s1a]| | |] eqn:E1; simpl; try done.
    destruct (checkKey cnf2 s2 kv.1) as [[ok2 s2a]| | |] eqn:E2; simpl; try done.
    destruct (checkKey_agree _ _ _ _ _ _ _ A E1 E2) as [<- A']. destruct ok1; by intros [= <-] [= <-].
Qed.

Lemma handleWrite_agree (s1 s2 s1' s2' : ShardState C) b b1' b2' off bs forward fill ts1 ts2 id1 id2 off1 off2 :
  agree s1 s2 →
  handleWrite cnf1 s1 b off bs forward fill ts1 = Ok (s1', b1', id1, off1) →
  handleWrite cnf2 s2 b off bs forward fill ts2 = Ok (s2', b2', id2, off2) →
  agree s1' s2' ∧ b1' = b2' ∧ off1 = off2.
Proof.
  intros A. unfold handleWrite. replace (receiverSequence s2) with (receiverSequence s1) by apply A.
  destruct (deserializeWriteBatch _ _ _ _) as [[d o]| | |]; simpl; try done.
  destruct (foldM _ (s1, b) (d_puts d)) as [[s1a b1]| | |] eqn:E1; simpl; try done.
  destruct (foldM _ (s2, b) (d_puts d)) as [[s2a b2]| | |] eqn:E2; simpl; try done.
  assert (A1 : agree_st (s1a, b1) (s2a, b2)).
  { refine (foldM_rel agree_st _ _ _ _ _ _ _ _ _ E1 E2); [|done]. intros; by eapply handlePut_agree. }
  destruct (forward && _); [done|].
  destruct (foldM _ (s1a, b1) (d_deletes d)) as [[s1b b1a]| | |] eqn:F1; simpl; try done.
  destruct (foldM _ (s2a, b2) (d_deletes d)) as [[s2b b2a]| | |] eqn:F2; simpl; try done.
  assert (A2 : agree_st (s1b, b1a) (s2b, b2a)).
  { refine (foldM_rel agree_st _ _ _ _ _ _ _ _ _ F1 F2); [|done]. intros [x1 y1] [x2 y2] k u1 u2 [Ax Ey]. simpl in *. subst y2.
    destruct (checkKey cnf1 x1 k) as [[? z1]| | |] eqn:G1; simpl; try done.
    destruct (checkKey cnf2 x2 k) as [[? z2]| | |] eqn:G2; simpl; try done.
    destruct (checkKey_agree _ _ _ _ _ _ _ Ax G1 G2) as [_ Az]. by intros [= <-] [= <-]. }
  intros [= <- <- _ <-] [= <- <- _ <-]. destruct A2 as [? Eb]. simpl in Eb. by rewrite Eb.
Qed.

Lemma handleForwardBatches_agree n : ∀ (s1 s2 s1' s2' : ShardState C) b b1' b2' off bs fill ts1 ts2 off1 off2,
  agree s1 s2 →
  handleForwardBatches cnf1 n s1 b off bs fill ts1 = Ok (s1', b1', off1) →
  handleForwardBatches cnf2 n s2 b off bs fill ts2 = Ok (s2', b2', off2) → agree s1' s2' ∧ b1' = b2'.
Proof.
  induction n as [|n IH]; intros s1 s2 s1' s2' b b1' b2' off bs fill ts1 ts2 off1 off2 A; simpl.
  { by intros [= <- <- _] [= <- <- _]. }
  destruct (handleWrite cnf1 _ _ _ _ _ _ _) as [[[[s1a b1] ?] o1]| | |] eqn:E1; simpl; try done.
  destruct (handleWrite cnf2 _ _ _ _ _ _ _) as [[[[s2a b2] ?] o2]| | |] eqn:E2; simpl; try done.
  destruct (handleWrite_agree _ _ _ _ _ _ _ _ _ _ _ _ _ _ _ _ _ A E1 E2) as (A' & <- & <-). by apply IH.
Qed.

Definition agree_p (p1 p2 : Progress) : Prop := agree (p_state p1) (p_state p2) ∧ p_batch p1 = p_batch p2.

Lemma updateEntry_agree ts1 ts2 (p1 p2 p1' p2' : Progress) e :
  agree_p p1 p2 → updateEntry cnf1 ts1 p1 e = Ok p1' → updateEntry cnf2 ts2 p2 e = Ok p2' → agree_p p1' p2'.
Proof.
  intros [A Eb]. unfold updateEntry. destruct (index (Cmd e) 0) as [command| | |]; simpl; try done. rewrite <- Eb.
  destruct (command =? shardStateMachineCommandForwardWrite).
  { destruct (index (Cmd e) 1) as [fill| | |], (index (Cmd e) 2) as [n| | |]; simpl; try done.
    destruct (handleForwardBatches cnf1 _ _ _ _ _ _ _) as [[[s b] o]| | |] eqn:E1; simpl; try done.
    destruct (handleForwardBatches cnf2 _ _ _ _ _ _ _) as [[[s' b'] o']| | |] eqn:E2; simpl; try done.
    intros [= <-] [= <-]. by eapply handleForwardBatches_agree. }
  destruct (command =? shardStateMachineCommandWrite).
  { destruct (handleWrite cnf1 _ _ _ _ _ _ _) as [[[[s b] id] o]| | |] eqn:E1; simpl; try done.
    destruct (handleWrite cnf2 _ _ _ _ _ _ _) as [[[[s' b'] id'] o']| | |] eqn:E2; simpl; try done.
    intros [= <-] [= <-]. edestruct handleWrite_agree as (? & ? & _); [exact A|exact E1|exact E2|]. done. }
  destruct (command =? shardStateMachineCommandSetLeader); [|done].
  unfold handleSetLeader. destruct (ReadUint64FromBufferLE (Cmd e) 1) as [[nl ?]| | |]; simpl; try done.
  destruct (ReadUint64FromBufferLE (Cmd e) 9) as [[term ?]| | |]; simpl; try done.
  pose proof A as (A1 & A2 & A3 & A4 & A5). rewrite <- A4, <- same_shard. destruct (i64 term <=? _); simpl.
  - by intros [= <-] [= <-].
  - repeat case_match; simplify_eq/=; intros [= <-] [= <-]; split; simpl; try done; split_and!; simpl; done.
Qed.

Lemma Update_agree (s1 s2 s1' s2' : ShardState C) (db1 db2 db1' db2' : DB) ts1 ts2 entries ev1 ev2 r1 r2 :
  agree s1 s2 → kv_equiv db1 db2 → lastIndex s1 = 0 → lastIndex s2 = 0 →
  Update cnf1 s1 db1 ts1 entries = Ok (s1', db1', ev1, r1) → Update cnf2 s2 db2 ts2 entries = Ok (s2', db2', ev2, r2) →
  agree s1' s2' ∧ kv_equiv db1' db2' ∧ r1 = r2.
Proof.
  intros A Hdb L1 L2. unfold Update. rewrite L1, L2. simpl.
  destruct (foldM (updateEntry cnf1 ts1) _ entries) as [p1| | |] eqn:E1; simpl; try done.
  destruct (foldM (updateEntry cnf2 ts2) _ entries) as [p2| | |] eqn:E2; simpl; try done.
  assert (HP : agree_p p1 p2).
  { refine (foldM_rel agree_p _ _ _ _ _ _ _ _ _ E1 E2); [|done]. intros; by eapply updateEntry_agree. }
  destruct HP as [HA HB]. destruct (index entries _) as [eN| | |]; simpl; try done.
  unfold writeSequences. rewrite <- HB, <- same_shard. replace (receiverSequence (p_state p2)) with (receiverSequence (p_state p1)) by apply HA.
  intros R1 R2.
  assert (Hs1 : agree s1' (p_state p1)) by (destruct (p_lastBatch p1); simpl in R1; repeat case_match; simplify_eq/=; by split_and!).
  assert (Hs2 : agree (p_state p2) s2') by (destruct (p_lastBatch p2); simpl in R2; repeat case_match; simplify_eq/=; by split_and!).
  split_and!.
  - destruct Hs1 as (? & ? & ? & ? & U1), Hs2 as (? & ? & ? & ? & U2), HA as (? & ? & ? & ? & U3).
    split_and!; [congruence..|]. intros t. by rewrite U1, U3, U2.
  - repeat case_match; simplify_eq/=; by rewrite Hdb.
  - repeat case_match; by simplify_eq/=.
Qed.

(** * Properties *)

(** C7. Replicas agree: two replicas of a shard on different nodes that agree before a
    run of log entries agree after it, on the duplicate screening, the receiver
    sequence, the leader and the whole content of the store, whatever their clocks
    say and whichever of them is the processor. *)
Theorem replicas_agree (s1 s2 s1' s2' : ShardState C) (db1 db2 db1' db2' : DB) (ts1 ts2 : Z) (entries : list Entry)
    (ev1 ev2 : list event) (r1 r2 : list Z) :
  agree s1 s2 → kv_equiv db1 db2 → lastIndex s1 = 0 → lastIndex s2 = 0 →
  Update cnf1 s1 db1 ts1 entries = Ok (s1', db1', ev1, r1) → Update cnf2 s2 db2 ts2 entries = Ok (s2', db2', ev2, r2) →
  agree s1' s2' ∧ kv_equiv db1' db2' ∧ r1 = r2 ∧
  (isProcessor cnf1 s1' = true → isProcessor cnf2 s2' = true → i64 (sm_nodeID cnf1) = i64 (sm_nodeID cnf2)).
Proof.
  intros A Hdb L1 L2 R1 R2. destruct (Update_agree _ _ _ _ _ _ _ _ _ _ _ _ _ _ _ A Hdb L1 L2 R1 R2) as (A' & Hdb' & Hr).
  split_and!; [done..|]. destruct A' as (_ & _ & El & _). unfold isProcessor. rewrite El.
  intros ->%Z.eqb_eq ->%Z.eqb_eq. done.
Qed.
End replicas.

Lemma replicas_agree_witness :
  let c1 := MkShardConfig 1 1000 false in
  let c2 := MkShardConfig 2 1000 false in
  let s : ShardState (list Z) := MkShardState false ∅ 0 [] 0 (-1) (-1) [] None in
  let es := [MkEntry 4 ([3] ++ le_bytes 8 2 ++ le_bytes 8 7);
             MkEntry 5 ([1] ++ Serialize (AddPut (NewWriteBatch 1000) (EncodeTableKeyPrefix 1001 1000) [9]) [])] in
  match Update c1 s (∅ : gmap bytes bytes) 10 es, Update c2 s (∅ : gmap bytes bytes) 20 es with
  | Ok (s1', db1', ev1, r1), Ok (s2', db2', ev2, r2) =>
      agree s1' s2' ∧ kv_equiv db1' db2' ∧ r1 = r2 ∧ (isProcessor c1 s1' = true → isProcessor c2 s2' = true → i64 1 = i64 2)
  | _, _ => False
  end.
Proof.
  intros c1 c2 s es.
  assert (H1 : is_ok (Update c1 s ∅ 10 es) = true) by (vm_compute; reflexivity).
  assert (H2 : is_ok (Update c2 s ∅ 20 es) = true) by (vm_compute; reflexivity).
  destruct (Update c1 s ∅ 10 es) as [[[[s1' db1'] ev1] r1]| | |] eqn:E1; [|done..].
  destruct (Update c2 s ∅ 20 es) as [[[[s2' db2'] ev2] r2]| | |] eqn:E2; [|done..].
  apply (replicas_agree c1 c2 eq_refl eq_refl s s s1' s2' ∅ ∅ db1' db2' 10 20 es ev1 ev2 r1 r2);
    [by split_and!|done|done|done|exact E1|exact E2].
Defined.

Section leader.
Context {DB C : Type} `{KVStore DB} `{DroppedCache C}.
Variable cnf : ShardConfig.

(** Leadership moves forward only: over any run of log entries the leader term
    never decreases, and while it stays the same the leader stays the same, so a
    late or replayed set-leader command of an old term changes nothing. *)
Theorem leader_term_monotone (s s' : ShardState C) (db db' : DB) (ts : Z) (entries : list Entry) (ev : list event) (res : list Z) :
  lastIndex s = 0 → Update cnf s db ts entries = Ok (s', db', ev, res) →
  leaderTerm s ≤ leaderTerm s' ∧ (leaderTerm s' = leaderTerm s → leaderNodeID s' = leaderNodeID s).
Proof. intros Hl Hrun. destruct (Update_leader _ _ _ _ _ _ _ _ _ Hl Hrun) as (? & ? & _). done. Qed.

(** The index of the last entry seen is never recorded: a state machine opened with
    [lastIndex] zero still has it zero after any update, so the check for replayed
    entries at the start of [Update] never fires. *)
Theorem lastIndex_never_set (s s' : ShardState C) (db db' : DB) (ts : Z) (entries : list Entry) (ev : list event) (res : list Z) :
  lastIndex s = 0 → Update cnf s db ts entries = Ok (s', db', ev, res) → lastIndex s' = 0.
Proof. intros Hl Hrun. destruct (Update_leader _ _ _ _ _ _ _ _ _ Hl Hrun) as (_ & _ & ->). done. Qed.
End leader.

Lemma leader_term_monotone_witness :
  let c := MkShardConfig 1 1000 false in
  let s : ShardState (list Z) := MkShardState false ∅ 0 [] 0 3 8 [] None in
  match Update c s (∅ : gmap bytes bytes) 10 [MkEntry 4 ([3] ++ le_bytes 8 2 ++ le_bytes 8 7)] with
  | Ok (s', _, _, _) => leaderTerm s ≤ leaderTerm s' ∧ (leaderTerm s' = leaderTerm s → leaderNodeID s' = leaderNodeID s)
  | _ => False
  end.
Proof.
  intros c s. match goal with |- match ?u with _ => _ end => assert (Hu : is_ok u = true) by (vm_compute; reflexivity) end.
  destruct (Update c s ∅ 10 _) as [[[[s' db'] ev] r]| | |] eqn:E; [|done..].
  exact (leader_term_monotone c s s' ∅ db' 10 _ ev r eq_refl E).
Defined.

Lemma lastIndex_never_set_witness :
  let c := MkShardConfig 1 1000 false in
  let s : ShardState (list Z) := MkShardState false ∅ 0 [] 0 3 8 [] None in
  match Update c s (∅ : gmap bytes bytes) 10 [MkEntry 4 ([3] ++ le_bytes 8 2 ++ le_bytes 8 9)] with
  | Ok (s', _, _, _) => lastIndex s' = 0
  | _ => False
  end.
Proof.
  intros c s. match goal with |- match ?u with _ => _ end => assert (Hu : is_ok u = true) by (vm_compute; reflexivity) end.
  destruct (Update c s ∅ 10 _) as [[[[s' db'] ev] r]| | |] eqn:E; [|done..].
  exact (lastIndex_never_set c s s' ∅ db' 10 _ ev r eq_refl E).
Defined.
