(* ===== verification/ShardRecovery.v ===== *)
(** * Restart and snapshots of a shard

    After any run of log entries the store contains what a restarted replica needs:
    [Open] finds the duplicate-screening sequences, the receiver sequence, the leader
    and the log index of the state machine that was stopped. A snapshot carries the
    same over to another node. *)

From stdpp Require Import base list strings gmap sorting.
From Stdlib Require Import ZArith Lia.
From S2P Require Import Prelude Encoding Timestamp Decimal Rows KeyEncoding RowEncoding Store WriteBatch Table LocalStore ShardSM ShardSMProps ShardReplicas.

Section recovery.
Context {DB C : Type} `{KVStore DB} `{DroppedCache C}.
Variable cnf : ShardConfig.
Abbreviation shard := (sm_shardID cnf).
Abbreviation index_key := (EncodeTableKeyPrefix LastLogIndexReceivedTableID shard).
Abbreviation leader_key := (EncodeTableKeyPrefix ShardLeaderTableID shard).
Abbreviation dedup_prefix := (EncodeTableKeyPrefix ForwardDedupTableID shard).

(** ** What the store must contain *)

Record dedup_stored (m : gmap bytes Z) (db : DB) : Prop := {
  ds_get : ∀ oid, length oid = 16%nat → kv_get db (dup_key cnf oid) = be_bytes 8 <$> m !! oid;
  ds_ok : ∀ oid q, m !! oid = Some q → length oid = 16%nat ∧ bytes_ok oid ∧ u64_ok q;
  ds_only : ∀ k v, kv_get db k = Some v → dedup_prefix `prefix_of` k → ∃ oid, length oid = 16%nat ∧ k = dup_key cnf oid
}.

(** The leader is stored, or neither it nor a term is known. *)
Definition leader_stored (node term : Z) (db : DB) : Prop :=
  match kv_get db leader_key with
  | Some vb => i64_ok node ∧ i64_ok term ∧ vb = le_bytes 8 (u64 node) ++ le_bytes 8 (u64 term)
  | None => node = -1 ∧ term = -1
  end.

Record persisted (s : ShardState C) (db : DB) : Prop := {
  per_keys : keys_ok db;
  per_dedup : dedup_stored (dedupSequences s) db;
  per_leader : leader_stored (leaderNodeID s) (leaderTerm s) db
}.

(** ** The commands that are proposed *)

(** A key of one of the shard's tables other than the state machine's own. *)
Definition user_key (k : bytes) : Prop :=
  ∃ t x, k = EncodeTableKeyPrefix t shard ++ x ∧ bytes_ok x ∧ u64_ok t ∧
    t ≠ LastLogIndexReceivedTableID ∧ t ≠ ForwardDedupTableID ∧ t ≠ ShardLeaderTableID.

(** A range that covers no key of the state machine's own tables. *)
Definition user_range (r : bytes * bytes) : Prop :=
  ∀ t x, t = LastLogIndexReceivedTableID ∨ t = ForwardDedupTableID ∨ t = ShardLeaderTableID →
    ¬ in_range r.1 (Some r.2) (EncodeTableKeyPrefix t shard ++ x).

(** What [WriteForwardBatch] (and the shard scheduler), [WriteBatch] and [setLeader]
    of cluster/dragon/dragon.go send. *)
Inductive cmd_ok : bytes → Prop :=
  | cmd_forward fill fss : Forall fwds_ok fss → cmd_ok (fwd_cmd shard fill fss)
  | cmd_write wb puts dels rngs :
      wb_rep wb puts dels rngs →
      Forall kv_fits puts → Forall fits dels → Forall kv_fits rngs →
      count_fits puts → count_fits dels → count_fits rngs →
      (∀ id, BatchID wb = Some id → length id = 16%nat) →
      Forall (λ kv, user_key kv.1) puts → Forall user_key dels → Forall user_range rngs →
      cmd_ok (Serialize wb [shardStateMachineCommandWrite])
  | cmd_leader node term :
      u64_ok node → u64_ok term →
      cmd_ok (AppendUint64ToBufferLE (AppendUint64ToBufferLE [shardStateMachineCommandSetLeader] node) term).

(** ** Keys of the state machine's tables *)

Hypothesis Hshard : u64_ok shard.
Hypothesis Hshard1 : shard + 1 < two64.

Definition own_key (k : bytes) : Prop :=
  ∃ t x, k = EncodeTableKeyPrefix t shard ++ x ∧
    (t = LastLogIndexReceivedTableID ∨ t = ForwardDedupTableID ∨ t = ShardLeaderTableID).

Lemma user_not_own k : user_key k → ¬ own_key k.
Proof.
  intros (t & x & -> & _ & Ht & N1 & N2 & N3) (t' & y & E & Hor).
  apply EncodeTableKeyPrefix_inj in E as (-> & _); [naive_solver|done|done| |done].
  unfold u64_ok, LastLogIndexReceivedTableID, ForwardDedupTableID, ShardLeaderTableID in *. lia.
Qed.

Lemma recv_not_own q c q0 : ¬ own_key (recv_key cnf q c q0).
Proof.
  intros (t' & y & E & Hor). unfold recv_key in E.
  apply EncodeTableKeyPrefix_inj in E as (E & _); try done;
    unfold u64_ok, ReceiverTableID, LastLogIndexReceivedTableID, ForwardDedupTableID, ShardLeaderTableID in *; lia.
Qed.

Lemma leader_key_own : own_key leader_key.
Proof. exists ShardLeaderTableID, []. rewrite app_nil_r. auto. Qed.
Lemma dedup_own k : dedup_prefix `prefix_of` k → own_key k.
Proof. intros [x ->]. exists ForwardDedupTableID, x. auto. Qed.
Lemma dup_key_own oid : own_key (dup_key cnf oid).
Proof. exists ForwardDedupTableID, oid. auto. Qed.

(** Operations that leave the state machine's tables alone. *)
Definition op_user (op : kv_op) : Prop :=
  match op with
  | KVSet k _ => bytes_ok k ∧ (16 ≤ length k)%nat ∧ ¬ own_key k
  | KVDelete k => ¬ own_key k
  | KVDeleteRange lo hi => ∀ k, own_key k → ¬ in_range lo (Some hi) k
  end.

Lemma op_user_own ops k v : Forall op_user ops → own_key k → foldl (op_effect k) v ops = v.
Proof.
  intros Hops Hk. revert v. induction Hops as [|op ops Hop _ IH]; intros v; cbn [foldl]; [done|]. rewrite IH.
  destruct op as [k' w|k'|lo hi]; simpl in *.
  - rewrite decide_False; [done|]. intros ->. tauto.
  - rewrite decide_False; [done|]. by intros ->.
  - by rewrite decide_False by auto.
Qed.

Lemma persisted_user (s s' : ShardState C) db ops :
  persisted s db → Forall op_user ops →
  dedupSequences s' = dedupSequences s → leaderNodeID s' = leaderNodeID s → leaderTerm s' = leaderTerm s →
  persisted s' (kv_apply db ops).
Proof.
  intros [Hk [D1 D2 D3] Hl] Hops E1 E2 E3.
  assert (Hget : ∀ k, own_key k → kv_get (kv_apply db ops) k = kv_get db k)
    by (intros k Hk'; rewrite kv_get_apply; by apply op_user_own).
  split.
  - apply keys_ok_apply; [done|]. eapply Forall_impl; [done|]. intros [] ?; simpl in *; tauto.
  - rewrite E1. split; [|done|].
    + intros oid Hoid. rewrite Hget by apply dup_key_own. by apply D1.
    + intros k v Hv Hpre. rewrite Hget in Hv by by apply dedup_own. eauto.
  - rewrite E2, E3. unfold leader_stored. rewrite Hget by apply leader_key_own. done.
Qed.

Lemma persisted_equiv (s : ShardState C) db db' : kv_equiv db db' → persisted s db → persisted s db'.
Proof.
  intros E [Hk [D1 D2 D3] Hl]. split.
  - intros k v. rewrite <- E. apply Hk.
  - split; [intros oid; rewrite <- E; apply D1|done|intros k v; rewrite <- E; apply D3].
  - unfold leader_stored. by rewrite <- E.
Qed.

(** ** Every command keeps the store in step *)

Lemma length_dup_key oid : length (dup_key cnf oid) = (16 + length oid)%nat.
Proof. unfold dup_key. by rewrite length_app, length_EncodeTableKeyPrefix. Qed.

Lemma dup_key_inj a b : dup_key cnf a = dup_key cnf b → a = b.
Proof. apply app_inv_head. Qed.

Lemma persisted_dup (s s' : ShardState C) db d :
  persisted s db → dedup_ok d → bytes_ok d.1 →
  dedupSequences s' = <[d.1 := d.2]> (dedupSequences s) → leaderNodeID s' = leaderNodeID s → leaderTerm s' = leaderTerm s →
  persisted s' (kv_apply db [KVSet (dup_key cnf d.1) (be_bytes 8 d.2)]).
Proof.
  intros [Hk [D1 D2 D3] Hl] [Hd Hs] Hb E1 E2 E3. split.
  - apply keys_ok_apply; [done|]. constructor; [|done]. rewrite length_dup_key. split; [|lia].
    unfold dup_key. apply bytes_ok_app. auto using EncodeTableKeyPrefix_ok.
  - rewrite E1. split.
    + intros oid Hoid. rewrite kv_get_set. destruct (decide (dup_key cnf oid = dup_key cnf d.1)) as [E|E].
      * apply dup_key_inj in E. subst. by rewrite lookup_insert_eq.
      * rewrite lookup_insert_ne by congruence. by apply D1.
    + intros oid q. destruct (decide (oid = d.1)) as [->|]; [rewrite lookup_insert_eq; by intros [= <-]|].
      rewrite lookup_insert_ne by done. apply D2.
    + intros k v. rewrite kv_get_set. destruct (decide _) as [->|]; [|apply D3]. eauto.
  - rewrite E2, E3. unfold leader_stored. rewrite kv_get_set, decide_False; [done|].
    rewrite <- (app_nil_r leader_key). apply tables_differ; unfold u64_ok, ForwardDedupTableID, ShardLeaderTableID; done || lia.
Qed.

Lemma recv_key_ok q c q0 : bytes_ok (recv_key cnf q c q0) ∧ (16 ≤ length (recv_key cnf q c q0))%nat.
Proof.
  unfold recv_key. rewrite !bytes_ok_app, !length_app, length_EncodeTableKeyPrefix.
  split; [auto using EncodeTableKeyPrefix_ok, be_bytes_ok|lia].
Qed.

(** The state of the loop: what the store will contain once the batch is applied. *)
Definition in_step (db : DB) (st : ShardState C * list kv_op) : Prop := persisted st.1 (kv_apply db st.2).

Lemma fwd_step_in_step db fill ts q0 st f : fwd_ok f → in_step db st → in_step db (fwd_step cnf fill ts q0 st f).
Proof.
  intros (Hd & Hb & Hc & _) Hst. destruct st as [s batch]. unfold fwd_step. unfold in_step in *. simpl in Hst.
  destruct (is_dup (dedupSequences s) (f_dedup f)) eqn:Edup; [done|]. cbn [fst snd].
  set (key := recv_key cnf _ _ _). change (?b ++ [?x; ?y]) with (b ++ [x] ++ [y]).
  eapply persisted_equiv; [symmetry; rewrite app_assoc, kv_apply_app, kv_apply_app; reflexivity|].
  eapply persisted_user with (s := set_dedup s (<[(f_dedup f).1 := (f_dedup f).2]> (dedupSequences s))).
  - by eapply persisted_dup.
  - constructor; [|done]. destruct (recv_key_ok (u64 (receiverSequence s + 1)) (f_consumer f) q0).
    split_and!; [done..|apply recv_not_own].
  - unfold dedup_next. rewrite Edup. by case_match.
  - by case_match.
  - by case_match.
Qed.

Lemma fwd_batches_in_step db fill ts fss : ∀ st,
  Forall fwds_ok fss → in_step db st → in_step db (fwd_batches cnf fill ts st fss).
Proof.
  unfold fwd_batches. induction fss as [|fs fss IH]; intros st Hok Hst; [done|]. cbn [foldl]. inv Hok. apply IH; [done|].
  match goal with H : fwds_ok fs |- _ => destruct H as [Hf _] end. generalize (receiverSequence st.1) as q0. intros q0.
  revert st Hst. induction Hf as [|f fs Hf _ IHf]; intros st Hst; [done|]. cbn [foldl]. apply IHf. by apply fwd_step_in_step.
Qed.

(** A write batch of user keys. *)
Definition user_write (s : ShardState C) (batch : list kv_op) (st : ShardState C * list kv_op) : Prop :=
  ∃ ops, st.2 = batch ++ ops ∧ Forall op_user ops ∧
    dedupSequences st.1 = dedupSequences s ∧ leaderNodeID st.1 = leaderNodeID s ∧ leaderTerm st.1 = leaderTerm s.

Lemma user_write_snoc s batch st st' op :
  user_write s batch st → op_user op → st'.2 = st.2 ++ [op] →
  dedupSequences st'.1 = dedupSequences st.1 → leaderNodeID st'.1 = leaderNodeID st.1 → leaderTerm st'.1 = leaderTerm st.1 →
  user_write s batch st'.
Proof.
  intros (ops & E & Hops & E1 & E2 & E3) Hop E' F1 F2 F3. exists (ops ++ [op]).
  split_and!; [by rewrite E', E, <- app_assoc|apply Forall_app; by split; [|constructor]|congruence..].
Qed.

Lemma checkKey_frame (s s' : ShardState C) k b :
  checkKey cnf s k = Ok (b, s') → dedupSequences s' = dedupSequences s ∧ receiverSequence s' = receiverSequence s.
Proof.
  unfold checkKey. destruct (sm_TestServer cnf); [by intros [= <- <-]|].
  destruct (ReadUint64FromBufferBE k 0) as [[sid ?]| | |]; simpl; try done. destruct (negb _); [done|].
  destruct (ReadUint64FromBufferBE k 8) as [[tid ?]| | |]; simpl; try done. destruct (cache_get _ _). by intros [= <- <-].
Qed.

Lemma user_key_ok k : user_key k → bytes_ok k ∧ (16 ≤ length k)%nat ∧ ¬ own_key k.
Proof.
  intros Hk. pose proof (user_not_own _ Hk). destruct Hk as (t & x & -> & Hx & _).
  rewrite bytes_ok_app, length_app, length_EncodeTableKeyPrefix. split_and!; auto using EncodeTableKeyPrefix_ok. lia.
Qed.

Lemma handleWrite_user (s s' : ShardState C) batch batch' wb puts dels rngs p ts id off :
  wb_rep wb puts dels rngs → Forall kv_fits puts → Forall fits dels → Forall kv_fits rngs →
  count_fits puts → count_fits dels → count_fits rngs → (∀ id, BatchID wb = Some id → length id = 16%nat) →
  Forall (λ kv, user_key kv.1) puts → Forall user_key dels → Forall user_range rngs →
  handleWrite cnf s batch (length p) (Serialize wb p) false false ts = Ok (s', batch', id, off) →
  user_write s batch (s', batch').
Proof.
  intros Hrep Fp Fd Fr Cp Cd Cr Hid Up Ud Ur. unfold handleWrite.
  rewrite <- (app_nil_r (Serialize wb p)), (deserialize_eq wb puts rngs dels) by done. osimpl.
  cbn [d_puts d_deletes d_deleteRanges d_batchID].
  replace (map _ puts) with puts by (symmetry; rewrite <- (map_id puts) at 2; apply map_ext; by intros []).
  destruct (foldM _ (s, batch) puts) as [[s1 b1]| | |] eqn:E1; simpl; try done.
  destruct (foldM _ (s1, b1) dels) as [[s2 b2]| | |] eqn:E2; simpl; try done. intros [= <- <- _ _].
  rewrite Forall_forall in Up. rewrite Forall_forall in Ud.
  assert (H1 : user_write s batch (s1, b1)).
  { refine (foldM_inv (user_write s batch) _ _ _ _ _ _ E1); [|by exists []; rewrite app_nil_r; split_and!].
    intros [s3 b3] kv st' Hin Hst. unfold handlePut. destruct (checkKey cnf s3 kv.1) as [[ok s4]| | |] eqn:E; simpl; try done.
    destruct (checkKey_frame _ _ _ _ E) as [? _]. destruct (checkKey_leader _ _ _ _ _ E) as (? & ? & _).
    destruct ok; intros [= <-].
    - eapply (user_write_snoc _ _ _ _ (KVSet kv.1 kv.2)); [done|by apply user_key_ok, Up|done..].
    - destruct Hst as (ops & ? & ? & ? & ? & ?). exists ops. simpl in *. split_and!; congruence || done. }
  assert (H2 : user_write s batch (s2, b2)).
  { refine (foldM_inv (user_write s batch) _ _ _ _ _ _ E2); [|done].
    intros [s3 b3] k st' Hin Hst. destruct (checkKey cnf s3 k) as [[ok s4]| | |] eqn:E; simpl; try done.
    destruct (checkKey_frame _ _ _ _ E) as [? _]. destruct (checkKey_leader _ _ _ _ _ E) as (? & ? & _). intros [= <-].
    eapply (user_write_snoc _ _ _ _ (KVDelete k)); [done|by apply (user_not_own k), Ud|done..]. }
  destruct H2 as (ops & Eops & Hops & ? & ? & ?). simpl in Eops.
  exists (ops ++ map (λ r, KVDeleteRange r.1 r.2) rngs). cbn [fst snd]. split_and!; [by rewrite Eops, app_assoc| |done..].
  apply Forall_app; split; [done|]. apply Forall_map. eapply Forall_impl; [done|].
  intros r Hr k (t & x & -> & Hor). by apply Hr.
Qed.

Lemma persisted_set_leader (s s' : ShardState C) db node term :
  persisted s db → u64_ok node → u64_ok term →
  dedupSequences s' = dedupSequences s → leaderNodeID s' = i64 node → leaderTerm s' = i64 term →
  persisted s' (kv_apply db [KVSet leader_key (le_bytes 8 node ++ le_bytes 8 term)]).
Proof.
  intros [Hk [D1 D2 D3] Hl] Hn Ht E1 E2 E3. split.
  - apply keys_ok_apply; [done|]. constructor; [|done]. rewrite length_EncodeTableKeyPrefix. auto using EncodeTableKeyPrefix_ok.
  - assert (Hne : ∀ x, dedup_prefix ++ x ≠ leader_key).
    { intros x. rewrite <- (app_nil_r leader_key).
      apply tables_differ; unfold u64_ok, ForwardDedupTableID, ShardLeaderTableID; done || lia. }
    rewrite E1. split; [|done|].
    + intros oid Hoid. rewrite kv_get_set, decide_False by apply Hne. by apply D1.
    + intros k v. rewrite kv_get_set. destruct (decide _) as [->|]; [|apply D3]. intros _ [x E]. by destruct (Hne x).
  - unfold leader_stored. rewrite kv_get_set, decide_True by done. rewrite E2, E3, !u64_i64 by done.
    split_and!; [apply i64_range..|done].
Qed.

Lemma handleSetLeader_in_step db (s s' : ShardState C) batch batch' node term ev :
  u64_ok node → u64_ok term → in_step db (s, batch) →
  handleSetLeader cnf s batch (AppendUint64ToBufferLE (AppendUint64ToBufferLE [shardStateMachineCommandSetLeader] node) term)
    = Ok (s', batch', ev) →
  in_step db (s', batch').
Proof.
  intros Hn Ht Hst. unfold handleSetLeader. rewrite !AppendUint64ToBufferLE_eq, <- !app_assoc.
  rewrite (ReadUint64LE_app [_] node _ 1) by done. osimpl.
  rewrite <- (app_nil_r (le_bytes 8 term)), (app_assoc [_]), ReadUint64LE_app by (rewrite ?length_app, ?length_le_bytes; done). osimpl.
  destruct (i64 term <=? leaderTerm s); [by intros [= <- <- _]|].
  rewrite ?AppendUint64ToBufferLE_eq, ?app_nil_l, ?app_nil_r.
  destruct (if node =? u64 (sm_nodeID cnf) then _ else _) as [listener ev']. intros [= <- <- _].
  unfold in_step in *. cbn [fst snd] in *. eapply persisted_equiv; [symmetry; apply kv_apply_app|].
  by eapply persisted_set_leader.
Qed.

Lemma updateEntry_in_step db ts (p p' : Progress) e :
  cmd_ok (Cmd e) → in_step db (p_state p, p_batch p) → updateEntry cnf ts p e = Ok p' → in_step db (p_state p', p_batch p').
Proof.
  intros Hcmd Hst. destruct e as [i cmd]. simpl in Hcmd. destruct Hcmd as [fill fss Hok|wb puts dels rngs|node term Hn Ht].
  - rewrite updateEntry_forward by done. intros [= <-]. cbn [p_state p_batch].
    pose proof (fwd_batches_in_step db fill ts fss _ Hok Hst). by destruct (fwd_batches cnf fill ts _ fss).
  - unfold updateEntry. cbn [Cmd].
    assert (index (Serialize wb [shardStateMachineCommandWrite]) 0 = Ok shardStateMachineCommandWrite) as ->.
    { unfold Serialize. rewrite !AppendUint32ToBufferLE_eq. destruct (BatchID wb); by rewrite <- !app_assoc. }
    osimpl. simpl (_ =? _). cbv iota.
    destruct (handleWrite _ _ _ _ _ _ _ _) as [[[[s b] id] o]| | |] eqn:E; simpl; try done. intros [= <-]. cbn [p_state p_batch].
    apply (handleWrite_user _ _ _ _ wb puts dels rngs [_]) in E as (ops & Eb & Hops & E1 & E2 & E3); [|done..].
    unfold in_step in *. simpl in *. rewrite Eb. eapply persisted_equiv; [symmetry; apply kv_apply_app|].
    by eapply persisted_user.
  - unfold updateEntry. cbn [Cmd].
    assert (index (AppendUint64ToBufferLE (AppendUint64ToBufferLE [shardStateMachineCommandSetLeader] node) term) 0 =
      Ok shardStateMachineCommandSetLeader) as -> by (by rewrite !AppendUint64ToBufferLE_eq, <- !app_assoc).
    osimpl. simpl (_ =? _). cbv iota.
    destruct (handleSetLeader _ _ _ _) as [[[s b] ev]| | |] eqn:E; simpl; try done. intros [= <-]. cbn [p_state p_batch].
    by eapply handleSetLeader_in_step in E.
Qed.

Lemma persisted_index (s : ShardState C) db i q :
  persisted s db → persisted s (kv_apply db [KVSet index_key []; writeSequences cnf i q]).
Proof.
  intros [Hk [D1 D2 D3] Hl].
  assert (Hget : ∀ k, k ≠ index_key → kv_get (kv_apply db [KVSet index_key []; writeSequences cnf i q]) k = kv_get db k).
  { intros k Hne. rewrite kv_get_apply. cbn [foldl op_effect writeSequences]. by rewrite !decide_False. }
  assert (Hne : ∀ t x, t ≠ LastLogIndexReceivedTableID → u64_ok t → EncodeTableKeyPrefix t shard ++ x ≠ index_key).
  { intros t x Ht Hu. rewrite <- (app_nil_r index_key). apply tables_differ; unfold u64_ok, LastLogIndexReceivedTableID in *; done || lia. }
  split.
  - apply keys_ok_apply; [done|].
    apply Forall_cons_2; [|apply Forall_singleton]; (split; [apply EncodeTableKeyPrefix_ok|by rewrite length_EncodeTableKeyPrefix]).
  - split; [|done|].
    + intros oid Hoid. rewrite Hget; [by apply D1|]. by apply Hne; [|split].
    + intros k v Hv [x ->]. rewrite Hget in Hv; [|by apply Hne; [|split]]. eapply D3; [done|]. by exists x.
  - unfold leader_stored. rewrite Hget; [done|]. rewrite <- (app_nil_r leader_key). by apply Hne; [|split].
Qed.

Lemma Update_persisted (s s' : ShardState C) (db db' : DB) ts entries ev res :
  Forall (λ e, cmd_ok (Cmd e)) entries → lastIndex s = 0 → persisted s db →
  Update cnf s db ts entries = Ok (s', db', ev, res) →
  persisted s' db' ∧ ∃ eN, last entries = Some eN ∧
    kv_get db' index_key = Some (le_bytes 8 (Index eN) ++ le_bytes 8 (receiverSequence s')).
Proof.
  intros Hcmds Hli Hper. unfold Update. rewrite Hli. simpl.
  destruct (foldM _ _ entries) as [p| | |] eqn:E; simpl; try done.
  assert (Hp : in_step db (p_state p, p_batch p)).
  { rewrite Forall_forall in Hcmds. refine (foldM_inv (λ p : Progress, in_step db (p_state p, p_batch p)) _ _ _ _ _ _ E).
    - intros p1 e p2 He H1 H2. eapply updateEntry_in_step; [by apply Hcmds|done|done].
    - unfold in_step. simpl. eapply persisted_equiv; [symmetry; apply kv_apply_nil|done]. }
  destruct (index entries _) as [eN| | |] eqn:EN; simpl; try done. intros Hrun.
  assert (Hlast : last entries = Some eN).
  { unfold index in EN. destruct (entries !! _) eqn:L; simplify_eq/=. rewrite last_lookup. by rewrite <- Nat.sub_1_r. }
  assert (Hdb : db' = kv_apply db ((p_batch p ++ [KVSet index_key []]) ++ [writeSequences cnf (Index eN) (receiverSequence (p_state p))]))
    by (destruct (p_lastBatch p); simpl in Hrun; repeat case_match; by simplify_eq/=).
  assert (Hs' : receiverSequence s' = receiverSequence (p_state p) ∧ dedupSequences s' = dedupSequences (p_state p) ∧
                leaderNodeID s' = leaderNodeID (p_state p) ∧ leaderTerm s' = leaderTerm (p_state p))
    by (destruct (p_lastBatch p); simpl in Hrun; repeat case_match; simplify_eq/=; done).
  destruct Hs' as (Eq & Ed & El & Et). rewrite Hdb. split.
  - eapply persisted_equiv; [symmetry; rewrite <- app_assoc; apply kv_apply_app|].
    destruct (persisted_index _ _ (Index eN) (receiverSequence (p_state p)) Hp) as [? ? ?].
    split; [done|by rewrite Ed|by rewrite El, Et].
  - exists eN. split; [done|]. rewrite kv_get_apply, foldl_app. unfold writeSequences. cbn [foldl op_effect].
    rewrite decide_True by done. rewrite !AppendUint64ToBufferLE_eq, Eq. done.
Qed.

(** ** Loading *)

Lemma load_entries (M m0 : gmap bytes Z) (l : list (bytes * bytes)) :
  (∀ kv, kv ∈ l → ∃ oid q, length oid = 16%nat ∧ u64_ok q ∧ M !! oid = Some q ∧ kv = (dup_key cnf oid, be_bytes 8 q)) →
  ∃ m, foldM (λ m '(k, v),
      oid ← slice k 16 32;
      '(sequence, _) ← ReadUint64FromBufferBE v 0;
      Ok (<[oid := sequence]> m)) m0 l = Ok m ∧
    ∀ oid, m !! oid = if decide (dup_key cnf oid ∈ l.*1) then M !! oid else m0 !! oid.
Proof.
  revert m0. induction l as [|kv l IH]; intros m0 Hl; simpl; [by eexists|].
  destruct (Hl kv) as (oid & q & Hlen & Hq & HM & ->); [left|].
  assert (slice (dup_key cnf oid) 16 32 = Ok oid) as ->.
  { unfold dup_key. rewrite <- (app_nil_r oid) at 1. apply slice_app; rewrite ?length_EncodeTableKeyPrefix; lia. }
  osimpl.
  rewrite ReadUint64BE_whole by done. osimpl.
  destruct (IH (<[oid := q]> m0)) as (m & -> & Hm); [intros; apply Hl; by right|].
  exists m. split; [done|]. intros oid'. rewrite Hm. cbn [fst].
  destruct (decide (dup_key cnf oid' ∈ l.*1)) as [Hin|Hin].
  - rewrite decide_True; [done|]. by apply elem_of_cons; right.
  - destruct (decide (oid' = oid)) as [->|Hne].
    + rewrite lookup_insert_eq, decide_True; [done|]. apply elem_of_cons; by left.
    + rewrite lookup_insert_ne by done. rewrite decide_False; [done|].
      intros [E|]%elem_of_cons; [|done]. by apply app_inv_head in E.
Qed.

Lemma dedup_range k v db :
  keys_ok db → kv_get db k = Some v →
  in_range dedup_prefix (Some (EncodeTableKeyPrefix (ForwardDedupTableID + 1) shard)) k ↔ dedup_prefix `prefix_of` k.
Proof.
  intros Hk Hv. destruct (Hk _ _ Hv). apply table_range; try done; unfold u64_ok, ForwardDedupTableID; lia.
Qed.

Lemma loadDedupCache_stored m db :
  keys_ok db → dedup_stored m db →
  Z.of_nat (length (kv_scan db dedup_prefix (Some (EncodeTableKeyPrefix (ForwardDedupTableID + 1) shard)))) <= 9223372036854775807 →
  loadDedupCache cnf db = Ok m.
Proof.
  intros Hk [D1 D2 D3] Hsz. unfold loadDedupCache, LocalScan, limited.
  rewrite (proj2 (Z.leb_le _ _)), orb_true_r by done.
  edestruct (load_entries m ∅) as (m' & -> & Hm').
  - intros [k v] [Hr Hv]%kv_scan_elem. rewrite dedup_range in Hr by done.
    destruct (D3 _ _ Hv Hr) as (oid & Hlen & ->). rewrite D1 in Hv by done.
    destruct (m !! oid) as [q|] eqn:Hq; simplify_eq/=. exists oid, q. destruct (D2 _ _ Hq) as (? & ? & ?). done.
  - f_equal. apply map_eq. intros oid. rewrite Hm', lookup_empty. destruct (decide _) as [|Hn]; [done|].
    destruct (m !! oid) as [q|] eqn:Hq; [|done]. destruct Hn. destruct (D2 _ _ Hq) as (Hlen & _ & _).
    apply list_elem_of_fmap. exists (dup_key cnf oid, be_bytes 8 q). split; [done|].
    assert (Hv : kv_get db (dup_key cnf oid) = Some (be_bytes 8 q)) by (rewrite D1 by done; by rewrite Hq).
    apply kv_scan_elem. split; [|done]. rewrite dedup_range by done. by exists oid.
Qed.

Lemma loadLeaderInfo_stored node term db : leader_stored node term db → loadLeaderInfo cnf db = Ok (node, term).
Proof.
  unfold leader_stored, loadLeaderInfo. destruct (kv_get db leader_key) as [vb|]; [|by intros [-> ->]].
  intros (Hn & Ht & ->). rewrite ReadUint64LE_head by apply u64_range. osimpl.
  rewrite ReadUint64LE_last by (rewrite ?length_le_bytes; done || apply u64_range). osimpl. by rewrite !i64_u64.
Qed.

Lemma loadSequences_stored i q db :
  u64_ok i → u64_ok q → kv_get db index_key = Some (le_bytes 8 i ++ le_bytes 8 q) → loadSequences cnf db = Ok (i, q).
Proof.
  intros Hi Hq. unfold loadSequences. intros ->. rewrite ReadUint64LE_head by done. osimpl.
  rewrite ReadUint64LE_last by (rewrite ?length_le_bytes; done). by osimpl.
Qed.

(** ** The receiver sequence stays a machine integer *)

Definition seq_ok (st : ShardState C * list kv_op) : Prop := u64_ok (receiverSequence st.1).

Lemma handlePut_seq fwd fill ts st st' kv : seq_ok st → handlePut cnf fwd fill ts st kv = Ok st' → seq_ok st'.
Proof.
  destruct st as [s b]. unfold handlePut, seq_ok. intros Hs. destruct fwd.
  - destruct (slice _ 0 24) as [dk| | |]; simpl; try done. unfold checkDedup.
    destruct (DoDedup dk _) as [[[] m]| | |]; simpl; try done; [by intros [= <-]|].
    destruct (slice dk 0 16); simpl; try done. destruct (slice_from dk 16); simpl; try done.
    destruct (slice_from _ 24) as [rc| | |]; simpl; try done. unfold isProcessor. cbn [leaderNodeID set_receiverSequence set_dedup].
    destruct (_ =? _); [destruct (ReadUint64FromBufferBE rc 0) as [[]| | |]; simpl; try done|];
      intros [= <-]; apply u64_range.
  - destruct (checkKey _ _ _) as [[[] s1]| | |] eqn:E; simpl; try done; intros [= <-]; simpl; by rewrite (proj2 (checkKey_frame _ _ _ _ E)).
Qed.

Lemma handleWrite_seq (s s' : ShardState C) b b' off bs fwd fill ts id off' :
  u64_ok (receiverSequence s) → handleWrite cnf s b off bs fwd fill ts = Ok (s', b', id, off') → u64_ok (receiverSequence s').
Proof.
  intros Hs. unfold handleWrite. destruct (deserializeWriteBatch _ _ _ _) as [[d o]| | |]; simpl; try done.
  destruct (foldM _ (s, b) _) as [[s1 b1]| | |] eqn:E1; simpl; try done. destruct (_ && _); [done|].
  destruct (foldM _ (s1, b1) _) as [[s2 b2]| | |] eqn:E2; simpl; try done. intros [= <- <- _ _].
  assert (H1 : seq_ok (s1, b1)).
  { refine (foldM_inv seq_ok _ _ _ _ _ _ E1); [|done]. intros st x st' _. apply handlePut_seq. }
  refine (foldM_inv seq_ok _ _ _ _ _ _ E2); [|done]. intros [s3 b3] k st' _ Hst.
  destruct (checkKey cnf s3 k) as [[ok s4]| | |] eqn:E; simpl; try done. intros [= <-].
  unfold seq_ok in *. simpl. by rewrite (proj2 (checkKey_frame _ _ _ _ E)).
Qed.

Lemma updateEntry_seq ts (p p' : Progress) e :
  u64_ok (receiverSequence (p_state p)) → updateEntry cnf ts p e = Ok p' → u64_ok (receiverSequence (p_state p')).
Proof.
  intros Hp. unfold updateEntry. destruct (index (Cmd e) 0) as [c| | |]; simpl; try done.
  destruct (c =? _); [|destruct (c =? _); [|destruct (c =? _); [|done]]].
  - destruct (index (Cmd e) 1) as [fill| | |]; simpl; try done. destruct (index (Cmd e) 2) as [n| | |]; simpl; try done.
    destruct (handleForwardBatches _ _ _ _ _ _ _ _) as [[[s b] o]| | |] eqn:E; simpl; try done. intros [= <-]. cbn [p_state].
    revert E Hp. generalize (p_state p) as s0, (p_batch p) as b0, 3%nat as off. induction (Z.to_nat n) as [|m IH]; intros s0 b0 off; simpl.
    { by intros [= <- _ _]. }
    destruct (handleWrite _ s0 _ _ _ _ _ _) as [[[[s1 b1] id] o1]| | |] eqn:E1; simpl; try done.
    intros E Hs. apply handleWrite_seq in E1; [|done]. by eapply IH.
  - destruct (handleWrite _ _ _ _ _ _ _ _) as [[[[s1 b1] id] o1]| | |] eqn:E1; simpl; try done. intros [= <-].
    by eapply handleWrite_seq.
  - destruct (handleSetLeader _ _ _ _) as [[[s1 b1] ev]| | |] eqn:E; simpl; try done. intros [= <-]. cbn [p_state].
    revert E. unfold handleSetLeader. destruct (ReadUint64FromBufferLE _ 1) as [[]| | |]; simpl; try done.
    destruct (ReadUint64FromBufferLE _ 9) as [[]| | |]; simpl; try done.
    repeat case_match; by intros [= <- _ _].
Qed.

(** ** Runs *)

(** Successive calls of [Update], each with the clock it reads. *)
Definition run (s : ShardState C) (db : DB) (calls : list (Z * list Entry)) : outcome (ShardState C * DB) :=
  foldM (λ '(s, db) '(ts, entries), '(s', db', _, _) ← Update cnf s db ts entries; Ok (s', db')) (s, db) calls.

(** The index of the last entry of a run, 0 when there was none. *)
Definition last_index (calls : list (Z * list Entry)) : Z :=
  match last (mbind snd calls) with Some e => Index e | None => 0 end.

Definition calls_ok (calls : list (Z * list Entry)) : Prop :=
  Forall (λ call, Forall (λ e, cmd_ok (Cmd e) ∧ u64_ok (Index e)) call.2) calls.

Record recoverable (i : Z) (s : ShardState C) (db : DB) : Prop := {
  rec_persisted : persisted s db;
  rec_seq : u64_ok (receiverSequence s);
  rec_idx : u64_ok i;
  rec_lastIndex : lastIndex s = 0;
  rec_index : loadSequences cnf db = Ok (i, receiverSequence s)
}.

Lemma Update_seq (s s' : ShardState C) (db db' : DB) ts entries ev res :
  u64_ok (receiverSequence s) → lastIndex s = 0 → Update cnf s db ts entries = Ok (s', db', ev, res) → u64_ok (receiverSequence s').
Proof.
  intros Hs Hli. unfold Update. rewrite Hli. simpl. destruct (foldM _ _ entries) as [p| | |] eqn:E; simpl; try done.
  assert (Hp : u64_ok (receiverSequence (p_state p))).
  { refine (foldM_inv (λ p : Progress, u64_ok (receiverSequence (p_state p))) _ _ _ _ _ _ E); [|done].
    intros p1 e p2 _. apply updateEntry_seq. }
  destruct (index entries _) as [eN| | |] eqn:EN; simpl; try done.
  destruct (p_lastBatch p); simpl; repeat case_match; by intros; simplify_eq/=.
Qed.

Lemma Update_recoverable (s s' : ShardState C) (db db' : DB) i ts entries ev res :
  Forall (λ e, cmd_ok (Cmd e) ∧ u64_ok (Index e)) entries → recoverable i s db →
  Update cnf s db ts entries = Ok (s', db', ev, res) →
  ∃ eN, last entries = Some eN ∧ recoverable (Index eN) s' db'.
Proof.
  intros Hes [Hp Hs Hi Hli _] Hrun. rewrite Forall_and in Hes. destruct Hes as [Hcmd Hidx].
  destruct (Update_persisted _ _ _ _ _ _ _ _ Hcmd Hli Hp Hrun) as (Hp' & eN & HeN & Hget). exists eN.
  assert (HN : u64_ok (Index eN)).
  { rewrite Forall_forall in Hidx. apply Hidx. apply last_Some in HeN as [l ->]. set_solver. }
  pose proof (Update_seq _ _ _ _ _ _ _ _ Hs Hli Hrun).
  destruct (Update_leader _ _ _ _ _ _ _ _ _ Hli Hrun) as (_ & _ & Hli').
  split; [done|]. split; [done..|congruence|]. by apply loadSequences_stored.
Qed.

Lemma run_recoverable calls : ∀ (s s' : ShardState C) (db db' : DB),
  calls_ok calls → recoverable 0 s db → run s db calls = Ok (s', db') → recoverable (last_index calls) s' db'.
Proof.
  unfold run. induction calls as [|[ts es] calls IH] using rev_ind; intros s s' db db' Hok Hrec.
  { by intros [= <- <-]. }
  apply Forall_app in Hok as [Hok [Hes _]%Forall_cons]. rewrite foldM_app.
  destruct (foldM _ (s, db) calls) as [[s1 db1]| | |] eqn:E; simpl; try done.
  destruct (Update cnf s1 db1 ts es) as [[[[s2 db2] ev] res]| | |] eqn:EU; simpl; try done. intros [= <- <-].
  destruct (Update_recoverable _ _ _ _ (last_index calls) _ _ _ _ Hes (IH _ _ _ _ Hok Hrec E) EU) as (eN & HeN & Hr).
  unfold last_index. rewrite bind_app, last_app. cbn [mbind list_bind snd] in *. rewrite app_nil_r. by rewrite HeN.
Qed.

(** A state machine on an empty store. *)
Definition fresh (s : ShardState C) : ShardState C :=
  MkShardState (hasListener s) ∅ 0 (forwardRows s) 0 (-1) (-1) cache_new (lastPersistedBatch s).

Lemma fresh_recoverable s : recoverable 0 (fresh s) kv_empty.
Proof.
  split; try done.
  - split; [intros k v; by rewrite kv_get_empty|split|].
    + intros oid _. rewrite kv_get_empty. simpl. by rewrite lookup_empty.
    + intros oid q. simpl. by rewrite lookup_empty.
    + intros k v. by rewrite kv_get_empty.
    + unfold leader_stored. by rewrite kv_get_empty.
  - unfold loadSequences. by rewrite kv_get_empty.
Qed.

(** The screening table fits the limit the scan is given. *)
Definition scan_fits (db : DB) : Prop :=
  Z.of_nat (length (kv_scan db dedup_prefix (Some (EncodeTableKeyPrefix (ForwardDedupTableID + 1) shard)))) <= 9223372036854775807.

(** What a restarted or restored replica [s'] has in common with the one that ran. *)
Definition same_memory (s' s : ShardState C) : Prop :=
  dedupSequences s' = dedupSequences s ∧ receiverSequence s' = receiverSequence s ∧
  leaderNodeID s' = leaderNodeID s ∧ leaderTerm s' = leaderTerm s.

(** ** Snapshots *)

Abbreviation shard_prefix := (be_bytes 8 shard).

Lemma shard_range k : bytes_ok k → (16 ≤ length k)%nat →
  in_range shard_prefix (Some (be_bytes 8 (shard + 1))) k ↔ shard_prefix `prefix_of` k.
Proof.
  intros Hk Hl. apply prefix_range; auto using be_bytes_ok; rewrite ?length_be_bytes; try lia.
  rewrite !be_val_be_bytes. unfold_width. rewrite !Z.mod_small; simpl Z.of_nat; lia.
Qed.

Lemma shard_prefix_increment : IncrementBytesBigEndian shard_prefix = Ok (be_bytes 8 (shard + 1)).
Proof.
  assert (Hv : be_val shard_prefix = shard).
  { rewrite be_val_be_bytes. unfold_width. apply Z.mod_small. simpl Z.of_nat. lia. }
  destruct (IncrementBytesBigEndian_eq shard_prefix) as (p' & -> & Hl & Hok & Hv'); [apply be_bytes_ok| |].
  - destruct (decide (incrementable shard_prefix)) as [|Hn]; [done|exfalso].
    assert (E : shard_prefix = replicate 8 255).
    { apply not_Exists_Forall in Hn; [|apply _]. rewrite Forall_forall in Hn.
      pose proof (be_bytes_ok 8 shard) as Hok. unfold bytes_ok in Hok. rewrite Forall_forall in Hok.
      symmetry. apply replicate_as_elem_of. split; [apply length_be_bytes|]. intros b Hb.
      specialize (Hn b Hb). specialize (Hok b Hb). unfold byte_ok in Hok. simpl in Hn. lia. }
    apply (f_equal be_val) in E. rewrite Hv in E. vm_compute (be_val (replicate 8 255)) in E. lia.
  - f_equal. apply be_val_inj; [done|apply be_bytes_ok|by rewrite Hl, !length_be_bytes|].
    rewrite Hv', Hv, be_val_be_bytes. unfold_width. rewrite Z.mod_small; simpl Z.of_nat; lia.
Qed.

(** What the table format of the snapshot can hold. *)
Definition sst_fits (db : DB) : Prop :=
  ∀ k v, kv_get db k = Some v → v ≠ [] ∧ Z.of_nat (length k) ≤ 4294967295 ∧ Z.of_nat (length v) ≤ 4294967295.

Lemma SaveSnapshot_eq db :
  keys_ok db → sst_fits db → SaveSnapshot cnf db = Ok (kv_scan db shard_prefix (Some (be_bytes 8 (shard + 1)))).
Proof.
  intros Hk Hf. unfold SaveSnapshot, saveSnapshotDataToWriter, shardPrefix. rewrite AppendUint64ToBufferBE_eq. simpl app.
  rewrite shard_prefix_increment. osimpl. set (l := kv_scan _ _ _).
  assert (Hl : ∀ kv, kv ∈ l → shard_prefix `prefix_of` kv.1 ∧ kv_get db kv.1 = Some kv.2).
  { intros [k v] [Hr Hv]%kv_scan_elem. split; [|done]. destruct (Hk _ _ Hv). by apply shard_range. }
  clearbody l. match goal with |- foldM ?f _ _ = _ => enough (Hacc : ∀ acc, foldM f acc l = Ok (acc ++ l)) by apply (Hacc []) end.
  induction l as [|[k v] l IH]; intros acc; [by rewrite app_nil_r|]. cbn [foldM].
  destruct (Hl (k, v)) as [[x Hx] Hv]; [left|]. simpl in Hx, Hv. destruct (Hf _ _ Hv) as (Hne & Hkl & Hvl).
  assert (ReadUint64FromBufferBE k 0 = Ok (shard, 8%nat)) as ->.
  { rewrite Hx. apply (ReadUint64BE_app [] shard x 0); [done|]. done. }
  osimpl. rewrite Z.eqb_refl. cbn [negb]. rewrite (proj2 (Nat.eqb_neq (length k) 0)).
  2: { rewrite Hx, length_app, length_be_bytes. lia. }
  rewrite (proj2 (Nat.eqb_neq (length v) 0)) by (by destruct v).
  rewrite !(proj2 (Z.ltb_ge _ _)) by done. osimpl. rewrite IH by (intros; apply Hl; by right). by rewrite <- app_assoc.
Qed.

Lemma foldl_sets (l : list (bytes * bytes)) k : ∀ v0,
  StronglySorted (λ a b, bytes_lt a.1 b.1) l →
  foldl (op_effect k) v0 (map (λ kv, KVSet kv.1 kv.2) l) =
    match list_find (λ kv, kv.1 = k) l with Some (_, kv) => Some kv.2 | None => v0 end.
Proof.
  induction l as [|[k1 v1] l IH]; intros v0 Hs; [done|]. apply StronglySorted_inv in Hs as [Hs Hlt].
  cbn [map foldl op_effect]. rewrite IH by done. simpl. destruct (decide (k = k1)) as [->|Hne].
  - rewrite decide_True by done. destruct (list_find _ l) as [[i [k2 v2]]|] eqn:E; [|done].
    apply list_find_Some in E as (E & Ek & _). simpl in Ek. subst. exfalso.
    rewrite Forall_forall in Hlt. apply (bytes_lt_irrefl k1), (Hlt (k1, v2)). by eapply list_elem_of_lookup_2.
  - rewrite decide_False by congruence. by destruct (list_find _ l) as [[]|].
Qed.

(** Restoring a saved shard gives the saved pairs inside the shard and leaves the
    rest of the store alone. *)
Lemma restore_get (db dbX : DB) k :
  kv_get (restoreSnapshotDataFromReader dbX shard_prefix (be_bytes 8 (shard + 1))
            (kv_scan db shard_prefix (Some (be_bytes 8 (shard + 1))))) k =
    if decide (in_range shard_prefix (Some (be_bytes 8 (shard + 1))) k) then kv_get db k else kv_get dbX k.
Proof.
  unfold restoreSnapshotDataFromReader. rewrite kv_get_apply, foldl_sets by apply kv_scan_sorted.
  rewrite kv_get_apply. cbn [foldl op_effect].
  destruct (list_find _ _) as [[i [k1 v1]]|] eqn:E.
  - apply list_find_Some in E as (E & Ek & _). simpl in Ek. subst.
    apply list_elem_of_lookup_2, kv_scan_elem in E as [Hr ->]. by rewrite decide_True.
  - rewrite list_find_None in E. destruct (decide _) as [Hr|]; [|done].
    destruct (kv_get db k) as [v|] eqn:Hv; [|done]. exfalso. rewrite Forall_forall in E.
    apply (E (k, v)); [|done]. by apply kv_scan_elem.
Qed.

(** Everything a shard's state machine loads lies inside the shard. *)
Section same_shard.
Variables db db' : DB.
Hypothesis Hk : keys_ok db.
Hypothesis Hk' : keys_ok db'.
Hypothesis Hsame : ∀ k, shard_prefix `prefix_of` k → kv_get db' k = kv_get db k.

Lemma table_in_shard t x : shard_prefix `prefix_of` EncodeTableKeyPrefix t shard ++ x.
Proof. rewrite EncodeTableKeyPrefix_eq, <- app_assoc. by eexists. Qed.

Lemma dedup_in_shard k : dedup_prefix `prefix_of` k → kv_get db' k = kv_get db k.
Proof. intros [x ->]. apply Hsame, table_in_shard. Qed.

Lemma table_same t : kv_get db' (EncodeTableKeyPrefix t shard) = kv_get db (EncodeTableKeyPrefix t shard).
Proof. apply Hsame. rewrite <- (app_nil_r (EncodeTableKeyPrefix t shard)). apply table_in_shard. Qed.

Lemma recoverable_same i s : recoverable i s db → recoverable i s db'.
Proof.
  intros [[_ [D1 D2 D3] Hl] Hs Hi Hli Hidx]. split; [split; [done| |]|done..|].
  - split; [|done|].
    + intros oid Hoid. rewrite dedup_in_shard by (by eexists). by apply D1.
    + intros k v Hv Hp. rewrite dedup_in_shard in Hv by done. eauto.
  - unfold leader_stored. by rewrite table_same.
  - unfold loadSequences. by rewrite table_same.
Qed.

Lemma scan_fits_same : scan_fits db → scan_fits db'.
Proof.
  unfold scan_fits. intros Hsz. set (hi := EncodeTableKeyPrefix (ForwardDedupTableID + 1) shard) in *.
  rewrite (sorted_unique (kv_scan db' dedup_prefix (Some hi)) (kv_scan db dedup_prefix (Some hi))); [exact Hsz|apply kv_scan_sorted..|].
  intros [k v]. unfold hi. rewrite !kv_scan_elem. split; intros [Hr Hv]; split; try done.
  - rewrite (dedup_range _ _ _ Hk' Hv) in Hr. by rewrite <- dedup_in_shard.
  - rewrite (dedup_range _ _ _ Hk Hv) in Hr. by rewrite dedup_in_shard.
Qed.
End same_shard.

Lemma restore_keys_ok (db dbX : DB) tbl :
  keys_ok dbX → (∀ kv, kv ∈ tbl → kv_get db kv.1 = Some kv.2) → keys_ok db →
  keys_ok (restoreSnapshotDataFromReader dbX shard_prefix (be_bytes 8 (shard + 1)) tbl).
Proof.
  intros HX Htbl Hdb. unfold restoreSnapshotDataFromReader. apply keys_ok_apply; [apply keys_ok_apply; [done|by constructor]|].
  apply Forall_map, Forall_forall. intros kv Hin. simpl. eauto.
Qed.

(** * Properties *)

(** C5. Restarting loses nothing: after any run of forward writes, writes and leader
    changes that starts on an empty store, opening a state machine on the store gives
    the duplicate screening, the receiver sequence, the leader and the term of the
    state machine that ran, and reports the index of the last entry applied, so Raft
    replays exactly the entries that follow. *)
Theorem restart_recovers (s0 s s1 : ShardState C) (db : DB) (calls : list (Z * list Entry)) :
  calls_ok calls → run (fresh s0) kv_empty calls = Ok (s, db) → scan_fits db →
  ∃ s', Open cnf s1 db = Ok (s', last_index calls) ∧ same_memory s' s.
Proof.
  intros Hok Hrun Hfit. destruct (run_recoverable _ _ _ _ _ Hok (fresh_recoverable s0) Hrun) as [[Hk Hd Hl] Hs Hi Hli Hidx].
  unfold Open. rewrite (loadDedupCache_stored _ _ Hk Hd Hfit). osimpl. rewrite Hidx. osimpl.
  rewrite (loadLeaderInfo_stored _ _ _ Hl). osimpl. eexists. split; [done|]. by split_and!.
Qed.

(** C6. A snapshot carries a shard to another node: saving the shard after any run and
    recovering from that snapshot on a store with other content leaves there exactly
    the saved pairs of the shard and everything of the other shards, and the
    recovered state machine has the screening, the receiver sequence, the leader and
    the term of the one that was saved. *)
Theorem snapshot_transfers_shard (s0 s s1 : ShardState C) (db dbX : DB) (calls : list (Z * list Entry)) :
  calls_ok calls → run (fresh s0) kv_empty calls = Ok (s, db) → scan_fits db → sst_fits db → keys_ok dbX →
  ∃ tbl s' db', SaveSnapshot cnf db = Ok tbl ∧ RecoverFromSnapshot cnf s1 dbX tbl = Ok (s', db') ∧ same_memory s' s ∧
    ∀ k v, bytes_ok k → (16 ≤ length k)%nat →
      kv_get db' k = Some v ↔ (if decide (shard_prefix `prefix_of` k) then kv_get db k = Some v else kv_get dbX k = Some v).
Proof.
  intros Hok Hrun Hfit Hsst HX. pose proof (run_recoverable _ _ _ _ _ Hok (fresh_recoverable s0) Hrun) as Hrec.
  destruct (Hrec) as [[Hk _ _] _ _ _ _]. exists (kv_scan db shard_prefix (Some (be_bytes 8 (shard + 1)))).
  set (db' := restoreSnapshotDataFromReader dbX shard_prefix (be_bytes 8 (shard + 1))
                (kv_scan db shard_prefix (Some (be_bytes 8 (shard + 1))))).
  assert (Hk' : keys_ok db').
  { apply restore_keys_ok with db; [done| |done]. intros [k v] [_ Hv]%kv_scan_elem. done. }
  assert (Hget : ∀ k, bytes_ok k → (16 ≤ length k)%nat →
      kv_get db' k = if decide (shard_prefix `prefix_of` k) then kv_get db k else kv_get dbX k).
  { intros k Hb Hl. unfold db'. rewrite restore_get. apply decide_ext. by apply shard_range. }
  assert (Hsame : ∀ k, shard_prefix `prefix_of` k → kv_get db' k = kv_get db k).
  { intros k Hp. destruct (kv_get db' k) as [v|] eqn:E'.
    - destruct (Hk' _ _ E'). rewrite Hget in E' by done. by rewrite decide_True in E'.
    - destruct (kv_get db k) as [v|] eqn:E; [|done]. destruct (Hk _ _ E). rewrite Hget in E' by done.
      rewrite decide_True in E' by done. congruence. }
  destruct (recoverable_same db db' Hk' Hsame _ _ Hrec) as [[_ Hd Hl] _ _ _ Hidx].
  eexists _, db'. split; [by apply SaveSnapshot_eq|]. split; [|split].
  - unfold RecoverFromSnapshot. rewrite !AppendUint64ToBufferBE_eq, !app_nil_l, (u64_small (shard + 1)) by (unfold_width; lia).
    fold db'. rewrite (loadDedupCache_stored _ _ Hk' Hd (scan_fits_same db db' Hk Hk' Hsame Hfit)). osimpl.
    rewrite Hidx. osimpl. rewrite (loadLeaderInfo_stored _ _ _ Hl). by osimpl.
  - by split_and!.
  - intros k v Hb Hl'. rewrite Hget by done. by case_decide.
Qed.
End recovery.

(** A run of a forward write, a write and a leader change. *)
Definition demo_cnf : ShardConfig := MkShardConfig 1 1000 false.
Definition demo_state : ShardState (list Z) := MkShardState false ∅ 0 [] 0 0 0 [] None.
Definition demo_fwds : list (list Fwd) := [[MkFwd (replicate 16 7, 1) 4 [1]; MkFwd (replicate 16 7, 2) 4 [2]]].
Definition demo_wb : WriteBatch := AddPut (NewWriteBatch 1000) (EncodeTableKeyPrefix 1001 1000) [9].
Definition demo_calls : list (Z * list Entry) :=
  [(10, [MkEntry 4 (AppendUint64ToBufferLE (AppendUint64ToBufferLE [shardStateMachineCommandSetLeader] 2) 7);
         MkEntry 5 (fwd_cmd 1000 false demo_fwds)]);
   (11, [MkEntry 6 (Serialize demo_wb [shardStateMachineCommandWrite])])].

Lemma demo_shard : u64_ok (sm_shardID demo_cnf).
Proof. unfold u64_ok. simpl. lia. Qed.
Lemma demo_shard1 : sm_shardID demo_cnf + 1 < two64.
Proof. simpl. lia. Qed.

Lemma demo_calls_ok : calls_ok demo_cnf demo_calls.
Proof.
  repeat apply Forall_cons_2; try apply Forall_nil_2; (split; [|unfold u64_ok; simpl; lia]).
  - by apply cmd_leader.
  - apply (cmd_forward demo_cnf false demo_fwds). repeat constructor; vm_compute; congruence.
  - apply (cmd_write demo_cnf demo_wb [(EncodeTableKeyPrefix 1001 1000, [9])] [] []); try done.
    + repeat constructor; vm_compute; congruence.
    + apply Forall_singleton. exists 1001, []. by split_and!; try apply Forall_nil_2.
Qed.

Lemma demo_keys_ok : keys_ok (kv_apply (∅ : gmap bytes bytes) [KVSet (EncodeTableKeyPrefix 7 1000) [3]; KVSet (EncodeTableKeyPrefix 7 1001) [4]]).
Proof.
  apply keys_ok_apply; [intros k v; by setoid_rewrite lookup_empty|].
  apply Forall_cons_2; [|apply Forall_singleton]; (split; [apply EncodeTableKeyPrefix_ok|by rewrite length_EncodeTableKeyPrefix]).
Qed.

(** The run succeeds, and what it stores fits. *)
Definition demo_check : bool :=
  match run demo_cnf (fresh demo_state) (kv_empty : gmap bytes bytes) demo_calls with
  | Ok (_, db) =>
      (Z.of_nat (length (kv_scan db (EncodeTableKeyPrefix ForwardDedupTableID 1000)
         (Some (EncodeTableKeyPrefix (ForwardDedupTableID + 1) 1000)))) <=? 9223372036854775807) &&
      forallb (λ kv : bytes * bytes, negb (length kv.2 =? 0)%nat && (Z.of_nat (length kv.1) <=? 4294967295) &&
                  (Z.of_nat (length kv.2) <=? 4294967295)) (map_to_list db)
  | _ => false
  end.

Lemma demo_check_true : demo_check = true.
Proof. vm_compute. reflexivity. Qed.

Lemma demo_fits :
  match run demo_cnf (fresh demo_state) (kv_empty : gmap bytes bytes) demo_calls with
  | Ok (_, db) => scan_fits demo_cnf db ∧ sst_fits db
  | _ => False
  end.
Proof.
  pose proof demo_check_true as Hc. unfold demo_check in Hc. destruct (run _ _ _ _) as [[s db]| | |]; [|done..].
  apply andb_true_iff in Hc as [H1 H2]. split; [by apply Z.leb_le|].
  rewrite forallb_forall in H2. intros k v Hv.
  assert (Hin : List.In (k, v) (map_to_list db)) by (by apply list_elem_of_In, elem_of_map_to_list).
  apply H2 in Hin. simpl in Hin. apply andb_true_iff in Hin as [Hin Hl]. apply andb_true_iff in Hin as [Hv0 Hk].
  split_and!; [by destruct v|by apply Z.leb_le..].
Qed.

Lemma restart_recovers_witness :
  match run demo_cnf (fresh demo_state) (kv_empty : gmap bytes bytes) demo_calls with
  | Ok (s, db) => ∃ s', Open demo_cnf demo_state db = Ok (s', 6) ∧ same_memory s' s
  | _ => False
  end.
Proof.
  pose proof demo_fits as Hf. destruct (run demo_cnf (fresh demo_state) kv_empty demo_calls) as [[s db]| | |] eqn:E; [|done..].
  apply (restart_recovers demo_cnf demo_shard demo_shard1 demo_state s demo_state db demo_calls demo_calls_ok E). apply Hf.
Defined.

Lemma snapshot_transfers_shard_witness :
  let dbX := kv_apply (∅ : gmap bytes bytes) [KVSet (EncodeTableKeyPrefix 7 1000) [3]; KVSet (EncodeTableKeyPrefix 7 1001) [4]] in
  match run demo_cnf (fresh demo_state) (kv_empty : gmap bytes bytes) demo_calls with
  | Ok (s, db) =>
      ∃ tbl s' db', SaveSnapshot demo_cnf db = Ok tbl ∧ RecoverFromSnapshot demo_cnf demo_state dbX tbl = Ok (s', db') ∧
        same_memory s' s ∧
        ∀ k v, bytes_ok k → (16 ≤ length k)%nat →
          kv_get db' k = Some v ↔ (if decide (be_bytes 8 1000 `prefix_of` k) then kv_get db k = Some v else kv_get dbX k = Some v)
  | _ => False
  end.
Proof.
  intros dbX. pose proof demo_fits as Hf.
  destruct (run demo_cnf (fresh demo_state) kv_empty demo_calls) as [[s db]| | |] eqn:E; [|done..].
  apply (snapshot_transfers_shard demo_cnf demo_shard demo_shard1 demo_state s demo_state db dbX demo_calls demo_calls_ok E);
    [apply Hf..|exact demo_keys_ok].
Defined.
