(* ===== verification/SequenceSM.v ===== *)
(** * The sequence state machine

    Models cluster/dragon/sequence_odsm.go, the replicated counters that hand out table
    ids, its client [GenerateClusterSequence] of cluster/dragon/dragon.go, and the log
    index bookkeeping of cluster/dragon/sm_utils.go that this state machine shares with
    the locks state machine.

    The contract is a map of counters: a request answers the current value of its
    counter and increments it. [sequence_values] shows that the state machine on the
    store implements it, however the requests are split into runs of log entries. *)

From stdpp Require Import base list strings gmap.
From Stdlib Require Import ZArith Lia.
From S2P Require Import Prelude Encoding Timestamp Decimal Rows KeyEncoding RowEncoding Store WriteBatch Table LocalStore ShardSM.

Definition seqStateMachineUpdatedOK : Z := 1.

Section sequence.
Context {DB : Type} `{KVStore DB}.

Definition loadLastProcessedRaftIndex (db : DB) (shardID : Z) : outcome Z :=
  match kv_get db (EncodeTableKeyPrefix LastLogIndexReceivedTableID shardID) with
  | None => Ok 0
  | Some vb => '(lastIndex, _) ← ReadUint64FromBufferLE vb 0; Ok lastIndex
  end.

Definition writeLastIndexValue (val shardID : Z) : kv_op :=
  KVSet (EncodeTableKeyPrefix LastLogIndexReceivedTableID shardID) (AppendUint64ToBufferLE [] val).

Definition sequence_Open (db : DB) : outcome Z := loadLastProcessedRaftIndex db tableSequenceClusterID.

(** What the loop over the entries threads: the batch, the values already written in
    this call, and the result data of the entries so far. *)
Record SeqProgress := MkSeqProgress {
  q_batch : list kv_op;
  latestSeqVals : gmap bytes bytes;
  q_results : list bytes
}.

Definition sequence_updateEntry (db : DB) (p : SeqProgress) (entry : Entry) : outcome SeqProgress :=
  '(seqName, _) ← ReadStringFromBufferLE (Cmd entry) 0;
  keyBuff ← KeyEncodeString (EncodeTableKeyPrefix SequenceGeneratorTableID tableSequenceClusterID) seqName;
  let v := match latestSeqVals p !! keyBuff with Some v => Some v | None => localGet db keyBuff end in
  '(seqVal, seqBuff) ←
    (match v with
     | Some v => '(seqVal, _) ← ReadUint64FromBufferLE v 0; Ok (seqVal, v)
     | None => Ok (0, replicate 8 0)
     end);
  let vBuff := AppendUint64ToBufferLE [] (u64 (seqVal + 1)) in
  Ok (MkSeqProgress (q_batch p ++ [KVSet keyBuff vBuff]) (<[keyBuff := vBuff]> (latestSeqVals p)) (q_results p ++ [seqBuff])).

(** Returns the store and the result data of the entries. *)
Definition sequence_Update (db : DB) (entries : list Entry) : outcome (DB * list bytes) :=
  p ← foldM (sequence_updateEntry db) (MkSeqProgress [] ∅ []) entries;
  eN ← index entries (length entries - 1);
  let batch := q_batch p ++ [writeLastIndexValue (Index eN) tableSequenceClusterID] in
  Ok (kv_apply db batch, q_results p).

(** [sendPropose] gets the command through Raft and returns the result of the entry. *)
Definition GenerateClusterSequence (sendPropose : bytes → outcome (Z * bytes)) (sequenceName : bytes) : outcome Z :=
  let buff := AppendStringToBufferLE [] sequenceName in
  '(retVal, respBody) ← sendPropose buff;
  if negb (retVal =? seqStateMachineUpdatedOK) then Err "unexpected return value from writing sequence"
  else '(seqVal, _) ← ReadUint64FromBufferLE respBody 0; Ok seqVal.

(** ** The contract *)

(** The next value of every counter. *)
Definition next_value (m : gmap bytes Z) (name : bytes) : Z := default 0 (m !! name).

Definition bump (m : gmap bytes Z) (name : bytes) : gmap bytes Z := <[name := u64 (next_value m name + 1)]> m.

Definition seq_key (name : bytes) : bytes :=
  EncodeTableKeyPrefix SequenceGeneratorTableID tableSequenceClusterID ++ str_bytes name.

(** The store holds the counters [m]. *)
Definition seq_rep (m : gmap bytes Z) (db : DB) : Prop :=
  (∀ name, bytes_ok name → kv_get db (seq_key name) = le_bytes 8 <$> m !! name) ∧ map_Forall (λ _ v, u64_ok v) m.

Definition name_ok (name : bytes) : Prop := bytes_ok name ∧ u32_ok (Z.of_nat (length name)).

Definition seq_request (i : Z) (name : bytes) : Entry := MkEntry i (AppendStringToBufferLE [] name).

(** Successive calls of [Update]; [i] is the index of the first entry. *)
Fixpoint seq_run (db : DB) (calls : list (list Entry)) : outcome (DB * list bytes) :=
  match calls with
  | [] => Ok (db, [])
  | es :: calls =>
      '(db, out) ← sequence_Update db es;
      '(db, out') ← seq_run db calls;
      Ok (db, out ++ out')
  end.

(** The values a series of requests gets. *)
Fixpoint seq_values (m : gmap bytes Z) (names : list bytes) : list Z :=
  match names with
  | [] => []
  | name :: names => next_value m name :: seq_values (bump m name) names
  end.

Definition occurrences (name : bytes) (names : list bytes) : Z := Z.of_nat (length (filter (λ n, n = name) names)).

(** ** The state machine implements it *)

Lemma seq_key_inj a b : bytes_ok a → bytes_ok b → seq_key a = seq_key b → a = b.
Proof. intros Ha Hb E%app_inv_head. by apply str_bytes_inj. Qed.

(** The loop after some entries: what it finds for a name, and what the batch will
    leave in the store, is the counter. *)
Definition seq_prog (db : DB) (m : gmap bytes Z) (p : SeqProgress) : Prop :=
  (∀ name, bytes_ok name →
     (match latestSeqVals p !! seq_key name with Some v => Some v | None => kv_get db (seq_key name) end) = le_bytes 8 <$> m !! name) ∧
  seq_rep m (kv_apply db (q_batch p)).

Lemma next_value_ok (m : gmap bytes Z) name : map_Forall (λ _ v, u64_ok v) m → u64_ok (next_value m name).
Proof. intros Hm. unfold next_value. destruct (m !! name) as [v|] eqn:E; [by eapply Hm|]. unfold u64_ok. simpl. lia. Qed.

Lemma seq_entry_step db m p i name :
  name_ok name → seq_prog db m p →
  ∃ p', sequence_updateEntry db p (seq_request i name) = Ok p' ∧ seq_prog db (bump m name) p' ∧
    q_results p' = q_results p ++ [le_bytes 8 (next_value m name)].
Proof.
  intros [Hn Hl] [Hlook [Hst Hm]]. unfold sequence_updateEntry, seq_request. cbn [Cmd].
  rewrite <- (app_nil_r (AppendStringToBufferLE [] name)), ReadString_AppendString by done. osimpl.
  rewrite KeyEncodeString_eq. osimpl. fold (seq_key name). unfold localGet. rewrite Hlook by done.
  pose proof (next_value_ok m name Hm) as Hq.
  assert ((match le_bytes 8 <$> m !! name with
           | Some v => '(seqVal, _) ← ReadUint64FromBufferLE v 0; Ok (seqVal, v)
           | None => Ok (0, replicate 8 0)
           end) = Ok (next_value m name, le_bytes 8 (next_value m name))) as ->.
  { unfold next_value in *. destruct (m !! name) as [q|]; cbn [fmap option_fmap option_map default] in *; [|done].
    by rewrite ReadUint64LE_whole by done. }
  osimpl. rewrite AppendUint64ToBufferLE_eq, app_nil_l. eexists. split; [done|]. split; [|done]. unfold bump. split; [|split].
  - intros name' Hn'. cbn [latestSeqVals]. destruct (decide (name' = name)) as [->|Hne].
    + by rewrite !lookup_insert_eq.
    + rewrite !lookup_insert_ne; [by apply Hlook|done|]. intros E. by apply seq_key_inj in E.
  - intros name' Hn'. cbn [q_batch]. rewrite kv_apply_app, kv_get_set.
    destruct (decide (seq_key name' = seq_key name)) as [E|Hne].
    + apply seq_key_inj in E as ->; [|done..]. by rewrite lookup_insert_eq.
    + rewrite lookup_insert_ne by (intros ->; done). by apply Hst.
  - apply map_Forall_insert_2; [apply u64_range|done].
Qed.

Lemma seq_entries db reqs : ∀ m p,
  Forall (λ r : Z * bytes, name_ok r.2) reqs → seq_prog db m p →
  ∃ p', foldM (sequence_updateEntry db) p (map (λ r, seq_request r.1 r.2) reqs) = Ok p' ∧
    seq_prog db (foldl bump m reqs.*2) p' ∧ q_results p' = q_results p ++ map (le_bytes 8) (seq_values m reqs.*2).
Proof.
  induction reqs as [|[i name] reqs IH]; intros m p Hok Hp; simpl; [exists p; by rewrite app_nil_r|].
  apply Forall_cons in Hok as [Hn Hok].
  destruct (seq_entry_step db m p i name Hn Hp) as (p1 & -> & Hp1 & Hr1). osimpl.
  destruct (IH _ _ Hok Hp1) as (p2 & -> & Hp2 & Hr2). exists p2. split; [done|]. split; [done|].
  rewrite Hr2, Hr1, <- app_assoc. done.
Qed.

Lemma sequence_Update_eq db m reqs :
  reqs ≠ [] → Forall (λ r : Z * bytes, name_ok r.2) reqs → seq_rep m db →
  ∃ db', sequence_Update db (map (λ r, seq_request r.1 r.2) reqs) = Ok (db', map (le_bytes 8) (seq_values m reqs.*2)) ∧
    seq_rep (foldl bump m reqs.*2) db'.
Proof.
  intros Hne Hok [Hst Hm]. unfold sequence_Update.
  destruct (seq_entries db reqs m (MkSeqProgress [] ∅ []) Hok) as (p & -> & [_ [Hst' Hm']] & Hr).
  { split; [intros name Hn; cbn [latestSeqVals]; rewrite lookup_empty; by apply Hst|]. split; [|done].
    intros name Hn. cbn [q_batch]. rewrite kv_apply_nil. by apply Hst. }
  osimpl. destruct (last reqs) as [[i name]|] eqn:E; [|by apply last_None in E].
  rewrite (index_ok _ _ (seq_request i name)).
  2: { rewrite length_map, list_lookup_fmap, Nat.sub_1_r, <- last_lookup, E. done. }
  osimpl. cbn [Index seq_request]. rewrite Hr. eexists. split; [done|]. split; [|done].
  intros n Hn. rewrite kv_apply_app, kv_get_apply. cbn [foldl op_effect writeLastIndexValue].
  rewrite decide_False; [by apply Hst'|]. rewrite <- (app_nil_r (EncodeTableKeyPrefix LastLogIndexReceivedTableID _)).
  intros (? & _)%EncodeTableKeyPrefix_inj; unfold u64_ok, SequenceGeneratorTableID, LastLogIndexReceivedTableID, tableSequenceClusterID in *; lia.
Qed.

Lemma seq_values_app m a b : seq_values m (a ++ b) = seq_values m a ++ seq_values (foldl bump m a) b.
Proof. revert m. induction a as [|x a IH]; intros m; simpl; [done|]. by rewrite IH. Qed.

Lemma seq_run_eq calls : ∀ db m,
  Forall (λ c, c ≠ []) calls → Forall (Forall (λ r : Z * bytes, name_ok r.2)) calls → seq_rep m db →
  ∃ db', seq_run db (map (map (λ r, seq_request r.1 r.2)) calls) = Ok (db', map (le_bytes 8) (seq_values m (concat calls).*2)) ∧
    seq_rep (foldl bump m (concat calls).*2) db'.
Proof.
  induction calls as [|reqs calls IH]; intros db m Hne Hok Hrep; simpl; [by eexists|].
  apply Forall_cons in Hne as [Hne1 Hne], Hok as [Hok1 Hok].
  destruct (sequence_Update_eq db m reqs Hne1 Hok1 Hrep) as (db1 & -> & Hrep1). osimpl.
  destruct (IH db1 _ Hne Hok Hrep1) as (db2 & -> & Hrep2). osimpl. exists db2.
  rewrite fmap_app, seq_values_app, map_app, foldl_app. done.
Qed.

(** The value of a request: the counter plus the earlier requests of the name. *)
Lemma next_value_foldl names : ∀ m name,
  map_Forall (λ _ v, u64_ok v) m → next_value (foldl bump m names) name = u64 (next_value m name + occurrences name names).
Proof.
  induction names as [|n names IH]; intros m name Hm; simpl.
  { unfold occurrences. simpl. rewrite Z.add_0_r, u64_small; [done|by apply next_value_ok]. }
  rewrite IH by (apply map_Forall_insert_2; [apply u64_range|done]). unfold occurrences, next_value at 1, bump.
  destruct (decide (n = name)) as [->|Hne].
  - rewrite lookup_insert_eq, filter_cons_True by done. simpl. unfold u64. rewrite Zplus_mod_idemp_l. f_equal. lia.
  - rewrite lookup_insert_ne, filter_cons_False by done. done.
Qed.

Lemma seq_values_lookup names : ∀ m i name,
  map_Forall (λ _ v, u64_ok v) m → names !! i = Some name →
  seq_values m names !! i = Some (u64 (next_value m name + occurrences name (take i names))).
Proof.
  intros m i name Hm Hi. rewrite <- next_value_foldl by done. clear Hm. revert m i Hi.
  induction names as [|n names IH]; intros m [|i] Hi; simplify_eq/=; [done|]. by apply IH.
Qed.

Lemma occurrences_lt name names i j :
  (i < j)%nat → names !! i = Some name → occurrences name (take i names) < occurrences name (take j names).
Proof.
  intros Hij Hi. unfold occurrences. rewrite <- (take_drop (S i) (take j names)), take_take, Nat.min_l by lia.
  rewrite (take_S_r _ _ _ Hi), !filter_app, !length_app, filter_cons_True by done. simpl. lia.
Qed.

Lemma occurrences_bound name names i : occurrences name (take i names) ≤ Z.of_nat (length names).
Proof.
  unfold occurrences. pose proof (length_filter (λ n, n = name) (take i names)). rewrite length_take in *. lia.
Qed.

(** * Properties *)

(** C32. Cluster sequences are unique: however requests for any names are batched into
    log entries and calls, the [i]-th request is answered, and the client reads as its
    value the value the name's counter had plus the number of earlier requests for the
    same name. So the values of a name go up by one per request, from where the store
    stood, and no value is handed out twice. *)
Theorem sequence_values (db : DB) (m : gmap bytes Z) (calls : list (list (Z * bytes))) :
  seq_rep m db → Forall (λ c, c ≠ []) calls → Forall (Forall (λ r : Z * bytes, name_ok r.2)) calls →
  (∀ name, next_value m name + Z.of_nat (length (concat calls)) < two64) →
  let names := (concat calls).*2 in
  ∃ db' out, seq_run db (map (map (λ r, seq_request r.1 r.2)) calls) = Ok (db', out) ∧ seq_rep (foldl bump m names) db' ∧
    ∀ i name, names !! i = Some name →
      ∃ data, out !! i = Some data ∧
        GenerateClusterSequence (λ _, Ok (seqStateMachineUpdatedOK, data)) name
          = Ok (next_value m name + occurrences name (take i names)) ∧
        ∀ j, (i < j)%nat → occurrences name (take i names) < occurrences name (take j names).
Proof.
  intros Hrep Hne Hok Hmax names. destruct (seq_run_eq calls db m Hne Hok Hrep) as (db' & Hrun & Hrep').
  eexists db', _. split; [exact Hrun|]. split; [exact Hrep'|]. intros i name Hi. destruct Hrep as [_ Hm].
  pose proof (next_value_ok m name Hm) as [Hlo _]. specialize (Hmax name).
  pose proof (occurrences_bound name names i) as Hocc. unfold names in Hocc. rewrite length_fmap in Hocc.
  assert (Hv : u64_ok (next_value m name + occurrences name (take i names))).
  { unfold u64_ok. pose proof (Nat2Z.is_nonneg (length (filter (λ n, n = name) (take i names)))). fold names in Hocc.
    unfold occurrences in *. lia. }
  exists (le_bytes 8 (next_value m name + occurrences name (take i names))). split; [|split].
  - rewrite list_lookup_fmap. fold names. pose proof (seq_values_lookup names m i name Hm Hi) as E. by rewrite E, u64_small.
  - unfold GenerateClusterSequence. osimpl. rewrite ReadUint64LE_whole by done. by osimpl.
  - intros j Hj. by apply occurrences_lt.
Qed.
End sequence.

Lemma sequence_values_witness :
  let calls := [[(4, [97]); (5, [98])]; [(6, [97]); (7, [97])]] in
  let names := (concat calls).*2 in
  ∃ (db' : gmap bytes bytes) out,
    seq_run ∅ (map (map (λ r, seq_request r.1 r.2)) calls) = Ok (db', out) ∧ seq_rep (foldl bump ∅ names) db' ∧
    ∀ i name, names !! i = Some name →
      ∃ data, out !! i = Some data ∧
        GenerateClusterSequence (λ _, Ok (seqStateMachineUpdatedOK, data)) name
          = Ok (next_value ∅ name + occurrences name (take i names)) ∧
        ∀ j, (i < j)%nat → occurrences name (take i names) < occurrences name (take j names).
Proof.
  intros calls. apply (sequence_values (∅ : gmap bytes bytes) ∅ calls).
  - split; [intros name _|done]. by rewrite lookup_empty.
  - repeat constructor; congruence.
  - repeat constructor; vm_compute; congruence.
  - intros name. unfold next_value. rewrite lookup_empty. vm_compute. reflexivity.
Defined.
