(* ===== verification/LocksSM.v ===== *)
(** * The locks state machine

    Models cluster/dragon/locks_odsm.go, the replicated table of prefix locks, and its
    clients [GetLock] and [ReleaseLock] of cluster/dragon/dragon.go.

    Two locks exclude each other when one is a prefix of the other. A request to get a
    lock loops over the Go map of the held locks; the order of that loop is not
    specified, so it is a parameter of the model: [iter i m] is the order in which the
    [i]-th entry visits the map [m], any list of its entries.

    The contract [lock_step] does not mention the order. The state machine meets it when
    every locker id is used for one lock only, which [sendLockRequest] ensures by making
    a fresh id for every request. *)

From stdpp Require Import base list strings gmap.
From Stdlib Require Import ZArith Lia.
From S2P Require Import Prelude Encoding Timestamp Decimal Rows KeyEncoding RowEncoding Store WriteBatch Table LocalStore ShardSM SequenceSM.

Definition locksStateMachineUpdatedOK : Z := 1.
Definition GetLockCommand : bytes := lit "get".
Definition ReleaseLockCommand : bytes := lit "release".
Definition LockSMResultTrue : Z := 1.
Definition LockSMResultFalse : Z := 0.

Section locks.
Context {DB : Type} `{KVStore DB}.

Definition encodeLocksKey (prefix : bytes) : outcome bytes :=
  KeyEncodeString (EncodeTableKeyPrefix LocksTableID locksClusterID) prefix.

Definition loadLocks (db : DB) : outcome (gmap bytes bytes) :=
  let startPrefix := EncodeTableKeyPrefix LocksTableID locksClusterID in
  let endPrefix := EncodeTableKeyPrefix (LocksTableID + 1) locksClusterID in
  foldM (λ locks '(k, v),
      '(sKey, _) ← KeyDecodeString k 16;
      Ok (<[sKey := v]> locks)) ∅ (LocalScan db startPrefix (Some endPrefix) 2147483647).

Definition locks_Open (db : DB) : outcome (gmap bytes bytes * Z) :=
  lp ← loadLastProcessedRaftIndex db locksClusterID;
  locks ← loadLocks db;
  Ok (locks, lp).

(** The result data of an entry. *)
Definition setResult (ok : bool) : bytes := [if ok then LockSMResultTrue else LockSMResultFalse].

Definition prefix_related (k prefix : bytes) : bool := has_prefix k prefix || has_prefix prefix k.

(** The loop over the held locks: [None] when none of them excludes [prefix], else the
    result that was set last. *)
Definition heldResult (prefix locker : bytes) (held : list (bytes * bytes)) : option bool :=
  foldl (λ r '(k, currLocker),
      if prefix_related k prefix then Some (bytes_eqb locker currLocker) else r) None held.

Record LocksProgress := MkLocksProgress {
  l_locks : gmap bytes bytes;
  l_batch : list kv_op;
  l_results : list bytes
}.

Definition locks_updateEntry (iter : nat → gmap bytes bytes → list (bytes * bytes)) (i : nat) (p : LocksProgress) (entry : Entry) :
    outcome LocksProgress :=
  '(command, offset) ← ReadStringFromBufferLE (Cmd entry) 0;
  '(prefix, offset) ← ReadStringFromBufferLE (Cmd entry) offset;
  '(locker, _) ← ReadStringFromBufferLE (Cmd entry) offset;
  if bytes_eqb command GetLockCommand then
    match heldResult prefix locker (iter i (l_locks p)) with
    | Some r => Ok (MkLocksProgress (l_locks p) (l_batch p) (l_results p ++ [setResult r]))
    | None =>
        keyBuff ← encodeLocksKey prefix;
        Ok (MkLocksProgress (<[prefix := locker]> (l_locks p)) (l_batch p ++ [KVSet keyBuff locker])
              (l_results p ++ [setResult true]))
    end
  else if bytes_eqb command ReleaseLockCommand then
    match l_locks p !! prefix with
    | None => Ok (MkLocksProgress (l_locks p) (l_batch p) (l_results p ++ [setResult true]))
    | Some _ =>
        keyBuff ← encodeLocksKey prefix;
        Ok (MkLocksProgress (delete prefix (l_locks p)) (l_batch p ++ [KVDelete keyBuff]) (l_results p ++ [setResult true]))
    end
  else Err "unknown lock command".

Definition locks_Update (iter : nat → gmap bytes bytes → list (bytes * bytes)) (locks : gmap bytes bytes) (db : DB)
    (entries : list Entry) : outcome (gmap bytes bytes * DB * list bytes) :=
  p ← foldMi (locks_updateEntry iter) 0 (MkLocksProgress locks [] []) entries;
  eN ← index entries (length entries - 1);
  let batch := l_batch p ++ [writeLastIndexValue (Index eN) locksClusterID] in
  Ok (l_locks p, kv_apply db batch, l_results p).

Definition locks_SaveSnapshot (db : DB) : outcome (list (bytes * bytes)) :=
  saveSnapshotDataToWriter db (EncodeTableKeyPrefix LocksTableID locksClusterID) locksClusterID.

Definition locks_RecoverFromSnapshot (db : DB) (tbl : list (bytes * bytes)) : outcome (gmap bytes bytes * DB) :=
  let startPrefix := EncodeTableKeyPrefix LocksTableID locksClusterID in
  let endPrefix := EncodeTableKeyPrefix (LocksTableID + 1) locksClusterID in
  let db := restoreSnapshotDataFromReader db startPrefix endPrefix tbl in
  locks ← loadLocks db;
  Ok (locks, db).

(** ** The client *)

(** [locker] is the fresh id of the request, [sendPropose] gets it through Raft. *)
Definition sendLockRequest (sendPropose : bytes → outcome (Z * bytes)) (locker command prefix : bytes) : outcome bool :=
  let buff := AppendStringToBufferLE [] command in
  let buff := AppendStringToBufferLE buff prefix in
  let buff := AppendStringToBufferLE buff locker in
  '(retVal, resBuff) ← sendPropose buff;
  if negb (retVal =? locksStateMachineUpdatedOK) then Err "unexpected return value from lock request"
  else
    res ← index resBuff 0;
    if res =? LockSMResultTrue then Ok true
    else if res =? LockSMResultFalse then Ok false
    else Err "unexpected return value from lock request".

Definition GetLock (sendPropose : bytes → outcome (Z * bytes)) (locker prefix : bytes) : outcome bool :=
  sendLockRequest sendPropose locker GetLockCommand prefix.
Definition ReleaseLock (sendPropose : bytes → outcome (Z * bytes)) (locker prefix : bytes) : outcome bool :=
  sendLockRequest sendPropose locker ReleaseLockCommand prefix.

(** ** The contract *)

Inductive lock_req := ReqGet (prefix locker : bytes) | ReqRelease (prefix locker : bytes).

Definition lock_cmd (r : lock_req) : bytes :=
  let '(command, prefix, locker) :=
    match r with ReqGet p l => (GetLockCommand, p, l) | ReqRelease p l => (ReleaseLockCommand, p, l) end in
  AppendStringToBufferLE (AppendStringToBufferLE (AppendStringToBufferLE [] command) prefix) locker.

(** One of the two is a prefix of the other. *)
Definition related (k prefix : bytes) : Prop := prefix `prefix_of` k ∨ k `prefix_of` prefix.

(** The answer to a request and the locks held after it. *)
Definition lock_step (locks : gmap bytes bytes) (r : lock_req) : bool * gmap bytes bytes :=
  match r with
  | ReqGet prefix locker =>
      if decide (locks !! prefix = Some locker) then (true, locks)
      else if existsb (λ kv, prefix_related kv.1 prefix) (map_to_list locks) then (false, locks)
      else (true, <[prefix := locker]> locks)
  | ReqRelease prefix _ => (true, delete prefix locks)
  end.

Fixpoint lock_answers (locks : gmap bytes bytes) (rs : list lock_req) : list bool :=
  match rs with
  | [] => []
  | r :: rs => (lock_step locks r).1 :: lock_answers (lock_step locks r).2 rs
  end.

Definition lock_steps (locks : gmap bytes bytes) (rs : list lock_req) : gmap bytes bytes :=
  foldl (λ locks r, (lock_step locks r).2) locks rs.

Definition lock_str_ok (x : bytes) : Prop := bytes_ok x ∧ u32_ok (Z.of_nat (length x)).

(** A locker id is used for the lock [owner] gives. *)
Definition req_ok (owner : bytes → bytes) (r : lock_req) : Prop :=
  match r with
  | ReqGet prefix locker => lock_str_ok prefix ∧ lock_str_ok locker ∧ owner locker = prefix
  | ReqRelease prefix locker => lock_str_ok prefix ∧ lock_str_ok locker
  end.

(** Locks held together are not related, and each is held by its owner. *)
Record locks_inv (owner : bytes → bytes) (locks : gmap bytes bytes) : Prop := {
  li_apart : ∀ k k', is_Some (locks !! k) → is_Some (locks !! k') → related k k' → k = k';
  li_owner : ∀ k locker, locks !! k = Some locker → owner locker = k;
  li_names : ∀ k locker, locks !! k = Some locker → bytes_ok k
}.

(** ** The contract excludes *)

Lemma prefix_related_spec k p : prefix_related k p = true ↔ related k p.
Proof. unfold prefix_related, related. by rewrite orb_true_iff, !has_prefix_spec. Qed.

Lemma related_sym k p : related k p → related p k.
Proof. unfold related. tauto. Qed.

Lemma related_refl k : related k k.
Proof. by left. Qed.

Lemma existsb_related (locks : gmap bytes bytes) p :
  existsb (λ kv, prefix_related kv.1 p) (map_to_list locks) = true ↔ ∃ k l, locks !! k = Some l ∧ related k p.
Proof.
  rewrite existsb_exists. split.
  - intros ([k l] & Hin & Hr). apply prefix_related_spec in Hr.
    apply list_elem_of_In, elem_of_map_to_list in Hin. eauto.
  - intros (k & l & Hk & Hr). exists (k, l). split; [by apply list_elem_of_In, elem_of_map_to_list|]. by apply prefix_related_spec.
Qed.

Lemma lock_step_inv owner locks r : req_ok owner r → locks_inv owner locks → locks_inv owner (lock_step locks r).2.
Proof.
  intros Hr [Ha Ho Hn]. destruct r as [prefix locker|prefix locker]; simpl.
  - destruct Hr as (Hp & Hl & Hown). case_decide; [done|]. destruct (existsb _ _) eqn:E; [done|]. simpl.
    assert (Hfree : ∀ k, is_Some (locks !! k) → ¬ related k prefix).
    { intros k [l Hk] Hrel. rewrite (proj2 (existsb_related locks prefix)) in E by eauto. done. }
    split.
    + intros k k'. rewrite !lookup_insert_is_Some. intros [<-|[? Hk]] [<-|[? Hk']] Hrel; try done.
      * by apply related_sym, Hfree in Hrel.
      * by apply Hfree in Hrel.
      * by apply Ha.
    + intros k l [[<- <-]|[? Hk]]%lookup_insert_Some; [done|by apply Ho].
    + intros k l [[<- <-]|[? Hk]]%lookup_insert_Some; [apply Hp|by eapply Hn].
  - split.
    + intros k k' [l [_ Hk]%lookup_delete_Some] [l' [_ Hk']%lookup_delete_Some]. apply Ha; by eexists.
    + intros k l [_ Hk]%lookup_delete_Some. by apply Ho.
    + intros k l [_ Hk]%lookup_delete_Some. by eapply Hn.
Qed.

Lemma lock_steps_inv owner rs : ∀ locks, Forall (req_ok owner) rs → locks_inv owner locks → locks_inv owner (lock_steps locks rs).
Proof.
  induction rs as [|r rs IH]; intros locks Hrs Hl; [done|]. apply Forall_cons in Hrs as [Hr Hrs].
  apply IH; [done|]. by apply lock_step_inv.
Qed.

Lemma lock_get_true locks prefix locker :
  (lock_step locks (ReqGet prefix locker)).1 = true → (lock_step locks (ReqGet prefix locker)).2 !! prefix = Some locker.
Proof. simpl. case_decide; [done|]. destruct (existsb _ _); [done|]. intros _. simpl. by rewrite lookup_insert_eq. Qed.

(** A held lock stays held until it is released. *)
Lemma lock_steps_keep rs : ∀ locks prefix locker,
  locks !! prefix = Some locker → Forall (λ r, ∀ l, r ≠ ReqRelease prefix l) rs → lock_steps locks rs !! prefix = Some locker.
Proof.
  induction rs as [|r rs IH]; intros locks prefix locker Hl Hrs; [done|]. apply Forall_cons in Hrs as [Hr Hrs].
  unfold lock_steps. simpl. apply IH; [|done]. destruct r as [p' l'|p' l']; simpl.
  - case_decide; [done|]. destruct (existsb _ _) eqn:E; [done|]. simpl. rewrite lookup_insert_ne; [done|]. intros ->.
    rewrite (proj2 (existsb_related locks prefix)) in E; [done|]. exists prefix, locker. by split; [|apply related_refl].
  - rewrite lookup_delete_ne; [done|]. intros ->. by apply (Hr l').
Qed.

Lemma lock_get_excluded owner locks k l prefix locker :
  locks_inv owner locks → req_ok owner (ReqGet prefix locker) → locks !! k = Some l → related k prefix → l ≠ locker →
  (lock_step locks (ReqGet prefix locker)).1 = false.
Proof.
  intros [Ha Ho Hn] (_ & _ & Hown) Hk Hrel Hne. simpl. rewrite decide_False.
  - by rewrite (proj2 (existsb_related locks prefix)) by eauto.
  - intros Hp. assert (k = prefix) as -> by (apply Ha; by try eexists). congruence.
Qed.

(** ** The state machine implements the contract *)

Abbreviation locks_prefix := (EncodeTableKeyPrefix LocksTableID locksClusterID).
Definition lock_key (k : bytes) : bytes := locks_prefix ++ str_bytes k.

(** The store holds the locks, and nothing else in their table. *)
Record locks_stored (locks : gmap bytes bytes) (db : DB) : Prop := {
  ls_keys : keys_ok db;
  ls_get : ∀ k, bytes_ok k → kv_get db (lock_key k) = locks !! k;
  ls_only : ∀ k v, kv_get db k = Some v → locks_prefix `prefix_of` k → ∃ name, bytes_ok name ∧ k = lock_key name
}.

Lemma locks_stored_equiv locks db db' : kv_equiv db db' → locks_stored locks db → locks_stored locks db'.
Proof.
  intros E [Hk Hg Ho]. split; [by eapply keys_ok_equiv| |]; intros k; [rewrite <- E; apply Hg|].
  intros v. rewrite <- E. apply Ho.
Qed.

Lemma lock_key_inj a b : bytes_ok a → bytes_ok b → lock_key a = lock_key b → a = b.
Proof. intros Ha Hb E%app_inv_head. by apply str_bytes_inj. Qed.

Lemma locks_stored_set locks db k l :
  bytes_ok k → locks_stored locks db → locks_stored (<[k := l]> locks) (kv_apply db [KVSet (lock_key k) l]).
Proof.
  intros Hk [Hks Hg Ho]. split.
  - apply keys_ok_apply; [done|]. apply Forall_singleton. unfold lock_key. rewrite length_app, length_EncodeTableKeyPrefix.
    split; [|lia]. apply bytes_ok_app. auto using EncodeTableKeyPrefix_ok, str_bytes_ok.
  - intros k' Hk'. rewrite kv_get_set. case_decide as E.
    + apply lock_key_inj in E as ->; [|done..]. by rewrite lookup_insert_eq.
    + rewrite lookup_insert_ne by (intros ->; done). by apply Hg.
  - intros k' v. rewrite kv_get_set. case_decide as E; [|apply Ho]. eauto.
Qed.

Lemma locks_stored_delete locks db k :
  bytes_ok k → locks_stored locks db → locks_stored (delete k locks) (kv_apply db [KVDelete (lock_key k)]).
Proof.
  intros Hk [Hks Hg Ho]. split.
  - apply keys_ok_apply; [done|]. by apply Forall_singleton.
  - intros k' Hk'. rewrite kv_get_apply. cbn [foldl op_effect]. case_decide as E.
    + apply lock_key_inj in E as ->; [|done..]. by rewrite lookup_delete_eq.
    + rewrite lookup_delete_ne by (intros ->; done). by apply Hg.
  - intros k' v. rewrite kv_get_apply. cbn [foldl op_effect]. case_decide as E; [done|apply Ho].
Qed.

Section refinement.
Variable iter : nat → gmap bytes bytes → list (bytes * bytes).
Hypothesis iter_perm : ∀ i m, iter i m ≡ₚ map_to_list m.
Variable owner : bytes → bytes.

Lemma heldResult_spec prefix locker l :
  match heldResult prefix locker l with
  | Some r => ∃ k cur, (k, cur) ∈ l ∧ related k prefix ∧ r = bytes_eqb locker cur
  | None => ∀ k cur, (k, cur) ∈ l → ¬ related k prefix
  end.
Proof.
  unfold heldResult. induction l as [|[k cur] l IH] using rev_ind; [intros k cur Hin; by apply not_elem_of_nil in Hin|].
  rewrite foldl_snoc. destruct (prefix_related k prefix) eqn:E.
  - apply prefix_related_spec in E. exists k, cur. split; [set_solver|done].
  - assert (¬ related k prefix) by (rewrite <- prefix_related_spec; congruence).
    destruct (foldl _ None l) as [r|]; [destruct IH as (k' & cur' & Hin & ?); exists k', cur'; set_solver|]. set_solver.
Qed.

Lemma heldResult_step i locks prefix locker :
  locks_inv owner locks → req_ok owner (ReqGet prefix locker) →
  heldResult prefix locker (iter i locks) =
    if decide (locks !! prefix = Some locker) then Some true
    else if existsb (λ kv, prefix_related kv.1 prefix) (map_to_list locks) then Some false else None.
Proof.
  intros [Ha Ho _] (_ & _ & Hown). pose proof (heldResult_spec prefix locker (iter i locks)) as Hs.
  assert (Hin : ∀ k l, (k, l) ∈ iter i locks ↔ locks !! k = Some l) by (intros k l; by rewrite iter_perm, elem_of_map_to_list).
  destruct (heldResult _ _ _) as [r|].
  - destruct Hs as (k & cur & Hk & Hrel & ->). apply Hin in Hk. case_decide as Hp.
    + assert (k = prefix) as -> by (apply Ha; by try eexists). rewrite Hk in Hp. injection Hp as ->. f_equal. by apply bool_decide_eq_true.
    + rewrite (proj2 (existsb_related locks prefix)) by eauto. f_equal. apply bool_decide_eq_false. intros ->. apply Hp.
      rewrite <- Hown, (Ho _ _ Hk). done.
  - rewrite decide_False by (intros Hp; eapply Hs; [by apply Hin|apply related_refl]).
    destruct (existsb _ _) eqn:E; [|done]. apply existsb_related in E as (k & l & Hk & Hrel). by destruct (Hs k l); [apply Hin|].
Qed.

Definition lock_entry (r : Z * lock_req) : Entry := MkEntry r.1 (lock_cmd r.2).

(** The loop after some entries. *)
Definition locks_prog (db : DB) (p : LocksProgress) : Prop :=
  locks_inv owner (l_locks p) ∧ locks_stored (l_locks p) (kv_apply db (l_batch p)).

Lemma lock_cmd_read command prefix locker :
  u32_ok (Z.of_nat (length command)) → lock_str_ok prefix → lock_str_ok locker →
  let cmd := AppendStringToBufferLE (AppendStringToBufferLE (AppendStringToBufferLE [] command) prefix) locker in
  ∃ o1 o2 o3, ReadStringFromBufferLE cmd 0 = Ok (command, o1) ∧ ReadStringFromBufferLE cmd o1 = Ok (prefix, o2) ∧
    ReadStringFromBufferLE cmd o2 = Ok (locker, o3).
Proof.
  intros Hc [_ Hp] [_ Hl]. cbv zeta. set (b1 := AppendStringToBufferLE [] command). set (b2 := AppendStringToBufferLE b1 prefix).
  assert (E2 : ∃ r, AppendStringToBufferLE b2 locker = b2 ++ r).
  { unfold AppendStringToBufferLE at 1. rewrite AppendUint32ToBufferLE_eq, <- app_assoc. by eexists. }
  assert (E1 : ∃ r, b2 = b1 ++ r).
  { unfold b2, AppendStringToBufferLE at 1. rewrite AppendUint32ToBufferLE_eq, <- app_assoc. by eexists. }
  destruct E1 as [r1 E1], E2 as [r2 E2]. exists (length b1), (length b2), (length (AppendStringToBufferLE b2 locker)).
  split_and!.
  - rewrite E2, E1, <- app_assoc. unfold b1. by apply ReadString_AppendString.
  - rewrite E2. unfold b2. by apply ReadString_AppendString.
  - rewrite <- (app_nil_r (AppendStringToBufferLE b2 locker)) at 1. by apply ReadString_AppendString.
Qed.

Lemma locks_entry_step db i p r :
  req_ok owner r.2 → locks_prog db p →
  ∃ p', locks_updateEntry iter i p (lock_entry r) = Ok p' ∧ locks_prog db p' ∧
    l_locks p' = (lock_step (l_locks p) r.2).2 ∧ l_results p' = l_results p ++ [setResult (lock_step (l_locks p) r.2).1].
Proof.
  destruct r as [j r]. cbn [snd]. intros Hr [Hinv Hst]. pose proof (lock_step_inv owner _ r Hr Hinv) as Hinv'.
  unfold locks_updateEntry, lock_entry. cbn [Cmd fst snd]. destruct r as [prefix locker|prefix locker].
  - pose proof Hr as (Hp & Hl & _).
    edestruct (lock_cmd_read GetLockCommand prefix locker) as (o1 & o2 & o3 & E1 & E2 & E3); [by vm_compute|done..|].
    unfold lock_cmd. rewrite E1. osimpl. rewrite E2. osimpl. rewrite E3. osimpl.
    change (bytes_eqb GetLockCommand GetLockCommand) with true. cbv iota.
    rewrite heldResult_step by done. cbn [lock_step] in *. case_decide; [eexists; by split_and!|].
    destruct (existsb _ _); [eexists; by split_and!|]. unfold encodeLocksKey. rewrite KeyEncodeString_eq. osimpl. fold (lock_key prefix).
    eexists. split; [done|]. split; [|done]. split; [done|]. cbn [l_locks l_batch].
    eapply locks_stored_equiv; [symmetry; apply kv_apply_app|]. by apply locks_stored_set; [apply Hp|].
  - pose proof Hr as (Hp & Hl).
    edestruct (lock_cmd_read ReleaseLockCommand prefix locker) as (o1 & o2 & o3 & E1 & E2 & E3); [by vm_compute|done..|].
    unfold lock_cmd. rewrite E1. osimpl. rewrite E2. osimpl. rewrite E3. osimpl.
    change (bytes_eqb ReleaseLockCommand GetLockCommand) with false. cbv iota.
    change (bytes_eqb ReleaseLockCommand ReleaseLockCommand) with true. cbv iota. cbn [lock_step fst snd] in *.
    destruct (l_locks p !! prefix) as [l|] eqn:E.
    + unfold encodeLocksKey. rewrite KeyEncodeString_eq. osimpl. fold (lock_key prefix). eexists. split; [done|]. split; [|done].
      split; [done|]. cbn [l_locks l_batch]. eapply locks_stored_equiv; [symmetry; apply kv_apply_app|].
      by apply locks_stored_delete; [apply Hp|].
    + rewrite delete_id by done. eexists; by split_and!.
Qed.

Lemma locks_entries db rs : ∀ i p,
  Forall (λ r : Z * lock_req, req_ok owner r.2) rs → locks_prog db p →
  ∃ p', foldMi (locks_updateEntry iter) i p (map lock_entry rs) = Ok p' ∧ locks_prog db p' ∧
    l_locks p' = lock_steps (l_locks p) rs.*2 ∧ l_results p' = l_results p ++ map setResult (lock_answers (l_locks p) rs.*2).
Proof.
  induction rs as [|r rs IH]; intros i p Hok Hp; simpl; [exists p; by rewrite app_nil_r|].
  apply Forall_cons in Hok as [Hr Hok]. destruct (locks_entry_step db i p r Hr Hp) as (p1 & -> & Hp1 & El & Er). osimpl.
  destruct (IH (S i) p1 Hok Hp1) as (p2 & -> & Hp2 & El2 & Er2). exists p2. split; [done|]. split; [done|].
  rewrite El2, Er2, Er, El, <- app_assoc. done.
Qed.

Lemma locks_Update_eq locks db rs i0 r0 :
  last rs = Some (i0, r0) → Forall (λ r : Z * lock_req, req_ok owner r.2) rs → locks_inv owner locks → locks_stored locks db →
  ∃ db', locks_Update iter locks db (map lock_entry rs) =
      Ok (lock_steps locks rs.*2, db', map setResult (lock_answers locks rs.*2)) ∧
    locks_stored (lock_steps locks rs.*2) db' ∧
    kv_get db' (EncodeTableKeyPrefix LastLogIndexReceivedTableID locksClusterID) = Some (le_bytes 8 i0).
Proof.
  intros Hlast Hok Hinv Hst. unfold locks_Update.
  destruct (locks_entries db rs 0 (MkLocksProgress locks [] []) Hok) as (p & -> & [Hinv' Hst'] & El & Er).
  { split; [done|]. eapply locks_stored_equiv; [symmetry; apply kv_apply_nil|done]. }
  osimpl. rewrite (index_ok _ _ (lock_entry (i0, r0))).
  2: { rewrite length_map, list_lookup_fmap, Nat.sub_1_r, <- last_lookup, Hlast. done. }
  osimpl. cbn [l_locks l_results l_batch app] in El, Er. rewrite El, Er. eexists. split; [done|].
  cbn [Index lock_entry fst]. unfold writeLastIndexValue. rewrite AppendUint64ToBufferLE_eq, app_nil_l.
  rewrite El in Hst'. destruct Hst' as [Hk Hg Ho].
  assert (Hne : ∀ x, locks_prefix ++ x ≠ EncodeTableKeyPrefix LastLogIndexReceivedTableID locksClusterID).
  { intros x. rewrite <- (app_nil_r (EncodeTableKeyPrefix LastLogIndexReceivedTableID _)).
    intros (? & _)%EncodeTableKeyPrefix_inj; unfold u64_ok, LocksTableID, LastLogIndexReceivedTableID, locksClusterID in *; lia. }
  split; [split|].
  - eapply keys_ok_equiv; [symmetry; apply kv_apply_app|]. apply keys_ok_apply; [done|]. apply Forall_singleton.
    split; [apply EncodeTableKeyPrefix_ok|by rewrite length_EncodeTableKeyPrefix].
  - intros k Hk'. rewrite kv_apply_app, kv_get_set, decide_False by apply Hne. by apply Hg.
  - intros k v. rewrite kv_apply_app, kv_get_set. case_decide as E; [|apply Ho]. intros _ [x ->]. by destruct (Hne x).
  - by rewrite kv_apply_app, kv_get_set, decide_True.
Qed.
End refinement.

(** ** Reopening *)

Lemma load_locks_entries (L m0 : gmap bytes bytes) (l : list (bytes * bytes)) :
  (∀ kv, kv ∈ l → ∃ k v, bytes_ok k ∧ L !! k = Some v ∧ kv = (lock_key k, v)) →
  ∃ m, foldM (λ locks '(k, v), '(sKey, _) ← KeyDecodeString k 16; Ok (<[sKey := v]> locks)) m0 l = Ok m ∧
    ∀ k, bytes_ok k → m !! k = if decide (lock_key k ∈ l.*1) then L !! k else m0 !! k.
Proof.
  revert m0. induction l as [|kv l IH]; intros m0 Hl; simpl; [by eexists|].
  destruct (Hl kv) as (k & v & Hk & HL & ->); [left|]. unfold lock_key at 1.
  rewrite <- (app_nil_r (str_bytes k)), KeyDecodeString_app by (by rewrite ?length_EncodeTableKeyPrefix). osimpl.
  destruct (IH (<[k := v]> m0)) as (m & -> & Hm); [intros; apply Hl; by right|].
  exists m. split; [done|]. intros k' Hk'. rewrite Hm by done. cbn [fst].
  destruct (decide (lock_key k' ∈ l.*1)) as [Hin|Hin].
  - rewrite decide_True; [done|]. by apply elem_of_cons; right.
  - destruct (decide (k' = k)) as [->|Hne].
    + rewrite lookup_insert_eq, decide_True; [done|]. apply elem_of_cons; by left.
    + rewrite lookup_insert_ne by done. rewrite decide_False; [done|].
      intros [E|]%elem_of_cons; [|done]. by apply lock_key_inj in E.
Qed.

Lemma locks_scan_perm owner locks db :
  locks_inv owner locks → locks_stored locks db →
  kv_scan db locks_prefix (Some (EncodeTableKeyPrefix (LocksTableID + 1) locksClusterID)) ≡ₚ
    map (λ kl, (lock_key kl.1, kl.2)) (map_to_list locks).
Proof.
  intros [_ _ Hn] [Hk Hg Ho]. apply NoDup_Permutation.
  - pose proof (kv_scan_sorted db locks_prefix (Some (EncodeTableKeyPrefix (LocksTableID + 1) locksClusterID))) as Hs.
    induction Hs as [|x l Hs IH Hx]; constructor; [|done]. intros Hin. rewrite Forall_forall in Hx. by apply (bytes_lt_irrefl x.1), Hx.
  - apply NoDup_fmap_2_strong; [|apply NoDup_map_to_list]. intros [k l] [k' l'] H1%elem_of_map_to_list H2%elem_of_map_to_list [= E ->].
    apply str_bytes_inj in E as ->; [done|by eapply Hn..].
  - intros [k v]. rewrite table_scan_elem by (done || unfold u64_ok, LocksTableID, locksClusterID; lia).
    rewrite list_elem_of_fmap. split.
    + intros [Hv Hp]. destruct (Ho _ _ Hv Hp) as (name & Hname & ->). rewrite Hg in Hv by done.
      exists (name, v). split; [done|]. by apply elem_of_map_to_list.
    + intros ([name l] & [= -> ->] & Hin%elem_of_map_to_list). rewrite Hg by (by eapply Hn). split; [done|]. by eexists.
Qed.

Lemma loadLocks_stored owner locks db :
  locks_inv owner locks → locks_stored locks db → Z.of_nat (size locks) ≤ 2147483647 → loadLocks db = Ok locks.
Proof.
  intros Hinv Hst Hsz. pose proof (locks_scan_perm _ _ _ Hinv Hst) as Hperm. unfold loadLocks, LocalScan, limited.
  rewrite (proj2 (Z.leb_le _ _)), orb_true_r by (by rewrite Hperm, length_map, length_map_to_list).
  set (l := kv_scan _ _ _) in *. destruct Hinv as [_ _ Hn].
  assert (Hl : ∀ kv, kv ∈ l → ∃ k v, bytes_ok k ∧ locks !! k = Some v ∧ kv = (lock_key k, v)).
  { intros kv. rewrite Hperm. intros ([k v] & -> & Hin%elem_of_map_to_list)%list_elem_of_fmap. exists k, v. split; [by eapply Hn|done]. }
  destruct (load_locks_entries locks ∅ l Hl) as (m & Hm & Hget).
  assert (Hok : ∀ k, is_Some (m !! k) → bytes_ok k).
  { refine (foldM_inv (λ m : gmap bytes bytes, ∀ k, is_Some (m !! k) → bytes_ok k) _ _ _ _ _ _ Hm).
    - intros m1 kv m2 Hkv H1. destruct (Hl kv Hkv) as (k & v & Hk & _ & ->). unfold lock_key.
      rewrite <- (app_nil_r (str_bytes k)), KeyDecodeString_app by (by rewrite ?length_EncodeTableKeyPrefix). osimpl.
      intros [= <-] k' [<-|[_ ?]]%lookup_insert_is_Some; eauto.
    - intros k. rewrite lookup_empty. by intros [? [=]]. }
  rewrite Hm. f_equal. apply map_eq. intros k. destruct (decide (bytes_ok k)) as [Hk|Hk].
  - rewrite Hget, lookup_empty by done. case_decide as Hin; [done|]. destruct (locks !! k) as [v|] eqn:E; [|done]. destruct Hin.
    apply list_elem_of_fmap. exists (lock_key k, v). split; [done|]. rewrite Hperm. apply list_elem_of_fmap.
    exists (k, v). split; [done|]. by apply elem_of_map_to_list.
  - destruct (m !! k) eqn:E1; [destruct Hk; apply Hok; by eexists|]. destruct (locks !! k) eqn:E2; [|done]. destruct Hk. by eapply Hn.
Qed.

(** ** Runs *)

(** Successive calls of [Update], each with the orders its loops visit the map in. *)
Fixpoint locks_run (locks : gmap bytes bytes) (db : DB)
    (calls : list ((nat → gmap bytes bytes → list (bytes * bytes)) * list (Z * lock_req))) :
    outcome (gmap bytes bytes * DB * list bytes) :=
  match calls with
  | [] => Ok (locks, db, [])
  | (iter, rs) :: calls =>
      '(locks, db, out) ← locks_Update iter locks db (map lock_entry rs);
      '(locks, db, out') ← locks_run locks db calls;
      Ok (locks, db, out ++ out')
  end.

Definition requests {I} (calls : list (I * list (Z * lock_req))) : list lock_req := (concat calls.*2).*2.

Lemma lock_answers_app a : ∀ locks b, lock_answers locks (a ++ b) = lock_answers locks a ++ lock_answers (lock_steps locks a) b.
Proof. induction a as [|r a IH]; intros locks b; simpl; [done|]. by rewrite IH. Qed.

Lemma locks_run_eq owner calls : ∀ locks db,
  Forall (λ call, (∀ i m, call.1 i m ≡ₚ map_to_list m) ∧ call.2 ≠ [] ∧ Forall (λ r, req_ok owner r.2) call.2) calls →
  locks_inv owner locks → locks_stored locks db →
  ∃ db', locks_run locks db calls = Ok (lock_steps locks (requests calls), db', map setResult (lock_answers locks (requests calls))) ∧
    locks_stored (lock_steps locks (requests calls)) db'.
Proof.
  induction calls as [|[iter rs] calls IH]; intros locks db Hcalls Hinv Hst; [by eexists|].
  apply Forall_cons in Hcalls as [(Hperm & Hne & Hok) Hcalls]. cbn [fst snd] in *. unfold requests. cbn [locks_run fmap list_fmap concat snd].
  destruct (last rs) as [[i0 r0]|] eqn:E; [|by apply last_None in E].
  destruct (locks_Update_eq iter Hperm owner locks db rs i0 r0 E Hok Hinv Hst) as (db1 & -> & Hst1 & _). osimpl.
  destruct (IH (lock_steps locks rs.*2) db1 Hcalls) as (db2 & -> & Hst2); [|done|].
  { apply lock_steps_inv; [|done]. by apply Forall_fmap. }
  osimpl. exists db2. rewrite fmap_app, lock_answers_app, map_app. unfold lock_steps. rewrite foldl_app. done.
Qed.

Lemma lock_answers_lookup rs : ∀ locks i r,
  rs !! i = Some r → lock_answers locks rs !! i = Some (lock_step (lock_steps locks (take i rs)) r).1.
Proof.
  induction rs as [|r' rs IH]; intros locks [|i] r Hi; simplify_eq/=; [done|]. by apply IH.
Qed.

Lemma lock_steps_take rs locks i r :
  rs !! i = Some r → lock_steps locks (take (S i) rs) = (lock_step (lock_steps locks (take i rs)) r).2.
Proof. intros Hi. unfold lock_steps. by rewrite (take_S_r _ _ _ Hi), foldl_snoc. Qed.

Lemma empty_locks owner : locks_inv owner ∅.
Proof. split; intros k; rewrite ?lookup_empty; by try intros k' [? [=]]. Qed.

Lemma empty_locks_stored : locks_stored ∅ kv_empty.
Proof. split; intros k; rewrite ?kv_get_empty, ?lookup_empty; try done; intros v; by rewrite kv_get_empty. Qed.

Lemma GetLock_reply locker prefix b :
  GetLock (λ _, Ok (locksStateMachineUpdatedOK, setResult b)) locker prefix = Ok b.
Proof. by destruct b. Qed.

(** * Properties *)

(** C8. The state machine implements the lock table, whatever the order in which its
    loops visit the map of held locks: every request of a run of log entries gets the
    answer of the contract, the held locks afterwards are those of the contract, they
    are stored with the index of the last entry, and a replica that is reopened on the
    store holds the same locks. Two replicas that visit their maps in different orders
    therefore stay equal. *)
Theorem locks_implement_contract (iter : nat → gmap bytes bytes → list (bytes * bytes)) (owner : bytes → bytes)
    (locks : gmap bytes bytes) (db : DB) (rs : list (Z * lock_req)) (i0 : Z) (r0 : lock_req) :
  (∀ i m, iter i m ≡ₚ map_to_list m) → locks_inv owner locks → locks_stored locks db →
  last rs = Some (i0, r0) → u64_ok i0 → Forall (λ r : Z * lock_req, req_ok owner r.2) rs →
  Z.of_nat (size (lock_steps locks rs.*2)) ≤ 2147483647 →
  ∃ db', locks_Update iter locks db (map lock_entry rs) =
      Ok (lock_steps locks rs.*2, db', map setResult (lock_answers locks rs.*2)) ∧
    locks_inv owner (lock_steps locks rs.*2) ∧ locks_stored (lock_steps locks rs.*2) db' ∧
    locks_Open db' = Ok (lock_steps locks rs.*2, i0).
Proof.
  intros Hiter Hinv Hst Hlast Hi0 Hok Hsz.
  destruct (locks_Update_eq iter Hiter owner locks db rs i0 r0 Hlast Hok Hinv Hst) as (db' & Hrun & Hst' & Hidx).
  assert (Hinv' : locks_inv owner (lock_steps locks rs.*2)) by (apply lock_steps_inv; [by apply Forall_fmap|done]).
  exists db'. split_and!; [done..|]. unfold locks_Open, loadLastProcessedRaftIndex. rewrite Hidx.
  rewrite ReadUint64LE_whole by done. osimpl. by rewrite (loadLocks_stored _ _ _ Hinv' Hst' Hsz).
Qed.

(** C31. Locks exclude each other: over any series of calls from an empty store, once a
    client was told that it got a lock, every other client that asks for the same
    lock, for a prefix of it or for a lock it is a prefix of is told that it did not
    get it, as long as nobody has released the first one in between. *)
Theorem lock_mutual_exclusion (owner : bytes → bytes)
    (calls : list ((nat → gmap bytes bytes → list (bytes * bytes)) * list (Z * lock_req))) :
  Forall (λ call, (∀ i m, call.1 i m ≡ₚ map_to_list m) ∧ call.2 ≠ [] ∧ Forall (λ r, req_ok owner r.2) call.2) calls →
  ∃ locks db out, locks_run ∅ kv_empty calls = Ok (locks, db, out) ∧
    ∀ i j p l p' l' di dj,
      (i < j)%nat → requests calls !! i = Some (ReqGet p l) → requests calls !! j = Some (ReqGet p' l') →
      related p p' → l ≠ l' → Forall (λ r, ∀ x, r ≠ ReqRelease p x) (drop (S i) (take j (requests calls))) →
      out !! i = Some di → out !! j = Some dj →
      GetLock (λ _, Ok (locksStateMachineUpdatedOK, di)) l p = Ok true →
      GetLock (λ _, Ok (locksStateMachineUpdatedOK, dj)) l' p' = Ok false.
Proof.
  intros Hcalls. destruct (locks_run_eq owner calls ∅ kv_empty Hcalls (empty_locks _) empty_locks_stored) as (db & Hrun & _).
  eexists _, db, _. split; [exact Hrun|]. set (rs := requests calls).
  intros i j p l p' l' di dj Hij Hi Hj Hrel Hne Hkeep. rewrite !list_lookup_fmap.
  rewrite (lock_answers_lookup rs ∅ i _ Hi), (lock_answers_lookup rs ∅ j _ Hj). intros [= <-] [= <-].
  rewrite !GetLock_reply. intros [= Htrue]. f_equal.
  assert (Hrs : Forall (req_ok owner) rs).
  { unfold rs, requests. apply Forall_fmap, Forall_concat, Forall_fmap. eapply Forall_impl; [exact Hcalls|]. by intros [] (_ & _ & ?). }
  eapply lock_get_excluded with (owner := owner) (k := p) (l := l); [|by eapply Forall_lookup_1| |done|done].
  - apply lock_steps_inv; [by apply Forall_take|apply empty_locks].
  - rewrite <- (take_drop (S i) (take j rs)), take_take, Nat.min_l by lia.
    unfold lock_steps. rewrite foldl_app. fold (lock_steps ∅ (take (S i) rs)). apply lock_steps_keep; [|done].
    rewrite (lock_steps_take _ _ _ _ Hi). by apply lock_get_true.
Qed.
End locks.

(** Maps are visited in one order or in the reverse order. *)
Definition visit (m : gmap bytes bytes) : list (bytes * bytes) := map_to_list m.
Definition visit_back (m : gmap bytes bytes) : list (bytes * bytes) := reverse (map_to_list m).

(** Two clients want related locks; each locker id is the lock followed by a digit. *)
Definition demo_owner (locker : bytes) : bytes := take (length locker - 1) locker.
Definition demo_reqs : list (Z * lock_req) :=
  [(4, ReqGet (lit "a.b") (lit "a.b1")); (5, ReqGet (lit "a") (lit "a2")); (6, ReqGet (lit "a.c") (lit "a.c3"))].

Lemma demo_reqs_ok : Forall (λ r : Z * lock_req, req_ok demo_owner r.2) demo_reqs.
Proof. repeat constructor; vm_compute; congruence. Qed.

Lemma locks_implement_contract_witness :
  let locks := lock_steps ∅ demo_reqs.*2 in
  ∃ db' : gmap bytes bytes, locks_Update (λ _, visit_back) ∅ kv_empty (map lock_entry demo_reqs) =
      Ok (locks, db', map setResult (lock_answers ∅ demo_reqs.*2)) ∧
    locks_inv demo_owner locks ∧ locks_stored locks db' ∧ locks_Open db' = Ok (locks, 6).
Proof.
  apply (locks_implement_contract (λ _, visit_back) demo_owner ∅ kv_empty demo_reqs 6 (ReqGet (lit "a.c") (lit "a.c3"))).
  - intros _ m. apply reverse_Permutation.
  - apply empty_locks.
  - apply empty_locks_stored.
  - reflexivity.
  - unfold u64_ok. lia.
  - apply demo_reqs_ok.
  - vm_compute. congruence.
Defined.

Lemma lock_mutual_exclusion_witness :
  let calls := [((λ _, visit) : nat → gmap bytes bytes → list (bytes * bytes), demo_reqs)] in
  ∃ locks (db : gmap bytes bytes) out, locks_run ∅ kv_empty calls = Ok (locks, db, out) ∧
    ∀ i j p l p' l' di dj,
      (i < j)%nat → requests calls !! i = Some (ReqGet p l) → requests calls !! j = Some (ReqGet p' l') →
      related p p' → l ≠ l' → Forall (λ r, ∀ x, r ≠ ReqRelease p x) (drop (S i) (take j (requests calls))) →
      out !! i = Some di → out !! j = Some dj →
      GetLock (λ _, Ok (locksStateMachineUpdatedOK, di)) l p = Ok true →
      GetLock (λ _, Ok (locksStateMachineUpdatedOK, dj)) l' p' = Ok false.
Proof.
  intros calls. apply (lock_mutual_exclusion demo_owner calls). apply Forall_singleton. split_and!.
  - intros i m. reflexivity.
  - done.
  - apply demo_reqs_ok.
Defined.
