(* ===== verification/Scheduler.v ===== *)
(** * The shard scheduler

    Models push/sched/scheduler.go: the queues of one shard and the goroutine that works
    on them. Every operation is one critical section of the scheduler's lock, in the
    order the code composes them; [exec] interleaves the calls of other goroutines with
    the steps of the run loop in every possible way.

    The channel [processChannel] holds at most one token. Sending to it while it is full
    blocks the sender with the lock held, which nothing can undo when the loop has
    exited: such a step has the result [Undef]. Sending to it after [Stop] has closed it
    panics. Counters of queued rows and weights are unbounded integers: they count what
    is queued in memory. *)

From stdpp Require Import base list strings gmap.
From Stdlib Require Import ZArith Lia.
From S2P Require Import Prelude Encoding Timestamp Decimal Rows KeyEncoding RowEncoding Store WriteBatch Table LocalStore ShardSM ShardSMProps.

Inductive scheduleChoice :=
  | scheduleChoiceNone
  | scheduleChoiceFillBatch
  | scheduleChoiceProcessBatch
  | scheduleChoiceAction
  | scheduleChoiceForwardBatch.

#[global] Instance scheduleChoice_eq_dec : EqDecision scheduleChoice.
Proof. solve_decision. Defined.

Definition maxFillRun : Z := 4.

(** Completion channels and actions are named by numbers. *)
Record WriteBatchEntry := MkWriteBatchEntry {
  writeBatch : bytes;
  completionChannels : list nat
}.

Record actionEntry := MkActionEntry {
  action : nat;
  weight : Z;
  completionChannel : nat
}.

Record ShardScheduler := MkShardScheduler {
  started : bool;
  failed : bool;
  stopped : bool;
  processorRunning : bool;
  processingPaused : bool;
  q_forwardRows : list ForwardRow;
  q_fillForwardRows : list ForwardRow;
  forwardWrites : list WriteBatchEntry;
  actions : list actionEntry;
  queuedWriteRows : Z;
  queuedActionWeights : Z;
  lastQueuedReceiverSeq : Z;
  lastProcessedReceiverSeq : Z;
  fillRun : Z;
  token : bool;
  channelClosed : bool
}.

(** ** Updating fields *)

Definition upd_run (s : ShardScheduler) (st fl sp pr tk cl : bool) : ShardScheduler :=
  MkShardScheduler st fl sp pr (processingPaused s) (q_forwardRows s) (q_fillForwardRows s) (forwardWrites s) (actions s)
    (queuedWriteRows s) (queuedActionWeights s) (lastQueuedReceiverSeq s) (lastProcessedReceiverSeq s) (fillRun s) tk cl.
Definition upd_paused (s : ShardScheduler) (b : bool) : ShardScheduler :=
  MkShardScheduler (started s) (failed s) (stopped s) (processorRunning s) b (q_forwardRows s) (q_fillForwardRows s)
    (forwardWrites s) (actions s) (queuedWriteRows s) (queuedActionWeights s) (lastQueuedReceiverSeq s)
    (lastProcessedReceiverSeq s) (fillRun s) (token s) (channelClosed s).
Definition upd_rows (s : ShardScheduler) (rows fills : list ForwardRow) (lastQueued run : Z) : ShardScheduler :=
  MkShardScheduler (started s) (failed s) (stopped s) (processorRunning s) (processingPaused s) rows fills
    (forwardWrites s) (actions s) (queuedWriteRows s) (queuedActionWeights s) lastQueued
    (lastProcessedReceiverSeq s) run (token s) (channelClosed s).
Definition upd_writes (s : ShardScheduler) (ws : list WriteBatchEntry) (n : Z) (run : Z) : ShardScheduler :=
  MkShardScheduler (started s) (failed s) (stopped s) (processorRunning s) (processingPaused s) (q_forwardRows s)
    (q_fillForwardRows s) ws (actions s) n (queuedActionWeights s) (lastQueuedReceiverSeq s)
    (lastProcessedReceiverSeq s) run (token s) (channelClosed s).
Definition upd_actions (s : ShardScheduler) (acts : list actionEntry) (w : Z) : ShardScheduler :=
  MkShardScheduler (started s) (failed s) (stopped s) (processorRunning s) (processingPaused s) (q_forwardRows s)
    (q_fillForwardRows s) (forwardWrites s) acts (queuedWriteRows s) w (lastQueuedReceiverSeq s)
    (lastProcessedReceiverSeq s) (fillRun s) (token s) (channelClosed s).
Definition upd_processed (s : ShardScheduler) (q : Z) : ShardScheduler :=
  MkShardScheduler (started s) (failed s) (stopped s) (processorRunning s) (processingPaused s) (q_forwardRows s)
    (q_fillForwardRows s) (forwardWrites s) (actions s) (queuedWriteRows s) (queuedActionWeights s) (lastQueuedReceiverSeq s)
    q (fillRun s) (token s) (channelClosed s).

(** ** Operations *)

Definition NewShardScheduler : ShardScheduler :=
  MkShardScheduler false false false false false [] [] [] [] 0 0 0 0 0 false false.

(** [s.processChannel <- struct{}{}], keeping the other flags. *)
Definition sendToken (s : ShardScheduler) : outcome ShardScheduler :=
  if channelClosed s then Panic "send on closed channel"
  else if token s then Undef
  else Ok (upd_run s (started s) (failed s) (stopped s) (processorRunning s) true (channelClosed s)).

Definition setRunning (s : ShardScheduler) (b : bool) : ShardScheduler :=
  upd_run s (started s) (failed s) (stopped s) b (token s) (channelClosed s).

Definition maybeStartRunning (s : ShardScheduler) : outcome ShardScheduler :=
  if started s && negb (processorRunning s) then
    s ← sendToken s;
    Ok (setRunning s true)
  else Ok s.

Definition getNumPuts (batch : bytes) : outcome Z :=
  '(numPuts, _) ← ReadUint32FromBufferLE batch 3;
  Ok numPuts.

Definition AddAction (s : ShardScheduler) (act : nat) (w : Z) (ch : nat) : outcome ShardScheduler :=
  if failed s then Err "cannot add action, scheduler is failed"
  else if stopped s then Err "cannot add action, scheduler has stopped"
  else maybeStartRunning (upd_actions s (actions s ++ [MkActionEntry act w ch]) (queuedActionWeights s + w)).

Definition addForwardBatch (s : ShardScheduler) (wb : bytes) (ch : nat) : outcome ShardScheduler :=
  if failed s then Err "cannot add forward batch, scheduler is failed"
  else if stopped s then Err "cannot add forward batch, scheduler has stopped"
  else
    numPuts ← getNumPuts wb;
    maybeStartRunning (upd_writes s (forwardWrites s ++ [MkWriteBatchEntry wb [ch]]) (queuedWriteRows s + numPuts) (fillRun s)).

Definition AddRows (s : ShardScheduler) (rows : list ForwardRow) : outcome ShardScheduler :=
  if failed s then Ok s
  else if stopped s then Ok s
  else
    let '(rs, fs) := foldl (λ '(rs, fs) row, if Fill row then (rs, fs ++ [row]) else (rs ++ [row], fs))
                       (q_forwardRows s, q_fillForwardRows s) rows in
    let lastQueued := match last rs with Some row => ReceiverSequence row | None => lastQueuedReceiverSeq s end in
    maybeStartRunning (upd_rows s rs fs lastQueued (fillRun s)).

Definition PauseProcessing (s : ShardScheduler) : ShardScheduler := upd_paused s true.
Definition ResumeProcessing (s : ShardScheduler) : outcome ShardScheduler := maybeStartRunning (upd_paused s false).

Definition unblockWaitingWrites (s : ShardScheduler) : outcome (list nat) :=
  mapM_o (λ fw, index (completionChannels fw) 0) (forwardWrites s).

(** Called on an unretryable error; also gives the channels that get the error. *)
Definition setFailed (s : ShardScheduler) : outcome (ShardScheduler * list nat) :=
  if failed s || stopped s then Ok (s, [])
  else
    chs ← unblockWaitingWrites s;
    Ok (upd_run s (started s) true true false (token s) (channelClosed s), chs).

Definition Start (s : ShardScheduler) : outcome ShardScheduler :=
  if started s then Ok s
  else
    s ← sendToken s;
    Ok (upd_run s true (failed s) (stopped s) true (token s) (channelClosed s)).

(** The critical section of [Stop]; it then waits for the loop to exit. *)
Definition Stop (s : ShardScheduler) : outcome (ShardScheduler * list nat) :=
  if negb (started s) then Ok (s, [])
  else if channelClosed s then Panic "close of closed channel"
  else
    chs ← (if failed s then Ok [] else unblockWaitingWrites s);
    Ok (upd_run s false (failed s) true false (token s) true, chs).

Section limits.
Variables maxProcessBatchSize maxForwardWriteBatchSize : Z.

Definition getAction (s : ShardScheduler) : outcome (actionEntry * ShardScheduler) :=
  match actions s with
  | [] => Panic "index out of range"
  | entry :: rest => Ok (entry, upd_actions s rest (queuedActionWeights s - weight entry))
  end.

Definition batchLen (n : nat) : nat :=
  if maxProcessBatchSize <? Z.of_nat n then Z.to_nat maxProcessBatchSize else n.

Definition getRowsToProcess (s : ShardScheduler) : list ForwardRow * ShardScheduler :=
  let numRows := batchLen (length (q_forwardRows s)) in
  (take numRows (q_forwardRows s),
   upd_rows s (drop numRows (q_forwardRows s)) (q_fillForwardRows s) (lastQueuedReceiverSeq s) (fillRun s)).

Definition getFillRowsToProcess (s : ShardScheduler) : list ForwardRow * ShardScheduler :=
  let numRows := batchLen (length (q_fillForwardRows s)) in
  (take numRows (q_fillForwardRows s),
   upd_rows s (q_forwardRows s) (drop numRows (q_fillForwardRows s)) (lastQueuedReceiverSeq s) (fillRun s)).

(** The loop that combines write batches: the combined bytes, the number of puts, the
    number of batches and their channels. *)
Fixpoint combineWrites (l : list WriteBatchEntry) (combined : bytes) (entries : Z) (nextBatchIndex : Z) (chs : list nat) :
    outcome (bytes * Z * Z * list nat) :=
  match l with
  | [] => Ok (combined, entries, nextBatchIndex, chs)
  | batch :: l =>
      let nextBatchIndex := nextBatchIndex + 1 in
      numPuts ← getNumPuts (writeBatch batch);
      body ← slice_from (writeBatch batch) 3;
      let combined := combined ++ body in
      let entries := entries + numPuts in
      ch ← index (completionChannels batch) 0;
      let chs := chs ++ [ch] in
      if (maxForwardWriteBatchSize <=? entries) || (nextBatchIndex =? 255) then Ok (combined, entries, nextBatchIndex, chs)
      else combineWrites l combined entries nextBatchIndex chs
  end.

Definition getForwardWriteBatch (s : ShardScheduler) : outcome (WriteBatchEntry * ShardScheduler) :=
  if negb (length (forwardWrites s) =? 1)%nat then
    first ← index (forwardWrites s) 0;
    '(combinedEntries, entries, nextBatchIndex, chs) ← combineWrites (forwardWrites s) [] 0 0 [];
    b0 ← index (writeBatch first) 0;
    b1 ← index (writeBatch first) 1;
    let bigBatch := [b0; b1; u8 nextBatchIndex] ++ combinedEntries in
    if (length (forwardWrites s) <? Z.to_nat nextBatchIndex)%nat then Panic "slice bounds out of range"
    else
      Ok (MkWriteBatchEntry bigBatch chs,
          upd_writes s (drop (Z.to_nat nextBatchIndex) (forwardWrites s)) (queuedWriteRows s - entries) (fillRun s))
  else
    batch ← index (forwardWrites s) 0;
    numPuts ← getNumPuts (writeBatch batch);
    Ok (batch, upd_writes s (tail (forwardWrites s)) (queuedWriteRows s - numPuts) (fillRun s)).

Definition set_fillRun (s : ShardScheduler) (run : Z) : ShardScheduler :=
  upd_rows s (q_forwardRows s) (q_fillForwardRows s) (lastQueuedReceiverSeq s) run.

(** What kind of work is chosen. *)
Definition chooseWork (s : ShardScheduler) : scheduleChoice :=
  let numActions := queuedActionWeights s in
  let numToProcess := Z.of_nat (length (q_forwardRows s)) in
  let numFillsToProcess := Z.of_nat (length (q_fillForwardRows s)) in
  let numForwardWrites := queuedWriteRows s in
  let choice :=
    if negb (processingPaused s) && ((numActions <? numToProcess) || (numForwardWrites <? numToProcess)) then scheduleChoiceProcessBatch
    else if 0 <? numActions then scheduleChoiceAction
    else if 0 <? numForwardWrites then scheduleChoiceForwardBatch
    else scheduleChoiceNone in
  if (0 <? numFillsToProcess) && ((fillRun s <? maxFillRun) || bool_decide (choice = scheduleChoiceNone))
  then scheduleChoiceFillBatch else choice.

(** Something is queued that the loop should work on. *)
Definition moreWork (s : ShardScheduler) : bool :=
  (0 <? queuedWriteRows s) || (0 <? length (actions s))%nat || (0 <? length (q_fillForwardRows s))%nat
    || (negb (processingPaused s) && (0 <? length (q_forwardRows s))%nat).

(** The work a round of the loop takes. *)
Inductive work :=
  | WFirst
  | WNothing
  | WRows (rows : list ForwardRow)
  | WWrite (entry : WriteBatchEntry)
  | WAction (entry : actionEntry).

Definition getNextBatch (s : ShardScheduler) : outcome (work * bool * ShardScheduler) :=
  let choice := chooseWork s in
  if bool_decide (choice = scheduleChoiceNone) &&
       ((0 <? queuedActionWeights s) || (0 <? queuedWriteRows s) || (0 <? length (q_fillForwardRows s))%nat
          || (negb (processingPaused s) && (0 <? length (q_forwardRows s))%nat))
  then Panic "work to process but none chosen"
  else
    '(w, s) ←
      (match choice with
       | scheduleChoiceFillBatch =>
           let '(rows, s) := getFillRowsToProcess s in Ok (WRows rows, set_fillRun s (fillRun s + 1))
       | scheduleChoiceProcessBatch =>
           let '(rows, s) := getRowsToProcess s in Ok (WRows rows, set_fillRun s 0)
       | scheduleChoiceAction => '(a, s) ← getAction s; Ok (WAction a, s)
       | scheduleChoiceForwardBatch => '(wb, s) ← getForwardWriteBatch s; Ok (WWrite wb, set_fillRun s 0)
       | scheduleChoiceNone => Ok (WNothing, s)
       end);
    let more := moreWork s in
    Ok (w, more, if more then s else setRunning s false).

(** Rows at the front that were already processed are skipped; fill rows come out of
    order and are not counted. *)
Fixpoint dropProcessed (lastProcessed : Z) (rows : list ForwardRow) : list ForwardRow :=
  match rows with
  | [] => []
  | row :: rest => if lastProcessed <? ReceiverSequence row then rows else dropProcessed lastProcessed rest
  end.

Definition rowsToHandle (s : ShardScheduler) (rows : list ForwardRow) : list ForwardRow :=
  match rows with
  | [] => []
  | row :: _ => if Fill row then rows else dropProcessed (lastProcessedReceiverSeq s) rows
  end.

(** [processBatch] after the handler has returned: [result] is the last sequence it
    processed, or nothing when it failed. *)
Definition processBatch (s : ShardScheduler) (fill : bool) (result : option Z) : outcome (bool * ShardScheduler * list nat) :=
  match result with
  | None => '(s, chs) ← setFailed s; Ok (false, s, chs)
  | Some lastSequence =>
      Ok (true, if negb fill && negb (lastSequence =? -1) then upd_processed s (u64 lastSequence) else s, [])
  end.

(** ** The run loop and its callers *)

(** Where the goroutine of [runLoop] is: before [Start], waiting for a token, holding one
    at the start of a round, working, at the end of a round, gone. *)
Inductive loop_pc :=
  | NotRunning
  | Waiting
  | Took
  | Working (w : work) (more : bool)
  | Finishing (more : bool)
  | Exited.

(** The scheduler, its goroutine, and the history: what was accepted for each queue, the
    work [getNextBatch] handed to the loop, oldest first, and the replies sent on
    completion channels ([true]: success). *)
Record Sys := MkSys {
  sys : ShardScheduler;
  pc : loop_pc;
  first : bool;
  added_rows : list ForwardRow;
  added_fills : list ForwardRow;
  added_writes : list WriteBatchEntry;
  added_actions : list actionEntry;
  handed : list work;
  replies : list (nat * bool)
}.

Definition initial : Sys := MkSys NewShardScheduler NotRunning true [] [] [] [] [] [].

Definition with_sys (y : Sys) (s : ShardScheduler) (c : loop_pc) : Sys :=
  MkSys s c (first y) (added_rows y) (added_fills y) (added_writes y) (added_actions y) (handed y) (replies y).
Definition with_replies (y : Sys) (chs : list nat) (ok : bool) : Sys :=
  MkSys (sys y) (pc y) (first y) (added_rows y) (added_fills y) (added_writes y) (added_actions y) (handed y)
    (replies y ++ map (λ ch, (ch, ok)) chs).

(** What can happen next. [LDone] carries what the handler, the forward write or the
    action answered: the last sequence processed, or nothing for an error. *)
Inductive label :=
  | LAddAction (act : nat) (w : Z) (ch : nat)
  | LAddForwardBatch (wb : bytes) (ch : nat)
  | LAddRows (rows : list ForwardRow)
  | LPauseProcessing
  | LResumeProcessing
  | LStart
  | LStop
  | LTake
  | LNext
  | LDone (result : option Z)
  | LTail.

(** The end of [innerLoop]: [more] is passed on, or the loop exits. *)
Definition leave (y : Sys) (ok more : bool) (s : ShardScheduler) (chs : list nat) : Sys :=
  with_replies (with_sys y s (if ok then Finishing more else Exited)) chs false.

Definition doWork (y : Sys) (w : work) (more : bool) (result : option Z) : outcome Sys :=
  let s := sys y in
  match w with
  | WFirst =>
      '(ok, s, chs) ← processBatch s false result;
      Ok (leave y ok more s chs)
  | WNothing => Ok (with_sys y s (Finishing more))
  | WAction a =>
      Ok (with_replies (with_sys y s (Finishing more)) [completionChannel a] (match result with Some _ => true | None => false end))
  | WRows rows =>
      if (length (rowsToHandle s rows) =? 0)%nat then Ok (with_sys y s (Finishing more))
      else
        '(ok, s, chs) ← processBatch s (match rows with [] => false | row :: _ => Fill row end) result;
        Ok (leave y ok more s chs)
  | WWrite entry =>
      match result with
      | Some _ => Ok (with_replies (with_sys y s (Finishing more)) (completionChannels entry) true)
      | None =>
          let y := with_replies y (completionChannels entry) false in
          '(s, chs) ← setFailed s;
          Ok (leave y false more s chs)
      end
  end.

(** Taking work, with the history. *)
Definition takeWork (y : Sys) : outcome Sys :=
  let s := sys y in
  '(w, more, s') ← getNextBatch s;
  Ok (MkSys s' (Working w more) (first y) (added_rows y) (added_fills y) (added_writes y) (added_actions y)
        (handed y ++ [w]) (replies y)).

(** One step; [None] when it cannot happen now. [PauseProcessing] waits for the lock that
    the loop holds during a round. An operation that returns an error changes nothing. *)
Definition exec (y : Sys) (l : label) : option (outcome Sys) :=
  let s := sys y in
  let idle := match pc y with Took | Working _ _ => false | _ => true end in
  match l with
  | LAddAction act w ch =>
      Some (match AddAction s act w ch with
            | Ok s' =>
                Ok (MkSys s' (pc y) (first y) (added_rows y) (added_fills y) (added_writes y)
                      (added_actions y ++ [MkActionEntry act w ch]) (handed y) (replies y))
            | Err _ => Ok y | Panic e => Panic e | Undef => Undef end)
  | LAddForwardBatch wb ch =>
      Some (match addForwardBatch s wb ch with
            | Ok s' =>
                Ok (MkSys s' (pc y) (first y) (added_rows y) (added_fills y) (added_writes y ++ [MkWriteBatchEntry wb [ch]])
                      (added_actions y) (handed y) (replies y))
            | Err _ => Ok y | Panic e => Panic e | Undef => Undef end)
  | LAddRows rows =>
      Some (s' ← AddRows s rows;
            let ok := negb (failed s) && negb (stopped s) in
            Ok (MkSys s' (pc y) (first y)
                  (added_rows y ++ if ok then filter (λ r, Fill r = false) rows else [])
                  (added_fills y ++ if ok then filter (λ r, Fill r = true) rows else []) (added_writes y)
                  (added_actions y) (handed y) (replies y)))
  | LPauseProcessing => if idle then Some (Ok (with_sys y (PauseProcessing s) (pc y))) else None
  | LResumeProcessing => Some (s' ← ResumeProcessing s; Ok (with_sys y s' (pc y)))
  | LStart => Some (s' ← Start s; Ok (with_sys y s' (if started s then pc y else Waiting)))
  | LStop => Some ('(s', chs) ← Stop s; Ok (with_replies (with_sys y s' (pc y)) chs false))
  | LTake =>
      match pc y with
      | Waiting =>
          if token s then
            Some (Ok (with_sys y (upd_run s (started s) (failed s) (stopped s) (processorRunning s) false (channelClosed s)) Took))
          else if channelClosed s then Some (Ok (with_sys y s Exited))
          else None
      | _ => None
      end
  | LNext =>
      match pc y with
      | Took => Some (if first y then Ok (with_sys y s (Working WFirst true)) else takeWork y)
      | _ => None
      end
  | LDone result => match pc y with Working w more => Some (doWork y w more result) | _ => None end
  | LTail =>
      match pc y with
      | Finishing more =>
          Some (s' ← (if negb (stopped s) && more then sendToken s else Ok s);
                Ok (MkSys s' Waiting false (added_rows y) (added_fills y) (added_writes y)
                      (added_actions y) (handed y) (replies y)))
      | _ => None
      end
  end.

(** ** Reachable states *)

(** A queued forward write: at least one put, one channel. *)
Definition write_ok (e : WriteBatchEntry) : Prop :=
  (7 ≤ length (writeBatch e))%nat ∧ ∃ n ch, getNumPuts (writeBatch e) = Ok n ∧ 0 < n ∧ completionChannels e = [ch].

(** Callers give actions a positive weight, forward batches at least one put, and do
    not start a scheduler that was stopped. *)
Definition label_ok (y : Sys) (l : label) : Prop :=
  match l with
  | LAddAction _ w _ => 0 < w
  | LAddForwardBatch wb ch => write_ok (MkWriteBatchEntry wb [ch])
  | LStart => stopped (sys y) = false
  | _ => True
  end.

Inductive reachable : Sys → Prop :=
  | reach_initial : reachable initial
  | reach_step y l y' : reachable y → label_ok y l → exec y l = Some (Ok y') → reachable y'.

(** ** The queues *)

Definition num_puts (e : WriteBatchEntry) : Z := match getNumPuts (writeBatch e) with Ok n => n | _ => 0 end.
Definition sum_puts (l : list WriteBatchEntry) : Z := foldr (λ e n, num_puts e + n) 0 l.
Definition sum_weights (l : list actionEntry) : Z := foldr (λ a n, weight a + n) 0 l.

(** The rows, actions and forward writes of a piece of work. *)
Definition work_rows (w : work) : list ForwardRow := match w with WRows rows => rows | _ => [] end.
Definition work_actions (w : work) : list actionEntry := match w with WAction a => [a] | _ => [] end.
Definition work_writes (w : work) : list WriteBatchEntry := match w with WWrite e => [e] | _ => [] end.

(** What has been handed to the loop, oldest first. *)
Definition handed_rows (y : Sys) : list ForwardRow := filter (λ r, Fill r = false) (concat (map work_rows (handed y))).
Definition handed_fills (y : Sys) : list ForwardRow := filter (λ r, Fill r = true) (concat (map work_rows (handed y))).
Definition handed_actions (y : Sys) : list actionEntry := concat (map work_actions (handed y)).
Definition handed_writes (y : Sys) : list WriteBatchEntry := concat (map work_writes (handed y)).

(** The puts and deletes of some forward writes, without the three bytes of their
    headers, and the channels waiting for them: what combining keeps. *)
Definition bodies (l : list WriteBatchEntry) : bytes := concat (map (λ e, drop 3 (writeBatch e)) l).
Definition channels (l : list WriteBatchEntry) : list nat := concat (map completionChannels l).

Record queues_ok (s : ShardScheduler) : Prop := {
  qo_rows : Forall (λ r, Fill r = false) (q_forwardRows s);
  qo_fills : Forall (λ r, Fill r = true) (q_fillForwardRows s);
  qo_writes : Forall write_ok (forwardWrites s);
  qo_puts : queuedWriteRows s = sum_puts (forwardWrites s);
  qo_actions : Forall (λ a, 0 < weight a) (actions s);
  qo_weights : queuedActionWeights s = sum_weights (actions s)
}.

Lemma sum_puts_app a b : sum_puts (a ++ b) = sum_puts a + sum_puts b.
Proof. induction a as [|e a IH]; simpl; [done|]. rewrite IH. lia. Qed.

Lemma sum_weights_app a b : sum_weights (a ++ b) = sum_weights a + sum_weights b.
Proof. induction a as [|e a IH]; simpl; [done|]. rewrite IH. lia. Qed.

Lemma sum_puts_pos l : Forall write_ok l → 0 ≤ sum_puts l ∧ (sum_puts l = 0 → l = []).
Proof.
  induction 1 as [|e l (_ & n & ch & Hn & Hpos & _) _ [IH1 IH2]]; simpl; [done|]. unfold num_puts. rewrite Hn. split; lia.
Qed.

Lemma sum_weights_pos l : Forall (λ a, 0 < weight a) l → 0 ≤ sum_weights l ∧ (sum_weights l = 0 → l = []).
Proof. induction 1 as [|e l Hw _ [IH1 IH2]]; simpl; [done|]. split; lia. Qed.

(** ** The choice of work *)

Hypothesis Hmax : 1 ≤ maxProcessBatchSize.

Definition queued (s : ShardScheduler) : nat :=
  (length (q_forwardRows s) + length (q_fillForwardRows s) + length (forwardWrites s) + length (actions s))%nat.

Lemma batchLen_pos n : (0 < n)%nat → (0 < batchLen n ≤ n)%nat.
Proof. unfold batchLen. destruct (Z.ltb_spec maxProcessBatchSize (Z.of_nat n)); lia. Qed.

Lemma batchLen_le n : (batchLen n ≤ n)%nat.
Proof. unfold batchLen. destruct (Z.ltb_spec maxProcessBatchSize (Z.of_nat n)); lia. Qed.

Lemma filter_same {A} (P : A → Prop) `{!∀ x, Decision (P x)} l : Forall P l → filter P l = l.
Proof. induction 1; [done|]. rewrite filter_cons_True by done. by f_equal. Qed.

Lemma filter_other {A} (P Q : A → Prop) `{!∀ x, Decision (P x)} l : (∀ x, Q x → ¬ P x) → Forall Q l → filter P l = [].
Proof. intros HPQ. induction 1; [done|]. rewrite filter_cons_False by auto. done. Qed.

(** Combining takes a nonempty prefix of the queue, at most 255 batches. *)
Lemma combineWrites_eq l : ∀ combined entries idx chs,
  Forall write_ok l → 0 ≤ idx < 255 →
  ∃ n, (length l = 0 ∨ 0 < n)%nat ∧ (n ≤ length l)%nat ∧ idx + Z.of_nat n ≤ 255 ∧
    combineWrites l combined entries idx chs =
      Ok (combined ++ concat (map (λ e, drop 3 (writeBatch e)) (take n l)), entries + sum_puts (take n l),
          idx + Z.of_nat n, chs ++ concat (map completionChannels (take n l))).
Proof.
  induction l as [|e l IH]; intros combined entries idx chs Hok Hidx.
  { exists 0%nat. simpl. rewrite !app_nil_r, !Z.add_0_r. split_and!; [by left|lia|lia|done]. }
  apply Forall_cons in Hok as [(Hlen & n & ch & Hn & Hpos & Hch) Hok]. simpl. rewrite Hn. osimpl.
  assert (Hnp : num_puts e = n) by (unfold num_puts; by rewrite Hn).
  rewrite slice_from_ok by lia. osimpl. rewrite Hch. change (index [ch] 0) with (Ok ch). osimpl.
  destruct (_ || _) eqn:Estop.
  - exists 1%nat. simpl. rewrite Hnp, Hch, !app_nil_r, Z.add_0_r. split_and!; [by right; lia|lia|lia|done].
  - apply orb_false_iff in Estop as [_ H255%Z.eqb_neq].
    destruct (IH (combined ++ drop 3 (writeBatch e)) (entries + n) (idx + 1) (chs ++ [ch]) Hok) as (k & Hk & Hk1 & Hk2 & ->); [lia|].
    exists (S k). simpl. rewrite Hnp, Hch, <- !app_assoc. split_and!; [by right; lia|lia|lia|].
    rewrite Z.add_assoc. replace (idx + 1 + Z.of_nat k) with (idx + Z.of_nat (S k)) by lia. done.
Qed.

(** The batch made of some queued writes: the header of the first, their number, and
    their bodies. *)
Definition combined (l : list WriteBatchEntry) : WriteBatchEntry :=
  MkWriteBatchEntry (take 2 (default [] (writeBatch <$> head l)) ++ [Z.of_nat (length l)] ++ concat (map (λ e, drop 3 (writeBatch e)) l))
    (concat (map completionChannels l)).

Lemma getForwardWriteBatch_eq s :
  queues_ok s → forwardWrites s ≠ [] →
  ∃ n entry, (0 < n ≤ length (forwardWrites s))%nat ∧ (n ≤ 255)%nat ∧
    getForwardWriteBatch s = Ok (entry, upd_writes s (drop n (forwardWrites s)) (sum_puts (drop n (forwardWrites s))) (fillRun s)) ∧
    (if decide (length (forwardWrites s) = 1%nat) then forwardWrites s = [entry] else entry = combined (take n (forwardWrites s))).
Proof.
  intros [_ _ Hw Hp _ _] Hne. unfold getForwardWriteBatch. rewrite Hp. destruct (forwardWrites s) as [|e l] eqn:El; [done|].
  pose proof Hw as [(Hlen & k & ch & Hk & Hpos & Hch) _]%Forall_cons. change (index (e :: l) 0) with (Ok e).
  destruct (Nat.eqb_spec (length (e :: l)) 1) as [E1|E1]; cbn [negb]; osimpl.
  - destruct l; [|done]. rewrite Hk. osimpl. exists 1%nat, e. split_and!; [simpl; lia..| |by rewrite decide_True].
    simpl. unfold num_puts. rewrite Hk. do 3 f_equal. lia.
  - destruct (combineWrites_eq (e :: l) [] 0 0 [] Hw) as (n & Hn & Hn1 & Hn2 & ->); [lia|].
    destruct Hn as [|Hn]; [done|]. osimpl.
    destruct (writeBatch e) as [|b0 [|b1 wb]] eqn:Ewb; [simpl in Hlen; lia..|].
    change (index (b0 :: b1 :: wb) 0) with (Ok b0). change (index (b0 :: b1 :: wb) 1) with (Ok b1). osimpl.
    rewrite Z.add_0_l, Nat2Z.id. rewrite (proj2 (Nat.ltb_ge _ _)) by lia.
    exists n. eexists. split_and!; [lia..| |].
    + f_equal. f_equal. f_equal. rewrite <- (take_drop n (e :: l)) at 1. rewrite sum_puts_app. lia.
    + rewrite decide_False by done. unfold combined. destruct n as [|n]; [lia|]. simpl. rewrite Ewb. simpl.
      f_equal. do 3 f_equal. unfold u8. rewrite Z.mod_small by lia. rewrite length_take_le by (simpl in *; lia). done.
Qed.

(** One choice of work: it never fails, hands over a prefix of at most one queue, keeps
    the counters right, and takes something when there is work. *)
Definition same_control (s s' : ShardScheduler) : Prop :=
  started s' = started s ∧ failed s' = failed s ∧ stopped s' = stopped s ∧ token s' = token s ∧
  channelClosed s' = channelClosed s ∧ processingPaused s' = processingPaused s.

Record next_ok (s : ShardScheduler) (w : work) (s' : ShardScheduler) : Prop := {
  no_queues : queues_ok s';
  no_control : same_control s s';
  no_rows : q_forwardRows s = filter (λ r, Fill r = false) (work_rows w) ++ q_forwardRows s';
  no_fills : q_fillForwardRows s = filter (λ r, Fill r = true) (work_rows w) ++ q_fillForwardRows s';
  no_actions : actions s = work_actions w ++ actions s';
  no_bodies : bodies (forwardWrites s) = bodies (work_writes w) ++ bodies (forwardWrites s');
  no_channels : channels (forwardWrites s) = channels (work_writes w) ++ channels (forwardWrites s');
  no_progress : moreWork s = true → (queued s' < queued s)%nat
}.

Lemma next_ok_refl s : queues_ok s → moreWork s = false → next_ok s WNothing s.
Proof. intros Hq Hm. split; [done|by split_and!|done..|congruence]. Qed.

Lemma next_ok_rows s run :
  queues_ok s → q_forwardRows s ≠ [] →
  next_ok s (WRows (getRowsToProcess s).1) (set_fillRun (getRowsToProcess s).2 run).
Proof.
  intros [Hr Hf ? ? ? ?] Hne. unfold getRowsToProcess, set_fillRun. simpl.
  pose proof (Forall_take _ (batchLen (length (q_forwardRows s))) _ Hr) as Ht.
  split; simpl; [split; try done; by apply Forall_drop|by split_and!| | |done..|].
  - by rewrite filter_same, take_drop.
  - rewrite (filter_other _ (λ r, Fill r = false)); [done|congruence|done].
  - intros _. unfold queued. simpl. rewrite length_drop. destruct (q_forwardRows s) as [|r l]; [done|].
    pose proof (batchLen_pos (length (r :: l))). simpl length in *. lia.
Qed.

Lemma next_ok_fills s run :
  queues_ok s → q_fillForwardRows s ≠ [] →
  next_ok s (WRows (getFillRowsToProcess s).1) (set_fillRun (getFillRowsToProcess s).2 run).
Proof.
  intros [Hr Hf ? ? ? ?] Hne. unfold getFillRowsToProcess, set_fillRun. simpl.
  pose proof (Forall_take _ (batchLen (length (q_fillForwardRows s))) _ Hf) as Ht.
  split; simpl; [split; try done; by apply Forall_drop|by split_and!| | |done..|].
  - rewrite (filter_other _ (λ r, Fill r = true)); [done|congruence|done].
  - by rewrite filter_same, take_drop.
  - intros _. unfold queued. simpl. rewrite length_drop. destruct (q_fillForwardRows s) as [|r l]; [done|].
    pose proof (batchLen_pos (length (r :: l))). simpl length in *. lia.
Qed.

Lemma next_ok_running s w s' b : next_ok s w s' → next_ok s w (setRunning s' b).
Proof. intros [[] [] ? ? ? ? ? ?]. split; done. Qed.

Lemma moreWork_spec s :
  queues_ok s →
  moreWork s = true ↔
    forwardWrites s ≠ [] ∨ actions s ≠ [] ∨ q_fillForwardRows s ≠ [] ∨ (processingPaused s = false ∧ q_forwardRows s ≠ []).
Proof.
  intros [_ _ Hw Hp _ _]. unfold moreWork. rewrite !orb_true_iff, andb_true_iff, negb_true_iff, !Nat.ltb_lt, Z.ltb_lt, Hp.
  pose proof (sum_puts_pos _ Hw) as [Hge H0].
  assert (0 < sum_puts (forwardWrites s) ↔ forwardWrites s ≠ []) as ->.
  { split; [intros ? E; rewrite E in *; simpl in *; lia|]. intros Hne. destruct (Z.eq_dec (sum_puts (forwardWrites s)) 0); [naive_solver|lia]. }
  assert (Hl : ∀ {A} (l : list A), (0 < length l)%nat ↔ l ≠ []) by (intros A [|]; simpl; split; (lia || done)).
  rewrite !Hl. tauto.
Qed.

(** The choice is work that is there, and nothing only when there is none. *)
Lemma chooseWork_spec s :
  queues_ok s →
  match chooseWork s with
  | scheduleChoiceNone => moreWork s = false
  | scheduleChoiceFillBatch => q_fillForwardRows s ≠ []
  | scheduleChoiceProcessBatch => q_forwardRows s ≠ []
  | scheduleChoiceAction => actions s ≠ []
  | scheduleChoiceForwardBatch => forwardWrites s ≠ []
  end.
Proof.
  intros Hq. pose proof Hq as [_ _ Hw Hp Ha Hs]. pose proof (sum_puts_pos _ Hw) as [Pge P0]. pose proof (sum_weights_pos _ Ha) as [Wge W0].
  assert (Hrows : q_forwardRows s = [] ∨ q_forwardRows s ≠ [] ∧ 0 < Z.of_nat (length (q_forwardRows s)))
    by (destruct (q_forwardRows s); [by left|right; simpl; split; [done|lia]]).
  unfold chooseWork. rewrite Hp, Hs. set (choice := if negb (processingPaused s) && _ then _ else _).
  destruct ((0 <? Z.of_nat (length (q_fillForwardRows s))) && _) eqn:Ef.
  { apply andb_true_iff in Ef as [Ef%Z.ltb_lt _]. intros E. rewrite E in Ef. simpl in Ef. lia. }
  assert (Hnone : choice = scheduleChoiceNone → q_fillForwardRows s = []).
  { intros E. rewrite E, bool_decide_true, orb_true_r, andb_true_r in Ef by done. apply Z.ltb_ge in Ef.
    destruct (q_fillForwardRows s); [done|simpl in Ef; lia]. }
  clear Ef. unfold choice in *. clear choice. destruct (negb (processingPaused s) && _) eqn:Ec.
  - apply andb_true_iff in Ec as [_ Ec]. rewrite orb_true_iff, !Z.ltb_lt in Ec. destruct Hrows as [E|[? _]]; [|done].
    rewrite E in Ec. simpl in Ec. lia.
  - destruct (Z.ltb_spec 0 (sum_weights (actions s))); [intros E; rewrite E in *; simpl in *; lia|].
    destruct (Z.ltb_spec 0 (sum_puts (forwardWrites s))); [intros E; rewrite E in *; simpl in *; lia|].
    apply not_true_iff_false. rewrite moreWork_spec by done. rewrite Hnone, W0, P0 by (done || lia).
    apply andb_false_iff in Ec. rewrite negb_false_iff, orb_false_iff, !Z.ltb_ge in Ec.
    intros [?|[?|[?|[??]]]]; try done. destruct Hrows as [|[_ ?]]; [done|]. destruct Ec as [|[? ?]]; [congruence|lia].
Qed.

Lemma next_ok_action s a s1 :
  queues_ok s → getAction s = Ok (a, s1) → next_ok s (WAction a) s1.
Proof.
  intros [Hr Hf Hw Hp Ha Hs]. unfold getAction. destruct (actions s) as [|a0 l] eqn:E; [done|]. intros [= -> <-].
  apply Forall_cons in Ha as [? Ha]. split; simpl; try done; try by split_and!.
  - split; simpl; try done. rewrite Hs. simpl. lia.
  - intros _. unfold queued. simpl. rewrite E. simpl. lia.
Qed.

Lemma bodies_app a b : bodies (a ++ b) = bodies a ++ bodies b.
Proof. unfold bodies. by rewrite map_app, concat_app. Qed.

Lemma channels_app a b : channels (a ++ b) = channels a ++ channels b.
Proof. unfold channels. by rewrite map_app, concat_app. Qed.

(** Combining keeps the bodies and the channels. *)
Lemma combined_content l :
  l ≠ [] → Forall write_ok l → bodies [combined l] = bodies l ∧ channels [combined l] = channels l.
Proof.
  intros Hne Hok. destruct Hok as [|e l [Hlen _] _]; [done|]. unfold bodies, channels, combined. cbn [map concat writeBatch completionChannels head].
  rewrite !app_nil_r. split; [|done]. destruct (writeBatch e) as [|b0 [|b1 wb]] eqn:Ewb; [simpl in Hlen; lia..|]. cbn [take app drop fmap option_fmap option_map default]. by rewrite Ewb.
Qed.

Lemma next_ok_write s n entry run :
  queues_ok s → (0 < n ≤ length (forwardWrites s))%nat →
  (if decide (length (forwardWrites s) = 1%nat) then forwardWrites s = [entry] else entry = combined (take n (forwardWrites s))) →
  next_ok s (WWrite entry) (set_fillRun (upd_writes s (drop n (forwardWrites s)) (sum_puts (drop n (forwardWrites s))) (fillRun s)) run).
Proof.
  intros [Hr Hf Hw Hp Ha Hs] Hn Hent.
  assert (Hc : bodies [entry] = bodies (take n (forwardWrites s)) ∧ channels [entry] = channels (take n (forwardWrites s))).
  { destruct (decide _) as [E1|E1].
    - rewrite Hent in *. simpl in Hn. replace n with 1%nat by lia. done.
    - rewrite Hent. apply combined_content; [|by apply Forall_take]. destruct (forwardWrites s), n; simpl in *; (lia || done). }
  destruct Hc as [Hb Hch]. split; simpl; try done; try by split_and!.
  - split; simpl; try done. by apply Forall_drop.
  - by rewrite Hb, <- bodies_app, take_drop.
  - by rewrite Hch, <- channels_app, take_drop.
  - intros _. unfold queued. simpl. rewrite length_drop. lia.
Qed.

Lemma getNextBatch_ok s :
  queues_ok s →
  ∃ w s', getNextBatch s = Ok (w, moreWork s', s') ∧ next_ok s w s' ∧
    processorRunning s' = (if moreWork s' then processorRunning s else false).
Proof.
  intros Hq. pose proof (chooseWork_spec s Hq) as Hc.
  assert (Hfin : ∀ (w : work) s1, next_ok s w s1 → processorRunning s1 = processorRunning s →
    ∃ w' s', (Ok (w, moreWork s1, if moreWork s1 then s1 else setRunning s1 false) : outcome (work * bool * ShardScheduler))
        = Ok (w', moreWork s', s') ∧ next_ok s w' s' ∧ processorRunning s' = (if moreWork s' then processorRunning s else false)).
  { intros w s1 Hn Hr. exists w. destruct (moreWork s1) eqn:E.
    - exists s1. by rewrite E.
    - exists (setRunning s1 false). change (moreWork (setRunning s1 false)) with (moreWork s1). rewrite E.
      split_and!; [done|by apply next_ok_running|done]. }
  unfold getNextBatch. destruct (chooseWork s) eqn:Ec; cbn [andb].
  - rewrite bool_decide_true by done. cbn [andb]. destruct (_ || _) eqn:E.
    + exfalso. assert (moreWork s = true); [|congruence]. apply moreWork_spec; [done|].
      destruct Hq as [_ _ Hw Hp Ha Hs]. rewrite !orb_true_iff, andb_true_iff, negb_true_iff, !Z.ltb_lt, !Nat.ltb_lt in E.
      destruct E as [[[E|E]|E]|[E1 E]]; [right; left|left|do 2 right; left|do 3 right; split; [done|]]; intros E'; rewrite ?Hp, ?Hs, ?E' in *; simpl in *; lia.
    + osimpl. apply Hfin; [by apply next_ok_refl|done].
  - osimpl. apply (Hfin (WRows (getFillRowsToProcess s).1)); [by apply next_ok_fills|done].
  - osimpl. apply (Hfin (WRows (getRowsToProcess s).1)); [by apply next_ok_rows|done].
  - destruct (getAction s) as [[a s1]| | |] eqn:Ea; [|unfold getAction in Ea; by destruct (actions s)..]. osimpl.
    apply Hfin; [by eapply next_ok_action|]. unfold getAction in Ea. destruct (actions s); by simplify_eq.
  - destruct (getForwardWriteBatch_eq s Hq Hc) as (n & e & Hn & _ & -> & He). osimpl. apply Hfin; [by apply next_ok_write|done].
Qed.

(** ** The invariant *)

(** The loop holds the right to run another round. *)
Definition busy (c : loop_pc) : bool :=
  match c with Took => true | Working _ more => more | Finishing more => more | _ => false end.

(** While the scheduler runs there is one right to run, [processorRunning]: it is in the
    channel or with the loop, and it exists when there is work. *)
Record control_ok (s : ShardScheduler) (c : loop_pc) : Prop := {
  co_closed : channelClosed s = true → stopped s = true ∧ started s = false;
  co_failed : failed s = true → stopped s = true;
  co_stopped : started s = true → stopped s = true → failed s = true;
  co_before : started s = false → stopped s = false → c = NotRunning ∧ token s = false ∧ processorRunning s = false;
  co_run : started s = true → stopped s = false →
    c ≠ NotRunning ∧ c ≠ Exited ∧ processorRunning s = token s || busy c ∧ token s && busy c = false;
  co_work : started s = true → stopped s = false → moreWork s = true → processorRunning s = true
}.

Record sys_inv (y : Sys) : Prop := {
  si_queues : queues_ok (sys y);
  si_control : control_ok (sys y) (pc y);
  si_rows : added_rows y = handed_rows y ++ q_forwardRows (sys y);
  si_fills : added_fills y = handed_fills y ++ q_fillForwardRows (sys y);
  si_actions : added_actions y = handed_actions y ++ actions (sys y);
  si_bodies : bodies (added_writes y) = bodies (handed_writes y) ++ bodies (forwardWrites (sys y));
  si_channels : channels (added_writes y) = channels (handed_writes y) ++ channels (forwardWrites (sys y))
}.

(** Changing the queues and then waking the loop. *)
Lemma maybeStart_ok s0 s c :
  control_ok s0 c → stopped s = stopped s0 → started s = started s0 → failed s = failed s0 → token s = token s0 →
  channelClosed s = channelClosed s0 → processorRunning s = processorRunning s0 → stopped s = false →
  ∃ r t, maybeStartRunning s = Ok (upd_run s (started s) (failed s) (stopped s) r t (channelClosed s)) ∧
    control_ok (upd_run s (started s) (failed s) (stopped s) r t (channelClosed s)) c.
Proof.
  intros [Hcl Hf Hs Hb Hr Hw] Est Esr Ef Et Ec Er Hst.
  assert (Hnf : failed s = true → stopped s = true) by (rewrite Ef, Est; done). unfold maybeStartRunning, sendToken.
  destruct (started s) eqn:Es; cbn [andb].
  - symmetry in Esr. destruct Hr as (N1 & N2 & R & X); [done|congruence|].
    destruct (channelClosed s) eqn:Ecl; [symmetry in Ec; destruct (Hcl Ec); congruence|].
    rewrite Er. destruct (processorRunning s0) eqn:Er0; cbn [negb].
    + exists true, (token s). split; [destruct s; unfold upd_run; simpl in *; congruence|].
      split; simpl; [done|done|congruence|done| |done]. intros _ _. split_and!; [done..|congruence|congruence].
    + rewrite Et. destruct (token s0) eqn:Et0; [done|]. osimpl. simpl in R. rewrite <- R in *.
      exists true, true. split; [unfold setRunning; simpl; done|].
      split; simpl; [done|done|congruence|done| |done]. by intros _ _.
  - exists (processorRunning s), (token s). split; [destruct s; unfold upd_run; simpl in *; congruence|]. destruct Hb as (? & ? & ?); [congruence..|].
    split; simpl; [intros E; destruct Hcl; congruence|done|done| |done|done]. intros _ _. split_and!; congruence.
Qed.

Lemma AddRows_queues s rows :
  foldl (λ '(rs, fs) row, if Fill row then (rs, fs ++ [row]) else (rs ++ [row], fs)) (q_forwardRows s, q_fillForwardRows s) rows
    = (q_forwardRows s ++ filter (λ r, Fill r = false) rows, q_fillForwardRows s ++ filter (λ r, Fill r = true) rows).
Proof.
  generalize (q_forwardRows s) as rs, (q_fillForwardRows s) as fs.
  induction rows as [|row rows IH]; intros rs fs; simpl; [by rewrite !app_nil_r|]. destruct (Fill row) eqn:E; rewrite IH.
  - rewrite filter_cons_False, filter_cons_True by congruence. by rewrite <- app_assoc.
  - rewrite filter_cons_True, filter_cons_False by congruence. by rewrite <- app_assoc.
Qed.

(** The result of a step: it happens and keeps the invariant, except that resuming a
    failed scheduler may block. *)
Definition step_ok (y : Sys) (l : label) (r : option (outcome Sys)) : Prop :=
  match r with
  | None => True
  | Some (Ok y') => sys_inv y'
  | Some Undef => failed (sys y) = true ∧ l = LResumeProcessing
  | Some _ => False
  end.

Lemma step_AddAction y act w ch : sys_inv y → 0 < w → step_ok y (LAddAction act w ch) (exec y (LAddAction act w ch)).
Proof.
  intros [[Qr Qf Qw Qp Qa Qs] Hc Hr Hf Ha Hb Hch] Hpos. simpl. unfold AddAction. destruct (failed (sys y)) eqn:E1; [done|].
  destruct (stopped (sys y)) eqn:E2; [done|].
  edestruct (maybeStart_ok (sys y) (upd_actions (sys y) (actions (sys y) ++ [MkActionEntry act w ch]) (queuedActionWeights (sys y) + w)))
    as (r & t & -> & Hc'); [done..|]. split; try done; simpl; [|by rewrite Ha, app_assoc]. split; simpl; try done.
  - apply Forall_app. by split; [|constructor].
  - rewrite sum_weights_app, Qs. simpl. lia.
Qed.

Lemma step_AddForwardBatch y wb ch :
  sys_inv y → write_ok (MkWriteBatchEntry wb [ch]) → step_ok y (LAddForwardBatch wb ch) (exec y (LAddForwardBatch wb ch)).
Proof.
  intros [[Qr Qf Qw Qp Qa Qs] Hc Hr Hf Ha Hb Hch] Hok. pose proof Hok as (_ & n & ch' & Hn & _ & _). simpl in Hn |- *. unfold addForwardBatch.
  destruct (failed (sys y)) eqn:E1; [done|]. destruct (stopped (sys y)) eqn:E2; [done|]. rewrite Hn. osimpl.
  edestruct (maybeStart_ok (sys y) (upd_writes (sys y) (forwardWrites (sys y) ++ [MkWriteBatchEntry wb [ch]])
    (queuedWriteRows (sys y) + n) (fillRun (sys y)))) as (r & t & -> & Hc'); [done..|]. split; try done; simpl.
  - split; simpl; try done.
    + apply Forall_app. by split; [|constructor].
    + rewrite sum_puts_app, Qp. simpl. unfold num_puts. simpl. rewrite Hn. lia.
  - by rewrite !bodies_app, Hb, app_assoc.
  - by rewrite !channels_app, Hch, app_assoc.
Qed.

Lemma step_AddRows y rows : sys_inv y → step_ok y (LAddRows rows) (exec y (LAddRows rows)).
Proof.
  intros [[Qr Qf Qw Qp Qa Qs] Hc Hr Hf Ha Hb Hch]. simpl. unfold AddRows.
  destruct (failed (sys y)) eqn:E1; [osimpl; by split; rewrite ?app_nil_r|].
  destruct (stopped (sys y)) eqn:E2; [osimpl; by split; rewrite ?app_nil_r|]. rewrite AddRows_queues.
  edestruct (maybeStart_ok (sys y)) as (r & t & -> & Hc'); [..|osimpl; split]; simpl; try done;
    [|by rewrite Hr, app_assoc|by rewrite Hf, app_assoc].
  split; simpl; try done; apply Forall_app; (split; [done|]); apply Forall_forall; by intros x [? _]%list_elem_of_filter.
Qed.

Lemma moreWork_pause s : moreWork (upd_paused s true) = true → moreWork s = true.
Proof. unfold moreWork. simpl. rewrite orb_false_r. intros ->. done. Qed.

Lemma unblock_ok s : queues_ok s → ∃ chs, unblockWaitingWrites s = Ok chs.
Proof.
  intros [_ _ Hw _ _ _]. exists (map (λ e, default 0%nat (head (completionChannels e))) (forwardWrites s)). apply mapM_o_ok.
  intros e He. rewrite Forall_forall in Hw. destruct (Hw e He) as (_ & n & ch & _ & _ & ->). done.
Qed.

Definition same_queues (s s' : ShardScheduler) : Prop :=
  q_forwardRows s' = q_forwardRows s ∧ q_fillForwardRows s' = q_fillForwardRows s ∧
  actions s' = actions s ∧ forwardWrites s' = forwardWrites s.

Lemma setFailed_ok s c :
  queues_ok s → control_ok s c →
  ∃ s' chs, setFailed s = Ok (s', chs) ∧ queues_ok s' ∧ control_ok s' Exited ∧
    same_queues s s'.
Proof.
  intros Hq [Hcl Hf Hs Hb Hr Hw]. unfold setFailed. destruct (failed s || stopped s) eqn:E.
  - exists s, []. split_and!; try done. assert (stopped s = true) by (apply orb_true_iff in E as [|]; auto).
    split; try done; intros; congruence.
  - destruct (unblock_ok s Hq) as [chs ->]. osimpl. apply orb_false_iff in E as [E1 E2]. eexists _, chs. split; [done|].
    split_and!; try done; [by destruct Hq|]. split; simpl; try done. intros Hc. destruct (Hcl Hc). congruence.
Qed.

Ltac solve_control Hc := destruct Hc; split; simpl; try done; intros; first [congruence | by auto].

Lemma step_environment y l :
  sys_inv y → label_ok y l →
  match l with LPauseProcessing | LResumeProcessing | LStart | LStop => True | _ => False end → step_ok y l (exec y l).
Proof.
  intros [Hq Hc Hr Hf Ha Hb Hch] Hl. destruct l; intros Hkind; try done; simpl in *.
  - destruct (match pc y with Took | Working _ _ => false | _ => true end); [|done]. split; try done; simpl; [by destruct Hq|].
    pose proof (moreWork_pause (sys y)). solve_control Hc.
  - unfold ResumeProcessing. destruct (stopped (sys y)) eqn:Est.
    + unfold maybeStartRunning, sendToken. cbn [started processorRunning channelClosed token upd_paused].
      destruct (started (sys y)) eqn:Es, (processorRunning (sys y)) eqn:Ep; cbn [andb negb]; osimpl;
        try (split; try done; simpl; [by destruct Hq|solve_control Hc]).
      destruct (channelClosed (sys y)) eqn:Ecl; [destruct (co_closed _ _ Hc); congruence|].
      destruct (token (sys y)) eqn:Et; osimpl.
      * split; [|done]. by apply (co_stopped _ _ Hc).
      * split; try done; simpl; [by destruct Hq|solve_control Hc].
    + edestruct (maybeStart_ok (sys y) (upd_paused (sys y) false)) as (r & t & -> & Hc'); [done..|]. osimpl.
      split; try done. by destruct Hq.
  - unfold Start, sendToken. destruct (started (sys y)) eqn:Es; osimpl.
    + split; try done.
    + destruct (co_before _ _ Hc Es Hl) as (Epc & Et & Ep). destruct (channelClosed (sys y)) eqn:Ecl; [destruct (co_closed _ _ Hc); congruence|].
      rewrite Et. osimpl. split; try done; simpl; [by destruct Hq|]. solve_control Hc.
  - unfold Stop. destruct (started (sys y)) eqn:Es; cbn [negb]; osimpl; [|by split].
    destruct (channelClosed (sys y)) eqn:Ecl; [destruct (co_closed _ _ Hc); congruence|].
    destruct (unblock_ok (sys y) Hq) as [chs Hu].
    destruct (failed (sys y)) eqn:Ef; [|rewrite Hu]; osimpl; (split; simpl; try done; first [by destruct Hq | solve_control Hc]).
Qed.

(** ** The steps of the loop *)

Lemma processBatch_ok s c fill result :
  queues_ok s → control_ok s c →
  ∃ ok s' chs, processBatch s fill result = Ok (ok, s', chs) ∧ queues_ok s' ∧ (if ok then control_ok s' c else control_ok s' Exited) ∧
    same_queues s s'.
Proof.
  intros Hq Hc. unfold processBatch. destruct result as [q|].
  - eexists true, _, []. split; [done|]. destruct (negb fill && _); [|done]. split_and!; try done; [by destruct Hq|solve_control Hc].
  - destruct (setFailed_ok s c Hq Hc) as (s' & chs & -> & ? & ? & ?). osimpl. by eexists false, s', chs.
Qed.

Lemma control_finish s w more : control_ok s (Working w more) → control_ok s (Finishing more).
Proof.
  intros [Hcl Hf Hs Hb Hr Hw]. split; try done.
  - intros E1 E2. by destruct (Hb E1 E2).
  - intros E1 E2. destruct (Hr E1 E2) as (_ & _ & R & X). done.
Qed.

Lemma step_leave y (ok more : bool) s chs :
  sys_inv y → queues_ok s → (if ok then control_ok s (Finishing more) else control_ok s Exited) →
  same_queues (sys y) s →
  sys_inv (leave y ok more s chs).
Proof.
  intros [_ _ Hr Hf Ha Hb Hch] Hq Hc (E1 & E2 & E3 & E4).
  split; simpl; [done|by destruct ok|by rewrite E1|by rewrite E2|by rewrite E3|by rewrite E4..].
Qed.

Lemma doWork_ok y w more result : sys_inv y → pc y = Working w more → ∃ y', doWork y w more result = Ok y' ∧ sys_inv y'.
Proof.
  intros Hy Epc. pose proof Hy as [Hq Hc _ _ _ _ _]. rewrite Epc in Hc.
  assert (Hfin : ∀ chs b, sys_inv (with_replies (with_sys y (sys y) (Finishing more)) chs b)).
  { intros chs b. destruct Hy. split; simpl; try done. by eapply control_finish. }
  assert (Hrun : ∀ fill, ∃ y', (r ← processBatch (sys y) fill result; let '(ok, s, chs) := r in Ok (leave y ok more s chs)) = Ok y' ∧ sys_inv y').
  { intros fill. destruct (processBatch_ok (sys y) _ fill result Hq Hc) as (ok & s' & chs & -> & Hq' & Hc' & Hsame). osimpl.
    eexists; split; [done|]. apply step_leave; try done. destruct ok; [|done]. by eapply control_finish. }
  unfold doWork. destruct w as [| |rows|entry|a].
  - apply Hrun.
  - eexists; split; [done|]. by destruct (Hfin [] true); split.
  - destruct (_ =? 0)%nat; [eexists; split; [done|]; by destruct (Hfin [] true); split|]. apply Hrun.
  - destruct result as [q|]; [by eexists|].
    destruct (setFailed_ok (sys y) _ Hq Hc) as (s' & chs & -> & ? & ? & ?). osimpl.
    eexists; split; [done|]. apply step_leave; try done. by destruct Hy; split.
  - by eexists.
Qed.

Lemma takeWork_ok y : sys_inv y → pc y = Took → ∃ y', takeWork y = Ok y' ∧ sys_inv y'.
Proof.
  intros [Hq Hc Hr Hf Ha Hb Hch] Epc. rewrite Epc in Hc. unfold takeWork.
  destruct (getNextBatch_ok (sys y) Hq) as (w & s' & -> & [Hq' Hctl Er Ef Ea Eb Ech _] & Hrun). osimpl.
  eexists; split; [done|]. destruct Hctl as (C1 & C2 & C3 & C4 & C5 & C6). destruct Hc as [Hcl Hfl Hs Hbf Hrn Hwk].
  assert (Hsnoc : ∀ {A} (f : work → list A), concat (map f (handed y ++ [w])) = concat (map f (handed y)) ++ f w).
  { intros A f. by rewrite map_app, concat_app; simpl; rewrite app_nil_r. }
  split; unfold handed_rows, handed_fills, handed_actions, handed_writes in *; simpl; rewrite ?Hsnoc, ?filter_app; [done| | | | | |].
  - split; rewrite ?C1, ?C2, ?C3, ?C4, ?C5; try done.
    + intros E1 E2. by destruct (Hbf E1 E2).
    + intros E1 E2. destruct (Hrn E1 E2) as (_ & _ & R & X). split_and!; [done..| |]; destruct (moreWork s'); simpl in *;
        rewrite ?Hrun, ?R; destruct (token (sys y)); done.
    + intros E1 E2 E3. rewrite Hrun, E3. destruct (Hrn E1 E2) as (_ & _ & -> & _). by rewrite orb_true_r.
  - by rewrite Hr, Er, app_assoc.
  - by rewrite Hf, Ef, app_assoc.
  - by rewrite Ha, Ea, app_assoc.
  - by rewrite Hb, Eb, bodies_app, app_assoc.
  - by rewrite Hch, Ech, channels_app, app_assoc.
Qed.

Lemma step_loop y l :
  sys_inv y → match l with LTake | LNext | LDone _ | LTail => True | _ => False end → step_ok y l (exec y l).
Proof.
  intros Hy. pose proof Hy as [Hq Hc Hr Hf Ha Hb Hch]. destruct l; intros Hkind; try done; simpl; destruct (pc y) as [| | |w more|more|] eqn:Epc; try done.
  - destruct (token (sys y)) eqn:Et.
    + split; simpl; try done; [by destruct Hq|]. destruct Hc as [Hcl Hfl Hs Hbf Hrn Hwk]. split; simpl; try done.
      * intros E1 E2. by destruct (Hbf E1 E2).
      * intros E1 E2. destruct (Hrn E1 E2) as (_ & _ & R & _). by rewrite Et in R.
    + destruct (channelClosed (sys y)) eqn:Ecl; [|done]. split; simpl; try done. destruct (co_closed _ _ Hc Ecl). solve_control Hc.
  - destruct (first y) eqn:Ef1.
    + split; simpl; try done. destruct Hc as [Hcl Hfl Hs Hbf Hrn Hwk]. split; simpl; try done.
      * intros E1 E2. by destruct (Hbf E1 E2).
      * intros E1 E2. destruct (Hrn E1 E2) as (_ & _ & R & X). by split_and!.
    + destruct (takeWork_ok y Hy Epc) as (y' & -> & ?). done.
  - destruct (doWork_ok y w more result Hy Epc) as (y' & -> & ?). done.
  - destruct (stopped (sys y)) eqn:Est; cbn [negb andb]; osimpl.
    + split; simpl; try done. solve_control Hc.
    + pose proof Hc as [Hcl Hfl Hs Hbf Hrn Hwk].
      assert (Esr : started (sys y) = true).
      { destruct (started (sys y)) eqn:E; [done|]. destruct (Hbf eq_refl Est) as (? & _). done. }
      destruct (Hrn Esr Est) as (_ & _ & R & X). simpl in R, X. clear Hbf Hrn. destruct more; cbn [andb]; unfold sendToken; osimpl.
      * rewrite andb_true_r in X. rewrite X in R. destruct (channelClosed (sys y)) eqn:Ecl; [destruct Hcl; congruence|].
        rewrite X. osimpl. split; simpl; try done; [by destruct Hq|]. split; simpl; try done; intros; congruence.
      * rewrite orb_false_r in R. split; simpl; try done. split; simpl; try done; [intros; congruence|].
        intros _ _. by rewrite orb_false_r, andb_false_r.
Qed.

Lemma step_inv y l : sys_inv y → label_ok y l → step_ok y l (exec y l).
Proof.
  intros Hy Hl. destruct l; try by apply step_loop; try by apply step_environment.
  - by apply step_AddAction.
  - by apply step_AddForwardBatch.
  - by apply step_AddRows.
  - by apply step_environment.
  - by apply step_environment.
  - by apply step_environment.
  - by apply step_environment.
Qed.

Lemma reachable_inv y : reachable y → sys_inv y.
Proof.
  induction 1 as [|y l y' _ IH Hl E]; [|pose proof (step_inv y l IH Hl) as Hs; by rewrite E in Hs].
  by split.
Qed.

(** ** The loop drains the queues *)

(** The next step of the loop, when the call it makes answers [answer]. *)
Definition loop_label (c : loop_pc) (answer : work → option Z) : label :=
  match c with Took => LNext | Working w _ => LDone (answer w) | Finishing _ => LTail | _ => LTake end.

(** The handler and the writes do not fail; actions may. *)
Definition no_failure (answer : work → option Z) : Prop :=
  ∀ w, work_actions w = [] → answer w ≠ None.

(** Steps of the loop alone, the n-th of which gets the n-th answer. *)
Inductive loop_steps (answers : nat → work → option Z) : nat → Sys → Sys → Prop :=
  | loop_done n y : loop_steps answers n y y
  | loop_next n y y1 y2 :
      exec y (loop_label (pc y) (answers n)) = Some (Ok y1) → loop_steps answers (S n) y1 y2 → loop_steps answers n y y2.

(** Rounds left to the next choice of work. *)
Definition rank (y : Sys) : nat :=
  match pc y with
  | Took => if first y then 4 else 0
  | Waiting => if first y then 5 else 1
  | Finishing _ => 2
  | Working _ _ => 3
  | _ => 0
  end%nat.

Definition to_do (y : Sys) : nat := (8 * queued (sys y) + rank y)%nat.

Lemma rank_lt y : (rank y < 8)%nat.
Proof. unfold rank. repeat case_match; lia. Qed.

Lemma doWork_success y w more answer :
  no_failure answer →
  ∃ y', doWork y w more (answer w) = Ok y' ∧ pc y' = Finishing more ∧ first y' = first y ∧
    queued (sys y') = queued (sys y) ∧ started (sys y') = started (sys y) ∧ stopped (sys y') = stopped (sys y).
Proof.
  intros Hans. specialize (Hans w). unfold doWork, processBatch. destruct w as [| |rows|entry|a]; osimpl; [..|by eexists].
  - destruct (answer _) as [q|]; [|by destruct Hans]. osimpl. eexists. split; [done|]. by destruct (q =? -1).
  - by eexists.
  - destruct (_ =? 0)%nat; [by eexists|]. destruct (answer _) as [q|]; [|by destruct Hans]. osimpl.
    eexists. split; [done|]. by destruct (negb _ && negb (q =? -1)).
  - destruct (answer _) as [q|]; [by eexists|by destruct Hans].
Qed.

Lemma loop_progress y answer :
  no_failure answer → sys_inv y → started (sys y) = true → stopped (sys y) = false → moreWork (sys y) = true →
  ∃ y', exec y (loop_label (pc y) answer) = Some (Ok y') ∧ (to_do y' < to_do y)%nat ∧
    started (sys y') = true ∧ stopped (sys y') = false.
Proof.
  intros Hans Hy Hst Hsp Hmore. pose proof Hy as [Hq Hc _ _ _ _ _]. pose proof (co_work _ _ Hc Hst Hsp Hmore) as Hrun.
  destruct (co_run _ _ Hc Hst Hsp) as (N1 & N2 & R & X). rewrite Hrun in R. unfold to_do, rank.
  destruct (pc y) as [| | |w more|more|] eqn:Epc; try done; simpl in R, X |- *; rewrite Epc.
  - rewrite orb_false_r in R. rewrite <- R. eexists. split; [done|]. simpl. destruct (first y); (split_and!; [unfold queued; simpl; lia|done|done]).
  - destruct (first y) eqn:E1.
    + eexists. split; [done|]. simpl. split_and!; [lia|done|done].
    + unfold takeWork. destruct (getNextBatch_ok (sys y) Hq) as (w & s' & -> & Hnext & _). osimpl.
      eexists. split; [done|]. simpl. pose proof (no_progress _ _ _ Hnext Hmore).
      destruct (no_control _ _ _ Hnext) as (C1 & _ & C3 & _). rewrite C1, C3. split_and!; [lia|done|done].
  - destruct (doWork_success y w more answer Hans) as (y' & -> & Ep & Ef & Eq & Es1 & Es2). exists y'. rewrite Ep, Eq, Es1, Es2. split_and!; [done|lia|done|done].
  - rewrite Hsp. cbn [negb andb]. destruct more; unfold sendToken; osimpl.
    + rewrite andb_true_r in X. destruct (channelClosed (sys y)) eqn:Ecl; [destruct (co_closed _ _ Hc Ecl); congruence|].
      rewrite X. osimpl. eexists. split; [done|]. simpl. split_and!; [unfold queued; simpl; lia|done|done].
    + eexists. split; [done|]. simpl. split_and!; [unfold queued; simpl; lia|done|done].
Qed.

Lemma loop_drains answers y : ∀ n,
  (∀ k, no_failure (answers k)) → sys_inv y → started (sys y) = true → stopped (sys y) = false →
  ∃ y', loop_steps answers n y y' ∧ sys_inv y' ∧ moreWork (sys y') = false.
Proof.
  remember (to_do y) as m eqn:Em. revert y Em. induction (lt_wf m) as [m _ IH]. intros y -> n Hans Hy Hst Hsp.
  destruct (moreWork (sys y)) eqn:Em; [|exists y; by split_and!; [constructor|..]].
  destruct (loop_progress y (answers n) (Hans n) Hy Hst Hsp Em) as (y1 & Hex & Hlt & Hst1 & Hsp1).
  assert (Hy1 : sys_inv y1).
  { pose proof (step_inv y (loop_label (pc y) (answers n)) Hy) as Hs. rewrite Hex in Hs. apply Hs. by destruct (pc y). }
  destruct (IH _ Hlt y1 eq_refl (S n) Hans Hy1 Hst1 Hsp1) as (y2 & Hsteps & ? & ?). exists y2. split_and!; [by econstructor|done|done].
Qed.

(** * Properties *)

(** C33. The scheduler never gets stuck: in every reachable state every call and every
    step of the loop either has to wait for its turn or completes; no send on the
    channel blocks with the lock held or hits the closed channel, no queue is popped
    when it is empty, and the check that work is chosen when there is work never
    fires. The one exception is resuming a scheduler that has failed. *)
Theorem scheduler_never_stuck (y : Sys) (l : label) :
  reachable y → label_ok y l → failed (sys y) = false ∨ l ≠ LResumeProcessing →
  exec y l = None ∨ ∃ y', exec y l = Some (Ok y').
Proof.
  intros Hr Hl Hor. pose proof (step_inv y l (reachable_inv y Hr) Hl) as Hs.
  destruct (exec y l) as [[y'| | |]|]; simpl in Hs; [by eauto|done|done| |by left]. destruct Hs as [Hf ->]. destruct Hor; congruence.
Qed.

(** C34. Work is never forgotten: from any reachable state of a running scheduler, when
    nothing more is added and whatever the handler, the writes and the actions answer as
    long as the handler and the writes do not fail, the loop alone empties every queue
    in finitely many rounds (the rows only when processing is not paused); every row,
    forward write and action that was accepted has then been handed to the loop, in the
    order it was accepted. *)
Theorem scheduler_drains (y : Sys) (answers : nat → work → option Z) :
  reachable y → started (sys y) = true → stopped (sys y) = false → (∀ k, no_failure (answers k)) →
  ∃ y', loop_steps answers 0 y y' ∧ forwardWrites (sys y') = [] ∧ actions (sys y') = [] ∧ q_fillForwardRows (sys y') = [] ∧
    bodies (handed_writes y') = bodies (added_writes y') ∧ channels (handed_writes y') = channels (added_writes y') ∧
    handed_actions y' = added_actions y' ∧ handed_fills y' = added_fills y' ∧
    (processingPaused (sys y') = false → q_forwardRows (sys y') = [] ∧ handed_rows y' = added_rows y').
Proof.
  intros Hr Hst Hsp Hans.
  destruct (loop_drains answers y 0 Hans (reachable_inv y Hr) Hst Hsp) as (y' & Hsteps & [Hq _ Er Ef Ea Eb Ech] & Hm).
  exists y'. rewrite Er, Ef, Ea, Eb, Ech. apply not_true_iff_false in Hm. rewrite moreWork_spec in Hm by done.
  assert (Hnil : ∀ {A} (l : list A), ¬ l ≠ [] → l = []) by (intros A [|]; [done|intros []; done]).
  rewrite (Hnil _ (forwardWrites (sys y'))), (Hnil _ (actions (sys y'))), (Hnil _ (q_fillForwardRows (sys y'))) by tauto.
  rewrite !app_nil_r. split_and!; try done. intros Hp. rewrite (Hnil _ (q_forwardRows (sys y'))) by tauto. by rewrite app_nil_r.
Qed.

(** C35. Queues are first in, first out, and lose and duplicate nothing: in every
    reachable state the rows accepted so far, in order, are the rows handed to the loop
    in the batches it was given, followed by the rows queued; the same holds for fill
    rows and for actions; the puts and deletes of the forward writes accepted, and the
    channels waiting for them, are those of the batches handed out, combined or not,
    followed by those queued; and the counters that drive the choice of work are the
    numbers of queued puts and the sum of the queued weights. *)
Theorem scheduler_fifo (y : Sys) :
  reachable y →
  added_rows y = handed_rows y ++ q_forwardRows (sys y) ∧
  added_fills y = handed_fills y ++ q_fillForwardRows (sys y) ∧
  added_actions y = handed_actions y ++ actions (sys y) ∧
  bodies (added_writes y) = bodies (handed_writes y) ++ bodies (forwardWrites (sys y)) ∧
  channels (added_writes y) = channels (handed_writes y) ++ channels (forwardWrites (sys y)) ∧
  queuedWriteRows (sys y) = sum_puts (forwardWrites (sys y)) ∧
  queuedActionWeights (sys y) = sum_weights (actions (sys y)).
Proof. intros Hr. by destruct (reachable_inv y Hr) as [[] _ ? ? ? ? ?]. Qed.

(** ** Combined forward writes *)

(** What [WriteForwardBatch] queues: one batch of rows and the sender's channel. *)
Definition fwd_entry (shard : Z) (fill : bool) (x : list Fwd * nat) : WriteBatchEntry :=
  MkWriteBatchEntry (fwd_cmd shard fill [x.1]) [x.2].

Lemma fwd_cmd_numPuts shard fill fs : count_fits fs → getNumPuts (fwd_cmd shard fill [fs]) = Ok (Z.of_nat (length fs)).
Proof.
  intros Hc. unfold getNumPuts, fwd_cmd. cbn [map concat]. unfold Serialize. rewrite !AppendUint32ToBufferLE_eq, (rep_numPuts _ _ _ _ (fwd_batch_rep shard fs)), length_map.
  rewrite u32_small by done. rewrite fwd_batch_id, app_nil_l, app_nil_r, <- !app_assoc.
  rewrite (ReadUint32LE_app [_; _; _] (Z.of_nat (length fs)) _ 3) by done. by osimpl.
Qed.

Lemma fwd_entry_ok shard fill x : fwds_ok x.1 → x.1 ≠ [] → write_ok (fwd_entry shard fill x).
Proof.
  intros [_ Hc] Hne. split.
  - unfold fwd_entry, fwd_cmd. cbn [map concat writeBatch]. unfold Serialize. rewrite fwd_batch_id, !AppendUint32ToBufferLE_eq. simpl. rewrite !length_app, !length_le_bytes. lia.
  - exists (Z.of_nat (length x.1)), x.2. split_and!; [by apply fwd_cmd_numPuts| |done]. destruct x.1; [done|simpl; lia].
Qed.

Lemma fwd_entries_combined shard fill ws :
  ws ≠ [] → combined (map (fwd_entry shard fill) ws) = MkWriteBatchEntry (fwd_cmd shard fill ws.*1) ws.*2.
Proof.
  intros Hne. unfold combined. f_equal.
  - assert (Hbody : map (λ e, drop 3 (writeBatch e)) (map (fwd_entry shard fill) ws) = map (λ fs, Serialize (fwd_batch shard fs) []) ws.*1).
    { clear Hne. induction ws as [|x ws IH]; [done|]. cbn [map fmap list_fmap]. rewrite <- IH. unfold fwd_entry, fwd_cmd. simpl.
      by rewrite app_nil_r. }
    rewrite Hbody, length_map. unfold fwd_cmd. rewrite length_fmap. by destruct ws.
  - clear Hne. induction ws as [|x ws IH]; [done|]. simpl. by rewrite IH.
Qed.

(** Combining is faithful: the batch taken from a queue of forward writes with the
    same fill flag is the forward command of a nonempty prefix of them, at most 255, so
    that the count fits its byte; exactly the channels of those writes are completed
    with it, in order, and the rest stays queued. *)
Theorem combined_batch_is_forward_command (s : ShardScheduler) (shard : Z) (fill : bool) (ws : list (list Fwd * nat)) :
  ws ≠ [] → Forall (λ x, fwds_ok x.1 ∧ x.1 ≠ []) ws → forwardWrites s = map (fwd_entry shard fill) ws → queues_ok s →
  ∃ n entry s', (0 < n ≤ 255)%nat ∧ getForwardWriteBatch s = Ok (entry, s') ∧
    writeBatch entry = fwd_cmd shard fill (take n ws).*1 ∧ completionChannels entry = (take n ws).*2 ∧
    forwardWrites s' = map (fwd_entry shard fill) (drop n ws) ∧ queues_ok s'.
Proof.
  intros Hne Hok Hws Hq. assert (Hne' : forwardWrites s ≠ []) by (rewrite Hws; by destruct ws).
  destruct (getForwardWriteBatch_eq s Hq Hne') as (n & entry & Hn & H255 & Hget & Hent). rewrite Hws, length_map in Hn.
  eexists n, entry, _. split; [lia|]. split; [exact Hget|].
  assert (Hq' : queues_ok (upd_writes s (drop n (forwardWrites s)) (sum_puts (drop n (forwardWrites s))) (fillRun s)))
    by (apply (no_queues _ _ _ (next_ok_write s n entry (fillRun s) Hq ltac:(rewrite Hws, length_map; lia) Hent))).
  split_and!; [..|simpl; rewrite Hws; apply skipn_map|exact Hq'].
  all: destruct (decide (length (forwardWrites s) = 1%nat)) as [E1|E1].
  1, 3: rewrite Hws, length_map in E1; destruct ws as [|x [|]]; [done| |done]; destruct n as [|n]; [lia|];
    rewrite Hws in Hent; simpl in Hent; injection Hent as <-; simpl; by rewrite ?take_nil.
  all: rewrite Hent, Hws, firstn_map, fwd_entries_combined by (destruct ws, n; [done|done|lia|done]); done.
Qed.
End limits.

(** ** Runs *)

Section runs.
Variables maxP maxF : Z.

Fixpoint execs (y : Sys) (ls : list label) : option Sys :=
  match ls with
  | [] => Some y
  | l :: ls => match exec maxP maxF y l with Some (Ok y1) => execs y1 ls | _ => None end
  end.

Fixpoint labels_ok (y : Sys) (ls : list label) : Prop :=
  match ls with
  | [] => True
  | l :: ls => label_ok y l ∧ match exec maxP maxF y l with Some (Ok y1) => labels_ok y1 ls | _ => True end
  end.

Lemma execs_reachable ls : ∀ y y', reachable maxP maxF y → labels_ok y ls → execs y ls = Some y' → reachable maxP maxF y'.
Proof.
  induction ls as [|l ls IH]; intros y y' Hr Hl He; simpl in *; [congruence|]. destruct Hl as [Hl Hls].
  destruct (exec maxP maxF y l) as [[y1| | |]|] eqn:E; try done. eapply IH; [by eapply reach_step|done|done].
Qed.
End runs.

Definition demo_row (q : Z) : ForwardRow := MkForwardRow q 7 [] [] 0 false.

(** The first round loads old rows; then a row is taken, and while it is being processed
    another one arrives. *)
Definition demo_run : list label :=
  [LStart; LTake; LNext; LDone (Some (-1)); LTail; LAddRows [demo_row 1]; LTake; LNext; LAddRows [demo_row 2]].

Definition demo_sys : Sys := default initial (execs 10 10 initial demo_run).

Lemma demo_reachable : reachable 10 10 demo_sys.
Proof.
  apply (execs_reachable 10 10 demo_run initial); [constructor| |by vm_compute].
  vm_compute. repeat split.
Qed.

(** Resuming a failed scheduler can block for ever: a scheduler that fails while
    another call has already put the token into the channel keeps that token, no loop is
    left to take it, and [ResumeProcessing] then waits on the full channel with the
    scheduler's lock held. *)
Theorem resume_after_failure_blocks :
  ∃ y y', reachable 10 10 y ∧ exec 10 10 y (LDone None) = Some (Ok y') ∧ failed (sys y') = true ∧ pc y' = Exited ∧
    exec 10 10 y' LResumeProcessing = Some Undef ∧ exec 10 10 y' LTake = None.
Proof.
  exists demo_sys. eexists. split; [exact demo_reachable|]. split; [by vm_compute|]. by vm_compute.
Qed.

Lemma scheduler_never_stuck_witness : exec 10 10 demo_sys LPauseProcessing = None ∨ ∃ y', exec 10 10 demo_sys LPauseProcessing = Some (Ok y').
Proof.
  apply (scheduler_never_stuck 10 10 ltac:(lia) demo_sys LPauseProcessing demo_reachable I). by left; vm_compute.
Defined.

(** Handlers that report the sequence 5, and actions that fail. *)
Definition demo_answer (_ : nat) (w : work) : option Z := match w with WAction _ => None | _ => Some 5 end.

Lemma demo_answer_ok k : no_failure (demo_answer k).
Proof. by intros []. Qed.

Lemma scheduler_drains_witness :
  ∃ y', loop_steps 10 10 demo_answer 0 demo_sys y' ∧ forwardWrites (sys y') = [] ∧ actions (sys y') = [] ∧ q_fillForwardRows (sys y') = [] ∧
    bodies (handed_writes y') = bodies (added_writes y') ∧ channels (handed_writes y') = channels (added_writes y') ∧
    handed_actions y' = added_actions y' ∧ handed_fills y' = added_fills y' ∧
    (processingPaused (sys y') = false → q_forwardRows (sys y') = [] ∧ handed_rows y' = added_rows y').
Proof.
  apply (scheduler_drains 10 10 ltac:(lia) demo_sys demo_answer demo_reachable); [by vm_compute..|apply demo_answer_ok].
Defined.

Lemma scheduler_fifo_witness :
  added_rows demo_sys = handed_rows demo_sys ++ q_forwardRows (sys demo_sys) ∧
  added_fills demo_sys = handed_fills demo_sys ++ q_fillForwardRows (sys demo_sys) ∧
  added_actions demo_sys = handed_actions demo_sys ++ actions (sys demo_sys) ∧
  bodies (added_writes demo_sys) = bodies (handed_writes demo_sys) ++ bodies (forwardWrites (sys demo_sys)) ∧
  channels (added_writes demo_sys) = channels (handed_writes demo_sys) ++ channels (forwardWrites (sys demo_sys)) ∧
  queuedWriteRows (sys demo_sys) = sum_puts (forwardWrites (sys demo_sys)) ∧
  queuedActionWeights (sys demo_sys) = sum_weights (actions (sys demo_sys)).
Proof. apply (scheduler_fifo 10 10 ltac:(lia) demo_sys demo_reachable). Defined.

(** Three queued forward writes of one row each. *)
Definition demo_ws : list (list Fwd * nat) :=
  [([MkFwd (replicate 16 7, 1) 4 [1]], 1%nat); ([MkFwd (replicate 16 7, 2) 4 [2]], 2%nat); ([MkFwd (replicate 16 8, 1) 4 [3]], 3%nat)].
Definition demo_queue : ShardScheduler :=
  upd_writes NewShardScheduler (map (fwd_entry 1000 false) demo_ws) 3 0.

Lemma demo_ws_ok : Forall (λ x, fwds_ok x.1 ∧ x.1 ≠ []) demo_ws.
Proof. repeat constructor; vm_compute; congruence. Qed.

Lemma demo_queue_ok : queues_ok demo_queue.
Proof.
  split; try by vm_compute. apply Forall_map. eapply Forall_impl; [apply demo_ws_ok|].
  intros x [? ?]. by apply fwd_entry_ok.
Qed.

Lemma combined_batch_is_forward_command_witness :
  ∃ n entry s', (0 < n ≤ 255)%nat ∧ getForwardWriteBatch 2 demo_queue = Ok (entry, s') ∧
    writeBatch entry = fwd_cmd 1000 false (take n demo_ws).*1 ∧ completionChannels entry = (take n demo_ws).*2 ∧
    forwardWrites s' = map (fwd_entry 1000 false) (drop n demo_ws) ∧ queues_ok s'.
Proof.
  apply (combined_batch_is_forward_command 2 demo_queue 1000 false demo_ws);
    [done|exact demo_ws_ok|reflexivity|exact demo_queue_ok].
Defined.
