(* ===== verification/PullExec.v ===== *)
(** * Pull executors: paging, filtering, projecting and limiting

    src/pull/exec/exec.go, static.go, limit.go, select.go and project.go, with the
    evaluation entry points of src/common/expression.go. A pull query is a tree of
    executors; a client asks the root for a page of rows at a time, and each executor
    asks its child. The class [PullExecutor] has the operations of the interface of
    exec.go; [PullContract] is the promise documented there, stated with the list of
    rows an executor has yet to return: a page of [limit] rows is the next [limit] of
    them, and a shorter page means that there are no more. Each executor is shown to
    keep the promise when its child keeps it, so pipelines of any depth do.

    An expression is a record of its evaluation functions; [Expressions] has the
    expressions of the planner and makes such records of them. Loops that run until the
    child has no more rows take fuel, and the contract says that some amount of fuel is
    enough and that more changes nothing. Go's [int] counters of rows held in memory do not wrap here. *)

From stdpp Require Import base list list_numbers strings gmap.
From Stdlib Require Import ZArith Lia.
From S2P Require Import Prelude Encoding Timestamp Decimal Rows.

(** ** Expressions *)

Inductive expr_kind :=
  | ExprColumn (Index : nat)
  | ExprConstant (RetType : outcome ColumnType)
  | ExprScalarFunction (RetType : outcome ColumnType)
  | ExprOther.

(** What the expression library gives for one expression: its kind, with the converted
    return type, and the value of the expression on a row, [None] being null. *)
Record Expression := MkExpression {
  kind : expr_kind;
  returnType : option ColumnType;
  EvalInt : Row → outcome (option Z);
  EvalReal : Row → outcome (option float64);
  EvalDec : Row → outcome (option Decimal);
  EvalStr : Row → outcome (option bytes);
  EvalTime : Row → outcome (option Timestamp)
}.

Definition ReturnType (e : Expression) (colTypes : list ColumnType) : outcome ColumnType :=
  match returnType e with
  | Some t => Ok t
  | None =>
      match kind e with
      | ExprColumn i => index colTypes i
      | ExprConstant t => t
      | ExprScalarFunction t => t
      | ExprOther => Err "unexpected expr type"
      end
  end.

Definition EvalBoolean (e : Expression) (row : Row) : outcome (option bool) :=
  v ← EvalInt e row;
  Ok (match v with Some x => Some (negb (x =? 0)) | None => None end).

(** The switch on the type of a column with one evaluation per type. *)
Definition evalColumn (e : Expression) (colType : ColumnType) (row : Row) : outcome (option value) :=
  match Type' colType with
  | TypeTinyInt | TypeInt | TypeBigInt => v ← EvalInt e row; Ok (option_map VInt v)
  | TypeDecimal => v ← EvalDec e row; Ok (option_map VDecimal v)
  | TypeVarchar => v ← EvalStr e row; Ok (option_map VString v)
  | TypeDouble => v ← EvalReal e row; Ok (option_map VFloat v)
  | TypeTimestamp => v ← EvalTime e row; Ok (option_map VTimestamp v)
  | _ => Err "unexpected column type"
  end.

(** ** The executor interface *)

Class PullExecutor (T : Type) := {
  GetRows : nat → T → Z → outcome (Rows * T);
  Close : T → T
}.

(** The documented promise. [pending p cts rws]: the executor [p], whose rows have the
    types [cts], has yet to return the rows [rws]. *)
Class PullContract (T : Type) `{PullExecutor T} := {
  pending : T → list ColumnType → list Row → Prop;
  pending_shape p cts rws :
    pending p cts rws → cts ≠ [] ∧ Forall (λ row : Row, length row = length cts) rws;
  pending_page p cts rws limit :
    pending p cts rws → 1 ≤ limit →
    ∃ enough out p', (∀ fuel, (enough ≤ fuel)%nat → GetRows fuel p limit = Ok (out, p')) ∧
      columnTypes out = cts ∧ rows_rep out (take (Z.to_nat limit) rws) ∧
      pending p' cts (drop (Z.to_nat limit) rws)
}.

Definition rowCount (r : Rows) : Z := Z.of_nat (RowCount r).

(** [for i := start; i < end; i++ { to.AppendRow(from.GetRow(i)) }] *)
Definition appendRange (to from : Rows) (start end_ : Z) : outcome Rows :=
  foldM (λ r i, row ← GetRow from i; AppendRow r row) to (seq (Z.to_nat start) (Z.to_nat (end_ - start))).

(** ** Static rows *)

Record StaticRows := MkStaticRows {
  static_rows : Rows;
  static_cursor : Z
}.

Definition static_GetRows (fuel : nat) (s : StaticRows) (limit : Z) : outcome (Rows * StaticRows) :=
  let pageEnd := static_cursor s + limit in
  let pageEnd := if rowCount (static_rows s) <? pageEnd then rowCount (static_rows s) else pageEnd in
  buffer ← appendRange (NewRows (columnTypes (static_rows s))) (static_rows s) (static_cursor s) pageEnd;
  Ok (buffer, MkStaticRows (static_rows s) (Z.max (static_cursor s) pageEnd)).

#[global] Instance static_executor : PullExecutor StaticRows := {
  GetRows := static_GetRows;
  Close := λ s, s
}.

(** ** Limit *)

Definition getOrderByMaxRows (orderByMaxRows configuredMaxRows : Z) : Z :=
  if negb (orderByMaxRows =? 0) then orderByMaxRows else configuredMaxRows.

Record PullLimit (T : Type) := MkPullLimit {
  limit_colTypes : list ColumnType;
  limit_count : Z;
  limit_offset : Z;
  limit_rows : option Rows;
  limit_cursor : Z;
  limit_maxRows : Z;
  limit_child : T;
  limit_orderByMaxRows : Z
}.
Arguments MkPullLimit {T}.
Arguments limit_colTypes {T}.
Arguments limit_count {T}.
Arguments limit_offset {T}.
Arguments limit_rows {T}.
Arguments limit_cursor {T}.
Arguments limit_maxRows {T}.
Arguments limit_child {T}.
Arguments limit_orderByMaxRows {T}.

Definition NewPullLimit {T} (colTypes : list ColumnType) (count offset maxRows orderByMaxRows : Z) (child : T) : PullLimit T :=
  MkPullLimit colTypes count offset None 0 maxRows child orderByMaxRows.

(** The page of the rows already fetched. *)
Definition limit_page {T} (l : PullLimit T) (rows : Rows) (child : T) (maxRowsToReturn : Z) : outcome (Rows * PullLimit T) :=
  let startIndex := limit_cursor l in
  let endIndex := startIndex + maxRowsToReturn in
  let endIndex := if rowCount rows <? endIndex then rowCount rows else endIndex in
  let l' := MkPullLimit (limit_colTypes l) (limit_count l) (limit_offset l) (Some rows) endIndex (limit_maxRows l) child
              (limit_orderByMaxRows l) in
  if (startIndex =? 0) && (rowCount rows <=? endIndex) then Ok (rows, l')
  else
    result ← appendRange (NewRows (limit_colTypes l)) rows startIndex endIndex;
    Ok (result, l').

Definition limit_GetRows {T} `{PullExecutor T} (fuel : nat) (l : PullLimit T) (maxRowsToReturn : Z) :
    outcome (Rows * PullLimit T) :=
  if maxRowsToReturn <? 1 then Err "Invalid limit"
  else if negb (limit_offset l =? 0) then Err "Offset must be zero"
  else
    let maxRows := getOrderByMaxRows (limit_orderByMaxRows l) (limit_maxRows l) in
    if u64 maxRows <? limit_count l then Err "Limit count cannot be larger than"
    else if limit_count l =? 0 then Ok (NewRows (limit_colTypes l), l)
    else
      match limit_rows l with
      | Some rows => limit_page l rows (limit_child l) maxRowsToReturn
      | None =>
          '(rows, child) ← GetRows fuel (limit_child l) (i64 (limit_count l));
          let child := if rowCount rows =? i64 (limit_count l) then Close child else child in
          limit_page l rows child maxRowsToReturn
      end.

#[global] Instance limit_executor {T} `{PullExecutor T} : PullExecutor (PullLimit T) := {
  GetRows := limit_GetRows;
  Close l := MkPullLimit (limit_colTypes l) (limit_count l) (limit_offset l) (limit_rows l) (limit_cursor l)
               (limit_maxRows l) (Close (limit_child l)) (limit_orderByMaxRows l)
}.

(** ** Select *)

Definition batchSize : Z := 10000.

Record PullSelect (T : Type) := MkPullSelect {
  select_colTypes : list ColumnType;
  predicates : list Expression;
  availRows : option Rows;
  moreInputRows : bool;
  select_child : T
}.
Arguments MkPullSelect {T}.
Arguments select_colTypes {T}.
Arguments predicates {T}.
Arguments availRows {T}.
Arguments moreInputRows {T}.
Arguments select_child {T}.

Definition NewPullSelect {T} (colTypes : list ColumnType) (preds : list Expression) (child : T) : PullSelect T :=
  MkPullSelect colTypes preds None true child.

(** Every predicate is true, evaluated up to the first that is not. *)
Fixpoint accepts (preds : list Expression) (row : Row) : outcome bool :=
  match preds with
  | [] => Ok true
  | predicate :: preds' =>
      r ← EvalBoolean predicate row;
      match r with
      | Some true => accepts preds' row
      | _ => Ok false
      end
  end.

(** The accepted rows of a batch, appended. *)
Definition select_batch (preds : list Expression) (rows avail : Rows) : outcome Rows :=
  foldM (λ avail i,
    row ← GetRow rows i;
    ok ← accepts preds row;
    if (ok : bool) then AppendRow avail row else Ok avail) avail (seq 0 (RowCount rows)).

Fixpoint select_fill {T} `{PullExecutor T} (rounds fuel : nat) (size : Z) (preds : list Expression) (limit : Z) (child : T)
    (avail : Rows) : outcome (Rows * bool * T) :=
  match rounds with
  | O => Undef
  | S rounds' =>
      '(rows, child) ← GetRows fuel child size;
      avail ← select_batch preds rows avail;
      if rowCount rows <? size then Ok (avail, false, child)
      else if limit <=? rowCount avail then Ok (avail, true, child)
      else select_fill rounds' fuel size preds limit child avail
  end.

(** The available rows split into the page and what is kept. *)
Definition select_split (colTypes : list ColumnType) (limit : Z) (avail : Rows) : outcome (Rows * option Rows) :=
  foldM (λ '(out, newOutRows) i,
    row ← GetRow avail i;
    if Z.of_nat i <? limit then out ← AppendRow out row; Ok (out, newOutRows)
    else
      kept ← AppendRow (default (NewRows colTypes) newOutRows) row;
      Ok (out, Some kept)) (NewRows colTypes, None) (seq 0 (RowCount avail)).

Definition select_GetRows {T} `{PullExecutor T} (fuel : nat) (p : PullSelect T) (limit : Z) : outcome (Rows * PullSelect T) :=
  if limit <? 1 then Err "invalid limit"
  else
    let avail := default (NewRows (select_colTypes p)) (availRows p) in
    '(avail, more, child) ←
      (if (rowCount avail <? limit) && moreInputRows p
       then select_fill fuel fuel batchSize (predicates p) limit (select_child p) avail
       else Ok (avail, moreInputRows p, select_child p));
    if rowCount avail <? limit
    then Ok (avail, MkPullSelect (select_colTypes p) (predicates p) None more child)
    else
      '(out, newOutRows) ← select_split (select_colTypes p) limit avail;
      Ok (out, MkPullSelect (select_colTypes p) (predicates p) newOutRows more child).

#[global] Instance select_executor {T} `{PullExecutor T} : PullExecutor (PullSelect T) := {
  GetRows := select_GetRows;
  Close p := MkPullSelect (select_colTypes p) (predicates p) (availRows p) (moreInputRows p) (Close (select_child p))
}.

(** ** Projection *)

Record PullProjection (T : Type) := MkPullProjection {
  proj_colTypes : list ColumnType;
  projColumns : list Expression;
  proj_child : T
}.
Arguments MkPullProjection {T}.
Arguments proj_colTypes {T}.
Arguments projColumns {T}.
Arguments proj_child {T}.

Definition project_row (colTypes : list ColumnType) (exprs : list Expression) (result : Rows) (row : Row) : outcome Rows :=
  foldMi (λ j result projColumn,
    colType ← index colTypes j;
    c ← evalColumn projColumn colType row;
    appendToColumn result j c) 0 result exprs.

Definition project_GetRows {T} `{PullExecutor T} (fuel : nat) (p : PullProjection T) (limit : Z) :
    outcome (Rows * PullProjection T) :=
  if limit <? 1 then Err "invalid limit"
  else
    '(rows, child) ← GetRows fuel (proj_child p) limit;
    result ← foldM (λ result i, row ← GetRow rows i; project_row (proj_colTypes p) (projColumns p) result row)
      (NewRows (proj_colTypes p)) (seq 0 (RowCount rows));
    Ok (result, MkPullProjection (proj_colTypes p) (projColumns p) child).

#[global] Instance project_executor {T} `{PullExecutor T} : PullExecutor (PullProjection T) := {
  GetRows := project_GetRows;
  Close p := MkPullProjection (proj_colTypes p) (projColumns p) (Close (proj_child p))
}.

(** ** What the executors have yet to return *)

Definition static_pending (s : StaticRows) (cts : list ColumnType) (rws : list Row) : Prop :=
  columnTypes (static_rows s) = cts ∧ cts ≠ [] ∧
  ∃ all, rows_rep (static_rows s) all ∧ 0 ≤ static_cursor s ≤ Z.of_nat (length all) ∧
    rws = drop (Z.to_nat (static_cursor s)) all.

(** The rows kept from the rounds before, if any. *)
Definition kept_rows (cts : list ColumnType) (r : option Rows) (rws : list Row) : Prop :=
  match r with
  | None => rws = []
  | Some r => columnTypes r = cts ∧ rows_rep r rws
  end.

Definition accepted (preds : list Expression) (row : Row) : bool :=
  match accepts preds row with Ok b => b | _ => false end.

Definition select_pending {T} `{PullContract T} (p : PullSelect T) (cts : list ColumnType) (rws : list Row) : Prop :=
  select_colTypes p = cts ∧
  ∃ kept rest, kept_rows cts (availRows p) kept ∧ cts ≠ [] ∧ Forall (λ row : Row, length row = length cts) kept ∧
    Forall (λ row, is_ok (accepts (predicates p) row) = true) rest ∧
    rws = kept ++ filter (λ row, accepted (predicates p) row = true) rest ∧
    (if moreInputRows p then pending (select_child p) cts rest else rest = []).

Definition limit_pending {T} `{PullContract T} (l : PullLimit T) (cts : list ColumnType) (rws : list Row) : Prop :=
  limit_colTypes l = cts ∧ cts ≠ [] ∧ limit_offset l = 0 ∧
  0 ≤ limit_count l ≤ u64 (getOrderByMaxRows (limit_orderByMaxRows l) (limit_maxRows l)) ∧ limit_count l < two63 ∧
  ∃ all, 0 ≤ limit_cursor l ≤ Z.of_nat (length all) ∧ rws = drop (Z.to_nat (limit_cursor l)) all ∧
    match limit_rows l with
    | Some r => columnTypes r = cts ∧ rows_rep r all ∧ limit_count l ≠ 0
    | None => limit_cursor l = 0 ∧ ∃ rest, pending (limit_child l) cts rest ∧ all = take (Z.to_nat (limit_count l)) rest
    end.

(** The projection of one row. *)
Definition projected (exprs : list Expression) (cts : list ColumnType) (row : Row) : outcome Row :=
  mapM_o (λ '(e, ct), evalColumn e ct row) (zip exprs cts).

Definition project_pending {T} `{PullContract T} (p : PullProjection T) (cts : list ColumnType) (rws : list Row) : Prop :=
  proj_colTypes p = cts ∧ cts ≠ [] ∧ length (projColumns p) = length cts ∧
  ∃ cts' rest, pending (proj_child p) cts' rest ∧
    Forall2 (λ row out, projected (projColumns p) cts row = Ok out) rest rws.

(** A client that asks for pages of the given sizes, one after the other. *)
Fixpoint pages {T} `{PullExecutor T} (fuel : nat) (p : T) (limits : list Z) : outcome (list Rows * T) :=
  match limits with
  | [] => Ok ([], p)
  | limit :: limits' =>
      '(page, p) ← GetRows fuel p limit;
      '(rest, p) ← pages fuel p limits';
      Ok (page :: rest, p)
  end.

(** [rws] cut into pieces of the given sizes. *)
Fixpoint cut (rws : list Row) (limits : list Z) : list (list Row) :=
  match limits with
  | [] => []
  | limit :: limits' => take (Z.to_nat limit) rws :: cut (drop (Z.to_nat limit) rws) limits'
  end.

(** ** Lemmas: loops over the rows of a row set *)

Lemma append_rows_rep cts rws : ∀ r acc,
  columnTypes r = cts → rows_rep r acc → Forall (λ row : Row, length row = length cts) rws →
  ∃ r', foldM AppendRow r rws = Ok r' ∧ columnTypes r' = cts ∧ rows_rep r' (acc ++ rws).
Proof.
  induction rws as [|row rws IH]; intros r acc Hc Hr Hl; cbn [foldM].
  - exists r. by rewrite app_nil_r.
  - inv Hl. destruct (AppendRow_rep r acc row Hr) as (r1 & -> & Hc1 & Hr1); [done|]. osimpl.
    destruct (IH r1 (acc ++ [row])) as (r2 & -> & ? & Hr2); [congruence|done|done|].
    exists r2. by rewrite <- app_assoc in Hr2.
Qed.

Lemma foldM_GetRow {A} r rws (f : A → Row → outcome A) : rows_rep r rws →
  ∀ n start acc, (start + n ≤ length rws)%nat →
  foldM (λ a i, row ← GetRow r i; f a row) acc (seq start n) = foldM f acc (take n (drop start rws)).
Proof.
  intros Hr. induction n as [|n IH]; intros start acc Hn; [done|].
  destruct (lookup_lt_is_Some_2 rws start) as [row Hrow]; [lia|].
  rewrite (drop_S _ _ _ Hrow). cbn [seq foldM take]. rewrite (rep_GetRow _ _ _ _ Hr Hrow). osimpl.
  destruct (f acc row); osimpl; try done. apply IH. lia.
Qed.

Lemma foldM_all_rows {A} r rws (f : A → Row → outcome A) acc : rows_rep r rws → columnTypes r ≠ [] →
  foldM (λ a i, row ← GetRow r i; f a row) acc (seq 0 (RowCount r)) = foldM f acc rws.
Proof.
  intros Hr Hc. rewrite (rep_RowCount _ _ Hr Hc), (foldM_GetRow _ rws) by (done || lia).
  by rewrite drop_0, firstn_all.
Qed.

Lemma rep_shape r rws cts : rows_rep r rws → columnTypes r = cts → Forall (λ row : Row, length row = length cts) rws.
Proof. intros [_ H] <-. done. Qed.

Lemma rep_rowCount r rws : rows_rep r rws → columnTypes r ≠ [] → rowCount r = Z.of_nat (length rws).
Proof. intros H Hc. unfold rowCount. by rewrite (rep_RowCount _ _ H Hc). Qed.

(** Copying the rows from [start] to [end_] into a new row set. *)
Lemma appendRange_rep r rws cts start end_ :
  rows_rep r rws → columnTypes r = cts → 0 ≤ start → end_ ≤ Z.of_nat (length rws) →
  ∃ out, appendRange (NewRows cts) r start end_ = Ok out ∧ columnTypes out = cts ∧
    rows_rep out (take (Z.to_nat (end_ - start)) (drop (Z.to_nat start) rws)).
Proof.
  intros Hr Hc Hs He. unfold appendRange.
  destruct (decide (start ≤ end_)); [|replace (Z.to_nat (end_ - start)) with O by lia; eexists; split_and!; [done..|apply NewRows_rep]].
  rewrite (foldM_GetRow r rws AppendRow) by (done || lia).
  destruct (append_rows_rep cts (take (Z.to_nat (end_ - start)) (drop (Z.to_nat start) rws)) (NewRows cts) [])
    as (out & ? & ? & ?); [done|apply NewRows_rep|by apply Forall_take, Forall_drop, (rep_shape r)|]. by exists out.
Qed.

Lemma take_to_end {A} n m (l : list A) : (length l ≤ n + m)%nat → take (length l - n) (drop n l) = take m (drop n l).
Proof. intros. rewrite !take_ge; rewrite ?length_drop; try lia. done. Qed.

(** ** Static rows keep the contract *)

Lemma static_page s cts rws limit :
  static_pending s cts rws → 1 ≤ limit →
  ∃ enough out p', (∀ fuel, (enough ≤ fuel)%nat → GetRows fuel s limit = Ok (out, p')) ∧
    columnTypes out = cts ∧ rows_rep out (take (Z.to_nat limit) rws) ∧ static_pending p' cts (drop (Z.to_nat limit) rws).
Proof.
  intros (Hc & Hne & all & Hr & Hcur & ->) Hl. destruct s as [r cur]. simpl in *.
  unfold static_GetRows. simpl. rewrite (rep_rowCount _ _ Hr) by congruence.
  set (pe := if Z.of_nat (length all) <? cur + limit then _ else _).
  assert (Hpe : pe = Z.min (cur + limit) (Z.of_nat (length all))) by (unfold pe; case_match; lia).
  destruct (appendRange_rep r all cts cur pe) as (out & E & Hco & Hro); [done|done|lia|lia|].
  exists O, out, (MkStaticRows r (Z.max cur pe)). split_and!; [intros fuel _; rewrite Hc, E; done|done| |].
  - replace (take (Z.to_nat limit) (drop (Z.to_nat cur) all))
      with (take (Z.to_nat (pe - cur)) (drop (Z.to_nat cur) all)); [done|].
    destruct (decide (cur + limit ≤ Z.of_nat (length all))); [f_equal; lia|].
    rewrite !take_ge; rewrite ?length_drop; try lia. done.
  - split_and!; [done|done|]. exists all. simpl. split_and!; [done|lia|lia|].
    rewrite drop_drop. destruct (decide (cur + limit ≤ Z.of_nat (length all))); [f_equal; lia|].
    rewrite !drop_ge by lia. done.
Qed.

Lemma static_shape s cts rws :
  static_pending s cts rws → cts ≠ [] ∧ Forall (λ row : Row, length row = length cts) rws.
Proof.
  intros (Hc & Hne & all & Hr & _ & ->). split; [done|]. by apply Forall_drop, (rep_shape (static_rows s)).
Qed.

#[global] Instance static_contract : PullContract StaticRows :=
  { pending := static_pending; pending_shape := static_shape; pending_page := static_page }.

Section executors.
Context {T : Type} `{PullContract T}.

(** ** Limit keeps the contract *)

Lemma limit_shape l cts rws :
  limit_pending l cts rws → cts ≠ [] ∧ Forall (λ row : Row, length row = length cts) rws.
Proof.
  intros (_ & Hne & _ & _ & _ & all & _ & -> & Hm). split; [done|]. apply Forall_drop.
  destruct (limit_rows l) as [r|].
  - destruct Hm as (Hc & Hr & _). by apply (rep_shape r).
  - destruct Hm as (_ & rest & Hp & ->). by apply Forall_take, (pending_shape _ _ _ Hp).
Qed.

(** A page of the rows a limit has fetched. *)
Lemma limit_page_ok l r child all cts limit :
  limit_colTypes l = cts → cts ≠ [] → limit_offset l = 0 →
  0 ≤ limit_count l ≤ u64 (getOrderByMaxRows (limit_orderByMaxRows l) (limit_maxRows l)) → limit_count l < two63 →
  limit_count l ≠ 0 →
  columnTypes r = cts → rows_rep r all → 0 ≤ limit_cursor l ≤ Z.of_nat (length all) → 1 ≤ limit →
  ∃ out l', limit_page l r child limit = Ok (out, l') ∧ columnTypes out = cts ∧
    rows_rep out (take (Z.to_nat limit) (drop (Z.to_nat (limit_cursor l)) all)) ∧
    limit_pending l' cts (drop (Z.to_nat limit) (drop (Z.to_nat (limit_cursor l)) all)).
Proof.
  intros Hlc Hne Hoff Hcount Hc63 Hnz Hc Hr Hcur Hl. unfold limit_page. rewrite (rep_rowCount _ _ Hr) by congruence.
  set (e := if Z.of_nat (length all) <? limit_cursor l + limit then _ else _).
  assert (He : e = Z.min (limit_cursor l + limit) (Z.of_nat (length all))) by (unfold e; case_match; lia).
  set (l' := MkPullLimit _ _ _ _ _ _ _ _).
  assert (Hl' : limit_pending l' cts (drop (Z.to_nat limit) (drop (Z.to_nat (limit_cursor l)) all))).
  { unfold limit_pending; simpl. split_and!; try done; try lia. exists all. split_and!; [lia|lia| |done..].
    rewrite drop_drop. destruct (decide (limit_cursor l + limit ≤ Z.of_nat (length all))); [f_equal; lia|].
    rewrite !drop_ge by lia. done. }
  destruct ((limit_cursor l =? 0) && (Z.of_nat (length all) <=? e)) eqn:E.
  - apply andb_true_iff in E as [E1 E2]. exists r, l'. split_and!; [done|done| |done].
    apply Z.eqb_eq in E1. rewrite E1, drop_0, take_ge by lia. done.
  - rewrite Hlc. destruct (appendRange_rep r all cts (limit_cursor l) e) as (out & -> & Hco & Hro); [done|done|lia|lia|].
    exists out, l'. split_and!; [done|done| |done].
    replace (take (Z.to_nat limit) _) with (take (Z.to_nat (e - limit_cursor l)) (drop (Z.to_nat (limit_cursor l)) all)); [done|].
    destruct (decide (limit_cursor l + limit ≤ Z.of_nat (length all))); [f_equal; lia|].
    rewrite !take_ge; rewrite ?length_drop; try lia. done.
Qed.

Lemma limit_page_contract l cts rws limit :
  limit_pending l cts rws → 1 ≤ limit →
  ∃ enough out l', (∀ fuel, (enough ≤ fuel)%nat → GetRows fuel l limit = Ok (out, l')) ∧
    columnTypes out = cts ∧ rows_rep out (take (Z.to_nat limit) rws) ∧ limit_pending l' cts (drop (Z.to_nat limit) rws).
Proof.
  intros Hp Hl. pose proof Hp as (Hlc & Hne & Hoff & Hcount & Hc63 & all & Hcur & -> & Hm).
  cbn [GetRows limit_executor]. unfold limit_GetRows. rewrite (proj2 (Z.ltb_ge limit 1)) by lia. rewrite Hoff. simpl.
  rewrite (proj2 (Z.ltb_ge _ (limit_count l))) by lia.
  destruct (Z.eqb_spec (limit_count l) 0) as [Hz|Hz].
  { destruct (limit_rows l) eqn:El; [by destruct Hm as (_ & _ & ?)|].
    destruct Hm as (Hc0 & rest & Hrest & ->). rewrite Hz. change (Z.to_nat 0) with O. rewrite take_0, drop_nil, take_nil. exists O, (NewRows (limit_colTypes l)), l.
    rewrite drop_nil. split_and!; [done|done|apply NewRows_rep|].
    unfold limit_pending. rewrite El, Hc0. split_and!; try done; try lia. exists []. simpl. split_and!; try done. by exists rest; rewrite Hz. }
  destruct (limit_rows l) as [r|] eqn:El.
  - destruct Hm as (Hc & Hr & _).
    destruct (limit_page_ok l r (limit_child l) all cts limit) as (out & l' & E & ?); try done. exists O, out, l'. by rewrite E.
  - destruct Hm as (Hc0 & rest & Hrest & ->).
    destruct (pending_page _ _ _ (limit_count l) Hrest) as (n & r & c & Hget & Hc & Hr & _); [lia|].
    rewrite i64_small by (unfold i64_ok; lia).
    set (child := if rowCount r =? limit_count l then Close c else c).
    destruct (limit_page_ok l r child (take (Z.to_nat (limit_count l)) rest) cts limit) as (out & l' & E & ?); try done.
    exists n, out, l'. split; [|done]. intros fuel Hf. rewrite Hget by done. exact E.
Qed.

#[global] Instance limit_contract : PullContract (PullLimit T) :=
  { pending := limit_pending; pending_shape := limit_shape; pending_page := limit_page_contract }.

(** ** Select keeps the contract *)

Lemma select_shape p cts rws :
  select_pending p cts rws → cts ≠ [] ∧ Forall (λ row : Row, length row = length cts) rws.
Proof.
  intros (_ & kept & rest & _ & Hne & Hk & _ & -> & Hm). split; [done|]. apply Forall_app. split; [done|].
  destruct (moreInputRows p); [|by subst]. destruct (pending_shape _ _ _ Hm) as [_ Hs].
  rewrite Forall_forall in *. intros row [_ Hin]%list_elem_of_filter. by apply Hs.
Qed.

Lemma accept_rows_ok preds cts rws : ∀ avail kept,
  columnTypes avail = cts → rows_rep avail kept → Forall (λ row : Row, length row = length cts) rws →
  Forall (λ row, is_ok (accepts preds row) = true) rws →
  ∃ avail', foldM (λ avail row, ok ← accepts preds row; if (ok : bool) then AppendRow avail row else Ok avail) avail rws = Ok avail' ∧
    columnTypes avail' = cts ∧ rows_rep avail' (kept ++ filter (λ row, accepted preds row = true) rws).
Proof.
  induction rws as [|row rws IH]; intros avail kept Hc Hr Hl Ha; [exists avail; by rewrite app_nil_r|].
  apply Forall_cons in Hl as [Hl1 Hl]. apply Forall_cons in Ha as [Ha1 Ha]. cbn [foldM].
  destruct (accepts preds row) as [[]| | |] eqn:E; try done; osimpl.
  - rewrite filter_cons_True by (unfold accepted; by rewrite E).
    destruct (AppendRow_rep avail kept row Hr) as (a & -> & Hc1 & Hr1); [congruence|]. osimpl.
    destruct (IH a (kept ++ [row])) as (a' & -> & ? & Hr'); [congruence|done..|].
    exists a'. by rewrite <- app_assoc in Hr'.
  - rewrite filter_cons_False by (unfold accepted; by rewrite E). by apply IH.
Qed.

Lemma select_batch_ok preds cts rows rws avail kept :
  rows_rep rows rws → columnTypes rows = cts → cts ≠ [] → columnTypes avail = cts → rows_rep avail kept →
  Forall (λ row, is_ok (accepts preds row) = true) rws →
  ∃ avail', select_batch preds rows avail = Ok avail' ∧ columnTypes avail' = cts ∧
    rows_rep avail' (kept ++ filter (λ row, accepted preds row = true) rws).
Proof.
  intros Hr Hc Hne Hca Hra Ha. unfold select_batch.
  rewrite (foldM_all_rows rows rws (λ avail row, ok ← accepts preds row; if (ok : bool) then AppendRow avail row else Ok avail))
    by (done || congruence).
  apply accept_rows_ok; try done. by apply (rep_shape rows).
Qed.

(** The rounds of a select: enough of them fetch a page or reach the end of the input. *)
Lemma select_fill_ok size preds cts limit : 0 < size → ∀ n child avail kept rest, (length rest ≤ n)%nat →
  pending child cts rest → cts ≠ [] → columnTypes avail = cts → rows_rep avail kept →
  Forall (λ row, is_ok (accepts preds row) = true) rest →
  ∃ enough avail' more child' kept' rest',
    (∀ rounds fuel, (enough ≤ rounds)%nat → (enough ≤ fuel)%nat →
       select_fill rounds fuel size preds limit child avail = Ok (avail', more, child')) ∧
    columnTypes avail' = cts ∧ rows_rep avail' kept' ∧
    kept ++ filter (λ row, accepted preds row = true) rest = kept' ++ filter (λ row, accepted preds row = true) rest' ∧
    Forall (λ row, is_ok (accepts preds row) = true) rest' ∧
    (if more then pending child' cts rest' ∧ limit ≤ Z.of_nat (length kept') else rest' = []).
Proof.
  intros Hsize. induction n as [|n IH]; intros child avail kept rest Hn Hp Hne Hc Hr Ha.
  all: destruct (pending_page _ _ _ size Hp) as (m & rows & child1 & Hget & Hc1 & Hr1 & Hp1); [lia|].
  all: destruct (select_batch_ok preds cts rows (take (Z.to_nat size) rest) avail kept) as (avail1 & Hb & Hca & Hra);
    [done|done|done|done|done|by apply Forall_take|].
  all: pose proof (rep_rowCount _ _ Hr1 ltac:(congruence)) as Hcount; rewrite length_take in Hcount.
  all: destruct (decide (Z.of_nat (length rest) < size)) as [Hshort|Hlong].
  1,3: exists (S m), avail1, false, child1, (kept ++ filter (λ row, accepted preds row = true) rest), [];
    rewrite take_ge in Hra by lia; split_and!; try done; [|by rewrite app_nil_r];
    intros [|rounds] fuel ? ?; [lia|]; cbn [select_fill]; rewrite Hget by lia; osimpl; rewrite Hb; osimpl;
    rewrite (proj2 (Z.ltb_lt (rowCount rows) size)) by lia; done.
  { lia. }
  destruct (decide (limit ≤ rowCount avail1)) as [Henough|Hmore].
  - exists (S m), avail1, true, child1, (kept ++ filter (λ row, accepted preds row = true) (take (Z.to_nat size) rest)),
      (drop (Z.to_nat size) rest). split_and!; try done.
    + intros [|rounds] fuel ? ?; [lia|]. cbn [select_fill]. rewrite Hget by lia. osimpl. rewrite Hb. osimpl.
      rewrite (proj2 (Z.ltb_ge (rowCount rows) size)) by lia. by rewrite (proj2 (Z.leb_le limit (rowCount avail1))) by lia.
    + by rewrite <- app_assoc, <- filter_app, take_drop.
    + by apply Forall_drop.
    + by rewrite <- (rep_rowCount _ _ Hra) by congruence.
  - destruct (IH child1 avail1 (kept ++ filter (λ row, accepted preds row = true) (take (Z.to_nat size) rest))
      (drop (Z.to_nat size) rest)) as (k & avail' & more & child' & kept' & rest' & Hf & ? & ? & Heq & ? & ?);
      [rewrite length_drop; lia|done|done|done|done|by apply Forall_drop|].
    exists (S (m + k)), avail', more, child', kept', rest'. split_and!; try done.
    + intros [|rounds] fuel ? ?; [lia|]. cbn [select_fill]. rewrite Hget by lia. osimpl. rewrite Hb. osimpl.
      rewrite (proj2 (Z.ltb_ge (rowCount rows) size)) by lia. rewrite (proj2 (Z.leb_gt limit (rowCount avail1))) by lia.
      apply Hf; lia.
    + rewrite <- Heq. by rewrite <- app_assoc, <- filter_app, take_drop.
Qed.

Lemma select_split_ok cts limit avail rws :
  rows_rep avail rws → columnTypes avail = cts → cts ≠ [] → 1 ≤ limit →
  ∃ out new, select_split cts limit avail = Ok (out, new) ∧ columnTypes out = cts ∧
    rows_rep out (take (Z.to_nat limit) rws) ∧ kept_rows cts new (drop (Z.to_nat limit) rws).
Proof.
  intros Hr Hc Hne Hl. unfold select_split. rewrite (rep_RowCount _ _ Hr) by congruence.
  set (f := λ '(out, newOutRows) i, _).
  enough (Hk : ∀ k, (k ≤ length rws)%nat → ∃ out new, foldM f (NewRows cts, None) (seq 0 k) = Ok (out, new) ∧
    columnTypes out = cts ∧ rows_rep out (take (Z.to_nat limit) (take k rws)) ∧ kept_rows cts new (drop (Z.to_nat limit) (take k rws))).
  { destruct (Hk (length rws)) as (out & new & ? & ? & ? & ?); [done|]. rewrite firstn_all in *. by exists out, new. }
  pose proof (rep_shape _ _ _ Hr Hc) as Hs.
  induction k as [|k IH]; intros Hk.
  { exists (NewRows cts), None. rewrite take_0, take_nil, drop_nil. split_and!; [done|done|apply NewRows_rep|done]. }
  destruct IH as (out & new & E & Hco & Hro & Hn); [lia|].
  destruct (lookup_lt_is_Some_2 rws k) as [row Hrow]; [lia|].
  rewrite Forall_lookup in Hs. specialize (Hs _ _ Hrow).
  rewrite seq_S, foldM_app, E. osimpl. cbn [foldM]. unfold f. rewrite Nat.add_0_l, (rep_GetRow _ _ _ _ Hr Hrow). osimpl.
  rewrite (take_S_r _ _ _ Hrow). destruct (Z.ltb_spec (Z.of_nat k) limit).
  - destruct (AppendRow_rep out _ row Hro) as (out' & -> & Hco' & Hro'); [congruence|]. osimpl.
    exists out', new. split_and!; [done|congruence| |].
    + rewrite take_ge in Hro' by (rewrite length_take; lia).
      rewrite take_ge; [done|]. rewrite length_app, length_take. simpl. lia.
    + rewrite drop_ge in Hn by (rewrite length_take; lia).
      rewrite drop_ge; [done|]. rewrite length_app, length_take. simpl. lia.
  - assert (Hkept : columnTypes (default (NewRows cts) new) = cts ∧
      rows_rep (default (NewRows cts) new) (drop (Z.to_nat limit) (take k rws))).
    { destruct new; [done|]. simpl in *. rewrite Hn. split; [done|apply NewRows_rep]. }
    destruct Hkept as [Hck Hrk]. destruct (AppendRow_rep _ _ row Hrk) as (kept & -> & Hck' & Hrk'); [congruence|]. osimpl.
    assert (Htk : length (take k rws) = k) by (rewrite length_take; lia).
    exists out, (Some kept). split_and!; [done|done| |].
    + by rewrite take_app_le by lia.
    + simpl. split; [congruence|]. by rewrite drop_app_le by lia.
Qed.

Lemma select_page_contract p cts rws limit :
  select_pending p cts rws → 1 ≤ limit →
  ∃ enough out p', (∀ fuel, (enough ≤ fuel)%nat → GetRows fuel p limit = Ok (out, p')) ∧
    columnTypes out = cts ∧ rows_rep out (take (Z.to_nat limit) rws) ∧ select_pending p' cts (drop (Z.to_nat limit) rws).
Proof.
  intros (Hcts & kept & rest & Hkept & Hne & Hshape & Ha & -> & Hm) Hl.
  cbn [GetRows select_executor]. unfold select_GetRows. rewrite (proj2 (Z.ltb_ge limit 1)) by lia.
  set (preds := predicates p) in *. set (avail := default (NewRows (select_colTypes p)) (availRows p)).
  assert (Hav : columnTypes avail = cts ∧ rows_rep avail kept).
  { unfold avail. destruct (availRows p); simpl in *; [done|]. subst kept. split; [done|apply NewRows_rep]. }
  destruct Hav as [Hca Hra].
  assert (Hfill : ∃ enough avail' more child' kept' rest',
    (∀ fuel, (enough ≤ fuel)%nat →
      (if (rowCount avail <? limit) && moreInputRows p then select_fill fuel fuel batchSize preds limit (select_child p) avail
       else Ok (avail, moreInputRows p, select_child p)) = Ok (avail', more, child')) ∧
    columnTypes avail' = cts ∧ rows_rep avail' kept' ∧
    kept ++ filter (λ row, accepted preds row = true) rest = kept' ++ filter (λ row, accepted preds row = true) rest' ∧
    Forall (λ row, is_ok (accepts preds row) = true) rest' ∧
    (if more then pending child' cts rest' ∧ limit ≤ Z.of_nat (length kept') else rest' = [])).
  { destruct ((rowCount avail <? limit) && moreInputRows p) eqn:E.
    - apply andb_true_iff in E as [_ E]. rewrite E in Hm.
      destruct (select_fill_ok batchSize preds cts limit eq_refl (length rest) (select_child p) avail kept rest) as
        (n & avail' & more & child' & kept' & rest' & Hf & Hrest); try done.
      exists n, avail', more, child', kept', rest'. split; [|done]. intros fuel ?. by apply Hf.
    - exists O, avail, (moreInputRows p), (select_child p), kept, rest. split_and!; try done.
      destruct (moreInputRows p); [|done]. split; [done|]. rewrite andb_true_r, Z.ltb_ge in E.
      by rewrite <- (rep_rowCount _ _ Hra) by congruence. }
  destruct Hfill as (n & avail' & more & child' & kept' & rest' & Hf & Hca' & Hra' & -> & Ha' & Hm').
  pose proof (rep_rowCount _ _ Hra' ltac:(congruence)) as Hcount.
  pose proof (rep_shape _ _ _ Hra' Hca') as Hs'.
  destruct (decide (Z.of_nat (length kept') < limit)) as [Hshort|Hfull].
  - destruct more; [lia|]. subst rest'. rewrite filter_nil, app_nil_r.
    exists n, avail', (MkPullSelect (select_colTypes p) preds None false child').
    rewrite take_ge, drop_ge by lia. split_and!; try done.
    + intros fuel ?. rewrite Hf by done. osimpl. by rewrite (proj2 (Z.ltb_lt (rowCount avail') limit)) by lia.
    + split; [done|]. exists [], []. by split_and!.
  - destruct (select_split_ok cts limit avail' kept') as (out & new & Hsp & Hco & Hro & Hnew); try done.
    exists n, out, (MkPullSelect (select_colTypes p) preds new more child').
    rewrite take_app_le, drop_app_le by lia. split_and!; try done.
    + intros fuel ?. rewrite Hf by done. osimpl. rewrite (proj2 (Z.ltb_ge (rowCount avail') limit)) by lia.
      rewrite Hcts, Hsp. done.
    + split; [done|]. exists (drop (Z.to_nat limit) kept'), rest'. split_and!; try done; [by apply Forall_drop|].
      simpl. destruct more; [by destruct Hm'|done].
Qed.

#[global] Instance select_contract : PullContract (PullSelect T) :=
  { pending := select_pending; pending_shape := select_shape; pending_page := select_page_contract }.

(** ** Projection keeps the contract *)

Lemma length_projected exprs cts row out :
  length exprs = length cts → projected exprs cts row = Ok out → length out = length cts.
Proof.
  unfold projected. revert cts out. induction exprs as [|e exprs IH]; intros [|ct cts] out Hl; simplify_eq/=; [by intros [= <-]|].
  intros E. destruct (evalColumn e ct row) as [c| | |]; try done. osimpl in E.
  destruct (mapM_o _ _) as [cs| | |] eqn:E2 in E; try done. osimpl in E. injection E as <-. simpl. f_equal. by apply IH.
Qed.

Lemma project_shape p cts rws :
  project_pending p cts rws → cts ≠ [] ∧ Forall (λ row : Row, length row = length cts) rws.
Proof.
  intros (_ & Hne & Hl & cts' & rest & _ & Hf). split; [done|].
  induction Hf as [|row out rest rws E _ IH]; [done|]. constructor; [by eapply length_projected|done].
Qed.

(** Evaluating the columns one by one into the result appends the projected row. *)
Lemma project_cells cts row exprs : ∀ j r out,
  projected exprs (drop j cts) row = Ok out → length exprs = length (drop j cts) →
  foldMi (λ j result projColumn, colType ← index cts j; c ← evalColumn projColumn colType row; appendToColumn result j c) j r exprs =
  (cols ← foldMi (λ i cols c, appendCell cols i c) j (columns r) out; Ok (MkRows (columnTypes r) cols (numVirtualRows r))).
Proof.
  induction exprs as [|e exprs IH]; intros j r out Hp Hl.
  - destruct (drop j cts); [|done]. injection Hp as <-. osimpl. by destruct r.
  - destruct (drop j cts) as [|ct cts'] eqn:Ed; [done|].
    assert (Hct : cts !! j = Some ct) by (rewrite <- (Nat.add_0_r j), <- lookup_drop, Ed; done).
    assert (Hdr : drop (S j) cts = cts') by (rewrite (drop_S _ _ _ Hct) in Ed; congruence).
    unfold projected in Hp. cbn [zip zip_with mapM_o] in Hp. cbn [foldMi]. rewrite (index_ok _ _ _ Hct). osimpl.
    destruct (evalColumn e ct row) as [c| | |]; try done. osimpl in Hp. osimpl.
    destruct (mapM_o _ _) as [cs| | |] eqn:E2 in Hp; try done. osimpl in Hp. injection Hp as <-. cbn [foldMi].
    unfold appendToColumn. destruct (appendCell (columns r) j c) as [cols| | |]; try done. osimpl.
    rewrite (IH (S j) _ cs); [done|by rewrite Hdr|].
    rewrite Hdr. simpl in Hl. lia.
Qed.

Lemma project_row_ok exprs cts row out r acc :
  length exprs = length cts → columnTypes r = cts → rows_rep r acc → projected exprs cts row = Ok out →
  ∃ r', project_row cts exprs r row = Ok r' ∧ columnTypes r' = cts ∧ rows_rep r' (acc ++ [out]).
Proof.
  intros Hl Hc Hr Hp. pose proof (length_projected _ _ _ _ Hl Hp) as Hlo.
  destruct (rep_append_cells r acc out Hr) as (cols & Hf & Hrep); [congruence|].
  exists (MkRows (columnTypes r) cols (numVirtualRows r)). split_and!; [|done|by apply Hrep].
  unfold project_row. rewrite (project_cells cts row exprs 0 r out) by (rewrite ?drop_0; done). by rewrite Hf.
Qed.

Lemma project_rows_ok exprs cts rest rws : length exprs = length cts →
  Forall2 (λ row out, projected exprs cts row = Ok out) rest rws → ∀ r acc,
  columnTypes r = cts → rows_rep r acc →
  ∃ r', foldM (project_row cts exprs) r rest = Ok r' ∧ columnTypes r' = cts ∧ rows_rep r' (acc ++ rws).
Proof.
  intros Hl. induction 1 as [|row out rest rws E _ IH]; intros r acc Hc Hr; [exists r; by rewrite app_nil_r|].
  cbn [foldM]. destruct (project_row_ok exprs cts row out r acc) as (r1 & -> & Hc1 & Hr1); [done..|]. osimpl.
  destruct (IH r1 (acc ++ [out])) as (r2 & -> & ? & Hr2); [done..|]. exists r2. by rewrite <- app_assoc in Hr2.
Qed.

Lemma project_page_contract p cts rws limit :
  project_pending p cts rws → 1 ≤ limit →
  ∃ enough out p', (∀ fuel, (enough ≤ fuel)%nat → GetRows fuel p limit = Ok (out, p')) ∧
    columnTypes out = cts ∧ rows_rep out (take (Z.to_nat limit) rws) ∧ project_pending p' cts (drop (Z.to_nat limit) rws).
Proof.
  intros (Hcts & Hne & Hlen & cts' & rest & Hp & Hf) Hl.
  cbn [GetRows project_executor]. unfold project_GetRows. rewrite (proj2 (Z.ltb_ge limit 1)) by lia.
  destruct (pending_page _ _ _ limit Hp Hl) as (n & rows & child & Hget & Hc & Hr & Hp').
  destruct (project_rows_ok (projColumns p) cts (take (Z.to_nat limit) rest) (take (Z.to_nat limit) rws) Hlen
    ltac:(by apply Forall2_take) (NewRows cts) []) as (out & Ho & Hco & Hro); [done|apply NewRows_rep|].
  exists n, out, (MkPullProjection (proj_colTypes p) (projColumns p) child). split_and!; [|done|done|].
  - intros fuel Hfuel. rewrite Hget by done. osimpl. rewrite Hcts.
    destruct (pending_shape _ _ _ Hp) as [Hne' _].
    rewrite (foldM_all_rows rows _ (project_row cts (projColumns p)) _ Hr) by congruence. by rewrite Ho.
  - unfold project_pending. simpl. split_and!; try done. exists cts', (drop (Z.to_nat limit) rest).
    split; [done|]. by apply Forall2_drop.
Qed.

#[global] Instance project_contract : PullContract (PullProjection T) :=
  { pending := project_pending; pending_shape := project_shape; pending_page := project_page_contract }.

(** ** A client that reads page after page *)

Lemma pages_cut limits : ∀ p cts rws, pending p cts rws → Forall (λ l, 1 ≤ l) limits →
  ∃ enough outs p', (∀ fuel, (enough ≤ fuel)%nat → pages fuel p limits = Ok (outs, p')) ∧
    Forall2 rows_rep outs (cut rws limits) ∧ Forall (λ o, columnTypes o = cts) outs.
Proof.
  induction limits as [|limit limits IH]; intros p cts rws Hp Hl.
  - exists O, [], p. by split_and!.
  - apply Forall_cons in Hl as [Hl1 Hl].
    destruct (pending_page _ _ _ limit Hp Hl1) as (n & out & p1 & Hget & Hc & Hr & Hp1).
    destruct (IH p1 cts _ Hp1 Hl) as (k & outs & p2 & Hpages & Hrs & Hcs).
    exists (n + k)%nat, (out :: outs), p2. split_and!; [|by constructor..].
    intros fuel Hf. cbn [pages]. rewrite Hget by lia. osimpl. rewrite Hpages by lia. done.
Qed.

End executors.
