(* ===== verification/PullSort.v ===== *)
(** * The sorting executor

    src/pull/exec/sort.go. [PullSort] reads all the rows of its child, sorts them with
    [sort.SliceStable] of Go's library and returns them page by page. The comparison
    evaluates the sort expressions one after the other, with nulls first and a direction
    for each. [sort.SliceStable] is modelled by the insertion sort it uses on short
    slices; for a consistent comparison any stable sort returns the same slice, and the
    theorems state which one that is. *)

From stdpp Require Import base list list_numbers strings sorting.
From Stdlib Require Import ZArith Lia Permutation.
From S2P Require Import Prelude Encoding Timestamp Decimal DecimalArith Rows KeyEncoding PullExec.

(** ** Stable sorting *)

(** [x] moves to the left past the elements it is less than; the sorted part is kept
    last element first. *)
Fixpoint insertBack {A} (less : A → A → outcome bool) (x : A) (l : list A) : outcome (list A) :=
  match l with
  | [] => Ok [x]
  | y :: l' =>
      b ← less x y;
      if (b : bool) then r ← insertBack less x l'; Ok (y :: r) else Ok (x :: y :: l')
  end.

Definition sliceStable {A} (less : A → A → outcome bool) (l : list A) : outcome (list A) :=
  r ← foldM (λ acc x, insertBack less x acc) [] l;
  Ok (rev r).

(** ** The comparison *)

(** [val1 < val2] and [val2 < val1] of floats: a NaN is neither. *)
Definition float_cmp (f g : float64) : comparison :=
  if isNaN f || isNaN g then Eq else float_compare f g.

Definition nullsFirst {A} (cmp : A → A → outcome comparison) (v1 v2 : option A) : outcome comparison :=
  match v1, v2 with
  | None, Some _ => Ok Lt
  | Some _, None => Ok Gt
  | None, None => Ok Eq
  | Some a, Some b => cmp a b
  end.

(** One sort expression on two rows. *)
Definition compareColumn (e : Expression) (colType : ColumnType) (row1 row2 : Row) : outcome comparison :=
  match Type' colType with
  | TypeTinyInt | TypeInt | TypeBigInt =>
      v1 ← EvalInt e row1; v2 ← EvalInt e row2; nullsFirst (λ a b, Ok (Z.compare a b)) v1 v2
  | TypeDouble =>
      v1 ← EvalReal e row1; v2 ← EvalReal e row2; nullsFirst (λ a b, Ok (float_cmp a b)) v1 v2
  | TypeDecimal =>
      v1 ← EvalDec e row1; v2 ← EvalDec e row2;
      nullsFirst (λ a b, diff ← CompareTo a b; Ok (diff ?= 0)) v1 v2
  | TypeVarchar =>
      v1 ← EvalStr e row1; v2 ← EvalStr e row2; nullsFirst (λ a b, Ok (bytes_cmp a b)) v1 v2
  | TypeTimestamp =>
      v1 ← EvalTime e row1; v2 ← EvalTime e row2; nullsFirst (λ a b, Ok (Compare a b)) v1 v2
  | TypeUnknown => Panic "unexpected type"
  end.

(** The function handed to [sort.SliceStable], from the expression at [sortColIndex] on. *)
Fixpoint lessRows (sortByExpressions : list Expression) (sortColIndex : nat) (descending : list bool)
    (colTypes : list ColumnType) (row1 row2 : Row) : outcome bool :=
  match sortByExpressions with
  | [] => Ok false
  | sortbyExpr :: rest =>
      desc ← index descending sortColIndex;
      colType ← ReturnType sortbyExpr colTypes;
      c ← compareColumn sortbyExpr colType row1 row2;
      match c with
      | Lt => Ok (negb desc)
      | Gt => Ok desc
      | Eq => lessRows rest (S sortColIndex) descending colTypes row1 row2
      end
  end.

(** ** The executor *)

Definition queryBatchSize : Z := 10000.

Record PullSort (T : Type) := MkPullSort {
  sort_colTypes : list ColumnType;
  sortByExpressions : list Expression;
  sort_rows : option Rows;
  descending : list bool;
  rowIndex : Z;
  sort_maxRows : Z;
  sort_child : T;
  sort_orderByMaxRows : Z
}.
Arguments MkPullSort {T}.
Arguments sort_colTypes {T}.
Arguments sortByExpressions {T}.
Arguments sort_rows {T}.
Arguments descending {T}.
Arguments rowIndex {T}.
Arguments sort_maxRows {T}.
Arguments sort_child {T}.
Arguments sort_orderByMaxRows {T}.

Definition NewPullSort {T} (colTypes : list ColumnType) (desc : list bool) (exprs : list Expression)
    (maxRows orderByMaxRows : Z) (child : T) : PullSort T :=
  MkPullSort colTypes exprs None desc 0 maxRows child orderByMaxRows.

Definition sortRows {T} (p : PullSort T) (unsorted : Rows) : outcome Rows :=
  indexes ← sliceStable (λ i j,
    row1 ← GetRow unsorted i;
    row2 ← GetRow unsorted j;
    lessRows (sortByExpressions p) 0 (descending p) (sort_colTypes p) row1 row2) (seq 0 (RowCount unsorted));
  foldM (λ rows i, row ← GetRow unsorted i; AppendRow rows row) (NewRows (sort_colTypes p)) indexes.

(** All the rows of the child, in batches of [size]. *)
Fixpoint sort_read {T} `{PullExecutor T} (rounds fuel : nat) (size maxRows : Z) (child : T) (unsorted : Rows) : outcome (Rows * T) :=
  match rounds with
  | O => Undef
  | S rounds' =>
      '(batch, child) ← GetRows fuel child size;
      let rc := rowCount batch in
      if rc =? 0 then Ok (unsorted, child)
      else if maxRows <? rowCount unsorted + rc then Err "Query with order by cannot return more than"
      else
        unsorted ← AppendAll unsorted batch;
        if rc <? size then Ok (unsorted, child)
        else sort_read rounds' fuel size maxRows child unsorted
  end.

Definition with_sorted {T} (p : PullSort T) (rows : option Rows) (i : Z) (child : T) : PullSort T :=
  MkPullSort (sort_colTypes p) (sortByExpressions p) rows (descending p) i (sort_maxRows p) child (sort_orderByMaxRows p).

(** A page of the sorted rows. *)
Definition sort_page {T} (p : PullSort T) (rows : Rows) (limit : Z) (child : T) : outcome (Rows * PullSort T) :=
  let rowsLeft := rowCount rows - rowIndex p in
  let rowsToGet := Z.min rowsLeft limit in
  res ← appendRange (NewRows (sort_colTypes p)) rows (rowIndex p) (rowIndex p + rowsToGet);
  Ok (res, with_sorted p (Some rows) (rowIndex p + rowsToGet) child).

Definition sort_GetRows {T} `{PullExecutor T} (fuel : nat) (p : PullSort T) (limit : Z) : outcome (Rows * PullSort T) :=
  if limit <? 1 then Err "invalid limit"
  else
    let maxRows := getOrderByMaxRows (sort_orderByMaxRows p) (sort_maxRows p) in
    match sort_rows p with
    | Some rows => sort_page p rows limit (sort_child p)
    | None =>
        '(unsorted, child) ← sort_read fuel fuel queryBatchSize maxRows (sort_child p) (NewRows (sort_colTypes p));
        if rowCount unsorted <? 2 then Ok (unsorted, with_sorted p None (rowIndex p) child)
        else
          rows ← sortRows p unsorted;
          sort_page p rows limit child
    end.

#[global] Instance sort_executor {T} `{PullExecutor T} : PullExecutor (PullSort T) := {
  GetRows := sort_GetRows;
  Close p := with_sorted p (sort_rows p) (rowIndex p) (Close (sort_child p))
}.

(** ** What sorting promises *)

(** A consistent three-way comparison of the elements that satisfy [P]. *)
Record total_preorder {A} (P : A → Prop) (c : A → A → comparison) : Prop := {
  tp_sym a b : P a → P b → c b a = CompOpp (c a b);
  tp_trans a b d : P a → P b → P d → c a b ≠ Gt → c b d ≠ Gt → c a d ≠ Gt
}.

Fixpoint insert_sorted {A} (c : A → A → comparison) (x : A) (l : list A) : list A :=
  match l with
  | [] => [x]
  | y :: l' => match c x y with Lt => y :: insert_sorted c x l' | _ => x :: y :: l' end
  end.

(** The stable sort. *)
Definition stable_sort {A} (c : A → A → comparison) (l : list A) : list A :=
  rev (foldl (λ acc x, insert_sorted c x acc) [] l).

(** The value of a sort expression on a row. *)
Definition evaluated {V} (mk : V → value) (r : outcome (option V)) : option value :=
  match r with Ok (Some v) => Some (mk v) | _ => None end.

Definition sort_value (e : Expression) (colTypes : list ColumnType) (row : Row) : option value :=
  match ReturnType e colTypes with
  | Ok t =>
      match Type' t with
      | TypeTinyInt | TypeInt | TypeBigInt => evaluated VInt (EvalInt e row)
      | TypeDouble => evaluated VFloat (EvalReal e row)
      | TypeDecimal => evaluated VDecimal (EvalDec e row)
      | TypeVarchar => evaluated VString (EvalStr e row)
      | TypeTimestamp => evaluated VTimestamp (EvalTime e row)
      | TypeUnknown => None
      end
  | _ => None
  end.

(** The order of the rows: the expressions one after the other, each in its direction.
    [cell_compare] is the order of the column values, with null less than every value,
    that encoded keys also follow. *)
Definition column_cmp (e : Expression) (colTypes : list ColumnType) (row1 row2 : Row) : comparison :=
  cell_compare (sort_value e colTypes row1) (sort_value e colTypes row2).

Fixpoint rows_cmp (exprs : list Expression) (descs : list bool) (colTypes : list ColumnType) (row1 row2 : Row) : comparison :=
  match exprs, descs with
  | e :: exprs', desc :: descs' =>
      let c := column_cmp e colTypes row1 row2 in
      match (if desc then CompOpp c else c) with
      | Eq => rows_cmp exprs' descs' colTypes row1 row2
      | r => r
      end
  | _, _ => Eq
  end.

(** The evaluation of a sort expression succeeds, with a value that has a place in the
    order: floats that are numbers and well-formed decimals. *)
Definition has_value {V} (Pv : V → Prop) (r : outcome (option V)) : Prop :=
  ∃ v, r = Ok v ∧ match v with Some x => Pv x | None => True end.

Definition sort_cell_ok (e : Expression) (colTypes : list ColumnType) (row : Row) : Prop :=
  ∃ t, ReturnType e colTypes = Ok t ∧
  match Type' t with
  | TypeTinyInt | TypeInt | TypeBigInt => has_value (λ _, True) (EvalInt e row)
  | TypeDouble => has_value (λ f, isNaN f = false) (EvalReal e row)
  | TypeDecimal => has_value dec_ok (EvalDec e row)
  | TypeVarchar => has_value (λ _, True) (EvalStr e row)
  | TypeTimestamp => has_value (λ _, True) (EvalTime e row)
  | TypeUnknown => False
  end.

Definition sortable (exprs : list Expression) (colTypes : list ColumnType) (row : Row) : Prop :=
  Forall (λ e, sort_cell_ok e colTypes row) exprs.

Definition sort_pending {T} `{PullContract T} (p : PullSort T) (cts : list ColumnType) (rws : list Row) : Prop :=
  sort_colTypes p = cts ∧ cts ≠ [] ∧ (length (sortByExpressions p) ≤ length (descending p))%nat ∧
  match sort_rows p with
  | Some r => ∃ all, columnTypes r = cts ∧ rows_rep r all ∧ 0 ≤ rowIndex p ≤ Z.of_nat (length all) ∧
      rws = drop (Z.to_nat (rowIndex p)) all
  | None => rowIndex p = 0 ∧ ∃ rest, pending (sort_child p) cts rest ∧
      Z.of_nat (length rest) ≤ getOrderByMaxRows (sort_orderByMaxRows p) (sort_maxRows p) ∧
      Forall (sortable (sortByExpressions p) cts) rest ∧
      rws = stable_sort (rows_cmp (sortByExpressions p) (descending p) cts) rest
  end.

(** ** Lemmas: comparisons *)

Lemma tp_Z {A} (P : A → Prop) (f : A → Z) : total_preorder P (λ a b, f a ?= f b).
Proof.
  split.
  - intros a b _ _. apply Z.compare_antisym.
  - intros a b d _ _ _ H1 H2. destruct (Z.compare_spec (f a) (f b)), (Z.compare_spec (f b) (f d)), (Z.compare_spec (f a) (f d));
      congruence || lia.
Qed.

Lemma tp_ext {A} (P : A → Prop) c c' : (∀ a b, P a → P b → c a b = c' a b) → total_preorder P c → total_preorder P c'.
Proof.
  intros E [Hs Ht]. split.
  - intros a b Ha Hb. rewrite <- !E by done. by apply Hs.
  - intros a b d Ha Hb Hd. rewrite <- !E by done. by apply Ht.
Qed.

Lemma tp_weaken {A} (P Q : A → Prop) c : (∀ a, Q a → P a) → total_preorder P c → total_preorder Q c.
Proof. intros HPQ [Hs Ht]. split; [intros; by apply Hs; apply HPQ|]. intros a b d Ha Hb Hd. apply Ht; by apply HPQ. Qed.

Lemma tp_flip {A} (P : A → Prop) c : total_preorder P c → total_preorder P (λ a b, CompOpp (c a b)).
Proof.
  intros [Hs Ht]. split.
  - intros a b Ha Hb. by rewrite (Hs a b).
  - intros a b d Ha Hb Hd H1 H2. rewrite <- Hs in * by done. by apply (Ht d b a).
Qed.

Lemma tp_eq_trans {A} (P : A → Prop) c a b d : total_preorder P c → P a → P b → P d → c a b = Eq → c a d = c b d.
Proof.
  intros [Hs Ht] Ha Hb Hd E. assert (E' : c b a = Eq) by (rewrite Hs, E; done).
  assert (H1 : c b d ≠ Gt → c a d ≠ Gt) by (apply Ht; try done; congruence).
  assert (H2 : c a d ≠ Gt → c b d ≠ Gt) by (apply Ht; try done; congruence).
  assert (H3 : c d b ≠ Gt → c d a ≠ Gt) by (intros; apply (Ht d b a); try done; congruence).
  assert (H4 : c d a ≠ Gt → c d b ≠ Gt) by (intros; apply (Ht d a b); try done; congruence).
  rewrite (Hs a d), (Hs b d) in H3, H4 by done. destruct (c a d), (c b d); simpl in *; try done; exfalso;
    first [apply H1; congruence|apply H2; congruence|apply H3; congruence|apply H4; congruence].
Qed.

Lemma tp_lex {A} (P : A → Prop) c1 c2 : total_preorder P c1 → total_preorder P c2 →
  total_preorder P (λ a b, match c1 a b with Eq => c2 a b | r => r end).
Proof.
  intros H1 H2. split.
  - intros a b Ha Hb. rewrite (tp_sym _ _ H1 a b), (tp_sym _ _ H2 a b) by done. by destruct (c1 a b).
  - intros a b d Ha Hb Hd. pose proof (tp_trans _ _ H1 a b d Ha Hb Hd) as T1. pose proof (tp_trans _ _ H2 a b d Ha Hb Hd) as T2.
    pose proof (tp_eq_trans _ _ a b d H1 Ha Hb Hd) as E1.
    pose proof (tp_eq_trans _ _ d b a H1 Hd Hb Ha) as E2. pose proof (tp_eq_trans _ _ a d b H1 Ha Hd Hb) as E3.
    rewrite (tp_sym _ _ H1 b d) in E2, E3 by done. rewrite (tp_sym _ _ H1 a b), (tp_sym _ _ H1 a d) in E2 by done.
    destruct (c1 a b), (c1 b d), (c1 a d); simpl in *; intros; first [congruence|by apply T2|by destruct T1|by specialize (E1 eq_refl)|by specialize (E2 eq_refl)|by specialize (E3 eq_refl)].
Qed.

Lemma tp_bytes : total_preorder (λ _, True) bytes_cmp.
Proof.
  split; [intros; apply bytes_cmp_antisym|]. intros a b d _ _ _ H1 H2. change (bytes_le a d). by transitivity b.
Qed.

Lemma tp_time : total_preorder (λ _, True) Compare.
Proof.
  apply (tp_ext _ (λ a b, match datetimeToUint64 (coreTime a) ?= datetimeToUint64 (coreTime b) with
    Eq => Microsecond (coreTime a) ?= Microsecond (coreTime b) | r => r end)).
  - intros a b _ _. unfold Compare, compareTime. by case_match.
  - apply (tp_lex _ (λ a b, datetimeToUint64 (coreTime a) ?= datetimeToUint64 (coreTime b))
      (λ a b, Microsecond (coreTime a) ?= Microsecond (coreTime b))); [apply (tp_Z _ (λ a, datetimeToUint64 (coreTime a)))|apply (tp_Z _ (λ a, Microsecond (coreTime a)))].
Qed.

(** Comparing with nulls first is comparing cells. *)
Lemma nullsFirst_ok {V} (mk : V → value) (Pv : V → Prop) g (eval : Row → outcome (option V)) :
  (∀ a b, Pv a → Pv b → g a b = Ok (value_compare (mk a) (mk b))) →
  total_preorder Pv (λ a b, value_compare (mk a) (mk b)) →
  (∀ r1 r2, has_value Pv (eval r1) → has_value Pv (eval r2) →
     (v1 ← eval r1; v2 ← eval r2; nullsFirst g v1 v2) = Ok (cell_compare (evaluated mk (eval r1)) (evaluated mk (eval r2)))) ∧
  total_preorder (λ r, has_value Pv (eval r)) (λ r1 r2, cell_compare (evaluated mk (eval r1)) (evaluated mk (eval r2))).
Proof.
  intros Hg Hc. split; [|split].
  - intros r1 r2 ([v1|] & -> & H1) ([v2|] & -> & H2); osimpl; try done. simpl. by rewrite Hg.
  - intros r1 r2 ([v1|] & -> & H1) ([v2|] & -> & H2); try done. simpl. by apply Hc.
  - intros r1 r2 r3 ([v1|] & -> & H1) ([v2|] & -> & H2) ([v3|] & -> & H3); try done. simpl. by apply Hc.
Qed.

Lemma column_cmp_ok e cts :
  (∀ r1 r2, sort_cell_ok e cts r1 → sort_cell_ok e cts r2 →
     (t ← ReturnType e cts; compareColumn e t r1 r2) = Ok (column_cmp e cts r1 r2)) ∧
  total_preorder (sort_cell_ok e cts) (column_cmp e cts).
Proof.
  unfold column_cmp, sort_cell_ok, sort_value. destruct (ReturnType e cts) as [t| | |]; osimpl.
  2-4: split; [intros r1 r2 (t & [=] & _)|split; [intros r1 r2 (t & [=] & _)|intros r1 r2 r3 (t & [=] & _)]].
  assert (Hdec : total_preorder dec_ok (λ a b, value_of a ?= value_of b)) by apply tp_Z.
  assert (Hdec' : ∀ a b, dec_ok a → dec_ok b → (diff ← CompareTo a b; Ok (diff ?= 0)) = Ok (value_of a ?= value_of b)).
  { intros a b Ha Hb. rewrite CompareTo_ok by done. osimpl. unfold comparison_sign. by destruct (value_of a ?= value_of b). }
  assert (Hfl : total_preorder (λ f, isNaN f = false) float_compare) by apply (tp_Z _ float_rank).
  assert (Hfl' : ∀ a b, isNaN a = false → isNaN b = false → Ok (float_cmp a b) = Ok (float_compare a b)).
  { intros a b Ha Hb. unfold float_cmp. by rewrite Ha, Hb. }
  assert (Hint : total_preorder (λ _ : Z, True) Z.compare) by apply (tp_Z _ (λ a, a)).
  unfold compareColumn. destruct (Type' t) eqn:Et.
  1: split; [intros r1 r2 (t' & [= <-] & Hf); by rewrite Et in Hf|split; [intros r1 r2 (t' & [= <-] & Hf); by rewrite Et in Hf|
     intros r1 r2 r3 (t' & [= <-] & Hf); by rewrite Et in Hf]].
  all: match goal with |- context [nullsFirst ?g] =>
         first [destruct (nullsFirst_ok VInt _ g (EvalInt e) (λ a b _ _, eq_refl) Hint) as [Hok Htp]
               |destruct (nullsFirst_ok VFloat _ g (EvalReal e) Hfl' Hfl) as [Hok Htp]
               |destruct (nullsFirst_ok VDecimal _ g (EvalDec e) Hdec' Hdec) as [Hok Htp]
               |destruct (nullsFirst_ok VString _ g (EvalStr e) (λ a b _ _, eq_refl) tp_bytes) as [Hok Htp]
               |destruct (nullsFirst_ok VTimestamp _ g (EvalTime e) (λ a b _ _, eq_refl) tp_time) as [Hok Htp]] end.
  all: split; [|eapply tp_weaken; [|exact Htp]; intros r (t' & [= <-] & Hf); by rewrite Et in Hf].
  all: intros r1 r2 (t' & [= <-] & Hf1) (t'' & [= <-] & Hf2); rewrite Et in Hf1, Hf2; by apply Hok.
Qed.

Lemma rows_cmp_ok exprs cts : ∀ descs, total_preorder (sortable exprs cts) (rows_cmp exprs descs cts).
Proof.
  induction exprs as [|e exprs IH]; intros descs.
  - split; [done|]. simpl. congruence.
  - destruct descs as [|desc descs]; [split; simpl; congruence|].
    pose proof (tp_weaken _ (sortable (e :: exprs) cts) _ (λ r H, Forall_inv H) (proj2 (column_cmp_ok e cts))) as H1.
    pose proof (tp_weaken _ (sortable (e :: exprs) cts) _ (λ r H, Forall_inv_tail H) (IH descs)) as H2.
    cbn [rows_cmp]. destruct desc; [apply tp_lex; [by apply tp_flip|done]|by apply tp_lex].
Qed.

Lemma lessRows_ok exprs cts r1 r2 : ∀ i descs, sortable exprs cts r1 → sortable exprs cts r2 →
  (length exprs + i ≤ length descs)%nat →
  lessRows exprs i descs cts r1 r2 = Ok (bool_decide (rows_cmp exprs (drop i descs) cts r1 r2 = Lt)).
Proof.
  induction exprs as [|e exprs IH]; intros i descs H1 H2 Hl; [done|]. cbn [lessRows]. simpl in Hl.
  destruct (lookup_lt_is_Some_2 descs i) as [desc Hd]; [lia|]. rewrite (index_ok _ _ _ Hd). osimpl.
  apply Forall_cons in H1 as [H1 H1']. apply Forall_cons in H2 as [H2 H2'].
  pose proof (proj1 (column_cmp_ok e cts) r1 r2 H1 H2) as E. destruct (ReturnType e cts) as [t| | |]; try done.
  osimpl in E. osimpl. rewrite E. osimpl. rewrite (drop_S _ _ _ Hd). cbn [rows_cmp].
  destruct (column_cmp e cts r1 r2), desc; simpl; try done; apply IH; try done; lia.
Qed.

(** ** Lemmas: the stable sort *)

Section sorting.
Context {A : Type} (P : A → Prop) (c : A → A → comparison) (Hc : total_preorder P c).

Lemma insert_perm x (l : list A) : insert_sorted c x l ≡ₚ x :: l.
Proof. induction l as [|y l IH]; simpl; [done|]. destruct (c x y); try done. rewrite IH. apply perm_swap. Qed.

Lemma insert_P x (l : list A) : P x → Forall P l → Forall P (insert_sorted c x l).
Proof. intros Hx Hl. rewrite insert_perm. by constructor. Qed.

Lemma insert_StronglySorted x (l : list A) : P x → Forall P l →
  StronglySorted (λ a b, c b a ≠ Gt) l → StronglySorted (λ a b, c b a ≠ Gt) (insert_sorted c x l).
Proof using Hc.
  intros Hx. induction l as [|y l IH]; intros Hl Hs; simpl; [by repeat constructor|].
  apply Forall_cons in Hl as [Hy Hl]. apply StronglySorted_inv in Hs as [Hs Hall].
  assert (Hge : c x y ≠ Lt → StronglySorted (λ a b, c b a ≠ Gt) (x :: y :: l)).
  { intros Hxy. assert (Hyx : c y x ≠ Gt) by (rewrite (tp_sym _ _ Hc x y) by done; by destruct (c x y)).
    constructor; [by constructor|]. constructor; [done|]. rewrite Forall_forall in *. intros z Hz.
    apply (tp_trans _ _ Hc z y x); auto. }
  destruct (c x y) eqn:E; [by apply Hge|..|by apply Hge]. constructor; [by apply IH|].
  rewrite insert_perm. constructor; [congruence|done].
Qed.

Lemma insert_stable x r (l : list A) : P x → P r → Forall P l →
  filter (λ y, c y r = Eq) (insert_sorted c x l) = filter (λ y, c y r = Eq) (x :: l).
Proof using Hc.
  intros Hx Hr. induction l as [|y l IH]; intros Hl; [done|]. apply Forall_cons in Hl as [Hy Hl].
  cbn [insert_sorted]. destruct (c x y) eqn:E; try done.
  rewrite (filter_cons _ y), IH by done. rewrite !(filter_cons _ x). rewrite (filter_cons _ y).
  destruct (decide (c y r = Eq)) as [Ey|], (decide (c x r = Eq)) as [Ex|]; try done.
  exfalso. pose proof (tp_eq_trans _ _ x r y Hc Hx Hr Hy Ex) as E2. rewrite (tp_sym _ _ Hc y r), Ey in E2 by done. simpl in E2. congruence.
Qed.

Lemma StronglySorted_snoc (R : A → A → Prop) (l : list A) x :
  StronglySorted R l → Forall (λ y, R y x) l → StronglySorted R (l ++ [x]).
Proof.
  induction 1 as [|y l Hs IH Hall]; intros Hx; simpl; [by repeat constructor|].
  apply Forall_cons in Hx as [Hy Hx]. constructor; [by apply IH|]. apply Forall_app. by repeat constructor.
Qed.

Lemma StronglySorted_rev (R : A → A → Prop) (l : list A) :
  StronglySorted (λ a b, R b a) l → StronglySorted R (rev l).
Proof.
  induction 1 as [|y l Hs IH Hall]; simpl; [constructor|]. apply StronglySorted_snoc; [done|].
  by apply Forall_rev.
Qed.

Lemma stable_sort_ok (l : list A) : Forall P l →
  stable_sort c l ≡ₚ l ∧ StronglySorted (λ a b, c a b ≠ Gt) (stable_sort c l) ∧
  ∀ r, P r → filter (λ y, c y r = Eq) (stable_sort c l) = filter (λ y, c y r = Eq) l.
Proof using Hc.
  intros Hl. unfold stable_sort.
  enough (HI : foldl (λ acc x, insert_sorted c x acc) [] l ≡ₚ l ∧
    StronglySorted (λ a b, c b a ≠ Gt) (foldl (λ acc x, insert_sorted c x acc) [] l) ∧
    ∀ r, P r → filter (λ y, c y r = Eq) (rev (foldl (λ acc x, insert_sorted c x acc) [] l)) = filter (λ y, c y r = Eq) l).
  { destruct HI as (H1 & H2 & H3). split_and!; [by rewrite <- Permutation_rev|by apply StronglySorted_rev|done]. }
  induction l as [|x l IH] using rev_ind; [split_and!; [done|constructor|done]|].
  apply Forall_app in Hl as [Hl [Hx _]%Forall_cons]. destruct (IH Hl) as (H1 & H2 & H3). rewrite foldl_snoc.
  set (acc := foldl _ _ l) in *. assert (Hacc : Forall P acc) by (by rewrite H1). split_and!.
  - rewrite insert_perm, H1. apply Permutation_cons_append.
  - by apply insert_StronglySorted.
  - intros r Hr. specialize (H3 r Hr). rewrite filter_app, <- H3. 
    assert (Hfr : ∀ k, filter (λ y, c y r = Eq) (rev k) = rev (filter (λ y, c y r = Eq) k)).
    { induction k as [|y k IHk]; [done|]. simpl. rewrite filter_app, IHk, (filter_cons _ y), filter_cons, filter_nil.
      destruct (decide (c y r = Eq)); simpl; [done|by rewrite app_nil_r]. }
    rewrite !Hfr, insert_stable by done. rewrite !filter_cons, filter_nil. destruct (decide (c x r = Eq)); simpl; [done|by rewrite app_nil_r].
Qed.

(** The monadic sort with a comparison that does not fail. *)
Lemma insertBack_ok {B} (row : B → A) less x (l : list B) :
  (∀ y, y ∈ l → less x y = Ok (bool_decide (c (row x) (row y) = Lt))) →
  ∃ r, insertBack less x l = Ok r ∧ row <$> r = insert_sorted c (row x) (row <$> l) ∧ r ≡ₚ x :: l.
Proof.
  induction l as [|y l IH]; intros Hless; cbn [insertBack]; [by eexists|].
  rewrite Hless by left. osimpl. rewrite fmap_cons. cbn [insert_sorted]. case_bool_decide as E.
  - rewrite E. destruct IH as (r & -> & Er & Hp); [intros; apply Hless; by right|]. osimpl. exists (y :: r).
    split_and!; [done|by rewrite fmap_cons, Er|rewrite Hp; apply perm_swap].
  - eexists. split_and!; [done| |done]. by destruct (c (row x) (row y)).
Qed.

Lemma sliceStable_ok {B} (row : B → A) less (l : list B) :
  (∀ x y, x ∈ l → y ∈ l → less x y = Ok (bool_decide (c (row x) (row y) = Lt))) →
  ∃ r, sliceStable less l = Ok r ∧ row <$> r = stable_sort c (row <$> l) ∧ r ≡ₚ l.
Proof.
  intros Hless. unfold sliceStable, stable_sort.
  enough (HI : ∃ r, foldM (λ acc x, insertBack less x acc) [] l = Ok r ∧
    row <$> r = foldl (λ acc x, insert_sorted c x acc) [] (row <$> l) ∧ r ≡ₚ l).
  { destruct HI as (r & -> & E & Hp). osimpl. exists (rev r). split_and!; [done| |by rewrite <- Permutation_rev].
    rewrite <- E. apply map_rev. }
  induction l as [|x l IH] using rev_ind; [by exists []|].
  destruct IH as (r & E & Er & Hp); [intros; apply Hless; apply elem_of_app; by left|].
  rewrite foldM_app, E. osimpl. cbn [foldM].
  destruct (insertBack_ok row less x r) as (r' & -> & Er' & Hp').
  { intros y Hy. apply Hless; apply elem_of_app; [right; by left|left]. by rewrite <- Hp. }
  osimpl. exists r'. split_and!; [done| |].
  - by rewrite fmap_app, foldl_app, <- Er, Er'.
  - rewrite Hp', Hp. apply Permutation_cons_append.
Qed.

End sorting.

(** ** The executor keeps the contract *)

Definition row_at (rws : list Row) (i : nat) : Row := default [] (rws !! i).

Lemma row_at_all rws : row_at rws <$> seq 0 (length rws) = rws.
Proof.
  apply list_eq. intros i. rewrite list_lookup_fmap. destruct (decide (i < length rws)%nat).
  - rewrite lookup_seq_lt by done. simpl. unfold row_at. destruct (lookup_lt_is_Some_2 rws i) as [row ->]; done.
  - rewrite lookup_seq_ge by lia. simpl. symmetry. apply lookup_ge_None. lia.
Qed.

Lemma GetRow_row_at r rws i : rows_rep r rws → (i < length rws)%nat → GetRow r i = Ok (row_at rws i).
Proof.
  intros Hr Hi. destruct (lookup_lt_is_Some_2 rws i) as [row Hrow]; [done|]. unfold row_at. rewrite Hrow.
  by apply (rep_GetRow _ _ _ _ Hr).
Qed.

Lemma foldM_rows_at r rws idxs : rows_rep r rws → Forall (λ i, (i < length rws)%nat) idxs → ∀ acc,
  foldM (λ rows i, row ← GetRow r i; AppendRow rows row) acc idxs = foldM AppendRow acc (row_at rws <$> idxs).
Proof.
  intros Hr. induction 1 as [|i idxs Hi _ IH]; intros acc; [done|]. rewrite fmap_cons. cbn [foldM].
  rewrite (GetRow_row_at r rws) by done. osimpl. destruct (AppendRow acc _); osimpl; done.
Qed.

Lemma AppendAll_rep cts r other acc rws : rows_rep r acc → columnTypes r = cts → rows_rep other rws → columnTypes other = cts → cts ≠ [] →
  ∃ r', AppendAll r other = Ok r' ∧ columnTypes r' = cts ∧ rows_rep r' (acc ++ rws).
Proof.
  intros Hr Hc Ho Hco Hne. unfold AppendAll. rewrite (foldM_all_rows other rws AppendRow) by (done || congruence).
  apply append_rows_rep; try done. by apply (rep_shape other).
Qed.

Section executor.
Context {T : Type} `{PullContract T}.

Lemma sortRows_ok (p : PullSort T) unsorted rest cts :
  sort_colTypes p = cts → cts ≠ [] → (length (sortByExpressions p) ≤ length (descending p))%nat →
  columnTypes unsorted = cts → rows_rep unsorted rest → Forall (sortable (sortByExpressions p) cts) rest →
  ∃ r, sortRows p unsorted = Ok r ∧ columnTypes r = cts ∧
    rows_rep r (stable_sort (rows_cmp (sortByExpressions p) (descending p) cts) rest).
Proof.
  intros Hct Hne Hdesc Hcu Hru Hs. unfold sortRows. rewrite Hct, (rep_RowCount _ _ Hru) by congruence.
  set (cmp := rows_cmp _ _ _).
  destruct (sliceStable_ok cmp (row_at rest) (λ i j, row1 ← GetRow unsorted i; row2 ← GetRow unsorted j;
    lessRows (sortByExpressions p) 0 (descending p) cts row1 row2) (seq 0 (length rest))) as (idxs & E & Er & Hp).
  { intros i j Hi%elem_of_seq Hj%elem_of_seq. rewrite !(GetRow_row_at unsorted rest) by (done || lia). osimpl.
    rewrite Forall_lookup in Hs. unfold row_at.
    destruct (lookup_lt_is_Some_2 rest i) as [r1 E1]; [lia|]. destruct (lookup_lt_is_Some_2 rest j) as [r2 E2]; [lia|].
    rewrite E1, E2. simpl. rewrite lessRows_ok by (lia || eauto). by rewrite drop_0. }
  rewrite E. osimpl. rewrite row_at_all in Er.
  assert (Hidx : Forall (λ i, (i < length rest)%nat) idxs) by (rewrite Hp; apply Forall_forall; intros i Hi%elem_of_seq; lia).
  rewrite (foldM_rows_at unsorted rest) by done. rewrite Er.
  apply (append_rows_rep cts _ (NewRows cts) []); [done|apply NewRows_rep|]. unfold cmp.
  rewrite (proj1 (stable_sort_ok _ _ (rows_cmp_ok (sortByExpressions p) cts (descending p)) rest Hs)).
  by apply (rep_shape unsorted).
Qed.

(** One more batch of the child, up to the last. *)
Lemma sort_read_ok cts size maxRows : 0 < size → ∀ n child unsorted got rest, (length rest ≤ n)%nat →
  pending child cts rest → cts ≠ [] → columnTypes unsorted = cts → rows_rep unsorted got →
  Z.of_nat (length got + length rest) ≤ maxRows →
  ∃ enough r child', (∀ rounds fuel, (enough ≤ rounds)%nat → (enough ≤ fuel)%nat →
      sort_read rounds fuel size maxRows child unsorted = Ok (r, child')) ∧
    columnTypes r = cts ∧ rows_rep r (got ++ rest) ∧ pending child' cts [].
Proof.
  intros Hsize. induction n as [|n IH]; intros child unsorted got rest Hn Hp Hne Hc Hr Hmax.
  all: destruct (pending_page _ _ _ size Hp) as (m & batch & child1 & Hget & Hc1 & Hr1 & Hp1); [lia|].
  all: pose proof (rep_rowCount _ _ Hr1 ltac:(congruence)) as Hcount; rewrite length_take in Hcount.
  all: pose proof (rep_rowCount _ _ Hr ltac:(congruence)) as Hgot.
  all: destruct (AppendAll_rep cts unsorted batch got (take (Z.to_nat size) rest)) as (r1 & Ha & Hcr & Hrr); [done..|].
  all: destruct (decide (rest = [])) as [->|Hrest].
  1,3: exists (S m), unsorted, child1; rewrite app_nil_r; rewrite drop_nil in Hp1; split_and!; try done;
    intros [|rounds] fuel ? ?; [lia|]; cbn [sort_read]; rewrite Hget by lia; osimpl;
    rewrite (proj2 (Z.eqb_eq (rowCount batch) 0)) by (rewrite Hcount; simpl; lia); done.
  1: destruct rest; simpl in Hn; lia || done.
  assert (length rest ≠ 0%nat) by (by destruct rest).
  destruct (decide (Z.of_nat (length rest) < size)) as [Hshort|Hlong].
  - exists (S m), r1, child1. rewrite take_ge in Hrr by lia. rewrite drop_ge in Hp1 by lia. split_and!; try done.
    intros [|rounds] fuel ? ?; [lia|]. cbn [sort_read]. rewrite Hget by lia. osimpl.
    rewrite (proj2 (Z.eqb_neq (rowCount batch) 0)) by lia. rewrite (proj2 (Z.ltb_ge maxRows _)) by lia. rewrite Ha. osimpl.
    by rewrite (proj2 (Z.ltb_lt (rowCount batch) size)) by lia.
  - destruct (IH child1 r1 (got ++ take (Z.to_nat size) rest) (drop (Z.to_nat size) rest))
      as (k & r & child' & Hf & Hcr' & Hrr' & Hp'); try done; [rewrite length_drop; lia|rewrite length_app, length_take, length_drop; lia|].
    exists (S (m + k)), r, child'. rewrite <- app_assoc, take_drop in Hrr'. split_and!; try done.
    intros [|rounds] fuel ? ?; [lia|]. cbn [sort_read]. rewrite Hget by lia. osimpl.
    rewrite (proj2 (Z.eqb_neq (rowCount batch) 0)) by lia. rewrite (proj2 (Z.ltb_ge maxRows _)) by lia. rewrite Ha. osimpl.
    rewrite (proj2 (Z.ltb_ge (rowCount batch) size)) by lia. apply Hf; lia.
Qed.

Lemma sort_page_ok (p : PullSort T) r child all cts limit :
  sort_colTypes p = cts → cts ≠ [] → (length (sortByExpressions p) ≤ length (descending p))%nat →
  columnTypes r = cts → rows_rep r all → 0 ≤ rowIndex p ≤ Z.of_nat (length all) → 1 ≤ limit →
  ∃ out p', sort_page p r limit child = Ok (out, p') ∧ columnTypes out = cts ∧
    rows_rep out (take (Z.to_nat limit) (drop (Z.to_nat (rowIndex p)) all)) ∧
    sort_pending p' cts (drop (Z.to_nat limit) (drop (Z.to_nat (rowIndex p)) all)).
Proof.
  intros Hct Hne Hdesc Hc Hr Hidx Hl. unfold sort_page. rewrite (rep_rowCount _ _ Hr) by congruence. rewrite Hct.
  set (n := Z.min _ limit). destruct (appendRange_rep r all cts (rowIndex p) (rowIndex p + n)) as (out & -> & Hco & Hro); [done|done|lia|lia|].
  osimpl. do 2 eexists. split_and!; [done|done| |].
  - replace (rowIndex p + n - rowIndex p) with n in Hro by lia.
    destruct (decide (limit ≤ Z.of_nat (length all) - rowIndex p)); [by replace limit with n by lia|].
    rewrite take_ge in * by (rewrite ?length_drop; lia). done.
  - unfold sort_pending. simpl. split_and!; try done. exists all. split_and!; try done; try lia.
    rewrite drop_drop. destruct (decide (limit ≤ Z.of_nat (length all) - rowIndex p)); [f_equal; lia|].
    rewrite !drop_ge by lia. done.
Qed.

Lemma stable_sort_short {A} (c : A → A → comparison) (l : list A) : (length l < 2)%nat → stable_sort c l = l.
Proof. destruct l as [|x [|y l]]; simpl; [done|done|lia]. Qed.

Lemma sort_page_contract p cts rws limit :
  sort_pending p cts rws → 1 ≤ limit →
  ∃ enough out p', (∀ fuel, (enough ≤ fuel)%nat → GetRows fuel p limit = Ok (out, p')) ∧
    columnTypes out = cts ∧ rows_rep out (take (Z.to_nat limit) rws) ∧ sort_pending p' cts (drop (Z.to_nat limit) rws).
Proof.
  intros (Hct & Hne & Hdesc & Hm) Hl. cbn [GetRows sort_executor]. unfold sort_GetRows.
  rewrite (proj2 (Z.ltb_ge limit 1)) by lia. destruct (sort_rows p) as [r|] eqn:Er.
  - destruct Hm as (all & Hc & Hr & Hidx & ->).
    destruct (sort_page_ok p r (sort_child p) all cts limit) as (out & p' & E & ?); try done. exists O, out, p'. by rewrite E.
  - destruct Hm as (Hi0 & rest & Hp & Hmax & Hs & ->).
    destruct (sort_read_ok cts queryBatchSize _ eq_refl (length rest) (sort_child p) (NewRows cts) [] rest (le_n _) Hp Hne eq_refl (NewRows_rep cts) Hmax)
      as (n & r & child & Hread & Hc & Hr & Hp'). simpl in Hr. pose proof (rep_rowCount _ _ Hr ltac:(congruence)) as Hcount.
    destruct (decide (length rest < 2)%nat) as [Hshort|Hlong].
    + rewrite stable_sort_short by done. exists n, r, (with_sorted p None (rowIndex p) child).
      rewrite take_ge, drop_ge by lia. split_and!; try done.
      * intros fuel Hf. rewrite Hct, Hread by done. osimpl. by rewrite (proj2 (Z.ltb_lt (rowCount r) 2)) by lia.
      * unfold sort_pending. simpl. split_and!; try done. exists []. split_and!; try done. simpl. lia.
    + destruct (sortRows_ok p r rest cts) as (sorted & Hsr & Hcs & Hrs); try done.
      destruct (sort_page_ok p sorted child _ cts limit Hct Hne Hdesc Hcs Hrs) as (out & p' & E & Hco & Hro & Hp2);
        [rewrite Hi0; lia|done|]. rewrite Hi0, drop_0 in Hro, Hp2.
      exists n, out, p'. split_and!; try done. intros fuel Hf. rewrite Hct, Hread by done. osimpl.
      rewrite (proj2 (Z.ltb_ge (rowCount r) 2)) by lia. rewrite Hsr. osimpl. done.
Qed.

Lemma sort_shape p cts rws :
  sort_pending p cts rws → cts ≠ [] ∧ Forall (λ row : Row, length row = length cts) rws.
Proof.
  intros (Hct & Hne & _ & Hm). split; [done|]. destruct (sort_rows p) as [r|].
  - destruct Hm as (all & Hc & Hr & _ & ->). by apply Forall_drop, (rep_shape r).
  - destruct Hm as (_ & rest & Hp & _ & Hs & ->).
    rewrite (proj1 (stable_sort_ok _ _ (rows_cmp_ok (sortByExpressions p) cts (descending p)) rest Hs)).
    apply (pending_shape _ _ _ Hp).
Qed.

#[global] Instance sort_contract : PullContract (PullSort T) :=
  { pending := sort_pending; pending_shape := sort_shape; pending_page := sort_page_contract }.

(** More rows than allowed: the read fails. *)
Lemma sort_read_too_many cts size maxRows : 0 < size → 0 ≤ maxRows → ∀ n child unsorted got rest, (length rest ≤ n)%nat →
  pending child cts rest → cts ≠ [] → columnTypes unsorted = cts → rows_rep unsorted got →
  Z.of_nat (length got) ≤ maxRows → maxRows < Z.of_nat (length got + length rest) →
  ∃ enough, ∀ rounds fuel, (enough ≤ rounds)%nat → (enough ≤ fuel)%nat →
    sort_read rounds fuel size maxRows child unsorted = Err "Query with order by cannot return more than".
Proof.
  intros Hsize Hpos. induction n as [|n IH]; intros child unsorted got rest Hn Hp Hne Hc Hr Hgot Hmax.
  { destruct rest; simpl in *; lia. }
  destruct (pending_page _ _ _ size Hp) as (m & batch & child1 & Hget & Hc1 & Hr1 & Hp1); [lia|].
  pose proof (rep_rowCount _ _ Hr1 ltac:(congruence)) as Hcount. rewrite length_take in Hcount.
  pose proof (rep_rowCount _ _ Hr ltac:(congruence)) as Hg.
 
  destruct (decide (maxRows < rowCount unsorted + rowCount batch)) as [Hover|Hfit].
  - exists (S m). intros [|rounds] fuel ? ?; [lia|]. cbn [sort_read]. rewrite Hget by lia. osimpl.
    rewrite (proj2 (Z.eqb_neq (rowCount batch) 0)) by lia. by rewrite (proj2 (Z.ltb_lt maxRows _)) by lia.
  - destruct (AppendAll_rep cts unsorted batch got (take (Z.to_nat size) rest)) as (r1 & Ha & Hcr & Hrr); [done..|].
    destruct (IH child1 r1 (got ++ take (Z.to_nat size) rest) (drop (Z.to_nat size) rest)) as (k & Hk);
      try done; rewrite ?length_app, ?length_take, ?length_drop; try lia.
    exists (S (m + k)). intros [|rounds] fuel ? ?; [lia|]. cbn [sort_read]. rewrite Hget by lia. osimpl.
    rewrite (proj2 (Z.eqb_neq (rowCount batch) 0)) by lia. rewrite (proj2 (Z.ltb_ge maxRows _)) by lia. rewrite Ha. osimpl.
    rewrite (proj2 (Z.ltb_ge (rowCount batch) size)) by lia. apply Hk; lia.
Qed.

End executor.

(** ** Sorting and query pipelines *)

(** The rows of a query: filtered, projected, sorted and cut off. *)
Definition query_rows (preds exprs sortExprs : list Expression) (cts : list ColumnType) (descs : list bool) (count : Z)
    (rest projectedRows : list Row) : Prop :=
  ∃ out, Forall2 (λ row o, projected exprs cts row = Ok o) (filter (λ row, accepted preds row = true) rest) out ∧
    Forall (sortable sortExprs cts) out ∧
    projectedRows = take (Z.to_nat count) (stable_sort (rows_cmp sortExprs descs cts) out).

(** C18. Sorting is correct and stable: the sorted rows are the given rows in another order;
    they go up in the order of the values of the sort expressions, the first expression
    on which two rows differ deciding, down where the expression is descending, a null
    being less than every value; and rows that are equal in all sort expressions keep
    the order in which they were read. *)
Theorem sortRows_correct {T} (p : PullSort T) (unsorted : Rows) (rest : list Row)
    (cmp := rows_cmp (sortByExpressions p) (descending p) (sort_colTypes p)) :
  sort_colTypes p ≠ [] → (length (sortByExpressions p) ≤ length (descending p))%nat →
  columnTypes unsorted = sort_colTypes p → rows_rep unsorted rest →
  Forall (sortable (sortByExpressions p) (sort_colTypes p)) rest →
  ∃ r sorted, sortRows p unsorted = Ok r ∧ rows_rep r sorted ∧ sorted ≡ₚ rest ∧
    StronglySorted (λ a b, cmp a b ≠ Gt) sorted ∧
    ∀ y, y ∈ rest → filter (λ x, cmp x y = Eq) sorted = filter (λ x, cmp x y = Eq) rest.
Proof.
  intros Hne Hd Hc Hr Hs. destruct (sortRows_ok p unsorted rest (sort_colTypes p)) as (r & E & _ & Hrep); try done.
  pose proof (rows_cmp_ok (sortByExpressions p) (sort_colTypes p) (descending p)) as Hcmp.
  destruct (stable_sort_ok _ _ Hcmp rest Hs) as (Hperm & Hsort & Hst). fold cmp in Hperm, Hsort, Hst.
  exists r, (stable_sort cmp rest). split_and!; try done. intros y Hy. apply Hst. rewrite Forall_forall in Hs. by apply Hs.
Qed.

(** C17. A query pipeline returns what the query asks for, page by page: reading a limit over
    a sort over a projection over a selection gives, for any page sizes, the first [count]
    rows of the sorted projections of the accepted rows, cut into those pages; every loop
    ends, and a page shorter than asked for is the last. *)
Theorem query_pages {T} `{PullContract T} (child : T) (preds exprs sortExprs : list Expression) (cts0 cts : list ColumnType)
    (descs : list bool) (count maxRows orderByMaxRows : Z) (rest rws : list Row) (limits : list Z) :
  pending child cts0 rest → cts ≠ [] → length exprs = length cts → (length sortExprs ≤ length descs)%nat →
  Forall (λ row, is_ok (accepts preds row) = true) rest →
  query_rows preds exprs sortExprs cts descs count rest rws →
  Z.of_nat (length rest) ≤ getOrderByMaxRows orderByMaxRows maxRows < two63 →
  0 ≤ count ≤ getOrderByMaxRows orderByMaxRows maxRows → Forall (λ l, 1 ≤ l) limits →
  ∃ enough outs p', (∀ fuel, (enough ≤ fuel)%nat →
    pages fuel
      (NewPullLimit cts count 0 maxRows orderByMaxRows
        (NewPullSort cts descs sortExprs maxRows orderByMaxRows
          (MkPullProjection cts exprs (NewPullSelect cts0 preds child)))) limits = Ok (outs, p')) ∧
    Forall2 rows_rep outs (cut rws limits) ∧ Forall (λ o, columnTypes o = cts) outs.
Proof.
  intros Hp Hne Hle Hld Hok (out & Hout & Hsort & ->) Hmax Hcount Hl.
  destruct (pending_shape _ _ _ Hp) as [Hne0 _].
  apply pages_cut; [|done].
  unfold pending, limit_contract, limit_pending. simpl. rewrite (u64_small (getOrderByMaxRows _ _)) by (unfold u64_ok; lia).
  split_and!; try done; try lia.
  eexists. split_and!; [done| |by rewrite drop_0|done|]; [lia|].
  eexists. split; [|done]. unfold sort_pending. simpl. split_and!; try done.
  exists out. split_and!; try done.
  - unfold project_pending. simpl. split_and!; try done. eexists cts0, _. split; [|done].
    unfold select_pending. simpl. split; [done|]. exists [], rest. by split_and!.
  - apply Forall2_length in Hout. rewrite <- Hout. pose proof (length_filter (λ row, accepted preds row = true) rest). lia.
Qed.

(** A sort refuses too many rows: when its child has more rows than a sorted query may
    return, asking for a page returns the error. *)
Theorem sort_too_many_rows {T} `{PullContract T} (child : T) (exprs : list Expression) (cts : list ColumnType)
    (descs : list bool) (maxRows orderByMaxRows limit : Z) (rest : list Row) :
  pending child cts rest → 1 ≤ limit →
  0 ≤ getOrderByMaxRows orderByMaxRows maxRows < Z.of_nat (length rest) →
  ∃ enough, ∀ fuel, (enough ≤ fuel)%nat →
    GetRows fuel (NewPullSort cts descs exprs maxRows orderByMaxRows child) limit =
    Err "Query with order by cannot return more than".
Proof.
  intros Hp Hl Hmax. destruct (pending_shape _ _ _ Hp) as [Hne _].
  destruct (sort_read_too_many cts queryBatchSize (getOrderByMaxRows orderByMaxRows maxRows) eq_refl ltac:(lia) (length rest)
    child (NewRows cts) [] rest) as (n & Hn); try done; [apply NewRows_rep|simpl; lia..|].
  exists n. intros fuel Hf. cbn [GetRows sort_executor]. unfold sort_GetRows. rewrite (proj2 (Z.ltb_ge limit 1)) by lia. simpl.
  by rewrite Hn.
Qed.

(** ** Examples *)

(** A column of integers as an expression, and the predicate that it is greater than one. *)
Definition int_column (i : nat) (f : Z → Z) : Expression :=
  let get (row : Row) := match row !! i with Some (Some (VInt z)) => Ok (Some (f z)) | Some None => Ok None | _ => Err "no integer" end in
  MkExpression (ExprColumn i) None get (λ _, Err "not a double") (λ _, Err "not a decimal") (λ _, Err "not a string")
    (λ _, Err "not a timestamp").

Definition demo_rows : list Row := [[Some (VInt 3)]; [Some (VInt 1)]; [None]; [Some (VInt 2)]].
Definition demo_static : StaticRows := MkStaticRows (MkRows [BigIntColumnType] [concat demo_rows] 4) 0.
Definition demo_pred : Expression := int_column 0 (λ z, if 1 <? z then 1 else 0).
Definition demo_col : Expression := int_column 0 (λ z, z).

Lemma demo_pending : pending demo_static [BigIntColumnType] demo_rows.
Proof. split_and!; try done. exists demo_rows. split_and!; try done. split; [done|]. by repeat constructor. Qed.

Lemma demo_sortable row : row ∈ demo_rows → sortable [demo_col] [BigIntColumnType] row.
Proof.
  intros Hin. constructor; [|constructor]. exists BigIntColumnType. split; [done|]. simpl.
  repeat (apply elem_of_cons in Hin as [->|Hin]; [by eexists|]). by apply elem_of_nil in Hin.
Qed.

Lemma query_pages_witness :
  ∃ enough outs p', (∀ fuel, (enough ≤ fuel)%nat →
    pages fuel (NewPullLimit [BigIntColumnType] 2 0 100 0 (NewPullSort [BigIntColumnType] [false] [demo_col] 100 0
      (MkPullProjection [BigIntColumnType] [demo_col] (NewPullSelect [BigIntColumnType] [demo_pred] demo_static)))) [1; 5] =
      Ok (outs, p')) ∧
    Forall2 rows_rep outs [[[Some (VInt 2)]]; [[Some (VInt 3)]]].
Proof.
  destruct (query_pages demo_static [demo_pred] [demo_col] [demo_col] [BigIntColumnType] [BigIntColumnType] [false] 2 100 0
    demo_rows [[Some (VInt 2)]; [Some (VInt 3)]] [1; 5]) as (n & outs & p' & Hp & Hr & _); try done.
  - apply demo_pending.
  - by repeat constructor.
  - exists [[Some (VInt 3)]; [Some (VInt 2)]]. split_and!; [repeat constructor| |done].
    constructor; [apply demo_sortable; by_decide|]. constructor; [apply demo_sortable; by_decide|constructor].
  - by repeat constructor.
  - exists n, outs, p'. split; [exact Hp|exact Hr].
Defined.

(** Descending: the null comes last. *)
Lemma sortRows_correct_witness :
  ∃ r sorted, sortRows (NewPullSort [BigIntColumnType] [true] [demo_col] 100 0 demo_static) (static_rows demo_static) = Ok r ∧
    rows_rep r sorted ∧ sorted ≡ₚ demo_rows ∧ StronglySorted (λ a b, rows_cmp [demo_col] [true] [BigIntColumnType] a b ≠ Gt) sorted.
Proof.
  destruct (sortRows_correct (NewPullSort [BigIntColumnType] [true] [demo_col] 100 0 demo_static) (static_rows demo_static) demo_rows)
    as (r & sorted & E & Hr & Hp & Hs & _); try done.
  - split; [done|]. by repeat constructor.
  - apply Forall_forall. apply demo_sortable.
  - by exists r, sorted.
Defined.

Lemma sort_too_many_rows_witness :
  ∃ enough, ∀ fuel, (enough ≤ fuel)%nat →
    GetRows fuel (NewPullSort [BigIntColumnType] [false] [demo_col] 3 0 demo_static) 10 =
    Err "Query with order by cannot return more than".
Proof.
  apply (sort_too_many_rows demo_static [demo_col] [BigIntColumnType] [false] 3 0 10 demo_rows); [apply demo_pending|done|done].
Defined.
