(* ===== verification/KeyRanges.v ===== *)
(** * Ranges of keys

    src/pull/exec/scan_ranges.go: the byte ranges that a query's value ranges stand for.
    A bound on the leading columns of a key is encoded as those columns are; an
    exclusive low bound and an inclusive high bound are incremented, so that the keys
    that continue the bound are on the right side of it. [in_key_range] is what a range
    means on column values. *)

From stdpp Require Import base list list_numbers strings gmap sorting.
From Stdlib Require Import ZArith Lia.
From S2P Require Import Prelude Encoding Timestamp Decimal DecimalBin Rows KeyEncoding RowEncoding Store WriteBatch Table.

(** ** Ranges *)

Record ScanRange := MkScanRange {
  LowVals : list (option value);
  HighVals : list (option value);
  LowExcl : bool;
  HighExcl : bool
}.

Record rangeHolder := MkRangeHolder {
  rangeStart : bytes;
  rangeEnd : bytes
}.

Definition allBitsSet (bs : bytes) : bool := forallb (λ b, b =? 255) bs.

(** One pair of bounds: the bytes it adds to the start and to the end of the range. *)
Definition encodeBound (tableInfo : TableInfo) (indexCols : list nat) (isIndex : bool) (highVals : list (option value)) (j : nat)
    (st : bytes * bytes) (lv : option value) : outcome (bytes * bytes) :=
  let '(rangeStart, rangeEnd) := st in
  hv ← index highVals j;
  '(rangeStart, rangeEnd) ←
    match lv, hv with
    | None, None =>
        if isIndex then Ok (rangeStart ++ [0], rangeEnd ++ [0]) else Panic "get of null in pk index"
    | _, Some _ =>
        let rangeEnd := if isIndex then rangeEnd ++ [1] else rangeEnd in
        col ← index indexCols j;
        ct ← index (ti_ColumnTypes tableInfo) col;
        rangeEnd ← EncodeKeyElement hv ct rangeEnd;
        Ok (rangeStart, rangeEnd)
    | Some _, None => Ok (rangeStart, rangeEnd)
    end;
  match lv with
  | Some _ =>
      let rangeStart := if isIndex then rangeStart ++ [1] else rangeStart in
      col ← index indexCols j;
      ct ← index (ti_ColumnTypes tableInfo) col;
      rangeStart ← EncodeKeyElement lv ct rangeStart;
      Ok (rangeStart, rangeEnd)
  | None => Ok (rangeStart, rangeEnd)
  end.

Definition calcRangeKeys (sr : ScanRange) (indexID : Z) (indexCols : list nat) (tableInfo : TableInfo) (shardID : Z)
    (isIndex : bool) : outcome rangeHolder :=
  let keyPrefix := EncodeTableKeyPrefix indexID shardID in
  '(start, end_) ← foldMi (encodeBound tableInfo indexCols isIndex (HighVals sr)) 0 (keyPrefix, keyPrefix) (LowVals sr);
  start ← (if LowExcl sr then IncrementBytesBigEndian start else Ok start);
  end_ ←
    (if HighExcl sr then Ok (Some end_)
     else if negb (allBitsSet end_) then e ← IncrementBytesBigEndian end_; Ok (Some e)
     else Ok None);
  Ok (MkRangeHolder start (default (EncodeTableKeyPrefix (u64 (indexID + 1)) shardID) end_)).

(** A range that is not given ([nil]) is the whole table when it is the only one. *)
Definition calcScanRangeKeys (scanRanges : list (option ScanRange)) (indexID : Z) (indexCols : list nat) (tableInfo : TableInfo)
    (shardID : Z) (isIndex : bool) : outcome (list rangeHolder) :=
  match scanRanges with
  | [None] => Ok [MkRangeHolder (EncodeTableKeyPrefix indexID shardID) (EncodeTableKeyPrefix (u64 (indexID + 1)) shardID)]
  | _ =>
      mapM_o (λ sr, match sr with
                    | Some sr => calcRangeKeys sr indexID indexCols tableInfo shardID isIndex
                    | None => Panic "nil pointer dereference"
                    end) scanRanges
  end.

(** ** Increments *)

(** [p'] is [p], as a big-endian number, plus one. *)
Definition inc_of (p p' : bytes) : Prop := bytes_ok p' ∧ length p' = length p ∧ be_val p' = be_val p + 1.

Lemma inc_of_unique p p1 p2 : inc_of p p1 → inc_of p p2 → p1 = p2.
Proof. intros (? & ? & ?) (? & ? & ?). apply be_val_inj; [done..| |]; congruence. Qed.

Lemma Increment_inc p : bytes_ok p → incrementable p → ∃ p', IncrementBytesBigEndian p = Ok p' ∧ inc_of p p'.
Proof. intros H1 H2. destruct (IncrementBytesBigEndian_eq p H1 H2) as (p' & ? & ? & ? & ?). by exists p'. Qed.

Lemma inc_of_app b q q' : bytes_ok b → inc_of q q' → inc_of (b ++ q) (b ++ q').
Proof.
  intros Hb (H1 & H2 & H3). split_and!; [by apply bytes_ok_app|by rewrite !length_app, H2|].
  rewrite !be_val_app, H2, H3. lia.
Qed.

Lemma be_val_full n : be_val (replicate n 255) + 1 = 256 ^ Z.of_nat n.
Proof.
  induction n as [|n IH]; [done|]. rewrite replicate_S, Nat2Z.inj_succ, Z.pow_succ_r by lia. change (255 :: replicate n 255) with ([255] ++ replicate n 255).
  rewrite be_val_app, length_replicate. change (be_val [255]) with 255. lia.
Qed.
Lemma be_val_zeros n : be_val (replicate n 0) = 0.
Proof.
  induction n as [|n IH]; [done|]. rewrite replicate_S. change (0 :: replicate n 0) with ([0] ++ replicate n 0).
  rewrite be_val_app, IH. change (be_val [0]) with 0. lia.
Qed.

(** The carry out of a block of full bytes. *)
Lemma inc_of_carry b b' n : inc_of b b' → inc_of (b ++ replicate n 255) (b' ++ replicate n 0).
Proof.
  intros (H1 & H2 & H3). split_and!.
  - apply bytes_ok_app. split; [done|]. apply Forall_replicate. unfold byte_ok. lia.
  - by rewrite !length_app, H2, !length_replicate.
  - rewrite !be_val_app, H3, !length_replicate, be_val_zeros. pose proof (be_val_full n). lia.
Qed.

Lemma not_incrementable p : bytes_ok p → ¬ incrementable p → p = replicate (length p) 255.
Proof.
  intros Hok Hn. induction Hok as [|b p Hb Hp IH]; [done|]. simpl. f_equal.
  - unfold byte_ok in Hb. destruct (decide (b < 255)); [|lia]. exfalso. apply Hn. by apply Exists_cons_hd.
  - apply IH. intros Hi. apply Hn. by apply Exists_cons_tl.
Qed.

Lemma zeros_le n (x : bytes) : bytes_ok x → (n ≤ length x)%nat → bytes_le (replicate n 0) x.
Proof.
  revert x. induction n as [|n IH]; intros x Hx Hn; [by destruct x|]. destruct x as [|b x]; [simpl in Hn; lia|].
  apply Forall_cons in Hx as [Hb Hx]. unfold bytes_le in *. cbn [bytes_cmp replicate]. unfold byte_ok in Hb. simpl in Hn.
  destruct (Z.compare_spec 0 b); [|done|lia]. apply IH; [done|lia].
Qed.

Lemma inc_of_lt p p' : bytes_ok p → inc_of p p' → bytes_lt p p'.
Proof.
  intros Hp (H1 & H2 & H3). unfold bytes_lt. rewrite bytes_cmp_be_val by (done || congruence). apply Z.compare_lt_iff. lia.
Qed.

(** A bound of the same or a smaller length that is exceeded has an increment that is
    reached, also when zeros are left to be matched. *)
Lemma inc_of_reached b b' a n x :
  bytes_ok b → bytes_ok a → bytes_ok x → inc_of b b' → (n ≤ length x)%nat → (length b ≤ length a)%nat →
  bytes_cmp (take (length b) a) b = Gt → bytes_le (b' ++ replicate n 0) (a ++ x).
Proof.
  intros Hb Ha Hx (H1 & H2 & H3) Hn Hl Hgt.
  assert (Ht : length (take (length b) a) = length b) by (rewrite length_take; lia).
  rewrite bytes_cmp_be_val in Hgt by (auto using bytes_ok_take). apply Z.compare_gt_iff in Hgt.
  rewrite <- (take_drop (length b) a), <- app_assoc. unfold bytes_le.
  rewrite bytes_cmp_app_lex, bytes_cmp_be_val, H3 by (auto using bytes_ok_take; congruence).
  destruct (Z.compare_spec (be_val b + 1) (be_val (take (length b) a))); [|done|lia]. simpl.
  apply zeros_le; [|rewrite length_app; lia]. apply bytes_ok_app. split; [by apply bytes_ok_drop|done].
Qed.

(** ** Codes whose increments bound what continues them *)

(** An encoding ends in a byte that can grow, or it is no longer than the encodings that
    exceed it; when no byte of it can grow it is no longer than any. *)
Class BoundedCode {A} (dom : A → Prop) (enc : A → bytes) : Prop := {
  bounded_ok a : dom a → bytes_ok (enc a);
  bounded_end a l : dom a → dom l → bytes_lt (enc l) (enc a) ∨ ¬ incrementable (enc l) →
    (∃ b β, enc l = b ++ [β] ∧ β < 255) ∨ (length (enc l) ≤ length (enc a))%nat
}.

Section bounded.
Context {A : Type} (dom : A → Prop) (enc : A → bytes) (cmp : A → A → comparison).
Context `{!OrderedCode dom enc cmp, !BoundedCode dom enc}.

Lemma code_lt a l : dom a → dom l → cmp a l = Gt → bytes_lt (enc l) (enc a).
Proof using All.
  intros Ha Hl Hgt. pose proof (ordered_code a l [] [] Ha Hl) as Hc. rewrite Hgt, !app_nil_r in Hc. by apply bytes_cmp_gt.
Qed.

(** When [a] exceeds [l], its encoding reaches the increment of that of [l]. *)
Lemma code_take_gt a l : dom a → dom l → cmp a l = Gt → (length (enc l) ≤ length (enc a))%nat →
  bytes_cmp (take (length (enc l)) (enc a)) (enc l) = Gt.
Proof using All.
  intros Ha Hl Hgt Hlen. set (n := length (enc l)) in *.
  pose proof (ordered_code a l [] (drop n (enc a)) Ha Hl) as H. rewrite Hgt in H. simpl in H.
  rewrite app_nil_r in H. rewrite <- (take_drop n (enc a)) in H at 1.
  rewrite bytes_cmp_app_lex, bytes_cmp_refl in H by (rewrite length_take; lia).
  by destruct (bytes_cmp (take n (enc a)) (enc l)).
Qed.

Lemma code_incrementable a l : dom a → dom l → cmp a l = Gt → incrementable (enc l).
Proof using All.
  intros Ha Hl Hgt. destruct (decide (incrementable (enc l))) as [|Hn]; [done|exfalso].
  destruct (bounded_end a l Ha Hl (or_introl (code_lt a l Ha Hl Hgt))) as [(b & β & E & Hβ)|Hlen].
  { apply Hn. rewrite E. apply Exists_app. right. by apply Exists_cons_hd. }
  pose proof (code_take_gt a l Ha Hl Hgt Hlen) as Hc.
  pose proof (be_val_bound (take (length (enc l)) (enc a)) (bytes_ok_take _ _ (bounded_ok a Ha))) as Hb.
  pose proof (bounded_ok l Hl) as Hokl. pose proof (bytes_ok_take (length (enc l)) _ (bounded_ok a Ha)) as Hoka.
  rewrite bytes_cmp_be_val in Hc by (done || (rewrite length_take; lia)).
  apply Z.compare_gt_iff in Hc. rewrite (not_incrementable (enc l)) in Hc at 1 by done.
  pose proof (be_val_full (length (enc l))). rewrite length_take, Nat.min_l in Hb by lia. lia.
Qed.

Lemma code_reached a l b' n x : dom a → dom l → cmp a l = Gt → inc_of (enc l) b' → bytes_ok x → (n ≤ length x)%nat →
  bytes_le (b' ++ replicate n 0) (enc a ++ x).
Proof using All.
  intros Ha Hl Hgt Hinc Hx Hn. pose proof (bounded_ok a Ha) as Hoka. pose proof (bounded_ok l Hl) as Hokl.
  destruct (decide (length (enc l) ≤ length (enc a))%nat) as [Hlen|Hlen].
  { by apply (inc_of_reached (enc l)); [..|apply code_take_gt]. }
  destruct (bounded_end a l Ha Hl (or_introl (code_lt a l Ha Hl Hgt))) as [(b & β & E & Hβ)|]; [|done].
  pose proof (ordered_code a l [] [] Ha Hl) as Hcmp. rewrite Hgt, !app_nil_r, E in Hcmp. simpl in Hcmp.
  rewrite E, length_app in Hlen. simpl in Hlen. rewrite E in Hokl. apply bytes_ok_app in Hokl as [Hb [Hβ0 _]%Forall_cons].
  assert (b' = b ++ [β + 1]) as ->.
  { eapply inc_of_unique; [done|]. rewrite E. apply inc_of_app; [done|]. split_and!; [|done|done].
    apply Forall_singleton. unfold byte_ok in *. lia. }
  rewrite <- (take_drop (length (enc a)) b) in Hcmp |- *.
  rewrite <- !app_assoc. rewrite <- (app_nil_r (enc a)) in Hcmp at 1. rewrite <- app_assoc, bytes_cmp_app_lex in Hcmp by (rewrite length_take; lia).
  unfold bytes_le. rewrite bytes_cmp_app_lex by (rewrite length_take; lia). rewrite bytes_cmp_antisym.
  destruct (bytes_cmp (enc a) (take (length (enc a)) b)); [|done|done]. exfalso. simpl in Hcmp. by destruct (drop _ b).
Qed.

End bounded.

(** ** Bounds on the leading columns of a key *)

Section columns.
Context {C A : Type} (dom : C → A → Prop) (enc : C → A → bytes) (cmp : A → A → comparison).
Context `{!∀ ct, OrderedCode (dom ct) (enc ct) cmp, !∀ ct, BoundedCode (dom ct) (enc ct)}.

Lemma enc_ok ct v : dom ct v → bytes_ok (enc ct v).
Proof using All. exact (bounded_ok (dom := dom ct) (enc := enc ct) v). Qed.

Lemma cols_bytes_ok cts vs : Forall2 dom cts vs → bytes_ok (cols_bytes enc cts vs).
Proof using All. induction 1; cbn [cols_bytes]; [constructor|]. apply bytes_ok_app. split; [by apply enc_ok|done]. Qed.

(** No key is shorter than a bound without a byte that can grow. *)
Lemma cols_full_length cts vs : Forall2 dom cts vs → ∀ ls, Forall2 dom cts ls → ¬ incrementable (cols_bytes enc cts ls) →
  (length (cols_bytes enc cts ls) ≤ length (cols_bytes enc cts vs))%nat.
Proof using All.
  induction 1 as [|ct v cts vs Hv Hvs IH]; intros ls Hls; inv Hls; [done|]. cbn [cols_bytes]. intros Hn. rewrite !length_app.
  unfold incrementable in *. rewrite Exists_app in Hn.
  apply Decidable.not_or in Hn as [Hn Hn'].
  match goal with Hl : dom ct ?l |- _ =>
    destruct (bounded_end (dom := dom ct) (enc := enc ct) v l Hv Hl (or_intror Hn)) as [(b & β & E & ?)|?] end.
  - exfalso. apply Hn. rewrite E. apply Exists_app. right. by apply Exists_cons_hd.
  - apply Nat.add_le_mono; [done|]. by apply IH.
Qed.

Lemma cols_reached cts vs rest : Forall2 dom cts vs → bytes_ok rest → ∀ ls, Forall2 dom cts ls → cols_compare cmp vs ls = Gt →
  incrementable (cols_bytes enc cts ls) ∧
  ∀ p', inc_of (cols_bytes enc cts ls) p' → bytes_le p' (cols_bytes enc cts vs ++ rest).
Proof using All.
  intros Hvs Hrest. induction Hvs as [|ct v cts vs Hv Hvs IH]; intros ls Hls Hgt; inversion Hls as [|? l ? ls' Hl Hls']; subst; [done|].
  cbn [cols_bytes cols_compare] in *. pose proof (cols_bytes_ok _ _ Hls') as Hok. pose proof (cols_bytes_ok _ _ Hvs) as Hokv.
  assert (Hokl : bytes_ok (enc ct l)) by by apply enc_ok.
  assert (Hx : bytes_ok (cols_bytes enc cts vs ++ rest)) by by apply bytes_ok_app.
  assert (Hsame : incrementable (cols_bytes enc cts ls') → ∀ p', inc_of (enc ct l ++ cols_bytes enc cts ls') p' →
    ∃ q', inc_of (cols_bytes enc cts ls') q' ∧ p' = enc ct l ++ q').
  { intros Hi p' Hp'. destruct (Increment_inc _ Hok Hi) as (q' & _ & Hq'). exists q'. split; [done|].
    eapply inc_of_unique; [done|]. by apply inc_of_app. }
  rewrite <- app_assoc. destruct (cmp v l) eqn:Ec; simpl in Hgt; [|done|].
  - destruct (IH ls' Hls' Hgt) as [Hi Hreach]. split; [apply Exists_app; by right|]. intros p' Hp'.
    destruct (Hsame Hi p' Hp') as (q' & Hq' & ->). unfold bytes_le.
    pose proof (ordered_code (OrderedCode := _) v l (cols_bytes enc cts vs ++ rest) q' Hv Hl) as Ho. rewrite Ec in Ho. simpl in Ho.
    rewrite bytes_cmp_antisym, Ho, <- bytes_cmp_antisym. by apply Hreach.
  - destruct (decide (incrementable (cols_bytes enc cts ls'))) as [Hi|Hi].
    + split; [apply Exists_app; by right|]. intros p' Hp'. destruct (Hsame Hi p' Hp') as (q' & Hq' & ->). unfold bytes_le.
      rewrite bytes_cmp_antisym, (ordered_code (OrderedCode := _) v l _ _ Hv Hl), Ec. done.
    + pose proof (code_incrementable (dom ct) (enc ct) cmp v l Hv Hl Ec) as Hil. split; [apply Exists_app; by left|].
      intros p' Hp'. destruct (Increment_inc _ Hokl Hil) as (b' & _ & Hb').
      assert (p' = b' ++ replicate (length (cols_bytes enc cts ls')) 0) as ->.
      { eapply inc_of_unique; [done|]. rewrite (not_incrementable _ Hok Hi) at 1. by apply inc_of_carry. }
      apply (code_reached (dom ct) (enc ct) cmp v l); try done. rewrite length_app.
      pose proof (cols_full_length cts vs Hvs ls' Hls' Hi). lia.
Qed.

(** The order of a key and a bound on its leading columns. *)
Lemma key_bound_cmp pre cts vs ls rest : Forall2 dom cts vs → Forall2 dom cts ls →
  bytes_cmp (pre ++ cols_bytes enc cts vs ++ rest) (pre ++ cols_bytes enc cts ls) =
  lex (cols_compare cmp vs ls) (bytes_cmp rest []).
Proof using All.
  intros Hv Hl. rewrite bytes_cmp_app_common, <- (app_nil_r (cols_bytes enc cts ls)).
  by rewrite (ordered_code (OrderedCode := cols_code dom enc cmp cts _)).
Qed.

(** An inclusive low bound. *)
Lemma key_from pre cts vs ls rest : Forall2 dom cts vs → Forall2 dom cts ls →
  bytes_le (pre ++ cols_bytes enc cts ls) (pre ++ cols_bytes enc cts vs ++ rest) ↔ cols_compare cmp vs ls ≠ Lt.
Proof using All.
  intros Hv Hl. unfold bytes_le. rewrite bytes_cmp_antisym, key_bound_cmp by done.
  destruct (cols_compare cmp vs ls); [by destruct rest|done|done].
Qed.

(** An exclusive high bound. *)
Lemma key_before pre cts vs ls rest : Forall2 dom cts vs → Forall2 dom cts ls →
  bytes_lt (pre ++ cols_bytes enc cts vs ++ rest) (pre ++ cols_bytes enc cts ls) ↔ cols_compare cmp vs ls = Lt.
Proof using All.
  intros Hv Hl. unfold bytes_lt. rewrite key_bound_cmp by done.
  destruct (cols_compare cmp vs ls); [by destruct rest|done|done].
Qed.

(** An incremented bound: the keys that reach it are those beyond every key that
    continues the bound. *)
Lemma key_after pre cts vs ls rest p' : Forall2 dom cts vs → Forall2 dom cts ls → bytes_ok pre → bytes_ok rest →
  inc_of (pre ++ cols_bytes enc cts ls) p' →
  bytes_le p' (pre ++ cols_bytes enc cts vs ++ rest) ↔ cols_compare cmp vs ls = Gt.
Proof using All.
  intros Hv Hl Hpre Hrest Hinc. pose proof (cols_bytes_ok _ _ Hl) as Hokl. split.
  - intros Hle. pose proof (key_bound_cmp pre cts vs ls rest Hv Hl) as Hc.
    destruct (cols_compare cmp vs ls) eqn:E; [exfalso|exfalso|done]; simpl in Hc.
    + assert (Heq : cols_bytes enc cts vs = cols_bytes enc cts ls).
      { apply bytes_cmp_eq. rewrite <- (app_nil_r (cols_bytes enc cts vs)), <- (app_nil_r (cols_bytes enc cts ls)).
        by rewrite (ordered_code (OrderedCode := cols_code dom enc cmp cts _)), E. }
      revert Hle. apply not_iff_compat with (1 := bytes_not_lt _ _). rewrite Heq, app_assoc. intros Hn. apply Hn.
      destruct Hinc as (? & Hlen & Hval). unfold bytes_lt. rewrite <- (app_nil_r p').
      rewrite bytes_cmp_app_lex, bytes_cmp_be_val by (done || by apply bytes_ok_app).
      by rewrite (proj2 (Z.compare_lt_iff _ _)) by lia.
    + eapply (bytes_lt_irrefl p'). eapply bytes_le_lt_trans; [done|]. eapply bytes_cmp_lt_trans; [done|].
      apply inc_of_lt; [by apply bytes_ok_app|done].
  - intros Hgt. destruct (cols_reached cts vs rest Hv Hrest ls Hl Hgt) as [Hi Hreach].
    destruct (Increment_inc _ Hokl Hi) as (q' & _ & Hq').
    assert (p' = pre ++ q') as -> by (eapply inc_of_unique; [done|by apply inc_of_app]).
    unfold bytes_le. rewrite bytes_cmp_app_common. by apply Hreach.
Qed.

End columns.

(** ** Key columns are bounded codes *)

Lemma str_bytes_end d : ∃ b β, str_bytes d = b ++ [β] ∧ β < 255.
Proof.
  remember (length d) as n eqn:Hn. revert d Hn. induction (lt_wf n) as [n _ IH]. intros d ->. rewrite str_bytes_unfold.
  destruct (decide (8 ≤ length d)%nat).
  - destruct (IH (length (drop 8 d))) with (d := drop 8 d) as (b & β & -> & ?); [rewrite length_drop; lia|done|].
    eexists _, β. split; [|done]. by rewrite !app_assoc.
  - eexists _, _. split; [by rewrite app_nil_r|]. lia.
Qed.

Lemma key_bytes_ok ct v : key_value_ok ct v → bytes_ok (key_bytes ct v).
Proof.
  unfold key_value_ok. destruct (Type' ct), v; try done; intros H; try apply be_bytes_ok; [by apply dec_bytes_ok|by apply str_bytes_ok].
Qed.

Lemma key_bytes_end ct v w : key_value_ok ct v → key_value_ok ct w →
  (∃ b β, key_bytes ct w = b ++ [β] ∧ β < 255) ∨ (length (key_bytes ct w) ≤ length (key_bytes ct v))%nat.
Proof.
  unfold key_value_ok. destruct (Type' ct), v; try done; destruct w; try done; intros _ _; cbn [key_bytes];
    try (right; unfold int64_bytes, float64_bytes, timestamp_bytes; by rewrite !length_be_bytes); [|left; apply str_bytes_end].
  right. by rewrite !length_dec_bytes, !length_dec_body_eq.
Qed.

#[global] Instance col_ordered pk ct : OrderedCode (col_ok pk ct) (col_bytes pk ct) cell_compare.
Proof.
  intros c d s t [Hc Hpk] [Hd Hpk']. destruct pk; [|by apply cell_code; destruct c, d].
  destruct c as [v|]; [|by destruct Hpk]. destruct d as [w|]; [|by destruct Hpk']. simpl. by apply value_code.
Qed.

#[global] Instance col_bounded pk ct : BoundedCode (col_ok pk ct) (col_bytes pk ct).
Proof.
  split.
  - intros [v|] [Hv _]; simpl in *; [|by_decide]. pose proof (key_bytes_ok ct v Hv).
    destruct pk; [done|]. constructor; [unfold byte_ok; lia|done].
  - intros c [w|] [Hc Hpk] [Hw _] Hlt; [|left; by exists [], 0]. destruct c as [v|].
    + destruct (key_bytes_end ct v w Hc Hw) as [(b & β & E & ?)|]; simpl; rewrite ?E.
      * left. destruct pk; [by exists b, β|by exists (1 :: b), β].
      * right. destruct pk; simpl; lia.
    + destruct pk; [by destruct Hpk|]. destruct Hlt as [Hlt|Hn]; [done|]. destruct Hn. apply Exists_cons_hd. lia.
Qed.

(** ** What a range means *)

(** The cells that bound the leading columns from below and from above. Both values
    missing is a bound by null; one of them missing is an open end. *)
Fixpoint lowCells (lows highs : list (option value)) : list (option value) :=
  match lows, highs with
  | None :: _, Some _ :: _ => []
  | lv :: lows', _ :: highs' => lv :: lowCells lows' highs'
  | _, _ => []
  end.
Fixpoint highCells (lows highs : list (option value)) : list (option value) :=
  match lows, highs with
  | Some _ :: _, None :: _ => []
  | _ :: lows', hv :: highs' => hv :: highCells lows' highs'
  | _, _ => []
  end.

(** Only the last column can be open at one end. *)
Fixpoint range_shape (lows highs : list (option value)) : bool :=
  match lows, highs with
  | [], [] => true
  | [_], [_] => true
  | Some _ :: lows', Some _ :: highs' => range_shape lows' highs'
  | None :: lows', None :: highs' => range_shape lows' highs'
  | _, _ => false
  end.

Definition bound_ok (pk : bool) (cts : list ColumnType) (cells : list (option value)) : Prop :=
  Forall2 (col_ok pk) (take (length cells) cts) cells.

Definition range_ok (pk : bool) (cts : list ColumnType) (sr : ScanRange) : Prop :=
  range_shape (LowVals sr) (HighVals sr) = true ∧
  bound_ok pk cts (lowCells (LowVals sr) (HighVals sr)) ∧ bound_ok pk cts (highCells (LowVals sr) (HighVals sr)).

(** The key columns are between the bounds. *)
Definition in_key_range (sr : ScanRange) (cells : list (option value)) : bool :=
  match cols_compare cell_compare cells (lowCells (LowVals sr) (HighVals sr)) with
  | Lt => false | Eq => negb (LowExcl sr) | Gt => true
  end &&
  match cols_compare cell_compare cells (highCells (LowVals sr) (HighVals sr)) with
  | Gt => false | Eq => negb (HighExcl sr) | Lt => true
  end.

(** One element of a bound is encoded as the column is. *)
Lemma EncodeKeyElement_col (isIndex : bool) ct v b : key_value_ok ct v →
  EncodeKeyElement (Some v) ct (if isIndex then b ++ [1] else b) = Ok (b ++ col_bytes (negb isIndex) ct (Some v)).
Proof.
  intros Hv. rewrite EncodeKeyElement_eq by done. destruct isIndex; simpl; [by rewrite <- app_assoc|done].
Qed.

Lemma encodeBound_eq ti idxs isIndex highs j s e lv hv col ct :
  highs !! j = Some hv → idxs !! j = Some col → ti_ColumnTypes ti !! col = Some ct → (lv = None → hv = None → isIndex = true) →
  cell_ok ct lv → cell_ok ct hv →
  encodeBound ti idxs isIndex highs j (s, e) lv =
    Ok (s ++ match lv, hv with None, Some _ => [] | _, _ => col_bytes (negb isIndex) ct lv end,
        e ++ match lv, hv with Some _, None => [] | _, _ => col_bytes (negb isIndex) ct hv end).
Proof.
  intros Hh Hi Ht Hnull Hl Hhv. unfold encodeBound, index. rewrite Hh. cbn [from_option mbind outcome_bind].
  destruct lv as [v|], hv as [w|]; rewrite ?Hi; cbn [mbind outcome_bind]; rewrite ?Ht; cbn [mbind outcome_bind];
    rewrite ?EncodeKeyElement_col by done; cbn [mbind outcome_bind]; rewrite ?EncodeKeyElement_col by done;
    cbn [mbind outcome_bind]; rewrite ?app_nil_r; try done. by rewrite (Hnull eq_refl eq_refl).
Qed.

Lemma encodeBounds_eq ti idxs isIndex (lows : list (option value)) : ∀ highs cts pre s e,
  range_shape lows highs = true →
  (∀ i ct, cts !! i = Some ct → ∃ col, idxs !! (length pre + i)%nat = Some col ∧ ti_ColumnTypes ti !! col = Some ct) →
  bound_ok (negb isIndex) cts (lowCells lows highs) → bound_ok (negb isIndex) cts (highCells lows highs) →
  foldMi (encodeBound ti idxs isIndex (pre ++ highs)) (length pre) (s, e) lows =
    Ok (s ++ cols_bytes (col_bytes (negb isIndex)) cts (lowCells lows highs),
        e ++ cols_bytes (col_bytes (negb isIndex)) cts (highCells lows highs)).
Proof.
  unfold bound_ok. induction lows as [|lv lows IH]; intros highs cts pre s e Hsh Hcts Hlo Hhi; cbn [foldMi].
  { destruct cts; simpl; by rewrite !app_nil_r. }
  destruct highs as [|hv highs]; [by destruct lv, lows|].
  assert (Hsh' : range_shape lows highs = true) by (destruct lows, highs, lv, hv; simpl in Hsh |- *; congruence).
  destruct cts as [|ct cts]; [exfalso; destruct lv, hv; simpl in Hlo, Hhi; first [by inv Hlo|by inv Hhi]|].
  destruct (Hcts 0%nat ct eq_refl) as (col & Hcol & Hct). rewrite Nat.add_0_r in Hcol.
  assert (Hopen : is_Some lv ∧ is_Some hv ∨ lv = None ∧ hv = None ∨ lows = [] ∧ highs = []).
  { destruct lows, highs, lv, hv; simpl in Hsh; try congruence; eauto. }
  rewrite (encodeBound_eq _ _ _ _ _ _ _ _ hv col ct); [|by rewrite lookup_app_r, Nat.sub_diag by done|done|done|..].
  - cbn [mbind outcome_bind]. replace (S (length pre)) with (length (pre ++ [hv])) by (rewrite length_app; simpl; lia).
    replace (pre ++ hv :: highs) with ((pre ++ [hv]) ++ highs) by by rewrite <- app_assoc.
    rewrite (IH highs cts (pre ++ [hv])); try done.
    + rewrite <- !app_assoc. destruct Hopen as [[[v ->] [w ->]]|[[-> ->]|[-> ->]]]; [done|done|].
      destruct lv, hv, cts; simpl; rewrite ?app_nil_r; done.
    + intros i ct' Hi. destruct (Hcts (S i) ct' Hi) as (col' & Hc' & ?). exists col'. split; [|done].
      rewrite length_app. simpl. rewrite <- Hc'. f_equal. lia.
    + destruct Hopen as [[[v ->] [w ->]]|[[-> ->]|[-> ->]]]; [by inv Hlo|by inv Hlo|constructor].
    + destruct Hopen as [[[v ->] [w ->]]|[[-> ->]|[-> ->]]]; [by inv Hhi|by inv Hhi|constructor].
  - intros -> ->. destruct isIndex; [done|]. simpl in Hlo. inv Hlo. match goal with H : col_ok _ _ None |- _ => by destruct (proj2 H) end.
  - destruct lv; [|done]. simpl in Hlo. inv Hlo. by match goal with H : col_ok _ _ (Some _) |- _ => apply H end.
  - destruct hv; [|done]. destruct lv; simpl in Hhi; inv Hhi; by match goal with H : col_ok _ _ (Some _) |- _ => apply H end.
Qed.

Lemma cols_compare_take {A} (cmp : A → A → comparison) l k : cols_compare cmp (take (length k) l) k = cols_compare cmp l k.
Proof. revert l. induction k as [|y k IH]; intros [|x l]; simpl; [done..|]. by rewrite IH. Qed.

Lemma cols_bytes_take {A} (enc : ColumnType → A → bytes) n cts (l : list A) :
  cols_bytes enc cts l = cols_bytes enc (take n cts) (take n l) ++ cols_bytes enc (drop n cts) (drop n l).
Proof.
  revert cts l. induction n as [|n IH]; intros [|ct cts] [|x l]; simpl; try done.
  - by destruct (drop n cts).
  - by rewrite <- app_assoc, <- IH.
Qed.

Lemma cols_bytes_long {A} (enc : ColumnType → A → bytes) cts (l : list A) : cols_bytes enc (take (length l) cts) l = cols_bytes enc cts l.
Proof. revert cts. induction l as [|x l IH]; intros [|ct cts]; simpl; [done..|]. by rewrite IH. Qed.

(** The bounds of one side, in a key of all the columns. *)
Section bounds.
Context (pk : bool) (cts : list ColumnType) (pre rest : bytes) (cells bound : list (option value)).
Context (Hpre : bytes_ok pre) (Hrest : bytes_ok rest) (Hcells : Forall2 (col_ok pk) cts cells) (Hbound : bound_ok pk cts bound).
Let key := pre ++ cols_bytes (col_bytes pk) cts cells ++ rest.
Let p := pre ++ cols_bytes (col_bytes pk) cts bound.

Lemma key_split : key = pre ++ cols_bytes (col_bytes pk) (take (length bound) cts) (take (length bound) cells) ++
  (cols_bytes (col_bytes pk) (drop (length bound) cts) (drop (length bound) cells) ++ rest).
Proof using. unfold key. by rewrite (cols_bytes_take _ (length bound) cts cells), <- app_assoc. Qed.

Lemma bound_from : bytes_le p key ↔ cols_compare cell_compare cells bound ≠ Lt.
Proof using All.
  rewrite key_split, <- cols_compare_take. unfold p. rewrite <- (cols_bytes_long _ cts bound).
  apply (key_from (col_ok pk) (col_bytes pk) cell_compare); [by apply Forall2_take|done].
Qed.
Lemma bound_before : bytes_lt key p ↔ cols_compare cell_compare cells bound = Lt.
Proof using All.
  rewrite key_split, <- cols_compare_take. unfold p. rewrite <- (cols_bytes_long _ cts bound).
  apply (key_before (col_ok pk) (col_bytes pk) cell_compare); [by apply Forall2_take|done].
Qed.
Lemma bound_after p' : inc_of p p' → bytes_le p' key ↔ cols_compare cell_compare cells bound = Gt.
Proof using All.
  rewrite key_split, <- cols_compare_take. unfold p. rewrite <- (cols_bytes_long _ cts bound).
  apply (key_after (col_ok pk) (col_bytes pk) cell_compare); [by apply Forall2_take|done|done|].
  apply bytes_ok_app. split; [|done]. eapply cols_bytes_ok; [apply _|apply _|by apply Forall2_drop].
Qed.
End bounds.

Lemma allBitsSet_incrementable bs : incrementable bs → allBitsSet bs = false.
Proof. intros Hi. unfold allBitsSet. induction Hi as [b bs Hb|b bs _ IH]; simpl; [by rewrite (proj2 (Z.eqb_neq b 255)) by lia|by rewrite IH, andb_false_r]. Qed.

Lemma EncodeTableKeyPrefix_inc t s : u64_ok t → t + 1 < two64 → u64_ok s → inc_of (EncodeTableKeyPrefix t s) (EncodeTableKeyPrefix (t + 1) s).
Proof.
  intros Ht Ht1 Hs. split_and!; [apply EncodeTableKeyPrefix_ok|by rewrite !length_EncodeTableKeyPrefix|].
  rewrite !be_val_prefix; unfold_width; lia.
Qed.

Lemma EncodeTableKeyPrefix_incrementable t s : u64_ok t → t + 1 < two64 → u64_ok s → incrementable (EncodeTableKeyPrefix t s).
Proof.
  intros Ht Ht1 Hs. destruct (decide (incrementable (EncodeTableKeyPrefix t s))) as [|Hn]; [done|exfalso].
  apply not_incrementable in Hn; [|apply EncodeTableKeyPrefix_ok]. rewrite length_EncodeTableKeyPrefix in Hn.
  pose proof (be_val_prefix t s Ht Hs) as Hv. rewrite Hn in Hv. pose proof (be_val_full 16) as Hf. rewrite Hv in Hf.
  change (256 ^ Z.of_nat 16) with (two64 * two64) in Hf. unfold u64_ok in *. nia.
Qed.

(** The bytes of the bounds. *)
Definition bound_key (pk : bool) (cts : list ColumnType) (t s : Z) (cells : list (option value)) : bytes :=
  EncodeTableKeyPrefix t s ++ cols_bytes (col_bytes pk) cts cells.

Lemma bound_key_ok pk cts t s cells : bound_ok pk cts cells → bytes_ok (bound_key pk cts t s cells).
Proof.
  intros Hb. apply bytes_ok_app. split; [apply EncodeTableKeyPrefix_ok|]. rewrite <- cols_bytes_long. by eapply cols_bytes_ok; [apply _..|].
Qed.

Lemma types_at_lookup colTypes idxs : ∀ cts, types_at colTypes idxs = Some cts → ∀ i ct, cts !! i = Some ct →
  ∃ col, idxs !! i = Some col ∧ colTypes !! col = Some ct.
Proof.
  intros cts Ht i ct Hi. apply mapM_Some in Ht. destruct (Forall2_lookup_r _ _ _ _ _ Ht Hi) as (col & ? & ?). by exists col.
Qed.

Lemma calcRangeKeys_eq sr t idxs ti s (isIndex : bool) cts (lows := lowCells (LowVals sr) (HighVals sr)) (highs := highCells (LowVals sr) (HighVals sr)) :
  u64_ok t → t + 1 < two64 → u64_ok s → types_at (ti_ColumnTypes ti) idxs = Some cts → range_ok (negb isIndex) cts sr →
  ∃ rh, calcRangeKeys sr t idxs ti s isIndex = Ok rh ∧
    (if LowExcl sr then inc_of (bound_key (negb isIndex) cts t s lows) (rangeStart rh) else rangeStart rh = bound_key (negb isIndex) cts t s lows) ∧
    (if HighExcl sr then rangeEnd rh = bound_key (negb isIndex) cts t s highs else inc_of (bound_key (negb isIndex) cts t s highs) (rangeEnd rh)).
Proof.
  intros Ht Ht1 Hs Hcts (Hsh & Hlo & Hhi). unfold calcRangeKeys. fold lows in Hlo. fold highs in Hhi.
  pose proof (encodeBounds_eq ti idxs isIndex (LowVals sr) (HighVals sr) cts [] (EncodeTableKeyPrefix t s) (EncodeTableKeyPrefix t s)
    Hsh (types_at_lookup _ _ _ Hcts) Hlo Hhi) as Hf. rewrite app_nil_l in Hf. cbn [length] in Hf. rewrite Hf. clear Hf.
  fold lows highs. fold (bound_key (negb isIndex) cts t s lows) (bound_key (negb isIndex) cts t s highs).
  pose proof (EncodeTableKeyPrefix_incrementable t s Ht Ht1 Hs) as Hinc.
  assert (Hi : ∀ cells, incrementable (bound_key (negb isIndex) cts t s cells)) by (intros; apply Exists_app; by left).
  destruct (Increment_inc _ (bound_key_ok _ _ t s _ Hlo) (Hi _)) as (lo' & El & Hl').
  destruct (Increment_inc _ (bound_key_ok _ _ t s _ Hhi) (Hi _)) as (hi' & Eh & Hh').
  cbn [mbind outcome_bind]. rewrite El, Eh, allBitsSet_incrementable by apply Hi.
  destruct (LowExcl sr), (HighExcl sr); cbn [mbind outcome_bind negb]; eexists; (split; [done|]); done.
Qed.

Lemma bytes_lt_not_le a b : bytes_lt a b ↔ ¬ bytes_le b a.
Proof. rewrite <- bytes_cmp_gt. unfold bytes_le. destruct (bytes_cmp b a); naive_solver. Qed.

Lemma bytes_le_app (a s : bytes) : bytes_le a (a ++ s).
Proof. destruct (decide (s = [])) as [->|Hs]; [by rewrite app_nil_r; apply bytes_le_lt_eq; right|]. unfold bytes_le. by rewrite bytes_cmp_prefix. Qed.

(** A range that does not run into the keys of the next table: the increment of its end
    does not carry out of the key columns. *)
Definition range_contained (pk : bool) (cts : list ColumnType) (sr : ScanRange) : Prop :=
  let highs := highCells (LowVals sr) (HighVals sr) in
  HighExcl sr = true ∨ highs = [] ∨ incrementable (cols_bytes (col_bytes pk) cts highs).

(** The start of a range is not before the table, and its end not beyond it. *)
Lemma range_start_in_table (excl : bool) pk cts t s cells start :
  bound_ok pk cts cells →
  (if excl then inc_of (bound_key pk cts t s cells) start else start = bound_key pk cts t s cells) →
  bytes_le (EncodeTableKeyPrefix t s) start.
Proof.
  intros Hok Hs. assert (Hle : bytes_le (EncodeTableKeyPrefix t s) (bound_key pk cts t s cells)) by apply bytes_le_app.
  destruct excl; [|by subst]. etrans; [done|]. apply bytes_le_lt_eq. left. apply inc_of_lt; [by apply bound_key_ok|done].
Qed.

Lemma range_end_in_table (excl : bool) pk cts t s cells end_ :
  u64_ok t → t + 1 < two64 → u64_ok s → bound_ok pk cts cells →
  (if excl then end_ = bound_key pk cts t s cells else inc_of (bound_key pk cts t s cells) end_) →
  excl = true ∨ cells = [] ∨ incrementable (cols_bytes (col_bytes pk) cts cells) →
  bytes_le end_ (EncodeTableKeyPrefix (t + 1) s).
Proof.
  intros Ht Ht1 Hs Hok Hend Hsafe. pose proof (EncodeTableKeyPrefix_inc t s Ht Ht1 Hs) as Hinc.
  pose proof (EncodeTableKeyPrefix_ok t s) as Hp.
  assert (Hlt : ∀ x, bytes_le (EncodeTableKeyPrefix t s ++ x) (EncodeTableKeyPrefix (t + 1) s)).
  { intros x. unfold bytes_le. rewrite <- (app_nil_r (EncodeTableKeyPrefix (t + 1) s)).
    rewrite bytes_cmp_app_lex by by rewrite !length_EncodeTableKeyPrefix.
    pose proof (inc_of_lt _ _ Hp Hinc) as Hl. unfold bytes_lt in Hl. by rewrite Hl. }
  destruct excl; [subst; apply Hlt|]. unfold bound_key in Hend. destruct Hsafe as [|[->|Hi]]; [done| |].
  - replace (cols_bytes (col_bytes pk) cts []) with (@nil Z) in Hend by by destruct cts. rewrite app_nil_r in Hend.
    rewrite (inc_of_unique _ _ _ Hend Hinc). reflexivity.
  - assert (Hc : bytes_ok (cols_bytes (col_bytes pk) cts cells)).
    { rewrite <- cols_bytes_long. by eapply cols_bytes_ok; [apply _..|]. }
    destruct (Increment_inc _ Hc Hi) as (q & _ & Hq).
    rewrite (inc_of_unique _ _ _ Hend (inc_of_app _ _ _ Hp Hq)). apply Hlt.
Qed.

(** When it does carry, the end is the next table's prefix and zero bytes. *)
Lemma carried_end pk cts t s cells end_ :
  u64_ok t → t + 1 < two64 → u64_ok s → bound_ok pk cts cells →
  inc_of (bound_key pk cts t s cells) end_ → ¬ incrementable (cols_bytes (col_bytes pk) cts cells) →
  end_ = EncodeTableKeyPrefix (t + 1) s ++ replicate (length (cols_bytes (col_bytes pk) cts cells)) 0.
Proof.
  intros Ht Ht1 Hs Hok Hend Hn. pose proof (EncodeTableKeyPrefix_inc t s Ht Ht1 Hs) as (_ & _ & Hinc).
  assert (Hc : bytes_ok (cols_bytes (col_bytes pk) cts cells)) by (rewrite <- cols_bytes_long; by eapply cols_bytes_ok; [apply _..|]).
  apply not_incrementable in Hn; [|done]. unfold bound_key in Hend. set (n := length (cols_bytes _ _ _)) in *. rewrite Hn in Hend.
  assert (Hz : be_val (replicate n 0) = 0).
  { clear. induction n as [|n IH]; [done|]. change (replicate (S n) 0) with ([0] ++ replicate n 0). rewrite be_val_app, IH. done. }
  apply (inc_of_unique _ _ _ Hend). split_and!.
  - apply bytes_ok_app. split; [apply EncodeTableKeyPrefix_ok|]. apply Forall_replicate. unfold byte_ok. lia.
  - by rewrite !length_app, !length_EncodeTableKeyPrefix, !length_replicate.
  - rewrite !be_val_app, !length_replicate, Hz, Hinc. pose proof (be_val_full n). lia.
Qed.

Lemma bytes_between p : ∀ k x, bytes_le p k → bytes_lt k (p ++ x) → ∃ r, k = p ++ r ∧ bytes_lt r x.
Proof.
  unfold bytes_le, bytes_lt. induction p as [|b p IH]; intros k x Hle Hlt; [by exists k|].
  destruct k as [|c k]; [done|]. simpl in Hle, Hlt. rewrite Z.compare_antisym in Hlt.
  destruct (Z.compare_spec b c); simpl in Hlt; try done. subst c. destruct (IH k x Hle Hlt) as (r & -> & Hr). by exists r.
Qed.

Lemma below_zeros n : ∀ r, bytes_ok r → bytes_lt r (replicate n 0) → ∃ m, (m < n)%nat ∧ r = replicate m 0.
Proof.
  unfold bytes_lt. induction n as [|n IH]; intros [|b r] Hok; simpl; try done; [by exists 0%nat; split; [lia|]|].
  inv Hok. unfold byte_ok in *. destruct (Z.compare_spec b 0); intros Hlt; try done; [|lia]. subst b.
  destruct (IH r) as (m & Hm & ->); [done..|]. exists (S m). split; [lia|done].
Qed.

(** The keys of other tables that an inclusive greatest bound can reach. *)
Definition next_table_gap (pk : bool) (cts : list ColumnType) (t s : Z) (sr : ScanRange) (k : bytes) : Prop :=
  ¬ range_contained pk cts sr ∧
  ∃ m, (m < length (cols_bytes (col_bytes pk) cts (highCells (LowVals sr) (HighVals sr))))%nat ∧
    k = EncodeTableKeyPrefix (t + 1) s ++ replicate m 0.

Lemma calcRangeKeys_in sr t idxs ti s (isIndex : bool) cts :
  u64_ok t → t + 1 < two64 → u64_ok s → types_at (ti_ColumnTypes ti) idxs = Some cts → range_ok (negb isIndex) cts sr →
  ∃ rh, calcRangeKeys sr t idxs ti s isIndex = Ok rh ∧
    (∀ cells rest, Forall2 (col_ok (negb isIndex)) cts cells → bytes_ok rest →
      in_range (rangeStart rh) (Some (rangeEnd rh)) (EncodeTableKeyPrefix t s ++ cols_bytes (col_bytes (negb isIndex)) cts cells ++ rest) ↔
      in_key_range sr cells = true) ∧
    (∀ k, bytes_ok k → (16 ≤ length k)%nat → in_range (rangeStart rh) (Some (rangeEnd rh)) k →
      EncodeTableKeyPrefix t s `prefix_of` k ∨ next_table_gap (negb isIndex) cts t s sr k).
Proof.
  intros Ht Ht1 Hs Hcts Hr. destruct (calcRangeKeys_eq sr t idxs ti s isIndex cts Ht Ht1 Hs Hcts Hr) as (rh & E & Hstart & Hend).
  exists rh. split; [done|]. destruct Hr as (_ & Hlo & Hhi). pose proof (EncodeTableKeyPrefix_ok t s) as Hp.
  set (lows := lowCells _ _) in *. set (highs := highCells _ _) in *. split.
  - intros cells rest Hc Hrest. unfold in_key_range. fold lows highs. rewrite andb_true_iff. unfold in_range. apply Morphisms_Prop.and_iff_morphism.
    + destruct (LowExcl sr); [rewrite (bound_after _ _ _ _ _ _ Hp Hrest Hc Hlo _ Hstart)|
        rewrite Hstart; unfold bound_key; rewrite (bound_from _ _ _ _ _ _ Hp Hrest Hc Hlo)];
        by destruct (cols_compare cell_compare cells lows).
    + destruct (HighExcl sr); [rewrite Hend; unfold bound_key; rewrite (bound_before _ _ _ _ _ _ Hp Hrest Hc Hhi)|
        rewrite bytes_lt_not_le, (bound_after _ _ _ _ _ _ Hp Hrest Hc Hhi _ Hend)];
        by destruct (cols_compare cell_compare cells highs).
  - intros k Hk Hlk [Hge Hlt]. pose proof (range_start_in_table _ _ _ _ _ _ _ Hlo Hstart) as Hfrom.
    destruct (decide (bytes_lt k (EncodeTableKeyPrefix (t + 1) s))) as [Hin|Hout].
    { left. apply (table_range t s k); try done. split; [by etrans|done]. }
    right. assert (Hsafe : ¬ range_contained (negb isIndex) cts sr).
    { intros Hsafe. apply Hout. eapply bytes_lt_le_trans; [done|]. exact (range_end_in_table _ _ _ _ _ _ _ Ht Ht1 Hs Hhi Hend Hsafe). }
    split; [done|]. unfold range_contained in Hsafe. fold highs in Hsafe |- *.
    destruct (HighExcl sr); [by destruct Hsafe; left|].
    rewrite (carried_end _ _ _ _ _ _ Ht Ht1 Hs Hhi Hend) in Hlt by tauto.
    destruct (bytes_between (EncodeTableKeyPrefix (t + 1) s) k _ ltac:(by rewrite bytes_lt_not_le in Hout; apply dec_stable) Hlt) as (r & -> & Hr).
    apply bytes_ok_app in Hk as [_ Hk]. destruct (below_zeros _ r Hk Hr) as (m & Hm & ->). by exists m.
Qed.

(** C15. A scan range means what it says. For bounds on the leading columns of a primary
    key or of an index, of which only the last is open at one end, [calcScanRangeKeys]
    gives a byte range that contains the key of a row of the table exactly when the row's
    columns are between the bounds, in the order of the column values and with the bounds
    themselves included or excluded as asked; whatever follows those columns in the key.
    Unless the high bound is the greatest value of all its columns and inclusive, no key of
    another table is in the range. *)
Theorem scan_range_exact (sr : ScanRange) (indexID : Z) (indexCols : list nat) (ti : TableInfo) (shardID : Z) (isIndex : bool)
    (cts : list ColumnType) :
  u64_ok indexID → indexID + 1 < two64 → u64_ok shardID → types_at (ti_ColumnTypes ti) indexCols = Some cts →
  range_ok (negb isIndex) cts sr →
  ∃ rh, calcScanRangeKeys [Some sr] indexID indexCols ti shardID isIndex = Ok [rh] ∧
    (∀ cells rest, Forall2 (col_ok (negb isIndex)) cts cells → bytes_ok rest →
      in_range (rangeStart rh) (Some (rangeEnd rh))
        (EncodeTableKeyPrefix indexID shardID ++ cols_bytes (col_bytes (negb isIndex)) cts cells ++ rest) ↔
      in_key_range sr cells = true) ∧
    (range_contained (negb isIndex) cts sr → ∀ k, bytes_ok k → (16 ≤ length k)%nat →
      in_range (rangeStart rh) (Some (rangeEnd rh)) k → EncodeTableKeyPrefix indexID shardID `prefix_of` k).
Proof.
  intros Ht Ht1 Hs Hcts Hr. destruct (calcRangeKeys_in sr indexID indexCols ti shardID isIndex cts Ht Ht1 Hs Hcts Hr) as (rh & E & Hin & Hout).
  exists rh. split_and!; [cbn [calcScanRangeKeys mapM_o]; by rewrite E|done|].
  intros Hc k Hk Hl Hrng. destruct (Hout k Hk Hl Hrng) as [|[[] _]]; done.
Qed.

(** The rows with 10 <= a <= 20 and any b, of a table with the primary key (a, b). *)
Lemma scan_range_exact_witness :
  let ti := MkTableInfo 1001 [] (lit "t") [0%nat; 1%nat] [] [BigIntColumnType; VarcharColumnType] None 0 0 in
  let sr := MkScanRange [Some (VInt 10)] [Some (VInt 20)] false false in
  ∃ rh, calcScanRangeKeys [Some sr] 1001 [0%nat; 1%nat] ti 7 false = Ok [rh] ∧
    in_range (rangeStart rh) (Some (rangeEnd rh))
      (EncodeTableKeyPrefix 1001 7 ++ cols_bytes (col_bytes true) [BigIntColumnType; VarcharColumnType] [Some (VInt 20); Some (VString (lit "z"))] ++ []).
Proof.
  intros ti sr.
  destruct (scan_range_exact sr 1001 [0%nat; 1%nat] ti 7 false [BigIntColumnType; VarcharColumnType])
    as (rh & E & Hin & _); [split; lia|lia|split; lia|reflexivity| |].
  - split; [reflexivity|]. split; constructor; (split; [split; lia|done]) || constructor.
  - exists rh. split; [exact E|]. apply Hin; [|constructor|reflexivity].
    constructor; [split; [split; lia|done]|]. constructor; [split; [by_decide|done]|constructor].
Defined.

(** The end of a range can run into the next table: the inclusive high bound
    (2^63-1, 2^63-1) of a two column key is incremented to the prefix of the next table id
    followed by sixteen zero bytes, and the key of the row with the least value in a next
    table with a one column key is before that. *)
Theorem range_end_reaches_next_table :
  let ti := MkTableInfo 1001 [] (lit "t") [0%nat; 1%nat] [] [BigIntColumnType; BigIntColumnType] None 0 0 in
  let next := MkTableInfo 1002 [] (lit "next") [0%nat] [] [BigIntColumnType] None 0 0 in
  let top := Some (VInt (two63 - 1)) in
  ∃ rh k, calcScanRangeKeys [Some (MkScanRange [top; top] [top; top] false false)] 1001 [0%nat; 1%nat] ti 7 false = Ok [rh] ∧
    encodeKeyFromRow next [Some (VInt (- two63))] 7 = Ok k ∧ in_range (rangeStart rh) (Some (rangeEnd rh)) k.
Proof. do 2 eexists. split; [vm_compute; reflexivity|]. split; [vm_compute; reflexivity|]. by_decide. Qed.
