(* ===== verification/PullScan.v ===== *)
(** * Scans of tables and indexes

    src/pull/exec/table_scan.go and index_reader.go: the executors that read the pairs of
    the byte ranges of a query ([KeyRanges]) from the local store, page by page. The two
    executors share the paging loop and differ in how a stored pair becomes a row; the loop is [scanRange] and
    [scanRanges], with the decoder as an argument.

    A page remembers the key of its last pair and the next page starts with that key,
    skipping one pair. The rows are those of the store as long as the store does not
    change between pages; [deleted_row_hides_another] shows what happens when it does. *)

From stdpp Require Import base list list_numbers strings gmap sorting.
From Stdlib Require Import ZArith Lia.
From S2P Require Import Prelude Encoding Timestamp Decimal Rows KeyEncoding RowEncoding Store WriteBatch Table LocalStore KeyRanges PullExec.

(** ** Paging through ranges *)

Section scan.
Context {DB : Type} `{KVStore DB}.
Context (decode : Rows → bytes * bytes → outcome Rows).

(** The body of the loop over the pairs that were read. *)
Definition scanPair (skipFirst : bool) (numRows : nat) (i : nat) (st : Rows * option bytes) (kvPair : bytes * bytes)
  : outcome (Rows * option bytes) :=
  let '(rows, lastRowPrefix) := st in
  if (i =? 0)%nat && skipFirst then Ok (rows, lastRowPrefix)
  else
    let lastRowPrefix := if (i =? numRows - 1)%nat then Some kvPair.1 else lastRowPrefix in
    rows ← decode rows kvPair;
    Ok (rows, lastRowPrefix).

(** [getRowsFromRange]: the pairs of one range, at most [limit] rows in all. *)
Definition scanRange (db : DB) (colTypes : list ColumnType) (limit : Z) (currRange : rangeHolder)
    (lastRowPrefix : option bytes) (rows : option Rows) : outcome (Rows * option bytes) :=
  let '(startPrefix, skipFirst) :=
    match lastRowPrefix with
    | None => (rangeStart currRange, false)
    | Some k => (k, true)
    end in
  let rc := match rows with Some r => rowCount r | None => 0 end in
  let limitToUse := limit - rc in
  let limitToUse := if (skipFirst : bool) then limitToUse + 1 else limitToUse in
  let kvPairs := LocalScan db startPrefix (Some (rangeEnd currRange)) limitToUse in
  let numRows := length kvPairs in
  foldMi (scanPair skipFirst numRows) 0 (default (NewRows colTypes) rows, lastRowPrefix) kvPairs.

(** The loop of [GetRows] over the ranges from [rangeIndex] on. *)
Fixpoint scanRanges (db : DB) (colTypes : list ColumnType) (limit : Z) (ranges : list rangeHolder) (rangeIndex : nat)
    (lastRowPrefix : option bytes) (rows : option Rows) : outcome (option Rows * nat * option bytes) :=
  match ranges with
  | [] => Ok (rows, rangeIndex, lastRowPrefix)
  | rng :: ranges' =>
      '(r, last) ← scanRange db colTypes limit rng lastRowPrefix rows;
      if rowCount r =? limit then Ok (Some r, rangeIndex, last)
      else scanRanges db colTypes limit ranges' (S rangeIndex) None (Some r)
  end.

(** A scan in progress: the ranges, the current one and the key of the last row. *)
Record Scan := MkScan {
  scan_colTypes : list ColumnType;
  scan_ranges : list rangeHolder;
  scan_rangeIndex : nat;
  scan_lastRowPrefix : option bytes
}.

Definition scan_GetRows (db : DB) (p : Scan) (limit : Z) : outcome (Rows * Scan) :=
  if limit <? 1 then Err "invalid limit"
  else
    '(rows, rangeIndex, last) ←
      scanRanges db (scan_colTypes p) limit (drop (scan_rangeIndex p) (scan_ranges p)) (scan_rangeIndex p) (scan_lastRowPrefix p) None;
    Ok (default (NewRows (scan_colTypes p)) rows, MkScan (scan_colTypes p) (scan_ranges p) rangeIndex last).

End scan.

(** ** The table scan *)

(** Which columns of the table are returned: the selected ones that are visible. *)
Definition includedColumn (tableInfo : TableInfo) (colIndexes : option (list nat)) (i : nat) : outcome bool :=
  let selected := match colIndexes with None => true | Some l => bool_decide (i ∈ l) end in
  visible ← match ColsVisible tableInfo with None => Ok true | Some l => if selected then index l i else Ok true end;
  Ok (selected && visible).

Record PullTableScan := MkPullTableScan {
  ts_tableInfo : TableInfo;
  ts_includeCols : list bool;
  ts_scan : Scan
}.

Definition NewPullTableScan (tableInfo : TableInfo) (colIndexes : option (list nat)) (shardID : Z)
    (scanRanges : list (option ScanRange)) : outcome PullTableScan :=
  includedCols ← mapM_o (includedColumn tableInfo colIndexes) (seq 0 (length (ti_ColumnTypes tableInfo)));
  rangeHolders ← calcScanRangeKeys scanRanges (ti_ID tableInfo) (PrimaryKeyCols tableInfo) tableInfo shardID false;
  Ok (MkPullTableScan tableInfo includedCols
        (MkScan (RowEncoding.selected includedCols (ti_ColumnTypes tableInfo)) rangeHolders 0 None)).

Definition table_decode (p : PullTableScan) (rows : Rows) (kvPair : bytes * bytes) : outcome Rows :=
  DecodeRowWithIgnoredCols kvPair.2 (ti_ColumnTypes (ts_tableInfo p)) (Some (ts_includeCols p)) rows.

Definition tableScan_GetRows {DB} `{KVStore DB} (db : DB) (p : PullTableScan) (limit : Z) : outcome (Rows * PullTableScan) :=
  '(rows, sc) ← scan_GetRows (table_decode p) db (ts_scan p) limit;
  Ok (rows, MkPullTableScan (ts_tableInfo p) (ts_includeCols p) sc).

(** ** The index reader *)

Definition IsPrimaryKeyCol (tableInfo : TableInfo) (colIndex : nat) : bool := bool_decide (colIndex ∈ PrimaryKeyCols tableInfo).
Definition ContainsColIndex (indexInfo : IndexInfo) (colIndex : nat) : bool := bool_decide (colIndex ∈ IndexCols indexInfo).

(** The map from a column of the table to its position in the output: the last one
    written wins. *)
Definition outputPosition (colIndexes : list nat) (col : nat) : option nat :=
  foldl (λ acc '(i, c), if (c =? col)%nat then Some i else acc) None (imap pair colIndexes).

Record PullIndexReader := MkPullIndexReader {
  ir_tableInfo : TableInfo;
  ir_indexInfo : IndexInfo;
  ir_shardID : Z;
  ir_covers : bool;
  ir_indexOutputCols : list (option nat);
  ir_pkOutputCols : list (option nat);
  ir_indexColTypes : list ColumnType;
  ir_pkColTypes : list ColumnType;
  ir_includedTableCols : list bool;
  ir_scan : Scan
}.

Definition NewPullIndexReader (tableInfo : TableInfo) (indexInfo : IndexInfo) (colIndexes : list nat) (shardID : Z)
    (scanRanges : list (option ScanRange)) : outcome PullIndexReader :=
  let covers := forallb (λ c, IsPrimaryKeyCol tableInfo c || ContainsColIndex indexInfo c) colIndexes in
  '(indexOutputCols, indexColTypes, pkOutputCols, pkColTypes, includedCols) ←
    (if covers then
       let indexOutputCols :=
         map (λ c, if IsPrimaryKeyCol tableInfo c then None else outputPosition colIndexes c) (IndexCols indexInfo) in
       indexColTypes ← mapM_o (index (ti_ColumnTypes tableInfo)) (IndexCols indexInfo);
       let pkOutputCols := map (outputPosition colIndexes) (PrimaryKeyCols tableInfo) in
       pkColTypes ← mapM_o (index (ti_ColumnTypes tableInfo)) (PrimaryKeyCols tableInfo);
       Ok (indexOutputCols, indexColTypes, pkOutputCols, pkColTypes, [])
     else
       Ok ([], [], [], [], map (λ i, bool_decide (i ∈ colIndexes)) (seq 0 (length (ti_ColumnTypes tableInfo)))));
  resultColTypes ← mapM_o (index (ti_ColumnTypes tableInfo)) colIndexes;
  rangeHolders ← calcScanRangeKeys scanRanges (ii_ID indexInfo) (IndexCols indexInfo) tableInfo shardID true;
  Ok (MkPullIndexReader tableInfo indexInfo shardID covers indexOutputCols pkOutputCols indexColTypes pkColTypes includedCols
        (MkScan resultColTypes rangeHolders 0 None)).

(** A pair of the index as a row: from the index itself when it covers the query, and
    otherwise from the row of the table that the pair points to. A missing row is an
    empty value, which the row decoder cannot read. *)
Definition index_decode {DB} `{KVStore DB} (db : DB) (p : PullIndexReader) (rows : Rows) (kvPair : bytes * bytes) : outcome Rows :=
  if ir_covers p then
    '(rows, _) ← DecodeIndexOrPKCols kvPair.1 16 false (ir_indexColTypes p) (ir_indexOutputCols p) rows;
    '(rows, _) ← DecodeIndexOrPKCols kvPair.2 0 true (ir_pkColTypes p) (ir_pkOutputCols p) rows;
    Ok rows
  else
    let keyBuff := EncodeTableKeyPrefix (ti_ID (ir_tableInfo p)) (ir_shardID p) ++ kvPair.2 in
    let value := default [] (LocalGet db keyBuff) in
    DecodeRowWithIgnoredCols value (ti_ColumnTypes (ir_tableInfo p)) (Some (ir_includedTableCols p)) rows.

Definition indexReader_GetRows {DB} `{KVStore DB} (db : DB) (p : PullIndexReader) (limit : Z) : outcome (Rows * PullIndexReader) :=
  '(rows, sc) ← scan_GetRows (index_decode db p) db (ir_scan p) limit;
  Ok (rows, MkPullIndexReader (ir_tableInfo p) (ir_indexInfo p) (ir_shardID p) (ir_covers p) (ir_indexOutputCols p) (ir_pkOutputCols p)
              (ir_indexColTypes p) (ir_pkColTypes p) (ir_includedTableCols p) sc).

(** ** What a scan has yet to return *)

Section contract.
Context {DB : Type} `{KVStore DB}.
Context (decode : Rows → bytes * bytes → outcome Rows) (db : DB) (cts : list ColumnType).

(** A stored pair is decoded to a row, which is appended. *)
Definition decodes (kv : bytes * bytes) (row : Row) : Prop :=
  ∀ rows acc, columnTypes rows = cts → rows_rep rows acc →
  ∃ rows', decode rows kv = Ok rows' ∧ columnTypes rows' = cts ∧ rows_rep rows' (acc ++ [row]).

Definition range_pairs (rng : rangeHolder) : list (bytes * bytes) := kv_scan db (rangeStart rng) (Some (rangeEnd rng)).

(** The pairs of the current range after the last one returned. *)
Definition remaining (rng : rangeHolder) (last : option bytes) (todo : list (bytes * bytes)) : Prop :=
  match last with
  | None => range_pairs rng = todo
  | Some k => ∃ v, kv_scan db k (Some (rangeEnd rng)) = (k, v) :: todo
  end.

Definition scan_pending (p : Scan) (rws : list Row) : Prop :=
  scan_colTypes p = cts ∧ cts ≠ [] ∧
  match drop (scan_rangeIndex p) (scan_ranges p) with
  | [] => rws = []
  | rng :: ranges => ∃ todo, remaining rng (scan_lastRowPrefix p) todo ∧
      Forall2 decodes (todo ++ concat (map range_pairs ranges)) rws
  end.

(** A scan from a key that was returned starts with that key's pair. *)
Lemma scan_from lo hi pre k v post : kv_scan db lo hi = pre ++ (k, v) :: post → kv_scan db k hi = (k, v) :: post.
Proof using.
  intros E. pose proof (kv_scan_sorted db lo hi) as Hs. rewrite E in Hs. apply StronglySorted_app in Hs as (Hcross & _ & Hs2).
  apply sorted_unique; [apply kv_scan_sorted|done|]. intros [k' v']. rewrite kv_scan_elem.
  assert (Hall : (k', v') ∈ pre ++ (k, v) :: post ↔ in_range lo hi k' ∧ kv_get db k' = Some v') by (rewrite <- E; apply kv_scan_elem).
  assert (Hk : in_range lo hi k ∧ kv_get db k = Some v) by (apply kv_scan_elem; rewrite E; apply elem_of_app; right; by left).
  split.
  - intros [[Hlo Hhi] Hg]. assert (Hin : (k', v') ∈ pre ++ (k, v) :: post).
    { apply Hall. split; [|done]. split; [|done]. etrans; [apply Hk|done]. }
    apply elem_of_app in Hin as [Hin|Hin]; [|done]. exfalso.
    assert (Hlt : bytes_lt k' k) by (apply (Hcross (k', v') (k, v)); [done|by left]). by apply bytes_not_lt in Hlo.
  - intros Hin. destruct (proj1 Hall) as [[Hlo Hhi] Hg]; [apply elem_of_app; by right|]. split; [|done]. split; [|done].
    apply elem_of_cons in Hin as [[= -> ->]|Hin]; [reflexivity|]. apply StronglySorted_inv in Hs2 as [_ Hp].
    rewrite Forall_forall in Hp. apply bytes_le_lt_eq. left. apply (Hp _ Hin).
Qed.

(** The loop over the pairs of one read, after the pair that is skipped. *)
Lemma decode_pairs_ok skip n todo rws : Forall2 decodes todo rws → ∀ i rows acc last,
  columnTypes rows = cts → rows_rep rows acc → (i = 0%nat → skip = false) → (i + length todo = n)%nat →
  ∃ rows', foldMi (scanPair decode skip n) i (rows, last) todo = Ok (rows', match list.last todo with Some kv => Some kv.1 | None => last end) ∧
    columnTypes rows' = cts ∧ rows_rep rows' (acc ++ rws).
Proof.
  induction 1 as [|kv row todo rws Hd Hall IH]; intros i rows acc last Hc Hr Hi Hn; cbn [foldMi].
  { exists rows. by rewrite app_nil_r. }
  destruct (Hd rows acc Hc Hr) as (rows1 & Hrow & Hc1 & Hr1). simpl in Hn.
  assert (Hpair : scanPair decode skip n i (rows, last) kv = Ok (rows1, if (i =? n - 1)%nat then Some kv.1 else last)).
  { unfold scanPair. replace ((i =? 0)%nat && skip) with false by (destruct i; [by rewrite Hi|done]). by rewrite Hrow. }
  rewrite Hpair. cbn [mbind outcome_bind].
  destruct (IH (S i) rows1 (acc ++ [row]) (if (i =? n - 1)%nat then Some kv.1 else last)) as (rows2 & -> & Hc2 & Hr2);
    [done|done|done|lia|].
  exists rows2. rewrite <- app_assoc in Hr2. split_and!; [|done|done]. do 2 f_equal.
  destruct todo as [|kv' todo]; [|rewrite last_cons_cons; by destruct (list.last (kv' :: todo)) eqn:E; [|by apply last_None in E]].
  simpl in *. by rewrite (proj2 (Nat.eqb_eq i (n - 1))) by lia.
Qed.

Lemma limited_take {A} limit (l : list A) : 0 ≤ limit → limited limit l = take (Z.to_nat limit) l.
Proof.
  intros Hl. unfold limited. rewrite (proj2 (Z.eqb_neq limit (-1))) by lia. simpl.
  destruct (Z.leb_spec (Z.of_nat (length l)) limit); [|done]. by rewrite take_ge by lia.
Qed.

(** One read: the next rows of the range, up to the limit. *)
Lemma scanRange_ok limit rng last rows acc todo rws (m := Z.to_nat (limit - Z.of_nat (length acc))) :
  cts ≠ [] → kept_rows cts rows acc → Z.of_nat (length acc) < limit → remaining rng last todo → Forall2 decodes todo rws →
  ∃ r last', scanRange decode db cts limit rng last rows = Ok (r, last') ∧ columnTypes r = cts ∧ rows_rep r (acc ++ take m rws) ∧
    last' = match list.last (take m todo) with Some kv => Some kv.1 | None => last end.
Proof.
  intros Hne Hk Hlt Hrem Hd. unfold scanRange.
  assert (Hrc : match rows with Some r => rowCount r | None => 0 end = Z.of_nat (length acc)).
  { destruct rows as [r|]; simpl in Hk; [destruct Hk; by apply rep_rowCount; congruence|by subst]. }
  assert (Hrows : columnTypes (default (NewRows cts) rows) = cts ∧ rows_rep (default (NewRows cts) rows) acc).
  { destruct rows; simpl in *; [done|subst; split; [done|apply NewRows_rep]]. }
  destruct Hrows as [Hc Hr]. rewrite Hrc. destruct last as [k|]; simpl in Hrem.
  - destruct Hrem as [v E]. unfold LocalScan. rewrite limited_take, E by lia.
    replace (Z.to_nat (limit - Z.of_nat (length acc) + 1)) with (S m) by lia. cbn [take foldMi length].
    replace (scanPair decode true (S (length (take m todo))) 0 (default (NewRows cts) rows, Some k) (k, v))
      with (Ok (default (NewRows cts) rows, Some k)) by done. cbn [mbind outcome_bind].
    destruct (decode_pairs_ok true (S (length (take m todo))) (take m todo) (take m rws) (Forall2_take _ _ _ _ Hd) 1
      (default (NewRows cts) rows) acc (Some k)) as (r & Hf & Hcr & Hrr); [done|done|done|lia|].
    rewrite Hf. by do 2 eexists.
  - unfold LocalScan. unfold range_pairs in Hrem. rewrite limited_take, Hrem by lia. fold m.
    destruct (decode_pairs_ok false (length (take m todo)) (take m todo) (take m rws) (Forall2_take _ _ _ _ Hd) 0
      (default (NewRows cts) rows) acc None) as (r & Hf & Hcr & Hrr); [done|done|done|lia|].
    rewrite Hf. by do 2 eexists.
Qed.

(** After some pairs of a range, what remains. *)
Lemma remaining_take rng last todo n : remaining rng last todo →
  remaining rng (match list.last (take n todo) with Some kv => Some kv.1 | None => last end) (drop n todo).
Proof using.
  intros Hrem. destruct (list.last (take n todo)) as [[k v]|] eqn:E.
  - apply last_Some in E as [l E]. simpl. exists v.
    assert (Hsplit : todo = l ++ (k, v) :: drop n todo) by (rewrite <- (take_drop n todo) at 1; rewrite E, <- app_assoc; done).
    destruct last as [k0|]; simpl in Hrem.
    + destruct Hrem as [v0 Hscan]. eapply (scan_from k0 _ ((k0, v0) :: l)). rewrite Hscan, Hsplit at 1. done.
    + eapply (scan_from (rangeStart rng) _ l). fold (range_pairs rng). by rewrite Hrem, <- Hsplit.
  - apply last_None in E. destruct todo as [|kv todo]; [by rewrite drop_nil|]. destruct n; [done|done].
Qed.

(** The loop over the ranges: the next rows up to the limit, and what is left. *)
Lemma scanRanges_ok limit ranges : ∀ idx last rows acc rws,
  cts ≠ [] → kept_rows cts rows acc → Z.of_nat (length acc) < limit →
  match ranges with
  | [] => rws = []
  | rng :: ranges' => ∃ todo, remaining rng last todo ∧ Forall2 decodes (todo ++ concat (map range_pairs ranges')) rws
  end →
  ∃ r k last', scanRanges decode db cts limit ranges idx last rows = Ok (r, (idx + k)%nat, last') ∧
    kept_rows cts r (acc ++ take (Z.to_nat (limit - Z.of_nat (length acc))) rws) ∧
    match drop k ranges with
    | [] => drop (Z.to_nat (limit - Z.of_nat (length acc))) rws = []
    | rng :: ranges' => ∃ todo, remaining rng last' todo ∧
        Forall2 decodes (todo ++ concat (map range_pairs ranges')) (drop (Z.to_nat (limit - Z.of_nat (length acc))) rws)
    end.
Proof.
  induction ranges as [|rng ranges IH]; intros idx last rows acc rws Hne Hk Hlt Hp; cbn [scanRanges].
  { subst rws. exists rows, 0%nat, last. by rewrite Nat.add_0_r, take_nil, app_nil_r, !drop_nil. }
  destruct Hp as (todo & Hrem & Hd). apply Forall2_app_inv_l in Hd as (rws1 & rws2 & Hd1 & Hd2 & ->).
  destruct (scanRange_ok limit rng last rows acc todo rws1) as (r & last' & Hsr & Hc & Hr & Hlast); try done.
  rewrite Hsr. cbn [mbind outcome_bind]. clear Hsr. set (m := Z.to_nat (limit - Z.of_nat (length acc))) in *.
  pose proof (Forall2_length _ _ _ Hd1) as Hlen. rewrite (rep_rowCount _ _ Hr) by congruence.
  rewrite length_app, length_take. destruct (Z.eqb_spec (Z.of_nat (length acc + m `min` length rws1)) limit) as [Heq|Hneq].
  - exists (Some r), 0%nat, last'. rewrite Nat.add_0_r, drop_0, take_app_le, drop_app_le by lia.
    split_and!; [done|done|]. exists (drop m todo). subst last'. split; [by apply remaining_take|].
    apply Forall2_app; [by apply Forall2_drop|done].
  - rewrite take_ge in Hr by lia.
    assert (Hm : (length rws1 < m)%nat) by lia.
    destruct (IH (S idx) None (Some r) (acc ++ rws1) rws2) as (r' & k & last'' & -> & Hk' & Hp'); try done.
    { rewrite length_app. lia. }
    { destruct ranges as [|rng' ranges']; [by apply Forall2_nil_inv_l in Hd2|by eexists]. }
    rewrite length_app in Hk', Hp'. replace (Z.to_nat (limit - _)) with (m - length rws1)%nat in Hk', Hp' by lia.
    exists r', (S k), last''. rewrite take_app, drop_app, take_ge, (drop_ge rws1), app_nil_l, app_assoc by lia.
    split_and!; [do 3 f_equal; lia|done|done].
Qed.

Lemma decodes_length kv row : decodes kv row → length row = length cts.
Proof.
  intros Hd. destruct (Hd (NewRows cts) []) as (r & _ & Hc & Hr); [done|apply NewRows_rep|].
  pose proof (rep_shape _ _ _ Hr Hc) as Hs. by inv Hs.
Qed.

Lemma scan_pending_shape p rws : scan_pending p rws → cts ≠ [] ∧ Forall (λ row : Row, length row = length cts) rws.
Proof.
  intros (_ & Hne & Hp). split; [done|]. destruct (drop _ _); [by subst|]. destruct Hp as (todo & _ & Hd).
  clear -Hd. induction Hd; constructor; [by eapply decodes_length|done].
Qed.

Lemma scan_page p rws limit : scan_pending p rws → 1 ≤ limit →
  ∃ out p', scan_GetRows decode db p limit = Ok (out, p') ∧ columnTypes out = cts ∧
    rows_rep out (take (Z.to_nat limit) rws) ∧ scan_pending p' (drop (Z.to_nat limit) rws).
Proof.
  intros (Hc & Hne & Hp) Hl. unfold scan_GetRows. rewrite (proj2 (Z.ltb_ge _ _)) by lia. rewrite Hc.
  destruct (scanRanges_ok limit (drop (scan_rangeIndex p) (scan_ranges p)) (scan_rangeIndex p) (scan_lastRowPrefix p) None [] rws)
    as (r & k & last' & -> & Hk & Hp'); [done|done|simpl; lia|done|].
  cbn [mbind outcome_bind]. simpl length in *. rewrite Z.sub_0_r in *. rewrite drop_drop in Hp'.
  do 2 eexists. split; [done|]. unfold scan_pending. cbn [scan_colTypes scan_rangeIndex scan_ranges scan_lastRowPrefix].
  destruct r as [r|]; simpl in Hk; [by destruct Hk; split_and!|]. rewrite Hk. split_and!; [done|apply NewRows_rep|done|done|done].
Qed.

End contract.

(** ** The table scan keeps the contract *)

#[global] Instance tableScan_executor {DB} `{KVStore DB} : PullExecutor (DB * PullTableScan) := {
  GetRows := λ _ '(db, p) limit, '(rows, p) ← tableScan_GetRows db p limit; Ok (rows, (db, p));
  Close := id
}.

Definition tableScan_pending {DB} `{KVStore DB} (x : DB * PullTableScan) (cts : list ColumnType) (rws : list Row) : Prop :=
  scan_pending (table_decode x.2) x.1 cts (ts_scan x.2) rws.

Lemma tableScan_shape {DB} `{KVStore DB} (x : DB * PullTableScan) cts rws :
  tableScan_pending x cts rws → cts ≠ [] ∧ Forall (λ row : Row, length row = length cts) rws.
Proof. apply scan_pending_shape. Qed.

Lemma tableScan_page {DB} `{KVStore DB} (x : DB * PullTableScan) cts rws limit :
  tableScan_pending x cts rws → 1 ≤ limit →
  ∃ enough out x', (∀ fuel, (enough ≤ fuel)%nat → GetRows fuel x limit = Ok (out, x')) ∧
    columnTypes out = cts ∧ rows_rep out (take (Z.to_nat limit) rws) ∧ tableScan_pending x' cts (drop (Z.to_nat limit) rws).
Proof.
  destruct x as [db p]. intros Hp Hl. destruct (scan_page (table_decode p) db cts (ts_scan p) rws limit Hp Hl) as (out & sc & E & Hc & Hr & Hp').
  exists 0%nat, out, (db, MkPullTableScan (ts_tableInfo p) (ts_includeCols p) sc). split_and!; [|done|done|done].
  intros fuel _. simpl. unfold tableScan_GetRows. by rewrite E.
Qed.

#[global] Instance tableScan_contract {DB} `{KVStore DB} : PullContract (DB * PullTableScan) := {
  pending := tableScan_pending;
  pending_shape := tableScan_shape;
  pending_page := tableScan_page
}.

(** ** The rows of a table *)

Section table.
Context {DB : Type} `{KVStore DB}.
Context (ti : TableInfo) (shardID : Z) (pkTypes : list ColumnType).

Definition row_ok (row : Row) : Prop :=
  (∃ vs, pk_values ti row pkTypes vs) ∧ Forall2 row_cell_ok (ti_ColumnTypes ti) row.

(** The store holds exactly these rows under the prefix of the table and the shard. *)
Definition table_holds (db : DB) (rows : list Row) : Prop :=
  Forall row_ok rows ∧
  ∀ k v, kv_get db k = Some v ∧ EncodeTableKeyPrefix (ti_ID ti) shardID `prefix_of` k ↔
    ∃ row, row ∈ rows ∧ encodeKeyFromRow ti row shardID = Ok k ∧ EncodeRow row (ti_ColumnTypes ti) [] = Ok v.

(** Rows in the order of their primary keys. *)
Definition pk_lt (a b : Row) : Prop :=
  match cells_at a (PrimaryKeyCols ti), cells_at b (PrimaryKeyCols ti) with
  | Some c, Some d => cols_compare cell_compare c d = Lt
  | _, _ => False
  end.

(** The rows of a range; no range is the whole table. *)
Definition in_pk_range (sr : option ScanRange) (row : Row) : bool :=
  match sr, cells_at row (PrimaryKeyCols ti) with
  | None, _ => true
  | Some sr, Some cells => in_key_range sr cells
  | Some _, None => false
  end.

Definition range_rows (rows : list Row) (sr : option ScanRange) : list Row := filter (λ row, in_pk_range sr row = true) rows.

(** The ranges of a scan: none, or ranges with well-formed bounds. When the high bound of
    a range is inclusive and the greatest value of all its columns, its end is the prefix
    of the next table followed by zero bytes; the store must then not have a key of the
    next table that is only zero bytes and shorter than that. *)
Definition ranges_ok (db : DB) (srs : list (option ScanRange)) : Prop :=
  srs = [None] ∨
  Forall (λ sr, match sr with
    | Some sr => range_ok true pkTypes sr ∧ ∀ k, next_table_gap true pkTypes (ti_ID ti) shardID sr k → kv_get db k = None
    | None => False end) srs.

Definition row_pair (row : Row) : bytes * bytes :=
  match encodeKeyFromRow ti row shardID, EncodeRow row (ti_ColumnTypes ti) [] with Ok k, Ok v => (k, v) | _, _ => ([], []) end.

Lemma row_pair_eq row vs : pk_values ti row pkTypes vs → Forall2 row_cell_ok (ti_ColumnTypes ti) row →
  encodeKeyFromRow ti row shardID = Ok (row_key ti shardID pkTypes vs) ∧
  EncodeRow row (ti_ColumnTypes ti) [] = Ok (cols_bytes row_cell_bytes (ti_ColumnTypes ti) row) ∧
  row_pair row = (row_key ti shardID pkTypes vs, cols_bytes row_cell_bytes (ti_ColumnTypes ti) row).
Proof.
  intros Hpk Hok. unfold row_pair. rewrite (encodeKeyFromRow_eq _ _ _ _ _ Hpk), EncodeRow_eq by done. done.
Qed.

Lemma cols_compare_some vs ws : cols_compare cell_compare (map Some vs) (map Some ws) = cols_compare value_compare vs ws.
Proof. revert ws. induction vs as [|v vs IH]; intros [|w ws]; simpl; [done..|]. by rewrite IH. Qed.

Lemma sorted_filter {A} (R : A → A → Prop) (P : A → Prop) `{!∀ x, Decision (P x)} (l : list A) :
  StronglySorted R l → StronglySorted R (filter P l).
Proof.
  induction 1 as [|x l Hs IH Hx]; [constructor|]. rewrite filter_cons. case_decide; [|done]. constructor; [done|].
  rewrite Forall_forall in *. intros y [_ Hy]%list_elem_of_filter. by apply Hx.
Qed.

Lemma length_selected {A B} (flags : list bool) (l : list A) : ∀ k : list B, length l = length k →
  length (RowEncoding.selected flags l) = length (RowEncoding.selected flags k).
Proof.
  revert l. induction flags as [|b flags IH]; intros [|x l] [|y k]; simpl; try done. intros [= Hl]. destruct b; simpl; by rewrite (IH l k).
Qed.

Lemma row_pairs_sorted rows : Forall row_ok rows → StronglySorted pk_lt rows →
  StronglySorted (λ a b, bytes_lt a.1 b.1) (map row_pair rows).
Proof.
  intros Hok Hs. induction Hs as [|row rows Hs IH Hall]; simpl; [constructor|]. inv Hok. constructor; [by apply IH|].
  apply Forall_map. rewrite Forall_forall in *. intros row' Hin.
  match goal with Hr : row_ok row, Hrs : ∀ x, x ∈ rows → row_ok x |- _ => destruct Hr as [[vs Hpk] Hc], (Hrs _ Hin) as [[ws Hpk'] Hc'] end.
  destruct (row_pair_eq _ _ Hpk Hc) as (_ & _ & ->), (row_pair_eq _ _ Hpk' Hc') as (_ & _ & ->). simpl.
  specialize (Hall _ Hin). unfold pk_lt in Hall. destruct Hpk as (_ & Ec & Hv), Hpk' as (_ & Ec' & Hw). rewrite Ec, Ec' in Hall.
  rewrite cols_compare_some in Hall. unfold bytes_lt. by rewrite row_key_cmp.
Qed.

(** The pairs of a byte range are those of the rows of the range. *)
Lemma range_pairs_eq db rows rh sr : keys_ok db → table_holds db rows → StronglySorted pk_lt rows →
  (∀ k, bytes_ok k → (16 ≤ length k)%nat → is_Some (kv_get db k) → in_range (rangeStart rh) (Some (rangeEnd rh)) k →
    EncodeTableKeyPrefix (ti_ID ti) shardID `prefix_of` k) →
  (∀ row vs, pk_values ti row pkTypes vs →
    in_range (rangeStart rh) (Some (rangeEnd rh)) (row_key ti shardID pkTypes vs) ↔ in_pk_range sr row = true) →
  range_pairs db rh = map row_pair (range_rows rows sr).
Proof.
  intros Hdb [Hok Hrows] Hs Hpre Hin. apply sorted_unique; [apply kv_scan_sorted| |].
  { apply row_pairs_sorted; [|by apply sorted_filter]. rewrite Forall_forall in *. intros row [_ ?]%list_elem_of_filter. by apply Hok. }
  intros [k v]. unfold range_pairs. rewrite kv_scan_elem, list_elem_of_fmap. rewrite Forall_forall in Hok. split.
  - intros [Hr Hg]. destruct (Hdb _ _ Hg) as [Hk Hl]. destruct (proj1 (Hrows k v)) as (row & Hrow & Ek & Ev); [by split; [|apply Hpre]|].
    exists row. destruct (Hok _ Hrow) as [[vs Hpk] Hc]. destruct (row_pair_eq _ _ Hpk Hc) as (Ek' & Ev' & ->).
    split; [congruence|]. apply list_elem_of_filter. split; [|done]. apply (Hin _ _ Hpk). congruence.
  - intros (row & E & Hrow). apply list_elem_of_filter in Hrow as [Hrng Hrow].
    destruct (Hok _ Hrow) as [[vs Hpk] Hc]. destruct (row_pair_eq _ _ Hpk Hc) as (Ek' & Ev' & Ep). rewrite Ep in E. simplify_eq.
    split; [by apply (Hin _ _ Hpk)|]. apply (Hrows _ _). by exists row.
Qed.

Lemma row_decodes p row flags :
  ts_tableInfo p = ti → ts_includeCols p = flags → length flags = length (ti_ColumnTypes ti) → row_ok row →
  decodes (table_decode p) (RowEncoding.selected flags (ti_ColumnTypes ti)) (row_pair row) (RowEncoding.selected flags row).
Proof using Type.
  intros Hti Hfl Hlen [[vs Hpk] Hc] rows acc Hcols Hrep. destruct (row_pair_eq _ _ Hpk Hc) as (_ & _ & ->).
  unfold table_decode. cbn [snd]. rewrite Hti, Hfl, <- (app_nil_r (cols_bytes _ _ _)).
  rewrite <- Hcols. apply DecodeRowWithIgnoredCols_ok; [done|done| |done|].
  - intros j b Hj. simpl. unfold index. by rewrite Hj.
  - rewrite Hcols. apply length_selected. by eapply Forall2_length.
Qed.

Lemma pk_cols_ok cts vs : Forall2 key_value_ok cts vs → Forall2 (col_ok true) cts (map Some vs).
Proof. induction 1; simpl; constructor; [split|]; done. Qed.

Lemma row_key_ok vs : Forall2 key_value_ok pkTypes vs → bytes_ok (row_key ti shardID pkTypes vs).
Proof.
  intros Hv. apply bytes_ok_app. split; [apply EncodeTableKeyPrefix_ok|]. rewrite <- cols_bytes_pk.
  eapply cols_bytes_ok; [apply _..|by apply pk_cols_ok].
Qed.

Lemma length_mapM_o {A B} (f : A → outcome B) l : ∀ ys, mapM_o f l = Ok ys → length ys = length l.
Proof.
  induction l as [|x l IH]; intros ys; cbn [mapM_o]; [by intros [= <-]|]. intros E. ostep E. ostep E. simplify_eq. simpl. by rewrite (IH _ eq_refl).
Qed.

Lemma mapM_o_Forall2 {A B} (f : A → outcome B) (P : A → B → Prop) l :
  Forall (λ x, ∃ y, f x = Ok y ∧ P x y) l → ∃ ys, mapM_o f l = Ok ys ∧ Forall2 P l ys.
Proof.
  induction 1 as [|x l (y & E & Hy) _ (ys & Es & Hys)]; [by exists []|]. exists (y :: ys). cbn [mapM_o]. rewrite E. osimpl. rewrite Es.
  split; [done|by constructor].
Qed.

(** The byte ranges hold the rows of the value ranges. *)
Lemma scan_ranges_rows db rows srs : u64_ok (ti_ID ti) → ti_ID ti + 1 < two64 → u64_ok shardID → keys_ok db →
  types_at (ti_ColumnTypes ti) (PrimaryKeyCols ti) = Some pkTypes →
  table_holds db rows → StronglySorted pk_lt rows → ranges_ok db srs →
  ∃ rhs, calcScanRangeKeys srs (ti_ID ti) (PrimaryKeyCols ti) ti shardID false = Ok rhs ∧
    Forall2 (λ sr rh, range_pairs db rh = map row_pair (range_rows rows sr)) srs rhs.
Proof.
  intros Ht Ht1 Hs Hdb Hcts Hrows Hsort [->|Hsrs].
  - eexists. split; [done|]. constructor; [|constructor]. apply range_pairs_eq; try done; cbn [rangeStart rangeEnd];
      rewrite u64_small by (split; unfold u64_ok in Ht; lia).
    + intros k Hk Hl _ Hr. by apply table_range in Hr.
    + intros row vs (_ & _ & Hv). rewrite table_range; try done.
      * split; [done|]. intros _. by apply prefix_app_r.
      * by apply row_key_ok.
      * unfold row_key. rewrite length_app, length_EncodeTableKeyPrefix. lia.
  - assert (Hall : Forall (λ sr, ∃ rh, match sr with
        | Some sr => calcRangeKeys sr (ti_ID ti) (PrimaryKeyCols ti) ti shardID false
        | None => Panic "nil pointer dereference" end = Ok rh ∧ range_pairs db rh = map row_pair (range_rows rows sr)) srs).
    { eapply Forall_impl; [exact Hsrs|]. intros [sr|]; [|done]. intros [Hr Hc].
      destruct (calcRangeKeys_in sr _ _ ti shardID false pkTypes Ht Ht1 Hs Hcts Hr) as (rh & E & Hin & Hpre). exists rh. split; [done|].
      apply range_pairs_eq; try done.
      { intros k Hk Hl [v Hv] Hrng. destruct (Hpre k Hk Hl Hrng) as [|Hgap]; [done|]. by rewrite (Hc k Hgap) in Hv. }
      intros row vs (_ & Ec & Hv). unfold in_pk_range. rewrite Ec.
      rewrite <- (Hin (map Some vs) []); [|by apply pk_cols_ok|constructor]. by rewrite app_nil_r, cols_bytes_pk. }
    destruct (mapM_o_Forall2 _ _ _ Hall) as (rhs & E & Hrhs). exists rhs. split; [|done].
    destruct srs as [|[sr|] [|? ?]]; done.
Qed.

Lemma tableScan_new db rows flags colIndexes srs : u64_ok (ti_ID ti) → ti_ID ti + 1 < two64 → u64_ok shardID → keys_ok db →
  types_at (ti_ColumnTypes ti) (PrimaryKeyCols ti) = Some pkTypes →
  table_holds db rows → StronglySorted pk_lt rows → ranges_ok db srs →
  mapM_o (includedColumn ti colIndexes) (seq 0 (length (ti_ColumnTypes ti))) = Ok flags → RowEncoding.selected flags (ti_ColumnTypes ti) ≠ [] →
  ∃ p, NewPullTableScan ti colIndexes shardID srs = Ok p ∧
    tableScan_pending (db, p) (RowEncoding.selected flags (ti_ColumnTypes ti))
      (map (RowEncoding.selected flags) (concat (map (range_rows rows) srs))).
Proof.
  intros Ht Ht1 Hs Hdb Hcts Hrows Hsort Hsrs Hfl Hne.
  destruct (scan_ranges_rows db rows srs Ht Ht1 Hs Hdb Hcts Hrows Hsort Hsrs) as (rhs & E & Hrhs).
  unfold NewPullTableScan. rewrite Hfl. osimpl. rewrite E. osimpl. eexists. split; [done|].
  assert (Hlen : length flags = length (ti_ColumnTypes ti)) by (rewrite (length_mapM_o _ _ _ Hfl); apply length_seq).
  assert (Hpairs : concat (map (range_pairs db) rhs) = map row_pair (concat (map (range_rows rows) srs))).
  { clear -Hrhs. induction Hrhs as [|sr rh srs rhs Hr _ IH]; simpl; [done|]. by rewrite map_app, Hr, IH. }
  assert (Hall : Forall row_ok (concat (map (range_rows rows) srs))).
  { destruct Hrows as [Hok _]. clear -Hok. induction srs as [|sr srs IH]; simpl; [constructor|]. apply Forall_app. split; [|done].
    rewrite Forall_forall in *. intros row [_ Hrow]%list_elem_of_filter. by apply Hok. }
  unfold tableScan_pending, scan_pending. cbn [fst snd ts_scan scan_colTypes scan_rangeIndex scan_ranges scan_lastRowPrefix]. rewrite drop_0.
  split_and!; [done|done|]. set (p := MkPullTableScan _ _ _).
  assert (Hdec : Forall2 (decodes (table_decode p) (RowEncoding.selected flags (ti_ColumnTypes ti)))
    (concat (map (range_pairs db) rhs)) (map (RowEncoding.selected flags) (concat (map (range_rows rows) srs)))).
  { rewrite Hpairs. apply Forall2_fmap, Forall_Forall2_diag. eapply Forall_impl; [exact Hall|]. intros row Hrow. by apply row_decodes. }
  destruct rhs as [|rh rhs]; simpl in Hdec; [by apply Forall2_nil_inv_l in Hdec|]. by exists (range_pairs db rh).
Qed.
End table.

(** Rows written where the table had none. *)
Lemma written_table_holds {DB} `{KVStore DB} (db : DB) ti shardID pkTypes rows :
  (∀ k, EncodeTableKeyPrefix (ti_ID ti) shardID `prefix_of` k → kv_get db k = None) →
  Forall (row_ok ti pkTypes) rows → StronglySorted (pk_lt ti) rows →
  table_holds ti shardID pkTypes (kv_apply db (map (λ kv, KVSet kv.1 kv.2) (map (row_pair ti shardID) rows))) rows.
Proof.
  intros Hdb Hok Hs. split; [done|]. pose proof (row_pairs_sorted ti shardID pkTypes rows Hok Hs) as Hsort. intros k v.
  assert (Huniq : ∀ w w', (k, w) ∈ map (row_pair ti shardID) rows → (k, w') ∈ map (row_pair ti shardID) rows → w = w').
  { intros w w' Hw Hw'. clear -Hsort Hw Hw'. induction Hsort as [|p l Hl IH Hall]; [by apply not_elem_of_nil in Hw|].
    rewrite Forall_forall in Hall. apply elem_of_cons in Hw, Hw'. destruct Hw as [Hw|Hw], Hw' as [Hw'|Hw'].
    - congruence.
    - subst p. exfalso. exact (bytes_lt_irrefl k (Hall _ Hw')).
    - subst p. exfalso. exact (bytes_lt_irrefl k (Hall _ Hw)).
    - by apply IH. }
  assert (Hrow : ∀ row, row ∈ rows → ∃ k v, encodeKeyFromRow ti row shardID = Ok k ∧ EncodeRow row (ti_ColumnTypes ti) [] = Ok v ∧
    row_pair ti shardID row = (k, v) ∧ EncodeTableKeyPrefix (ti_ID ti) shardID `prefix_of` k).
  { intros row Hin. rewrite Forall_forall in Hok. destruct (Hok _ Hin) as [[vs Hpk] Hc].
    destruct (row_pair_eq ti shardID pkTypes _ _ Hpk Hc) as (E1 & E2 & E3). do 2 eexists. split_and!; [done..|]. by apply prefix_app_r. }
  rewrite kv_get_apply. split.
  - intros [Hg Hp]. destruct (decide (k ∈ map fst (map (row_pair ti shardID) rows))) as [Hin|Hin].
    + apply list_elem_of_fmap in Hin as ([k' w] & -> & Hin). simpl in *. rewrite (effect_sets_hit k' w) in Hg by (done || by intros; eapply Huniq).
      inv Hg. apply list_elem_of_fmap in Hin as (row & E & Hin). destruct (Hrow _ Hin) as (k2 & v2 & ? & ? & E2 & _).
      exists row. rewrite E2 in E. by inv E.
    + rewrite effect_sets_miss, Hdb in Hg by done. done.
  - intros (row & Hin & Ek & Ev). destruct (Hrow _ Hin) as (k2 & v2 & Ek2 & Ev2 & E2 & Hp). rewrite Ek in Ek2. rewrite Ev in Ev2. simplify_eq.
    assert (Hpair : (k2, v2) ∈ map (row_pair ti shardID) rows) by (apply list_elem_of_fmap; by exists row).
    split; [|done]. apply effect_sets_hit; [done|]. intros w Hw. by eapply Huniq.
Qed.

(** C16. A table scan returns the rows of the table. Over a store that holds the given
    rows in one shard, in the order of their primary keys, a scan of that shard returns,
    page by page and for any page sizes, the selected visible columns of the rows of its
    ranges, range after range and in the order of the primary keys: no row is repeated or
    lost at a page boundary. No range is the whole table. A range whose inclusive high
    bound is the greatest value of its columns ends after the prefix of the next table;
    the theorem then asks that the store has no key of the next table made of fewer zero
    bytes than the encoded bound. *)
Theorem table_scan_pages {DB} `{KVStore DB} (db : DB) (ti : TableInfo) (shardID : Z) (pkTypes : list ColumnType) (rows : list Row)
    (colIndexes : option (list nat)) (flags : list bool) (ranges : list (option ScanRange)) (limits : list Z) :
  u64_ok (ti_ID ti) → ti_ID ti + 1 < two64 → u64_ok shardID → keys_ok db →
  types_at (ti_ColumnTypes ti) (PrimaryKeyCols ti) = Some pkTypes →
  table_holds ti shardID pkTypes db rows → StronglySorted (pk_lt ti) rows → ranges_ok ti shardID pkTypes db ranges →
  mapM_o (includedColumn ti colIndexes) (seq 0 (length (ti_ColumnTypes ti))) = Ok flags →
  RowEncoding.selected flags (ti_ColumnTypes ti) ≠ [] → Forall (λ l, 1 ≤ l) limits →
  ∃ p enough outs x, NewPullTableScan ti colIndexes shardID ranges = Ok p ∧
    (∀ fuel, (enough ≤ fuel)%nat → pages fuel (db, p) limits = Ok (outs, x)) ∧
    Forall2 rows_rep outs (cut (map (RowEncoding.selected flags) (concat (map (range_rows ti rows) ranges))) limits).
Proof.
  intros Ht Ht1 Hs Hdb Hcts Hrows Hsort Hsrs Hfl Hne Hl.
  destruct (tableScan_new ti shardID pkTypes db rows flags colIndexes ranges) as (p & Hnew & Hp); [done..|].
  change (pending (db, p) (RowEncoding.selected flags (ti_ColumnTypes ti)) (map (RowEncoding.selected flags) (concat (map (range_rows ti rows) ranges)))) in Hp.
  destruct (pages_cut limits (db, p) _ _ Hp Hl) as (enough & outs & x & Hpages & Hcut & _). by exists p, enough, outs, x.
Qed.

(** A table of three rows, with a key and a name. *)
Definition demo_table : TableInfo := MkTableInfo 1001 [] (lit "t") [0%nat] [] [BigIntColumnType; VarcharColumnType] None 0 0.
Definition demo_row (a : Z) (s : string) : Row := [Some (VInt a); Some (VString (lit s))].
Definition demo_rows : list Row := [demo_row 1 "a"; demo_row 2 "b"; demo_row 3 "c"].
Definition demo_store : gmap bytes bytes := kv_apply ∅ (map (λ kv, KVSet kv.1 kv.2) (map (row_pair demo_table 7) demo_rows)).

Lemma demo_row_ok a s : i64_ok a → bytes_ok (lit s) → (length (lit s) < 256)%nat → row_ok demo_table [BigIntColumnType] (demo_row a s).
Proof.
  intros Ha Hs Hl. split.
  - exists [VInt a]. split_and!; [done|done|]. by constructor; [|constructor].
  - constructor; [done|]. constructor; [|constructor]. cbn. lia.
Qed.

Lemma demo_table_holds :
  table_holds demo_table 7 [BigIntColumnType] demo_store demo_rows ∧ keys_ok demo_store ∧ StronglySorted (pk_lt demo_table) demo_rows.
Proof.
  assert (Hsort : StronglySorted (pk_lt demo_table) demo_rows) by (repeat constructor).
  split_and!; [|apply keys_ok_apply; [done|]|done].
  - apply written_table_holds; [done| |done]. unfold demo_rows. rewrite !Forall_cons, Forall_nil. split_and!; [apply demo_row_ok; by_decide..|done].
  - constructor; [split; by_decide|]. constructor; [split; by_decide|]. constructor; [split; by_decide|]. constructor.
Qed.

(** The rows with a key of at least 2, up to the greatest integer, in pages of one row. *)
Definition demo_from_2 : ScanRange := MkScanRange [Some (VInt 2)] [Some (VInt (two63 - 1))] false false.

Lemma demo_from_2_ok : ranges_ok demo_table 7 [BigIntColumnType] demo_store [Some demo_from_2].
Proof.
  right. constructor; [|constructor]. split.
  - split; [reflexivity|]. split; constructor; (split; [split; simpl; lia|done]) || constructor.
  - intros k (_ & m & Hm & ->). change (length _) with 8%nat in Hm.
    do 8 (destruct m as [|m]; [vm_compute; reflexivity|]). lia.
Qed.

Lemma table_scan_pages_witness :
  ∃ p enough outs x, NewPullTableScan demo_table (Some [1%nat]) 7 [Some demo_from_2] = Ok p ∧
    (∀ fuel, (enough ≤ fuel)%nat → pages fuel (demo_store, p) [1; 1; 5] = Ok (outs, x)) ∧
    Forall2 rows_rep outs [[[Some (VString (lit "b"))]]; [[Some (VString (lit "c"))]]; []].
Proof.
  destruct demo_table_holds as (Hrows & Hdb & Hsort).
  apply (table_scan_pages demo_store demo_table 7 [BigIntColumnType] demo_rows (Some [1%nat]) [false; true]
    [Some demo_from_2] [1; 1; 5]); [split; simpl; lia|simpl; lia|split; lia|exact Hdb|reflexivity|
    exact Hrows|exact Hsort|exact demo_from_2_ok|reflexivity|discriminate|repeat constructor; lia].
Defined.

(** When a row is deleted between two pages the scan can lose another one. The next
    page starts at the key of the last row returned and leaves out the first pair it
    finds; if that row has been deleted in between, the pair left out is the next row.
    Here row 1 is returned and then deleted, and the next page returns row 3: row 2, which
    was there all the time, is never returned. *)
Theorem deleted_row_hides_another :
  let db := demo_store in
  let db' := kv_apply db [KVDelete (row_pair demo_table 7 (demo_row 1 "a")).1] in
  ∃ p p1 p2 out1 out2, NewPullTableScan demo_table None 7 [None] = Ok p ∧
    tableScan_GetRows db p 1 = Ok (out1, p1) ∧ tableScan_GetRows db' p1 1 = Ok (out2, p2) ∧
    RowCount out1 = 1%nat ∧ GetRow out1 0 = Ok (demo_row 1 "a") ∧
    RowCount out2 = 1%nat ∧ GetRow out2 0 = Ok (demo_row 3 "c") ∧
    kv_get db' (row_pair demo_table 7 (demo_row 2 "b")).1 = Some (row_pair demo_table 7 (demo_row 2 "b")).2.
Proof.
  do 5 eexists. split; [vm_compute; reflexivity|]. split; [vm_compute; reflexivity|]. split; [vm_compute; reflexivity|].
  split_and!; vm_compute; reflexivity.
Qed.
