(* ===== verification/RowsBatch.v ===== *)
(** * Batches of changed rows

    src/push/exec/rows_batch.go and exec.go, and the encoders of src/push/util/util.go. A
    batch of the push engine is a row set with entries that point into it: the row before
    and the row after a change and the receiver sequence of the change. [batch_rep] is the
    list of changes a batch stands for; the executors are specified on that list. *)

From stdpp Require Import base list list_numbers strings gmap sorting.
From Stdlib Require Import ZArith Lia.
From S2P Require Import Prelude Encoding Timestamp Decimal Rows WriteBatch PullExec.

Record RowsEntry := MkRowsEntry {
  prevIndex : Z;
  currIndex : Z;
  receiverIndex : Z
}.

(** [nil] rows and [nil] entries are [None]. *)
Record RowsBatch := MkRowsBatch {
  rb_rows : option Rows;
  rb_entries : option (list RowsEntry)
}.

Definition NewCurrentRowsBatch (currentRows : Rows) : RowsBatch := MkRowsBatch (Some currentRows) None.
Definition NewRowsBatch (rows : Rows) (entries : list RowsEntry) : RowsBatch := MkRowsBatch (Some rows) (Some entries).
Definition NewRowsEntry (prevIndex currIndex receiverIndex : Z) : RowsEntry := MkRowsEntry prevIndex currIndex receiverIndex.

Definition batch_rows (r : RowsBatch) : outcome Rows :=
  match rb_rows r with Some rows => Ok rows | None => Panic "nil pointer dereference" end.

(** The optional row of [AppendEntry]: its index in the row set, or -1. *)
Definition appendOptional (rows : Rows) (row : option Row) : outcome (Rows * Z) :=
  match row with
  | None => Ok (rows, -1)
  | Some row => rows ← AppendRow rows row; Ok (rows, rowCount rows - 1)
  end.

Definition AppendEntry (r : RowsBatch) (rowPrev rowCurr : option Row) (receiverIndex : Z) : outcome RowsBatch :=
  rows ← batch_rows r;
  '(rows, pi) ← appendOptional rows rowPrev;
  '(rows, ci) ← appendOptional rows rowCurr;
  Ok (MkRowsBatch (Some rows) (Some (default [] (rb_entries r) ++ [MkRowsEntry pi ci receiverIndex]))).

Definition batch_Len (r : RowsBatch) : outcome nat :=
  match rb_entries r with
  | None => rows ← batch_rows r; Ok (RowCount rows)
  | Some entries => Ok (length entries)
  end.

(** The row at an index of an entry, -1 being none. *)
Definition rowAt (r : RowsBatch) (i : Z) : outcome (option Row) :=
  if i =? -1 then Ok None
  else
    rows ← batch_rows r;
    if i <? 0 then Panic "index out of range" else row ← GetRow rows (Z.to_nat i); Ok (Some row).

Definition PreviousRow (r : RowsBatch) (i : nat) : outcome (option Row) :=
  match rb_entries r with
  | None => Ok None
  | Some entries => entry ← index entries i; rowAt r (prevIndex entry)
  end.

Definition CurrentRow (r : RowsBatch) (i : nat) : outcome (option Row) :=
  match rb_entries r with
  | None => rows ← batch_rows r; row ← GetRow rows i; Ok (Some row)
  | Some entries => entry ← index entries i; rowAt r (currIndex entry)
  end.

Definition ReceiverIndex (r : RowsBatch) (i : nat) : outcome Z :=
  match rb_entries r with
  | None => Ok 0
  | Some entries => entry ← index entries i; Ok (receiverIndex entry)
  end.

(** [for i := 0; i < rowsBatch.Len(); i++ { .. }] over the parts of each entry. *)
Definition forEntries {T} (r : RowsBatch) (body : T → option Row → option Row → Z → outcome T) (st : T) : outcome T :=
  numRows ← batch_Len r;
  foldM (λ st i,
    prevRow ← PreviousRow r i;
    currRow ← CurrentRow r i;
    receiver ← ReceiverIndex r i;
    body st prevRow currRow receiver) st (seq 0 numRows).

(** ** The context of a batch in progress *)

(** The batch that the shard will write, the batches forwarded to other shards, the
    table id of a fill (-1 when there is none), and the read side of the row cache. What
    the executors write directly to the local store, and the sequences of the captured
    changes of a fill by fill table and shard, are effects of the batch too. *)
Record ExecutionContext := MkExecutionContext {
  ctx_WriteBatch : WriteBatch;
  ctx_RemoteBatches : gmap Z WriteBatch;
  ctx_FillTableID : Z;
  ctx_RowCache : bytes → outcome (option bytes);
  ctx_LocalWrites : list WriteBatch;
  ctx_LastSequences : gmap (Z * Z) Z
}.

Definition NewExecutionContext (writeBatch : WriteBatch) (rowCache : bytes → outcome (option bytes)) (fillTableID : Z)
    (lastSequences : gmap (Z * Z) Z) : ExecutionContext :=
  MkExecutionContext writeBatch ∅ fillTableID rowCache [] lastSequences.

Definition with_WriteBatch (ctx : ExecutionContext) (wb : WriteBatch) : ExecutionContext :=
  MkExecutionContext wb (ctx_RemoteBatches ctx) (ctx_FillTableID ctx) (ctx_RowCache ctx) (ctx_LocalWrites ctx) (ctx_LastSequences ctx).

Definition AddToForwardBatch (ctx : ExecutionContext) (shardID : Z) (key value : bytes) : ExecutionContext :=
  let remoteBatch := default (NewWriteBatch shardID) (ctx_RemoteBatches ctx !! shardID) in
  MkExecutionContext (ctx_WriteBatch ctx) (<[shardID := AddPut remoteBatch key value]> (ctx_RemoteBatches ctx))
    (ctx_FillTableID ctx) (ctx_RowCache ctx) (ctx_LocalWrites ctx) (ctx_LastSequences ctx).

(** An executor handles a batch of its child; its parent is an argument. *)
Abbreviation Handler := (RowsBatch → ExecutionContext → outcome ExecutionContext).

(** ** Encoders of forwarded rows *)

Definition EncodeKeyForForwardIngest (sourceID partitionID offset remoteConsumerID : Z) : bytes :=
  let buff := AppendUint64ToBufferBE [] sourceID in
  let buff := AppendUint64ToBufferBE buff partitionID in
  let buff := AppendUint64ToBufferBE buff offset in
  AppendUint64ToBufferBE buff remoteConsumerID.

Definition EncodeKeyForForwardAggregation (originatorTableID sendingShardID sequence remoteConsumerID : Z) : bytes :=
  let buff := AppendUint64ToBufferBE [] originatorTableID in
  let buff := AppendUint64ToBufferBE buff sendingShardID in
  let buff := AppendUint64ToBufferBE buff sequence in
  AppendUint64ToBufferBE buff remoteConsumerID.

(** A missing row is an empty buffer. *)
Definition EncodePrevAndCurrentRow (prevValueBuff currValueBuff : bytes) : bytes :=
  let buff := AppendUint32ToBufferLE [] (u32 (Z.of_nat (length prevValueBuff))) in
  let buff := buff ++ prevValueBuff in
  let buff := AppendUint32ToBufferLE buff (u32 (Z.of_nat (length currValueBuff))) in
  buff ++ currValueBuff.

(** ** Changes *)

(** The row before, the row after, the receiver sequence. *)
Abbreviation change := (option Row * option Row * Z)%type.

Definition index_rep (rws : list Row) (i : Z) (row : option Row) : Prop :=
  match row with
  | None => i = -1
  | Some row => 0 ≤ i ∧ rws !! Z.to_nat i = Some row
  end.

Definition entry_rep (rws : list Row) (e : RowsEntry) (ch : change) : Prop :=
  index_rep rws (prevIndex e) ch.1.1 ∧ index_rep rws (currIndex e) ch.1.2 ∧ receiverIndex e = ch.2.

(** The batch [b] of rows of the types [cts] stands for the changes [chs]. *)
Definition batch_rep (cts : list ColumnType) (b : RowsBatch) (chs : list change) : Prop :=
  cts ≠ [] ∧ ∃ r rws, rb_rows b = Some r ∧ columnTypes r = cts ∧ rows_rep r rws ∧
    match rb_entries b with
    | None => chs = map (λ row, (None, Some row, 0)) rws
    | Some entries => Forall2 (entry_rep rws) entries chs
    end.

(** The rows before and after, in order. *)
Definition prevs (chs : list change) : list Row := omap (λ ch, ch.1.1) chs.
Definition currs (chs : list change) : list Row := omap (λ ch, ch.1.2) chs.

(** [M'] is [M] after the changes, as multisets of rows. *)
Definition changed (M : list Row) (chs : list change) (M' : list Row) : Prop := M' ++ prevs chs ≡ₚ M ++ currs chs.

(** ** Lemmas *)

Lemma rowAt_rep b r rws i row : rb_rows b = Some r → rows_rep r rws → index_rep rws i row → rowAt b i = Ok row.
Proof.
  intros Hr Hrep Hi. unfold rowAt, batch_rows. rewrite Hr. destruct row as [row|]; simpl in Hi; [|by subst].
  destruct Hi as [Hi Hl]. rewrite (proj2 (Z.eqb_neq i (-1))), (proj2 (Z.ltb_ge i 0)) by lia. osimpl.
  by rewrite (rep_GetRow _ _ _ _ Hrep Hl).
Qed.

Section batches.
Context (cts : list ColumnType) (b : RowsBatch) (chs : list change) (Hb : batch_rep cts b chs).

Lemma batch_Len_rep : batch_Len b = Ok (length chs).
Proof using Hb.
  destruct Hb as (Hne & r & rws & Hr & Hc & Hrep & Hes). unfold batch_Len, batch_rows. rewrite Hr.
  destruct (rb_entries b); [by apply Forall2_length in Hes; rewrite Hes|]. subst chs. osimpl.
  by rewrite (rep_RowCount _ _ Hrep), length_map by congruence.
Qed.

Lemma batch_change_rep i p c n : chs !! i = Some (p, c, n) →
  PreviousRow b i = Ok p ∧ CurrentRow b i = Ok c ∧ ReceiverIndex b i = Ok n.
Proof using Hb.
  intros Hi. destruct Hb as (Hne & r & rws & Hr & Hc & Hrep & Hes). unfold PreviousRow, CurrentRow, ReceiverIndex.
  destruct (rb_entries b) as [es|].
  - destruct (Forall2_lookup_r _ _ _ _ _ Hes Hi) as (e & He & Hp & Hcu & Hn). rewrite !(index_ok _ _ _ He). osimpl.
    rewrite !(rowAt_rep _ _ _ _ _ Hr Hrep) by done. by rewrite Hn.
  - subst chs. apply list_lookup_fmap_Some in Hi as (row & E & Hrow). simplify_eq. unfold batch_rows. rewrite Hr. osimpl.
    by rewrite (rep_GetRow _ _ _ _ Hrep Hrow).
Qed.

Lemma forEntries_eq {T} (body : T → option Row → option Row → Z → outcome T) st :
  forEntries b body st = foldM (λ st '(p, c, n), body st p c n) st chs.
Proof using Hb.
  unfold forEntries. rewrite batch_Len_rep. osimpl.
  assert (Hgen : ∀ k st, (k ≤ length chs)%nat → foldM (λ st i, prevRow ← PreviousRow b i; currRow ← CurrentRow b i;
      receiver ← ReceiverIndex b i; body st prevRow currRow receiver) st (seq k (length chs - k)) =
      foldM (λ st '(p, c, n), body st p c n) st (drop k chs)); [|by specialize (Hgen 0%nat st ltac:(lia)); rewrite Nat.sub_0_r, drop_0 in Hgen].
  intros k. remember (length chs - k)%nat as n eqn:Hn. revert k Hn. induction n as [|n IH]; intros k Hn st' Hk; cbn [seq foldM].
  { by rewrite drop_ge by lia. }
  destruct (lookup_lt_is_Some_2 chs k) as [[[p c] m] Hch]; [lia|]. rewrite (drop_S _ _ _ Hch). cbn [foldM].
  destruct (batch_change_rep k p c m Hch) as (-> & -> & ->). osimpl. destruct (body st' p c m); osimpl; try done. apply IH; lia.
Qed.
End batches.

Lemma index_rep_app rws rws' i row : index_rep rws i row → index_rep (rws ++ rws') i row.
Proof. destruct row; [|done]. intros [Hi Hl]. split; [done|]. by apply lookup_app_l_Some. Qed.

Lemma entries_rep_app rws rws' es chs : Forall2 (entry_rep rws) es chs → Forall2 (entry_rep (rws ++ rws')) es chs.
Proof. intros H. eapply Forall2_impl; [exact H|]. intros e ch (?&?&?). split_and!; [by apply index_rep_app..|done]. Qed.

Definition shaped (cts : list ColumnType) (row : option Row) : Prop := ∀ x, row = Some x → length x = length cts.
Definition option_list {A} (o : option A) : list A := match o with Some x => [x] | None => [] end.

Lemma option_rows_rep rws (row : option Row) n :
  Z.of_nat (length rws) = n → index_rep (rws ++ option_list row) (match row with Some _ => n | None => -1 end) row.
Proof.
  intros <-. destruct row as [row|]; simpl; [|done]. split; [lia|]. rewrite Nat2Z.id, lookup_app_r, Nat.sub_diag by done. done.
Qed.

Lemma appendOptional_rep cts r rws row :
  cts ≠ [] → columnTypes r = cts → rows_rep r rws → shaped cts row →
  ∃ r' i, appendOptional r row = Ok (r', i) ∧ columnTypes r' = cts ∧ rows_rep r' (rws ++ option_list row) ∧
    index_rep (rws ++ option_list row) i row.
Proof.
  intros Hne Hc Hr Hs. destruct row as [row|]; simpl; [|exists r, (-1); by rewrite app_nil_r].
  destruct (AppendRow_rep r rws row Hr) as (r' & -> & Hc' & Hr'); [rewrite Hc; by apply Hs|]. osimpl.
  exists r', (rowCount r' - 1). rewrite (rep_rowCount _ _ Hr') by congruence. rewrite length_app. simpl.
  split_and!; [done|congruence|done|lia|]. replace (Z.to_nat _) with (length rws) by lia. by rewrite lookup_app_r, Nat.sub_diag by done.
Qed.

(** A batch under construction: it has entries, or it is empty. *)
Definition building (cts : list ColumnType) (b : RowsBatch) (chs : list change) : Prop :=
  batch_rep cts b chs ∧ (rb_entries b = None → chs = []).

Lemma AppendEntry_rep cts b chs p c n : building cts b chs → shaped cts p → shaped cts c →
  ∃ b', AppendEntry b p c n = Ok b' ∧ building cts b' (chs ++ [(p, c, n)]).
Proof.
  intros [(Hne & r & rws & Hr & Hc & Hrep & Hes) Hnil] Hp Hcu. unfold AppendEntry, batch_rows. rewrite Hr. osimpl.
  destruct (appendOptional_rep cts r rws p Hne Hc Hrep Hp) as (r1 & i & -> & Hc1 & Hr1 & Hi). osimpl.
  destruct (appendOptional_rep cts r1 _ c Hne Hc1 Hr1 Hcu) as (r2 & j & -> & Hc2 & Hr2 & Hj). osimpl.
  eexists. split; [done|]. split; [|done]. split; [done|]. exists r2, ((rws ++ option_list p) ++ option_list c). split_and!; [done..|]. simpl.
  apply Forall2_app; [|constructor; [|constructor]; split_and!; [by apply index_rep_app|done|done]].
  destruct (rb_entries b) as [es|]; simpl; [by do 2 apply entries_rep_app|]. rewrite Hnil by done. constructor.
Qed.

Lemma NewCurrentRowsBatch_building cts : cts ≠ [] → building cts (NewCurrentRowsBatch (NewRows cts)) [].
Proof. intros Hne. split; [|done]. split; [done|]. exists (NewRows cts), []. split_and!; [done|done|apply NewRows_rep|done]. Qed.

(** Rows and entries built together, as the executors that keep a row counter do. *)
Definition parts_rep (cts : list ColumnType) (r : Rows) (rc : Z) (es : list RowsEntry) (chs : list change) : Prop :=
  ∃ rws, columnTypes r = cts ∧ rows_rep r rws ∧ rc = Z.of_nat (length rws) ∧ Forall2 (entry_rep rws) es chs.

Lemma parts_batch_rep cts r rc es chs : cts ≠ [] → parts_rep cts r rc es chs → batch_rep cts (NewRowsBatch r es) chs.
Proof. intros Hne (rws & ? & ? & ? & ?). split; [done|]. by exists r, rws. Qed.

(** ** Changes of multisets *)

Lemma prevs_app a b : prevs (a ++ b) = prevs a ++ prevs b.
Proof. apply omap_app. Qed.
Lemma currs_app a b : currs (a ++ b) = currs a ++ currs b.
Proof. apply omap_app. Qed.

Lemma changed_nil M : changed M [] M.
Proof. unfold changed. simpl. done. Qed.

Lemma changed_perm M chs M' N N' : M ≡ₚ N → M' ≡ₚ N' → changed M chs M' → changed N chs N'.
Proof. unfold changed. by intros <- <-. Qed.

(** The contents after the changes are determined, as a multiset. *)
Lemma changed_unique M chs M1 M2 : changed M chs M1 → changed M chs M2 → M1 ≡ₚ M2.
Proof. unfold changed. intros H1 H2. rewrite <- H2 in H1. by apply Permutation_app_inv_r in H1. Qed.

Lemma changed_app M a M1 b M2 : changed M a M1 → changed M1 b M2 → changed M (a ++ b) M2.
Proof.
  unfold changed. rewrite prevs_app, currs_app. intros H1 H2.
  rewrite (Permutation_app_comm (prevs a)), (app_assoc M2), H2, (app_assoc M), <- H1, <- !app_assoc.
  by rewrite (Permutation_app_comm (currs b) (prevs a)).
Qed.
