(* ===== verification/PushExec.v ===== *)
(** * Stateless executors of the push engine

    src/push/exec/table_scan.go, select.go, projection.go and union_all.go. Each takes a batch of
    changes from its child and hands a batch to its parent. The theorems say that the
    output changes are to the executor's result what the input changes are to its input:
    a view that is kept up to date by applying the changes is the view of the new input.
    Expressions are those of [PullExec]. *)

From stdpp Require Import base list list_numbers strings gmap sorting.
From Stdlib Require Import ZArith Lia.
From S2P Require Import Prelude Encoding Timestamp Decimal Rows KeyEncoding Store WriteBatch Table PullExec RowsBatch.

(** ** Table scan *)

(** The columns a view takes from its table; [None] is all of them. *)
Record PushScan := MkPushScan {
  ps_colTypes : list ColumnType;
  ps_keyCols : list nat;
  ps_colsVisible : option (list bool);
  ps_cols : option (list nat)
}.

(** The schema of a scan: the key columns that are among the selected columns, and then
    the missing ones, added as hidden columns. *)
Definition addHiddenKeyCol (cols : list nat) (tableInfo : TableInfo) (st : list ColumnType * list nat * list nat) (pkCol : nat)
  : outcome (list ColumnType * list nat * list nat) :=
  let '(colTypes, keyCols, allCols) := st in
  if bool_decide (pkCol ∈ cols) then Ok st
  else
    colType ← index (ti_ColumnTypes tableInfo) pkCol;
    Ok (colTypes ++ [colType], keyCols ++ [length colTypes], allCols ++ [pkCol]).

Definition columnVisible (tableInfo : TableInfo) (col : nat) : outcome bool :=
  match ColsVisible tableInfo with None => Ok true | Some visible => index visible col end.

Definition SetSchema (cols : option (list nat)) (tableInfo : TableInfo) : outcome PushScan :=
  match cols with
  | None => Ok (MkPushScan (ti_ColumnTypes tableInfo) (PrimaryKeyCols tableInfo) (ColsVisible tableInfo) None)
  | Some cols =>
      colTypes ← mapM_o (index (ti_ColumnTypes tableInfo)) cols;
      visible ← mapM_o (columnVisible tableInfo) cols;
      let keyCols := omap (λ '(i, col), if bool_decide (col ∈ PrimaryKeyCols tableInfo) then Some i else None) (imap pair cols) in
      '(colTypes, keyCols, allCols) ← foldM (addHiddenKeyCol cols tableInfo) (colTypes, keyCols, cols) (PrimaryKeyCols tableInfo);
      Ok (MkPushScan colTypes keyCols (Some (visible ++ replicate (length allCols - length cols) false)) (Some allCols))
  end.

(** A cell read by the getter of its type. *)
Definition getCell (colType : ColumnType) (row : Row) (i : nat) : outcome (option value) :=
  null ← IsNull row i;
  if (null : bool) then Ok None
  else
    match Type' colType with
    | TypeTinyInt | TypeInt | TypeBigInt => v ← GetInt64 row i; Ok (Some (VInt v))
    | TypeDouble => v ← GetFloat64 row i; Ok (Some (VFloat v))
    | TypeVarchar => v ← GetString row i; Ok (Some (VString v))
    | TypeDecimal => v ← GetDecimal row i; Ok (Some (VDecimal v))
    | TypeTimestamp => v ← GetTimestamp row i; Ok (Some (VTimestamp v))
    | TypeUnknown => Err "unexpected column type"
    end.

Definition appendResultRow (t : PushScan) (cols : list nat) (row : Row) (outRows : Rows) : outcome Rows :=
  foldMi (λ i outRows incomingColIndex,
    colType ← index (ps_colTypes t) i;
    c ← getCell colType row incomingColIndex;
    appendToColumn outRows i c) 0 outRows cols.

(** ** Executors that turn every row into a row *)

(** An optional row: its index in the output, or -1, and the row counter. *)
Definition mapOptional (appendRow : Row → Rows → outcome Rows) (out : Rows) (rc : Z) (row : option Row) : outcome (Rows * Z * Z) :=
  match row with
  | None => Ok (out, rc, -1)
  | Some row => out ← appendRow row out; Ok (out, rc + 1, rc)
  end.

Definition mapEntry (appendRow : Row → Rows → outcome Rows) (st : Rows * Z * list RowsEntry) (prevRow currRow : option Row)
    (receiverIndex : Z) : outcome (Rows * Z * list RowsEntry) :=
  let '(out, rc, entries) := st in
  '(out, rc, pi) ← mapOptional appendRow out rc prevRow;
  '(out, rc, ci) ← mapOptional appendRow out rc currRow;
  Ok (out, rc, entries ++ [NewRowsEntry pi ci receiverIndex]).

Definition pushScan_HandleRows (t : PushScan) (parent : Handler) : Handler :=
  λ rowsBatch ctx,
    match ps_cols t with
    | Some cols =>
        '(newRows, _, entries) ← forEntries rowsBatch (mapEntry (appendResultRow t cols)) (NewRows (ps_colTypes t), 0, []);
        parent (NewRowsBatch newRows entries) ctx
    | None => parent rowsBatch ctx
    end.

(** ** Selection *)

(** Unlike in the pull engine, a predicate that is null is an error. *)
Fixpoint evalPredicates (predicates : list Expression) (row : Row) : outcome bool :=
  match predicates with
  | [] => Ok true
  | predicate :: predicates' =>
      accept ← EvalBoolean predicate row;
      match accept with
      | None => Err "null returned from evaluating select predicate"
      | Some false => Ok false
      | Some true => evalPredicates predicates' row
      end
  end.

Definition select_entry (predicates : list Expression) (resultBatch : RowsBatch) (prevRow currRow : option Row) (receiverIndex : Z)
  : outcome RowsBatch :=
  match currRow, prevRow with
  | Some curr, None =>
      ok ← evalPredicates predicates curr;
      if (ok : bool) then AppendEntry resultBatch None (Some curr) receiverIndex else Ok resultBatch
  | Some curr, Some prev =>
      okCurr ← evalPredicates predicates curr;
      okPrev ← evalPredicates predicates prev;
      if okCurr && okPrev then AppendEntry resultBatch (Some prev) (Some curr) receiverIndex
      else if negb okCurr && okPrev then AppendEntry resultBatch (Some prev) None receiverIndex
      else if okCurr && negb okPrev then AppendEntry resultBatch None (Some curr) receiverIndex
      else Ok resultBatch
  | None, Some prev =>
      ok ← evalPredicates predicates prev;
      if (ok : bool) then AppendEntry resultBatch (Some prev) None receiverIndex else Ok resultBatch
  | None, None => Ok resultBatch
  end.

Definition pushSelect_HandleRows (colTypes : list ColumnType) (predicates : list Expression) (parent : Handler) : Handler :=
  λ rowsBatch ctx,
    resultBatch ← forEntries rowsBatch (select_entry predicates) (NewCurrentRowsBatch (NewRows colTypes));
    n ← batch_Len resultBatch;
    if (0 <? n)%nat then parent resultBatch ctx else Ok ctx.

(** ** Projection *)

Record PushProjection := MkPushProjection {
  pp_colTypes : list ColumnType;
  pp_keyCols : list nat;
  pp_colsVisible : list bool;
  pp_projColumns : list Expression;
  pp_invisibleKeyColsInChild : list nat
}.

(** The position of a column of the child in the projection: the last expression that is
    that column. *)
Definition projectionOf (projColumns : list Expression) (col : nat) : option nat :=
  foldl (λ acc '(i, e), match kind e with ExprColumn c => if (c =? col)%nat then Some i else acc | _ => acc end) None (imap pair projColumns).

(** One key column of the child: a column of the projection, or a hidden one. *)
Definition addKeyCol (projColumns : list Expression) (childColTypes : list ColumnType)
    (st : list ColumnType * list nat * list bool * list nat) (childKeyCol : nat)
  : outcome (list ColumnType * list nat * list bool * list nat) :=
  let '(colTypes, keyCols, colsVisible, invisible) := st in
  match projectionOf projColumns childKeyCol with
  | Some projIndex => Ok (colTypes, keyCols ++ [projIndex], colsVisible, invisible)
  | None =>
      ct ← index childColTypes childKeyCol;
      Ok (colTypes ++ [ct], keyCols ++ [(length projColumns + length invisible)%nat], colsVisible ++ [false], invisible ++ [childKeyCol])
  end.

Definition NewPushProjection (projColumns : list Expression) (childColTypes : list ColumnType) (childKeyCols : list nat)
  : outcome PushProjection :=
  colTypes ← mapM_o (λ e, ReturnType e childColTypes) projColumns;
  '(colTypes, keyCols, colsVisible, invisible) ←
    foldM (addKeyCol projColumns childColTypes) (colTypes, [], replicate (length projColumns) true, []) childKeyCols;
  Ok (MkPushProjection colTypes keyCols colsVisible projColumns invisible).

(** A hidden key column; there is no case for timestamps. *)
Definition keyCell (colType : ColumnType) (row : Row) (colNumber : nat) : outcome (option value) :=
  match Type' colType with
  | TypeTinyInt | TypeInt | TypeBigInt => v ← GetInt64 row colNumber; Ok (Some (VInt v))
  | TypeDecimal => v ← GetDecimal row colNumber; Ok (Some (VDecimal v))
  | TypeVarchar => v ← GetString row colNumber; Ok (Some (VString v))
  | TypeDouble => v ← GetFloat64 row colNumber; Ok (Some (VFloat v))
  | TypeTimestamp | TypeUnknown => Err "unexpected column type"
  end.

Definition calcProjection (p : PushProjection) (row : Row) (result : Rows) : outcome Rows :=
  result ← project_row (pp_colTypes p) (pp_projColumns p) result row;
  foldMi (λ i result colNumber,
    colType ← index (pp_colTypes p) i;
    c ← keyCell colType row colNumber;
    appendToColumn result i c) (length (pp_projColumns p)) result (pp_invisibleKeyColsInChild p).

Definition pushProjection_HandleRows (p : PushProjection) (parent : Handler) : Handler :=
  λ rowsBatch ctx,
    '(result, _, entries) ← forEntries rowsBatch (mapEntry (calcProjection p)) (NewRows (pp_colTypes p), 0, []);
    parent (NewRowsBatch result entries) ctx.

(** ** Union *)

(** What an executor says about its rows. *)
Record RowSchema := MkRowSchema {
  rs_colTypes : list ColumnType;
  rs_keyCols : list nat;
  rs_colsVisible : option (list bool)
}.

Record UnionAll := MkUnionAll {
  ua_schema : RowSchema;
  ua_genIDColIndex : nat;
  ua_children : list RowSchema
}.
Abbreviation ua_colTypes u := (rs_colTypes (ua_schema u)).

(** The schema is that of the first child with a generated key column. Appending to the
    child's visible columns gives a list of one when the child has none. *)
Definition union_ReCalcSchema (children : list RowSchema) : outcome UnionAll :=
  child0 ← index children 0;
  let genIDColIndex := length (rs_colTypes child0) in
  Ok (MkUnionAll
        (MkRowSchema (rs_colTypes child0 ++ [VarcharColumnType]) [genIDColIndex] (Some (default [] (rs_colsVisible child0) ++ [false])))
        genIDColIndex children).

Definition generateID (u : UnionAll) (row : Row) (i : nat) : outcome bytes :=
  child ← index (ua_children u) i;
  let key := AppendUint32ToBufferLE [] (u32 (Z.of_nat i)) in
  EncodeKeyCols row (rs_keyCols child) (rs_colTypes child) key.

Definition copyCell (colType : ColumnType) (row : Row) (i : nat) : outcome (option value) :=
  null ← IsNull row i;
  if (null : bool) then Ok None
  else
    match Type' colType with
    | TypeTinyInt | TypeInt | TypeBigInt => v ← GetInt64 row i; Ok (Some (VInt v))
    | TypeDouble => v ← GetFloat64 row i; Ok (Some (VFloat v))
    | TypeVarchar => v ← GetString row i; Ok (Some (VString v))
    | TypeTimestamp => v ← GetTimestamp row i; Ok (Some (VTimestamp v))
    | TypeDecimal => v ← GetDecimal row i; Ok (Some (VDecimal v))
    | TypeUnknown => Panic "unexpected column type"
    end.

Definition union_appendRow (u : UnionAll) (i : nat) (inRow : Row) (out : Rows) : outcome Rows :=
  out ← foldMi (λ j out colType, c ← copyCell colType inRow j; appendToColumn out j c) 0 out (take (length (ua_colTypes u) - 1) (ua_colTypes u));
  id ← generateID u inRow i;
  AppendStringToColumn out (ua_genIDColIndex u) id.

Definition HandleRowsWithIndex (u : UnionAll) (i : nat) (parent : Handler) : Handler :=
  λ rowsBatch ctx,
    '(out, _, entries) ← forEntries rowsBatch (mapEntry (union_appendRow u i)) (NewRows (ua_colTypes u), 0, []);
    parent (NewRowsBatch out entries) ctx.

(** ** Building rows column by column *)

Fixpoint mapMi_o {A B} (f : nat → A → outcome B) (i : nat) (l : list A) : outcome (list B) :=
  match l with
  | [] => Ok []
  | x :: l' => y ← f i x; ys ← mapMi_o f (S i) l'; Ok (y :: ys)
  end.

Lemma length_mapMi_o {A B} (f : nat → A → outcome B) l : ∀ i ys, mapMi_o f i l = Ok ys → length ys = length l.
Proof.
  induction l as [|x l IH]; intros i ys; cbn [mapMi_o]; [by intros [= <-]|]. intros E.
  destruct (f i x); try done. osimpl in E. destruct (mapMi_o f (S i) l) eqn:E2; try done. osimpl in E. simplify_eq. simpl. by erewrite IH.
Qed.

Lemma build_cells {A} (g : nat → Rows → A → outcome Rows) (f : nat → A → outcome (option value)) l :
  (∀ i r x, g i r x = (c ← f i x; appendToColumn r i c)) → ∀ i r cells, mapMi_o f i l = Ok cells →
  foldMi g i r l = (cols ← foldMi (λ i cols c, appendCell cols i c) i (columns r) cells; Ok (MkRows (columnTypes r) cols (numVirtualRows r))).
Proof.
  intros Hg. induction l as [|x l IH]; intros i r cells Hc; cbn [mapMi_o] in Hc.
  - injection Hc as <-. osimpl. by destruct r.
  - destruct (f i x) as [c| | |] eqn:Ef; try done. osimpl in Hc. destruct (mapMi_o f (S i) l) as [cs| | |] eqn:E; try done. osimpl in Hc.
    injection Hc as <-. cbn [foldMi]. rewrite Hg, Ef. osimpl. unfold appendToColumn.
    destruct (appendCell (columns r) i c) as [cols| | |]; try done. osimpl. by rewrite (IH _ _ cs).
Qed.

Lemma foldMi_app {A T} (f : nat → T → A → outcome T) a b : ∀ i st,
  foldMi f i st (a ++ b) = (st' ← foldMi f i st a; foldMi f (i + length a) st' b).
Proof.
  induction a as [|x a IH]; intros i st; cbn [app foldMi length]; osimpl; [by rewrite Nat.add_0_r|].
  destruct (f i st x); osimpl; try done. rewrite IH. by replace (S i + length a)%nat with (i + S (length a))%nat by lia.
Qed.

(** [appendRow] appends the row [out] when it is given the row [row]. *)
Definition appends (appendRow : Row → Rows → outcome Rows) (cts : list ColumnType) (row out : Row) : Prop :=
  ∀ r acc, columnTypes r = cts → rows_rep r acc →
  ∃ r', appendRow row r = Ok r' ∧ columnTypes r' = cts ∧ rows_rep r' (acc ++ [out]).

Lemma appends_cells {A} (appendRow : Row → Rows → outcome Rows) cts row out (g : nat → Rows → A → outcome Rows) f l :
  (∀ r, appendRow row r = foldMi g 0 r l) → (∀ i r x, g i r x = (c ← f i x; appendToColumn r i c)) →
  mapMi_o f 0 l = Ok out → length l = length cts → appends appendRow cts row out.
Proof.
  intros Ha Hg Hf Hl r acc Hc Hr. pose proof (length_mapMi_o _ _ _ _ Hf) as Hlo.
  destruct (rep_append_cells r acc out Hr) as (cols & Hcols & Hrep); [congruence|].
  exists (MkRows (columnTypes r) cols (numVirtualRows r)). split_and!; [|done|by apply Hrep].
  rewrite Ha, (build_cells g f l Hg 0 r out Hf). by rewrite Hcols.
Qed.

(** ** Changes of rows that are turned into rows *)

Definition maps_change (R : Row → Row → Prop) (ch ch' : change) : Prop :=
  option_Forall2 R ch.1.1 ch'.1.1 ∧ option_Forall2 R ch.1.2 ch'.1.2 ∧ ch.2 = ch'.2.

Definition map_change (f : Row → Row) (ch : change) : change := (f <$> ch.1.1, f <$> ch.1.2, ch.2).

Lemma mapOptional_ok appendRow cts r rws rc row out :
  columnTypes r = cts → rows_rep r rws → rc = Z.of_nat (length rws) → option_Forall2 (appends appendRow cts) row out →
  ∃ r' i, mapOptional appendRow r rc row = Ok (r', rc + Z.of_nat (length (option_list out)), i) ∧ columnTypes r' = cts ∧
    rows_rep r' (rws ++ option_list out) ∧ index_rep (rws ++ option_list out) i out.
Proof.
  intros Hc Hr -> Hrow. destruct Hrow as [row out Ha|]; simpl.
  - destruct (Ha r rws Hc Hr) as (r' & -> & Hc' & Hr'). osimpl. do 2 eexists. split_and!; [done|done|done|lia|].
    by rewrite Nat2Z.id, lookup_app_r, Nat.sub_diag by done.
  - exists r, (-1). by rewrite app_nil_r, Z.add_0_r.
Qed.

Lemma mapEntry_ok appendRow cts r rc es chs p c n p' c' :
  parts_rep cts r rc es chs → option_Forall2 (appends appendRow cts) p p' → option_Forall2 (appends appendRow cts) c c' →
  ∃ r' rc' es', mapEntry appendRow (r, rc, es) p c n = Ok (r', rc', es') ∧ parts_rep cts r' rc' es' (chs ++ [(p', c', n)]).
Proof.
  intros (rws & Hc & Hr & Hrc & Hes) Hp Hcu. unfold mapEntry.
  destruct (mapOptional_ok appendRow cts r rws rc p p' Hc Hr Hrc Hp) as (r1 & i & -> & Hc1 & Hr1 & Hi). osimpl.
  destruct (mapOptional_ok appendRow cts r1 _ (rc + Z.of_nat (length (option_list p'))) c c' Hc1 Hr1) as (r2 & j & -> & Hc2 & Hr2 & Hj);
    [rewrite length_app; lia|done|]. osimpl. do 3 eexists. split; [done|]. exists ((rws ++ option_list p') ++ option_list c').
  split_and!; [done|done|rewrite !length_app; lia|]. apply Forall2_app; [by do 2 apply entries_rep_app|].
  constructor; [|constructor]. split_and!; [by apply index_rep_app|done|done].
Qed.

Lemma mapEntries_ok appendRow cts cts' b chs chs' :
  batch_rep cts b chs → cts' ≠ [] → Forall2 (maps_change (appends appendRow cts')) chs chs' →
  ∃ out rc es, forEntries b (mapEntry appendRow) (NewRows cts', 0, []) = Ok (out, rc, es) ∧ batch_rep cts' (NewRowsBatch out es) chs'.
Proof.
  intros Hb Hne Hall. rewrite (forEntries_eq _ _ _ Hb).
  assert (Hgen : ∀ r rc es done_, parts_rep cts' r rc es done_ → ∃ out rc' es',
    foldM (λ st '(p, c, n), mapEntry appendRow st p c n) (r, rc, es) chs = Ok (out, rc', es') ∧ parts_rep cts' out rc' es' (done_ ++ chs')).
  { clear Hb. induction Hall as [|[[p c] n] [[p' c'] n'] chs chs' (Hp & Hc & Hn) _ IH]; intros r rc es done_ Hparts; cbn [foldM].
    { exists r, rc, es. by rewrite app_nil_r. }
    simpl in Hp, Hc, Hn. subst n'. destruct (mapEntry_ok appendRow cts' r rc es done_ p c n p' c' Hparts Hp Hc) as (r1 & rc1 & es1 & -> & Hp1). osimpl.
    destruct (IH r1 rc1 es1 _ Hp1) as (out & rc2 & es2 & -> & Hp2). exists out, rc2, es2. by rewrite <- app_assoc in Hp2. }
  destruct (Hgen (NewRows cts') 0 [] []) as (out & rc & es & -> & Hp).
  { exists []. split_and!; [done|apply NewRows_rep|done|constructor]. }
  exists out, rc, es. split; [done|]. by eapply parts_batch_rep.
Qed.

Lemma prevs_map f chs : prevs (map (map_change f) chs) = map f (prevs chs).
Proof. induction chs as [|[[[p|] c] n] chs IH]; simpl; [done|..]; by rewrite IH. Qed.
Lemma currs_map f chs : currs (map (map_change f) chs) = map f (currs chs).
Proof. induction chs as [|[[p [c|]] n] chs IH]; simpl; [done|..]; by rewrite IH. Qed.

(** A view that maps rows is maintained by mapping the changes. *)
Lemma changed_map f M chs M' : changed M chs M' → changed (map f M) (map (map_change f) chs) (map f M').
Proof. unfold changed. intros Hc. rewrite prevs_map, currs_map, <- !map_app. by apply Permutation_map. Qed.

(** ** Changes that are filtered *)

Definition passes (predicates : list Expression) (row : Row) : bool :=
  match evalPredicates predicates row with Ok b => b | _ => false end.

(** Every predicate that is evaluated on the row has a value. *)
Definition decided (predicates : list Expression) (row : Row) : Prop := is_ok (evalPredicates predicates row) = true.

Definition keep (P : Row → bool) (row : option Row) : option Row :=
  match row with Some x => if P x then Some x else None | None => None end.

(** A change seen through a filter. *)
Definition select_change (P : Row → bool) (ch : change) : option change :=
  match keep P ch.1.1, keep P ch.1.2 with
  | None, None => None
  | p, c => Some (p, c, ch.2)
  end.

Definition change_ok (Q : Row → Prop) (ch : change) : Prop := (∀ x, ch.1.1 = Some x → Q x) ∧ (∀ x, ch.1.2 = Some x → Q x).

Lemma changes_ok_impl (P Q : Row → Prop) chs : (∀ x, P x → Q x) → Forall (change_ok P) chs → Forall (change_ok Q) chs.
Proof. intros H Hall. eapply Forall_impl; [exact Hall|]. intros ch [H1 H2]. split; auto. Qed.

Lemma batch_rep_shaped cts b chs : batch_rep cts b chs → Forall (change_ok (λ row, length row = length cts)) chs.
Proof.
  intros (_ & r & rws & _ & Hc & Hr & Hes). pose proof (rep_shape _ _ _ Hr Hc) as Hs.
  assert (Hi : ∀ i row, index_rep rws i row → ∀ x, row = Some x → length x = length cts).
  { intros i row Hi x ->. destruct Hi as [_ Hl]. by apply (Forall_lookup_1 _ _ _ _ Hs Hl). }
  destruct (rb_entries b) as [es|].
  - induction Hes as [|e ch es chs (Hp & Hcu & _) _ IH]; constructor; [|done]. split; by eapply Hi.
  - subst chs. apply Forall_map. eapply Forall_impl; [exact Hs|]. intros row Hl. split; [done|]. by intros x [= <-].
Qed.

Lemma keep_shaped Q P row : (∀ x, row = Some x → Q x) → ∀ x, keep P row = Some x → Q x.
Proof. intros H x. destruct row as [y|]; simpl; [|done]. destruct (P y); [|done]. intros [= <-]. by apply H. Qed.

Lemma select_entry_ok cts predicates b acc p c n :
  building cts b acc → change_ok (λ row, length row = length cts) (p, c, n) → change_ok (decided predicates) (p, c, n) →
  ∃ b', select_entry predicates b p c n = Ok b' ∧
    building cts b' (acc ++ option_list (select_change (passes predicates) (p, c, n))).
Proof.
  intros Hb [Hp Hc] [Dp Dc]. simpl in *.
  assert (Hadd : ∀ p c, shaped cts p → shaped cts c → ∃ b', AppendEntry b p c n = Ok b' ∧ building cts b' (acc ++ [(p, c, n)]))
    by (intros; by apply AppendEntry_rep).
  assert (Hsame : ∃ b', Ok b = Ok b' ∧ building cts b' (acc ++ [])) by (exists b; by rewrite app_nil_r).
  assert (Hval : ∀ row, decided predicates row → evalPredicates predicates row = Ok (passes predicates row)).
  { intros row. unfold decided, passes. by destruct (evalPredicates predicates row). }
  unfold select_change. simpl. destruct c as [c|], p as [p|]; simpl; rewrite ?(Hval c), ?(Hval p) by auto; osimpl;
    rewrite ?(Hval p) by auto; osimpl; try destruct (passes predicates c); try destruct (passes predicates p); simpl; auto;
    apply Hadd; done.
Qed.

Lemma select_entries_ok cts predicates chs : ∀ b acc, building cts b acc →
  Forall (change_ok (λ row, length row = length cts)) chs → Forall (change_ok (decided predicates)) chs →
  ∃ b', foldM (λ st '(p, c, n), select_entry predicates st p c n) b chs = Ok b' ∧
    building cts b' (acc ++ omap (select_change (passes predicates)) chs).
Proof.
  induction chs as [|[[p c] n] chs IH]; intros b acc Hb Hs Hd; cbn [foldM].
  { exists b. by rewrite app_nil_r. }
  apply Forall_cons in Hs as [Hs1 Hs]. apply Forall_cons in Hd as [Hd1 Hd].
  destruct (select_entry_ok cts predicates b acc p c n Hb Hs1 Hd1) as (b1 & -> & Hb1). osimpl.
  destruct (IH b1 _ Hb1 Hs Hd) as (b2 & -> & Hb2). exists b2. split; [done|]. rewrite <- app_assoc in Hb2.
  simpl. by destruct (select_change (passes predicates) (p, c, n)).
Qed.

(** The selection hands the selected changes to its parent, if there are any. *)
Lemma pushSelect_ok cts predicates parent b chs ctx :
  batch_rep cts b chs → Forall (change_ok (decided predicates)) chs →
  ∃ b', batch_rep cts b' (omap (select_change (passes predicates)) chs) ∧
    pushSelect_HandleRows cts predicates parent b ctx =
      if decide (omap (select_change (passes predicates)) chs = []) then Ok ctx else parent b' ctx.
Proof.
  intros Hb Hd. pose proof (batch_rep_shaped _ _ _ Hb) as Hs. destruct Hb as [Hne Hrest] eqn:E. unfold pushSelect_HandleRows.
  rewrite (forEntries_eq _ _ _ Hb).
  destruct (select_entries_ok cts predicates chs _ [] (NewCurrentRowsBatch_building cts Hne) Hs Hd) as (b' & -> & Hb'). osimpl.
  destruct Hb' as [Hb' _]. exists b'. split; [done|]. rewrite (batch_Len_rep _ _ _ Hb'). osimpl. simpl app.
  by destruct (omap (select_change (passes predicates)) chs).
Qed.

Lemma prevs_select P chs : prevs (omap (select_change P) chs) = filter (λ row, P row = true) (prevs chs).
Proof.
  induction chs as [|[[p c] n] chs IH]; simpl; [done|]. unfold select_change at 1. simpl.
  destruct p as [p|], c as [c|]; simpl; rewrite ?filter_cons; try (destruct (P p)); try (destruct (P c)); simpl; rewrite ?IH; try done;
    by first [f_equal; exact IH|exact IH].
Qed.
Lemma currs_select P chs : currs (omap (select_change P) chs) = filter (λ row, P row = true) (currs chs).
Proof.
  induction chs as [|[[p c] n] chs IH]; simpl; [done|]. unfold select_change at 1. simpl.
  destruct p as [p|], c as [c|]; simpl; rewrite ?filter_cons; try (destruct (P p)); try (destruct (P c)); simpl; rewrite ?IH; try done;
    by first [f_equal; exact IH|exact IH].
Qed.

(** A filtered view is maintained by the filtered changes. *)
Lemma changed_select P M chs M' : changed M chs M' →
  changed (filter (λ row, P row = true) M) (omap (select_change P) chs) (filter (λ row, P row = true) M').
Proof. unfold changed. intros Hc. rewrite prevs_select, currs_select, <- !filter_app. by rewrite Hc. Qed.

(** ** The rows of each executor *)

Definition cell_typed (ct : ColumnType) (c : option value) : Prop :=
  match c with
  | None => True
  | Some v =>
      match Type' ct, v with
      | (TypeTinyInt | TypeInt | TypeBigInt), VInt _ | TypeDouble, VFloat _ | TypeDecimal, VDecimal _
      | TypeVarchar, VString _ | TypeTimestamp, VTimestamp _ => True
      | _, _ => False
      end
  end.

Ltac get_cell Hi := unfold IsNull, GetInt64, GetFloat64, GetDecimal, GetString, GetTimestamp; rewrite ?(index_ok _ _ _ Hi); osimpl.

Lemma getCell_ok ct row i c : row !! i = Some c → cell_typed ct c → getCell ct row i = Ok c.
Proof.
  intros Hi Ht. unfold getCell. get_cell Hi. destruct c as [v|]; [|done]. simpl in Ht.
  destruct (Type' ct), v; try done; get_cell Hi; done.
Qed.
Lemma copyCell_ok ct row i c : row !! i = Some c → cell_typed ct c → copyCell ct row i = Ok c.
Proof.
  intros Hi Ht. unfold copyCell. get_cell Hi. destruct c as [v|]; [|done]. simpl in Ht.
  destruct (Type' ct), v; try done; get_cell Hi; done.
Qed.
Lemma keyCell_ok ct row i v : row !! i = Some (Some v) → cell_typed ct (Some v) → Type' ct ≠ TypeTimestamp → keyCell ct row i = Ok (Some v).
Proof.
  intros Hi Ht Hts. unfold keyCell. simpl in Ht. destruct (Type' ct), v; try done; get_cell Hi; done.
Qed.

(** The columns of a scan. *)
Definition scan_row (t : PushScan) (row : Row) : Row :=
  match ps_cols t with Some cols => map (λ i, default None (row !! i)) cols | None => row end.

Definition scan_ok (t : PushScan) (row : Row) : Prop :=
  match ps_cols t with
  | Some cols => Forall2 (λ col ct, ∃ c, row !! col = Some c ∧ cell_typed ct c) cols (ps_colTypes t)
  | None => True
  end.

Lemma scan_appends t cols row : ps_cols t = Some cols → scan_ok t row → appends (appendResultRow t cols) (ps_colTypes t) row (scan_row t row).
Proof.
  unfold scan_ok, scan_row. intros ->. intros Hok. eapply (appends_cells _ _ _ _ _ (λ i col, ct ← index (ps_colTypes t) i; getCell ct row col) cols);
    [intros r; reflexivity|intros i r x; cbv beta; destruct (index (ps_colTypes t) i); reflexivity| |by eapply Forall2_length].
  replace (ps_colTypes t) with ([] ++ ps_colTypes t) in |- * by done. change 0%nat with (length (@nil ColumnType)).
  generalize (@nil ColumnType) as pre. induction Hok as [|col ct cols cts (c & Hc & Ht) _ IH]; intros pre; cbn [mapMi_o map]; [done|].
  rewrite index_app_mid by done. osimpl. rewrite (getCell_ok _ _ _ _ Hc Ht). osimpl.
  specialize (IH (pre ++ [ct])). rewrite length_app, <- app_assoc, Nat.add_1_r in IH. simpl in IH. rewrite IH. osimpl. by rewrite Hc.
Qed.

(** The row of a projection: the expressions, then the hidden key columns. *)
Definition push_projected (p : PushProjection) (row : Row) : outcome Row :=
  cells ← mapMi_o (λ i e, ct ← index (pp_colTypes p) i; evalColumn e ct row) 0 (pp_projColumns p);
  keys ← mapMi_o (λ i col, ct ← index (pp_colTypes p) i; keyCell ct row col) (length (pp_projColumns p)) (pp_invisibleKeyColsInChild p);
  Ok (cells ++ keys).

Definition projection_shaped (p : PushProjection) : Prop :=
  length (pp_colTypes p) = (length (pp_projColumns p) + length (pp_invisibleKeyColsInChild p))%nat.

Lemma projection_appends p row out : projection_shaped p → push_projected p row = Ok out → appends (calcProjection p) (pp_colTypes p) row out.
Proof.
  intros Hsh Hp r acc Hc Hr. unfold push_projected in Hp.
  destruct (mapMi_o _ 0 (pp_projColumns p)) as [cells| | |] eqn:E1; try done. osimpl in Hp.
  destruct (mapMi_o _ (length (pp_projColumns p)) _) as [keys| | |] eqn:E2; try done. osimpl in Hp. injection Hp as <-.
  pose proof (length_mapMi_o _ _ _ _ E1) as L1. pose proof (length_mapMi_o _ _ _ _ E2) as L2.
  destruct (rep_append_cells r acc (cells ++ keys) Hr) as (cols & Hcols & Hrep); [rewrite length_app; unfold projection_shaped in Hsh; congruence|].
  rewrite foldMi_app in Hcols. simpl in Hcols. destruct (foldMi _ 0 (columns r) cells) as [cols1| | |] eqn:F1; try done. osimpl in Hcols.
  exists (MkRows (columnTypes r) cols (numVirtualRows r)). split_and!; [|done|by apply Hrep]. unfold calcProjection, project_row.
  erewrite (build_cells _ (λ i e, ct ← index (pp_colTypes p) i; evalColumn e ct row)); [|intros i r' x; cbv beta; destruct (index (pp_colTypes p) i); reflexivity|done].
  rewrite F1. osimpl. erewrite (build_cells _ (λ i col, ct ← index (pp_colTypes p) i; keyCell ct row col));
    [|intros i r' x; cbv beta; destruct (index (pp_colTypes p) i); reflexivity|done].
  cbn [columns columnTypes numVirtualRows]. rewrite <- L1. by rewrite Hcols.
Qed.

(** The row of a union: the input's columns and the generated key. *)
Definition union_row (u : UnionAll) (i : nat) (row : Row) : outcome Row :=
  cells ← mapMi_o (λ j ct, copyCell ct row j) 0 (take (length (ua_colTypes u) - 1) (ua_colTypes u));
  id ← generateID u row i;
  Ok (cells ++ [Some (VString id)]).

Lemma union_appends u i row out :
  ua_genIDColIndex u = (length (ua_colTypes u) - 1)%nat → ua_colTypes u ≠ [] → union_row u i row = Ok out →
  appends (union_appendRow u i) (ua_colTypes u) row out.
Proof.
  intros Hg Hne Hp r acc Hc Hr. unfold union_row in Hp.
  assert (Hlen : (0 < length (ua_colTypes u))%nat) by (destruct (ua_colTypes u); [done|simpl; lia]).
  destruct (mapMi_o _ 0 _) as [cells| | |] eqn:E1; try done. osimpl in Hp.
  destruct (generateID u row i) as [id| | |] eqn:E2; try done. osimpl in Hp. injection Hp as <-.
  pose proof (length_mapMi_o _ _ _ _ E1) as L1. rewrite length_take, Nat.min_l in L1 by lia.
  destruct (rep_append_cells r acc (cells ++ [Some (VString id)]) Hr) as (cols & Hcols & Hrep).
  { rewrite length_app, Hc. cbn [length]. lia. }
  rewrite foldMi_app in Hcols. simpl in Hcols. destruct (foldMi _ 0 (columns r) cells) as [cols1| | |] eqn:F1; try done. osimpl in Hcols.
  exists (MkRows (columnTypes r) cols (numVirtualRows r)). split_and!; [|done|by apply Hrep]. unfold union_appendRow.
  erewrite (build_cells _ (λ j ct, copyCell ct row j)); [|done|done]. rewrite F1. osimpl. rewrite E2. osimpl.
  unfold AppendStringToColumn, appendToColumn. cbn [columns columnTypes numVirtualRows]. rewrite Hg, <- L1.
  destruct (appendCell cols1 (length cells) _); try done. osimpl in Hcols. osimpl. congruence.
Qed.

(** ** Executors and their parents *)

Lemma map_changes_Forall2 R f (chs : list change) : Forall (change_ok (λ row, R row (f row))) chs →
  Forall2 (maps_change R) chs (map (map_change f) chs).
Proof.
  intros Hall. induction Hall as [|[[p c] n] chs [Hp Hc] _ IH]; simpl; constructor; [|done].
  split_and!; [destruct p|destruct c|done]; constructor; auto.
Qed.

Lemma pushScan_ok cts t parent b chs ctx :
  batch_rep cts b chs → (ps_cols t = None → cts = ps_colTypes t) → ps_colTypes t ≠ [] → Forall (change_ok (scan_ok t)) chs →
  ∃ b', batch_rep (ps_colTypes t) b' (map (map_change (scan_row t)) chs) ∧ pushScan_HandleRows t parent b ctx = parent b' ctx.
Proof.
  intros Hb Hnone Hne Hok. unfold pushScan_HandleRows. destruct (ps_cols t) as [cols|] eqn:Ec.
  - destruct (mapEntries_ok (appendResultRow t cols) cts (ps_colTypes t) b chs (map (map_change (scan_row t)) chs) Hb Hne)
      as (out & rc & es & -> & Hb').
    + apply map_changes_Forall2. eapply changes_ok_impl; [|exact Hok]. intros x Hx. by apply scan_appends.
    + osimpl. by exists (NewRowsBatch out es).
  - rewrite <- Hnone by done. exists b. split; [|done]. replace (map (map_change (scan_row t)) chs) with chs; [done|].
    rewrite <- (map_id chs) at 1. apply map_ext. intros [[[p|] [c|]] n]; unfold map_change, scan_row; rewrite Ec; done.
Qed.

Definition proj_row (p : PushProjection) (row : Row) : Row := match push_projected p row with Ok out => out | _ => [] end.
Definition proj_ok (p : PushProjection) (row : Row) : Prop := is_ok (push_projected p row) = true.

Lemma pushProjection_ok cts p parent b chs ctx :
  batch_rep cts b chs → projection_shaped p → pp_colTypes p ≠ [] → Forall (change_ok (proj_ok p)) chs →
  ∃ b', batch_rep (pp_colTypes p) b' (map (map_change (proj_row p)) chs) ∧ pushProjection_HandleRows p parent b ctx = parent b' ctx.
Proof.
  intros Hb Hsh Hne Hok. unfold pushProjection_HandleRows.
  destruct (mapEntries_ok (calcProjection p) cts (pp_colTypes p) b chs (map (map_change (proj_row p)) chs) Hb Hne)
    as (out & rc & es & -> & Hb').
  - apply map_changes_Forall2.
    assert (Hrow : ∀ x, proj_ok p x → appends (calcProjection p) (pp_colTypes p) x (proj_row p x)).
    { intros x Hx. apply projection_appends; [done|]. unfold proj_ok, proj_row in *. by destruct (push_projected p x). }
    by eapply changes_ok_impl; [|exact Hok].
  - osimpl. by exists (NewRowsBatch out es).
Qed.

(** ** A view: some columns of a table, the rows that pass, projected *)

Definition view (t : PushScan) (predicates : list Expression) (p : PushProjection) (M : list Row) : list Row :=
  map (proj_row p) (filter (λ row, passes predicates row = true) (map (scan_row t) M)).

Definition view_changes (t : PushScan) (predicates : list Expression) (p : PushProjection) (chs : list change) : list change :=
  map (map_change (proj_row p)) (omap (select_change (passes predicates)) (map (map_change (scan_row t)) chs)).

(** The scan, the predicates and, for a row that passes, the projection succeed. *)
Definition view_ok (t : PushScan) (predicates : list Expression) (p : PushProjection) (row : Row) : Prop :=
  scan_ok t row ∧ decided predicates (scan_row t row) ∧ (passes predicates (scan_row t row) = true → proj_ok p (scan_row t row)).

Definition view_HandleRows (t : PushScan) (predicates : list Expression) (p : PushProjection) (parent : Handler) : Handler :=
  pushScan_HandleRows t (pushSelect_HandleRows (ps_colTypes t) predicates (pushProjection_HandleRows p parent)).

Definition view_shaped (cts : list ColumnType) (t : PushScan) (p : PushProjection) : Prop :=
  (ps_cols t = None → cts = ps_colTypes t) ∧ ps_colTypes t ≠ [] ∧ projection_shaped p ∧ pp_colTypes p ≠ [].

Lemma changed_view t predicates p M chs M' :
  changed M chs M' → changed (view t predicates p M) (view_changes t predicates p chs) (view t predicates p M').
Proof. intros Hc. by apply changed_map, changed_select, changed_map. Qed.

Lemma select_changes_ok (Q : Row → Prop) P (chs : list change) :
  Forall (change_ok (λ row, P row = true → Q row)) chs → Forall (change_ok Q) (omap (select_change P) chs).
Proof.
  intros Hall. induction Hall as [|[[p c] n] chs [Hp Hc] _ IH]; simpl; [constructor|]. unfold select_change at 1. simpl.
  assert (Hk : ∀ o : option Row, (∀ x, o = Some x → P x = true → Q x) → ∀ x, keep P o = Some x → Q x).
  { intros [y|] Hy x; simpl; [|done]. destruct (P y) eqn:E; [|done]. intros [= <-]. by apply Hy. }
  destruct (keep P p) eqn:Ep, (keep P c) eqn:Ec; try constructor; try done; split; simpl; intros x [= <-]; eauto.
Qed.

Lemma view_HandleRows_ok cts t predicates p parent b ctx chs :
  batch_rep cts b chs → view_shaped cts t p → Forall (change_ok (view_ok t predicates p)) chs →
  ∃ b', batch_rep (pp_colTypes p) b' (view_changes t predicates p chs) ∧
    view_HandleRows t predicates p parent b ctx = if decide (view_changes t predicates p chs = []) then Ok ctx else parent b' ctx.
Proof.
  intros Hb (Hnone & Hne & Hsh & Hnep) Hok. unfold view_HandleRows.
  destruct (pushScan_ok cts t (pushSelect_HandleRows (ps_colTypes t) predicates (pushProjection_HandleRows p parent)) b chs ctx Hb Hnone Hne)
    as (b1 & Hb1 & ->); [by eapply changes_ok_impl; [|exact Hok]; intros x [? _]|].
  assert (Hscan : Forall (change_ok (λ row, decided predicates row ∧ (passes predicates row = true → proj_ok p row))) (map (map_change (scan_row t)) chs)).
  { apply Forall_map. eapply Forall_impl; [exact Hok|]. intros [[q c] n] [H1 H2]. simpl in *.
    split; simpl; intros x Hx; [destruct q; simplify_eq/=; by apply H1|destruct c; simplify_eq/=; by apply H2]. }
  destruct (pushSelect_ok (ps_colTypes t) predicates (pushProjection_HandleRows p parent) b1 _ ctx Hb1) as (b2 & Hb2 & ->).
  { by eapply changes_ok_impl; [|exact Hscan]; intros x [? _]. }
  destruct (pushProjection_ok (ps_colTypes t) p parent b2 _ ctx Hb2 Hsh Hnep) as (b3 & Hb3 & ->).
  { apply select_changes_ok. by eapply changes_ok_impl; [|exact Hscan]; intros x [_ ?]. }
  exists b3. split; [done|]. unfold view_changes. destruct (omap _ _); [by rewrite !decide_True|by rewrite !decide_False].
Qed.
