(* ===== verification/TableExec.v ===== *)
(** * Tables and indexes kept by the push engine

    src/push/exec/table_exec.go and index_exec.go, and the capture of changes during a fill
    (src/push/exec/fill.go). A table executor writes the changed rows of a batch to its
    table and hands the changes, with the stored rows as the rows before, to its consumers.
    [table_is] relates the store to the rows of a table by key. *)

From stdpp Require Import base list list_numbers strings gmap sorting.
From Stdlib Require Import ZArith Lia.
From S2P Require Import Prelude Encoding Timestamp Decimal Rows KeyEncoding RowEncoding Store WriteBatch Table LocalStore PullExec PullScan RowsBatch PushExec.

Record TableExecutor := MkTableExecutor {
  te_TableInfo : TableInfo;
  te_filling : bool;
  te_fillTableID : Z;
  te_transient : bool;
  te_storeTombstones : bool
}.

(** The stored row, appended to the output as the row before. *)
Definition appendStored (colTypes : list ColumnType) (v : option bytes) (outRows : Rows) (rc : Z) : outcome (Rows * Z * Z) :=
  match v with
  | Some v => outRows ← DecodeRow v colTypes outRows; Ok (outRows, rc + 1, rc)
  | None => Ok (outRows, rc, -1)
  end.

(** The output for a row that is written, when the consumers need the row before. *)
Definition recordUpsert (t : TableExecutor) (ctx : ExecutionContext) (keyBuff : bytes) (currentRow : Row) (receiver : Z)
    (st : Rows * Z * list RowsEntry) : outcome (Rows * Z * list RowsEntry) :=
  let '(outRows, rc, entries) := st in
  v ← ctx_RowCache ctx keyBuff;
  '(outRows, rc, pi) ← appendStored (ti_ColumnTypes (te_TableInfo t)) v outRows rc;
  outRows ← AppendRow outRows currentRow;
  Ok (outRows, rc + 1, entries ++ [MkRowsEntry pi rc receiver]).

Definition recordDelete (prevRow : Row) (receiver : Z) (st : Rows * Z * list RowsEntry) : outcome (Rows * Z * list RowsEntry) :=
  let '(outRows, rc, entries) := st in
  outRows ← AppendRow outRows prevRow;
  Ok (outRows, rc + 1, entries ++ [MkRowsEntry rc (-1) receiver]).

(** One entry of a batch: the output, when it is required, and the writes. *)
Definition table_entry (t : TableExecutor) (ctx : ExecutionContext) (st : option (Rows * Z * list RowsEntry) * WriteBatch)
    (prevRow currentRow : option Row) (receiver : Z) : outcome (option (Rows * Z * list RowsEntry) * WriteBatch) :=
  let '(out, wb) := st in
  let ti := te_TableInfo t in
  match currentRow, prevRow with
  | Some currentRow, _ =>
      keyBuff ← encodeKeyFromRow ti currentRow (wb_ShardID wb);
      out ← match out with Some o => o ← recordUpsert t ctx keyBuff currentRow receiver o; Ok (Some o) | None => Ok None end;
      valueBuff ← EncodeRow currentRow (ti_ColumnTypes ti) [];
      Ok (out, AddPut wb keyBuff valueBuff)
  | None, Some prevRow =>
      keyBuff ← encodeKeyFromRow ti prevRow (wb_ShardID wb);
      out ← match out with Some o => o ← recordDelete prevRow receiver o; Ok (Some o) | None => Ok None end;
      Ok (out, if te_storeTombstones t then AddPut wb keyBuff [] else AddDelete wb keyBuff)
  | None, None => Panic "nil pointer dereference"
  end.

(** The changes of a batch, written to the fill table under consecutive sequences. *)
Definition capture_entry (fillTableID : Z) (colTypes : list ColumnType) (shardID : Z) (st : WriteBatch * Z) (row : option Row)
  : outcome (WriteBatch * Z) :=
  let '(wb, nextSeq) := st in
  let key := KeyEncodeInt64 (EncodeTableKeyPrefix fillTableID shardID) nextSeq in
  value ← match row with Some row => EncodeRow row colTypes [] | None => Panic "nil pointer dereference" end;
  Ok (AddPut wb key value, i64 (nextSeq + 1)).

Definition captureChanges (fillTableID : Z) (colTypes : list ColumnType) (rowsBatch : RowsBatch) (ctx : ExecutionContext)
  : outcome ExecutionContext :=
  let shardID := wb_ShardID (ctx_WriteBatch ctx) in
  let nextSeq := match ctx_LastSequences ctx !! (fillTableID, shardID) with None => 0 | Some ls => i64 (ls + 1) end in
  '(wb, nextSeq) ← forEntries rowsBatch (λ st _ row _, capture_entry fillTableID colTypes shardID st row) (NewWriteBatch shardID, nextSeq);
  Ok (MkExecutionContext (ctx_WriteBatch ctx) (ctx_RemoteBatches ctx) (ctx_FillTableID ctx) (ctx_RowCache ctx)
        (ctx_LocalWrites ctx ++ [wb]) (<[(fillTableID, shardID) := i64 (nextSeq - 1)]> (ctx_LastSequences ctx))).

(** The consumers in the order in which the map gives them. *)
Definition ForwardToConsumingNodes (consumingNodes : list Handler) : Handler :=
  λ rowsBatch ctx, foldM (λ ctx (consumingNode : Handler), consumingNode rowsBatch ctx) ctx consumingNodes.

Definition handleForwardAndCapture (t : TableExecutor) (consumingNodes : list Handler) : Handler :=
  λ rowsBatch ctx,
    ctx ← ForwardToConsumingNodes consumingNodes rowsBatch ctx;
    if te_filling t then
      n ← batch_Len rowsBatch;
      if (n =? 0)%nat then Ok ctx else captureChanges (te_fillTableID t) (ti_ColumnTypes (te_TableInfo t)) rowsBatch ctx
    else Ok ctx.

Definition table_HandleRows (t : TableExecutor) (consumingNodes : list Handler) : Handler :=
  λ rowsBatch ctx,
    if te_transient t then ForwardToConsumingNodes consumingNodes rowsBatch ctx
    else
      let requiresPreviousRow := negb (length consumingNodes =? 0)%nat || te_filling t in
      let out := if requiresPreviousRow then Some (NewRows (ti_ColumnTypes (te_TableInfo t)), 0, []) else None in
      '(out, wb) ← forEntries rowsBatch (table_entry t ctx) (out, ctx_WriteBatch ctx);
      let outBatch := match out with Some (outRows, _, entries) => NewRowsBatch outRows entries | None => MkRowsBatch None None end in
      handleForwardAndCapture t consumingNodes outBatch (with_WriteBatch ctx wb).

(** ** Indexes *)

Definition index_entry (tableInfo : TableInfo) (indexInfo : IndexInfo) (wb : WriteBatch) (prevRow currentRow : option Row) (receiver : Z)
  : outcome WriteBatch :=
  prevKey ← match prevRow with
            | Some row => '(k, _) ← EncodeIndexKeyValue tableInfo indexInfo (wb_ShardID wb) row; Ok k
            | None => Ok []
            end;
  '(currKey, currValue) ← match currentRow with
                          | Some row => EncodeIndexKeyValue tableInfo indexInfo (wb_ShardID wb) row
                          | None => Ok ([], [])
                          end;
  if bool_decide (prevKey = currKey) then Ok wb
  else
    let wb := match prevRow with Some _ => AddDelete wb prevKey | None => wb end in
    Ok (match currentRow with Some _ => AddPut wb currKey currValue | None => wb end).

Definition index_HandleRows (tableInfo : TableInfo) (indexInfo : IndexInfo) : Handler :=
  λ rowsBatch ctx,
    wb ← forEntries rowsBatch (index_entry tableInfo indexInfo) (ctx_WriteBatch ctx);
    Ok (with_WriteBatch ctx wb).

(** ** Tables as maps from keys to rows *)

Definition table_rows (T : gmap bytes Row) : list Row := (map_to_list T).*2.

Definition apply_upd (T : gmap bytes Row) (u : bytes * option Row) : gmap bytes Row :=
  match u.2 with Some row => <[u.1 := row]> T | None => delete u.1 T end.

Lemma table_rows_insert T k row : T !! k = None → table_rows (<[k := row]> T) ≡ₚ row :: table_rows T.
Proof. intros Hk. unfold table_rows. by rewrite map_to_list_insert. Qed.

Lemma table_rows_delete T k row : T !! k = Some row → row :: table_rows (delete k T) ≡ₚ table_rows T.
Proof. intros Hk. rewrite <- (table_rows_insert (delete k T) k row) by apply lookup_delete_eq. by rewrite insert_delete_id. Qed.

Lemma changed_upd T k o n : changed (table_rows T) [(T !! k, o, n)] (table_rows (apply_upd T (k, o))).
Proof.
  unfold changed, prevs, currs, apply_upd. simpl.
  assert (Hins : ∀ row, table_rows (<[k := row]> T) ≡ₚ row :: table_rows (delete k T)).
  { intros row. rewrite <- insert_delete_eq. apply table_rows_insert, lookup_delete_eq. }
  destruct (T !! k) as [old|] eqn:E, o as [row|]; simpl; rewrite ?app_nil_r.
  - rewrite Hins, <- (table_rows_delete _ _ _ E). simpl. rewrite Permutation_app_comm. simpl.
    rewrite (Permutation_app_comm _ [row]). simpl. apply Permutation_swap.
  - rewrite <- (table_rows_delete _ _ _ E). by rewrite Permutation_app_comm.
  - rewrite table_rows_insert by done. by rewrite Permutation_app_comm.
  - by rewrite delete_id.
Qed.

Lemma apply_upds_lookup us : ∀ T k, k ∉ us.*1 → foldl apply_upd T us !! k = T !! k.
Proof.
  induction us as [|[k' o] us IH]; intros T k Hk; simpl; [done|]. simpl in Hk. apply not_elem_of_cons in Hk as [Hne Hk].
  rewrite IH by done. unfold apply_upd. simpl. destruct o; [by rewrite lookup_insert_ne|by rewrite lookup_delete_ne].
Qed.

Lemma apply_upds_hit us k o : ∀ T, NoDup us.*1 → (k, o) ∈ us → foldl apply_upd T us !! k = o.
Proof.
  induction us as [|[k' o'] us IH]; intros T Hnd Hin; [by apply not_elem_of_nil in Hin|]. simpl in *. apply NoDup_cons in Hnd as [Hk Hnd].
  apply elem_of_cons in Hin as [[= <- <-]|Hin]; [|by apply IH]. rewrite apply_upds_lookup by done.
  unfold apply_upd. simpl. destruct o; [apply lookup_insert_eq|apply lookup_delete_eq].
Qed.

Section keyed.
Context (ti : TableInfo) (shardID : Z) (pkTypes : list ColumnType).

Definition row_bytes (row : Row) : bytes := cols_bytes row_cell_bytes (ti_ColumnTypes ti) row.
Definition row_keyb (row : Row) : bytes := match encodeKeyFromRow ti row shardID with Ok k => k | _ => [] end.

Lemma row_keyb_ok row : row_ok ti pkTypes row →
  encodeKeyFromRow ti row shardID = Ok (row_keyb row) ∧ EncodeTableKeyPrefix (ti_ID ti) shardID `prefix_of` row_keyb row ∧
  EncodeRow row (ti_ColumnTypes ti) [] = Ok (row_bytes row) ∧ length row = length (ti_ColumnTypes ti).
Proof.
  intros [[vs Hpk] Hc]. unfold row_keyb. rewrite (encodeKeyFromRow_eq _ _ _ _ _ Hpk). split_and!; [done|by apply prefix_app_r|by apply EncodeRow_eq|].
  symmetry. by eapply Forall2_length.
Qed.

(** The key and the new row of a change. *)
Definition change_row (ch : change) : Row := default (default [] ch.1.1) ch.1.2.
Definition change_upd (ch : change) : bytes * option Row := (row_keyb (change_row ch), ch.1.2).

(** The changes of the table when the batch [chs] is written to it. *)
Definition table_change (T : gmap bytes Row) (ch : change) : change :=
  (match ch.1.2 with Some row => T !! row_keyb row | None => ch.1.1 end, ch.1.2, ch.2).

(** A change is of a row that can be stored; a deleted row is one of the table. *)
Definition writes_ok (T : gmap bytes Row) (ch : change) : Prop :=
  row_ok ti pkTypes (change_row ch) ∧ (ch.1.2 = None → ∃ row, ch.1.1 = Some row ∧ T !! row_keyb row = Some row).

Lemma changed_table chs : ∀ T, NoDup (map change_upd chs).*1 → Forall (writes_ok T) chs →
  changed (table_rows T) (map (table_change T) chs) (table_rows (foldl apply_upd T (map change_upd chs))).
Proof.
  induction chs as [|[[p c] n] chs IH]; intros T Hnd Hok; [apply changed_nil|]. cbn [map foldl] in *. rewrite fmap_cons in Hnd.
  apply NoDup_cons in Hnd as [Hk Hnd]. apply Forall_cons in Hok as [Hok1 Hok]. set (u := change_upd (p, c, n)) in *.
  assert (Hne : ∀ ch, ch ∈ chs → row_keyb (change_row ch) ≠ u.1).
  { intros ch Hin E. apply Hk. rewrite <- E. apply list_elem_of_fmap. exists (change_upd ch). split; [done|]. by apply list_elem_of_fmap_2. }
  assert (Hlk : ∀ k, k ≠ u.1 → apply_upd T u !! k = T !! k).
  { intros k Hku. unfold apply_upd. destruct u as [k' [row|]]; simpl in *; [by rewrite lookup_insert_ne|by rewrite lookup_delete_ne]. }
  change (table_change T (p, c, n) :: map (table_change T) chs) with ([table_change T (p, c, n)] ++ map (table_change T) chs).
  eapply changed_app.
  - replace (table_change T (p, c, n)) with ((T !! u.1, c, n) : change); [apply changed_upd|]. unfold table_change, u, change_upd. simpl.
    destruct Hok1 as [_ Hdel]. destruct c as [c|]; [done|]. destruct (Hdel eq_refl) as (row & Hp & HT). simpl in Hp. subst p. unfold change_row. simpl. by rewrite HT.
  - replace (map (table_change T) chs) with (map (table_change (apply_upd T u)) chs).
    + apply IH; [done|]. rewrite Forall_forall in Hok |- *. intros ch Hin. destruct (Hok _ Hin) as [H1 H2]. split; [done|]. intros Hc.
      destruct (H2 Hc) as (row & Hp & HT). exists row. split; [done|]. rewrite Hlk; [done|].
      specialize (Hne _ Hin). unfold change_row in Hne. by rewrite Hc, Hp in Hne.
    + apply map_ext_in. intros [[p' c'] n'] Hin%list_elem_of_In. unfold table_change. simpl. destruct c' as [c'|]; [|done].
      by rewrite Hlk by (by specialize (Hne _ Hin)).
Qed.

(** ** The loop over a batch *)

Context {DB : Type} `{KVStore DB}.

(** The store holds exactly the rows of [T] under the prefix of the table. *)
Definition table_is (db : DB) (T : gmap bytes Row) : Prop :=
  map_Forall (λ k row, row_ok ti pkTypes row ∧ row_keyb row = k) T ∧
  ∀ k, EncodeTableKeyPrefix (ti_ID ti) shardID `prefix_of` k → kv_get db k = row_bytes <$> T !! k.

(** The row cache reads the store, for the keys of the table. *)
Definition cache_reads (ctx : ExecutionContext) (db : DB) : Prop :=
  ∀ k, EncodeTableKeyPrefix (ti_ID ti) shardID `prefix_of` k → ctx_RowCache ctx k = Ok (kv_get db k).

Definition change_puts (ch : change) : list (bytes * bytes) :=
  match ch.1.2 with Some row => [(row_keyb row, row_bytes row)] | None => [] end.
Definition change_dels (ch : change) : list bytes :=
  match ch.1.2 with Some _ => [] | None => [row_keyb (change_row ch)] end.

(** The output of the loop, when there is one. *)
Definition out_rep (o : option (Rows * Z * list RowsEntry)) (outs : list change) : Prop :=
  match o with Some (r, rc, es) => parts_rep (ti_ColumnTypes ti) r rc es outs | None => True end.

Lemma DecodeRow_stored row r rws : columnTypes r = ti_ColumnTypes ti → rows_rep r rws → Forall2 row_cell_ok (ti_ColumnTypes ti) row →
  ∃ r', DecodeRow (row_bytes row) (ti_ColumnTypes ti) r = Ok r' ∧ columnTypes r' = ti_ColumnTypes ti ∧ rows_rep r' (rws ++ [row]).
Proof using Type.
  intros Hc Hr Hok. pose proof (Forall2_length _ _ _ Hok) as Hl. unfold DecodeRow, row_bytes.
  destruct (DecodeRowWithIgnoredCols_ok (ti_ColumnTypes ti) row [] None (replicate (length row) true) r rws) as (r' & E & Hc' & Hr');
    rewrite ?selected_all, ?length_replicate; try done; try congruence.
  - intros j b Hj. apply lookup_replicate in Hj as [-> _]. done.
  - rewrite app_nil_r in E. rewrite selected_all in Hr'. exists r'. split_and!; [done|congruence|done].
Qed.

Lemma recordUpsert_ok t ctx db T row n r rc es outs :
  te_TableInfo t = ti → table_is db T → cache_reads ctx db → row_ok ti pkTypes row → parts_rep (ti_ColumnTypes ti) r rc es outs →
  ∃ r' rc' es', recordUpsert t ctx (row_keyb row) row n (r, rc, es) = Ok (r', rc', es') ∧
    parts_rep (ti_ColumnTypes ti) r' rc' es' (outs ++ [(T !! row_keyb row, Some row, n)]).
Proof using Type.
  intros Hti [HT Hdb] Hcache Hrow (rws & Hc & Hr & -> & Hes). unfold recordUpsert.
  destruct (row_keyb_ok row Hrow) as (_ & Hpre & _ & Hlen). rewrite Hcache, Hdb by done. osimpl. rewrite Hti.
  assert (Hst : ∃ r1 i, appendStored (ti_ColumnTypes ti) (row_bytes <$> T !! row_keyb row) r (Z.of_nat (length rws)) =
      Ok (r1, Z.of_nat (length (rws ++ option_list (T !! row_keyb row))), i) ∧ columnTypes r1 = ti_ColumnTypes ti ∧
      rows_rep r1 (rws ++ option_list (T !! row_keyb row)) ∧ index_rep (rws ++ option_list (T !! row_keyb row)) i (T !! row_keyb row)).
  { destruct (T !! row_keyb row) as [old|] eqn:E; simpl.
    - destruct (HT _ _ E) as [[_ Hold] _]. destruct (DecodeRow_stored old r rws Hc Hr Hold) as (r1 & -> & Hc1 & Hr1). osimpl.
      exists r1, (Z.of_nat (length rws)). rewrite length_app. simpl. split_and!; [do 3 f_equal; lia|done|done|lia|].
      by rewrite Nat2Z.id, lookup_app_r, Nat.sub_diag by done.
    - exists r, (-1). by rewrite app_nil_r. }
  destruct Hst as (r1 & i & -> & Hc1 & Hr1 & Hi). osimpl.
  destruct (AppendRow_rep r1 _ row Hr1) as (r2 & -> & Hc2 & Hr2); [congruence|]. osimpl. do 3 eexists. split; [done|].
  exists ((rws ++ option_list (T !! row_keyb row)) ++ [row]). split_and!; [congruence|done|rewrite !length_app; simpl; lia|].
  apply Forall2_app; [by do 2 apply entries_rep_app|]. constructor; [|constructor].
  split_and!; [by apply index_rep_app|split; [simpl; lia|]|done]. simpl. by rewrite Nat2Z.id, lookup_app_r, Nat.sub_diag by done.
Qed.

Lemma recordDelete_ok row n r rc es outs : length row = length (ti_ColumnTypes ti) → parts_rep (ti_ColumnTypes ti) r rc es outs →
  ∃ r' rc' es', recordDelete row n (r, rc, es) = Ok (r', rc', es') ∧ parts_rep (ti_ColumnTypes ti) r' rc' es' (outs ++ [(Some row, None, n)]).
Proof using Type.
  intros Hlen (rws & Hc & Hr & -> & Hes). unfold recordDelete.
  destruct (AppendRow_rep r _ row Hr) as (r2 & -> & Hc2 & Hr2); [congruence|]. osimpl. do 3 eexists. split; [done|].
  exists (rws ++ [row]). split_and!; [congruence|done|rewrite !length_app; simpl; lia|].
  apply Forall2_app; [by apply entries_rep_app|]. constructor; [|constructor]. split_and!; [split; [simpl; lia|]|done|done]. simpl.
  by rewrite Nat2Z.id, lookup_app_r, Nat.sub_diag by done.
Qed.

Lemma table_entry_ok t ctx db T o wb outs puts dels rngs ch :
  te_TableInfo t = ti → te_storeTombstones t = false → wb_ShardID wb = shardID →
  table_is db T → cache_reads ctx db → writes_ok T ch → out_rep o outs → wb_rep wb puts dels rngs →
  ∃ o' wb', table_entry t ctx (o, wb) ch.1.1 ch.1.2 ch.2 = Ok (o', wb') ∧ wb_ShardID wb' = shardID ∧ (is_Some o' ↔ is_Some o) ∧
    out_rep o' (outs ++ [table_change T ch]) ∧ wb_rep wb' (puts ++ change_puts ch) (dels ++ change_dels ch) rngs.
Proof using Type.
  intros Hti Htomb Hsh HT Hcache [Hrow Hdel] Ho Hwb. destruct ch as [[p [row|]] n]; unfold table_entry; cbn [fst snd] in *; rewrite Hti, Hsh.
  - unfold change_row in Hrow. simpl in Hrow. destruct (row_keyb_ok row Hrow) as (-> & _ & Hval & _). osimpl.
    unfold change_puts, change_dels, table_change. simpl. rewrite app_nil_r. destruct o as [[[r rc] es]|]; simpl in Ho.
    + destruct (recordUpsert_ok t ctx db T row n r rc es outs Hti HT Hcache Hrow Ho) as (r' & rc' & es' & -> & Hp). osimpl. rewrite Hval. osimpl.
      do 2 eexists. split; [done|]. split_and!; [done|done|done|by apply AddPut_rep].
    + osimpl. rewrite Hval. osimpl. do 2 eexists. split; [done|]. split_and!; [done|done|done|by apply AddPut_rep].
  - destruct (Hdel eq_refl) as (row & Hp & HTrow). simpl in Hp. subst p. unfold change_row in Hrow. simpl in Hrow.
    destruct (row_keyb_ok row Hrow) as (-> & _ & _ & Hlen). osimpl. rewrite Htomb.
    unfold change_puts, change_dels, table_change, change_row. simpl. rewrite app_nil_r. destruct o as [[[r rc] es]|]; simpl in Ho.
    + destruct (recordDelete_ok row n r rc es outs Hlen Ho) as (r' & rc' & es' & -> & Hp). osimpl.
      do 2 eexists. split; [done|]. split_and!; [done|done|done|by apply AddDelete_rep].
    + osimpl. do 2 eexists. split; [done|]. split_and!; [done|done|done|by apply AddDelete_rep].
Qed.

Lemma table_entries_ok t ctx db T chs : ∀ o wb outs puts dels rngs,
  te_TableInfo t = ti → te_storeTombstones t = false → wb_ShardID wb = shardID →
  table_is db T → cache_reads ctx db → Forall (writes_ok T) chs → out_rep o outs → wb_rep wb puts dels rngs →
  ∃ o' wb', foldM (λ st '(p, c, n), table_entry t ctx st p c n) (o, wb) chs = Ok (o', wb') ∧ wb_ShardID wb' = shardID ∧
    (is_Some o' ↔ is_Some o) ∧ out_rep o' (outs ++ map (table_change T) chs) ∧
    wb_rep wb' (puts ++ concat (map change_puts chs)) (dels ++ concat (map change_dels chs)) rngs.
Proof using Type.
  induction chs as [|[[p c] n] chs IH]; intros o wb outs puts dels rngs Hti Htomb Hsh HT Hcache Hok Ho Hwb; cbn [foldM].
  { exists o, wb. simpl. by rewrite !app_nil_r. }
  apply Forall_cons in Hok as [Hok1 Hok].
  destruct (table_entry_ok t ctx db T o wb outs puts dels rngs (p, c, n)) as (o1 & wb1 & E & Hs1 & Hi1 & Ho1 & Hw1); [done..|].
  cbn [fst snd] in E. rewrite E. osimpl.
  destruct (IH o1 wb1 _ _ _ rngs Hti Htomb Hs1 HT Hcache Hok Ho1 Hw1) as (o2 & wb2 & -> & Hs2 & Hi2 & Ho2 & Hw2).
  exists o2, wb2. rewrite <- app_assoc in Ho2. rewrite <- (app_assoc puts), <- (app_assoc dels) in Hw2. split; [done|]. split; [done|]. split; [by rewrite Hi2|]. split; [exact Ho2|exact Hw2].
Qed.

(** ** The table after the write *)

(** What a write of the batch does: the puts, then the deletes. *)
Definition batch_ops (puts : list (bytes * bytes)) (dels : list bytes) : list kv_op :=
  map (λ kv, KVSet kv.1 kv.2) puts ++ map KVDelete dels.

(** The part of a batch that concerns the table. *)
Abbreviation under k := (EncodeTableKeyPrefix (ti_ID ti) shardID `prefix_of` k) (only parsing).
Definition puts_under (puts : list (bytes * bytes)) : list (bytes * bytes) :=
  filter (λ kv, EncodeTableKeyPrefix (ti_ID ti) shardID `prefix_of` kv.1) puts.
Definition dels_under (dels : list bytes) : list bytes :=
  filter (λ k, EncodeTableKeyPrefix (ti_ID ti) shardID `prefix_of` k) dels.

Lemma effect_under k v puts dels : under k →
  foldl (op_effect k) v (batch_ops puts dels) = foldl (op_effect k) v (batch_ops (puts_under puts) (dels_under dels)).
Proof using Type.
  intros Hk. unfold batch_ops. rewrite !foldl_app.
  assert (Hp : ∀ v, foldl (op_effect k) v (map (λ kv, KVSet kv.1 kv.2) puts) = foldl (op_effect k) v (map (λ kv, KVSet kv.1 kv.2) (puts_under puts))).
  { clear v. induction puts as [|[k' w] puts IH]; intros v; [done|]. unfold puts_under in *. rewrite filter_cons. cbn [map foldl fst].
    case_decide as Hd; cbn [map foldl]; rewrite IH; [done|]. cbn [op_effect]. by rewrite decide_False by (intros ->; done). }
  assert (Hd : ∀ v, foldl (op_effect k) v (map KVDelete dels) = foldl (op_effect k) v (map KVDelete (dels_under dels))).
  { clear v. induction dels as [|k' dels IH]; intros v; [done|]. unfold dels_under in *. rewrite filter_cons. cbn [map foldl].
    case_decide as Hd; cbn [map foldl]; rewrite IH; [done|]. cbn [op_effect]. by rewrite decide_False by (intros ->; done). }
  by rewrite Hd, Hp.
Qed.

Lemma in_change_puts T chs k w : Forall (writes_ok T) chs → (k, w) ∈ concat (map change_puts chs) ↔
  ∃ row, (k, Some row) ∈ map change_upd chs ∧ w = row_bytes row.
Proof using Type.
  intros Hok. induction Hok as [|[[p [row|]] n] chs Hw _ IH]; simpl.
  - split; [by intros ?%not_elem_of_nil|by intros (? & ?%not_elem_of_nil & _)].
  - unfold change_upd at 1, change_row, change_puts at 1. simpl. rewrite elem_of_cons, IH. split.
    + intros [[= -> ->]|(row' & ? & ->)]; [exists row; split; [by left|done]|exists row'; split; [by right|done]].
    + intros (row' & [[= -> ->]|Hin]%elem_of_cons & ->); [by left|right; by exists row'].
  - unfold change_upd at 1, change_puts at 1. simpl. rewrite IH. split; intros (row' & Hin & ->); exists row'; split; try done; [by right|].
    by apply elem_of_cons in Hin as [|].
Qed.

Lemma in_change_dels T chs k : Forall (writes_ok T) chs → k ∈ concat (map change_dels chs) ↔ (k, None) ∈ map change_upd chs.
Proof using Type.
  intros Hok. induction Hok as [|[[p [row|]] n] chs Hw _ IH]; simpl; [split; by intros ?%not_elem_of_nil|..];
    unfold change_upd at 1, change_dels at 1; simpl; rewrite ?elem_of_cons, ?IH; naive_solver.
Qed.

Lemma table_written db T chs puts dels :
  table_is db T → NoDup (map change_upd chs).*1 → Forall (writes_ok T) chs →
  puts_under puts = concat (map change_puts chs) → dels_under dels = concat (map change_dels chs) →
  table_is (kv_apply db (batch_ops puts dels)) (foldl apply_upd T (map change_upd chs)).
Proof using Type.
  intros [HT Hdb] Hnd Hok Hputs Hdels.
  assert (Huniq : ∀ k o o', (k, o) ∈ map change_upd chs → (k, o') ∈ map change_upd chs → o = o').
  { intros k o o' H1 H2. rewrite <- (apply_upds_hit _ _ _ T Hnd H1). by rewrite (apply_upds_hit _ _ _ T Hnd H2). }
  split.
  - intros k row Hk. destruct (decide (k ∈ (map change_upd chs).*1)) as [Hin|Hin]; [|by rewrite apply_upds_lookup in Hk by done; apply HT].
    apply list_elem_of_fmap in Hin as ([k' o] & -> & Hin). simpl in *. rewrite (apply_upds_hit _ _ _ _ Hnd Hin) in Hk. subst o.
    apply list_elem_of_fmap in Hin as ([[p c] n] & E & Hin). unfold change_upd, change_row in E. simpl in E. injection E as -> <-.
    rewrite Forall_forall in Hok. destruct (Hok _ Hin) as [Hrow _]. by split.
  - intros k Hk. rewrite kv_get_apply, effect_under, Hputs, Hdels, Hdb by done. unfold batch_ops. rewrite foldl_app, effect_deletes.
    destruct (decide (k ∈ (map change_upd chs).*1)) as [Hin|Hin].
    + apply list_elem_of_fmap in Hin as ([k' o] & -> & Hin). simpl in *. rewrite (apply_upds_hit _ _ _ _ Hnd Hin). destruct o as [row|]; simpl.
      * rewrite decide_False by (rewrite (in_change_dels T) by done; intros Hin'; by specialize (Huniq _ _ _ Hin Hin')).
        apply effect_sets_hit; [apply (in_change_puts T); [done|by exists row]|]. intros w' (row' & Hin' & ->)%(in_change_puts T); [|done].
        specialize (Huniq _ _ _ Hin Hin'). by simplify_eq.
      * by rewrite decide_True by by apply (in_change_dels T).
    + assert (Hnone : ∀ o, (k, o) ∉ map change_upd chs).
      { intros o Hin'. apply Hin. apply list_elem_of_fmap. by exists (k, o). }
      rewrite apply_upds_lookup, decide_False by (done || by rewrite (in_change_dels T)). apply effect_sets_miss.
      intros ([k' w] & -> & Hin')%list_elem_of_fmap. apply (in_change_puts T) in Hin' as (row & Hin' & _); [|done]. by eapply Hnone.
Qed.
End keyed.

(** ** Changes captured during a fill *)

(** C40. While a table is filling a new consumer every change is captured, to be replayed
    later; a delete among them is not captured but panics: there is no row after the change
    to encode. The rows before it in the batch are of the table's types. *)
Theorem captured_delete_panics (ti : TableInfo) (fillTableID : Z) (b : RowsBatch) (ctx : ExecutionContext) (before after : list change) (row : Row) (n : Z) :
  batch_rep (ti_ColumnTypes ti) b (before ++ (Some row, None, n) :: after) →
  Forall (λ ch : change, ∃ c, ch.1.2 = Some c ∧ Forall2 row_cell_ok (ti_ColumnTypes ti) c) before →
  captureChanges fillTableID (ti_ColumnTypes ti) b ctx = Panic "nil pointer dereference".
Proof.
  intros Hb Hbefore. unfold captureChanges. rewrite (forEntries_eq _ _ _ Hb), foldM_app. clear Hb.
  set (seq0 := match ctx_LastSequences ctx !! _ with None => 0 | Some ls => i64 (ls + 1) end).
  generalize (NewWriteBatch (wb_ShardID (ctx_WriteBatch ctx))) as wb. generalize seq0 as q. clear seq0.
  induction Hbefore as [|[[p c] k] before (c' & Hc & Hok) _ IH]; intros q wb; [done|]. simpl in Hc. subst c. cbn [foldM].
  assert (E : ∀ sh, capture_entry fillTableID (ti_ColumnTypes ti) sh (wb, q) (Some c') = Ok (AddPut wb (KeyEncodeInt64 (EncodeTableKeyPrefix fillTableID sh) q)
    (cols_bytes row_cell_bytes (ti_ColumnTypes ti) c'), i64 (q + 1))).
  { intros sh. unfold capture_entry. by rewrite (EncodeRow_eq _ _ _ Hok). }
  rewrite E. osimpl. apply IH.
Qed.

Lemma captured_delete_panics_witness :
  captureChanges 2000 [BigIntColumnType] (NewRowsBatch (MkRows [BigIntColumnType] [[Some (VInt 5)]] 0) [NewRowsEntry 0 (-1) 1])
    (NewExecutionContext (NewWriteBatch 1000) (λ _, Ok None) (-1) ∅) = Panic "nil pointer dereference".
Proof.
  apply (captured_delete_panics (MkTableInfo 1001 [] [] [0%nat] [] [BigIntColumnType] None 0 0) 2000 _ _ [] [] [Some (VInt 5)] 1); [|constructor].
  split; [done|]. exists (MkRows [BigIntColumnType] [[Some (VInt 5)]] 0), [[Some (VInt 5)]]. split; [done|]. split; [done|].
  split; [split; [reflexivity|by constructor]|]. constructor; [|constructor]. split; [split; [done|reflexivity]|]. split; reflexivity.
Defined.
