(* ===== verification/Views.v ===== *)
(** * Materialized views and indexes

    The consumers of a table (src/push/exec/table_exec.go: materialized views, indexes)
    keep what they derive from it up to date. [Maintains] is the promise of a consumer to
    the table it is attached to: given the changes of the table, it writes, into the same
    batch and only under keys of its own, what makes its own state right for the changed
    table. A table executor with consumers that keep the promise keeps it itself, so views
    of views are covered; a selection and projection over a table, and an index, keep it. *)

From stdpp Require Import base list list_numbers strings gmap sorting.
From Stdlib Require Import ZArith Lia.
From S2P Require Import Prelude Encoding Timestamp Decimal Rows KeyEncoding RowEncoding Store WriteBatch Table LocalStore PullExec PullScan RowsBatch PushExec TableExec.

(** ** Coherent changes *)

(** Changes of a table with the rows [M], which [K] identifies: every row is changed at
    most once, the rows before are rows of the table, and a change keeps the key. *)
Definition change_coherent (K : Row → bytes) (M : list Row) (ch : change) : Prop :=
  match ch.1.1, ch.1.2 with
  | Some p, Some c => p ∈ M ∧ K p = K c
  | Some p, None => p ∈ M
  | None, Some c => K c ∉ map K M
  | None, None => False
  end.

Definition coherent (K : Row → bytes) (M : list Row) (chs : list change) : Prop :=
  NoDup (map K M) ∧ NoDup (map (λ ch, K (change_row ch)) chs) ∧ Forall (change_coherent K M) chs.

Lemma coherent_perm K M M' chs : M ≡ₚ M' → coherent K M chs → coherent K M' chs.
Proof.
  intros Hp (H1 & H2 & H3). split_and!; [by rewrite <- Hp|done|]. eapply Forall_impl; [exact H3|].
  intros [[[p|] [c|]] n]; unfold change_coherent; simpl; rewrite ?Hp; done.
Qed.

Lemma table_rows_elem T row : row ∈ table_rows T ↔ ∃ k, T !! k = Some row.
Proof.
  unfold table_rows. rewrite list_elem_of_fmap. split.
  - intros ([k r] & -> & Hin%elem_of_map_to_list). by exists k.
  - intros (k & Hk). exists (k, row). split; [done|]. by apply elem_of_map_to_list.
Qed.

Section keyed_tables.
Context (ti : TableInfo) (shardID : Z) (pkTypes : list ColumnType) (T : gmap bytes Row).
Context (HT : map_Forall (λ k row, row_ok ti pkTypes row ∧ row_keyb ti shardID row = k) T).

Lemma table_rows_keys : map (row_keyb ti shardID) (table_rows T) = (map_to_list T).*1.
Proof using HT.
  unfold table_rows. rewrite <- list_fmap_compose. apply list_fmap_ext. intros i [k row] Hi%list_elem_of_lookup_2%elem_of_map_to_list.
  by apply HT in Hi as [_ ?].
Qed.

Lemma table_rows_nodup : NoDup (map (row_keyb ti shardID) (table_rows T)).
Proof using HT. rewrite table_rows_keys. apply NoDup_fst_map_to_list. Qed.

Lemma table_lookup_row row : row ∈ table_rows T ↔ T !! row_keyb ti shardID row = Some row.
Proof using HT.
  rewrite table_rows_elem. split; [|by eauto]. intros (k & Hk). destruct (HT _ _ Hk) as [_ <-]. done.
Qed.

Lemma table_key_absent k : T !! k = None ↔ k ∉ map (row_keyb ti shardID) (table_rows T).
Proof using HT.
  rewrite table_rows_keys. rewrite list_elem_of_fmap, eq_None_not_Some. apply not_iff_compat. split.
  - intros [row Hk]. exists (k, row). split; [done|]. by apply elem_of_map_to_list.
  - intros ([k' row] & -> & Hin%elem_of_map_to_list). by exists row.
Qed.

(** What a table executor hands on is coherent. *)
Lemma table_changes_coherent chs : NoDup (map (change_upd ti shardID) chs).*1 → Forall (writes_ok ti shardID pkTypes T) chs →
  coherent (row_keyb ti shardID) (table_rows T) (map (table_change ti shardID T) chs).
Proof using HT.
  intros Hnd Hok. split_and!; [apply table_rows_nodup| |].
  - rewrite <- list_fmap_compose in Hnd. rewrite map_map. eapply eq_ind; [exact Hnd|]. apply list_fmap_ext.
    intros i [[p c] n] Hi%list_elem_of_lookup_2. rewrite Forall_forall in Hok. destruct (Hok _ Hi) as [_ Hdel]. simpl in *.
    unfold change_row, table_change. by destruct c.
  - apply Forall_map. eapply Forall_impl; [exact Hok|]. intros [[p c] n] [Hrow Hdel]. unfold change_coherent, table_change. simpl in *.
    destruct c as [c|].
    + destruct (T !! row_keyb ti shardID c) as [old|] eqn:E; [|by apply table_key_absent]. destruct (HT _ _ E) as [_ Hk].
      split; [|done]. apply table_rows_elem. by exists (row_keyb ti shardID c).
    + destruct (Hdel eq_refl) as (row & -> & HTr). by apply table_lookup_row.
Qed.

(** Coherent changes can be written, and are handed on as they are. *)
Lemma coherent_writes chs : coherent (row_keyb ti shardID) (table_rows T) chs → Forall (row_ok ti pkTypes) (currs chs) →
  NoDup (map (change_upd ti shardID) chs).*1 ∧ Forall (writes_ok ti shardID pkTypes T) chs ∧ map (table_change ti shardID T) chs = chs.
Proof using HT.
  intros (_ & Hnd & Hall) Hrows. split; [by rewrite <- list_fmap_compose|].
  clear Hnd. induction Hall as [|[[p c] n] chs Hch Hall IH]; [done|].
  assert (Hc : Forall (row_ok ti pkTypes) (option_list c ++ currs chs)) by (by destruct c). apply Forall_app in Hc as [Hc Hrows'].
  destruct (IH Hrows') as [IH1 IH2]. cbn [map]. rewrite IH2. unfold change_coherent in Hch. simpl in Hch.
  split; [constructor; [|done]|f_equal; unfold table_change; simpl].
  - destruct c as [c|]; [by inv Hc; split|]. destruct p as [p|]; [|done]. apply table_lookup_row in Hch. split; simpl.
    + by destruct (HT _ _ Hch).
    + intros _. by exists p.
  - destruct c as [c|]; [|done]. destruct p as [p|].
    + destruct Hch as [Hin Hk]. apply table_lookup_row in Hin. by rewrite <- Hk, Hin.
    + apply table_key_absent in Hch. by rewrite Hch.
Qed.
End keyed_tables.

(** ** The promise of a consumer *)

(** The part of a list whose keys have the given owner. *)
Definition owned {A} (key : A → bytes) (owns : bytes → bool) (l : list A) : list A := filter (λ x, owns (key x) = true) l.
Abbreviation puts_of := (owned (A := bytes * bytes) fst).
Abbreviation dels_of := (owned (A := bytes) id).

Definition disjoint_owners (a b : bytes → bool) : Prop := ∀ k, a k = true → b k = true → False.

Lemma filter_all {A} (P : A → Prop) `{!∀ x, Decision (P x)} l : Forall P l → filter P l = l.
Proof. induction 1; [done|]. rewrite filter_cons_True by done. by f_equal. Qed.
Lemma filter_none {A} (P : A → Prop) `{!∀ x, Decision (P x)} l : Forall (λ x, ¬ P x) l → filter P l = [].
Proof. induction 1; [done|]. by rewrite filter_cons_False. Qed.

Lemma owned_part {A} (key : A → bytes) a b P p q : owned key (λ k, a k || b k) P = p ++ q → disjoint_owners a b →
  Forall (λ x, a (key x) = true) p → Forall (λ x, b (key x) = true) q → owned key a P = p ∧ owned key b P = q.
Proof.
  intros HP Hdis Hp Hq. unfold owned in *.
  rewrite <- (list_filter_filter_l (λ x, a (key x) = true) (λ x, a (key x) || b (key x) = true)) by (intros x ->; done).
  rewrite <- (list_filter_filter_l (λ x, b (key x) = true) (λ x, a (key x) || b (key x) = true)) by (intros x ->; apply orb_true_r).
  rewrite HP, !filter_app. rewrite Forall_forall in Hp, Hq. split.
  - rewrite filter_all, filter_none, app_nil_r by (apply Forall_forall; eauto). done.
  - rewrite filter_none, filter_all by (apply Forall_forall; eauto). done.
Qed.

Section promise.
Context {DB : Type} `{KVStore DB}.
Context (shardID : Z).

(** A consumer: its handler, the keys it writes, and what it promises about the store for
    a table with the given rows. *)
Record Consumer := MkConsumer {
  c_handle : Handler;
  c_owns : bytes → bool;
  c_inv : DB → list Row → Prop
}.

(** [cts], [K] and [U]: the types, the key and the possible rows of the table. What the
    consumer promises depends on the rows but not on their order, and on its own keys. *)
Class Maintains (c : Consumer) (cts : list ColumnType) (K : Row → bytes) (U : Row → Prop) : Prop := {
  maintains (db : DB) M chs M' b ctx puts dels rngs :
    batch_rep cts b chs → changed M chs M' → coherent K M chs → Forall U M → Forall (change_ok U) chs → c_inv c db M →
    (∀ k, c_owns c k = true → ctx_RowCache ctx k = Ok (kv_get db k)) →
    wb_ShardID (ctx_WriteBatch ctx) = shardID → wb_rep (ctx_WriteBatch ctx) puts dels rngs →
    ∃ wb puts' dels', c_handle c b ctx = Ok (with_WriteBatch ctx wb) ∧
      wb_ShardID wb = shardID ∧ wb_rep wb (puts ++ puts') (dels ++ dels') rngs ∧
      Forall (λ kv, c_owns c kv.1 = true) puts' ∧ Forall (λ k, c_owns c k = true) dels' ∧
      ∀ P D, puts_of (c_owns c) P = puts' → dels_of (c_owns c) D = dels' → c_inv c (kv_apply db (batch_ops P D)) M';
  maintains_stable (db : DB) M M' P D :
    c_inv c db M → M ≡ₚ M' → puts_of (c_owns c) P = [] → dels_of (c_owns c) D = [] → c_inv c (kv_apply db (batch_ops P D)) M'
}.

Definition all_own (cs : list Consumer) (k : bytes) : bool := existsb (λ c, c_owns c k) cs.
(** No two consumers write the same key. *)
Fixpoint separate (cs : list Consumer) : Prop :=
  match cs with
  | [] => True
  | c :: cs' => disjoint_owners (c_owns c) (all_own cs') ∧ separate cs'
  end.

(** All consumers are given the same changes, one after the other. *)
Lemma forward_ok cts K U cs : Forall (λ c, Maintains c cts K U) cs → separate cs → ∀ (db : DB) M chs M' b ctx puts dels rngs,
  batch_rep cts b chs → changed M chs M' → coherent K M chs → Forall U M → Forall (change_ok U) chs → Forall (λ c, c_inv c db M) cs →
  (∀ k, all_own cs k = true → ctx_RowCache ctx k = Ok (kv_get db k)) →
  wb_ShardID (ctx_WriteBatch ctx) = shardID → wb_rep (ctx_WriteBatch ctx) puts dels rngs →
  ∃ wb puts' dels', ForwardToConsumingNodes (map c_handle cs) b ctx = Ok (with_WriteBatch ctx wb) ∧
    wb_ShardID wb = shardID ∧ wb_rep wb (puts ++ puts') (dels ++ dels') rngs ∧
    Forall (λ kv, all_own cs kv.1 = true) puts' ∧ Forall (λ k, all_own cs k = true) dels' ∧
    ∀ P D, puts_of (all_own cs) P = puts' → dels_of (all_own cs) D = dels' → Forall (λ c, c_inv c (kv_apply db (batch_ops P D)) M') cs.
Proof.
  induction 1 as [|c cs Hc Hcs IH]; intros Hsep db M chs M' b ctx puts dels rngs Hb Hch Hco HU HUc Hinv Hcache Hsh Hwb.
  { exists (ctx_WriteBatch ctx), [], []. rewrite !app_nil_r. split_and!; try done; [by destruct ctx|constructor..]. }
  destruct Hsep as [Hdis Hsep]. apply Forall_cons in Hinv as [Hi1 Hi2]. unfold ForwardToConsumingNodes in *. cbn [map foldM].
  destruct (maintains (c := c) db M chs M' b ctx puts dels rngs) as (wb1 & p1 & d1 & -> & Hs1 & Hw1 & Hp1 & Hd1 & Hinv1); try done.
  { intros k Hk. apply Hcache. simpl. by rewrite Hk. }
  osimpl. destruct (IH Hsep db M chs M' b (with_WriteBatch ctx wb1) (puts ++ p1) (dels ++ d1) rngs) as (wb2 & p2 & d2 & -> & Hs2 & Hw2 & Hp2 & Hd2 & Hinv2); try done.
  { intros k Hk. apply Hcache. simpl. by rewrite Hk, orb_true_r. }
  exists wb2, (p1 ++ p2), (d1 ++ d2). rewrite <- (app_assoc puts), <- (app_assoc dels) in Hw2.
  split_and!; [done..| | |].
  - apply Forall_app. split; (eapply Forall_impl; [eassumption|]); intros kv Hk; simpl in *; rewrite Hk; by rewrite ?orb_true_r.
  - apply Forall_app. split; (eapply Forall_impl; [eassumption|]); intros kv Hk; simpl in *; rewrite Hk; by rewrite ?orb_true_r.
  - intros P D HP HD. destruct (owned_part fst _ _ _ _ _ HP Hdis Hp1 Hp2) as [HP1 HP2].
    destruct (owned_part id _ _ _ _ _ HD Hdis Hd1 Hd2) as [HD1 HD2]. constructor; auto.
Qed.

(** ** A table with consumers *)

Definition table_owns (ti : TableInfo) (k : bytes) : bool := bool_decide (EncodeTableKeyPrefix (ti_ID ti) shardID `prefix_of` k).

Lemma owned_under ti P : puts_of (table_owns ti) P = puts_under ti shardID P.
Proof. apply list_filter_iff. intros kv. apply bool_decide_eq_true. Qed.
Lemma owned_dels_under ti D : dels_of (table_owns ti) D = dels_under ti shardID D.
Proof. apply list_filter_iff. intros kv. apply bool_decide_eq_true. Qed.

Lemma change_puts_under ti pkTypes T chs : Forall (writes_ok ti shardID pkTypes T) chs →
  Forall (λ kv, table_owns ti kv.1 = true) (concat (map (change_puts ti shardID) chs)) ∧
  Forall (λ k, table_owns ti k = true) (concat (map (change_dels ti shardID) chs)).
Proof using.
  intros Hok. induction Hok as [|[[p c] n] chs [Hrow _] _ [IH1 IH2]]; simpl; [done|]. unfold change_row in Hrow. simpl in Hrow.
  assert (Hu : table_owns ti (row_keyb ti shardID (default (default [] p) c)) = true).
  { apply bool_decide_eq_true. by eapply row_keyb_ok. }
  split; apply Forall_app; (split; [|done]); destruct c; repeat constructor; done.
Qed.

Lemma table_changes_U ti pkTypes (U : Row → Prop) T chs : Forall (λ row, U row) (table_rows T) → map_Forall (λ k row, row_ok ti pkTypes row ∧ row_keyb ti shardID row = k) T →
  Forall (writes_ok ti shardID pkTypes T) chs → Forall U (currs chs) → Forall (change_ok U) (map (table_change ti shardID T) chs).
Proof using.
  intros HU HT Hok HUc. rewrite Forall_forall in HU. induction Hok as [|[[p c] n] chs [_ Hdel] _ IH]; simpl; [constructor|].
  assert (Hc : Forall U (option_list c ++ currs chs)) by (by destruct c). apply Forall_app in Hc as [Hc Hrest]. constructor; [|by apply IH].
  unfold table_change. simpl in *. split; simpl; [|intros x ->; by inv Hc]. intros x Hx. apply HU. destruct c as [c|].
  - apply table_rows_elem. by exists (row_keyb ti shardID c).
  - destruct (Hdel eq_refl) as (row & -> & HTr). injection Hx as <-. apply table_rows_elem. by exists (row_keyb ti shardID row).
Qed.

Section table.
Context (t : TableExecutor) (ti : TableInfo) (pkTypes : list ColumnType) (U : Row → Prop) (cs : list Consumer).
Context (Hti : te_TableInfo t = ti) (Htrans : te_transient t = false) (Hfill : te_filling t = false) (Htomb : te_storeTombstones t = false).
Context (Hcs : Forall (λ c, Maintains c (ti_ColumnTypes ti) (row_keyb ti shardID) U) cs) (Hsep : separate cs).
Context (Hown : disjoint_owners (table_owns ti) (all_own cs)).

Definition table_invs (db : DB) (T : gmap bytes Row) : Prop :=
  table_is ti shardID pkTypes db T ∧ Forall (λ c, c_inv c db (table_rows T)) cs.

Lemma table_HandleRows_ok (db : DB) T chs b ctx puts dels rngs (T' := foldl apply_upd T (map (change_upd ti shardID) chs)) :
  batch_rep (ti_ColumnTypes ti) b chs → NoDup (map (change_upd ti shardID) chs).*1 → Forall (writes_ok ti shardID pkTypes T) chs →
  table_invs db T → Forall U (table_rows T) → Forall U (currs chs) →
  (∀ k, table_owns ti k || all_own cs k = true → ctx_RowCache ctx k = Ok (kv_get db k)) →
  wb_ShardID (ctx_WriteBatch ctx) = shardID → wb_rep (ctx_WriteBatch ctx) puts dels rngs →
  ∃ wb puts' dels', table_HandleRows t (map c_handle cs) b ctx = Ok (with_WriteBatch ctx wb) ∧
    wb_ShardID wb = shardID ∧ wb_rep wb (puts ++ puts') (dels ++ dels') rngs ∧
    Forall (λ kv, table_owns ti kv.1 || all_own cs kv.1 = true) puts' ∧ Forall (λ k, table_owns ti k || all_own cs k = true) dels' ∧
    ∀ P D, puts_of (λ k, table_owns ti k || all_own cs k) P = puts' → dels_of (λ k, table_owns ti k || all_own cs k) D = dels' →
      table_invs (kv_apply db (batch_ops P D)) T'.
Proof using All.
  intros Hb Hnd Hok [HT Hinv] HU HUc Hcache Hsh Hwb. unfold table_HandleRows. rewrite Htrans, Hfill, orb_false_r, Hti.
  set (req := negb (length (map c_handle cs) =? 0)%nat).
  rewrite (forEntries_eq _ _ _ Hb).
  destruct (table_entries_ok ti shardID pkTypes t ctx db T chs (if req then Some (NewRows (ti_ColumnTypes ti), 0, []) else None)
    (ctx_WriteBatch ctx) [] puts dels rngs) as (o & wb & -> & Hswb & Hsome & Ho & Hwb1); try done.
  { intros k Hk. apply Hcache. unfold table_owns. by rewrite bool_decide_eq_true_2. }
  { destruct req; [|done]. exists []. split_and!; [done|apply NewRows_rep|done|constructor]. }
  osimpl. unfold handleForwardAndCapture. rewrite Hfill.
  destruct (change_puts_under ti pkTypes T chs Hok) as [Hpu Hdu]. pose proof (proj1 HT) as HTok.
  set (pt := concat (map (change_puts ti shardID) chs)) in *. set (dt := concat (map (change_dels ti shardID) chs)) in *.
  set (outBatch := match o with Some (outRows, _, entries) => NewRowsBatch outRows entries | None => MkRowsBatch None None end).
  assert (Hfw : ∃ wb2 p2 d2, ForwardToConsumingNodes (map c_handle cs) outBatch (with_WriteBatch ctx wb) = Ok (with_WriteBatch ctx wb2) ∧
      wb_ShardID wb2 = shardID ∧
      wb_rep wb2 ((puts ++ pt) ++ p2) ((dels ++ dt) ++ d2) rngs ∧
      Forall (λ kv, all_own cs kv.1 = true) p2 ∧ Forall (λ k, all_own cs k = true) d2 ∧
      ∀ P D, puts_of (all_own cs) P = p2 → dels_of (all_own cs) D = d2 → Forall (λ c, c_inv c (kv_apply db (batch_ops P D)) (table_rows T')) cs).
  { destruct cs as [|c cs'] eqn:Ecs.
    { exists wb, [], []. rewrite !app_nil_r. split_and!; try done; constructor. }
    subst req. simpl in Hsome. destruct o as [[[outRows rc] es]|]; [|by destruct (proj2 Hsome (ex_intro _ _ eq_refl))].
    destruct (forward_ok (ti_ColumnTypes ti) (row_keyb ti shardID) U (c :: cs') Hcs Hsep db (table_rows T) (map (table_change ti shardID T) chs)
      (table_rows T') outBatch (with_WriteBatch ctx wb) (puts ++ pt) (dels ++ dt) rngs) as (wb2 & p2 & d2 & Hrun & Hrest); try done.
    - apply parts_batch_rep with (rc := rc); [by destruct Hb|exact Ho].
    - by apply (changed_table ti shardID pkTypes).
    - by apply (table_changes_coherent ti shardID pkTypes).
    - by apply (table_changes_U ti pkTypes).
    - intros k Hk. apply Hcache. by rewrite Hk, orb_true_r.
    - by exists wb2, p2, d2. }
  destruct Hfw as (wb2 & p2 & d2 & -> & Hs2 & Hw2 & Hp2 & Hd2 & Hinv2). osimpl.
  exists wb2, (pt ++ p2), (dt ++ d2). rewrite <- (app_assoc puts), <- (app_assoc dels) in Hw2. split_and!; [done..| | |].
  - apply Forall_app. split; (eapply Forall_impl; [eassumption|]); intros kv Hk; simpl in *; rewrite Hk; by rewrite ?orb_true_r.
  - apply Forall_app. split; (eapply Forall_impl; [eassumption|]); intros kv Hk; simpl in *; rewrite Hk; by rewrite ?orb_true_r.
  - intros P D HP HD. destruct (owned_part fst _ _ _ _ _ HP Hown Hpu Hp2) as [HP1 HP2].
    destruct (owned_part id _ _ _ _ _ HD Hown Hdu Hd2) as [HD1 HD2]. split; [|by apply Hinv2].
    apply table_written; try done; [by rewrite <- owned_under|by rewrite <- owned_dels_under].
Qed.
End table.

(** ** A table that keeps rows keeps the promise *)

Lemma owned_or_nil {A} (key : A → bytes) a b l : owned key (λ k, a k || b k) l = [] → owned key a l = [] ∧ owned key b l = [].
Proof.
  unfold owned. intros Hl.
  rewrite <- (list_filter_filter_l (λ x, a (key x) = true) (λ x, a (key x) || b (key x) = true)) by (intros x ->; done).
  rewrite <- (list_filter_filter_l (λ x, b (key x) = true) (λ x, a (key x) || b (key x) = true)) by (intros x ->; apply orb_true_r).
  by rewrite Hl.
Qed.

Lemma forward_stable cts K U cs (db : DB) M M' P D : Forall (λ c, Maintains c cts K U) cs → Forall (λ c, c_inv c db M) cs → M ≡ₚ M' →
  puts_of (all_own cs) P = [] → dels_of (all_own cs) D = [] → Forall (λ c, c_inv c (kv_apply db (batch_ops P D)) M') cs.
Proof.
  intros Hcs Hinv Hp. induction Hcs as [|c cs Hc Hcs IH]; intros HP HD; [constructor|]. apply Forall_cons in Hinv as [H1 H2].
  destruct (owned_or_nil _ _ _ _ HP), (owned_or_nil _ _ _ _ HD). constructor; [by eapply maintains_stable|by apply IH].
Qed.

Lemma table_is_stable ti pkTypes (db : DB) T P D : table_is ti shardID pkTypes db T →
  puts_of (table_owns ti) P = [] → dels_of (table_owns ti) D = [] → table_is ti shardID pkTypes (kv_apply db (batch_ops P D)) T.
Proof.
  intros HT HP HD. rewrite owned_under in HP. rewrite owned_dels_under in HD.
  apply (table_written ti shardID pkTypes db T [] P D HT); [constructor|constructor|done|done].
Qed.

Definition table_consumer (t : TableExecutor) (pkTypes : list ColumnType) (cs : list Consumer) : Consumer := {|
  c_handle := table_HandleRows t (map c_handle cs);
  c_owns := λ k, table_owns (te_TableInfo t) k || all_own cs k;
  c_inv := λ db M, ∃ T, table_invs (te_TableInfo t) pkTypes cs db T ∧ table_rows T ≡ₚ M
|}.

Definition table_storing (t : TableExecutor) : Prop :=
  te_transient t = false ∧ te_filling t = false ∧ te_storeTombstones t = false.

Lemma table_maintains t pkTypes U cs (ti := te_TableInfo t) :
  table_storing t → (∀ row, U row → row_ok ti pkTypes row) →
  Forall (λ c, Maintains c (ti_ColumnTypes ti) (row_keyb ti shardID) U) cs → separate cs → disjoint_owners (table_owns ti) (all_own cs) →
  Maintains (table_consumer t pkTypes cs) (ti_ColumnTypes ti) (row_keyb ti shardID) U.
Proof.
  intros (Htr & Hf & Hto) HU Hcs Hsep Hown. split.
  - intros db M chs M' b ctx puts dels rngs Hb Hch Hco HUM HUc (T & [HT Hinv] & Hperm) Hcache Hsh Hwb.
    assert (Hcurr : Forall U (currs chs)).
    { clear -HUc. induction HUc as [|[[p [c|]] n] chs [_ Hc] _ IH]; simpl; [constructor|constructor; [by apply Hc|done]|done]. }
    assert (HUT : Forall U (table_rows T)) by by rewrite Hperm.
    apply (coherent_perm _ _ (table_rows T)) in Hco; [|done].
    destruct (coherent_writes ti shardID pkTypes T (proj1 HT) chs Hco) as (Hnd & Hok & Hsame); [by eapply Forall_impl|].
    destruct (table_HandleRows_ok t ti pkTypes U cs eq_refl Htr Hf Hto Hcs Hsep Hown db T chs b ctx puts dels rngs)
      as (wb & p' & d' & ? & ? & ? & ? & ? & Hfin); try done.
    exists wb, p', d'. split_and!; try done. intros P D HP HD. eexists. split; [by apply Hfin|].
    pose proof (changed_table ti shardID pkTypes chs T Hnd Hok) as Hc'. rewrite Hsame in Hc'.
    eapply changed_unique; [exact Hc'|]. eapply changed_perm; [symmetry; exact Hperm|reflexivity|exact Hch].
  - intros db M M' P D (T & [HT Hinv] & Hperm) Hp HP HD. destruct (owned_or_nil _ _ _ _ HP), (owned_or_nil _ _ _ _ HD).
    exists T. split; [split|by rewrite Hperm]; [by apply table_is_stable|]. by eapply forward_stable.
Qed.

(** ** A view keeps the promise *)

Definition view_row (s : PushScan) (p : PushProjection) (row : Row) : Row := proj_row p (scan_row s row).

Definition view_consumer (s : PushScan) (predicates : list Expression) (p : PushProjection) (c : Consumer) : Consumer := {|
  c_handle := view_HandleRows s predicates p (c_handle c);
  c_owns := c_owns c;
  c_inv := λ db M, c_inv c db (view s predicates p M)
|}.

(** What a view of a table needs: the rows of the table can be scanned, tested and
    projected, the projected rows are rows of the view, and they are identified by their
    keys as the rows of the table are by theirs. *)
Record view_of (cts : list ColumnType) (K : Row → bytes) (U : Row → Prop) (s : PushScan) (predicates : list Expression)
    (p : PushProjection) (K' : Row → bytes) (U' : Row → Prop) : Prop := {
  vo_shaped : view_shaped cts s p;
  vo_ok row : U row → view_ok s predicates p row;
  vo_row row : U row → passes predicates (scan_row s row) = true → U' (view_row s p row);
  vo_key row row' : U row → U row' → passes predicates (scan_row s row) = true → passes predicates (scan_row s row') = true →
    K' (view_row s p row) = K' (view_row s p row') ↔ K row = K row'
}.

Lemma view_rows s predicates p M : view s predicates p M = map (view_row s p) (filter (λ row, passes predicates (scan_row s row) = true) M).
Proof.
  unfold view, view_row. induction M as [|row M IH]; [done|]. cbn [map]. rewrite !filter_cons. case_decide; cbn [map]; by rewrite IH.
Qed.

Definition view_change (s : PushScan) (predicates : list Expression) (p : PushProjection) (ch : change) : option change :=
  map_change (view_row s p) <$> select_change (λ row, passes predicates (scan_row s row)) ch.

Lemma view_changes_eq s predicates p chs : view_changes s predicates p chs = omap (view_change s predicates p) chs.
Proof.
  unfold view_changes. induction chs as [|[[q c] n] chs IH]; [done|]. simpl. unfold view_change at 1, select_change.
  destruct q as [q|], c as [c|]; simpl; try destruct (passes predicates (scan_row s q)); try destruct (passes predicates (scan_row s c)); simpl;
    first [exact IH|f_equal; exact IH].
Qed.

Lemma NoDup_map_inj {A B C} (f : A → B) (g : A → C) l : NoDup (map f l) → (∀ x y, x ∈ l → y ∈ l → g x = g y → f x = f y) → NoDup (map g l).
Proof.
  induction l as [|x l IH]; simpl; intros Hnd Hinj; [constructor|]. apply NoDup_cons in Hnd as [Hx Hnd]. constructor.
  - intros (y & E & Hy)%list_elem_of_fmap. apply Hx. rewrite (Hinj x y) by (done || by left || by right). by apply list_elem_of_fmap_2.
  - apply IH; [done|]. intros y z Hy Hz. apply Hinj; by right.
Qed.

Lemma NoDup_map_eq {A B} (f : A → B) l x y : NoDup (map f l) → x ∈ l → y ∈ l → f x = f y → x = y.
Proof.
  intros Hnd [i Hi]%list_elem_of_lookup [j Hj]%list_elem_of_lookup E.
  assert (i = j) as ->; [|congruence]. eapply NoDup_lookup; [exact Hnd|by rewrite list_lookup_fmap, Hi|by rewrite list_lookup_fmap, Hj, E].
Qed.

Section view_coherent.
Context (cts : list ColumnType) (K : Row → bytes) (U : Row → Prop) (s : PushScan) (predicates : list Expression) (p : PushProjection)
  (K' : Row → bytes) (U' : Row → Prop) (HV : view_of cts K U s predicates p K' U').
Let pass (row : Row) : bool := passes predicates (scan_row s row).

(** The row that a change of the view is a change of. *)
Lemma view_change_key M ch ch' : change_coherent K M ch → change_ok U ch → view_change s predicates p ch = Some ch' →
  ∃ x, U x ∧ pass x = true ∧ K x = K (change_row ch) ∧ change_row ch' = view_row s p x.
Proof using HV.
  intros Hco [HUp HUc] Hv. unfold view_change, select_change, change_coherent, change_row in *. destruct ch as [[q c] n]. simpl in *.
  destruct q as [q|], c as [c|]; simpl in *; fold (pass) in Hv.
  - destruct Hco as [_ Hk]. destruct (passes predicates (scan_row s q)) eqn:Eq, (passes predicates (scan_row s c)) eqn:Ec; simplify_eq/=;
      [exists c|exists q|exists c]; split_and!; auto.
  - destruct (passes predicates (scan_row s q)) eqn:Eq; simplify_eq/=. exists q. split_and!; auto.
  - destruct (passes predicates (scan_row s c)) eqn:Ec; simplify_eq/=. exists c. split_and!; auto.
  - done.
Qed.

Lemma view_changes_nodup M chs : NoDup (map (λ ch, K (change_row ch)) chs) → Forall (change_coherent K M) chs → Forall (change_ok U) chs →
  NoDup (map (λ ch, K' (change_row ch)) (omap (view_change s predicates p) chs)).
Proof using HV.
  intros Hnd Hco HU. induction chs as [|ch chs IH]; simpl; [constructor|]. simpl in Hnd. apply NoDup_cons in Hnd as [Hk Hnd].
  apply Forall_cons in Hco as [Hco1 Hco]. apply Forall_cons in HU as [HU1 HU]. specialize (IH Hnd Hco HU).
  destruct (view_change s predicates p ch) as [ch'|] eqn:Ev; [|exact IH]. simpl. constructor; [|exact IH].
  intros (ch2' & E & Hin2)%list_elem_of_fmap. apply list_elem_of_omap in Hin2 as (ch2 & Hin2 & Ev2).
  destruct (view_change_key M ch ch' Hco1 HU1 Ev) as (x & HUx & Hpx & HKx & Hrx). rewrite Forall_forall in Hco, HU.
  destruct (view_change_key M ch2 ch2' (Hco _ Hin2) (HU _ Hin2) Ev2) as (y & HUy & Hpy & HKy & Hry).
  rewrite Hrx, Hry in E. apply (vo_key _ _ _ _ _ _ _ _ HV) in E; [|done..]. apply Hk. rewrite <- HKx, E, HKy. by apply (list_elem_of_fmap_2 (λ ch, K (change_row ch))).
Qed.

Lemma view_elem M row : Forall U M → row ∈ M → pass row = true → view_row s p row ∈ map (view_row s p) (filter (λ row, pass row = true) M).
Proof using. intros _ Hin Hp. apply list_elem_of_fmap_2, list_elem_of_filter. by split. Qed.

Lemma view_change_coherent M ch ch' : NoDup (map K M) → Forall U M → change_coherent K M ch → change_ok U ch →
  view_change s predicates p ch = Some ch' → change_coherent K' (map (view_row s p) (filter (λ row, pass row = true) M)) ch'.
Proof using HV.
  intros Hnd HUM Hco [HUp HUc] Hv. unfold view_change, select_change in Hv. destruct ch as [[q c] n]. simpl in *. fold (pass) in Hv.
  assert (Hnew : ∀ c, U c → pass c = true → (∀ m, m ∈ M → K m = K c → pass m = false) →
    K' (view_row s p c) ∉ map K' (map (view_row s p) (filter (λ row, pass row = true) M))).
  { intros c0 HUc0 Hpc Hno (v & E & (m & -> & Hm)%list_elem_of_fmap)%list_elem_of_fmap. apply list_elem_of_filter in Hm as [Hpm Hm].
    rewrite Forall_forall in HUM. apply (vo_key _ _ _ _ _ _ _ _ HV) in E; [|by auto..]. symmetry in E. rewrite (Hno m Hm E) in Hpm. done. }
  destruct q as [q|], c as [c|]; simpl in *.
  - destruct Hco as [Hq Hk]. fold (pass q) (pass c) in Hv. destruct (pass q) eqn:Eq, (pass c) eqn:Ec; simplify_eq/=.
    + split; [by apply view_elem|]. apply (vo_key _ _ _ _ _ _ _ _ HV); auto.
    + by apply view_elem.
    + apply Hnew; auto. intros m Hm HK. by rewrite (NoDup_map_eq K M m q Hnd Hm Hq) by congruence.
  - fold (pass q) in Hv. destruct (pass q) eqn:Eq; simplify_eq/=. by apply view_elem.
  - fold (pass c) in Hv. destruct (pass c) eqn:Ec; simplify_eq/=. apply Hnew; auto. intros m Hm HK. destruct Hco. rewrite <- HK.
    by apply list_elem_of_fmap_2.
  - done.
Qed.

Lemma view_coherent M chs : coherent K M chs → Forall U M → Forall (change_ok U) chs →
  coherent K' (view s predicates p M) (view_changes s predicates p chs).
Proof using HV.
  intros (Hnd & Hndc & Hco) HUM HUc. rewrite view_rows, view_changes_eq. split_and!.
  - rewrite map_map. apply (NoDup_map_inj K).
    + eapply sublist_NoDup; [exact Hnd|]. apply fmap_sublist, sublist_filter.
    + intros x y [Hpx Hx]%list_elem_of_filter [Hpy Hy]%list_elem_of_filter E. rewrite Forall_forall in HUM.
      apply (vo_key _ _ _ _ _ _ _ _ HV) in E; auto.
  - by eapply view_changes_nodup.
  - rewrite Forall_forall in Hco, HUc |- *. intros ch' (ch & Hin & Hv)%list_elem_of_omap. eapply view_change_coherent; eauto.
Qed.
End view_coherent.

Lemma view_maintains cts K U s predicates p c K' U' :
  view_of cts K U s predicates p K' U' → Maintains c (pp_colTypes p) K' U' → Maintains (view_consumer s predicates p c) cts K U.
Proof.
  intros HV Hc. split.
  - intros db M chs M' b ctx puts dels rngs Hb Hch Hco HUM HUc Hinv Hcache Hsh Hwb. simpl in *.
    pose proof (changed_view s predicates p M chs M' Hch) as Hcv.
    destruct (view_HandleRows_ok cts s predicates p (c_handle c) b ctx chs Hb (vo_shaped _ _ _ _ _ _ _ _ HV)) as (b' & Hb' & ->).
    { eapply changes_ok_impl; [|exact HUc]. apply (vo_ok _ _ _ _ _ _ _ _ HV). }
    destruct (decide (view_changes s predicates p chs = [])) as [Hnil|_].
    + exists (ctx_WriteBatch ctx), [], []. rewrite !app_nil_r. split_and!; [by destruct ctx|done..|constructor|constructor|]. intros P D HP HD.
      eapply maintains_stable; [exact Hinv| |done|done]. rewrite Hnil in Hcv. unfold changed in Hcv. simpl in Hcv. rewrite !app_nil_r in Hcv. done.
    + apply (maintains (c := c) db (view s predicates p M) (view_changes s predicates p chs)); try done; [by eapply view_coherent| |].
      * rewrite view_rows. apply Forall_map. rewrite Forall_forall in HUM |- *. intros row [Hp Hrow]%list_elem_of_filter.
        apply (vo_row _ _ _ _ _ _ _ _ HV); auto.
      * rewrite view_changes_eq. rewrite Forall_forall in HUc |- *. intros ch' (ch & Hin & Hv)%list_elem_of_omap. destruct (HUc _ Hin) as [H1 H2].
        unfold view_change, select_change in Hv. destruct ch as [[q o] n]. simpl in *.
        destruct q as [q|], o as [o|]; simpl in *;
          try (destruct (passes predicates (scan_row s q)) eqn:Eq); try (destruct (passes predicates (scan_row s o)) eqn:Eo); simplify_eq/=;
          split; simpl; intros x [= <-]; apply (vo_row _ _ _ _ _ _ _ _ HV); auto.
  - intros db M M' P D Hinv Hp HP HD. simpl in *. eapply maintains_stable; [exact Hinv| |done|done]. rewrite !view_rows. by rewrite Hp.
Qed.
End promise.
