(* ===== verification/ViewKeys.v ===== *)
(** * The keys of views

    A view takes its key from its table: the scan ([SetSchema] of
    src/push/exec/table_scan.go) and the projection ([NewPushProjection] of projection.go)
    carry the key columns of the table along, as hidden columns when the query does not
    select them. So the rows of the view are identified by their keys exactly as the rows of
    the table are. *)

From stdpp Require Import base list list_numbers strings gmap sorting.
From Stdlib Require Import ZArith Lia.
From S2P Require Import Prelude Encoding Timestamp Decimal Rows KeyEncoding RowEncoding Store WriteBatch Table LocalStore PullExec PullScan RowsBatch PushExec TableExec Views.

(** ** Keys and key columns *)

(** The rows agree, as keys do, in a column. *)
Definition same_at (row row' : Row) (i : nat) : Prop :=
  ∃ v w, row !! i = Some (Some v) ∧ row' !! i = Some (Some w) ∧ value_compare v w = Eq.

Lemma cols_compare_Eq vs ws : length vs = length ws → cols_compare value_compare vs ws = Eq ↔ Forall2 (λ v w, value_compare v w = Eq) vs ws.
Proof.
  revert ws. induction vs as [|v vs IH]; intros [|w ws] Hl; simplify_eq/=; [by split; intros|]. unfold lex. rewrite Forall2_cons, <- IH by done.
  destruct (value_compare v w); split; try done; by intros [? ?].
Qed.

Lemma cells_same row row' idxs : ∀ vs ws, cells_at row idxs = Some (map Some vs) → cells_at row' idxs = Some (map Some ws) →
  Forall2 (λ v w, value_compare v w = Eq) vs ws ↔ Forall (same_at row row') idxs.
Proof.
  unfold cells_at. induction idxs as [|i idxs IH]; intros vs ws Hv Hw; simpl in *.
  { destruct vs, ws; done. }
  apply bind_Some in Hv as (c & Hc & (cs & Hcs & Hv)%bind_Some). apply bind_Some in Hw as (d & Hd & (ds & Hds & Hw)%bind_Some).
  injection Hv as Hv. injection Hw as Hw. destruct vs as [|v vs], ws as [|w ws]; simplify_eq/=. rewrite Forall2_cons, Forall_cons, <- (IH vs ws) by done. unfold same_at. rewrite Hc, Hd.
  split; [intros [E ?]; split; [by exists v, w|done]|intros [(v' & w' & [= <-] & [= <-] & E) ?]; by split].
Qed.

Lemma row_keyb_same ti shardID pkTypes row row' : row_ok ti pkTypes row → row_ok ti pkTypes row' →
  row_keyb ti shardID row = row_keyb ti shardID row' ↔ Forall (same_at row row') (PrimaryKeyCols ti).
Proof.
  intros [[vs Hv] _] [[ws Hw] _]. unfold row_keyb. rewrite (encodeKeyFromRow_eq _ _ _ _ _ Hv), (encodeKeyFromRow_eq _ _ _ _ _ Hw). unfold row_key.
  destruct Hv as (Ht & Hcv & Hokv), Hw as (_ & Hcw & Hokw). rewrite <- (cells_same _ _ _ _ _ Hcv Hcw).
  rewrite <- cols_compare_Eq by (by rewrite <- (Forall2_length _ _ _ Hokv), <- (Forall2_length _ _ _ Hokw)).
  rewrite <- (cols_bytes_cmp pkTypes), bytes_cmp_eq by done. split; [apply app_inv_head|congruence].
Qed.

(** ** The key of a scan *)

(** The key columns of a row made from another row are exactly that row's key columns. *)
Definition carries_key (keys : list nat) (R : Row → Row → Prop) (keys' : list nat) : Prop :=
  (∀ k', k' ∈ keys' → ∃ k, k ∈ keys ∧ ∀ row out v, R row out → row !! k = Some (Some v) → out !! k' = Some (Some v)) ∧
  (∀ k, k ∈ keys → ∃ k', k' ∈ keys' ∧ ∀ row out v, R row out → row !! k = Some (Some v) → out !! k' = Some (Some v)).

Definition has_key (keys : list nat) (row : Row) : Prop := ∀ k, k ∈ keys → ∃ v, row !! k = Some (Some v).

Lemma carries_key_has keys (R : Row → Row → Prop) keys' row out : carries_key keys R keys' → R row out → has_key keys row → has_key keys' out.
Proof. intros [H1 _] HR Hk k' Hk'. destruct (H1 k' Hk') as (k & Hin & Hout). destruct (Hk k Hin) as [v Hv]. exists v. by eapply Hout. Qed.

Lemma carries_key_compose keys (R : Row → Row → Prop) keys' (R' : Row → Row → Prop) keys'' : carries_key keys R keys' → carries_key keys' R' keys'' →
  carries_key keys (λ row out, ∃ mid, R row mid ∧ R' mid out) keys''.
Proof.
  intros [Ha Hb] [Ha' Hb']. split.
  - intros k'' Hk''. destruct (Ha' k'' Hk'') as (k' & Hk' & H'). destruct (Ha k' Hk') as (k & Hk & H). exists k. split; [done|].
    intros row out v (mid & HR & HR') Hv. by eapply H', H.
  - intros k Hk. destruct (Hb k Hk) as (k' & Hk' & H). destruct (Hb' k' Hk') as (k'' & Hk'' & H'). exists k''. split; [done|].
    intros row out v (mid & HR & HR') Hv. by eapply H', H.
Qed.

Lemma carries_key_same keys (R : Row → Row → Prop) keys' row row' out out' : carries_key keys R keys' → R row out → R row' out' →
  has_key keys row → has_key keys row' → Forall (same_at out out') keys' ↔ Forall (same_at row row') keys.
Proof.
  intros [Ha Hb] HR HR' Hk Hk'. rewrite !Forall_forall. split.
  - intros Hall k Hin. destruct (Hb k Hin) as (k1 & Hin1 & H). destruct (Hk k Hin) as [v Hv], (Hk' k Hin) as [w Hw].
    destruct (Hall k1 Hin1) as (v' & w' & Hv' & Hw' & E). rewrite (H _ _ _ HR Hv) in Hv'. rewrite (H _ _ _ HR' Hw) in Hw'. simplify_eq. by exists v', w'.
  - intros Hall k1 Hin1. destruct (Ha k1 Hin1) as (k & Hin & H). destruct (Hall k Hin) as (v & w & Hv & Hw & E).
    exists v, w. split_and!; [by eapply H|by eapply H|done].
Qed.

Lemma elem_of_keyCols (cols pk : list nat) k :
  k ∈ omap (λ '(i, col), if bool_decide (col ∈ pk) then Some i else None) (imap pair cols) ↔ ∃ col, cols !! k = Some col ∧ col ∈ pk.
Proof.
  rewrite list_elem_of_omap. split.
  - intros ([i col] & Hin & Hi). case_bool_decide; [|done]. injection Hi as <-. apply elem_of_lookup_imap in Hin as (j & c & E & Hj). simplify_eq. eauto.
  - intros (col & Hk & Hpk). exists (k, col). split; [apply elem_of_lookup_imap; by exists k, col|]. by rewrite bool_decide_true.
Qed.

Lemma index_inv {A} (l : list A) i x : index l i = Ok x → l !! i = Some x.
Proof. unfold index. by destruct (l !! i); intros [= ->]. Qed.

Lemma hiddenKeyCols_ok cols ti pk : ∀ cts keys all cts' keys' all', foldM (addHiddenKeyCol cols ti) (cts, keys, all) pk = Ok (cts', keys', all') →
  Forall2 (λ c ct, ti_ColumnTypes ti !! c = Some ct) all cts →
  ∃ hidden, all' = all ++ hidden ∧ hidden = filter (λ c, c ∉ cols) pk ∧ keys' = keys ++ seq (length all) (length hidden) ∧
    Forall2 (λ c ct, ti_ColumnTypes ti !! c = Some ct) all' cts'.
Proof.
  induction pk as [|c pk IH]; intros cts keys all cts' keys' all'; cbn [foldM].
  { intros [= -> -> ->] Hl. exists []. by rewrite !app_nil_r. }
  intros Hf Hl. unfold addHiddenKeyCol at 2 in Hf. cbv beta iota in Hf. destruct (bool_decide_reflect (c ∈ cols)) as [Hc|Hc]; osimpl in Hf.
  - destruct (IH _ _ _ _ _ _ Hf Hl) as (h & -> & -> & -> & Hl'). eexists. split; [done|]. rewrite filter_cons_False by (intros Hn; by apply Hn). done.
  - destruct (index (ti_ColumnTypes ti) c) as [ct| | |] eqn:Ect; try done. apply index_inv in Ect. osimpl in Hf.
    destruct (IH _ _ _ _ _ _ Hf) as (h & -> & -> & -> & Hl'); [apply Forall2_app; [done|by repeat constructor]|].
    exists (c :: filter (λ c, c ∉ cols) pk). rewrite <- !app_assoc. rewrite filter_cons_True by done. split_and!; [done|done| |by rewrite <- !app_assoc in Hl'].
    rewrite !length_app. simpl. rewrite Nat.add_1_r, (Forall2_length _ _ _ Hl). done.
Qed.

Lemma mapM_index_types (cts : list ColumnType) cols ts : mapM_o (index cts) cols = Ok ts → Forall2 (λ c ct, cts !! c = Some ct) cols ts.
Proof.
  revert ts. induction cols as [|c cols IH]; intros ts Hm; cbn [mapM_o] in Hm; [by injection Hm as <-; constructor|].
  destruct (index cts c) as [ct| | |] eqn:Ect; try done. osimpl in Hm. destruct (mapM_o (index cts) cols) as [ts'| | |]; try done. osimpl in Hm.
  injection Hm as <-. constructor; [by apply index_inv|by apply IH].
Qed.

Lemma scan_types cols ti s : SetSchema cols ti = Ok s →
  match ps_cols s with Some all => Forall2 (λ c ct, ti_ColumnTypes ti !! c = Some ct) all (ps_colTypes s) | None => ps_colTypes s = ti_ColumnTypes ti end.
Proof.
  unfold SetSchema. destruct cols as [cols|]; [|by intros [= <-]]. destruct (mapM_o (index _) cols) as [cts| | |] eqn:Ec; try done. osimpl.
  destruct (mapM_o (columnVisible _) cols) as [vis| | |]; try done. osimpl.
  destruct (foldM _ _ _) as [[[cts' keys] all]| | |] eqn:Ef; try done. osimpl. intros [= <-]. cbn [ps_cols ps_colTypes].
  destruct (hiddenKeyCols_ok _ _ _ _ _ _ _ _ _ Ef) as (hidden & _ & _ & _ & Ht); [by apply mapM_index_types|done].
Qed.

Lemma row_cell_typed ct c : row_cell_ok ct c → cell_typed ct c.
Proof. destruct c as [v|]; [|done]. simpl. unfold row_value_ok. by destruct (Type' ct), v. Qed.

(** Every stored row can be scanned. *)
Lemma scan_row_ok cols ti s row : SetSchema cols ti = Ok s → Forall2 row_cell_ok (ti_ColumnTypes ti) row → scan_ok s row.
Proof.
  intros Hs%scan_types Hrow. unfold scan_ok. destruct (ps_cols s) as [all|]; [|done]. eapply Forall2_impl; [exact Hs|].
  intros c ct Hct. destruct (Forall2_lookup_l _ _ _ _ _ Hrow Hct) as (x & Hx & Hok). exists x. split; [done|by apply row_cell_typed].
Qed.

Lemma scan_carries_key cols ti s : SetSchema cols ti = Ok s → carries_key (PrimaryKeyCols ti) (λ row out, out = scan_row s row) (ps_keyCols s).
Proof.
  unfold SetSchema. destruct cols as [cols|]; [|intros [= <-]; split; intros k Hk; exists k; by naive_solver].
  destruct (mapM_o (index _) cols) as [cts| | |] eqn:Ec; try done. osimpl.
  destruct (mapM_o (columnVisible _) cols) as [vis| | |]; try done. osimpl.
  destruct (foldM _ _ _) as [[[cts' keys] all]| | |] eqn:Ef; try done. osimpl. intros [= <-]. cbn [ps_keyCols].
  destruct (hiddenKeyCols_ok _ _ _ _ _ _ _ _ _ Ef) as (hidden & -> & -> & -> & _); [by apply mapM_index_types|]. clear Ef Ec.
  set (hid := filter (λ c, c ∉ cols) (PrimaryKeyCols ti)).
  assert (Hout : ∀ s k c row v, (cols ++ hid) !! k = Some c → ps_cols s = Some (cols ++ hid) → row !! c = Some (Some v) →
    scan_row s row !! k = Some (Some v)).
  { intros s k c row v Hk Hs Hv. unfold scan_row. rewrite Hs, list_lookup_fmap, Hk. simpl. by rewrite Hv. }
  split.
  - intros k' [(c & Hc & Hpk)%elem_of_keyCols|[Hlo Hhi]%elem_of_seq]%elem_of_app.
    + exists c. split; [done|]. intros row out v -> Hv. eapply Hout; [|done..]. by apply lookup_app_l_Some.
    + destruct (lookup_lt_is_Some_2 hid (k' - length cols)) as [c Hc]; [lia|]. exists c.
      split; [by apply list_elem_of_lookup_2, list_elem_of_filter in Hc as [_ ?]|]. intros row out v -> Hv. eapply Hout; [|done..]. by rewrite lookup_app_r by lia.
  - intros c Hc. destruct (decide (c ∈ cols)) as [[k' Hk']%list_elem_of_lookup|Hn].
    + exists k'. split; [apply elem_of_app; left; apply elem_of_keyCols; by exists c|]. intros row out v -> Hv. eapply Hout; [|done..]. by apply lookup_app_l_Some.
    + assert (Hh : c ∈ hid) by by apply list_elem_of_filter. apply list_elem_of_lookup in Hh as [j Hj]. exists (length cols + j)%nat.
      split; [apply elem_of_app; right; apply elem_of_seq; apply lookup_lt_Some in Hj; lia|]. intros row out v -> Hv. eapply Hout; [|done..].
      rewrite lookup_app_r by lia. by replace (length cols + j - length cols)%nat with j by lia.
Qed.

(** ** The key of a projection *)

(** An expression that is a column has the value of the column. *)
Definition reads_columns (e : Expression) : Prop :=
  ∀ c ct row v x, kind e = ExprColumn c → row !! c = Some (Some v) → evalColumn e ct row = Ok x → x = Some v.

Lemma projectionOf_column projColumns col i : projectionOf projColumns col = Some i →
  ∃ e, projColumns !! i = Some e ∧ kind e = ExprColumn col.
Proof.
  unfold projectionOf. induction projColumns as [|e es IH] using rev_ind; [done|]. rewrite imap_app, foldl_app. simpl. rewrite Nat.add_0_r.
  set (acc := foldl _ None (imap pair es)) in *.
  assert (Hkeep : acc = Some i → ∃ e0, (es ++ [e]) !! i = Some e0 ∧ kind e0 = ExprColumn col).
  { intros Ha. destruct (IH Ha) as (e0 & He & Hk). exists e0. split; [by apply lookup_app_l_Some|done]. }
  destruct (kind e) as [c| | |] eqn:Ek; try done. case_eq (c =? col)%nat; [intros ->%Nat.eqb_eq|done]. intros [= <-]. exists e.
  split; [by rewrite lookup_app_r, Nat.sub_diag by done|done].
Qed.

Lemma lookup_mapMi_o {A B} (f : nat → A → outcome B) l : ∀ i ys j x, mapMi_o f i l = Ok ys → l !! j = Some x →
  ∃ y, ys !! j = Some y ∧ f (i + j)%nat x = Ok y.
Proof.
  induction l as [|a l IH]; intros i ys j x Hm Hj; [done|]. cbn [mapMi_o] in Hm. destruct (f i a) as [y| | |] eqn:Ef; try done. osimpl in Hm.
  destruct (mapMi_o f (S i) l) as [ys'| | |] eqn:Em; try done. osimpl in Hm. injection Hm as <-. destruct j as [|j]; simplify_eq/=.
  - exists y. by rewrite Nat.add_0_r.
  - destruct (IH _ _ _ _ Em Hj) as (y' & Hy & Hf). exists y'. by rewrite Nat.add_succ_r.
Qed.

(** The position in the output of a key column of the child. *)
Definition key_position (projColumns : list Expression) (invisible : list nat) (k c : nat) : Prop :=
  projectionOf projColumns c = Some k ∨ ∃ j, k = (length projColumns + j)%nat ∧ invisible !! j = Some c.

Lemma addKeyCols_ok projColumns childTypes childKeys : ∀ cts keys vis inv cts' keys' vis' inv',
  foldM (addKeyCol projColumns childTypes) (cts, keys, vis, inv) childKeys = Ok (cts', keys', vis', inv') →
  ∃ ks, keys' = keys ++ ks ∧ (∃ l, inv' = inv ++ l) ∧ Forall2 (key_position projColumns inv') ks childKeys.
Proof.
  induction childKeys as [|c childKeys IH]; intros cts keys vis inv cts' keys' vis' inv' Hf; cbn [foldM] in Hf.
  { injection Hf as -> -> -> ->. exists []. split_and!; [by rewrite app_nil_r|exists []; by rewrite app_nil_r|constructor]. }
  unfold addKeyCol at 2 in Hf. destruct (projectionOf projColumns c) as [k|] eqn:Ep.
  - osimpl in Hf. destruct (IH _ _ _ _ _ _ _ _ Hf) as (ks & -> & Hinv & Hall). exists (k :: ks). rewrite <- app_assoc.
    split_and!; [done|done|]. constructor; [by left|done].
  - destruct (index childTypes c) as [ct| | |]; try done. osimpl in Hf. destruct (IH _ _ _ _ _ _ _ _ Hf) as (ks & -> & [l ->] & Hall).
    exists ((length projColumns + length inv)%nat :: ks). rewrite <- !app_assoc. split_and!; [done|by eexists|].
    constructor; [|by rewrite <- app_assoc in Hall]. right. exists (length inv). split; [done|]. by rewrite lookup_app_r, Nat.sub_diag by done.
Qed.

Lemma keyCell_value ct row c v x : row !! c = Some (Some v) → keyCell ct row c = Ok x → x = Some v.
Proof.
  intros Hc. unfold keyCell. get_cell Hc. destruct (Type' ct); get_cell Hc; destruct v; intros E; simplify_eq/=; done.
Qed.

Lemma projection_carries_key projColumns childTypes childKeys p : NewPushProjection projColumns childTypes childKeys = Ok p → Forall reads_columns projColumns →
  carries_key childKeys (λ row out, push_projected p row = Ok out) (pp_keyCols p).
Proof.
  unfold NewPushProjection. intros Hnew Hreads. destruct (mapM_o _ projColumns) as [cts| | |]; try done. osimpl in Hnew.
  destruct (foldM _ _ _) as [[[[cts' keys] vis] inv]| | |] eqn:Ef; try done. osimpl in Hnew. injection Hnew as <-. cbn [pp_keyCols].
  destruct (addKeyCols_ok _ _ _ _ _ _ _ _ _ _ _ Ef) as (ks & -> & _ & Hall). clear Ef. rewrite app_nil_l.
  assert (Hout : ∀ k c row out v, key_position projColumns inv k c → push_projected (MkPushProjection cts' ks vis projColumns inv) row = Ok out →
    row !! c = Some (Some v) → out !! k = Some (Some v)).
  { intros k c row out v Hpos Hp Hv. unfold push_projected in Hp. cbn [pp_colTypes pp_projColumns pp_invisibleKeyColsInChild] in Hp.
    destruct (mapMi_o _ 0 projColumns) as [cells| | |] eqn:E1; try done. osimpl in Hp.
    destruct (mapMi_o _ (length projColumns) inv) as [hid| | |] eqn:E2; try done. osimpl in Hp. injection Hp as <-.
    destruct Hpos as [(e & He & Hk)%projectionOf_column|(j & -> & Hj)].
    - destruct (lookup_mapMi_o _ _ _ _ _ _ E1 He) as (y & Hy & Hf). apply lookup_app_l_Some. rewrite Hy. f_equal.
      destruct (index cts' (0 + k)) as [ct| | |]; try done. osimpl in Hf. rewrite Forall_lookup in Hreads. by eapply Hreads.
    - destruct (lookup_mapMi_o _ _ _ _ _ _ E2 Hj) as (y & Hy & Hf). apply length_mapMi_o in E1. rewrite lookup_app_r by lia.
      replace (length projColumns + j - length cells)%nat with j by lia. rewrite Hy. f_equal.
      destruct (index cts' (length projColumns + j)) as [ct| | |]; try done. osimpl in Hf. by eapply keyCell_value. }
  split.
  - intros k [i Hi]%list_elem_of_lookup. destruct (Forall2_lookup_l _ _ _ _ _ Hall Hi) as (c & Hc & Hpos). exists c. split; [by eapply list_elem_of_lookup_2|].
    intros row out v. by apply Hout.
  - intros c [i Hi]%list_elem_of_lookup. destruct (Forall2_lookup_r _ _ _ _ _ Hall Hi) as (k & Hk & Hpos). exists k. split; [by eapply list_elem_of_lookup_2|].
    intros row out v. by apply Hout.
Qed.

(** ** Views built by the executors *)

(** A view of the columns [cols] of a table, [projColumns] of them, with its own table. *)
Record built_view (ti : TableInfo) (cols : option (list nat)) (projColumns : list Expression) (s : PushScan) (p : PushProjection) (mti : TableInfo) : Prop := {
  bv_scan : SetSchema cols ti = Ok s;
  bv_projection : NewPushProjection projColumns (ps_colTypes s) (ps_keyCols s) = Ok p;
  bv_reads : Forall reads_columns projColumns;
  bv_types : ti_ColumnTypes mti = pp_colTypes p;
  bv_keys : PrimaryKeyCols mti = pp_keyCols p;
  bv_scanned : ps_colTypes s ≠ [];
  bv_projected : pp_colTypes p ≠ []
}.

Lemma addKeyCols_types projColumns childTypes childKeys : ∀ cts keys vis inv cts' keys' vis' inv',
  foldM (addKeyCol projColumns childTypes) (cts, keys, vis, inv) childKeys = Ok (cts', keys', vis', inv') →
  length cts = (length projColumns + length inv)%nat → length cts' = (length projColumns + length inv')%nat.
Proof.
  induction childKeys as [|c childKeys IH]; intros cts keys vis inv cts' keys' vis' inv' Hf Hl; cbn [foldM] in Hf; [by injection Hf as -> -> -> ->|].
  unfold addKeyCol at 2 in Hf. destruct (projectionOf projColumns c) as [k|]; [osimpl in Hf; by eapply IH|].
  destruct (index childTypes c) as [ct| | |]; try done. osimpl in Hf. eapply IH; [exact Hf|]. rewrite !length_app. simpl. lia.
Qed.

Lemma projection_is_shaped projColumns childTypes childKeys p : NewPushProjection projColumns childTypes childKeys = Ok p → projection_shaped p.
Proof.
  unfold NewPushProjection. intros Hnew. destruct (mapM_o _ projColumns) as [cts| | |] eqn:Ec; try done. osimpl in Hnew.
  destruct (foldM _ _ _) as [[[[cts' keys] vis] inv]| | |] eqn:Ef; try done. osimpl in Hnew. injection Hnew as <-.
  unfold projection_shaped. cbn. eapply addKeyCols_types; [exact Ef|]. rewrite (length_mapM_o _ _ _ Ec). simpl. lia.
Qed.

Section built.
Context (ti mti : TableInfo) (cols : option (list nat)) (projColumns : list Expression) (s : PushScan) (p : PushProjection).
Context (HV : built_view ti cols projColumns s p mti) (shardID : Z) (pkTypes mpkTypes : list ColumnType) (predicates : list Expression).

(** A row of the table that the view can be computed on. *)
Definition viewable (row : Row) : Prop :=
  row_ok ti pkTypes row ∧ decided predicates (scan_row s row) ∧
  (passes predicates (scan_row s row) = true → proj_ok p (scan_row s row) ∧ row_ok mti mpkTypes (view_row s p row)).

Lemma row_has_key row : row_ok ti pkTypes row → has_key (PrimaryKeyCols ti) row.
Proof using.
  intros [[vs (_ & Hc & _)] _] k Hk. unfold cells_at in Hc. apply mapM_Some in Hc. apply list_elem_of_lookup in Hk as [i Hi].
  destruct (Forall2_lookup_l _ _ _ _ _ Hc Hi) as (c & Hc' & Hk). apply list_lookup_fmap_Some in Hc' as (v & -> & _). by exists v.
Qed.

Lemma view_key_same row row' : viewable row → viewable row' → passes predicates (scan_row s row) = true → passes predicates (scan_row s row') = true →
  row_keyb mti shardID (view_row s p row) = row_keyb mti shardID (view_row s p row') ↔ row_keyb ti shardID row = row_keyb ti shardID row'.
Proof using HV.
  intros (Hrow & _ & Hp) (Hrow' & _ & Hp') Hpass Hpass'. destruct (Hp Hpass) as [Hproj Hout], (Hp' Hpass') as [Hproj' Hout'].
  rewrite (row_keyb_same mti shardID mpkTypes) by done. rewrite (row_keyb_same ti shardID pkTypes) by done. rewrite (bv_keys _ _ _ _ _ _ HV).
  eapply carries_key_same; [eapply carries_key_compose; [eapply scan_carries_key, (bv_scan _ _ _ _ _ _ HV)|
    eapply projection_carries_key; [apply (bv_projection _ _ _ _ _ _ HV)|apply (bv_reads _ _ _ _ _ _ HV)]]|..]; [| |by apply row_has_key..].
  - exists (scan_row s row). split; [done|]. unfold view_row, proj_row, proj_ok in *. by destruct (push_projected p (scan_row s row)).
  - exists (scan_row s row'). split; [done|]. unfold view_row, proj_row, proj_ok in *. by destruct (push_projected p (scan_row s row')).
Qed.

(** C20. A view has the key of its table, whether the query selects the key columns or they
    are carried along as hidden ones: two rows of the table give rows of the view with the
    same stored key exactly when they have the same stored key themselves. So a change of a
    table row is always a change of the one row it has in the view. *)
Theorem view_rows_keyed_by_source row row' : viewable row → viewable row' →
  passes predicates (scan_row s row) = true → passes predicates (scan_row s row') = true →
  row_keyb mti shardID (view_row s p row) = row_keyb mti shardID (view_row s p row') ↔ row_keyb ti shardID row = row_keyb ti shardID row'.
Proof using HV. apply view_key_same. Qed.

(** Such a view is one the table can maintain. *)
Lemma built_view_of (U U' : Row → Prop) : (∀ row, U row → viewable row) →
  (∀ row, U row → passes predicates (scan_row s row) = true → U' (view_row s p row)) →
  view_of (ti_ColumnTypes ti) (row_keyb ti shardID) U s predicates p (row_keyb mti shardID) U'.
Proof using HV.
  intros HU HU'. split.
  - split_and!; [|apply (bv_scanned _ _ _ _ _ _ HV)|eapply projection_is_shaped, (bv_projection _ _ _ _ _ _ HV)|apply (bv_projected _ _ _ _ _ _ HV)].
    intros Hnone. pose proof (scan_types _ _ _ (bv_scan _ _ _ _ _ _ HV)) as Ht. by rewrite Hnone in Ht.
  - intros row Hrow. destruct (HU row Hrow) as ([_ Hcells] & Hdec & Hp). split_and!; [|done|by apply Hp].
    eapply scan_row_ok; [apply (bv_scan _ _ _ _ _ _ HV)|done].
  - exact HU'.
  - intros row row' Hr Hr'. apply view_key_same; by apply HU.
Qed.
End built.
