(* ===== verification/IndexExec.v ===== *)
(** * Index executors keep their promise

    src/push/exec/index_exec.go: the index of a table, given the coherent changes of the
    table, has exactly one entry for every row. *)

From stdpp Require Import base list list_numbers strings gmap sorting.
From Stdlib Require Import ZArith Lia.
From S2P Require Import Prelude Encoding Timestamp Decimal Rows KeyEncoding RowEncoding Store WriteBatch Table LocalStore PullExec PullScan RowsBatch PushExec TableExec Views.

(** ** The rows after coherent changes *)

Lemma in_prevs (chs : list change) row : row ∈ prevs chs ↔ ∃ ch, ch ∈ chs ∧ ch.1.1 = Some row.
Proof. apply list_elem_of_omap. Qed.
Lemma in_currs (chs : list change) row : row ∈ currs chs ↔ ∃ ch, ch ∈ chs ∧ ch.1.2 = Some row.
Proof. apply list_elem_of_omap. Qed.

Section coherent_changes.
Context (K : Row → bytes) (M : list Row) (chs : list change) (Hco : coherent K M chs).

Lemma coherent_in ch : ch ∈ chs → change_coherent K M ch.
Proof using Hco. destruct Hco as (_ & _ & H). rewrite Forall_forall in H. apply H. Qed.

Lemma coherent_same ch ch' : ch ∈ chs → ch' ∈ chs → K (change_row ch) = K (change_row ch') → ch = ch'.
Proof using Hco. destruct Hco as (_ & H & _). apply (NoDup_map_eq (λ ch, K (change_row ch)) chs ch ch' H). Qed.

Lemma coherent_row x y : x ∈ M → y ∈ M → K x = K y → x = y.
Proof using Hco. destruct Hco as (H & _ & _). by apply NoDup_map_eq. Qed.

Lemma coherent_prev ch p : ch ∈ chs → ch.1.1 = Some p → p ∈ M ∧ K p = K (change_row ch).
Proof using Hco.
  intros Hin Hp. pose proof (coherent_in _ Hin) as H. unfold change_coherent, change_row in *. rewrite Hp in *.
  destruct (ch.1.2); [done|]. by split.
Qed.

Lemma prevs_nodup : NoDup (prevs chs).
Proof using Hco.
  assert (Hall : ∀ ch, ch ∈ chs → change_coherent K M ch) by apply coherent_in. destruct Hco as (_ & Hnd & _). clear Hco.
  induction chs as [|ch l IH]; simpl; [constructor|]. simpl in Hnd. apply NoDup_cons in Hnd as [Hk Hnd].
  assert (IH' : NoDup (prevs l)) by (apply IH; [intros; apply Hall; by right|done]).
  destruct (ch.1.1) as [p|] eqn:Ep; [|exact IH']. constructor; [|exact IH']. intros (ch' & Hin & Hp)%in_prevs. apply Hk.
  assert (E : ∀ c : change, c ∈ ch :: l → c.1.1 = Some p → K p = K (change_row c)).
  { intros c Hc Hp'. specialize (Hall c Hc). unfold change_coherent, change_row in *. rewrite Hp' in *. by destruct (c.1.2); [destruct Hall|]. }
  rewrite <- (E ch), (E ch') by (done || by left || by right). by apply (list_elem_of_fmap_2 (λ ch, K (change_row ch))).
Qed.

(** A row of the changed table is a row that was not changed, or the row after a change. *)
Lemma changed_elem M' row : changed M chs M' → row ∈ M' ↔ (row ∈ M ∧ row ∉ prevs chs) ∨ row ∈ currs chs.
Proof using Hco.
  intros Hch. assert (HnM : NoDup M) by (destruct Hco as (H & _ & _); by eapply NoDup_fmap_1).
  assert (Hsub : prevs chs ⊆+ M).
  { apply NoDup_submseteq; [apply prevs_nodup|]. intros x (ch & Hin & Hp)%in_prevs. by destruct (coherent_prev ch x Hin Hp). }
  apply submseteq_Permutation in Hsub as [N HN]. unfold changed in Hch. rewrite HN, (Permutation_app_comm M'), <- app_assoc in Hch.
  apply Permutation_app_inv_l in Hch. rewrite Hch, elem_of_app. rewrite HN, elem_of_app.
  rewrite HN in HnM. apply NoDup_app in HnM as (_ & Hdis & _). naive_solver.
Qed.
End coherent_changes.

(** ** The entries of an index *)

Section index.
Context {DB : Type} `{KVStore DB}.
Context (ti : TableInfo) (ii : IndexInfo) (shardID : Z) (pkTypes ixTypes : list ColumnType).

(** A row with the columns of the primary key and of the index. *)
Definition index_row_ok (row : Row) : Prop :=
  (∃ vs, pk_values ti row pkTypes vs) ∧ types_at (ti_ColumnTypes ti) (IndexCols ii) = Some ixTypes ∧
  ∃ cs, cells_at row (IndexCols ii) = Some cs ∧ Forall2 cell_ok ixTypes cs.

Definition index_pair (row : Row) : bytes * bytes :=
  match EncodeIndexKeyValue ti ii shardID row with Ok kv => kv | _ => ([], []) end.
Abbreviation index_key row := (index_pair row).1.
Abbreviation index_value row := (index_pair row).2.

Definition index_owns (k : bytes) : bool := bool_decide (EncodeTableKeyPrefix (ii_ID ii) shardID `prefix_of` k).

Lemma index_pair_ok row : index_row_ok row →
  EncodeIndexKeyValue ti ii shardID row = Ok (index_key row, index_value row) ∧ index_owns (index_key row) = true ∧ index_key row ≠ [].
Proof using Type.
  intros ([vs Hpk] & Ht & cs & Hc & Hok). unfold index_pair. rewrite (EncodeIndexKeyValue_eq ti ii shardID row pkTypes vs ixTypes cs) by done. cbn [fst snd].
  split_and!; [done|apply bool_decide_eq_true; by apply prefix_app_r|]. intros E. apply (f_equal length) in E.
  rewrite length_app, length_EncodeTableKeyPrefix in E. cbn [length] in E. lia.
Qed.

(** The key of the entry has the primary key of the row in it. *)
Lemma index_key_inj row row' : index_row_ok row → index_row_ok row' → index_key row = index_key row' →
  index_value row = index_value row' ∧ row_keyb ti shardID row = row_keyb ti shardID row'.
Proof using Type.
  intros ([vs Hpk] & Ht & cs & Hc & Hok) ([vs' Hpk'] & _ & cs' & Hc' & Hok'). unfold index_pair, row_keyb.
  rewrite (EncodeIndexKeyValue_eq ti ii shardID row pkTypes vs ixTypes cs), (EncodeIndexKeyValue_eq ti ii shardID row' pkTypes vs' ixTypes cs') by done.
  rewrite (encodeKeyFromRow_eq _ _ _ _ _ Hpk), (encodeKeyFromRow_eq _ _ _ _ _ Hpk'). cbn [fst snd]. intros E. apply app_inv_head in E.
  apply bytes_cmp_eq in E. rewrite (ordered_code (OrderedCode := cols_code cell_ok cell_bytes cell_compare ixTypes _)) in E by done.
  assert (Hv : cols_bytes key_bytes pkTypes vs = cols_bytes key_bytes pkTypes vs').
  { destruct (cols_compare cell_compare cs cs'); try done. by apply bytes_cmp_eq. }
  split; [done|]. unfold row_key. by rewrite Hv.
Qed.

Lemma index_value_key row row' : index_row_ok row → index_row_ok row' → row_keyb ti shardID row = row_keyb ti shardID row' →
  index_value row = index_value row'.
Proof using Type.
  intros ([vs Hpk] & Ht & cs & Hc & Hok) ([vs' Hpk'] & _ & cs' & Hc' & Hok'). unfold index_pair, row_keyb.
  rewrite (EncodeIndexKeyValue_eq ti ii shardID row pkTypes vs ixTypes cs), (EncodeIndexKeyValue_eq ti ii shardID row' pkTypes vs' ixTypes cs') by done.
  rewrite (encodeKeyFromRow_eq _ _ _ _ _ Hpk), (encodeKeyFromRow_eq _ _ _ _ _ Hpk'). cbn [fst snd]. unfold row_key. apply app_inv_head.
Qed.

(** The entries of the index are those of the rows. *)
Definition index_is (db : DB) (M : list Row) : Prop :=
  ∀ k, index_owns k = true →
    (∀ row, row ∈ M → index_key row = k → kv_get db k = Some (index_value row)) ∧
    ((∀ row, row ∈ M → index_key row ≠ k) → kv_get db k = None).

(** What a change does to the index. *)
Definition index_same (ch : change) : bool :=
  bool_decide ((match ch.1.1 with Some p => index_key p | None => [] end) = (match ch.1.2 with Some c => index_key c | None => [] end)).
Definition index_puts (ch : change) : list (bytes * bytes) :=
  if index_same ch then [] else match ch.1.2 with Some c => [index_pair c] | None => [] end.
Definition index_dels (ch : change) : list bytes :=
  if index_same ch then [] else match ch.1.1 with Some p => [index_key p] | None => [] end.

Lemma index_entry_ok wb puts dels rngs ch : wb_ShardID wb = shardID → change_ok index_row_ok ch → wb_rep wb puts dels rngs →
  ∃ wb', index_entry ti ii wb ch.1.1 ch.1.2 ch.2 = Ok wb' ∧ wb_ShardID wb' = shardID ∧
    wb_rep wb' (puts ++ index_puts ch) (dels ++ index_dels ch) rngs.
Proof using Type.
  intros Hsh [Hp Hc] Hwb. unfold index_entry, index_puts, index_dels, index_same. destruct ch as [[p c] n]. simpl in *. rewrite Hsh.
  assert (Hprev : match p with Some row => '(k, _) ← EncodeIndexKeyValue ti ii shardID row; Ok k | None => Ok [] end =
    Ok (match p with Some p => index_key p | None => [] end)).
  { destruct p as [p|]; [|done]. destruct (index_pair_ok p) as (-> & _); [by apply Hp|done]. }
  assert (Hcurr : match c with Some row => EncodeIndexKeyValue ti ii shardID row | None => Ok ([], []) end =
    Ok (match c with Some c => index_pair c | None => ([], []) end)).
  { destruct c as [c|]; [|done]. destruct (index_pair_ok c) as (-> & _); [by apply Hc|]. by destruct (index_pair c). }
  rewrite Hprev. osimpl. rewrite Hcurr. osimpl. destruct (match c with Some c => index_pair c | None => ([], []) end) as [ck cv] eqn:E.
  replace (match c with Some c => index_key c | None => [] end) with ck by (destruct c; [by rewrite E|by injection E]).
  case_bool_decide as Hs; [exists wb; by rewrite !app_nil_r|]. eexists. split; [done|].
  destruct p as [p|], c as [c|]; simpl; rewrite ?app_nil_r; (split; [done|]); rewrite ?E; auto with prana.
Qed.

Lemma index_entries_ok chs : ∀ wb puts dels rngs, wb_ShardID wb = shardID → Forall (change_ok index_row_ok) chs → wb_rep wb puts dels rngs →
  ∃ wb', foldM (λ st '(p, c, n), index_entry ti ii st p c n) wb chs = Ok wb' ∧ wb_ShardID wb' = shardID ∧
    wb_rep wb' (puts ++ concat (map index_puts chs)) (dels ++ concat (map index_dels chs)) rngs.
Proof using Type.
  induction chs as [|[[p c] n] chs IH]; intros wb puts dels rngs Hsh Hok Hwb; cbn [foldM].
  { exists wb. simpl. by rewrite !app_nil_r. }
  apply Forall_cons in Hok as [Hok1 Hok].
  destruct (index_entry_ok wb puts dels rngs (p, c, n) Hsh Hok1 Hwb) as (wb1 & E & Hs1 & Hw1). cbn [fst snd] in E. rewrite E. osimpl.
  destruct (IH wb1 _ _ rngs Hs1 Hok Hw1) as (wb2 & -> & Hs2 & Hw2). exists wb2. rewrite <- (app_assoc puts), <- (app_assoc dels) in Hw2.
  split; [done|]. split; [done|]. exact Hw2.
Qed.

(** ** The index after the write *)

Lemma effect_owned owns k v P D : owns k = true →
  foldl (op_effect k) v (batch_ops P D) = foldl (op_effect k) v (batch_ops (puts_of owns P) (dels_of owns D)).
Proof using.
  intros Hk. unfold batch_ops. rewrite !foldl_app.
  assert (Hp : ∀ v, foldl (op_effect k) v (map (λ kv, KVSet kv.1 kv.2) P) = foldl (op_effect k) v (map (λ kv, KVSet kv.1 kv.2) (puts_of owns P))).
  { clear v. induction P as [|[k' w] P IH]; intros v; [done|]. unfold owned in *. rewrite filter_cons. cbn [map foldl fst].
    case_decide as Hd; cbn [map foldl]; rewrite IH; [done|]. cbn [op_effect fst]. by rewrite decide_False by congruence. }
  assert (Hd : ∀ v, foldl (op_effect k) v (map KVDelete D) = foldl (op_effect k) v (map KVDelete (dels_of owns D))).
  { clear v. induction D as [|k' D IH]; intros v; [done|]. unfold owned, id in *. rewrite filter_cons. cbn [map foldl].
    case_decide as Hd; cbn [map foldl]; rewrite IH; [done|]. cbn [op_effect]. by rewrite decide_False by congruence. }
  by rewrite Hd, Hp.
Qed.

Lemma in_index_puts chs k w : (k, w) ∈ concat (map index_puts chs) ↔
  ∃ ch c, ch ∈ chs ∧ ch.1.2 = Some c ∧ index_same ch = false ∧ index_pair c = (k, w).
Proof using Type.
  induction chs as [|ch chs IH]; simpl; [split; [by intros ?%not_elem_of_nil|by intros (? & ? & ?%not_elem_of_nil & _)]|].
  rewrite elem_of_app, IH. unfold index_puts at 1. split.
  - intros [Hin|(ch' & c & Hin & ?)]; [|exists ch', c; split; [by right|done]].
    destruct (index_same ch) eqn:Es; [by apply not_elem_of_nil in Hin|]. destruct (ch.1.2) as [c|] eqn:Ec; [|by apply not_elem_of_nil in Hin].
    apply list_elem_of_singleton in Hin. exists ch, c. split; [by left|]. done.
  - intros (ch' & c & [->|Hin]%elem_of_cons & Hc & Hs & Hp); [left|right; by exists ch', c]. rewrite Hs, Hc, Hp. by left.
Qed.

Lemma in_index_dels chs k : k ∈ concat (map index_dels chs) ↔
  ∃ ch p, ch ∈ chs ∧ ch.1.1 = Some p ∧ index_same ch = false ∧ index_key p = k.
Proof using Type.
  induction chs as [|ch chs IH]; simpl; [split; [by intros ?%not_elem_of_nil|by intros (? & ? & ?%not_elem_of_nil & _)]|].
  rewrite elem_of_app, IH. unfold index_dels at 1. split.
  - intros [Hin|(ch' & c & Hin & ?)]; [|exists ch', c; split; [by right|done]].
    destruct (index_same ch) eqn:Es; [by apply not_elem_of_nil in Hin|]. destruct (ch.1.1) as [p|] eqn:Ep; [|by apply not_elem_of_nil in Hin].
    apply list_elem_of_singleton in Hin. exists ch, p. split; [by left|]. done.
  - intros (ch' & p & [->|Hin]%elem_of_cons & Hc & Hs & Hp); [left|right; by exists ch', p]. rewrite Hs, Hc, Hp. by left.
Qed.

Section written.
Context (M M' : list Row) (chs : list change).
Context (Hco : coherent (row_keyb ti shardID) M chs) (Hch : changed M chs M') (HM : Forall index_row_ok M) (Hchs : Forall (change_ok index_row_ok) chs).

Lemma index_row_prev ch p : ch ∈ chs → ch.1.1 = Some p → index_row_ok p.
Proof using Hchs. intros Hin Hp. pose proof (proj1 (Forall_forall _ _) Hchs ch Hin) as [Hr _]. exact (Hr _ Hp). Qed.
Lemma index_row_curr ch c : ch ∈ chs → ch.1.2 = Some c → index_row_ok c.
Proof using Hchs. intros Hin Hc. pose proof (proj1 (Forall_forall _ _) Hchs ch Hin) as [_ Hr]. exact (Hr _ Hc). Qed.

Lemma change_row_curr (ch : change) c : ch.1.2 = Some c → change_row ch = c.
Proof using. intros Hc. unfold change_row. by rewrite Hc. Qed.

(** The entry of a row that stays is not touched. *)
Lemma index_kept row : row ∈ M → row ∉ prevs chs →
  ((index_key row) ∉ concat (map index_dels chs)) ∧ (∀ w, (index_key row, w) ∉ concat (map index_puts chs)).
Proof using All.
  intros Hrow Hnp. rewrite Forall_forall in HM. split.
  - intros (ch & p & Hin & Hp & _ & E)%in_index_dels. destruct (coherent_prev _ _ _ Hco ch p Hin Hp) as [HpM _].
    destruct (index_key_inj p row (index_row_prev _ _ Hin Hp) (HM _ Hrow) E) as [_ HK].
    apply Hnp. rewrite <- (coherent_row _ _ _ Hco p row HpM Hrow HK). apply in_prevs. by exists ch.
  - intros w (ch & c & Hin & Hc & _ & E)%in_index_puts. apply (f_equal fst) in E. simpl in E.
    destruct (index_key_inj c row (index_row_curr _ _ Hin Hc) (HM _ Hrow) E) as [_ HK].
    pose proof (coherent_in _ _ _ Hco ch Hin) as Hcc. unfold change_coherent in Hcc. rewrite Hc in Hcc. destruct (ch.1.1) as [p|] eqn:Ep.
    + destruct Hcc as [HpM HKp]. apply Hnp. rewrite <- (coherent_row _ _ _ Hco p row HpM Hrow) by congruence. apply in_prevs. by exists ch.
    + apply Hcc. rewrite HK. by apply list_elem_of_fmap_2.
Qed.

(** The entry of a row after a change is not deleted, and is put with its own value. *)
Lemma index_new ch c : ch ∈ chs → ch.1.2 = Some c →
  ((index_key c) ∉ concat (map index_dels chs)) ∧ (∀ w, (index_key c, w) ∈ concat (map index_puts chs) → w = index_value c) ∧
  (index_same ch = false → (index_key c, index_value c) ∈ concat (map index_puts chs)).
Proof using All.
  intros Hin Hc. pose proof (index_row_curr _ _ Hin Hc) as Hok. split_and!.
  - intros (ch2 & p & Hin2 & Hp & Hs & E)%in_index_dels. destruct (coherent_prev _ _ _ Hco ch2 p Hin2 Hp) as [_ HK2].
    destruct (index_key_inj p c (index_row_prev _ _ Hin2 Hp) Hok E) as [_ HK].
    assert (ch2 = ch) as ->.
    { apply (coherent_same _ _ _ Hco); [done..|]. rewrite (change_row_curr ch c Hc). congruence. }
    unfold index_same in Hs. rewrite Hp, Hc in Hs. by apply bool_decide_eq_false in Hs.
  - intros w (ch2 & c2 & Hin2 & Hc2 & _ & E)%in_index_puts.
    destruct (index_key_inj c2 c (index_row_curr _ _ Hin2 Hc2) Hok (f_equal fst E)) as [Hv _]. rewrite <- Hv. by rewrite E.
  - intros Hs. apply in_index_puts. exists ch, c. split_and!; try done. by destruct (index_pair c).
Qed.

Lemma index_absent k : (∀ row, row ∈ M' → index_key row ≠ k) → (∀ w, (k, w) ∉ concat (map index_puts chs)) ∧
  (k ∉ concat (map index_dels chs) → ∀ row, row ∈ M → index_key row ≠ k).
Proof using All.
  intros Hno. pose proof (changed_elem _ _ _ Hco M') as Hel. split.
  - intros w (ch & c & Hin & Hc & _ & E)%in_index_puts. apply (Hno c); [|by rewrite E].
    apply Hel; [done|]. right. apply in_currs. by exists ch.
  - intros Hnd row Hrow E. destruct (decide (row ∈ prevs chs)) as [(ch & Hin & Hp)%in_prevs|Hnp]; [|apply (Hno row); [apply Hel; auto|done]].
    destruct (index_same ch) eqn:Hs; [|by apply Hnd, in_index_dels; exists ch, row].
    unfold index_same in Hs. rewrite Hp in Hs. apply bool_decide_eq_true in Hs. destruct (ch.1.2) as [c|] eqn:Hc.
    + apply (Hno c); [|congruence]. apply Hel; [done|]. right. apply in_currs. by exists ch.
    + by destruct (index_pair_ok row (index_row_prev _ _ Hin Hp)) as (_ & _ & ?).
Qed.

Lemma index_written (db : DB) P D : index_is db M →
  puts_of index_owns P = concat (map index_puts chs) → dels_of index_owns D = concat (map index_dels chs) →
  index_is (kv_apply db (batch_ops P D)) M'.
Proof using All.
  intros Hdb HP HD k Hk. destruct (Hdb k Hk) as [Hhas Hnone].
  assert (Hget : kv_get (kv_apply db (batch_ops P D)) k = if decide (k ∈ concat (map index_dels chs)) then None
      else foldl (op_effect k) (kv_get db k) (map (λ kv, KVSet kv.1 kv.2) (concat (map index_puts chs)))).
  { rewrite kv_get_apply, (effect_owned index_owns), HP, HD by done. unfold batch_ops. by rewrite foldl_app, effect_deletes. }
  rewrite Hget. split.
  - intros row Hrow <-. apply (changed_elem _ _ _ Hco) in Hrow as [[Hrow Hnp]|(ch & Hin & Hc)%in_currs]; [| |done].
    + destruct (index_kept row Hrow Hnp) as [Hd Hp]. rewrite decide_False, effect_sets_miss; [by apply Hhas|..|done].
      intros ([k' w] & E & Hin)%list_elem_of_fmap. simpl in E. subst. by apply (Hp w).
    + destruct (index_new ch row Hin Hc) as (Hd & Hput & Hnew). rewrite decide_False by done. destruct (index_same ch) eqn:Hs.
      * assert (Hstored : kv_get db (index_key row) = Some (index_value row)).
        { unfold index_same in Hs. rewrite Hc in Hs. apply bool_decide_eq_true in Hs. destruct (ch.1.1) as [p|] eqn:Ep.
          - destruct (coherent_prev _ _ _ Hco ch p Hin Ep) as [HpM _].
            destruct (index_key_inj p row (index_row_prev _ _ Hin Ep) (index_row_curr _ _ Hin Hc) Hs) as [<- _]. by apply Hhas.
          - by destruct (index_pair_ok row (index_row_curr _ _ Hin Hc)) as (_ & _ & []). }
        rewrite Hstored. destruct (decide (index_key row ∈ map fst (concat (map index_puts chs)))) as [([k' w] & E & Hin')%list_elem_of_fmap|Hm].
        -- simpl in E. subst k'. rewrite (effect_sets_hit _ w); [by rewrite (Hput w Hin')|done|]. intros w' Hw'. by rewrite (Hput w'), (Hput w).
        -- by apply effect_sets_miss.
      * apply effect_sets_hit; [by apply Hnew|done].
  - intros Hno. destruct (index_absent k Hno) as [Hnp Hold]. case_decide as Hd; [done|]. rewrite effect_sets_miss; [by apply Hnone, Hold|].
    intros ([k' w] & E & Hin)%list_elem_of_fmap. simpl in E. subst. by apply (Hnp w).
Qed.
End written.

(** ** The promise *)

Definition index_consumer : Consumer (DB := DB) := {|
  c_handle := index_HandleRows ti ii;
  c_owns := index_owns;
  c_inv := index_is
|}.

Lemma index_entries_owned chs : Forall (change_ok index_row_ok) chs →
  Forall (λ kv, index_owns kv.1 = true) (concat (map index_puts chs)) ∧ Forall (λ k, index_owns k = true) (concat (map index_dels chs)).
Proof using Type.
  intros Hchs. split; apply Forall_forall.
  - intros [k w] (ch & c & Hin & Hc & _ & E)%in_index_puts. simpl.
    destruct (index_pair_ok c (index_row_curr _ Hchs _ _ Hin Hc)) as (_ & Ho & _). by rewrite E in Ho.
  - intros k (ch & p & Hin & Hp & _ & <-)%in_index_dels. by destruct (index_pair_ok p (index_row_prev _ Hchs _ _ Hin Hp)) as (_ & Ho & _).
Qed.

Lemma index_maintains (U : Row → Prop) : (∀ row, U row → index_row_ok row) →
  Maintains shardID index_consumer (ti_ColumnTypes ti) (row_keyb ti shardID) U.
Proof using Type.
  intros HU. split.
  - intros db M chs M' b ctx puts dels rngs Hb Hch Hco HUM HUc Hinv _ Hsh Hwb.
    assert (HM : Forall index_row_ok M) by by eapply Forall_impl. apply (changes_ok_impl _ _ _ HU) in HUc.
    simpl. unfold index_HandleRows. rewrite (forEntries_eq _ _ _ Hb).
    destruct (index_entries_ok chs _ _ _ _ Hsh HUc Hwb) as (wb' & -> & Hs' & Hw'). osimpl.
    destruct (index_entries_owned chs HUc) as [Hpo Hdo].
    eexists _, _, _. split; [reflexivity|]. split_and!; [done|exact Hw'|done|done|].
    intros P D HP HD. by apply (index_written M M' chs).
  - intros db M M' P D Hinv Hp HP HD k Hk. destruct (Hinv k Hk) as [H1 H2]. simpl in HP, HD.
    rewrite kv_get_apply, (effect_owned index_owns), HP, HD by done. simpl. split.
    + intros row Hrow. apply H1. by rewrite Hp.
    + intros Hno. apply H2. intros row Hrow. apply Hno. by rewrite <- Hp.
Qed.
End index.
