(* ===== verification/RowCache.v ===== *)
(** * The row cache of a shard processor

    [Get], [Put] and [Delete] of src/push/sched/scheduler.go: a scheduler is the row cache
    of the batches it processes. A row is read from an LRU cache, or from the local replica
    once that has applied the last batch the processor wrote, or by a linearizable read.
    The cluster is the interface of src/cluster/cluster.go; what the engine relies on is
    [ClusterContract]. *)

From stdpp Require Import base list list_numbers strings gmap sorting.
From Stdlib Require Import ZArith Lia.
From S2P Require Import Prelude Encoding Timestamp Decimal Rows KeyEncoding RowEncoding Store WriteBatch Table LocalStore PullExec PullScan RowsBatch PushExec TableExec.

(** ** The cluster, as the push engine uses it *)

Class Cluster (Cl : Type) := {
  cl_GetLastPersistedBatch : Cl → Z → outcome (option bytes);
  cl_WriteBatch : Cl → WriteBatch → bool → outcome Cl;
  cl_WriteForwardBatch : Cl → WriteBatch → bool → bool → outcome Cl;
  cl_WriteBatchLocally : Cl → WriteBatch → outcome Cl;
  cl_LocalGet : Cl → bytes → outcome (option bytes);
  cl_LinearizableGet : Cl → Z → bytes → outcome (option bytes);
  cl_LocalScan : Cl → bytes → option bytes → Z → outcome (list (bytes * bytes))
}.

(** A cache of bounded size (github.com/bserdar/golang-lru): a lookup finds the value last
    added under the key, or nothing. *)
Class RowLRU (L : Type) := {
  rlru_new : Z → L;
  rlru_get : L → bytes → option bytes * L;
  rlru_add : L → bytes → bytes → Z → L;
  rlru_remove : L → bytes → L;
  rlru_get_new : ∀ n k, (rlru_get (rlru_new n) k).1 = None;
  rlru_get_get : ∀ l k k', (rlru_get (rlru_get l k).2 k').1 = (rlru_get l k').1;
  rlru_get_add : ∀ l k v n k' v', (rlru_get (rlru_add l k v n) k').1 = Some v' →
    if decide (k' = k) then v' = v else (rlru_get l k').1 = Some v';
  rlru_get_remove : ∀ l k k', (rlru_get (rlru_remove l k) k').1 = if decide (k' = k) then None else (rlru_get l k').1
}.

(** The fields of the scheduler that serve reads. *)
Record RowCache (L : Type) := MkRowCache {
  sh_shardID : Z;
  rowCache : L;
  lastBatchID : option bytes;
  lastBatchProcessed : bool
}.
Arguments MkRowCache {L}.
Arguments sh_shardID {L}.
Arguments rowCache {L}.
Arguments lastBatchID {L}.
Arguments lastBatchProcessed {L}.

Section row_cache.
Context {Cl : Type} `{Cluster Cl} {L : Type} `{RowLRU L}.

Definition NewRowCache (shardID maxRowCacheSize : Z) : RowCache L := MkRowCache shardID (rlru_new maxRowCacheSize) None false.

Definition with_lru (s : RowCache L) (l : L) : RowCache L := MkRowCache (sh_shardID s) l (lastBatchID s) (lastBatchProcessed s).

(** Whether a local read will do, and whether the last batch is now known to be applied. *)
Definition localGetAllowed (s : RowCache L) (clust : Cl) : outcome (bool * bool) :=
  match lastBatchID s with
  | None => Ok (false, lastBatchProcessed s)
  | Some id =>
      if lastBatchProcessed s then Ok (true, true)
      else
        lastBatch ← cl_GetLastPersistedBatch clust (sh_shardID s);
        if bool_decide (default [] lastBatch = id) then Ok (true, true) else Ok (false, false)
  end.

Definition rowCache_Get (s : RowCache L) (clust : Cl) (key : bytes) : outcome (option bytes * RowCache L) :=
  let '(cached, l) := rlru_get (rowCache s) key in
  match cached with
  | Some v => Ok (Some v, with_lru s l)
  | None =>
      '(localGet, processed) ← localGetAllowed s clust;
      let s := MkRowCache (sh_shardID s) l (lastBatchID s) processed in
      v ← (if localGet : bool then cl_LocalGet clust key else cl_LinearizableGet clust (sh_shardID s) key);
      Ok (v, s)
  end.

Definition stringSizeOverhead : Z := 16.
Definition byteSliceSizeOverhead : Z := 24.

Definition rowCache_Put (s : RowCache L) (key value : bytes) : RowCache L :=
  let size := Z.of_nat (length key) + Z.of_nat (length value) + stringSizeOverhead + byteSliceSizeOverhead in
  with_lru s (rlru_add (rowCache s) key value size).

Definition rowCache_Delete (s : RowCache L) (key : bytes) : RowCache L := with_lru s (rlru_remove (rowCache s) key).

(** ** What the engine relies on *)

(** Keys of user tables, of the given shard. *)
Definition UserTableIDBase : Z := 1000.
Definition user_key (shardID : Z) (k : bytes) : Prop :=
  ∃ tid rest, UserTableIDBase ≤ tid ∧ u64_ok tid ∧ k = EncodeTableKeyPrefix tid shardID ++ rest.

End row_cache.

(** Batches small enough for the 32-bit lengths in them. *)
Definition wb_small (wb : WriteBatch) : Prop := Z.of_nat (length (Puts wb)) < two32 ∧ Z.of_nat (length (Deletes wb)) < two32.

Lemma small_fits wb P D rngs : wb_rep wb P D rngs → wb_small wb → Forall kv_fits P ∧ Forall fits D.
Proof.
  intros Hrep [HP HD]. rewrite (rep_puts _ _ _ _ Hrep) in HP. rewrite (rep_deletes _ _ _ _ Hrep) in HD. clear Hrep. split.
  - induction P as [|[k v] P IH]; [constructor|]. cbn [map concat] in HP. unfold kv_bytes at 1 in HP. rewrite !length_app, !length_with_length in HP. cbn [fst snd] in HP.
    constructor; [|apply IH; lia]. split; unfold fits, u32_ok; cbn [fst snd]; lia.
  - induction D as [|k D IH]; [constructor|]. cbn [map concat] in HD. rewrite length_app, length_with_length in HD.
    constructor; [|apply IH; lia]. unfold fits, u32_ok. lia.
Qed.

(** [committed]: the replicated state of a shard, which linearizable reads see.
    [caught_up]: the local replica has applied every batch the processor wrote.
    [last_written]: the id of the last batch written. [unused]: the id is of no batch yet. *)
Class ClusterContract (Cl DB : Type) `{Cluster Cl, KVStore DB} := {
  committed : Cl → Z → DB;
  caught_up : Cl → Z → Prop;
  last_written : Cl → Z → option bytes;
  unused : Cl → bytes → Prop;
  linearizable_reads c s k v : cl_LinearizableGet c s k = Ok v → v = kv_get (committed c s) k;
  local_reads c s k v : caught_up c s → user_key s k → cl_LocalGet c k = Ok v → v = kv_get (committed c s) k;
  persisted_caught_up c s id : cl_GetLastPersistedBatch c s = Ok (Some id) → last_written c s = Some id → caught_up c s;
  batch_committed c wb localOnly id P D c' : wb_rep wb P D [] → wb_small wb → BatchID wb = Some id → unused c id →
    cl_WriteBatch c wb localOnly = Ok c' →
    committed c' (wb_ShardID wb) = kv_apply (committed c (wb_ShardID wb)) (batch_ops P D) ∧ last_written c' (wb_ShardID wb) = Some id
}.

Section coherence.
Context {Cl DB : Type} `{ClusterContract Cl DB} {L : Type} `{RowLRU L}.

(** Reads and writes of the shard succeed. *)
Definition available (c : Cl) (s : Z) : Prop :=
  (∃ id, cl_GetLastPersistedBatch c s = Ok id) ∧ (∀ k, ∃ v, cl_LocalGet c k = Ok v) ∧ (∀ k, ∃ v, cl_LinearizableGet c s k = Ok v) ∧
  ∀ wb localOnly P D id, wb_ShardID wb = s → wb_rep wb P D [] → wb_small wb → BatchID wb = Some id → unused c id →
    ∃ c', cl_WriteBatch c wb localOnly = Ok c'.

(** What is cached is committed, and the last batch is known when it is recorded. *)
Record cache_coherent (s : RowCache L) (c : Cl) : Prop := {
  cached_committed k v : (rlru_get (rowCache s) k).1 = Some v → user_key (sh_shardID s) k ∧ kv_get (committed c (sh_shardID s)) k = Some v;
  recorded_batch id : lastBatchID s = Some id → id ≠ [] ∧ last_written c (sh_shardID s) = Some id;
  processed_batch : lastBatchProcessed s = true → lastBatchID s ≠ None → caught_up c (sh_shardID s)
}.

Lemma localGetAllowed_ok s c : cache_coherent s c → available c (sh_shardID s) →
  ∃ l p, localGetAllowed s c = Ok (l, p) ∧ (l = true → caught_up c (sh_shardID s)) ∧ (p = true → lastBatchID s ≠ None → caught_up c (sh_shardID s)).
Proof.
  intros Hc (Hp & _). unfold localGetAllowed. destruct (lastBatchID s) as [id|] eqn:Ei; [|by exists false, (lastBatchProcessed s)].
  destruct (lastBatchProcessed s) eqn:Ep.
  { exists true, true. assert (caught_up c (sh_shardID s)) by (apply (processed_batch _ _ Hc); congruence). done. }
  destruct Hp as [last Hl]. rewrite Hl. osimpl. case_bool_decide as Hid; [|by exists false, false].
  destruct (recorded_batch _ _ Hc id Ei) as [Hne Hw]. exists true, true.
  assert (caught_up c (sh_shardID s)); [|done]. destruct last as [last|]; [|done]. simpl in Hid. subst last. by eapply persisted_caught_up.
Qed.

Lemma cache_coherent_lru s c l p : cache_coherent s c → (∀ k v, (rlru_get l k).1 = Some v → (rlru_get (rowCache s) k).1 = Some v) →
  (p = true → lastBatchID s ≠ None → caught_up c (sh_shardID s)) → cache_coherent (MkRowCache (sh_shardID s) l (lastBatchID s) p) c.
Proof.
  intros [Hcached Hid Hproc] Hl Hp. split; simpl; [|done|done]. intros k v Hk. by apply Hcached, Hl.
Qed.

(** Every read of a user table's key sees the committed state. *)
Lemma rowCache_Get_ok s c k : cache_coherent s c → available c (sh_shardID s) → user_key (sh_shardID s) k →
  ∃ s', rowCache_Get s c k = Ok (kv_get (committed c (sh_shardID s)) k, s') ∧ cache_coherent s' c.
Proof.
  intros Hc Ha Hk. unfold rowCache_Get. destruct (rlru_get (rowCache s) k) as [cached l] eqn:El.
  assert (Hl : ∀ k v, (rlru_get l k).1 = Some v → (rlru_get (rowCache s) k).1 = Some v).
  { intros k' v. pose proof (rlru_get_get (rowCache s) k k') as E. rewrite El in E. simpl in E. by rewrite E. }
  destruct cached as [v|].
  - destruct (cached_committed _ _ Hc k v) as [_ ->]; [by rewrite El|]. eexists. split; [done|].
    apply cache_coherent_lru; [done..|]. apply (processed_batch _ _ Hc).
  - destruct (localGetAllowed_ok s c Hc Ha) as (lg & p & -> & Hlg & Hp). osimpl. simpl. destruct Ha as (_ & Hlocal & Hlin & _).
    assert (Hread : (if lg then cl_LocalGet c k else cl_LinearizableGet c (sh_shardID s) k) = Ok (kv_get (committed c (sh_shardID s)) k)).
    { destruct lg.
      - destruct (Hlocal k) as [v Hv]. rewrite Hv. f_equal. eapply local_reads; eauto.
      - destruct (Hlin k) as [v Hv]. rewrite Hv. f_equal. by eapply linearizable_reads. }
    rewrite Hread. osimpl. eexists. split; [done|]. by apply cache_coherent_lru.
Qed.
End coherence.
