(* ===== verification/Engine.v ===== *)
(** * Processing batches of received rows

    [HandleBatch], [loadReceivedRows] and [processReceiveBatch] of src/push/engine.go,
    [SendForwardBatches] of src/push/util/util.go and [processBatch] of
    src/push/sched/scheduler.go: the rows a shard has received are handed to the entities
    they are for, and what these write, the removal of the received rows included, is
    committed as one batch. *)

From stdpp Require Import base list list_numbers strings gmap sorting.
From Stdlib Require Import ZArith Lia.
From S2P Require Import Prelude Encoding Timestamp Decimal Rows KeyEncoding RowEncoding Store WriteBatch Table LocalStore ShardSM PullExec PullScan RowsBatch PushExec TableExec Views RowCache.

Record RemoteConsumer := MkRemoteConsumer {
  rcn_ColTypes : list ColumnType;
  rcn_RowsHandler : Handler
}.

Record RawRow := MkRawRow {
  rr_ReceiverSequence : Z;
  rr_Row : bytes
}.

(** [en_rangeOrder]: the order in which [range] visits the keys of a map, which the
    language leaves open. [en_beforeLocalCommit] is the failpoint of that name, and
    [en_loadSinkPersistentState] the loading of the states of the sinks of a shard. *)
Record Engine := MkEngine {
  en_remoteConsumers : gmap Z RemoteConsumer;
  en_rangeOrder : gmap Z (list RawRow) → list Z;
  en_beforeLocalCommit : outcome unit;
  en_loadSinkPersistentState : Z → outcome unit
}.

(** ** The rows of an entity *)

(** A row of the pair in a received row, if its length is not 0. *)
Definition decodeReceived (colTypes : list ColumnType) (len : Z) (rowBytes : outcome bytes) (rows : Rows) (rc : Z) :
    outcome (Rows * Z * Z) :=
  if len =? 0 then Ok (rows, -1, rc)
  else
    b ← rowBytes;
    rows ← DecodeRow b colTypes rows;
    Ok (rows, rc, rc + 1).

Definition decodeRawRow (colTypes : list ColumnType) (st : Rows * Z * list RowsEntry) (row : RawRow) : outcome (Rows * Z * list RowsEntry) :=
  let '(rows, rc, entries) := st in
  '(lpvb, _) ← ReadUint32FromBufferLE (rr_Row row) 0;
  '(rows, pi, rc) ← decodeReceived colTypes lpvb (slice (rr_Row row) 4 (Z.to_nat (u32 (4 + lpvb)))) rows rc;
  '(lcvb, _) ← ReadUint32FromBufferLE (rr_Row row) (Z.to_nat (u32 (4 + lpvb)));
  '(rows, ci, rc) ← decodeReceived colTypes lcvb (slice_from (rr_Row row) (Z.to_nat (u32 (8 + lpvb)))) rows rc;
  Ok (rows, rc, entries ++ [NewRowsEntry pi ci (i64 (rr_ReceiverSequence row))]).

Definition decodeRawRows (colTypes : list ColumnType) (rawRows : list RawRow) : outcome RowsBatch :=
  '(rows, _, entries) ← foldM (decodeRawRow colTypes) (NewRows colTypes, 0, []) rawRows;
  Ok (NewRowsBatch rows entries).

(** The loop over the entities: [None] is the return on an entity that is not known. *)
Fixpoint processEntities (remoteConsumers : gmap Z RemoteConsumer) (groups : list (Z * list RawRow)) (ctx : ExecutionContext) :
    outcome (bool * ExecutionContext) :=
  match groups with
  | [] => Ok (true, ctx)
  | (entityID, rawRows) :: rest =>
      match remoteConsumers !! entityID with
      | None => Ok (false, ctx)
      | Some remoteConsumer =>
          rowsBatch ← decodeRawRows (rcn_ColTypes remoteConsumer) rawRows;
          ctx ← rcn_RowsHandler remoteConsumer rowsBatch ctx;
          processEntities remoteConsumers rest ctx
      end
  end.

(** Received rows by entity, in the order they came. *)
Definition addRawRow (rawRows : gmap Z (list RawRow)) (entityID : Z) (row : RawRow) : gmap Z (list RawRow) :=
  <[entityID := default [] (rawRows !! entityID) ++ [row]]> rawRows.

Section engine.
Context {Cl : Type} `{Cluster Cl} {L : Type} `{RowLRU L}.

(** The state of the processing of a shard: the cluster, the row cache, and the sequences
    of captured changes. *)
Record ShardProcessor := MkShardProcessor {
  sp_cluster : Cl;
  sp_cache : RowCache L;
  sp_lastSequences : gmap (Z * Z) Z
}.

(** Every batch is sent; the first error, in the order of the batches, is returned. *)
Definition SendForwardBatches (forwardBatches : list WriteBatch) (clust : Cl) (direct fill : bool) : outcome Cl :=
  foldM (λ clust b, cl_WriteForwardBatch clust b direct fill) clust forwardBatches.

(** The row cache gets what was written, but for the received rows. *)
Definition cacheWritten (wb : WriteBatch) (cache : RowCache L) : outcome (RowCache L) :=
  cache ← ForEachPut wb (λ cache k v, Ok (rowCache_Put cache k v)) cache;
  ForEachDelete wb (λ cache k,
    '(tableID, _) ← ReadUint64FromBufferBE k 8;
    Ok (if tableID =? ReceiverTableID then cache else rowCache_Delete cache k)) cache.

(** [uid]: the random id of the batch. The result has the batch, with its id if it was
    written. *)
Definition processReceiveBatch (p : Engine) (st : ShardProcessor) (ctx : ExecutionContext) (rawRows : gmap Z (list RawRow)) (uid : bytes) :
    outcome (ShardProcessor * WriteBatch) :=
  let groups := map (λ entityID, (entityID, default [] (rawRows !! entityID))) (en_rangeOrder p rawRows) in
  '(known, ctx) ← processEntities (en_remoteConsumers p) groups ctx;
  clust ← foldM cl_WriteBatchLocally (sp_cluster st) (ctx_LocalWrites ctx);
  if negb known then Ok (MkShardProcessor clust (sp_cache st) (ctx_LastSequences ctx), ctx_WriteBatch ctx)
  else
    clust ← SendForwardBatches (map_to_list (ctx_RemoteBatches ctx)).*2 clust true false;
    _ ← en_beforeLocalCommit p;
    if HasWrites (ctx_WriteBatch ctx) then
      wb ← SetBatchID (ctx_WriteBatch ctx) uid;
      clust ← cl_WriteBatch clust wb true;
      cache ← cacheWritten wb (sp_cache st);
      Ok (MkShardProcessor clust cache (ctx_LastSequences ctx), wb)
    else Ok (MkShardProcessor clust (sp_cache st) (ctx_LastSequences ctx), ctx_WriteBatch ctx).

(** One pair of the receiver table. *)
Definition loadPair (acc : gmap Z (list RawRow) * WriteBatch * Z) (kvPair : bytes * bytes) : outcome (gmap Z (list RawRow) * WriteBatch * Z) :=
  let '(rawRows, wb, _) := acc in
  '(receiverSequence, _) ← ReadUint64FromBufferBE kvPair.1 16;
  '(remoteConsumerID, _) ← ReadUint64FromBufferBE kvPair.1 24;
  Ok (addRawRow rawRows remoteConsumerID (MkRawRow receiverSequence kvPair.2), AddDelete wb kvPair.1, receiverSequence).

Definition loadReceivedRows (p : Engine) (st : ShardProcessor) (ctx : ExecutionContext) (uid : bytes) : outcome (ShardProcessor * WriteBatch * Z) :=
  let receivingShardID := wb_ShardID (ctx_WriteBatch ctx) in
  kvPairs ← cl_LocalScan (sp_cluster st) (EncodeTableKeyPrefix ReceiverTableID receivingShardID)
    (Some (EncodeTableKeyPrefix (ReceiverTableID + 1) receivingShardID)) (-1);
  match kvPairs with
  | [] => Ok (st, ctx_WriteBatch ctx, -1)
  | _ =>
      '(rawRows, wb, receiverSequence) ← foldM loadPair (∅, ctx_WriteBatch ctx, 0) kvPairs;
      '(st, wb) ← processReceiveBatch p st (with_WriteBatch ctx wb) rawRows uid;
      Ok (st, wb, i64 receiverSequence)
  end.

(** The read side of the row cache during a batch: a read changes what will be evicted and
    may find the last batch applied, neither of which changes what a later read returns. *)
Definition cacheReads (st : ShardProcessor) (k : bytes) : outcome (option bytes) :=
  '(v, _) ← rowCache_Get (sp_cache st) (sp_cluster st) k; Ok v.

Definition receiveRow (acc : gmap Z (list RawRow) * WriteBatch) (row : ForwardRow) : gmap Z (list RawRow) * WriteBatch :=
  (addRawRow acc.1 (RemoteConsumerID row) (MkRawRow (ReceiverSequence row) (RowBytes row)), AddDelete acc.2 (KeyBytes row)).

Definition HandleBatch (p : Engine) (st : ShardProcessor) (writeBatch : WriteBatch) (rowsBatch : list ForwardRow) (first : bool) (uid : bytes) :
    outcome (ShardProcessor * WriteBatch * Z) :=
  let ctx := NewExecutionContext writeBatch (cacheReads st) (-1) (sp_lastSequences st) in
  if first then
    '(st, wb, loaded) ← loadReceivedRows p st ctx uid;
    _ ← en_loadSinkPersistentState p (wb_ShardID writeBatch);
    Ok (st, wb, loaded)
  else
    let '(rawRows, wb) := foldl receiveRow (∅, writeBatch) rowsBatch in
    '(st, wb) ← processReceiveBatch p st (with_WriteBatch ctx wb) rawRows uid;
    match last rowsBatch with
    | None => Panic "index out of range [-1]"
    | Some row => Ok (st, wb, i64 (ReceiverSequence row))
    end.

(** The scheduler's side: the last sequence, and the id of the batch if one was written. *)
Definition runBatch (p : Engine) (st : ShardProcessor) (rowsToProcess : list ForwardRow) (first : bool) (uid : bytes) : outcome (ShardProcessor * Z) :=
  let writeBatch := NewWriteBatch (sh_shardID (sp_cache st)) in
  '(st, wb, lastSequence) ← HandleBatch p st writeBatch rowsToProcess first uid;
  let cache := sp_cache st in
  let cache := match BatchID wb with
               | Some id => MkRowCache (sh_shardID cache) (rowCache cache) (Some id) false
               | None => cache
               end in
  Ok (MkShardProcessor (sp_cluster st) cache (sp_lastSequences st), lastSequence).
End engine.
Arguments ShardProcessor : clear implicits.

(** ** Decoding received rows *)

Definition option_bytes (cts : list ColumnType) (row : option Row) : bytes :=
  match row with Some row => cols_bytes row_cell_bytes cts row | None => [] end.

(** The received row carries the change. *)
Definition received (cts : list ColumnType) (raw : RawRow) (ch : change) : Prop :=
  rr_Row raw = EncodePrevAndCurrentRow (option_bytes cts ch.1.1) (option_bytes cts ch.1.2) ∧
  change_ok (Forall2 row_cell_ok cts) ch ∧ Z.of_nat (length (rr_Row raw)) < two32 ∧ ch.2 = i64 (rr_ReceiverSequence raw).

Lemma option_bytes_nil cts row : cts ≠ [] → (∀ x, row = Some x → Forall2 row_cell_ok cts x) → option_bytes cts row = [] → row = None.
Proof.
  intros Hne Hok E. destruct row as [row|]; [|done]. specialize (Hok row eq_refl). destruct Hok as [|ct c cts' row' _ _]; [done|].
  simpl in E. by destruct c.
Qed.

Lemma EncodePrevAndCurrentRow_eq p c : EncodePrevAndCurrentRow p c = with_length p ++ with_length c.
Proof. unfold EncodePrevAndCurrentRow, with_length. rewrite !AppendUint32ToBufferLE_eq, <- !app_assoc. done. Qed.

Lemma decodeReceived_ok cts rows rc es chs row rws : cts ≠ [] → columnTypes rows = cts → rows_rep rows rws → rc = Z.of_nat (length rws) →
  Forall2 (entry_rep rws) es chs → (∀ x, row = Some x → Forall2 row_cell_ok cts x) →
  ∃ rows' i, decodeReceived cts (Z.of_nat (length (option_bytes cts row))) (Ok (option_bytes cts row)) rows rc =
      Ok (rows', i, Z.of_nat (length (rws ++ option_list row))) ∧ columnTypes rows' = cts ∧ rows_rep rows' (rws ++ option_list row) ∧
    Forall2 (entry_rep (rws ++ option_list row)) es chs ∧ index_rep (rws ++ option_list row) i row.
Proof.
  intros Hne Hc Hr -> Hes Hok. unfold decodeReceived. destruct (Z.eqb_spec (Z.of_nat (length (option_bytes cts row))) 0) as [E|E].
  - assert (row = None) as ->. { apply (option_bytes_nil cts); [done..|]. apply length_zero_iff_nil. lia. }
    exists rows, (-1). simpl. by rewrite app_nil_r.
  - destruct row as [row|]; [|done]. specialize (Hok row eq_refl). osimpl. unfold option_bytes, DecodeRow.
    destruct (DecodeRowWithIgnoredCols_ok cts row [] None (replicate (length row) true) rows rws) as (r' & Ed & Hc' & Hr');
      rewrite ?selected_all, ?length_replicate; try done; try (rewrite Hc); try (by apply Forall2_length in Hok).
    + intros j b Hj. by apply lookup_replicate in Hj as [-> _].
    + rewrite app_nil_r in Ed. rewrite Ed. osimpl. rewrite selected_all in Hr'. exists r', (Z.of_nat (length rws)). simpl.
      split_and!; [by rewrite length_app; simpl; do 2 f_equal; lia|congruence|done|by apply entries_rep_app|lia|].
      by rewrite Nat2Z.id, lookup_app_r, Nat.sub_diag by done.
Qed.

Lemma received_parts pb cb (raw := EncodePrevAndCurrentRow pb cb) (lp := Z.of_nat (length pb)) (lc := Z.of_nat (length cb)) :
  Z.of_nat (length raw) < two32 →
  ReadUint32FromBufferLE raw 0 = Ok (lp, 4%nat) ∧ slice raw 4 (Z.to_nat (u32 (4 + lp))) = Ok pb ∧
  ReadUint32FromBufferLE raw (Z.to_nat (u32 (4 + lp))) = Ok (lc, (Z.to_nat (4 + lp) + 4)%nat) ∧
  slice_from raw (Z.to_nat (u32 (8 + lp))) = Ok cb.
Proof.
  intros Hlen. subst raw. rewrite EncodePrevAndCurrentRow_eq in *. rewrite length_app, !length_with_length in Hlen.
  unfold with_length, u32. fold lp lc. rewrite !Z.mod_small by lia. rewrite <- !app_assoc. split_and!.
  - apply (ReadUint32LE_app []); [done|]. unfold u32_ok. lia.
  - apply slice_app; rewrite length_le_bytes; lia.
  - rewrite (app_assoc _ pb). rewrite (ReadUint32LE_app (le_bytes 4 lp ++ pb)); [done|rewrite length_app, length_le_bytes; lia|unfold u32_ok; lia].
  - rewrite slice_from_ok by (rewrite !length_app, !length_le_bytes; lia). f_equal.
    rewrite (app_assoc _ pb), (app_assoc _ (le_bytes 4 lc)). apply drop_app_length'. rewrite !length_app, !length_le_bytes. lia.
Qed.

Lemma decodeRawRow_ok cts rows rc es chs raw ch : cts ≠ [] → parts_rep cts rows rc es chs → received cts raw ch →
  ∃ rows' rc' es', decodeRawRow cts (rows, rc, es) raw = Ok (rows', rc', es') ∧ parts_rep cts rows' rc' es' (chs ++ [ch]).
Proof.
  intros Hne (rws & Hc & Hr & Hrc & Hes) (Hraw & [Hp Hcu] & Hlen & Hseq). unfold decodeRawRow.
  destruct ch as [[p c] n]. simpl in Hraw, Hp, Hcu, Hseq. rewrite Hraw in *.
  destruct (received_parts _ _ Hlen) as (E1 & E2 & E3 & E4). rewrite E1. osimpl. rewrite E2.
  destruct (decodeReceived_ok cts rows rc es chs p rws) as (r1 & i & -> & Hc1 & Hr1 & Hes1 & Hi); [done..|]. osimpl. rewrite E3. osimpl. rewrite E4.
  destruct (decodeReceived_ok cts r1 _ es chs c _ Hne Hc1 Hr1 eq_refl Hes1 Hcu) as (r2 & j & -> & Hc2 & Hr2 & Hes2 & Hj). osimpl.
  do 3 eexists. split; [done|]. exists ((rws ++ option_list p) ++ option_list c). split_and!; [done..|].
  apply Forall2_app; [done|]. constructor; [|constructor]. split_and!; [by apply index_rep_app|done|done].
Qed.

Lemma decodeRawRows_ok cts raws chs : cts ≠ [] → Forall2 (received cts) raws chs →
  ∃ b, decodeRawRows cts raws = Ok b ∧ batch_rep cts b chs.
Proof.
  intros Hne Hall. unfold decodeRawRows.
  assert (Hgen : ∀ rows rc es pre, parts_rep cts rows rc es pre →
    ∃ rows' rc' es', foldM (decodeRawRow cts) (rows, rc, es) raws = Ok (rows', rc', es') ∧ parts_rep cts rows' rc' es' (pre ++ chs)).
  { induction Hall as [|raw ch raws chs Hraw Hall IH]; intros rows rc es pre Hpre; cbn [foldM].
    { exists rows, rc, es. by rewrite app_nil_r. }
    destruct (decodeRawRow_ok cts rows rc es pre raw ch Hne Hpre Hraw) as (r1 & rc1 & es1 & -> & H1). osimpl.
    destruct (IH r1 rc1 es1 _ H1) as (r2 & rc2 & es2 & -> & H2). rewrite <- app_assoc in H2. by exists r2, rc2, es2. }
  destruct (Hgen (NewRows cts) 0 [] []) as (r & rc & es & -> & Hparts).
  { exists []. split_and!; [done|apply NewRows_rep|done|constructor]. }
  osimpl. eexists. split; [done|]. by eapply parts_batch_rep.
Qed.
