(* ===== verification/EngineProps.v ===== *)
(** * A batch of received rows is committed whole

    The contract of an entity that receives rows ([HandlesRows]), the entities of a batch
    in whatever order they are visited, the row cache after the batch is written, and what
    [runBatch] of [Engine] does: every entity of the batch has handled its rows, the rows
    are gone from the receiver table, nothing else has changed, and the row cache is still
    right. *)

From stdpp Require Import base list list_numbers strings gmap sorting.
From Stdlib Require Import ZArith Lia.
From S2P Require Import Prelude Encoding Timestamp Decimal Rows KeyEncoding RowEncoding Store WriteBatch Table LocalStore ShardSM PullExec PullScan RowsBatch PushExec TableExec Views IndexExec RowCache Engine.

Section entities.
Context {DB : Type} `{KVStore DB}.
Context (shardID : Z).

(** An entity in a given state: its handler, the keys it writes, what holds of the store,
    the changes it can be given, and what holds of the store after them. *)
Record Entity := MkEntity {
  e_consumer : RemoteConsumer;
  e_owns : bytes → bool;
  e_pre : DB → Prop;
  e_accepts : list change → Prop;
  e_post : list change → DB → Prop
}.

Class HandlesRows (e : Entity) : Prop := {
  handles_types : rcn_ColTypes (e_consumer e) ≠ [];
  handles (db : DB) chs b ctx puts dels rngs :
    batch_rep (rcn_ColTypes (e_consumer e)) b chs → e_accepts e chs → e_pre e db →
    (∀ k, e_owns e k = true → ctx_RowCache ctx k = Ok (kv_get db k)) →
    wb_ShardID (ctx_WriteBatch ctx) = shardID → wb_rep (ctx_WriteBatch ctx) puts dels rngs →
    ∃ wb puts' dels', rcn_RowsHandler (e_consumer e) b ctx = Ok (with_WriteBatch ctx wb) ∧
      wb_ShardID wb = shardID ∧ wb_rep wb (puts ++ puts') (dels ++ dels') rngs ∧
      Forall (λ kv, e_owns e kv.1 = true) puts' ∧ Forall (λ k, e_owns e k = true) dels' ∧
      ∀ P D, puts_of (e_owns e) P = puts' → dels_of (e_owns e) D = dels' → e_post e chs (kv_apply db (batch_ops P D))
}.

(** ** The entities of a batch *)

Context (ent : Z → Entity) (chs : Z → list change).

Definition any_owns (ids : list Z) (k : bytes) : bool := existsb (λ id, e_owns (ent id) k) ids.

Lemma any_owns_true ids k : any_owns ids k = true ↔ ∃ id, id ∈ ids ∧ e_owns (ent id) k = true.
Proof using Type.
  unfold any_owns. rewrite existsb_exists. split; intros (id & Hin & Hk); exists id; (split; [|done]); by apply list_elem_of_In.
Qed.

Definition separate_entities (ids : list Z) : Prop :=
  ∀ i j, i ∈ ids → j ∈ ids → i ≠ j → disjoint_owners (e_owns (ent i)) (e_owns (ent j)).

Lemma processEntities_ok consumers ids (raws : Z → list RawRow) (db : DB) : NoDup ids → separate_entities ids →
  Forall (λ id, consumers !! id = Some (e_consumer (ent id)) ∧ HandlesRows (ent id) ∧ e_accepts (ent id) (chs id) ∧ e_pre (ent id) db ∧
    Forall2 (received (rcn_ColTypes (e_consumer (ent id)))) (raws id) (chs id)) ids →
  ∀ ctx puts dels rngs, (∀ k, any_owns ids k = true → ctx_RowCache ctx k = Ok (kv_get db k)) →
  wb_ShardID (ctx_WriteBatch ctx) = shardID → wb_rep (ctx_WriteBatch ctx) puts dels rngs →
  ∃ wb puts' dels', processEntities consumers (map (λ id, (id, raws id)) ids) ctx = Ok (true, with_WriteBatch ctx wb) ∧
    wb_ShardID wb = shardID ∧ wb_rep wb (puts ++ puts') (dels ++ dels') rngs ∧
    Forall (λ kv, any_owns ids kv.1 = true) puts' ∧ Forall (λ k, any_owns ids k = true) dels' ∧
    ∀ P D, puts_of (any_owns ids) P = puts' → dels_of (any_owns ids) D = dels' →
      Forall (λ id, e_post (ent id) (chs id) (kv_apply db (batch_ops P D))) ids.
Proof using Type.
  intros Hnd Hsep Hall. induction Hall as [|e0 ids (Hc & He & Hacc & Hpre & Hraw) Hall IH]; intros ctx puts dels rngs Hcache Hsh Hwb.
  { exists (ctx_WriteBatch ctx), [], []. rewrite !app_nil_r. split_and!; try done; [by destruct ctx|constructor..]. }
  apply NoDup_cons in Hnd as [Hid Hnd].
  assert (Hdis : disjoint_owners (e_owns (ent e0)) (any_owns ids)).
  { intros k Hk (j & Hj & Hkj)%any_owns_true. apply (Hsep e0 j) with k; [by left|by right|by intros ->|done|done]. }
  cbn [map processEntities]. rewrite Hc. destruct (decodeRawRows_ok _ _ _ (handles_types (e := ent e0)) Hraw) as (b & -> & Hb). osimpl.
  destruct (handles (e := ent e0) db (chs e0) b ctx puts dels rngs) as (wb1 & p1 & d1 & -> & Hs1 & Hw1 & Hp1 & Hd1 & Hpost1); try done.
  { intros k Hk. apply Hcache. simpl. by rewrite Hk. }
  osimpl. destruct (IH Hnd) with (ctx := with_WriteBatch ctx wb1) (puts := puts ++ p1) (dels := dels ++ d1) (rngs := rngs)
    as (wb2 & p2 & d2 & -> & Hs2 & Hw2 & Hp2 & Hd2 & Hpost2); try done.
  { intros i j Hi Hj. apply Hsep; by right. }
  { intros k Hk. apply Hcache. simpl. by rewrite Hk, orb_true_r. }
  exists wb2, (p1 ++ p2), (d1 ++ d2). rewrite <- (app_assoc puts), <- (app_assoc dels) in Hw2. split_and!; [done..| | |].
  - apply Forall_app. split; (eapply Forall_impl; [eassumption|]); intros kv Hk; simpl in *; rewrite Hk; by rewrite ?orb_true_r.
  - apply Forall_app. split; (eapply Forall_impl; [eassumption|]); intros kv Hk; simpl in *; rewrite Hk; by rewrite ?orb_true_r.
  - intros P D HP HD. destruct (owned_part fst _ _ _ _ _ HP Hdis Hp1 Hp2) as [HP1 HP2].
    destruct (owned_part id _ _ _ _ _ HD Hdis Hd1 Hd2) as [HD1 HD2]. constructor; auto.
Qed.
End entities.

(** ** A source in a given state is an entity *)

Section sources.
Context {DB : Type} `{KVStore DB}.
Context (shardID : Z).

(** A table with its consumers, as the engine knows it. *)
Definition table_remote (t : TableExecutor) (cs : list (Consumer (DB := DB))) : RemoteConsumer :=
  MkRemoteConsumer (ti_ColumnTypes (te_TableInfo t)) (table_HandleRows t (map c_handle cs)).

Definition source_entity (t : TableExecutor) (pkTypes : list ColumnType) (U : Row → Prop) (cs : list (Consumer (DB := DB))) (T : gmap bytes Row) : Entity :=
  let ti := te_TableInfo t in {|
  e_consumer := table_remote t cs;
  e_owns := λ k, table_owns shardID ti k || all_own cs k;
  e_pre := λ db, table_invs shardID ti pkTypes cs db T;
  e_accepts := λ chs, NoDup (map (change_upd ti shardID) chs).*1 ∧ Forall (writes_ok ti shardID pkTypes T) chs ∧ Forall U (currs chs);
  e_post := λ chs db, table_invs shardID ti pkTypes cs db (foldl apply_upd T (map (change_upd ti shardID) chs))
|}.

Lemma source_handles t pkTypes U cs T (ti := te_TableInfo t) : ti_ColumnTypes ti ≠ [] → table_storing t →
  Forall (λ c, Maintains shardID c (ti_ColumnTypes ti) (row_keyb ti shardID) U) cs → separate cs → disjoint_owners (table_owns shardID ti) (all_own cs) →
  Forall U (table_rows T) → HandlesRows shardID (source_entity t pkTypes U cs T).
Proof.
  intros Hne (Htr & Hf & Hto) Hcs Hsep Hown HU. split; [done|].
  intros db chs b ctx puts dels rngs Hb (Hnd & Hok & HUc) Hpre Hcache Hsh Hwb. simpl in *.
  by apply (table_HandleRows_ok shardID t ti pkTypes U cs eq_refl Htr Hf Hto Hcs Hsep Hown db T chs b ctx puts dels rngs).
Qed.
End sources.

(** ** Received rows by entity *)

Definition raw_of (row : ForwardRow) : RawRow := MkRawRow (ReceiverSequence row) (RowBytes row).
Definition rows_for (rows : list ForwardRow) (e : Z) : list RawRow := map raw_of (filter (λ row, RemoteConsumerID row = e) rows).

Lemma receiveRows_ok rows : ∀ m wb puts dels rngs, wb_rep wb puts dels rngs →
  let '(m', wb') := foldl receiveRow (m, wb) rows in
  (∀ e, default [] (m' !! e) = default [] (m !! e) ++ rows_for rows e) ∧
  (∀ e, is_Some (m' !! e) ↔ is_Some (m !! e) ∨ e ∈ map RemoteConsumerID rows) ∧
  wb_rep wb' puts (dels ++ map KeyBytes rows) rngs ∧ wb_ShardID wb' = wb_ShardID wb.
Proof.
  induction rows as [|row rows IH]; intros m wb puts dels rngs Hwb; cbn [foldl map].
  { split_and!; [intros e; by rewrite app_nil_r|intros e; rewrite elem_of_nil; tauto|by rewrite app_nil_r|done]. }
  specialize (IH (addRawRow m (RemoteConsumerID row) (raw_of row)) (AddDelete wb (KeyBytes row)) puts (dels ++ [KeyBytes row]) rngs (AddDelete_rep _ _ _ _ _ Hwb)).
  unfold receiveRow at 2. cbn [fst snd]. fold (raw_of row). destruct (foldl receiveRow _ rows) as [m' wb'].
  destruct IH as (Hrows & Hdom & Hwb' & Hsh). split_and!; [| |by rewrite <- app_assoc in Hwb'|done].
  - intros e. rewrite Hrows. unfold addRawRow, rows_for. rewrite filter_cons. case_decide as He.
    + subst e. rewrite lookup_insert_eq. simpl. by rewrite <- app_assoc.
    + by rewrite lookup_insert_ne.
  - intros e. rewrite Hdom, elem_of_cons. unfold addRawRow. destruct (decide (RemoteConsumerID row = e)) as [<-|He].
    + rewrite lookup_insert_eq. split; [by auto|]. intros _. left. by eexists.
    + rewrite lookup_insert_ne by done. split; [intros [?|?]; auto|intros [?|[?|?]]; auto; congruence].
Qed.

(** ** The row cache after a batch *)

Section commit.
Context {Cl DB : Type} `{ClusterContract Cl DB} {L : Type} `{RowLRU L}.

Definition receiver_key (shardID : Z) (k : bytes) : Prop := EncodeTableKeyPrefix ReceiverTableID shardID `prefix_of` k.

#[local] Instance receiver_key_dec shardID k : Decision (receiver_key shardID k).
Proof. unfold receiver_key. apply _. Defined.

(** The cache has nothing but [x] for the key. *)
Definition agrees (s : RowCache L) (k : bytes) (x : option bytes) : Prop := ∀ v, (rlru_get (rowCache s) k).1 = Some v → x = Some v.

Lemma puts_agree k P : ∀ s x, agrees s k x →
  agrees (foldl (λ s kv, rowCache_Put s kv.1 kv.2) s P) k (foldl (op_effect k) x (map (λ kv, KVSet kv.1 kv.2) P)).
Proof.
  induction P as [|[k' w] P IH]; intros s x Hs; [done|]. cbn [foldl map fst snd]. apply IH. intros v Hv. simpl in Hv.
  apply rlru_get_add in Hv. simpl. case_decide; [by subst|by apply Hs].
Qed.

(** Every cached key was cached before or written. *)
Lemma puts_cached (Q : bytes → Prop) P : Forall (λ kv, Q kv.1) P → ∀ s, (∀ k v, (rlru_get (rowCache s) k).1 = Some v → Q k) →
  ∀ k v, (rlru_get (rowCache (foldl (λ s kv, rowCache_Put s kv.1 kv.2) s P)) k).1 = Some v → Q k.
Proof.
  induction 1 as [|[k' w] P Hk _ IH]; intros s Hs; [done|]. cbn [foldl fst snd]. apply IH. intros k v Hv. simpl in Hv.
  apply rlru_get_add in Hv. case_decide; [by subst|by eapply Hs].
Qed.

Lemma key_table shardID tid rest : u64_ok tid → ReadUint64FromBufferBE (EncodeTableKeyPrefix tid shardID ++ rest) 8 = Ok (tid, 16%nat).
Proof. intros Ht. rewrite EncodeTableKeyPrefix_eq, <- app_assoc. by apply ReadUint64BE_app; [rewrite length_be_bytes|]. Qed.

Lemma user_not_receiver shardID k : u64_ok shardID → user_key shardID k → receiver_key shardID k → False.
Proof.
  intros Hs (tid & rest & Htid & Ht & ->) [rest' E]. apply EncodeTableKeyPrefix_inj in E as (-> & _ & _); [|done..|by split; vm_compute|done].
  unfold UserTableIDBase, ReceiverTableID in Htid. lia.
Qed.

(** What the cache forgets of the deleted keys. *)
Definition cache_forget (shardID : Z) (s : RowCache L) (k : bytes) : RowCache L :=
  if bool_decide (receiver_key shardID k) then s else rowCache_Delete s k.

Lemma forget_eq shardID D : u64_ok shardID → Forall (λ k, user_key shardID k ∨ receiver_key shardID k) D → ∀ s,
  foldM (λ s k, '(tableID, _) ← ReadUint64FromBufferBE k 8; Ok (if tableID =? ReceiverTableID then s else rowCache_Delete s k)) s D =
    Ok (foldl (cache_forget shardID) s D).
Proof.
  intros Hs. induction 1 as [|k D Hk _ IH]; intros s; [done|]. cbn [foldM foldl]. unfold cache_forget at 2. destruct Hk as [Hk|Hk].
  - rewrite bool_decide_false by (intros Hr; by eapply user_not_receiver). destruct Hk as (tid & rest & Htid & Ht & ->).
    rewrite key_table by done. osimpl. rewrite (proj2 (Z.eqb_neq tid ReceiverTableID)) by (unfold UserTableIDBase, ReceiverTableID in *; lia). apply IH.
  - rewrite bool_decide_true by done. destruct Hk as [rest ->]. rewrite key_table by (by split; vm_compute). osimpl. apply IH.
Qed.

Lemma forget_agree shardID k D : u64_ok shardID → user_key shardID k → ∀ s x, agrees s k x →
  agrees (foldl (cache_forget shardID) s D) k (foldl (op_effect k) x (map KVDelete D)).
Proof.
  intros Hs Hk. induction D as [|k' D IH]; intros s x Hsx; [done|]. cbn [foldl map]. apply IH. unfold cache_forget.
  case_bool_decide as Hr; cbn [op_effect].
  - rewrite decide_False; [done|]. intros <-. by eapply user_not_receiver.
  - intros v Hv. simpl in Hv. rewrite rlru_get_remove in Hv. case_decide; [done|by apply Hsx].
Qed.

Lemma forget_cached shardID k v D : ∀ s, (rlru_get (rowCache (foldl (cache_forget shardID) s D)) k).1 = Some v → (rlru_get (rowCache s) k).1 = Some v.
Proof.
  induction D as [|k' D IH]; intros s Hv; [done|]. cbn [foldl] in Hv. apply IH in Hv. unfold cache_forget in Hv.
  case_bool_decide; [done|]. simpl in Hv. rewrite rlru_get_remove in Hv. by case_decide.
Qed.

Lemma forget_shard shardID D : ∀ s, sh_shardID (foldl (cache_forget shardID) s D) = sh_shardID s.
Proof. induction D as [|k D IH]; intros s; [done|]. cbn [foldl]. rewrite IH. unfold cache_forget. by case_bool_decide. Qed.
Lemma puts_shard P : ∀ s : RowCache L, sh_shardID (foldl (λ s kv, rowCache_Put s kv.1 kv.2) s P) = sh_shardID s.
Proof. induction P as [|kv P IH]; intros s; [done|]. cbn [foldl]. by rewrite IH. Qed.
Lemma puts_eq P : ∀ s : RowCache L, foldM (λ s '(k, v), Ok (rowCache_Put s k v)) s P = Ok (foldl (λ s kv, rowCache_Put s kv.1 kv.2) s P).
Proof. induction P as [|[k v] P IH]; intros s; [done|]. cbn [foldM foldl fst snd]. apply IH. Qed.

Lemma cacheWritten_ok wb P D s c c' (shardID := sh_shardID s) : wb_rep wb P D [] → wb_small wb → u64_ok shardID → cache_coherent s c →
  Forall (λ kv, user_key shardID kv.1) P → Forall (λ k, user_key shardID k ∨ receiver_key shardID k) D →
  committed c' shardID = kv_apply (committed c shardID) (batch_ops P D) →
  ∃ s', cacheWritten wb s = Ok s' ∧ sh_shardID s' = shardID ∧
    ∀ k v, (rlru_get (rowCache s') k).1 = Some v → user_key shardID k ∧ kv_get (committed c' shardID) k = Some v.
Proof.
  intros Hrep Hsmall Hs Hco HP HD Hc'. destruct (small_fits _ _ _ _ Hrep Hsmall) as [HfP HfD]. unfold cacheWritten.
  destruct (ForEach_visits wb P [] D (λ s k v, Ok (rowCache_Put s k v)) (λ s k, '(tableID, _) ← ReadUint64FromBufferBE k 8;
    Ok (if tableID =? ReceiverTableID then s else rowCache_Delete s k)) s Hrep HfP HfD) as (-> & _ & _); [constructor|].
  rewrite puts_eq. osimpl. set (s1 := foldl _ s P).
  destruct (ForEach_visits wb P [] D (λ s k v, Ok (rowCache_Put s k v)) (λ s k, '(tableID, _) ← ReadUint64FromBufferBE k 8;
    Ok (if tableID =? ReceiverTableID then s else rowCache_Delete s k)) s1 Hrep HfP HfD) as (_ & -> & _); [constructor|].
  rewrite (forget_eq shardID D Hs HD). exists (foldl (cache_forget shardID) s1 D). split_and!; [done|unfold s1; by rewrite forget_shard, puts_shard|].
  intros k v Hv. assert (Hk : user_key shardID k).
  { apply forget_cached in Hv. revert Hv. apply (puts_cached (user_key shardID)); [done|]. intros k' v' Hv'. by apply (cached_committed _ _ Hco k' v'). }
  split; [done|]. rewrite Hc', kv_get_apply. unfold batch_ops. rewrite foldl_app. revert v Hv.
  apply (forget_agree shardID k D Hs Hk), puts_agree. intros v Hv. by apply (cached_committed _ _ Hco k v).
Qed.

(** ** A batch of received rows *)

(** The batch the entities leave, which must be of a size that its length fields hold. *)
Definition batch_small (p : Engine) (st : ShardProcessor Cl L) (rows : list ForwardRow) : Prop :=
  let '(rawRows, wb) := foldl receiveRow (∅, NewWriteBatch (sh_shardID (sp_cache st))) rows in
  let ctx := NewExecutionContext (NewWriteBatch (sh_shardID (sp_cache st))) (cacheReads st) (-1) (sp_lastSequences st) in
  match processEntities (en_remoteConsumers p) (map (λ e, (e, default [] (rawRows !! e))) (en_rangeOrder p rawRows)) (with_WriteBatch ctx wb) with
  | Ok (_, ctx) => wb_small (ctx_WriteBatch ctx)
  | _ => True
  end.

(** The entities the rows are for do not share keys and, when the engine knows them, can
    handle the changes the rows carry in the state they are in; the rows are rows of the
    receiver table. *)
Record received_ok (p : Engine) (st : ShardProcessor Cl L) (rows : list ForwardRow) (ent : Z → Entity (DB := DB)) (chs : Z → list change) : Prop := {
  ro_order m : en_rangeOrder p m ≡ₚ (map_to_list m).*1;
  ro_entity e : e ∈ map RemoteConsumerID rows → is_Some (en_remoteConsumers p !! e) → en_remoteConsumers p !! e = Some (e_consumer (ent e)) ∧
    HandlesRows (sh_shardID (sp_cache st)) (ent e) ∧ e_accepts (ent e) (chs e) ∧
    e_pre (ent e) (committed (sp_cluster st) (sh_shardID (sp_cache st))) ∧
    Forall2 (received (rcn_ColTypes (e_consumer (ent e)))) (rows_for rows e) (chs e);
  ro_separate : separate_entities ent (map RemoteConsumerID rows);
  ro_owns e k : e ∈ map RemoteConsumerID rows → e_owns (ent e) k = true → user_key (sh_shardID (sp_cache st)) k;
  ro_keys : Forall (λ row, receiver_key (sh_shardID (sp_cache st)) (KeyBytes row)) rows;
  ro_small : batch_small p st rows
}.

Definition all_known (p : Engine) (rows : list ForwardRow) : Prop := ∀ e, e ∈ map RemoteConsumerID rows → is_Some (en_remoteConsumers p !! e).

Lemma SetBatchID_rep wb P D rngs uid : wb_rep wb P D rngs → length uid = 16%nat →
  ∃ wb', SetBatchID wb uid = Ok wb' ∧ wb_rep wb' P D rngs ∧ wb_ShardID wb' = wb_ShardID wb ∧ BatchID wb' = Some uid ∧ (wb_small wb → wb_small wb').
Proof. intros Hrep Hl. unfold SetBatchID. rewrite Hl. simpl. eexists. split; [done|]. split_and!; [|done..]. by destruct Hrep. Qed.

(** The rows read for the batch are the committed ones. *)
Lemma cacheReads_ok (st : ShardProcessor Cl L) k : cache_coherent (sp_cache st) (sp_cluster st) → available (sp_cluster st) (sh_shardID (sp_cache st)) →
  user_key (sh_shardID (sp_cache st)) k → cacheReads st k = Ok (kv_get (committed (sp_cluster st) (sh_shardID (sp_cache st))) k).
Proof. intros Hc Ha Hk. unfold cacheReads. destruct (rowCache_Get_ok _ _ _ Hc Ha Hk) as (s' & -> & _). done. Qed.

(** The entities that are visited are those of the rows, each once. *)
Lemma visited_entities (p : Engine) rows m wb m' wb' : (∀ m, en_rangeOrder p m ≡ₚ (map_to_list m).*1) → wb_rep wb [] [] [] → m = ∅ →
  foldl receiveRow (m, wb) rows = (m', wb') → NoDup (en_rangeOrder p m') ∧ ∀ e, e ∈ en_rangeOrder p m' ↔ e ∈ map RemoteConsumerID rows.
Proof.
  intros Hord Hwb -> E. pose proof (receiveRows_ok rows ∅ wb [] [] [] Hwb) as Hrecv. rewrite E in Hrecv. destruct Hrecv as (_ & Hdom & _).
  split; [rewrite Hord; apply NoDup_fst_map_to_list|]. intros e. rewrite Hord.
  etransitivity; [|etransitivity; [apply Hdom|rewrite lookup_empty; split; [by intros [[? ?]|?]|by right]]].
  rewrite list_elem_of_fmap. split; [intros ([e' l] & -> & Hin%elem_of_map_to_list); by exists l|].
  intros [l Hl]. exists (e, l). split; [done|]. by apply elem_of_map_to_list.
Qed.

(** The entities have run: the write batch is known. *)
Lemma entities_run p st rows ent chs (shardID := sh_shardID (sp_cache st)) (db := committed (sp_cluster st) shardID) :
  u64_ok shardID → received_ok p st rows ent chs → all_known p rows → cache_coherent (sp_cache st) (sp_cluster st) → available (sp_cluster st) shardID →
  let '(rawRows, wb0) := foldl receiveRow (∅, NewWriteBatch shardID) rows in
  let ctx := NewExecutionContext (NewWriteBatch shardID) (cacheReads st) (-1) (sp_lastSequences st) in
  ∃ wb P D, processEntities (en_remoteConsumers p) (map (λ e, (e, default [] (rawRows !! e))) (en_rangeOrder p rawRows)) (with_WriteBatch ctx wb0) =
      Ok (true, with_WriteBatch ctx wb) ∧ wb_ShardID wb = shardID ∧ wb_rep wb P (map KeyBytes rows ++ D) [] ∧ wb_small wb ∧
    Forall (λ kv, any_owns ent (map RemoteConsumerID rows) kv.1 = true) P ∧ Forall (λ k, any_owns ent (map RemoteConsumerID rows) k = true) D ∧
    ∀ e, e ∈ map RemoteConsumerID rows → e_post (ent e) (chs e) (kv_apply db (batch_ops P (map KeyBytes rows ++ D))).
Proof.
  intros Hsh Hok Hknown Hco Hav. pose proof (receiveRows_ok rows ∅ (NewWriteBatch shardID) [] [] [] (NewWriteBatch_rep _)) as Hrecv.
  pose proof (ro_small _ _ _ _ _ Hok) as Hsmall. unfold batch_small in Hsmall. fold shardID in Hsmall.
  destruct (foldl receiveRow _ rows) as [m wb0] eqn:Efold. destruct Hrecv as (Hrows & _ & Hwb0 & Hsh0). intros ctx. fold ctx in Hsmall.
  destruct (visited_entities p rows ∅ _ m wb0 (ro_order _ _ _ _ _ Hok) (NewWriteBatch_rep _) eq_refl Efold) as [Hnd Hids].
  set (ids := en_rangeOrder p m) in *.
  assert (Hown : ∀ k, any_owns ent ids k = any_owns ent (map RemoteConsumerID rows) k).
  { intros k. apply eq_bool_prop_intro. rewrite !Is_true_true, !any_owns_true. by setoid_rewrite Hids. }
  assert (Hnu : ∀ k, receiver_key shardID k → any_owns ent ids k ≠ true).
  { intros k Hk (e & He & Hke)%any_owns_true. eapply user_not_receiver; [done| |done]. apply (ro_owns _ _ _ _ _ Hok e); [by apply Hids|done]. }
  destruct (processEntities_ok shardID ent chs (en_remoteConsumers p) ids (λ e, default [] (m !! e)) db) with
    (ctx := with_WriteBatch ctx wb0) (puts := @nil (bytes * bytes)) (dels := map KeyBytes rows) (rngs := @nil (bytes * bytes))
    as (wb & P & D & Hrun & Hshw & Hwb & HP & HD & Hpost).
  - exact Hnd.
  - intros i j Hi%Hids Hj%Hids. by apply (ro_separate _ _ _ _ _ Hok).
  - apply Forall_forall. intros e He%Hids. destruct (ro_entity _ _ _ _ _ Hok e He (Hknown e He)) as (? & ? & ? & ? & ?). split_and!; try done.
    by rewrite Hrows, lookup_empty.
  - intros k (e & He%Hids & Hk)%any_owns_true. apply cacheReads_ok; [done..|]. by apply (ro_owns _ _ _ _ _ Hok e).
  - done.
  - exact Hwb0.
  - exists wb, P, D. rewrite Hrun in Hsmall |- *. split_and!; try done.
    + eapply Forall_impl; [exact HP|]. intros kv. simpl. by rewrite Hown.
    + eapply Forall_impl; [exact HD|]. intros kv. simpl. by rewrite Hown.
    + intros e He%Hids. pose proof (Hpost P (map KeyBytes rows ++ D)) as Hp. rewrite Forall_forall in Hp. apply Hp; [by apply filter_all| |done].
      unfold owned. rewrite filter_app. rewrite (filter_all _ D HD), filter_none; [done|]. apply Forall_map. eapply Forall_impl; [apply (ro_keys _ _ _ _ _ Hok)|].
      intros row Hk. by apply Hnu.
Qed.

(** What the batch writes and what it leaves alone. *)
Lemma batch_effect (db : DB) P D k : k ∉ map fst P → k ∉ D → kv_get (kv_apply db (batch_ops P D)) k = kv_get db k.
Proof.
  intros HP HD. rewrite kv_get_apply. unfold batch_ops. rewrite foldl_app, effect_deletes, decide_False by done. by apply effect_sets_miss.
Qed.

Lemma batch_deletes (db : DB) P D k : k ∈ D → kv_get (kv_apply db (batch_ops P D)) k = None.
Proof. intros HD. rewrite kv_get_apply. unfold batch_ops. by rewrite foldl_app, effect_deletes, decide_True. Qed.

Lemma HasWrites_deletes wb P k D rngs : wb_rep wb P (k :: D) rngs → HasWrites wb = true.
Proof.
  intros Hrep. unfold HasWrites. rewrite (rep_deletes _ _ _ _ Hrep). cbn [map concat]. rewrite length_app, length_with_length.
  apply orb_true_iff. right. apply Nat.ltb_lt. lia.
Qed.

Lemma runBatch_ok (p : Engine) (st : ShardProcessor Cl L) (rows : list ForwardRow) (row : ForwardRow) (uid : bytes)
    (ent : Z → Entity (DB := DB)) (chs : Z → list change) (shardID := sh_shardID (sp_cache st)) (db := committed (sp_cluster st) shardID) :
  u64_ok shardID → last rows = Some row → received_ok p st rows ent chs → all_known p rows → en_beforeLocalCommit p = Ok tt →
  cache_coherent (sp_cache st) (sp_cluster st) → available (sp_cluster st) shardID → length uid = 16%nat → unused (sp_cluster st) uid →
  ∃ st' db', runBatch p st rows false uid = Ok (st', i64 (ReceiverSequence row)) ∧ db' = committed (sp_cluster st') shardID ∧
    (∀ e, e ∈ map RemoteConsumerID rows → e_post (ent e) (chs e) db') ∧
    (∀ row, row ∈ rows → kv_get db' (KeyBytes row) = None) ∧
    (∀ k, any_owns ent (map RemoteConsumerID rows) k = false → k ∉ map KeyBytes rows → kv_get db' k = kv_get db k) ∧
    cache_coherent (sp_cache st') (sp_cluster st').
Proof.
  intros Hsh Hlast Hok Hknown Hfail Hco Hav Huid Hun. pose proof (entities_run p st rows ent chs Hsh Hok Hknown Hco Hav) as Hrun.
  unfold runBatch, HandleBatch. fold shardID in Hrun |- *. destruct (foldl receiveRow _ rows) as [m wb0].
  destruct Hrun as (wb & P & D & Hrun & Hshw & Hwb & Hsmall & HP & HD & Hpost).
  unfold processReceiveBatch. rewrite Hrun. osimpl. cbn [negb ctx_LocalWrites with_WriteBatch NewExecutionContext foldM ctx_RemoteBatches].
  rewrite map_to_list_empty. cbn [fmap list_fmap SendForwardBatches foldM]. rewrite Hfail. osimpl.
  destruct rows as [|r0 rows'] eqn:Erows; [done|]. rewrite <- Erows in *. cbn [ctx_WriteBatch with_WriteBatch].
  rewrite (HasWrites_deletes wb P (KeyBytes r0) (map KeyBytes rows' ++ D) []) by by rewrite Erows in Hwb.
  destruct (SetBatchID_rep wb P _ [] uid Hwb Huid) as (wb' & -> & Hwb' & Hshw' & Hid & Hsm). specialize (Hsm Hsmall). osimpl. fold shardID in Hav.
  destruct (proj2 (proj2 (proj2 Hav)) wb' true P (map KeyBytes rows ++ D) uid) as [c' Hc']; [congruence|done..|]. rewrite Hc'. osimpl.
  destruct (batch_committed (sp_cluster st) wb' true uid P _ c' Hwb' Hsm Hid Hun Hc') as [Hcom Hlw]. rewrite Hshw', Hshw in Hcom, Hlw.
  assert (Huser : ∀ k, any_owns ent (map RemoteConsumerID rows) k = true → user_key shardID k).
  { intros k (e & He & Hk)%any_owns_true. by apply (ro_owns _ _ _ _ _ Hok e). }
  destruct (cacheWritten_ok wb' P (map KeyBytes rows ++ D) (sp_cache st) (sp_cluster st) c') as (s' & -> & Hshs & Hcached); try done.
  { eapply Forall_impl; [exact HP|]. intros kv. apply Huser. }
  { apply Forall_app. split; [apply Forall_map; eapply Forall_impl; [apply (ro_keys _ _ _ _ _ Hok)|by right]|].
    eapply Forall_impl; [exact HD|]. intros k Hk. left. by apply Huser. }
  osimpl. rewrite Hlast. osimpl. rewrite Hid. eexists _, (kv_apply db (batch_ops P (map KeyBytes rows ++ D))). split; [reflexivity|]. cbn [sp_cluster sp_cache].
  split; [by symmetry|]. split_and!.
  - exact Hpost.
  - intros r Hr. apply batch_deletes, elem_of_app. left. by apply list_elem_of_fmap_2.
  - intros k Hk Hnk. apply batch_effect.
    + intros (kv & -> & Hin)%list_elem_of_fmap. rewrite Forall_forall in HP. specialize (HP _ Hin). simpl in HP. congruence.
    + intros [?|Hin]%elem_of_app; [done|]. rewrite Forall_forall in HD. specialize (HD _ Hin). simpl in HD. congruence.
  - fold shardID in Hshs. split; cbn [sh_shardID rowCache lastBatchID lastBatchProcessed]; rewrite ?Hshs; [done| |done].
    intros id [= <-]. split; [|done]. intros ->. done.
Qed.


(** ** An entity that is not known *)

Lemma processEntities_app consumers a b ctx ctx' : processEntities consumers a ctx = Ok (true, ctx') →
  processEntities consumers (a ++ b) ctx = processEntities consumers b ctx'.
Proof.
  revert ctx. induction a as [|[e raws] a IH]; intros ctx Hrun; simpl in *; [by injection Hrun as ->|].
  destruct (consumers !! e); [|done]. destruct (decodeRawRows _ _); simpl in *; try done. destruct (rcn_RowsHandler _ _ _); simpl in *; try done. by apply IH.
Qed.

Lemma first_unknown (consumers : gmap Z RemoteConsumer) ids e : e ∈ ids → consumers !! e = None →
  ∃ pre u post, ids = pre ++ u :: post ∧ Forall (λ e, is_Some (consumers !! e)) pre ∧ consumers !! u = None.
Proof.
  induction ids as [|i ids IH]; intros Hin He; [by apply not_elem_of_nil in Hin|]. destruct (consumers !! i) as [r|] eqn:Ei.
  - apply elem_of_cons in Hin as [->|Hin]; [congruence|]. destruct (IH Hin He) as (pre & u & post & -> & Hpre & Hu).
    exists (i :: pre), u, post. split_and!; [done| |done]. constructor; [by eexists|done].
  - exists [], i, ids. split_and!; [done|constructor|done].
Qed.

(** One received row for an entity that the engine does not know (a dropped view, for
    one) loses the whole batch, in whatever order the entities are visited: nothing that
    the other entities of the batch did is written and the rows stay in the receiver
    table, but the sequence of the last row is reported as processed. *)
Theorem unknown_entity_drops_batch (p : Engine) (st : ShardProcessor Cl L) (rows : list ForwardRow) (row : ForwardRow) (uid : bytes)
    (ent : Z → Entity (DB := DB)) (chs : Z → list change) (shardID := sh_shardID (sp_cache st)) :
  u64_ok shardID → last rows = Some row → received_ok p st rows ent chs → (∃ r, r ∈ rows ∧ en_remoteConsumers p !! RemoteConsumerID r = None) →
  cache_coherent (sp_cache st) (sp_cluster st) → available (sp_cluster st) shardID →
  ∃ wb, HandleBatch p st (NewWriteBatch shardID) rows false uid = Ok (st, wb, i64 (ReceiverSequence row)).
Proof.
  intros Hsh Hlast Hok (r & Hr & Hunk) Hco Hav. unfold HandleBatch. cbv zeta.
  pose proof (receiveRows_ok rows ∅ (NewWriteBatch shardID) [] [] [] (NewWriteBatch_rep _)) as Hrecv.
  destruct (foldl receiveRow _ rows) as [m wb0] eqn:Efold. destruct Hrecv as (Hrows & _ & Hwb0 & Hsh0).
  destruct (visited_entities p rows ∅ _ m wb0 (ro_order _ _ _ _ _ Hok) (NewWriteBatch_rep _) eq_refl Efold) as [Hnd Hids].
  destruct (first_unknown (en_remoteConsumers p) (en_rangeOrder p m) (RemoteConsumerID r)) as (pre & u & post & Eids & Hpre & Hu);
    [by apply Hids, list_elem_of_fmap_2|done|]. unfold processReceiveBatch. rewrite Eids in Hnd, Hids |- *. rewrite map_app.
  set (ctx := with_WriteBatch _ wb0).
  assert (Hin : ∀ e, e ∈ pre → e ∈ map RemoteConsumerID rows). { intros e He. apply Hids, elem_of_app. by left. }
  destruct (processEntities_ok shardID ent chs (en_remoteConsumers p) pre (λ e, default [] (m !! e)) (committed (sp_cluster st) shardID)) with
    (ctx := ctx) (puts := @nil (bytes * bytes)) (dels := map KeyBytes rows) (rngs := @nil (bytes * bytes)) as (wb & P & D & Hrun & _).
  - by apply NoDup_app in Hnd as (? & _ & _).
  - intros i j Hi Hj. apply (ro_separate _ _ _ _ _ Hok); by apply Hin.
  - apply Forall_forall. intros e He. rewrite Forall_forall in Hpre.
    destruct (ro_entity _ _ _ _ _ Hok e (Hin e He) (Hpre e He)) as (? & ? & ? & ? & ?). split_and!; try done. by rewrite Hrows, lookup_empty.
  - intros k (e & He & Hk)%any_owns_true. apply cacheReads_ok; [done..|]. apply (ro_owns _ _ _ _ _ Hok e); [by apply Hin|done].
  - exact Hsh0.
  - exact Hwb0.
  - rewrite (processEntities_app _ _ _ _ _ Hrun). cbn [map processEntities]. rewrite Hu. osimpl.
    unfold ctx. cbn [negb ctx_LocalWrites with_WriteBatch NewExecutionContext foldM]. osimpl. rewrite Hlast. exists wb. by destruct st.
Qed.

(** ** Rows left over from an earlier run *)

(** A row of the receiver table as the shard state machine stores it. *)
Definition stored_row (shardID : Z) (row : ForwardRow) : Prop :=
  u64_ok (ReceiverSequence row) ∧ u64_ok (RemoteConsumerID row) ∧
  ∃ rest, KeyBytes row = EncodeTableKeyPrefix ReceiverTableID shardID ++ be_bytes 8 (ReceiverSequence row) ++ be_bytes 8 (RemoteConsumerID row) ++ rest.

Lemma loadPair_eq shardID row m wb n : stored_row shardID row →
  loadPair (m, wb, n) (KeyBytes row, RowBytes row) = Ok (receiveRow (m, wb) row, ReceiverSequence row).
Proof.
  intros (Hs & Hc & rest & Hk). unfold loadPair, receiveRow. cbn [fst snd]. rewrite Hk.
  rewrite (ReadUint64BE_app _ _ _ 16) by (rewrite ?length_EncodeTableKeyPrefix; done). osimpl. rewrite app_assoc.
  rewrite (ReadUint64BE_app _ _ _ 24) by (rewrite ?length_app, ?length_EncodeTableKeyPrefix, ?length_be_bytes; done). osimpl. reflexivity.
Qed.

Lemma loadPairs_eq shardID rows : Forall (stored_row shardID) rows → ∀ m wb n,
  foldM loadPair (m, wb, n) (map (λ row, (KeyBytes row, RowBytes row)) rows) = Ok (foldl receiveRow (m, wb) rows, default n (ReceiverSequence <$> last rows)).
Proof.
  induction 1 as [|row rows Hrow _ IH]; intros m wb n; [done|]. cbn [map foldM foldl]. rewrite (loadPair_eq shardID) by done. osimpl.
  destruct (receiveRow (m, wb) row) as [m1 wb1]. rewrite IH. by rewrite last_cons; destruct (last rows).
Qed.

(** C21. The first batch of a processor is the rows its predecessor left in the receiver
    table: it is processed exactly as if these rows had just been received, in order. *)
Theorem leftover_rows_reprocessed (p : Engine) (st : ShardProcessor Cl L) (wb : WriteBatch) (rows : list ForwardRow) (uid : bytes) (shardID := wb_ShardID wb) :
  rows ≠ [] → Forall (stored_row shardID) rows → en_loadSinkPersistentState p shardID = Ok tt →
  cl_LocalScan (sp_cluster st) (EncodeTableKeyPrefix ReceiverTableID shardID) (Some (EncodeTableKeyPrefix (ReceiverTableID + 1) shardID)) (-1) =
    Ok (map (λ row, (KeyBytes row, RowBytes row)) rows) →
  HandleBatch p st wb [] true uid = HandleBatch p st wb rows false uid.
Proof.
  intros Hne Hrows Hsinks Hscan. unfold HandleBatch, loadReceivedRows. cbn [ctx_WriteBatch NewExecutionContext with_WriteBatch]. fold shardID. rewrite Hscan. osimpl.
  assert (Hmatch : ∀ A (a : A) (f : list (bytes * bytes) → A), match map (λ row, (KeyBytes row, RowBytes row)) rows with [] => a | l => f l end =
    f (map (λ row, (KeyBytes row, RowBytes row)) rows)) by by destruct rows.
  rewrite (Hmatch _ _ (λ l, _)). rewrite (loadPairs_eq shardID) by done. osimpl. destruct (foldl receiveRow _ rows) as [m wb'].
  destruct (processReceiveBatch _ _ _ _ _) as [[st' wb'']| | |]; osimpl; try done. rewrite Hsinks. osimpl.
  destruct (last rows) eqn:El; [done|]. by apply last_None in El.
Qed.
End commit.
