(* ===== verification/SimCluster.v ===== *)
(** * A cluster and a cache that keep their contracts

    [ClusterContract] and [RowLRU] of [RowCache] can be met: a cluster whose local replica
    has applied some first part of the batches written, and a cache that keeps the entries
    that were used last, up to a total size. *)

From stdpp Require Import base list list_numbers strings gmap sorting.
From Stdlib Require Import ZArith Lia.
From S2P Require Import Prelude Encoding Timestamp Decimal Rows KeyEncoding RowEncoding Store WriteBatch Table LocalStore PullExec PullScan RowsBatch PushExec TableExec RowCache.

(** ** The cluster *)

(** Every batch written, with its id, and the number of them the local replica has. *)
Record SimCluster := MkSimCluster {
  sim_batches : list (option bytes * list kv_op);
  sim_applied : nat;
  sim_ids : NoDup (omap fst sim_batches)
}.

Definition sim_store (bs : list (option bytes * list kv_op)) : gmap bytes bytes := kv_apply kv_empty (concat (map snd bs)).

Definition batch_decoded (wb : WriteBatch) : outcome (list kv_op) :=
  ops ← ForEachPut wb (λ ops k v, Ok (ops ++ [KVSet k v])) [];
  ForEachDelete wb (λ ops k, Ok (ops ++ [KVDelete k])) ops.

Lemma ids_snoc (bs : list (option bytes * list kv_op)) (id : option bytes) (ops : list kv_op) : NoDup (omap fst bs) → (∀ i, id = Some i → i ∉ omap fst bs) → NoDup (omap fst (bs ++ [(id, ops)])).
Proof.
  intros Hnd Hid. rewrite omap_app. apply NoDup_app. split_and!; [done| |].
  - intros i Hi Hin. simpl in Hin. destruct id as [i'|]; [|by apply not_elem_of_nil in Hin]. apply list_elem_of_singleton in Hin as ->. by eapply Hid.
  - simpl. destruct id; [apply NoDup_singleton|constructor].
Qed.

Definition id_new (id : option bytes) (bs : list (option bytes * list kv_op)) : Prop := ∀ i, id = Some i → i ∉ omap fst bs.
#[local] Instance id_new_dec id bs : Decision (id_new id bs).
Proof. destruct id as [i|]; [|by left]. destruct (decide (i ∈ omap fst bs)) as [Hi|Hi]; [right|left]; [intros H; by apply (H i)|]. by intros j [= <-]. Defined.

Definition sim_write (c : SimCluster) (wb : WriteBatch) : outcome SimCluster :=
  ops ← batch_decoded wb;
  match decide (id_new (BatchID wb) (sim_batches c)) with
  | left Hid => Ok (MkSimCluster (sim_batches c ++ [(BatchID wb, ops)]) (sim_applied c) (ids_snoc _ _ _ (sim_ids c) Hid))
  | right _ => Err "batch id is not unique"
  end.

#[global] Instance sim_cluster : Cluster SimCluster := {
  cl_GetLastPersistedBatch c _ := Ok (last (omap fst (take (sim_applied c) (sim_batches c))));
  cl_WriteBatch c wb _ := sim_write c wb;
  cl_WriteForwardBatch c wb _ _ := sim_write c wb;
  cl_WriteBatchLocally c wb := sim_write c wb;
  cl_LocalGet c k := Ok (kv_get (sim_store (take (sim_applied c) (sim_batches c))) k);
  cl_LinearizableGet c _ k := Ok (kv_get (sim_store (sim_batches c)) k);
  cl_LocalScan c lo hi limit := Ok (LocalScan (sim_store (take (sim_applied c) (sim_batches c))) lo hi limit)
}.

Lemma batch_decoded_eq wb P D : wb_rep wb P D [] → wb_small wb → batch_decoded wb = Ok (batch_ops P D).
Proof.
  intros Hrep Hsm. destruct (small_fits _ _ _ _ Hrep Hsm) as [HP HD]. unfold batch_decoded.
  destruct (ForEach_visits wb P [] D (λ ops k v, Ok (ops ++ [KVSet k v])) (λ ops k, Ok (ops ++ [KVDelete k])) [] Hrep HP HD) as (-> & _ & _); [constructor|].
  rewrite (foldM_ext _ (λ ops kv, Ok (ops ++ [KVSet kv.1 kv.2]))) by by intros ? []. rewrite (foldM_snoc (λ kv, KVSet kv.1 kv.2)), app_nil_l. osimpl.
  destruct (ForEach_visits wb P [] D (λ ops k v, Ok (ops ++ [KVSet k v])) (λ ops k, Ok (ops ++ [KVDelete k])) (map (λ kv, KVSet kv.1 kv.2) P) Hrep HP HD) as (_ & -> & _); [constructor|].
  by rewrite foldM_snoc.
Qed.

Lemma persisted_last (bs : list (option bytes * list kv_op)) n id : NoDup (omap fst bs) →
  last (omap fst (take n bs)) = Some id → match last bs with Some b => b.1 | None => None end = Some id → take n bs = bs.
Proof.
  destruct bs as [|b bs _] using rev_ind; [done|]. rewrite last_snoc. destruct (decide (length bs < n)%nat) as [Hn|Hn]; [intros; apply take_ge; rewrite length_app; simpl; lia|].
  rewrite take_app_le by lia. intros Hnd Hlast Hid. rewrite omap_app in Hnd. simpl in Hnd. rewrite Hid in Hnd. apply NoDup_app in Hnd as (_ & Hdis & _).
  exfalso. apply last_Some_elem_of in Hlast. apply (Hdis id); [|by left]. apply list_elem_of_omap in Hlast as (x & Hx & Hf).
  apply list_elem_of_omap. exists x. split; [|done]. by eapply elem_of_take in Hx as (? & ?%list_elem_of_lookup_2 & _).
Qed.

#[global] Instance sim_contract : ClusterContract SimCluster (gmap bytes bytes).
Proof.
  refine {| committed := λ c _, sim_store (sim_batches c);
            caught_up := λ c _, take (sim_applied c) (sim_batches c) = sim_batches c;
            last_written := λ c _, match last (sim_batches c) with Some b => b.1 | None => None end;
            unused := λ c id, id ∉ omap fst (sim_batches c) |}.
  - intros c s k v [= <-]. done.
  - intros c s k v Hup _ [= <-]. by rewrite Hup.
  - intros c s id [= Hlast] Hw. by apply (persisted_last _ _ id (sim_ids c)).
  - intros c wb localOnly id P D c' Hrep Hsm Hid Hun Hw. unfold cl_WriteBatch, sim_cluster, sim_write in Hw. rewrite (batch_decoded_eq wb P D) in Hw by done.
    osimpl in Hw. destruct (decide _); [|done]. injection Hw as <-. cbn [sim_batches]. rewrite last_snoc. split; [|done].
    unfold sim_store. rewrite map_app, concat_app. cbn [map concat snd]. rewrite app_nil_r. apply foldl_app.
Defined.

Lemma sim_available c s : available (DB := gmap bytes bytes) (c : SimCluster) s.
Proof.
  split_and!; [by eexists|by eexists|by eexists|]. intros wb localOnly P D id _ Hrep Hsm Hid Hun. unfold cl_WriteBatch, sim_cluster, sim_write.
  rewrite (batch_decoded_eq wb P D) by done. osimpl. destruct (decide _) as [|Hn]; [by eexists|]. destruct Hn. rewrite Hid. by intros i [= <-].
Qed.

(** ** The cache *)

(** The entries, most recent first, and the size they may have together. *)
Record SimLRU := MkSimLRU {
  lru_max : Z;
  lru_entries : list (bytes * bytes * Z)
}.

Fixpoint lru_fit (room : Z) (l : list (bytes * bytes * Z)) : list (bytes * bytes * Z) :=
  match l with
  | [] => []
  | e :: l' => if e.2 <=? room then e :: lru_fit (room - e.2) l' else []
  end.

Fixpoint lru_find (l : list (bytes * bytes * Z)) (k : bytes) : option (bytes * bytes * Z) :=
  match l with
  | [] => None
  | e :: l' => if decide (e.1.1 = k) then Some e else lru_find l' k
  end.

Definition lru_without (l : list (bytes * bytes * Z)) (k : bytes) : list (bytes * bytes * Z) := filter (λ e, e.1.1 ≠ k) l.

Definition sim_lru_get (l : SimLRU) (k : bytes) : option bytes * SimLRU :=
  match lru_find (lru_entries l) k with
  | Some e => (Some e.1.2, MkSimLRU (lru_max l) (e :: lru_without (lru_entries l) k))
  | None => (None, l)
  end.

Lemma lru_find_without l k k' : lru_find (lru_without l k) k' = if decide (k' = k) then None else lru_find l k'.
Proof.
  unfold lru_without. induction l as [|e l IH]; [by case_decide|]. cbn [lru_find].
  destruct (decide (e.1.1 = k)) as [He|He]; [rewrite filter_cons_False by tauto|rewrite filter_cons_True by done; cbn [lru_find]];
    rewrite IH; repeat case_decide; congruence.
Qed.

Lemma lru_find_fit room l k e : lru_find (lru_fit room l) k = Some e → lru_find l k = Some e.
Proof. revert room. induction l as [|e' l IH]; intros room; [done|]. cbn [lru_fit]. destruct (e'.2 <=? room); [|done]. cbn [lru_find]. case_decide; [done|]. apply IH. Qed.

Lemma sim_lru_get_fst l k : (sim_lru_get l k).1 = (λ e : bytes * bytes * Z, e.1.2) <$> lru_find (lru_entries l) k.
Proof. unfold sim_lru_get. by destruct (lru_find (lru_entries l) k). Qed.

Lemma lru_find_key l k e : lru_find l k = Some e → e.1.1 = k.
Proof. induction l as [|e' l IH]; [done|]. cbn [lru_find]. case_decide; [by intros [= <-]|done]. Qed.

#[global] Instance sim_lru : RowLRU SimLRU.
Proof.
  refine {| rlru_new := λ n, MkSimLRU n [];
            rlru_get := sim_lru_get;
            rlru_add := λ l k v n, MkSimLRU (lru_max l) (lru_fit (lru_max l) ((k, v, n) :: lru_without (lru_entries l) k));
            rlru_remove := λ l k, MkSimLRU (lru_max l) (lru_without (lru_entries l) k) |}.
  - done.
  - intros l k k'. rewrite !sim_lru_get_fst. unfold sim_lru_get. destruct (lru_find (lru_entries l) k) as [e|] eqn:E; [|done].
    cbn [snd lru_entries lru_find]. pose proof (lru_find_key _ _ _ E) as Hk. rewrite lru_find_without. repeat case_decide; congruence.
  - intros l k v n k' v'. rewrite sim_lru_get_fst. intros ([[k1 v1] n1] & Hf%lru_find_fit & ->)%fmap_Some. cbn [lru_find fst snd] in Hf |- *.
    rewrite lru_find_without in Hf. destruct (decide (k = k')), (decide (k' = k)); simplify_eq; [done|]. by rewrite sim_lru_get_fst, Hf.
  - intros l k k'. rewrite !sim_lru_get_fst. cbn [lru_entries]. rewrite lru_find_without. by case_decide.
Defined.
