(* ===== verification/Sharder.v ===== *)
(** * The sharder

    src/sharder/sharder.go: which shard a key belongs to. The hash is the FNV-1 hash of the
    SHA-256 digest, both of the standard library. *)

From stdpp Require Import base list list_numbers strings gmap.
From Stdlib Require Import ZArith Lia.
From S2P Require Import Prelude Encoding.

(** ** crypto/sha256 *)

Definition sha_K : list Z :=
  [1116352408; 1899447441; 3049323471; 3921009573; 961987163; 1508970993; 2453635748; 2870763221;
   3624381080; 310598401; 607225278; 1426881987; 1925078388; 2162078206; 2614888103; 3248222580;
   3835390401; 4022224774; 264347078; 604807628; 770255983; 1249150122; 1555081692; 1996064986;
   2554220882; 2821834349; 2952996808; 3210313671; 3336571891; 3584528711; 113926993; 338241895;
   666307205; 773529912; 1294757372; 1396182291; 1695183700; 1986661051; 2177026350; 2456956037;
   2730485921; 2820302411; 3259730800; 3345764771; 3516065817; 3600352804; 4094571909; 275423344;
   430227734; 506948616; 659060556; 883997877; 958139571; 1322822218; 1537002063; 1747873779;
   1955562222; 2024104815; 2227730452; 2361852424; 2428436474; 2756734187; 3204031479; 3329325298].

Definition sha_H0 : list Z := [1779033703; 3144134277; 1013904242; 2773480762; 1359893119; 2600822924; 528734635; 1541459225].

Definition rotr (x n : Z) : Z := Z.lor (x ≫ n) (u32 (x ≪ (32 - n))).
Definition not32 (x : Z) : Z := two32 - 1 - x.

(** The next word of the message schedule, [w] being the last sixteen, latest first. *)
Definition sha_next (w : list Z) : Z :=
  let w2 := nth 1 w 0 in
  let w7 := nth 6 w 0 in
  let w15 := nth 14 w 0 in
  let w16 := nth 15 w 0 in
  let s0 := Z.lxor (Z.lxor (rotr w15 7) (rotr w15 18)) (w15 ≫ 3) in
  let s1 := Z.lxor (Z.lxor (rotr w2 17) (rotr w2 19)) (w2 ≫ 10) in
  u32 (w16 + s0 + w7 + s1).

Fixpoint sha_schedule (n : nat) (w : list Z) : list Z :=
  match n with O => w | S n' => sha_schedule n' (sha_next w :: w) end.

Definition sha_round (v : list Z) (kw : Z * Z) : list Z :=
  match v with
  | [a; b; c; d; e; f; g; h] =>
      let s1 := Z.lxor (Z.lxor (rotr e 6) (rotr e 11)) (rotr e 25) in
      let ch := Z.lxor (Z.land e f) (Z.land (not32 e) g) in
      let t1 := u32 (h + s1 + ch + kw.1 + kw.2) in
      let s0 := Z.lxor (Z.lxor (rotr a 2) (rotr a 13)) (rotr a 22) in
      let maj := Z.lxor (Z.lxor (Z.land a b) (Z.land a c)) (Z.land b c) in
      let t2 := u32 (s0 + maj) in
      [u32 (t1 + t2); a; b; c; u32 (d + t1); e; f; g]
  | _ => v
  end.

Fixpoint words_BE (n : nat) (b : bytes) : list Z :=
  match n with O => [] | S n' => be_val (take 4 b) :: words_BE n' (drop 4 b) end.

Definition sha_block (h : list Z) (block : bytes) : list Z :=
  let w := reverse (sha_schedule 48 (reverse (words_BE 16 block))) in
  zip_with (λ a b, u32 (a + b)) h (foldl sha_round h (zip sha_K w)).

Fixpoint sha_blocks (n : nat) (h : list Z) (b : bytes) : list Z :=
  match n with O => h | S n' => sha_blocks n' (sha_block h (take 64 b)) (drop 64 b) end.

Definition sha_pad (b : bytes) : bytes :=
  b ++ 128 :: replicate (Z.to_nat ((55 - Z.of_nat (length b)) mod 64)) 0 ++ be_bytes 8 (u64 (8 * Z.of_nat (length b))).

Definition sha256 (b : bytes) : bytes :=
  let p := sha_pad b in
  concat (map (be_bytes 4) (sha_blocks (length p / 64) sha_H0 p)).

(** ** hash/fnv *)

Definition fnv32 (b : bytes) : Z := foldl (λ h x, Z.lxor (u32 (h * 16777619)) x) 2166136261 b.

(** ** The sharder *)

Definition Hash (key : bytes) : Z := fnv32 (sha256 key).

(** The ids are not there before the sharder is started. *)
Record Sharder := MkSharder {
  sh_shardIDs : option (list Z);
  sh_started : bool
}.

Definition NewSharder : Sharder := MkSharder None false.

Definition sharder_Start (s : Sharder) (allShardIDs : list Z) : Sharder :=
  if sh_started s then s else MkSharder (Some allShardIDs) true.
Definition sharder_Stop (s : Sharder) : Sharder :=
  if negb (sh_started s) then s else MkSharder (sh_shardIDs s) false.

Definition computeHashShard (key : bytes) (shardIDs : list Z) : outcome Z :=
  let n := u32 (Z.of_nat (length shardIDs)) in
  if n =? 0 then Panic "integer divide by zero" else index shardIDs (Z.to_nat (Hash key mod n)).

Inductive ShardType := ShardTypeHash | ShardTypeRange.

Definition CalculateShardWithShardIDs (shardType : ShardType) (key : bytes) (shardIDs : list Z) : outcome Z :=
  match shardType with ShardTypeHash => computeHashShard key shardIDs | ShardTypeRange => Panic "unsupported" end.

Definition CalculateShard (s : Sharder) (shardType : ShardType) (key : bytes) : outcome Z :=
  match sh_shardIDs s with
  | None => Panic "interface conversion: interface is nil"
  | Some shardIDs => CalculateShardWithShardIDs shardType key shardIDs
  end.

(** The digest of "abc", and the shard the key has. *)
Lemma sha256_abc : sha256 (lit "abc") =
  [186; 120; 22; 191; 143; 1; 207; 234; 65; 65; 64; 222; 93; 174; 34; 35; 176; 3; 97; 163; 150; 23; 122; 156; 180; 16; 255; 97; 242; 0; 21; 173].
Proof. vm_compute. reflexivity. Qed.

(** The shard of a key: the ids, picked by the hash of the key. *)
Definition hash_shard (ids : list Z) (key : bytes) : Z :=
  default 0 (ids !! Z.to_nat (Hash key mod Z.of_nat (length ids))).

(** The ids are there, and their number is a [uint32]. *)
Definition has_shards (s : Sharder) (ids : list Z) : Prop :=
  sh_shardIDs s = Some ids ∧ ids ≠ [] ∧ Z.of_nat (length ids) < two32.

Lemma CalculateShard_ok s key ids : has_shards s ids →
  CalculateShard s ShardTypeHash key = Ok (hash_shard ids key) ∧ hash_shard ids key ∈ ids.
Proof.
  intros (Hids & Hne & Hl). unfold CalculateShard, CalculateShardWithShardIDs, computeHashShard, hash_shard. rewrite Hids.
  assert (Hpos : 0 < Z.of_nat (length ids)) by (destruct ids; [done|simpl; lia]). unfold u32. rewrite Z.mod_small by lia.
  rewrite (proj2 (Z.eqb_neq _ 0)) by lia. pose proof (Z.mod_pos_bound (Hash key) (Z.of_nat (length ids)) Hpos) as Hb.
  destruct (lookup_lt_is_Some_2 ids (Z.to_nat (Hash key mod Z.of_nat (length ids)))) as [shard Hs]; [lia|].
  rewrite Hs. split; [by apply index_ok|by eapply list_elem_of_lookup_2].
Qed.
