(* ===== verification/QueryInfo.v ===== *)
(** * Queries sent to other nodes

    [QueryExecutionInfo] of src/cluster/cluster.go: what a node sends to the leader of a shard
    to have the scan of a query run there, with the arguments of a prepared statement. *)

From stdpp Require Import base list list_numbers strings.
From Stdlib Require Import ZArith Lia.
From S2P Require Import Prelude Encoding Rows.

(** The dynamic types an argument can have. *)
Inductive PsArg := PsInt64 (v : Z) | PsUint64 (v : Z) | PsFloat64 (v : float64) | PsString (v : bytes).

Record QueryExecutionInfo := MkQueryExecutionInfo {
  ExecutionID : bytes;
  SchemaName : bytes;
  Query : bytes;
  Limit : Z;
  ShardID : Z;
  SystemQuery : bool;
  PsArgTypes : list ColumnType;
  PsArgs : list PsArg;
  PreparedStatement : bool
}.

Definition appendBool (buff : bytes) (val : bool) : bytes := buff ++ [if val then 1 else 0].

(** The number of a type. *)
Definition Type_byte (t : Type_) : Z :=
  match t with
  | TypeUnknown => 0 | TypeTinyInt => 1 | TypeInt => 2 | TypeBigInt => 3 | TypeDouble => 4 | TypeDecimal => 5 | TypeVarchar => 6 | TypeTimestamp => 7
  end.

Definition appendArgType (buff : bytes) (argType : ColumnType) : bytes :=
  let buff := buff ++ [Type_byte (Type' argType)] in
  match Type' argType with
  | TypeDecimal => buff ++ [u8 (DecPrecision argType); u8 (DecScale argType)]
  | TypeTimestamp => buff ++ [u8 (FSP argType)]
  | _ => buff
  end.

Definition appendArg (buff : bytes) (argType : ColumnType) (arg : PsArg) : outcome bytes :=
  match Type' argType with
  | TypeTinyInt | TypeInt | TypeBigInt =>
      match arg with PsInt64 v => Ok (AppendUint64ToBufferLE buff (u64 v)) | _ => Err "not an int64" end
  | TypeDouble => match arg with PsFloat64 v => Ok (AppendFloat64ToBufferLE buff v) | _ => Err "not an float64" end
  | TypeVarchar | TypeDecimal | TypeTimestamp => match arg with PsString v => Ok (AppendStringToBufferLE buff v) | _ => Err "not a string" end
  | TypeUnknown => Panic "unexpected arg type"
  end.

Definition query_Serialize (q : QueryExecutionInfo) (buff : bytes) : outcome bytes :=
  let buff := AppendStringToBufferLE buff (ExecutionID q) in
  let buff := AppendStringToBufferLE buff (SchemaName q) in
  let buff := AppendStringToBufferLE buff (Query q) in
  let buff := AppendUint32ToBufferLE buff (Limit q) in
  let buff := AppendUint64ToBufferLE buff (ShardID q) in
  let buff := appendBool buff (SystemQuery q) in
  let buff := appendBool buff (PreparedStatement q) in
  if PreparedStatement q then
    let buff := AppendUint32ToBufferLE buff (u32 (Z.of_nat (length (PsArgTypes q)))) in
    let buff := foldl appendArgType buff (PsArgTypes q) in
    foldMi (λ i buff argType, arg ← index (PsArgs q) i; appendArg buff argType arg) 0 buff (PsArgTypes q)
  else Ok buff.

Definition readArgType (buff : bytes) (offset : nat) : outcome (ColumnType * nat) :=
  at_ ← index buff offset;
  let offset := (offset + 1)%nat in
  if at_ =? 1 then Ok (TinyIntColumnType, offset)
  else if at_ =? 2 then Ok (IntColumnType, offset)
  else if at_ =? 3 then Ok (BigIntColumnType, offset)
  else if at_ =? 4 then Ok (DoubleColumnType, offset)
  else if at_ =? 6 then Ok (VarcharColumnType, offset)
  else if at_ =? 5 then
    precision ← index buff offset;
    scale ← index buff (offset + 1)%nat;
    Ok (MkColumnType TypeDecimal precision scale 0, (offset + 2)%nat)
  else if at_ =? 7 then
    fsp ← index buff offset;
    Ok (MkColumnType TypeTimestamp 0 0 (i8 fsp), (offset + 1)%nat)
  else Panic "unexpected arg type".

(** An integer is read as a [uint64]. *)
Definition readArg (buff : bytes) (argType : ColumnType) (offset : nat) : outcome (PsArg * nat) :=
  match Type' argType with
  | TypeTinyInt | TypeInt | TypeBigInt => '(v, offset) ← ReadUint64FromBufferLE buff offset; Ok (PsUint64 v, offset)
  | TypeDouble => '(v, offset) ← ReadFloat64FromBufferLE buff offset; Ok (PsFloat64 v, offset)
  | TypeVarchar | TypeDecimal | TypeTimestamp => '(v, offset) ← ReadStringFromBufferLE buff offset; Ok (PsString v, offset)
  | TypeUnknown => Panic "unexpected arg type"
  end.

Definition query_Deserialize (buff : bytes) : outcome QueryExecutionInfo :=
  '(executionID, offset) ← ReadStringFromBufferLE buff 0;
  '(schemaName, offset) ← ReadStringFromBufferLE buff offset;
  '(query, offset) ← ReadStringFromBufferLE buff offset;
  '(limit, offset) ← ReadUint32FromBufferLE buff offset;
  '(shardID, offset) ← ReadUint64FromBufferLE buff offset;
  systemQuery ← index buff offset;
  preparedStatement ← index buff (offset + 1)%nat;
  let offset := (offset + 2)%nat in
  if preparedStatement =? 1 then
    '(numArgs, offset) ← ReadUint32FromBufferLE buff offset;
    '(argTypes, offset) ← foldM (λ '(ts, offset) _, '(t, offset) ← readArgType buff offset; Ok (ts ++ [t], offset)) ([], offset) (seq 0 (Z.to_nat numArgs));
    '(args, _) ← foldM (λ '(args, offset) t, '(a, offset) ← readArg buff t offset; Ok (args ++ [a], offset)) ([], offset) argTypes;
    Ok (MkQueryExecutionInfo executionID schemaName query limit shardID (systemQuery =? 1) argTypes args true)
  else Ok (MkQueryExecutionInfo executionID schemaName query limit shardID (systemQuery =? 1) [] [] false).

(** ** What is received *)

Definition str_le (s : bytes) : bytes := le_bytes 4 (Z.of_nat (length s)) ++ s.
Definition str_fits (s : bytes) : Prop := u32_ok (Z.of_nat (length s)).

Definition argType_bytes (t : ColumnType) : bytes :=
  Type_byte (Type' t) :: match Type' t with TypeDecimal => [u8 (DecPrecision t); u8 (DecScale t)] | TypeTimestamp => [u8 (FSP t)] | _ => [] end.

Definition arg_bytes (a : PsArg) : bytes :=
  match a with
  | PsInt64 v | PsUint64 v => le_bytes 8 (u64 v)
  | PsFloat64 v => le_bytes 8 (Float64bits v)
  | PsString s => str_le s
  end.

(** The argument types that the statement can have, with arguments of their types. *)
Definition argType_ok (t : ColumnType) : Prop :=
  match Type' t with
  | TypeUnknown => False
  | TypeDecimal => 0 ≤ DecPrecision t < 256 ∧ 0 ≤ DecScale t < 256 ∧ FSP t = 0
  | TypeTimestamp => DecPrecision t = 0 ∧ DecScale t = 0 ∧ -128 ≤ FSP t < 128
  | _ => DecPrecision t = 0 ∧ DecScale t = 0 ∧ FSP t = 0
  end.

Definition psarg_ok (t : ColumnType) (a : PsArg) : Prop :=
  match Type' t, a with
  | (TypeTinyInt | TypeInt | TypeBigInt), PsInt64 v => i64_ok v
  | TypeDouble, PsFloat64 v => u64_ok (Float64bits v)
  | (TypeVarchar | TypeDecimal | TypeTimestamp), PsString s => str_fits s
  | _, _ => False
  end.

Definition query_ok (q : QueryExecutionInfo) : Prop :=
  str_fits (ExecutionID q) ∧ str_fits (SchemaName q) ∧ str_fits (Query q) ∧ u32_ok (Limit q) ∧ u64_ok (ShardID q) ∧
  (PreparedStatement q = true → u32_ok (Z.of_nat (length (PsArgTypes q))) ∧ Forall argType_ok (PsArgTypes q) ∧ Forall2 psarg_ok (PsArgTypes q) (PsArgs q)).

(** An integer argument arrives as an unsigned one. *)
Definition received_arg (a : PsArg) : PsArg := match a with PsInt64 v => PsUint64 (u64 v) | _ => a end.

Definition received_query (q : QueryExecutionInfo) : QueryExecutionInfo :=
  let prepared := PreparedStatement q in
  MkQueryExecutionInfo (ExecutionID q) (SchemaName q) (Query q) (Limit q) (ShardID q) (SystemQuery q)
    (if prepared then PsArgTypes q else []) (if prepared then map received_arg (PsArgs q) else []) prepared.

(** ** Lemmas *)

Lemma AppendString_eq b s : str_fits s → AppendStringToBufferLE b s = b ++ str_le s.
Proof. intros Hs. unfold AppendStringToBufferLE, str_le. rewrite AppendUint32ToBufferLE_eq, u32_small by done. by rewrite <- app_assoc. Qed.

Lemma ReadString_eq p s rest off : off = length p → str_fits s → ReadStringFromBufferLE (p ++ str_le s ++ rest) off = Ok (s, length (p ++ str_le s)).
Proof.
  intros -> Hs. unfold str_le. rewrite <- (u32_small (Z.of_nat (length s))) at 1 by done. rewrite <- !app_assoc. rewrite ReadStringLE_app by done.
  rewrite !length_app, length_le_bytes. do 2 f_equal. lia.
Qed.

Lemma appendArgType_eq b t : appendArgType b t = b ++ argType_bytes t.
Proof. unfold appendArgType, argType_bytes. destruct (Type' t); done || by rewrite <- app_assoc. Qed.

Lemma argTypes_eq ts : ∀ b, foldl appendArgType b ts = b ++ concat (map argType_bytes ts).
Proof. induction ts as [|t ts IH]; intros b; cbn [foldl map concat]; [by rewrite app_nil_r|]. by rewrite IH, appendArgType_eq, <- app_assoc. Qed.

Lemma appendArg_eq b t a : psarg_ok t a → appendArg b t a = Ok (b ++ arg_bytes a).
Proof.
  unfold psarg_ok, appendArg. destruct (Type' t), a; try done; intros Ha; cbn [arg_bytes]; rewrite ?AppendString_eq by done; try done;
    unfold AppendFloat64ToBufferLE; by rewrite AppendUint64ToBufferLE_eq.
Qed.

Lemma args_eq ts args pre : Forall2 psarg_ok ts args → ∀ b, foldMi (λ i buff argType, arg ← index (pre ++ args) i; appendArg buff argType arg) (length pre) b ts = Ok (b ++ concat (map arg_bytes args)).
Proof.
  intros Hall. revert pre. induction Hall as [|t a ts args Ha _ IH]; intros pre b; cbn [foldMi map concat]; [by rewrite app_nil_r|].
  rewrite index_app_mid by done. osimpl. rewrite appendArg_eq by done. osimpl. specialize (IH (pre ++ [a]) (b ++ arg_bytes a)).
  rewrite length_app, <- app_assoc in IH. cbn [length app] in IH. rewrite Nat.add_1_r in IH. rewrite IH. by rewrite <- app_assoc.
Qed.

Definition query_bytes (q : QueryExecutionInfo) : bytes :=
  str_le (ExecutionID q) ++ str_le (SchemaName q) ++ str_le (Query q) ++ le_bytes 4 (Limit q) ++ le_bytes 8 (ShardID q) ++
  [if SystemQuery q then 1 else 0; if PreparedStatement q then 1 else 0] ++
  if PreparedStatement q then le_bytes 4 (Z.of_nat (length (PsArgTypes q))) ++ concat (map argType_bytes (PsArgTypes q)) ++ concat (map arg_bytes (PsArgs q)) else [].

Lemma query_Serialize_eq q buff : query_ok q → query_Serialize q buff = Ok (buff ++ query_bytes q).
Proof.
  intros (H1 & H2 & H3 & H4 & H5 & Hp). unfold query_Serialize, query_bytes, appendBool.
  rewrite !AppendString_eq, !AppendUint32ToBufferLE_eq, AppendUint64ToBufferLE_eq by done. destruct (PreparedStatement q).
  - destruct (Hp eq_refl) as (Hn & Ht & Ha). rewrite argTypes_eq, u32_small by done.
    rewrite (args_eq (PsArgTypes q) (PsArgs q) [] Ha). rewrite <- !app_assoc. done.
  - rewrite <- !app_assoc. done.
Qed.

Lemma index_app_plus {A} (p l : list A) k : index (p ++ l) (length p + k) = index l k.
Proof. unfold index. rewrite lookup_app_r by lia. by replace (length p + k - length p)%nat with k by lia. Qed.

Lemma readArgType_eq p t rest off : argType_ok t → off = length p → readArgType (p ++ argType_bytes t ++ rest) off = Ok (t, length (p ++ argType_bytes t)).
Proof.
  intros Ht ->. unfold readArgType, argType_bytes, argType_ok in *. destruct t as [ty prec scale fsp]. cbn [Type' DecPrecision DecScale FSP] in *.
  rewrite length_app. destruct ty; try done; cbn [app Type_byte]; rewrite (index_app_mid p _ _ (length p)) by done; osimpl; cbn [Z.eqb Pos.eqb length];
    rewrite <- ?Nat.add_assoc, ?index_app_plus; cbn [index lookup list_lookup Nat.add]; osimpl.
  1-4,6: destruct Ht as (-> & -> & ->); done.
  - destruct Ht as (Hp & Hs & ->). unfold u8. rewrite !Z.mod_small by lia. done.
  - destruct Ht as (-> & -> & Hf). do 3 f_equal. unfold i8, u8. Z.to_euclidean_division_equations. lia.
Qed.

(** [left_at b off l]: [l] is what is left to read of [b] at [off]. *)
Definition left_at (b : bytes) (off : nat) (l : bytes) : Prop := ∃ p, b = p ++ l ∧ off = length p.

Lemma left_at_app b off x l : left_at b off (x ++ l) → left_at b (off + length x) l.
Proof. intros (p & -> & ->). exists (p ++ x). by rewrite <- app_assoc, length_app. Qed.

Lemma left_string b off s l : str_fits s → left_at b off (str_le s ++ l) → ∃ off', ReadStringFromBufferLE b off = Ok (s, off') ∧ left_at b off' l.
Proof.
  intros Hs Hl. pose proof (left_at_app _ _ _ _ Hl) as Hn. destruct Hl as (p & -> & ->). eexists. split; [by apply ReadString_eq|].
  by rewrite length_app.
Qed.

Lemma left_u32 b off v l : u32_ok v → left_at b off (le_bytes 4 v ++ l) → ∃ off', ReadUint32FromBufferLE b off = Ok (v, off') ∧ left_at b off' l.
Proof. intros Hv Hl. pose proof (left_at_app _ _ _ _ Hl) as Hn. destruct Hl as (p & -> & ->). eexists. split; [by apply ReadUint32LE_app|]. by rewrite length_le_bytes in Hn. Qed.

Lemma left_u64 b off v l : u64_ok v → left_at b off (le_bytes 8 v ++ l) → ∃ off', ReadUint64FromBufferLE b off = Ok (v, off') ∧ left_at b off' l.
Proof. intros Hv Hl. pose proof (left_at_app _ _ _ _ Hl) as Hn. destruct Hl as (p & -> & ->). eexists. split; [by apply ReadUint64LE_app|]. by rewrite length_le_bytes in Hn. Qed.

Lemma left_byte b off x l : left_at b off (x :: l) → index b off = Ok x ∧ left_at b (off + 1) l.
Proof. intros Hl. pose proof (left_at_app b off [x] l Hl) as Hn. destruct Hl as (p & -> & ->). split; [by apply index_app_mid|done]. Qed.

Lemma left_argType b off t l : argType_ok t → left_at b off (argType_bytes t ++ l) → ∃ off', readArgType b off = Ok (t, off') ∧ left_at b off' l.
Proof.
  intros Ht Hl. pose proof (left_at_app _ _ _ _ Hl) as Hn. destruct Hl as (p & -> & ->). eexists. split; [by apply readArgType_eq|].
  by rewrite length_app.
Qed.

Lemma left_arg b off t a l : psarg_ok t a → left_at b off (arg_bytes a ++ l) → ∃ off', readArg b t off = Ok (received_arg a, off') ∧ left_at b off' l.
Proof.
  unfold psarg_ok, readArg, ReadFloat64FromBufferLE. destruct (Type' t), a as [v|v|[v]|s]; try done; intros Ha Hl; cbn [arg_bytes received_arg] in *.
  1-4: edestruct left_u64 as (off' & -> & Hn); [|exact Hl|]; [apply u64_range || exact Ha|]; by exists off'.
  all: edestruct left_string as (off' & -> & Hn); [exact Ha|exact Hl|]; by exists off'.
Qed.

Lemma left_argTypes b ts l : Forall argType_ok ts → ∀ k acc off, left_at b off (concat (map argType_bytes ts) ++ l) →
  ∃ off', foldM (λ '(ts, offset) _, '(t, offset) ← readArgType b offset; Ok (ts ++ [t], offset)) (acc, off) (seq k (length ts)) = Ok (acc ++ ts, off') ∧ left_at b off' l.
Proof.
  induction 1 as [|t ts Ht _ IH]; intros k acc off Hl; cbn [map concat length seq foldM] in *.
  - rewrite app_nil_r. by exists off.
  - rewrite <- app_assoc in Hl. destruct (left_argType _ _ _ _ Ht Hl) as (off1 & -> & H1). osimpl.
    destruct (IH (S k) (acc ++ [t]) off1 H1) as (off2 & -> & H2). exists off2. by rewrite <- app_assoc.
Qed.

Lemma left_args b ts args l : Forall2 psarg_ok ts args → ∀ acc off, left_at b off (concat (map arg_bytes args) ++ l) →
  ∃ off', foldM (λ '(args, offset) t, '(a, offset) ← readArg b t offset; Ok (args ++ [a], offset)) (acc, off) ts = Ok (acc ++ map received_arg args, off') ∧ left_at b off' l.
Proof.
  induction 1 as [|t a ts args Ha _ IH]; intros acc off Hl; cbn [map concat foldM] in *.
  - rewrite app_nil_r. by exists off.
  - rewrite <- app_assoc in Hl. destruct (left_arg _ _ _ _ _ Ha Hl) as (off1 & -> & H1). osimpl.
    destruct (IH (acc ++ [received_arg a]) off1 H1) as (off2 & -> & H2). exists off2. by rewrite <- app_assoc.
Qed.

Lemma query_Deserialize_eq q : query_ok q → query_Deserialize (query_bytes q) = Ok (received_query q).
Proof.
  intros (H1 & H2 & H3 & H4 & H5 & Hp). unfold query_Deserialize. assert (left_at (query_bytes q) 0 (query_bytes q)) as L0 by by exists [].
  unfold query_bytes at 2 in L0. set (b := query_bytes q) in *. clearbody b.
  destruct (left_string _ _ _ _ H1 L0) as (o1 & -> & L1). osimpl. destruct (left_string _ _ _ _ H2 L1) as (o2 & -> & L2). osimpl.
  destruct (left_string _ _ _ _ H3 L2) as (o3 & -> & L3). osimpl. destruct (left_u32 _ _ _ _ H4 L3) as (o4 & -> & L4). osimpl.
  destruct (left_u64 _ _ _ _ H5 L4) as (o5 & -> & L5). osimpl. cbn [app] in L5. destruct (left_byte _ _ _ _ L5) as [-> L6]. osimpl.
  destruct (left_byte _ _ _ _ L6) as [-> L7]. osimpl. replace ((if SystemQuery q then 1 else 0) =? 1) with (SystemQuery q) by by destruct (SystemQuery q).
  replace ((if PreparedStatement q then 1 else 0) =? 1) with (PreparedStatement q) by by destruct (PreparedStatement q).
  unfold received_query. destruct (PreparedStatement q); [|done]. destruct (Hp eq_refl) as (Hn & Ht & Ha).
  replace (o5 + 1 + 1)%nat with (o5 + 2)%nat in L7 by lia.
  destruct (left_u32 _ _ _ _ Hn L7) as (o6 & -> & L8). osimpl. rewrite Nat2Z.id. destruct (left_argTypes _ _ _ Ht 0 [] _ L8) as (o7 & -> & L9). osimpl.
  cbn [app]. rewrite <- (app_nil_r (concat (map arg_bytes _))) in L9. by destruct (left_args _ _ _ _ Ha [] _ L9) as (o8 & -> & _).
Qed.

(** C37. Round trip. A query whose arguments have the types of the statement is serialized without
    an error, after whatever the buffer held, and what the receiver reads is the query, except
    that an integer argument arrives as the unsigned integer with its bits. *)
Theorem query_round_trip q buff : query_ok q →
  query_Serialize q buff = Ok (buff ++ query_bytes q) ∧ query_Deserialize (query_bytes q) = Ok (received_query q).
Proof. intros Hq. split; [by apply query_Serialize_eq|by apply query_Deserialize_eq]. Qed.

Definition example_query : QueryExecutionInfo :=
  MkQueryExecutionInfo (lit "e1-10") (lit "test") (lit "select * from t where a = ? and b = ?") 1000 10 false
    [BigIntColumnType; MkColumnType TypeDecimal 10 2 0; MkColumnType TypeTimestamp 0 0 6; DoubleColumnType]
    [PsInt64 (-1); PsString (lit "1.50"); PsString (lit "2021-01-01"); PsFloat64 (Float64frombits 4607182418800017408)] true.

Lemma query_round_trip_witness : query_ok example_query ∧ query_Serialize example_query [] = Ok (query_bytes example_query) ∧ query_Deserialize (query_bytes example_query) = Ok (received_query example_query).
Proof.
  assert (query_ok example_query) as Hq.
  { split_and!; [by_decide..|]. intros _. split_and!; [by_decide| |].
    - repeat (apply Forall_cons; split; [by_decide|]). by apply Forall_nil.
    - repeat (apply Forall2_cons; split; [by_decide|]). by apply Forall2_nil. }
  split; [exact Hq|]. exact (query_round_trip example_query [] Hq).
Defined.

(** The argument [-1] arrives as [2^64 - 1], with the dynamic type [uint64], which is not the type that is asserted of it when the statement is sent. *)
Lemma negative_argument_changes : received_arg (PsInt64 (-1)) = PsUint64 18446744073709551615.
Proof. by vm_compute. Qed.
