(* ===== verification/PullEngine.v ===== *)
(** * Sessions of the pull engine

    The part of src/pull/engine.go that runs the scans of queries for other nodes: the cache of
    execution contexts, [ExecuteRemotePullQuery], the removal of the contexts of a node that
    left, and [Stop]. Parsing and planning, which the TiDB planner does, are the parameter
    [buildDAG]. A context that is in the cache is shared with the request that runs it, so a
    request that changes the context changes the cache too.

    The theorems say that a session returns the rows its scan has in pages, keeps the other
    sessions apart, and disappears with the page that ends it, and what a failed page leaves
    behind. *)

From stdpp Require Import base list list_numbers strings gmap pretty.
From Stdlib Require Import ZArith Lia.
From S2P Require Import Prelude Encoding Rows PullExec QueryInfo.

(** ** The scan of a query *)

(** A tree of executors: the two that scan, and the others with their children. *)
Inductive PullDAG (T : Type) :=
  | DagTableScan (scan : T)
  | DagIndexReader (scan : T)
  | DagExecutor (children : list (PullDAG T)).
Arguments DagTableScan {T} scan.
Arguments DagIndexReader {T} scan.
Arguments DagExecutor {T} children.

Fixpoint findTableOrIndexScan {T} (executor : PullDAG T) : option T :=
  match executor with
  | DagTableScan ts => Some ts
  | DagIndexReader ir => Some ir
  | DagExecutor children =>
      (fix loop (l : list (PullDAG T)) : option T :=
        match l with
        | [] => None
        | child :: l =>
            match findTableOrIndexScan child with
            | Some remExecutor => Some remExecutor
            | None => loop l
            end
        end) children
  end.

(** ** The engine *)

Record ExecCtx (T : Type) := MkExecCtx {
  QueryInfo : QueryExecutionInfo;
  CurrentQuery : option T
}.
Arguments MkExecCtx {T} _ _.
Arguments QueryInfo {T} _.
Arguments CurrentQuery {T} _.

Record PullEngine (T : Type) := MkPullEngine {
  queryExecCtxCache : gmap bytes (ExecCtx T);
  available : bool;
  pull_started : bool
}.
Arguments MkPullEngine {T} _ _ _.
Arguments queryExecCtxCache {T} _.
Arguments available {T} _.
Arguments pull_started {T} _.

Definition set_cache {T} (p : PullEngine T) (cache : gmap bytes (ExecCtx T)) : PullEngine T :=
  MkPullEngine cache (available p) (pull_started p).

Definition NewPullEngine {T} : PullEngine T := MkPullEngine ∅ false false.

Definition pull_Start {T} (p : PullEngine T) : PullEngine T :=
  if pull_started p then p else MkPullEngine (queryExecCtxCache p) (available p) true.

Definition pull_Stop {T} (p : PullEngine T) : PullEngine T :=
  if pull_started p then MkPullEngine ∅ false false else p.

Section engine.
Context {T : Type} `{PullExecutor T}.
(** Parsing, planning and building the executors of a query, and the types of the rows that a scan creates. *)
Variable buildDAG : QueryExecutionInfo → outcome (PullDAG T).
Variable scan_colTypes : T → list ColumnType.

(** The context of a query that is not in the cache. *)
Definition newExecCtx (queryInfo : QueryExecutionInfo) : outcome (ExecCtx T) :=
  dag ← buildDAG queryInfo;
  match findTableOrIndexScan dag with
  | Some scan => Ok (MkExecCtx queryInfo (Some scan))
  | None => Err "cannot find scan"
  end.

Definition getRowsFromCurrentQuery (fuel : nat) (execCtx : ExecCtx T) (limit : Z) : outcome (Rows * ExecCtx T) :=
  match CurrentQuery execCtx with
  | Some query =>
      '(rows, query) ← GetRows fuel query limit;
      Ok (rows, MkExecCtx (QueryInfo execCtx) (if rowCount rows <? limit then None else Some query))
  | None => Panic "nil pointer dereference"
  end.

(** What the request runs: the context in the cache, or a new one. *)
Definition requestCtx (p : PullEngine T) (queryInfo : QueryExecutionInfo) : outcome (ExecCtx T) :=
  match queryExecCtxCache p !! ExecutionID queryInfo with
  | None => newExecCtx queryInfo
  | Some execCtx =>
      if decide (Query (QueryInfo execCtx) = Query queryInfo) then Ok execCtx
      else Panic "Already executing query"
  end.

Definition ExecuteRemotePullQuery (fuel : nat) (p : PullEngine T) (queryInfo : QueryExecutionInfo) : outcome Rows * PullEngine T :=
  let cache := queryExecCtxCache p in
  let id := ExecutionID queryInfo in
  if negb (SystemQuery queryInfo) && negb (available p) then (Err "pull engine not initialised", p)
  else if decide (id = []) then (Panic "empty execution id", p)
  else match requestCtx p queryInfo with
  | Ok execCtx =>
      if Limit queryInfo =? 0 then
        (match CurrentQuery execCtx with Some query => Ok (NewRows (scan_colTypes query)) | None => Panic "nil pointer dereference" end,
         set_cache p (delete id cache))
      else match getRowsFromCurrentQuery fuel execCtx (Limit queryInfo) with
      | Ok (rows, execCtx) =>
          (Ok rows, set_cache p (if CurrentQuery execCtx is Some _ then <[id := execCtx]> cache else delete id cache))
      | Err e =>
          (Err e, set_cache p (if cache !! id is Some _ then <[id := MkExecCtx (QueryInfo execCtx) None]> cache else cache))
      | Panic e => (Panic e, p)
      | Undef => (Undef, p)
      end
  | Err e => (Err e, p)
  | Panic e => (Panic e, p)
  | Undef => (Undef, p)
  end.

(** [Range] stops at the entry for which its function returns false, here at the first. *)
Definition NumCachedExecCtxs (p : PullEngine T) : nat :=
  match map_to_list (queryExecCtxCache p) with [] => 0 | _ :: _ => 1 end.

(** The number before the first dash. *)
Fixpoint before_dash (ctxID : bytes) : option bytes :=
  match ctxID with
  | [] => None
  | c :: ctxID => if c =? 45 then Some [] else cons c <$> before_dash ctxID
  end.

(** [fmt.Sprintf("%d", n)]. *)
Definition sprint_d (n : Z) : bytes := lit (pretty n).

Definition clearExecCtxsForNode (p : PullEngine T) (nodeID : Z) : outcome (PullEngine T) :=
  idsToRemove ← foldM (λ ids '(ctxID, _),
    match before_dash ctxID with
    | None => Panic "invalid ctx id"
    | Some snid => Ok (if decide (snid = sprint_d nodeID) then ids ++ [ctxID] else ids)
    end) [] (map_to_list (queryExecCtxCache p));
  Ok (set_cache p (foldr delete (queryExecCtxCache p) idsToRemove)).

(** ** What a session returns *)

Context `{!PullContract T}.

Definition with_limit (q : QueryExecutionInfo) (limit : Z) : QueryExecutionInfo :=
  MkQueryExecutionInfo (ExecutionID q) (SchemaName q) (Query q) limit (ShardID q) (SystemQuery q) (PsArgTypes q) (PsArgs q) (PreparedStatement q).

Definition ctx_pending (execCtx : ExecCtx T) (cts : list ColumnType) (rws : list Row) : Prop :=
  ∃ scan, CurrentQuery execCtx = Some scan ∧ pending scan cts rws.

Definition answers (p : PullEngine T) (q : QueryExecutionInfo) : Prop :=
  ExecutionID q ≠ [] ∧ (SystemQuery q = true ∨ available p = true).

(** [engine_session p q cts rws]: the rows that requests for [q] have yet to return are [rws].
    A query that has no context yet gets one whose scan returns them. *)
Definition engine_session (p : PullEngine T) (q : QueryExecutionInfo) (cts : list ColumnType) (rws : list Row) : Prop :=
  answers p q ∧
  match queryExecCtxCache p !! ExecutionID q with
  | Some execCtx => Query (QueryInfo execCtx) = Query q ∧ ctx_pending execCtx cts rws
  | None => ∀ limit, ∃ execCtx, newExecCtx (with_limit q limit) = Ok execCtx ∧ Query (QueryInfo execCtx) = Query q ∧ ctx_pending execCtx cts rws
  end.

Lemma newExecCtx_query q execCtx : newExecCtx q = Ok execCtx → QueryInfo execCtx = q.
Proof. unfold newExecCtx. destruct (buildDAG q) as [dag| | |]; [|done..]. osimpl. by destruct (findTableOrIndexScan dag); intros [= <-]. Qed.

Lemma session_ctx p q cts rws limit : engine_session p q cts rws →
  ∃ execCtx, requestCtx p (with_limit q limit) = Ok execCtx ∧ Query (QueryInfo execCtx) = Query q ∧ ctx_pending execCtx cts rws.
Proof.
  intros [_ Hs]. unfold requestCtx. cbn [with_limit ExecutionID Query]. destruct (queryExecCtxCache p !! ExecutionID q) as [execCtx|]; [|exact (Hs limit)].
  destruct Hs as [Hq Hp]. exists execCtx. by rewrite decide_True.
Qed.

Lemma Execute_ctx fuel p q limit execCtx : answers p q → requestCtx p (with_limit q limit) = Ok execCtx → limit ≠ 0 →
  ExecuteRemotePullQuery fuel p (with_limit q limit) =
  match getRowsFromCurrentQuery fuel execCtx limit with
  | Ok (rows, execCtx) =>
      (Ok rows, set_cache p (if CurrentQuery execCtx is Some _ then <[ExecutionID q := execCtx]> (queryExecCtxCache p) else delete (ExecutionID q) (queryExecCtxCache p)))
  | Err e =>
      (Err e, set_cache p (if queryExecCtxCache p !! ExecutionID q is Some _ then <[ExecutionID q := MkExecCtx (QueryInfo execCtx) None]> (queryExecCtxCache p) else queryExecCtxCache p))
  | Panic e => (Panic e, p)
  | Undef => (Undef, p)
  end.
Proof.
  intros [Hid Ha] Hr Hl. unfold ExecuteRemotePullQuery. rewrite Hr. cbn [with_limit SystemQuery ExecutionID Limit].
  replace (negb (SystemQuery q) && negb (available p)) with false by (destruct Ha as [-> | ->]; [done|by rewrite andb_false_r]).
  rewrite decide_False by done. by rewrite (proj2 (Z.eqb_neq limit 0)).
Qed.

(** Sessions. A page of a session has the next rows, up to the limit. The session goes on
    with the rows after them when the page is full, and its context is gone when it is not. No
    other session changes. *)
Lemma session_pages p q cts rws limit : engine_session p q cts rws → 1 ≤ limit →
  ∃ enough out p', (∀ fuel, (enough ≤ fuel)%nat → ExecuteRemotePullQuery fuel p (with_limit q limit) = (Ok out, p')) ∧
    columnTypes out = cts ∧ rows_rep out (take (Z.to_nat limit) rws) ∧
    (if limit <=? Z.of_nat (length rws) then engine_session p' q cts (drop (Z.to_nat limit) rws) else queryExecCtxCache p' !! ExecutionID q = None) ∧
    (∀ q' cts' rws', ExecutionID q' ≠ ExecutionID q → engine_session p q' cts' rws' → engine_session p' q' cts' rws').
Proof.
  intros Hs Hl. pose proof Hs as [Ha _]. destruct (session_ctx p q cts rws limit Hs) as (execCtx & Hr & Hq & scan & Hc & Hp).
  destruct (pending_page scan cts rws limit Hp Hl) as (enough & out & scan' & Hget & Hct & Hrep & Hp').
  pose proof (pending_shape _ _ _ Hp) as [Hne _]. rewrite <- Hct in Hne.
  assert (Z.of_nat (RowCount out) = Z.min limit (Z.of_nat (length rws))) as Hcount.
  { rewrite (rep_RowCount _ _ Hrep Hne), length_take. lia. }
  set (next := MkExecCtx (QueryInfo execCtx) (if rowCount out <? limit then None else Some scan')).
  set (p' := set_cache p (if CurrentQuery next is Some _ then <[ExecutionID q := next]> (queryExecCtxCache p) else delete (ExecutionID q) (queryExecCtxCache p))).
  exists enough, out, p'. split_and!; [|done|done| |].
  - intros fuel Hf. rewrite (Execute_ctx fuel p q limit execCtx Ha Hr) by lia. unfold getRowsFromCurrentQuery. rewrite Hc, Hget by done. done.
  - unfold p', next, rowCount. cbn [CurrentQuery QueryInfo]. rewrite Hcount. destruct (Z.leb_spec limit (Z.of_nat (length rws))).
    + rewrite (proj2 (Z.ltb_ge _ _)) by lia. split; [done|]. cbn [set_cache queryExecCtxCache]. rewrite lookup_insert_eq. split; [done|]. by exists scan'.
    + rewrite (proj2 (Z.ltb_lt _ _)) by lia. cbn [set_cache queryExecCtxCache]. apply lookup_delete_eq.
  - intros q' cts' rws' Hid [Ha' Hs']. split; [done|]. unfold p'. cbn [set_cache queryExecCtxCache].
    destruct (CurrentQuery next); [rewrite lookup_insert_ne by done|rewrite lookup_delete_ne by done]; done.
Qed.

(** Closing a session. *)
Lemma session_close fuel p q cts rws : engine_session p q cts rws →
  ∃ empty, ExecuteRemotePullQuery fuel p (with_limit q 0) = (Ok empty, set_cache p (delete (ExecutionID q) (queryExecCtxCache p))).
Proof.
  intros Hs. pose proof Hs as [[Hid Ha] _]. destruct (session_ctx p q cts rws 0 Hs) as (execCtx & Hr & _ & scan & Hc & _).
  exists (NewRows (scan_colTypes scan)). unfold ExecuteRemotePullQuery. rewrite Hr. cbn [with_limit SystemQuery ExecutionID Limit].
  replace (negb (SystemQuery q) && negb (available p)) with false by (destruct Ha as [-> | ->]; [done|by rewrite andb_false_r]).
  rewrite decide_False, Hc by done. done.
Qed.

(** C39. When a page of an open session fails, the context stays in the cache without a query,
    and the next request of the session, such as the retry of the node that asked, panics. *)
Theorem failed_page_then_panic fuel fuel' p q execCtx scan limit limit' e : answers p q → 1 ≤ limit → 1 ≤ limit' →
  queryExecCtxCache p !! ExecutionID q = Some execCtx → Query (QueryInfo execCtx) = Query q →
  CurrentQuery execCtx = Some scan → GetRows fuel scan limit = Err e →
  let p' := (ExecuteRemotePullQuery fuel p (with_limit q limit)).2 in
  (ExecuteRemotePullQuery fuel p (with_limit q limit)).1 = Err e ∧
  (ExecuteRemotePullQuery fuel' p' (with_limit q limit')).1 = Panic "nil pointer dereference".
Proof.
  intros Ha Hl Hl' Hcache Hq Hc Hget. cbv zeta.
  assert (requestCtx p (with_limit q limit) = Ok execCtx) as Hr by (unfold requestCtx; cbn [with_limit ExecutionID Query]; by rewrite Hcache, decide_True).
  rewrite (Execute_ctx fuel p q limit execCtx Ha Hr) by lia. unfold getRowsFromCurrentQuery at 1 2. rewrite Hc, Hget, Hcache. osimpl. cbn [fst snd].
  split; [done|]. set (p' := set_cache p _). rewrite (Execute_ctx fuel' p' q limit' (MkExecCtx (QueryInfo execCtx) None)); [done|done| |lia].
  unfold requestCtx, p'. cbn [with_limit ExecutionID Query set_cache queryExecCtxCache]. by rewrite lookup_insert_eq, decide_True.
Qed.

(** Two queries that have the same execution id at the same time: the second one panics. *)
Lemma shared_id_panics fuel p q execCtx : answers p q → queryExecCtxCache p !! ExecutionID q = Some execCtx → Query (QueryInfo execCtx) ≠ Query q →
  ExecuteRemotePullQuery fuel p q = (Panic "Already executing query", p).
Proof.
  intros [Hid Ha] Hc Hq. unfold ExecuteRemotePullQuery, requestCtx. rewrite Hc, (decide_False (P := Query _ = _)) by done.
  replace (negb (SystemQuery q) && negb (available p)) with false by (destruct Ha as [-> | ->]; [done|by rewrite andb_false_r]). by rewrite decide_False.
Qed.
End engine.

(** A session with a scan that fails. *)
Definition failing_scan : PullLimit StaticRows := NewPullLimit [BigIntColumnType] 10 1 100 0 (MkStaticRows (NewRows [BigIntColumnType]) 0).
Definition failing_query : QueryExecutionInfo := MkQueryExecutionInfo (lit "1-7-1000") (lit "test") (lit "select * from t") 0 1000 false [] [] false.
Definition failing_engine : PullEngine (PullLimit StaticRows) :=
  MkPullEngine {[ lit "1-7-1000" := MkExecCtx failing_query (Some failing_scan) ]} true true.

Lemma failed_page_then_panic_witness :
  let run p := ExecuteRemotePullQuery (λ _, Err "no plan") limit_colTypes 1 p (with_limit failing_query 100) in
  (run failing_engine).1 = Err "Offset must be zero" ∧ (run (run failing_engine).2).1 = Panic "nil pointer dereference".
Proof.
  apply (failed_page_then_panic (λ _, Err "no plan") limit_colTypes 1 1 failing_engine failing_query (MkExecCtx failing_query (Some failing_scan)) failing_scan 100 100 "Offset must be zero").
  - split; [discriminate|by right].
  - lia.
  - lia.
  - unfold failing_engine. cbn [queryExecCtxCache]. apply lookup_singleton_eq.
  - reflexivity.
  - reflexivity.
  - reflexivity.
Defined.

(** ** A node leaves *)

Section leave.
Context {T : Type}.
Implicit Types p : PullEngine T.

Lemma lookup_foldr_delete (m : gmap bytes (ExecCtx T)) ids id : foldr delete m ids !! id = if decide (id ∈ ids) then None else m !! id.
Proof.
  induction ids as [|i ids IH]; cbn [foldr]; [by rewrite decide_False by apply not_elem_of_nil|].
  destruct (decide (i = id)) as [->|Hne]; [rewrite lookup_delete_eq, decide_True by (constructor); done|].
  rewrite lookup_delete_ne, IH by done. apply decide_ext. set_solver.
Qed.

Lemma idsToRemove_ok nodeID (l : list (bytes * ExecCtx T)) : Forall (λ '(id, _), is_Some (before_dash id)) l → ∀ ids,
  foldM (λ ids '(ctxID, _),
    match before_dash ctxID with
    | None => Panic "invalid ctx id"
    | Some snid => Ok (if decide (snid = sprint_d nodeID) then ids ++ [ctxID] else ids)
    end) ids l = Ok (ids ++ filter (λ id, before_dash id = Some (sprint_d nodeID)) l.*1).
Proof.
  induction 1 as [|[id ctx] l [n Hn] _ IH]; intros ids; cbn [foldM fmap list_fmap]; [by rewrite app_nil_r|]. cbn [fst]. rewrite Hn. osimpl. rewrite IH.
  destruct (decide (n = sprint_d nodeID)) as [->|Hne]; [rewrite filter_cons_True by done; by rewrite <- app_assoc|].
  by rewrite filter_cons_False by congruence.
Qed.

(** When a node leaves, exactly the contexts whose id starts with its number and a dash are
    removed. An id without a dash makes the removal panic. *)
Theorem node_left_clears p nodeID : map_Forall (λ id _, is_Some (before_dash id)) (queryExecCtxCache p) →
  ∃ p', clearExecCtxsForNode p nodeID = Ok p' ∧ available p' = available p ∧
    ∀ id, queryExecCtxCache p' !! id = if decide (before_dash id = Some (sprint_d nodeID)) then None else queryExecCtxCache p !! id.
Proof.
  intros Hall. unfold clearExecCtxsForNode. rewrite idsToRemove_ok; [|apply Forall_forall; intros [id ctx] Hin%elem_of_map_to_list; by apply (Hall id ctx)].
  osimpl. eexists. split_and!; [done..|]. intros id. cbn [set_cache queryExecCtxCache]. rewrite lookup_foldr_delete.
  destruct (decide (before_dash id = Some (sprint_d nodeID))) as [Hd|Hd].
  - destruct (queryExecCtxCache p !! id) as [ctx|] eqn:E; [|by destruct (decide _)]. rewrite decide_True; [done|].
    apply list_elem_of_filter. split; [done|]. apply list_elem_of_fmap. exists (id, ctx). by rewrite elem_of_map_to_list.
  - rewrite decide_False; [done|]. by intros [? _]%list_elem_of_filter.
Qed.

(** The number of cached contexts is reported as one when there are more. *)
Lemma NumCachedExecCtxs_value p : NumCachedExecCtxs p = Nat.min 1 (size (queryExecCtxCache p)).
Proof. unfold NumCachedExecCtxs. rewrite <- length_map_to_list. destruct (map_to_list (queryExecCtxCache p)); simpl; lia. Qed.
End leave.
