(* ===== verification/RemoteExecutor.v ===== *)
(** * The remote executor

    src/pull/exec/remote_executor.go: the executor that gets the rows of a query from the leaders
    of the shards. What it needs of the cluster is the class [RemoteCluster], and what the cluster
    promises it is [RemoteContract]: requests with one execution id return the rows of one scan
    in pages, and do not disturb the others.

    [GetRows] starts one goroutine for each getter it calls, and then receives from their channels
    in the order of the getters. The goroutines run in any order: the parameter [sched] gives the
    order in which those of a round make their requests. A round is over when its results are
    received, so all its goroutines have run then. When a result is an error [GetRows] returns at
    once; the definitions let the other goroutines of the round finish their requests.

    The theorems are for every order. A page has at most [limit] rows, each taken from the front
    of what a shard has left, none lost or repeated, and fewer than [limit] only when no shard has
    any left; the pages of a query have all the rows of all shards. *)

From stdpp Require Import base list list_numbers strings gmap pretty.
From Stdlib Require Import ZArith Lia.
From S2P Require Import Prelude Encoding Rows PullExec PullSort LocalStore QueryInfo PullEngine.

(** ** The cluster *)

Class RemoteCluster (C : Type) := {
  remoteQuery : nat → C → QueryExecutionInfo → list ColumnType → outcome Rows * C
}.

Class RemoteContract (C : Type) `{RemoteCluster C} := {
  session : C → QueryExecutionInfo → list ColumnType → list Row → Prop;
  session_types c q cts rws : session c q cts rws → cts ≠ [];
  session_limit c q cts rws limit : session c q cts rws → session c (with_limit q limit) cts rws;
  session_page c q cts rws limit : session c q cts rws → 1 ≤ limit < two32 →
    ∃ enough out c', (∀ fuel, (enough ≤ fuel)%nat → remoteQuery fuel c (with_limit q limit) cts = (Ok out, c')) ∧
      columnTypes out = cts ∧ rows_rep out (take (Z.to_nat limit) rws) ∧
      (limit ≤ Z.of_nat (length rws) → session c' q cts (drop (Z.to_nat limit) rws)) ∧
      (∀ q' cts' rws', ExecutionID q' ≠ ExecutionID q → session c q' cts' rws' → session c' q' cts' rws')
}.

(** ** The executor *)

Record clusterGetter := MkClusterGetter {
  getter_shardID : Z;
  complete : bool;
  queryExecInfo : QueryExecutionInfo
}.

Record RemoteExecutor := MkRemoteExecutor {
  clusterGetters : list clusterGetter;
  re_schemaName : bytes;
  completeCount : Z;
  queryInfo : QueryExecutionInfo;
  re_colTypes : list ColumnType;
  ShardIDs : list Z;
  singlePointGetQueryInfo : option QueryExecutionInfo
}.

(** [fmt.Sprintf("%s-%d", id, shardID)] *)
Definition getterID (id : bytes) (shardID : Z) : bytes := id ++ lit "-" ++ sprint_d shardID.

Definition createGetterQueryExecInfo (qei : QueryExecutionInfo) (shardID : Z) : QueryExecutionInfo :=
  MkQueryExecutionInfo (getterID (ExecutionID qei) shardID) (SchemaName qei) (Query qei) (Limit qei) shardID (SystemQuery qei)
    (PsArgTypes qei) (PsArgs qei) (PreparedStatement qei).

Definition createGetters (qei : QueryExecutionInfo) (shardIDs : list Z) : list clusterGetter :=
  map (λ shardID, MkClusterGetter shardID false (createGetterQueryExecInfo qei shardID)) shardIDs.

(** [strings.ToLower] on ASCII letters. *)
Definition ToLower (s : bytes) : bytes := map (λ c, if (65 <=? c) && (c <=? 90) then c + 32 else c) s.

(** [strings.Index(s, sub) != -1] *)
Fixpoint contains (s sub : bytes) : bool :=
  has_prefix s sub || match s with [] => false | _ :: s => contains s sub end.

Definition HasSuffix (s sub : bytes) : bool := has_prefix (reverse s) (reverse sub).

Definition SystemSchemaShardID : Z := 1000.

Definition set_system (q : QueryExecutionInfo) : QueryExecutionInfo :=
  MkQueryExecutionInfo (ExecutionID q) (SchemaName q) (Query q) (Limit q) (ShardID q) true (PsArgTypes q) (PsArgs q) (PreparedStatement q).

(** The queries of the tables that are in one shard. *)
Definition isSystemTableQuery (query : bytes) : bool :=
  let lq := ToLower query in
  contains lq (lit "from tables ") || contains lq (lit "from indexes ") || HasSuffix lq (lit "from protos").

Definition NewRemoteExecutor (qi : QueryExecutionInfo) (colTypes : list ColumnType) (schemaName : bytes) (allShardIDs pointGetShardIDs : list Z) : RemoteExecutor :=
  let system := bool_decide (schemaName = lit "sys") in
  let qi := if system then set_system qi else qi in
  let single shardID := MkRemoteExecutor [] schemaName 0 qi colTypes [] (Some (createGetterQueryExecInfo qi shardID)) in
  let many shardIDs := MkRemoteExecutor (createGetters qi shardIDs) schemaName 0 qi colTypes shardIDs None in
  if system && isSystemTableQuery (Query qi) then single SystemSchemaShardID
  else match pointGetShardIDs with
  | [] => many allShardIDs
  | [shardID] => single shardID
  | _ => many pointGetShardIDs
  end.

Section executor.
Context {C : Type} `{RemoteCluster C}.

Definition getter_GetRows (fuel : nat) (c : C) (g : clusterGetter) (cts : list ColumnType) (limit : Z) : outcome Rows * (clusterGetter * C) :=
  let qei := with_limit (queryExecInfo g) (u32 limit) in
  let '(res, c) := remoteQuery fuel c qei cts in
  let cpl := match res with Ok rows => rowCount rows <? limit | _ => complete g end in
  (res, (MkClusterGetter (getter_shardID g) cpl qei, c)).

(** The getters that a round calls. *)
Fixpoint callGetters (toGet totToGet : Z) (i : nat) (getsRequested : Z) (gs : list clusterGetter) : list nat :=
  match gs with
  | [] => []
  | g :: gs =>
      if complete g then callGetters toGet totToGet (S i) getsRequested gs
      else
        let getsRequested := getsRequested + toGet in
        i :: (if getsRequested =? totToGet then [] else callGetters toGet totToGet (S i) getsRequested gs)
  end.

(** The goroutines of the getters, in the order they run. *)
Definition runGetters (fuel : nat) (cts : list ColumnType) (toGet : Z) (order : list nat)
    (st : list clusterGetter * gmap nat (outcome Rows) * C) : list clusterGetter * gmap nat (outcome Rows) * C :=
  foldl (λ '(gs, channels, c) i,
    match gs !! i with
    | Some g =>
        let '(res, (g, c)) := getter_GetRows fuel c g cts toGet in
        (<[i := g]> gs, <[i := res]> channels, c)
    | None => (gs, channels, c)
    end) st order.

(** Receiving the results: the rows, and the count of complete getters. *)
Fixpoint receiveRows (toGet : Z) (gs : list clusterGetter) (channels : gmap nat (outcome Rows)) (called : list nat) (rows : Rows) (cc : Z) : outcome Rows * Z :=
  match called with
  | [] => (Ok rows, cc)
  | i :: called =>
      match channels !! i, gs !! i with
      | Some (Ok res), Some getter =>
          if toGet <? rowCount res then (Panic "returned too many rows", cc)
          else match AppendAll rows res with
          | Ok rows => receiveRows toGet gs channels called rows (if complete getter then cc + 1 else cc)
          | e => (e, cc)
          end
      | Some e, _ => (e, cc)
      | None, _ => (Undef, cc)
      end
  end.

Definition set_getters (re : RemoteExecutor) (gs : list clusterGetter) (cc : Z) : RemoteExecutor :=
  MkRemoteExecutor gs (re_schemaName re) cc (queryInfo re) (re_colTypes re) (ShardIDs re) (singlePointGetQueryInfo re).

Fixpoint remote_loop (rounds fuel : nat) (sched : nat → list nat → list nat) (re : RemoteExecutor) (c : C) (limit : Z) (rows : Rows) : outcome Rows * (RemoteExecutor * C) :=
  let numGetters := Z.of_nat (length (clusterGetters re)) in
  if completeCount re <? numGetters then
    match rounds with
    | O => (Undef, (re, c))
    | S rounds =>
        let totToGet := limit - rowCount rows in
        let toGet := Z.quot totToGet (numGetters - completeCount re) in
        let toGet := if toGet =? 0 then 1 else toGet in
        let gettersCalled := callGetters toGet totToGet 0 0 (clusterGetters re) in
        let '(gs, channels, c) := runGetters fuel (re_colTypes re) toGet (sched rounds gettersCalled) (clusterGetters re, ∅, c) in
        let '(res, cc) := receiveRows toGet gs channels gettersCalled rows (completeCount re) in
        let re := set_getters re gs cc in
        match res with
        | Ok rows =>
            if limit <? rowCount rows then (Panic "too many total rows", (re, c))
            else if rowCount rows =? limit then (Ok rows, (re, c))
            else remote_loop rounds fuel sched re c limit rows
        | e => (e, (re, c))
        end
    end
  else (Ok rows, (re, c)).

Definition remote_GetRows (rounds fuel : nat) (sched : nat → list nat → list nat) (re : RemoteExecutor) (c : C) (limit : Z) : outcome Rows * (RemoteExecutor * C) :=
  if limit <? 1 then (Err "invalid limit", (re, c))
  else match singlePointGetQueryInfo re with
  | Some qi =>
      let qi := with_limit qi (u32 limit) in
      let '(res, c) := remoteQuery fuel c qi (re_colTypes re) in
      (res, (MkRemoteExecutor (clusterGetters re) (re_schemaName re) (completeCount re) (queryInfo re) (re_colTypes re) (ShardIDs re) (Some qi), c))
  | None => remote_loop rounds fuel sched re c limit (NewRows (re_colTypes re))
  end.

(** The loop of [ExecuteQuery] of src/pull/engine.go: pages of an executor until one is short. *)
Fixpoint query_loop {E : Type} (get : nat → E → Z → outcome Rows * E) (pages : nat) (executor : E) (limit : Z) (rows : option Rows) : outcome Rows * E :=
  match pages with
  | O => (Undef, executor)
  | S pages =>
      let '(res, executor) := get pages executor limit in
      match res with
      | Ok r =>
          match (match rows with None => Ok r | Some rows => AppendAll rows r end) with
          | Ok rows => if rowCount r <? limit then (Ok rows, executor) else query_loop get pages executor limit (Some rows)
          | e => (e, executor)
          end
      | e => (e, executor)
      end
  end.

Definition ExecuteQuery {E : Type} (get : nat → E → Z → outcome Rows * E) (pages : nat) (built : outcome E) : outcome (outcome Rows * E) :=
  executor ← built;
  Ok (query_loop get pages executor 1000 None).

(** [Close] asks the getters that are not complete for no rows, and does not wait for them. *)
Definition remote_Close (fuel : nat) (sched : list nat → list nat) (re : RemoteExecutor) (c : C) : RemoteExecutor * C :=
  let open := filter (λ i, complete <$> clusterGetters re !! i = Some false) (seq 0 (length (clusterGetters re))) in
  let '(gs, _, c) := runGetters fuel (re_colTypes re) 0 (sched open) (clusterGetters re, ∅, c) in
  (set_getters re gs (completeCount re), c).

(** ** Lists of rows, one for each getter *)

Definition rws_at (rwss : list (list Row)) (i : nat) : list Row := default [] (rwss !! i).

Definition advance (n : nat) (called : list nat) (rwss : list (list Row)) : list (list Row) :=
  imap (λ i rws, if decide (i ∈ called) then drop n rws else rws) rwss.

Definition taken (n : nat) (called : list nat) (rwss : list (list Row)) : list (list Row) :=
  imap (λ i rws, if decide (i ∈ called) then take n rws else []) rwss.

(** [splits rwss tks rwss']: [tks] is taken from the front of the lists of [rwss], and [rwss'] is left. *)
Definition splits (rwss tks rwss' : list (list Row)) : Prop := length tks = length rwss' ∧ rwss = zip_with app tks rwss'.

Lemma splits_advance n called rwss : splits rwss (taken n called rwss) (advance n called rwss).
Proof.
  split; [by unfold taken, advance; rewrite !length_imap|]. apply list_eq. intros i. rewrite lookup_zip_with. unfold taken, advance. rewrite !list_lookup_imap.
  destruct (rwss !! i) as [rws|]; [|done]. simpl. destruct (decide (i ∈ called)); [by rewrite take_drop|done].
Qed.

Lemma splits_trans rwss t1 rwss1 t2 rwss2 : splits rwss t1 rwss1 → splits rwss1 t2 rwss2 → splits rwss (zip_with app t1 t2) rwss2.
Proof.
  intros [Hl1 ->] [Hl2 ->]. rewrite length_zip_with in Hl1. split; [rewrite length_zip_with; lia|]. assert (length t1 = length t2) as Hl by lia. clear Hl1.
  revert t2 rwss2 Hl Hl2. induction t1 as [|x t1 IH]; intros [|y t2] [|z r]; try done; simpl; intros [= H1] [= H2]. by rewrite app_assoc, <- IH.
Qed.

Lemma splits_nil rwss : splits rwss (map (λ _, []) rwss) rwss.
Proof. split; [by rewrite length_map|]. induction rwss as [|x l IH]; simpl; [done|]. by f_equal. Qed.

Lemma concat_zip_app (t1 t2 : list (list Row)) : length t1 = length t2 → concat (zip_with app t1 t2) ≡ₚ concat t1 ++ concat t2.
Proof.
  revert t2. induction t1 as [|x t1 IH]; intros [|y t2]; try done; simpl; intros [= Hl]. rewrite IH by done. rewrite <- !app_assoc. f_equiv.
  rewrite !app_assoc. f_equiv. apply Permutation_app_comm.
Qed.

Lemma splits_concat rwss tks rwss' : splits rwss tks rwss' → concat rwss ≡ₚ concat tks ++ concat rwss'.
Proof. intros [Hl ->]. by apply concat_zip_app. Qed.

Lemma concat_nil_map {A B} (l : list A) : concat (map (λ _, @nil B) l) = [].
Proof. by induction l. Qed.

Lemma imap_seq {B} (f : nat → list Row → B) rwss : imap f rwss = map (λ i, f i (rws_at rwss i)) (seq 0 (length rwss)).
Proof.
  apply list_eq. intros i. rewrite list_lookup_imap, list_lookup_fmap. destruct (rwss !! i) as [rws|] eqn:E.
  - rewrite lookup_seq_lt by by eapply lookup_lt_Some. simpl. unfold rws_at. by rewrite E.
  - apply lookup_ge_None in E. by rewrite lookup_seq_ge.
Qed.

Lemma concat_decide {A} (h : nat → list A) (called l : list nat) : concat (map (λ i, if decide (i ∈ called) then h i else []) l) = concat (map h (filter (λ i, i ∈ called) l)).
Proof. induction l as [|i l IH]; [done|]. cbn [map concat]. rewrite filter_cons. destruct (decide (i ∈ called)); cbn [map concat app]; by rewrite IH. Qed.

(** What a round takes is what its getters return. *)
Lemma taken_called n called rwss : NoDup called → Forall (λ i, (i < length rwss)%nat) called →
  concat (taken n called rwss) ≡ₚ concat (map (λ i, take n (rws_at rwss i)) called).
Proof.
  intros Hnd Hlt. unfold taken. rewrite imap_seq. cbv beta. rewrite (concat_decide (λ i, take n (rws_at rwss i))).
  assert (filter (λ i, i ∈ called) (seq 0 (length rwss)) ≡ₚ called) as Hp.
  { apply NoDup_Permutation; [apply NoDup_filter, NoDup_seq|done|]. intros i. rewrite list_elem_of_filter, elem_of_seq. rewrite Forall_forall in Hlt.
    split; [tauto|]. intros Hi. specialize (Hlt i Hi). split; [done|lia]. }
  by rewrite Hp.
Qed.

Lemma rws_at_advance n called rwss i : rws_at (advance n called rwss) i = if decide (i ∈ called) then drop n (rws_at rwss i) else rws_at rwss i.
Proof. unfold rws_at, advance. rewrite list_lookup_imap. destruct (rwss !! i); simpl; [done|]. destruct (decide (i ∈ called)); [by rewrite drop_nil|done]. Qed.

Lemma advance_ext n (l1 l2 : list nat) rwss : (∀ i, i ∈ l1 ↔ i ∈ l2) → advance n l1 rwss = advance n l2 rwss.
Proof. intros He. unfold advance. apply imap_ext. intros i x _. by apply decide_ext. Qed.

Lemma advance_cons n i called rwss : i ∉ called → advance n called (alter (drop n) i rwss) = advance n (i :: called) rwss.
Proof.
  intros Hi. apply list_eq. intros j. unfold advance. rewrite !list_lookup_imap. destruct (decide (i = j)) as [<-|Hne].
  - rewrite list_lookup_alter_eq. destruct (rwss !! i); [|done]. simpl. by rewrite decide_False, decide_True by (done || constructor).
  - rewrite list_lookup_alter_ne by done. destruct (rwss !! j); [|done]. simpl. f_equal. apply decide_ext. set_solver.
Qed.
(** ** A round *)

Context `{!RemoteContract C}.

(** What a getter has yet to return. *)
Definition getter_left (c : C) (cts : list ColumnType) (g : clusterGetter) (rws : list Row) : Prop :=
  if complete g then rws = [] else session c (queryExecInfo g) cts rws.

Definition incomplete (gs : list clusterGetter) : nat := length (filter (λ g, complete g = false) gs).

Definition getter_id (g : clusterGetter) : bytes := ExecutionID (queryExecInfo g).

Definition getters_left (c : C) (cts : list ColumnType) (gs : list clusterGetter) (rwss : list (list Row)) : Prop :=
  Forall2 (getter_left c cts) gs rwss ∧ NoDup (map getter_id gs).

Definition short (n : nat) (rwss : list (list Row)) (i : nat) : bool := (length (rws_at rwss i) <? n)%nat.

Lemma incomplete_insert gs i g g' : gs !! i = Some g → complete g = false →
  (incomplete (<[i := g']> gs) + (if complete g' then 1 else 0) = incomplete gs)%nat.
Proof.
  intros Hi Hc. destruct (list_elem_of_split_length _ _ _ Hi) as (l1 & l2 & -> & ->).
  rewrite insert_app_r_alt, Nat.sub_diag by lia. cbn [insert list_insert]. unfold incomplete. rewrite !filter_app, !length_app, (filter_cons_True _ g) by done.
  destruct (complete g') eqn:E; [rewrite filter_cons_False by congruence|rewrite filter_cons_True by done]; simpl; lia.
Qed.

Lemma getters_ids_ne gs i j g g' : NoDup (map getter_id gs) → gs !! i = Some g → gs !! j = Some g' → i ≠ j → getter_id g' ≠ getter_id g.
Proof.
  intros Hnd Hi Hj Hne He. apply Hne. eapply NoDup_lookup; [exact Hnd|..]; rewrite list_lookup_fmap; [rewrite Hi|rewrite Hj]; simpl; by f_equal.
Qed.

(** A getter's request. *)
Lemma getter_call c cts gs rwss toGet i g : getters_left c cts gs rwss → 1 ≤ toGet < two32 → gs !! i = Some g → complete g = false →
  ∃ enough out g' c', (∀ fuel, (enough ≤ fuel)%nat → getter_GetRows fuel c g cts toGet = (Ok out, (g', c'))) ∧
    columnTypes out = cts ∧ rows_rep out (take (Z.to_nat toGet) (rws_at rwss i)) ∧ complete g' = short (Z.to_nat toGet) rwss i ∧
    getters_left c' cts (<[i := g']> gs) (alter (drop (Z.to_nat toGet)) i rwss).
Proof.
  intros [Hf Hnd] Hl Hi Hc. destruct (Forall2_lookup_l _ _ _ _ _ Hf Hi) as (rws & Hr & Hg). unfold getter_left in Hg. rewrite Hc in Hg.
  destruct (session_page c _ cts rws toGet Hg Hl) as (enough & out & c' & Hq & Hct & Hrep & Hnext & Hother).
  assert (rws_at rwss i = rws) as Hat by (unfold rws_at; by rewrite Hr).
  assert ((rowCount out <? toGet) = short (Z.to_nat toGet) rwss i) as Hshort.
  { unfold rowCount. rewrite (rep_RowCount _ _ Hrep), length_take by (rewrite Hct; by eapply session_types).
    unfold short. rewrite Hat. destruct (Nat.ltb_spec (length rws) (Z.to_nat toGet)); [apply Z.ltb_lt|apply Z.ltb_ge]; lia. }
  set (g' := MkClusterGetter (getter_shardID g) (rowCount out <? toGet) (with_limit (queryExecInfo g) (u32 toGet))).
  exists enough, out, g', c'. rewrite Hat. split_and!; [|done|done|done|].
  { intros fuel Hfu. unfold getter_GetRows. rewrite u32_small by (unfold u32_ok; lia). rewrite Hq by done. unfold g'. by rewrite u32_small by (unfold u32_ok; lia). }
  split.
  - apply Forall2_lookup. intros j. destruct (decide (i = j)) as [<-|Hne].
    + rewrite list_lookup_insert_eq, list_lookup_alter_eq, Hr by by eapply lookup_lt_Some. simpl. constructor. unfold getter_left, g'. cbn [complete queryExecInfo].
      rewrite Hshort. unfold short. rewrite Hat. destruct (Nat.ltb_spec (length rws) (Z.to_nat toGet)); [apply drop_ge; lia|apply session_limit, Hnext; lia].
    + rewrite list_lookup_insert_ne, list_lookup_alter_ne by done. pose proof (proj1 (Forall2_lookup _ _ _) Hf j) as Hj. inversion Hj as [gj rj Hgj Ej Er|]; constructor.
      unfold getter_left in *. destruct (complete gj); [done|]. apply Hother; [|done]. by apply (getters_ids_ne gs i j g gj).
  - assert (map getter_id (<[i := g']> gs) = map getter_id gs) as ->; [|done].
    apply list_eq. intros j. rewrite !list_lookup_fmap. destruct (decide (i = j)) as [<-|Hne]; [|by rewrite list_lookup_insert_ne].
    rewrite list_lookup_insert_eq, Hi by by eapply lookup_lt_Some. done.
Qed.

Lemma rws_at_alter_ne n i j rwss : i ≠ j → rws_at (alter (drop n) i rwss) j = rws_at rwss j.
Proof. intros Hne. unfold rws_at. by rewrite list_lookup_alter_ne. Qed.

Lemma filter_short_alter n i rwss (order : list nat) : i ∉ order → filter (short n (alter (drop n) i rwss)) order = filter (short n rwss) order.
Proof.
  induction order as [|j order IH]; [done|]. intros [Hne Hi]%not_elem_of_cons. rewrite !filter_cons, IH by done.
  assert (short n (alter (drop n) i rwss) j = short n rwss j) as -> by (unfold short; by rewrite rws_at_alter_ne). done.
Qed.

(** What the goroutines of a round leave, whatever their order. *)
Lemma runGetters_ok cts toGet order : 1 ≤ toGet < two32 → NoDup order → ∀ gs channels c rwss,
  getters_left c cts gs rwss → Forall (λ i, ∃ g, gs !! i = Some g ∧ complete g = false) order →
  ∃ enough gs' channels' c', (∀ fuel, (enough ≤ fuel)%nat → runGetters fuel cts toGet order (gs, channels, c) = (gs', channels', c')) ∧
    getters_left c' cts gs' (advance (Z.to_nat toGet) order rwss) ∧ length gs' = length gs ∧
    (∀ i, i ∉ order → gs' !! i = gs !! i ∧ channels' !! i = channels !! i) ∧
    (∀ i, i ∈ order → ∃ g' out, gs' !! i = Some g' ∧ complete g' = short (Z.to_nat toGet) rwss i ∧ channels' !! i = Some (Ok out) ∧
      columnTypes out = cts ∧ rows_rep out (take (Z.to_nat toGet) (rws_at rwss i))) ∧
    (incomplete gs' + length (filter (short (Z.to_nat toGet) rwss) order) = incomplete gs)%nat.
Proof.
  intros Hl Hnd. induction Hnd as [|i order Hi Hnd IH]; intros gs channels c rwss Hg Hall.
  { exists O, gs, channels, c. split_and!; [done| |done|done|by intros i ?%not_elem_of_nil|simpl; lia].
    unfold advance. replace (imap _ rwss) with rwss; [done|]. symmetry. apply list_eq. intros j. rewrite list_lookup_imap. by destruct (rwss !! j). }
  apply Forall_cons in Hall as [(g & Hgi & Hgc) Hall].
  destruct (getter_call c cts gs rwss toGet i g Hg Hl Hgi Hgc) as (n1 & out & g1 & c1 & Hcall & Hct & Hrep & Hcpl & Hg1).
  destruct (IH (<[i := g1]> gs) (<[i := Ok out]> channels) c1 _ Hg1) as (n2 & gs' & ch' & c' & Hrun & Hg' & Hlen & Hout & Hin & Hinc).
  { apply Forall_forall. intros j Hj. rewrite Forall_forall in Hall. rewrite list_lookup_insert_ne by congruence. by apply Hall. }
  rewrite length_insert in Hlen. rewrite advance_cons in Hg' by done.
  exists (n1 `max` n2)%nat, gs', ch', c'. split_and!; [|done|done| | |].
  - intros fuel Hf. cbn [runGetters foldl]. rewrite Hgi, Hcall by lia. by apply Hrun; lia.
  - intros j Hj. apply not_elem_of_cons in Hj as [Hne Hj]. destruct (Hout j Hj) as [-> ->]. by rewrite list_lookup_insert_ne, lookup_insert_ne by done.
  - intros j [->|Hj]%elem_of_cons.
    + destruct (Hout i Hi) as [E1 E2]. exists g1, out. rewrite E1, E2, lookup_insert_eq, list_lookup_insert_eq by by eapply lookup_lt_Some. done.
    + destruct (Hin j Hj) as (g' & out' & E1 & E2 & E3 & E4 & E5). assert (i ≠ j) by congruence. unfold short in *. rewrite rws_at_alter_ne in E2, E5 by done.
      by exists g', out'.
  - pose proof (incomplete_insert gs i g g1 Hgi Hgc) as Hins. rewrite Hcpl in Hins.
    rewrite filter_short_alter in Hinc by done. rewrite filter_cons. destruct (short (Z.to_nat toGet) rwss i); simpl; lia.
Qed.
(** Receiving the rows of a round. *)
Lemma received_page_ok cts toGet gs channels rwss called : cts ≠ [] → 1 ≤ toGet →
  (∀ i, i ∈ called → ∃ g out, gs !! i = Some g ∧ complete g = short (Z.to_nat toGet) rwss i ∧ channels !! i = Some (Ok out) ∧
    columnTypes out = cts ∧ rows_rep out (take (Z.to_nat toGet) (rws_at rwss i))) →
  ∀ rows acc cc, columnTypes rows = cts → rows_rep rows acc →
  ∃ rows', receiveRows toGet gs channels called rows cc = (Ok rows', cc + Z.of_nat (length (filter (short (Z.to_nat toGet) rwss) called))) ∧
    columnTypes rows' = cts ∧ rows_rep rows' (acc ++ concat (map (λ i, take (Z.to_nat toGet) (rws_at rwss i)) called)).
Proof.
  intros Hne Hl. induction called as [|i called IH]; intros Hall rows acc cc Hct Hr.
  { exists rows. simpl. by rewrite app_nil_r, Z.add_0_r. }
  destruct (Hall i) as (g & out & Hg & Hc & Hch & Hco & Hrep); [by constructor|]. cbn [receiveRows map concat]. rewrite Hch, Hg.
  rewrite (proj2 (Z.ltb_ge _ _)) by (unfold rowCount; rewrite (rep_RowCount _ _ Hrep), length_take by congruence; lia).
  destruct (AppendAll_rep cts rows out acc _ Hr Hct Hrep Hco Hne) as (rows1 & -> & Hc1 & Hr1).
  destruct (IH ltac:(intros j Hj; apply Hall; by constructor) rows1 _ (if complete g then cc + 1 else cc) Hc1 Hr1) as (rows' & -> & Hc' & Hr').
  exists rows'. rewrite <- app_assoc in Hr'. split_and!; [|done|done]. rewrite filter_cons, Hc.
  destruct (short (Z.to_nat toGet) rwss i); simpl; f_equal; lia.
Qed.

(** The getters that are called are different, not complete, and asked for no more than the total. *)
Lemma callGetters_ok toGet tot gs : ∀ k r,
  Forall (λ i, (k ≤ i)%nat ∧ ∃ g, gs !! (i - k)%nat = Some g ∧ complete g = false) (callGetters toGet tot k r gs) ∧ NoDup (callGetters toGet tot k r gs).
Proof.
  induction gs as [|g gs IH]; intros k r; cbn [callGetters]; [by split; constructor|].
  assert (∀ r, Forall (λ i, (S k ≤ i)%nat ∧ ∃ g0, (g :: gs) !! (i - k)%nat = Some g0 ∧ complete g0 = false) (callGetters toGet tot (S k) r gs)) as Hrest.
  { intros r'. eapply Forall_impl; [apply (IH (S k) r')|]. intros i (Hk & g0 & Hg0 & Hc0). split; [lia|]. exists g0. by replace (i - k)%nat with (S (i - S k)) by lia. }
  assert (∀ i, (S k ≤ i)%nat ∧ (∃ g0, (g :: gs) !! (i - k)%nat = Some g0 ∧ complete g0 = false) → (k ≤ i)%nat ∧ ∃ g0, (g :: gs) !! (i - k)%nat = Some g0 ∧ complete g0 = false) as Hle by (intros i [? ?]; split; [lia|done]).
  destruct (complete g) eqn:E; [split; [eapply Forall_impl; [apply Hrest|exact Hle]|apply IH]|].
  split.
  - constructor; [split; [lia|]; exists g; by rewrite Nat.sub_diag|]. destruct (_ =? _); [constructor|]. eapply Forall_impl; [apply Hrest|exact Hle].
  - constructor; [|destruct (_ =? _); [constructor|apply IH]]. destruct (_ =? _); [apply not_elem_of_nil|].
    intros Hin. pose proof (Hrest (r + toGet)) as Hall. rewrite Forall_forall in Hall. destruct (Hall k Hin). lia.
Qed.

Lemma callGetters_total toGet tot gs : 1 ≤ toGet → ∀ k r, r + toGet * Z.of_nat (incomplete gs) ≤ tot ∨ toGet = 1 ∧ r < tot →
  r + toGet * Z.of_nat (length (callGetters toGet tot k r gs)) ≤ tot.
Proof.
  intros Hl. unfold incomplete. induction gs as [|g gs IH]; intros k r Hr; cbn [callGetters length]; [rewrite filter_nil in Hr; simpl in Hr; lia|].
  rewrite filter_cons in Hr. destruct (complete g) eqn:E.
  - rewrite decide_False in Hr by done. by apply IH.
  - rewrite decide_True in Hr by done. cbn [length] in *. destruct (Z.eqb_spec (r + toGet) tot); [simpl; lia|].
    specialize (IH (S k) (r + toGet)). lia.
Qed.

Lemma callGetters_some toGet tot gs : ∀ k r, (0 < incomplete gs)%nat → (0 < length (callGetters toGet tot k r gs))%nat.
Proof.
  unfold incomplete. induction gs as [|g gs IH]; intros k r Hi; [rewrite filter_nil in Hi; simpl in Hi; lia|]. cbn [callGetters]. rewrite filter_cons in Hi.
  destruct (complete g) eqn:E; [rewrite decide_False in Hi by done; by apply IH|simpl; lia].
Qed.

Lemma incomplete_le gs : (incomplete gs ≤ length gs)%nat.
Proof. apply length_filter. Qed.
Lemma round_length n rwss (called : list nat) : let pg := concat (map (λ i, take n (rws_at rwss i)) called) in
  (length pg ≤ n * length called ∧ n * length called ≤ length pg + n * length (filter (short n rwss) called))%nat.
Proof.
  cbv zeta. induction called as [|i called IH]; [simpl; lia|]. cbn [map concat length]. rewrite length_app, length_take, filter_cons.
  destruct (short n rwss i) eqn:E; unfold short in E; [apply Nat.ltb_lt in E|apply Nat.ltb_ge in E]; simpl; lia.
Qed.

(** What the executor has yet to return: the rows of each getter. *)
Definition remote_left (re : RemoteExecutor) (c : C) (cts : list ColumnType) (rwss : list (list Row)) : Prop :=
  re_colTypes re = cts ∧ cts ≠ [] ∧ singlePointGetQueryInfo re = None ∧
  completeCount re = Z.of_nat (length (clusterGetters re)) - Z.of_nat (incomplete (clusterGetters re)) ∧
  getters_left c cts (clusterGetters re) rwss.

Lemma toGet_bounds tot n : 1 ≤ tot → 1 ≤ n → let toGet := Z.quot tot n in let toGet := if toGet =? 0 then 1 else toGet in
  1 ≤ toGet ≤ tot ∧ (toGet * n ≤ tot ∨ toGet = 1).
Proof.
  intros Ht Hn. cbv zeta. rewrite Z.quot_div_nonneg by lia. pose proof (Z.mul_div_le tot n). pose proof (Z.div_pos tot n).
  destruct (Z.eqb_spec (tot / n) 0); [lia|]. nia.
Qed.

(** One round of the loop. *)
Lemma remote_round cts limit sched rounds re c rows got rwss : (∀ r l, sched r l ≡ₚ l) →
  remote_left re c cts rwss → columnTypes rows = cts → rows_rep rows got → Z.of_nat (length got) < limit < two32 → (0 < incomplete (clusterGetters re))%nat →
  ∃ enough re' c' rows' pg tks rwss',
    (∀ fuel, (enough ≤ fuel)%nat → remote_loop (S rounds) fuel sched re c limit rows =
      if rowCount rows' =? limit then (Ok rows', (re', c')) else remote_loop rounds fuel sched re' c' limit rows') ∧
    columnTypes rows' = cts ∧ rows_rep rows' (got ++ pg) ∧ pg ≡ₚ concat tks ∧ splits rwss tks rwss' ∧ remote_left re' c' cts rwss' ∧
    Z.of_nat (length (got ++ pg)) ≤ limit ∧ (incomplete (clusterGetters re') < incomplete (clusterGetters re) + length pg)%nat ∧
    (incomplete (clusterGetters re') ≤ incomplete (clusterGetters re))%nat.
Proof.
  intros Hsched (Hct & Hne & Hsp & Hcc & Hg) Hrc Hrep Hlim Hinc.
  set (tot := limit - Z.of_nat (length got)). set (n := Z.of_nat (length (clusterGetters re)) - completeCount re).
  destruct (toGet_bounds tot n) as [Ht1 Ht2]; [lia..|]. set (toGet := if Z.quot tot n =? 0 then 1 else Z.quot tot n) in *.
  set (called := callGetters toGet tot 0 0 (clusterGetters re)).
  destruct (callGetters_ok toGet tot (clusterGetters re) 0 0) as [Hcall Hnd]. fold called in Hcall, Hnd.
  assert (Forall (λ i, ∃ g, clusterGetters re !! i = Some g ∧ complete g = false) called) as Hopen.
  { eapply Forall_impl; [exact Hcall|]. intros i (_ & g & Hgi & Hgc). exists g. by rewrite Nat.sub_0_r in Hgi. }
  assert (Hl : 1 ≤ toGet < two32) by lia. pose proof (Hsched rounds called) as Hperm.
  destruct (runGetters_ok cts toGet (sched rounds called) Hl ltac:(by rewrite Hperm) (clusterGetters re) ∅ c rwss Hg ltac:(by rewrite Hperm))
    as (enough & gs' & ch' & c' & Hrun & Hg' & Hlen & _ & Hin & Hinc').
  rewrite (advance_ext _ _ called) in Hg' by (intros i; by rewrite Hperm). rewrite Hperm in Hinc'.
  destruct (received_page_ok cts toGet gs' ch' rwss called Hne ltac:(lia) ltac:(intros i Hi; apply Hin; by rewrite Hperm) rows got (completeCount re) Hrc Hrep)
    as (rows' & Hrecv & Hc' & Hr').
  destruct (round_length (Z.to_nat toGet) rwss called) as [Hpg1 Hpg2]. set (pg := concat _) in *.
  pose proof (callGetters_total toGet tot (clusterGetters re) ltac:(lia) 0 0 ltac:(lia)) as Htot. fold called in Htot.
  pose proof (callGetters_some toGet tot (clusterGetters re) 0 0 Hinc) as Hsome. fold called in Hsome.
  assert (Z.of_nat (length (got ++ pg)) ≤ limit) as Hle by (rewrite length_app; unfold tot in *; nia).
  assert (rowCount rows' = Z.of_nat (length (got ++ pg))) as Hcount by (unfold rowCount; rewrite (rep_RowCount _ _ Hr') by congruence; done).
  assert (rowCount rows = Z.of_nat (length got)) as Hcount0 by (unfold rowCount; rewrite (rep_RowCount _ _ Hrep) by congruence; done).
  exists enough, (set_getters re gs' (completeCount re + Z.of_nat (length (filter (short (Z.to_nat toGet) rwss) called)))), c', rows', pg,
    (taken (Z.to_nat toGet) called rwss), (advance (Z.to_nat toGet) called rwss).
  split_and!; try done.
  - intros fuel Hf. cbn [remote_loop]. rewrite (proj2 (Z.ltb_lt _ _)) by lia. rewrite Hcount0. fold tot n toGet called. rewrite Hct, Hrun, Hrecv by done.
    rewrite (proj2 (Z.ltb_ge limit _)) by lia. done.
  - symmetry. apply taken_called; [done|]. eapply Forall_impl; [exact Hopen|]. intros i (g & Hgi & _). apply lookup_lt_Some in Hgi.
    destruct Hg as [Hf _]. by rewrite <- (Forall2_length _ _ _ Hf).
  - apply splits_advance.
  - split_and!; try done. cbn [set_getters clusterGetters completeCount]. lia.
  - cbn [set_getters clusterGetters]. nia.
  - cbn [set_getters clusterGetters]. lia.
Qed.
Lemma complete_nothing_left c cts gs rwss : getters_left c cts gs rwss → incomplete gs = O → Forall (λ rws, rws = []) rwss.
Proof.
  intros [Hf _]. unfold incomplete. induction Hf as [|g rws gs rwss Hg _ IH]; [done|]. rewrite filter_cons. unfold getter_left in Hg.
  destruct (complete g) eqn:E; [rewrite decide_False by done|rewrite decide_True by done; done]. intros Hi. constructor; [done|by apply IH].
Qed.

Lemma remote_loop_ok cts limit sched : (∀ r l, sched r l ≡ₚ l) → ∀ rounds re c rows got rwss,
  remote_left re c cts rwss → columnTypes rows = cts → rows_rep rows got → Z.of_nat (length got) < limit < two32 →
  (Z.to_nat limit - length got + incomplete (clusterGetters re) ≤ rounds)%nat →
  ∃ enough out re' c' pg tks rwss', (∀ fuel, (enough ≤ fuel)%nat → remote_loop rounds fuel sched re c limit rows = (Ok out, (re', c'))) ∧
    columnTypes out = cts ∧ rows_rep out (got ++ pg) ∧ pg ≡ₚ concat tks ∧ splits rwss tks rwss' ∧ remote_left re' c' cts rwss' ∧
    Z.of_nat (length (got ++ pg)) ≤ limit ∧ (Z.of_nat (length (got ++ pg)) < limit → Forall (λ rws, rws = []) rwss').
Proof.
  intros Hsched. induction rounds as [|rounds IH]; intros re c rows got rwss Hre Hct Hrep Hlim Hm; [lia|].
  destruct (decide (incomplete (clusterGetters re) = O)) as [Hz|Hz].
  { exists O, rows, re, c, [], (map (λ _, []) rwss), rwss. rewrite app_nil_r, concat_nil_map. pose proof Hre as (_ & _ & _ & Hcc & Hg). split_and!; try done; [|apply splits_nil|lia|].
    - intros fuel _. cbn [remote_loop]. by rewrite (proj2 (Z.ltb_ge _ _)) by lia.
    - intros _. by apply (complete_nothing_left c cts (clusterGetters re)). }
  destruct (remote_round cts limit sched rounds re c rows got rwss Hsched Hre Hct Hrep Hlim ltac:(lia))
    as (n1 & re1 & c1 & rows1 & pg1 & tk1 & rwss1 & Heq & Hc1 & Hr1 & Hp1 & Hs1 & Hre1 & Hle1 & Hdec & _).
  assert (rowCount rows1 = Z.of_nat (length (got ++ pg1))) as Hcount.
  { unfold rowCount. rewrite (rep_RowCount _ _ Hr1); [done|]. destruct Hre as (_ & Hne & _). congruence. }
  destruct (Z.eqb_spec (rowCount rows1) limit) as [Hfull|Hmore].
  { exists n1, rows1, re1, c1, pg1, tk1, rwss1. split_and!; try done. lia. }
  rewrite length_app in *.
  destruct (IH re1 c1 rows1 (got ++ pg1) rwss1 Hre1 Hc1 Hr1) as (n2 & out & re2 & c2 & pg2 & tk2 & rwss2 & Heq2 & Hc2 & Hr2 & Hp2 & Hs2 & Hre2 & Hle2 & Hend);
    [rewrite length_app; lia..|].
  exists (n1 `max` n2)%nat, out, re2, c2, (pg1 ++ pg2), (zip_with app tk1 tk2), rwss2. rewrite app_assoc. split_and!; try done.
  - intros fuel Hf. rewrite Heq by lia. apply Heq2. lia.
  - rewrite concat_zip_app, Hp1, Hp2; [done|]. destruct Hs1 as [Hl1 _], Hs2 as [Hl2 E2]. apply (f_equal length) in E2. rewrite length_zip_with in E2. lia.
  - by apply (splits_trans _ _ rwss1).
Qed.

Lemma remote_GetRows_loop rounds fuel sched re c cts rwss limit : remote_left re c cts rwss → 1 ≤ limit →
  remote_GetRows rounds fuel sched re c limit = remote_loop rounds fuel sched re c limit (NewRows cts).
Proof. intros (Hct & _ & Hsp & _) Hl. unfold remote_GetRows. by rewrite (proj2 (Z.ltb_ge limit 1)), Hsp, Hct by lia. Qed.

(** C12. A page. For every order of the goroutines, [GetRows] returns without an error or a panic,
    after at most as many rounds as the limit and the open getters together. The page has at most
    [limit] rows. They are taken from the front of what the shards have left, none is lost and
    none is repeated, and there are fewer than [limit] only if no shard has rows left. *)
Theorem remote_page cts limit sched rounds re c rwss : (∀ r l, sched r l ≡ₚ l) → remote_left re c cts rwss → 1 ≤ limit < two32 →
  (Z.to_nat limit + incomplete (clusterGetters re) ≤ rounds)%nat →
  ∃ enough out re' c' pg tks rwss', (∀ fuel, (enough ≤ fuel)%nat → remote_GetRows rounds fuel sched re c limit = (Ok out, (re', c'))) ∧
    columnTypes out = cts ∧ rows_rep out pg ∧ pg ≡ₚ concat tks ∧ splits rwss tks rwss' ∧ remote_left re' c' cts rwss' ∧
    Z.of_nat (length pg) ≤ limit ∧ (Z.of_nat (length pg) < limit → Forall (λ rws, rws = []) rwss').
Proof.
  intros Hsched Hre Hl Hm.
  destruct (remote_loop_ok cts limit sched Hsched rounds re c (NewRows cts) [] rwss Hre eq_refl (NewRows_rep cts)) as (n & out & re' & c' & pg & tks & rwss' & Heq & Hall);
    [simpl; lia|simpl; lia|]. exists n, out, re', c', pg, tks, rwss'. split; [|exact Hall]. intros fuel Hf. rewrite (remote_GetRows_loop _ _ _ _ _ cts rwss) by (done || lia). by apply Heq.
Qed.

(** ** A whole query *)

(** The pages of a remote executor, whose goroutines run in the order [sched page round]. *)
Definition remote_get (rounds fuel : nat) (sched : nat → nat → list nat → list nat) (page : nat) (e : RemoteExecutor * C) (limit : Z) : outcome Rows * (RemoteExecutor * C) :=
  remote_GetRows rounds fuel (sched page) e.1 e.2 limit.

Lemma empty_concat (rwss : list (list Row)) : Forall (λ rws, rws = []) rwss → concat rwss = [].
Proof. by induction 1 as [|rws rwss -> _ IH]. Qed.

Lemma splits_length rwss tks rwss' : splits rwss tks rwss' → length rwss' = length rwss.
Proof. intros [Hl ->]. rewrite length_zip_with. lia. Qed.

Lemma remote_getters_length re c cts rwss : remote_left re c cts rwss → (incomplete (clusterGetters re) ≤ length rwss)%nat.
Proof. intros (_ & _ & _ & _ & Hf & _). rewrite <- (Forall2_length _ _ _ Hf). apply incomplete_le. Qed.

Lemma query_loop_ok cts limit sched rounds : (∀ page r l, sched page r l ≡ₚ l) → 1 ≤ limit < two32 → ∀ pages re c rows got rwss,
  remote_left re c cts rwss → (Z.to_nat limit + length rwss ≤ rounds)%nat → (length (concat rwss) < pages)%nat →
  match rows with Some rows => columnTypes rows = cts ∧ rows_rep rows got | None => got = [] end →
  ∃ enough out e' all, (∀ fuel, (enough ≤ fuel)%nat → query_loop (remote_get rounds fuel sched) pages (re, c) limit rows = (Ok out, e')) ∧
    columnTypes out = cts ∧ rows_rep out (got ++ all) ∧ all ≡ₚ concat rwss.
Proof.
  intros Hsched Hl. induction pages as [|pages IH]; intros re c rows got rwss Hre Hrounds Hpages Hrows; [lia|].
  pose proof (remote_getters_length _ _ _ _ Hre) as Hinc.
  destruct (remote_loop_ok cts limit (sched pages) (Hsched pages) rounds re c (NewRows cts) [] rwss Hre eq_refl (NewRows_rep cts))
    as (n1 & r & re1 & c1 & pg & tks & rwss1 & Heq & Hc1 & Hr1 & Hp1 & Hs1 & Hre1 & Hle & Hend); [simpl; lia|simpl; lia|]. cbn [app] in *.
  pose proof (splits_concat _ _ _ Hs1) as Hsplit. rewrite <- Hp1 in Hsplit. pose proof Hre as (_ & Hne & _).
  assert (∃ rows1, (match rows with None => Ok r | Some rows => AppendAll rows r end) = Ok rows1 ∧ columnTypes rows1 = cts ∧ rows_rep rows1 (got ++ pg)) as (rows1 & Happ & Hcr & Hrr).
  { destruct rows as [rows|]; [destruct Hrows as [? ?]; by apply AppendAll_rep|]. subst got. by exists r. }
  assert (rowCount r = Z.of_nat (length pg)) as Hcount by (unfold rowCount; rewrite (rep_RowCount _ _ Hr1) by congruence; done).
  assert (∀ fuel, (n1 ≤ fuel)%nat → remote_get rounds fuel sched pages (re, c) limit = (Ok r, (re1, c1))) as Hget.
  { intros fuel Hf. unfold remote_get. cbn [fst snd]. rewrite (remote_GetRows_loop _ _ _ _ _ cts rwss) by (done || lia). by apply Heq. }
  destruct (Z.ltb_spec (rowCount r) limit) as [Hshort|Hfull].
  - exists n1, rows1, (re1, c1), pg. split_and!; try done.
    + intros fuel Hf. cbn [query_loop]. rewrite Hget, Happ by done. by rewrite (proj2 (Z.ltb_lt _ _)).
    + rewrite Hsplit, (empty_concat rwss1), app_nil_r by (apply Hend; lia). done.
  - assert (length (concat rwss) = length pg + length (concat rwss1))%nat as Hlen by (rewrite Hsplit, length_app; done).
    destruct (IH re1 c1 (Some rows1) (got ++ pg) rwss1) as (n2 & out & e' & all & Heq2 & Hc2 & Hr2 & Hp2); [done|by rewrite (splits_length _ _ _ Hs1)|lia|done|].
    exists (n1 `max` n2)%nat, out, e', (pg ++ all). rewrite app_assoc. split_and!; try done.
    + intros fuel Hf. cbn [query_loop]. rewrite Hget, Happ by lia. rewrite (proj2 (Z.ltb_ge _ _)) by lia. apply Heq2. lia.
    + by rewrite Hp2, Hsplit.
Qed.

(** ** A new executor *)

Lemma lit_inj s1 s2 : lit s1 = lit s2 → s1 = s2.
Proof.
  revert s2. induction s1 as [|a s1 IH]; intros [|b s2]; try done. cbn [lit]. intros [= Hc Hs]. f_equal; [|by apply IH].
  apply N2Z.inj in Hc. rewrite <- (Ascii.ascii_N_embedding a), <- (Ascii.ascii_N_embedding b). by f_equal.
Qed.

Lemma getterID_inj id s1 s2 : getterID id s1 = getterID id s2 → s1 = s2.
Proof. unfold getterID, sprint_d. intros He%app_inv_head%app_inv_head. apply lit_inj in He. by apply (inj pretty) in He. Qed.

Lemma incomplete_new q shards : incomplete (createGetters q shards) = length shards.
Proof. unfold incomplete, createGetters. induction shards as [|s shards IH]; [done|]. cbn [map]. rewrite filter_cons_True by done. simpl. by f_equal. Qed.

Lemma new_getters q cts schemaName all points : let re := NewRemoteExecutor q cts schemaName all points in
  singlePointGetQueryInfo re = None → clusterGetters re = createGetters (queryInfo re) (ShardIDs re) ∧ completeCount re = 0 ∧ re_colTypes re = cts.
Proof. cbv zeta. unfold NewRemoteExecutor. destruct (bool_decide _ && _); [done|]. by destruct points as [|? [|? ?]]. Qed.

(** The getters of a new executor have the rows of their shards. *)
Lemma new_remote_left q cts schemaName all points c rwss : let re := NewRemoteExecutor q cts schemaName all points in
  singlePointGetQueryInfo re = None → cts ≠ [] → NoDup (ShardIDs re) →
  Forall2 (λ shardID rws, session c (createGetterQueryExecInfo (queryInfo re) shardID) cts rws) (ShardIDs re) rwss → remote_left re c cts rwss.
Proof.
  cbv zeta. intros Hsp Hne Hnd Hs. destruct (new_getters _ _ _ _ _ Hsp) as (Hg & Hcc & Hct). unfold remote_left, getters_left. rewrite Hg, Hcc, incomplete_new.
  split_and!; try done.
  - unfold createGetters. rewrite length_map. lia.
  - apply Forall2_fmap_l. eapply Forall2_impl; [exact Hs|]. done.
  - unfold createGetters. rewrite map_map. apply NoDup_fmap_2; [|done]. intros s1 s2. apply getterID_inj.
Qed.
End executor.
