(* ===== verification/RemoteCluster.v ===== *)
(** * Queries between nodes

    How a request of the remote executor reaches the engine of the node that leads the shard:
    [ExecuteRemotePullQuery], [LinearizableGet] and [executeRead] of src/cluster/dragon/dragon.go and
    [Lookup] of src/cluster/dragon/shard_odsm.go. The request is serialized and read again on the
    other node, and so are the rows it returns, with the codec of the TiDB chunks, which is a
    parameter; an error of the store in a [LinearizableGet] is left out. A panic in [Lookup] ends the
    process of the node. The node that leads a shard is given by a map; [executeRead] waits for a
    leader for a limited time, so without one the request fails. The time for which a failed query
    is tried again is a number of retries.

    With this the cluster keeps the contract that the remote executor relies on, and a query returns
    the rows of all shards, from the scans on the leaders to the loop of [ExecuteQuery]. *)

From stdpp Require Import base list list_numbers strings gmap pretty.
From Stdlib Require Import ZArith Lia.
From S2P Require Import Prelude Encoding Timestamp Decimal Rows Store WriteBatch LocalStore PullExec QueryInfo PullEngine RemoteExecutor.

Definition shardStateMachineLookupPing : Z := 1.
Definition shardStateMachineLookupQuery : Z := 2.
Definition shardStateMachineLookupGet : Z := 3.

(** A node: its pull engine and its store. *)
Record QueryNode (T DB : Type) := MkQueryNode {
  node_engine : PullEngine T;
  node_store : DB
}.
Arguments MkQueryNode {T DB} _ _.
Arguments node_engine {T DB} _.
Arguments node_store {T DB} _.

Record QueryCluster (T DB : Type) := MkQueryCluster {
  qc_started : bool;
  qc_leaders : gmap Z Z;
  qc_nodes : gmap Z (QueryNode T DB)
}.
Arguments MkQueryCluster {T DB} _ _ _.
Arguments qc_started {T DB} _.
Arguments qc_leaders {T DB} _.
Arguments qc_nodes {T DB} _.

Section cluster.
Context {T : Type} `{PullContract T} {DB : Type} `{KVStore DB}.
(** What a node builds for a query, the types of a scan's rows, and the codec. *)
Variable buildDAG : Z → QueryExecutionInfo → outcome (PullDAG T).
Variable scan_colTypes : T → list ColumnType.
Variable Encode : Rows → bytes.
Variable DecodeToChunk : list ColumnType → bytes → Rows.

Definition encodeError (msg : string) : bytes := 0 :: lit msg.

(** [Lookup]; a ping has the result nil. *)
Definition Lookup (fuel : nat) (nodeID : Z) (n : QueryNode T DB) (buff : bytes) : outcome (option bytes) * QueryNode T DB :=
  match index buff 0 with
  | Ok typ =>
      if typ =? shardStateMachineLookupPing then (Ok None, n)
      else if typ =? shardStateMachineLookupQuery then
        match query_Deserialize (drop 1 buff) with
        | Ok queryInfo =>
            let '(res, engine) := ExecuteRemotePullQuery (buildDAG nodeID) scan_colTypes fuel (node_engine n) queryInfo in
            let n := MkQueryNode engine (node_store n) in
            match res with
            | Ok rows => (Ok (Some (1 :: Encode rows)), n)
            | Err e => (Ok (Some (encodeError e)), n)
            | Panic e => (Panic e, n)
            | Undef => (Undef, n)
            end
        | Err e => (Err e, n)
        | Panic e => (Panic e, n)
        | Undef => (Undef, n)
        end
      else if typ =? shardStateMachineLookupGet then
        ('(keyLen, _) ← ReadUint32FromBufferLE buff 1;
         key ← slice buff 5 (Z.to_nat (u32 (5 + keyLen)));
         Ok (Some (1 :: default [] (LocalGet (node_store n) key))), n)
      else (Panic "invalid lookup type", n)
  | _ => (Panic "index out of range", n)
  end.

Definition executeRead (fuel : nat) (c : QueryCluster T DB) (shardID : Z) (request : bytes) : outcome bytes * QueryCluster T DB :=
  match qc_leaders c !! shardID with
  | None => (Err "timed out sending rpc to leader", c)
  | Some leaderNodeID =>
      match qc_nodes c !! leaderNodeID with
      | None => (Err "failed to send rpc", c)
      | Some n =>
          let '(res, n) := Lookup fuel leaderNodeID n request in
          (default [] <$> res, MkQueryCluster (qc_started c) (qc_leaders c) (<[leaderNodeID := n]> (qc_nodes c)))
      end
  end.

(** A request that is tried again while its answer starts with a zero. *)
Fixpoint readWithRetry (failure : string) (retries fuel : nat) (c : QueryCluster T DB) (shardID : Z) (request : outcome bytes) : outcome bytes * QueryCluster T DB :=
  match request with
  | Ok req =>
      let '(res, c) := executeRead fuel c shardID req in
      match res with
      | Ok bs =>
          match bs with
          | [] => (Panic "index out of range", c)
          | 0 :: msg => match retries with O => (Err failure, c) | S retries => readWithRetry failure retries fuel c shardID request end
          | _ :: result => (Ok result, c)
          end
      | e => (e, c)
      end
  | e => (e, c)
  end.

Definition dragon_ExecuteRemotePullQuery (retries fuel : nat) (c : QueryCluster T DB) (q : QueryExecutionInfo) (colTypes : list ColumnType) : outcome Rows * QueryCluster T DB :=
  if negb (qc_started c) then (Err "failed to execute query: not started", c)
  else if ShardID q <? DataShardIDBase then (Panic "invalid shard cluster id", c)
  else
    let '(res, c) := readWithRetry "failed to execute remote query" retries fuel c (ShardID q) (query_Serialize q [shardStateMachineLookupQuery]) in
    (DecodeToChunk colTypes <$> res, c).

(** An empty value is returned as nil, as is a missing one. *)
Definition LinearizableGet (retries fuel : nat) (c : QueryCluster T DB) (shardID : Z) (key : bytes) : outcome (option bytes) * QueryCluster T DB :=
  if negb (qc_started c) then (Err "failed to execute query: not started", c)
  else if shardID <? DataShardIDBase then (Panic "invalid shard cluster id", c)
  else
    let request := AppendUint32ToBufferLE [shardStateMachineLookupGet] (u32 (Z.of_nat (length key))) ++ key in
    let '(res, c) := readWithRetry "failed to execute cluster get" retries fuel c shardID (Ok request) in
    ((λ value, match value with [] => None | _ => Some value end) <$> res, c).

(** ** The contract of the remote executor *)

(** What the codec promises: rows that are encoded are decoded. *)
Hypothesis codec : ∀ r rws, rows_rep r rws →
  columnTypes (DecodeToChunk (columnTypes r) (Encode r)) = columnTypes r ∧ rows_rep (DecodeToChunk (columnTypes r) (Encode r)) rws.

(** The query can be sent, whatever its limit is. *)
Definition sendable (q : QueryExecutionInfo) : Prop := DataShardIDBase ≤ ShardID q ∧ ∀ limit, u32_ok limit → query_ok (with_limit q limit).

(** The leader of the shard of [q] has the session. *)
Definition cluster_session (c : QueryCluster T DB) (q : QueryExecutionInfo) (cts : list ColumnType) (rws : list Row) : Prop :=
  qc_started c = true ∧ sendable q ∧
  ∃ nodeID n, qc_leaders c !! ShardID q = Some nodeID ∧ qc_nodes c !! nodeID = Some n ∧
    engine_session (buildDAG nodeID) (node_engine n) (received_query q) cts rws.

Lemma received_limit q limit : received_query (with_limit q limit) = with_limit (received_query q) limit.
Proof. done. Qed.

Lemma engine_session_types p q cts rws nodeID : engine_session (buildDAG nodeID) p q cts rws → cts ≠ [].
Proof.
  intros [_ Hs]. destruct (queryExecCtxCache p !! ExecutionID q) as [ctx|]; [destruct Hs as (_ & scan & _ & Hp)|destruct (Hs 0) as (ctx & _ & _ & scan & _ & Hp)];
    by apply (pending_shape _ _ _ Hp).
Qed.

Lemma cluster_session_limit c q cts rws limit : cluster_session c q cts rws → cluster_session c (with_limit q limit) cts rws.
Proof. intros (Hst & [Hd Hq] & n & nd & Hl & Hn & Hs). split_and!; [done|split; done|]. by exists n, nd. Qed.

(** The first byte of the request selects the query, and the rest is the query. *)
Lemma Lookup_query fuel nodeID n q limit rows engine : query_ok (with_limit q limit) →
  ExecuteRemotePullQuery (buildDAG nodeID) scan_colTypes fuel (node_engine n) (with_limit (received_query q) limit) = (Ok rows, engine) →
  Lookup fuel nodeID n ([shardStateMachineLookupQuery] ++ query_bytes (with_limit q limit)) = (Ok (Some (1 :: Encode rows)), MkQueryNode engine (node_store n)).
Proof. intros Hq He. unfold Lookup. cbn [app index lookup list_lookup drop]. rewrite drop_0, query_Deserialize_eq, received_limit, He by done. done. Qed.

Lemma dragon_page c q cts rws limit retries : cluster_session c q cts rws → 1 ≤ limit < two32 →
  ∃ enough out c', (∀ fuel, (enough ≤ fuel)%nat → dragon_ExecuteRemotePullQuery retries fuel c (with_limit q limit) cts = (Ok out, c')) ∧
    columnTypes out = cts ∧ rows_rep out (take (Z.to_nat limit) rws) ∧
    (limit ≤ Z.of_nat (length rws) → cluster_session c' q cts (drop (Z.to_nat limit) rws)) ∧
    (∀ q' cts' rws', ExecutionID q' ≠ ExecutionID q → cluster_session c q' cts' rws' → cluster_session c' q' cts' rws').
Proof.
  intros (Hst & Hsend & nodeID & n & Hl & Hn & Hs) Hlim. pose proof Hsend as [Hd Hq].
  destruct (session_pages (buildDAG nodeID) scan_colTypes (node_engine n) (received_query q) cts rws limit Hs ltac:(lia)) as (enough & out & engine & Hex & Hct & Hrep & Hnext & Hother).
  destruct (codec out _ Hrep) as [Hdc Hdr]. rewrite Hct in Hdc, Hdr.
  set (c' := MkQueryCluster (qc_started c) (qc_leaders c) (<[nodeID := MkQueryNode engine (node_store n)]> (qc_nodes c))).
  exists enough, (DecodeToChunk cts (Encode out)), c'. split_and!; [|done|done| |].
  - intros fuel Hf. unfold dragon_ExecuteRemotePullQuery. rewrite Hst. cbn [negb with_limit ShardID]. rewrite (proj2 (Z.ltb_ge _ _)) by lia.
    fold (with_limit q limit). rewrite query_Serialize_eq by (apply Hq; unfold u32_ok; lia). destruct retries; cbn [readWithRetry]; unfold executeRead;
      rewrite Hl, Hn, (Lookup_query _ _ _ _ _ out engine) by (done || (apply Hq; unfold u32_ok; lia) || by apply Hex); done.
  - intros Hle. rewrite (proj2 (Z.leb_le _ _) Hle) in Hnext. split_and!; [done..|]. exists nodeID, (MkQueryNode engine (node_store n)).
    split_and!; [done|by cbn; rewrite lookup_insert_eq|done].
  - intros q' cts' rws' Hne (_ & Hsend' & nodeID' & n' & Hl' & Hn' & Hs'). split_and!; [done..|]. destruct (decide (nodeID = nodeID')) as [<-|Hnn].
    + exists nodeID, (MkQueryNode engine (node_store n)). rewrite Hn in Hn'. injection Hn' as <-. split_and!; [done|by cbn; rewrite lookup_insert_eq|].
      by apply Hother.
    + exists nodeID', n'. split_and!; [done|by cbn; rewrite lookup_insert_ne|done].
Qed.

Definition dragon_remote (retries : nat) : RemoteCluster (QueryCluster T DB) := {| remoteQuery := dragon_ExecuteRemotePullQuery retries |}.

Lemma cluster_session_types c q cts rws : cluster_session c q cts rws → cts ≠ [].
Proof. intros (_ & _ & nodeID & n & _ & _ & Hs). by eapply engine_session_types. Qed.

Definition dragon_contract (retries : nat) : @RemoteContract (QueryCluster T DB) (dragon_remote retries).
Proof.
  refine (@Build_RemoteContract (QueryCluster T DB) (dragon_remote retries) cluster_session cluster_session_types cluster_session_limit _).
  intros c q cts rws limit Hs Hl. exact (dragon_page c q cts rws limit retries Hs Hl).
Defined.


(** A value read with [LinearizableGet] is that of the store of the leader. *)
Lemma LinearizableGet_ok retries fuel c shardID key nodeID n : qc_started c = true → DataShardIDBase ≤ shardID →
  qc_leaders c !! shardID = Some nodeID → qc_nodes c !! nodeID = Some n → Z.of_nat (length key) + 5 < two32 →
  (LinearizableGet retries fuel c shardID key).1 = Ok (match LocalGet (node_store n) key with Some [] | None => None | Some v => Some v end).
Proof.
  intros Hst Hd Hl Hn Hlen. unfold LinearizableGet. rewrite Hst. cbn [negb]. rewrite (proj2 (Z.ltb_ge _ _)) by lia.
  rewrite AppendUint32ToBufferLE_eq, !u32_small by (unfold u32_ok; lia). set (request := _ ++ key).
  assert (∀ fuel, Lookup fuel nodeID n request = (Ok (Some (1 :: default [] (LocalGet (node_store n) key))), n)) as Hlook.
  { intros fuel'. unfold Lookup, request. rewrite <- app_assoc. cbn [app index lookup list_lookup]. cbn [Z.eqb Pos.eqb shardStateMachineLookupPing shardStateMachineLookupQuery shardStateMachineLookupGet].
    pose proof (ReadUint32LE_app [shardStateMachineLookupGet] (Z.of_nat (length key)) key 1 eq_refl ltac:(unfold u32_ok; lia)) as Hread. cbn [app] in Hread. rewrite Hread. osimpl. rewrite u32_small by (unfold u32_ok; lia).
    replace (Z.to_nat (5 + Z.of_nat (length key))) with (5 + length key)%nat by lia. unfold slice. cbn [app length]. rewrite length_app, length_le_bytes, decide_True by lia.
    osimpl. cbn [drop]. rewrite drop_app_ge, length_le_bytes, drop_0 by (rewrite length_le_bytes; lia). rewrite take_ge by lia. done. }
  destruct retries; cbn [readWithRetry]; unfold executeRead; rewrite Hl, Hn, Hlook; osimpl; cbn [default]; by destruct (LocalGet (node_store n) key) as [[|]|].
Qed.
End cluster.

(** ** Two nodes *)

#[global] Instance MyDecimal_countable : Countable MyDecimal :=
  inj_countable' (λ d, (digitsInt d, digitsFrac d, resultFrac d, negative d, wordBuf d)) (λ '(a, b, c, d, e), MkDecimal a b c d e) ltac:(by intros []).

#[global] Instance value_countable : Countable value :=
  inj_countable' (λ v, match v with VInt z => inl (inl z) | VFloat f => inl (inr (Float64bits f)) | VDecimal d => inr (inl d) | VString s => inr (inr (inl s)) | VTimestamp t => inr (inr (inr (coreTime t))) end)
    (λ s, match s with inl (inl z) => VInt z | inl (inr b) => VFloat (Float64frombits b) | inr (inl d) => VDecimal d | inr (inr (inl s)) => VString s | inr (inr (inr t)) => VTimestamp (MkTime t) end)
    ltac:(by intros [|[]| | |[]]).

(** A codec that keeps its promise: the columns as one number. *)
Definition number_Encode (r : Rows) : bytes := [Zpos (encode (columns r))].
Definition number_Decode (cts : list ColumnType) (bs : bytes) : Rows :=
  match bs with [Zpos n] => MkRows cts (default [] (decode n)) 0 | _ => NewRows cts end.

Lemma number_codec r rws : rows_rep r rws →
  columnTypes (number_Decode (columnTypes r) (number_Encode r)) = columnTypes r ∧ rows_rep (number_Decode (columnTypes r) (number_Encode r)) rws.
Proof. intros [Hc Hl]. unfold number_Decode, number_Encode. rewrite decode_encode. split; [done|]. by split. Qed.

(** The node 0 leads the shard 1000 and has the rows 1 and 2 of it; the node 1 leads the shard 1001 and has the row 3. *)
Definition two_columns (nodeID : Z) : list (option value) := if nodeID =? 0 then [Some (VInt 1); Some (VInt 2)] else [Some (VInt 3)].
Definition two_buildDAG (nodeID : Z) (q : QueryExecutionInfo) : outcome (PullDAG StaticRows) :=
  Ok (DagExecutor [DagTableScan (MkStaticRows (MkRows [BigIntColumnType] [two_columns nodeID] 0) 0)]).
Definition two_node : QueryNode StaticRows (gmap bytes bytes) := MkQueryNode (MkPullEngine ∅ true true) ∅.
Definition two_nodes : QueryCluster StaticRows (gmap bytes bytes) :=
  MkQueryCluster true (<[1000 := 0]> (<[1001 := 1]> ∅)) (<[0 := two_node]> (<[1 := two_node]> ∅)).
Definition two_query : QueryExecutionInfo := MkQueryExecutionInfo (lit "0-1") (lit "test") (lit "select a from t") 0 0 false [] [] false.
Definition two_executor : RemoteExecutor := NewRemoteExecutor two_query [BigIntColumnType] (lit "test") [1000; 1001] [].
Definition two_rows : list (list Row) := [[[Some (VInt 1)]; [Some (VInt 2)]]; [[Some (VInt 3)]]].

Lemma two_sessions : Forall2 (λ shardID rws, cluster_session two_buildDAG two_nodes (createGetterQueryExecInfo (queryInfo two_executor) shardID) [BigIntColumnType] rws)
  (ShardIDs two_executor) two_rows.
Proof.
  assert (∀ shardID nodeID rws, DataShardIDBase ≤ shardID < 2000 → qc_leaders two_nodes !! shardID = Some nodeID → qc_nodes two_nodes !! nodeID = Some two_node →
    str_fits (getterID (lit "0-1") shardID) → getterID (lit "0-1") shardID ≠ [] → rows_rep (MkRows [BigIntColumnType] [two_columns nodeID] 0) rws →
    cluster_session two_buildDAG two_nodes (createGetterQueryExecInfo two_query shardID) [BigIntColumnType] rws) as Hall.
  { intros shardID nodeID rws Hs Hl Hn Hf Hid Hrep. split_and!; [done|split; [cbn; lia|]|].
    - intros limit Hlim. split_and!; [exact Hf|by_decide|by_decide|exact Hlim|unfold u64_ok; cbn; unfold DataShardIDBase in *; lia|discriminate].
    - exists nodeID, two_node. split_and!; [done..|]. split; [split; [done|by right]|].
      change (queryExecCtxCache (node_engine two_node)) with (∅ : gmap bytes (ExecCtx StaticRows)). rewrite lookup_empty. intros limit. eexists. split_and!; [done..|]. eexists. split; [done|].
      split_and!; [done..|]. exists rws. split_and!; [done|done|cbn; lia|by rewrite drop_0]. }
  apply Forall2_cons. split; [|apply Forall2_cons; split; [|done]].
  - apply (Hall 1000 0); [by_decide|done|done|by_decide|done|]. split; [done|]. repeat (apply Forall_cons; split; [done|]). done.
  - apply (Hall 1001 1); [by_decide|done|done|by_decide|done|]. split; [done|]. repeat (apply Forall_cons; split; [done|]). done.
Qed.


(** A page of two rows of three. *)
Lemma remote_page_witness :
  let remote := dragon_remote two_buildDAG (λ s, columnTypes (static_rows s)) number_Encode number_Decode 3 in
  let left re c rwss := @remote_left _ remote (dragon_contract two_buildDAG (λ s, columnTypes (static_rows s)) number_Encode number_Decode number_codec 3) re c [BigIntColumnType] rwss in
  ∃ enough out re' c' pg tks rwss', (∀ fuel, (enough ≤ fuel)%nat → @remote_GetRows _ remote 4 fuel (λ _ l, reverse l) two_executor two_nodes 2 = (Ok out, (re', c'))) ∧
    columnTypes out = [BigIntColumnType] ∧ rows_rep out pg ∧ pg ≡ₚ concat tks ∧ splits two_rows tks rwss' ∧ left re' c' rwss' ∧
    Z.of_nat (length pg) ≤ 2 ∧ (Z.of_nat (length pg) < 2 → Forall (λ rws, rws = []) rwss').
Proof.
  cbv zeta. apply (remote_page [BigIntColumnType] 2 (λ _ l, reverse l) 4 two_executor two_nodes two_rows).
  - intros _ l. apply reverse_Permutation.
  - apply new_remote_left; [reflexivity|done|by_decide|exact two_sessions].
  - split; [lia|reflexivity].
  - vm_compute. lia.
Defined.
