(* ===== verification/PointGets.v ===== *)
(** * Which shards a query asks

    The parts of src/pull/exec_builder.go that turn the ranges of a plan into the ranges of a scan
    and into the shards of a point get, and what the remote executor does with them. The ranges
    are those the TiDB planner computed for the primary key; whether a range is a point, and
    whether it is the full range, is what the planner's library says of it.

    The shards that are asked are those of the point ranges, each once, when there is a point
    range, and all the shards otherwise; the rows with the key of a point are on the shard that
    is asked for it, since sources place their rows by the same hash of the same encoding. *)

From stdpp Require Import base list list_numbers strings gmap.
From Stdlib Require Import ZArith Lia.
From S2P Require Import Prelude Encoding Timestamp Decimal Rows KeyEncoding RowEncoding Store WriteBatch Table KeyRanges PullScan Sharder QueryInfo PullEngine LocalStore RemoteExecutor.

(** A range of the planner, with its bounds as values of this program. *)
Record Range := MkRange {
  rng_IsPoint : bool;
  rng_IsFullRange : bool;
  rng_LowVal : list (option value);
  rng_HighVal : list (option value);
  rng_LowExclude : bool;
  rng_HighExclude : bool
}.

Definition createScanRanges (ranges : list Range) : list (option ScanRange) :=
  map (λ rng, if rng_IsFullRange rng then None
              else Some (MkScanRange (rng_LowVal rng) (rng_HighVal rng) (rng_LowExclude rng) (rng_HighExclude rng))) ranges.

Definition createPullTableScan (table : option TableInfo) (ranges : list Range) (columns : list nat) (shardID : Z) : outcome PullTableScan :=
  match table with
  | None => Err "unknown source or materialized view"
  | Some tableInfo => NewPullTableScan tableInfo (match columns with [] => None | _ => Some columns end) shardID (createScanRanges ranges)
  end.

(** The shard of the key of a point range. *)
Definition pointShard (s : Sharder) (table : option TableInfo) (rng : Range) : outcome Z :=
  match table with
  | None => Err "cannot find table"
  | Some ti =>
      if decide (length (rng_LowVal rng) = length (PrimaryKeyCols ti)) then
        key ← EncodeKey (rng_LowVal rng) (ti_ColumnTypes ti) (PrimaryKeyCols ti) [];
        CalculateShard s ShardTypeHash key
      else Err "point get range elements not same as num pk cols"
  end.

Definition getPointGetShardIDs (s : Sharder) (table : option TableInfo) (ranges : list Range) : outcome (list Z) :=
  foldM (λ pointGetShardIDs rng,
    if rng_IsPoint rng then
      pgsid ← pointShard s table rng;
      Ok (if decide (pgsid ∈ pointGetShardIDs) then pointGetShardIDs else pointGetShardIDs ++ [pgsid])
    else Ok pointGetShardIDs) [] ranges.

(** The remote executor of a table scan. *)
Definition scanExecutor (s : Sharder) (table : option TableInfo) (ranges : list Range) (qi : QueryExecutionInfo) (colTypes : list ColumnType)
    (schemaName : bytes) (allShardIDs : list Z) : outcome RemoteExecutor :=
  pointGetShardIDs ← getPointGetShardIDs s table ranges;
  Ok (NewRemoteExecutor qi colTypes schemaName allShardIDs pointGetShardIDs).

(** The shard that a source sends a row to ([ingestMessages] of src/push/source/source.go). *)
Definition rowShard (s : Sharder) (ti : TableInfo) (row : Row) : outcome Z :=
  key ← EncodeKeyCols row (PrimaryKeyCols ti) (ti_ColumnTypes ti) [];
  CalculateShard s ShardTypeHash key.

(** The shards that an executor sends requests to. *)
Definition asked (re : RemoteExecutor) : list Z :=
  match singlePointGetQueryInfo re with Some qi => [ShardID qi] | None => map getter_shardID (clusterGetters re) end.

Lemma exists_elem_cons {A} (P : A → Prop) x l : (∃ y, y ∈ x :: l ∧ P y) ↔ P x ∨ ∃ y, y ∈ l ∧ P y.
Proof. setoid_rewrite elem_of_cons. naive_solver. Qed.

Lemma elem_add_new (x y : Z) l : x ∈ (if decide (y ∈ l) then l else l ++ [y]) ↔ x ∈ l ∨ x = y.
Proof. destruct (decide (y ∈ l)); [naive_solver|]. by rewrite elem_of_app, list_elem_of_singleton. Qed.

Lemma pointShards_ok s table ranges : Forall (λ rng, rng_IsPoint rng = true → is_ok (pointShard s table rng) = true) ranges → ∀ ids, NoDup ids →
  ∃ ids', foldM (λ pointGetShardIDs rng,
      if rng_IsPoint rng then
        pgsid ← pointShard s table rng;
        Ok (if decide (pgsid ∈ pointGetShardIDs) then pointGetShardIDs else pointGetShardIDs ++ [pgsid])
      else Ok pointGetShardIDs) ids ranges = Ok ids' ∧ NoDup ids' ∧
    ∀ shard, shard ∈ ids' ↔ shard ∈ ids ∨ ∃ rng, rng ∈ ranges ∧ rng_IsPoint rng = true ∧ pointShard s table rng = Ok shard.
Proof.
  induction 1 as [|rng ranges Hr _ IH]; intros ids Hnd; cbn [foldM].
  { exists ids. split_and!; try done. intros shard. split; [by left|]. intros [?|(rng & []%not_elem_of_nil & _)]; done. }
  destruct (rng_IsPoint rng) eqn:Ep.
  - specialize (Hr eq_refl). destruct (pointShard s table rng) as [sh| | |] eqn:Es; try done. osimpl.
    destruct (IH (if decide (sh ∈ ids) then ids else ids ++ [sh])) as (ids' & E & Hnd' & Hin).
    { destruct (decide (sh ∈ ids)); [done|]. apply NoDup_app. split_and!; [done|by intros i Hi ->%list_elem_of_singleton|apply NoDup_singleton]. }
    exists ids'. split_and!; [exact E|done|]. intros shard. rewrite Hin, elem_add_new, exists_elem_cons, Ep, Es. naive_solver.
  - osimpl. destruct (IH ids Hnd) as (ids' & E & Hnd' & Hin). exists ids'. split_and!; [exact E|done|]. intros shard.
    rewrite Hin, exists_elem_cons, Ep. naive_solver.
Qed.

(** A query on the tables that are kept on one shard. *)
Definition system_query (schemaName query : bytes) : bool := bool_decide (schemaName = lit "sys") && isSystemTableQuery query.

Lemma asked_new qi cts schemaName all points :
  asked (NewRemoteExecutor qi cts schemaName all points) =
    if system_query schemaName (Query qi) then [SystemSchemaShardID] else match points with [] => all | _ => points end.
Proof.
  unfold NewRemoteExecutor, system_query. set (qi' := if bool_decide _ then set_system qi else qi).
  assert (Hq : Query qi' = Query qi) by (unfold qi'; by destruct (bool_decide _)). rewrite Hq.
  destruct (_ && _); [done|]. unfold asked.
  destruct points as [|p [|p' points]]; cbn; [|done|]; unfold createGetters; rewrite ?map_map; cbn; rewrite ?map_id; done.
Qed.

Section points.
Context (s : Sharder) (ti : TableInfo) (all : list Z) (pkTypes : list ColumnType).
Hypothesis Hall : has_shards s all.
Hypothesis Hpk : types_at (ti_ColumnTypes ti) (PrimaryKeyCols ti) = Some pkTypes.

(** The shard of a primary key. *)
Definition key_shard (vs : list value) : Z := hash_shard all (cols_bytes key_bytes pkTypes vs).

(** A range that is a point has the values of a key. *)
Definition point_is (rng : Range) (vs : list value) : Prop := rng_LowVal rng = map Some vs ∧ Forall2 key_value_ok pkTypes vs.

Lemma pointShard_ok rng vs : point_is rng vs → pointShard s (Some ti) rng = Ok (key_shard vs).
Proof using Hall Hpk.
  intros [Hlow Hok]. unfold pointShard. rewrite Hlow. pose proof (Forall2_length _ _ _ Hok) as Hl. pose proof Hpk as Ht%mapM_Some%Forall2_length.
  rewrite decide_True by (rewrite length_map; lia). rewrite (EncodeKey_eq _ _ _ _ [] Hpk Hok). osimpl. by apply CalculateShard_ok.
Qed.

Lemma rowShard_ok row vs ws : cells_at row (PrimaryKeyCols ti) = Some (map Some ws) → Forall2 key_value_ok pkTypes ws → Forall2 key_value_ok pkTypes vs →
  cols_compare value_compare ws vs = Eq → rowShard s ti row = Ok (key_shard vs).
Proof using Hall Hpk.
  intros Hrow Hw Hv E. unfold rowShard. rewrite (EncodeKeyCols_eq _ _ _ _ _ [] Hrow Hpk Hw). osimpl. rewrite app_nil_l.
  replace (cols_bytes key_bytes pkTypes ws) with (cols_bytes key_bytes pkTypes vs); [by apply CalculateShard_ok|]. symmetry. apply bytes_cmp_eq.
  pose proof (cols_code key_value_ok key_bytes value_compare pkTypes (λ ct, value_code ct)) as Hcode.
  pose proof (ordered_code (OrderedCode := Hcode) _ _ [] [] Hw Hv) as Ho. by rewrite !app_nil_r, E in Ho.
Qed.
End points.

(** C36. Point gets. When the point ranges have keys that can be encoded, the executor of a scan
    asks each shard at most once. A query on the system tables asks their shard. Any other query
    asks all shards when it has no point range; with one or more it asks exactly the shards of
    the point ranges, the ones picked by the hash of their encoded keys, so the other ranges of
    the scan are read in those shards only. A row whose primary key equals the key of a point
    range is on one of the shards that are asked. *)
Theorem point_get_shards s ti ranges (point : Range → list value) pkTypes qi cts schemaName all :
  has_shards s all → NoDup all → types_at (ti_ColumnTypes ti) (PrimaryKeyCols ti) = Some pkTypes →
  Forall (λ rng, rng_IsPoint rng = true → point_is pkTypes rng (point rng)) ranges →
  ∃ re, scanExecutor s (Some ti) ranges qi cts schemaName all = Ok re ∧ NoDup (asked re) ∧
    if system_query schemaName (Query qi) then asked re = [SystemSchemaShardID]
    else if existsb rng_IsPoint ranges then
      (∀ shard, shard ∈ asked re ↔ ∃ rng, rng ∈ ranges ∧ rng_IsPoint rng = true ∧ shard = key_shard all pkTypes (point rng)) ∧
      (∀ rng row ws, rng ∈ ranges → rng_IsPoint rng = true → cells_at row (PrimaryKeyCols ti) = Some (map Some ws) →
        Forall2 key_value_ok pkTypes ws → cols_compare value_compare ws (point rng) = Eq →
        ∃ shard, rowShard s ti row = Ok shard ∧ shard ∈ asked re)
    else asked re = all.
Proof.
  intros Hs Hall Hpk Hr.
  assert (Hp : Forall (λ rng, rng_IsPoint rng = true → pointShard s (Some ti) rng = Ok (key_shard all pkTypes (point rng))) ranges).
  { eapply Forall_impl; [exact Hr|]. intros rng H Hpt. apply pointShard_ok; auto. }
  destruct (pointShards_ok s (Some ti) ranges ltac:(eapply Forall_impl; [exact Hp|]; intros rng H Hpt; by rewrite (H Hpt)) [] (NoDup_nil_2)) as (ids & E & Hnd & Hin).
  assert (Hids : ∀ shard, shard ∈ ids ↔ ∃ rng, rng ∈ ranges ∧ rng_IsPoint rng = true ∧ shard = key_shard all pkTypes (point rng)).
  { rewrite Forall_forall in Hp. intros shard. rewrite Hin. split.
    - intros [[]%not_elem_of_nil|(rng & Hrng & Hpt & Es)]. exists rng. rewrite (Hp _ Hrng Hpt) in Es. by injection Es as <-.
    - intros (rng & Hrng & Hpt & ->). right. exists rng. split_and!; auto. }
  exists (NewRemoteExecutor qi cts schemaName all ids). unfold scanExecutor, getPointGetShardIDs. rewrite E. osimpl. rewrite asked_new.
  destruct (system_query schemaName (Query qi)); [split_and!; [done|by_decide|done]|].
  destruct (existsb rng_IsPoint ranges) eqn:Eb.
  - apply existsb_exists in Eb as (rng0 & Hrng0%list_elem_of_In & Hpt0).
    destruct ids as [|i ids]; [destruct (not_elem_of_nil (key_shard all pkTypes (point rng0))); apply Hids; by exists rng0|].
    split_and!; [done|done|exact Hids|]. intros rng row ws Hrng Hpt Hrow Hw Heq. exists (key_shard all pkTypes (point rng)).
    rewrite Forall_forall in Hr. destruct (Hr _ Hrng Hpt). split; [by eapply rowShard_ok|]. apply Hids. by exists rng.
  - destruct ids as [|i ids]; [done|]. destruct (proj1 (Hids i)) as (rng & Hrng & Hpt & _); [by constructor|].
    apply not_true_iff_false in Eb. destruct Eb. apply existsb_exists. exists rng. by rewrite <- list_elem_of_In.
Qed.

(** The table [t] with the primary key [id], on three shards. *)
Definition point_table : TableInfo := MkTableInfo 100 (lit "test") (lit "t") [0%nat] [lit "id"; lit "v"] [BigIntColumnType; VarcharColumnType] None 0 0.
Definition point_sharder : Sharder := MkSharder (Some [1000; 1001; 1002]) true.
Definition point_query : QueryExecutionInfo := MkQueryExecutionInfo (lit "1-1") (lit "test") (lit "select * from t where id = 5 or id > 100") 0 0 false [] [] false.

(** [id = 5] and [id > 100]. *)
Definition mixed_ranges : list Range :=
  [MkRange true false [Some (VInt 5)] [Some (VInt 5)] false false; MkRange false false [Some (VInt 100)] [Some (VInt 9223372036854775807)] true false].

(** The row with the key 5 is on a shard that is asked. *)
Lemma point_get_shards_witness : ∃ re, scanExecutor point_sharder (Some point_table) mixed_ranges point_query [BigIntColumnType; VarcharColumnType] (lit "test") [1000; 1001; 1002] = Ok re ∧
  NoDup (asked re) ∧ ∃ shard, rowShard point_sharder point_table [Some (VInt 5); None] = Ok shard ∧ shard ∈ asked re.
Proof.
  destruct (point_get_shards point_sharder point_table mixed_ranges (λ _, [VInt 5]) [BigIntColumnType] point_query [BigIntColumnType; VarcharColumnType] (lit "test") [1000; 1001; 1002])
    as (re & E & Hnd & Hre); [by split_and!|by_decide|reflexivity| |].
  - constructor; [|constructor; [discriminate|constructor]]. intros _. split; [reflexivity|]. by repeat constructor.
  - exists re. split_and!; [exact E|exact Hnd|]. destruct Hre as [_ Hrow].
    apply (Hrow (MkRange true false [Some (VInt 5)] [Some (VInt 5)] false false) _ [VInt 5]); [left|reflexivity|reflexivity|by repeat constructor|reflexivity].
Defined.

(** [select * from t where id = 5 or id > 100] asks the shard of the key 5 only, and the row with the key 101 is in another one. *)
Lemma mixed_ranges_miss_rows :
  asked <$> scanExecutor point_sharder (Some point_table) mixed_ranges point_query [BigIntColumnType; VarcharColumnType] (lit "test") [1000; 1001; 1002] = Ok [1002] ∧
  pointShard point_sharder (Some point_table) (MkRange true false [Some (VInt 101)] [Some (VInt 101)] false false) = Ok 1000.
Proof. by vm_compute. Qed.
