(* ===== verification/Builtins.v ===== *)
(** * Builtin functions

    src/tidb/expression/builtin_arithmetic.go, builtin_op.go, builtin_compare.go and
    builtin_control.go: the functions that expressions are made of, each evaluated on one
    row. A signature ([...Sig]) has one evaluation method, for the type it returns, that
    asks its arguments for values of the types it takes.

    The result of a method is [Ok None] for null. An argument comes with its field type, of
    which the methods use the unsigned flag, and with the five evaluation methods of the
    expression interface that rows of the column types can need; those of durations and
    JSON are left out, and so are the signatures that use them, the multiplication, division
    and remainder of decimals, and the remainder of doubles. *)

From stdpp Require Import base list list_numbers strings.
From Stdlib Require Import ZArith Lia SpecFloat.
From S2P Require Import Prelude Encoding Timestamp Floats Decimal DecimalArith.

(** ** Arguments *)

Inductive EvalType := ETInt | ETReal | ETDecimal | ETString | ETDatetime | ETTimestamp | ETDuration | ETJson.

#[global] Instance EvalType_eq_dec : EqDecision EvalType.
Proof. solve_decision. Defined.

(** What is used of a field type: the type of evaluation, two of the flags, the digits after
    the point, and whether it is of binary strings. Enumerations, sets and bit fields, which no
    column has, are left out. *)
Record FieldType := MkFieldType {
  ft_EvalType : EvalType;
  ft_Unsigned : bool;
  ft_NotNull : bool;
  ft_Decimal : Z;
  ft_BinaryStr : bool
}.

(** The evaluation methods of an expression on a row. *)
Record Evals := MkEvals {
  evInt : outcome (option Z);
  evReal : outcome (option spec_float);
  evDecimal : outcome (option MyDecimal);
  evString : outcome (option bytes);
  evTime : outcome (option Time)
}.

Record Arg := MkArg {
  arg_tp : FieldType;
  arg_evals : Evals
}.

(** [args\[i\].EvalInt(ctx, row)] and the like, and [HasUnsignedFlag(args\[i\].GetType().Flag)]. *)

Definition argInt (args : list Arg) (i : nat) : outcome (option Z) := a ← index args i; evInt (arg_evals a).
Definition argReal (args : list Arg) (i : nat) : outcome (option spec_float) := a ← index args i; evReal (arg_evals a).
Definition argDecimal (args : list Arg) (i : nat) : outcome (option MyDecimal) := a ← index args i; evDecimal (arg_evals a).
Definition argString (args : list Arg) (i : nat) : outcome (option bytes) := a ← index args i; evString (arg_evals a).
Definition argTime (args : list Arg) (i : nat) : outcome (option Time) := a ← index args i; evTime (arg_evals a).
Definition argUnsigned (args : list Arg) (i : nat) : outcome bool := a ← index args i; Ok (ft_Unsigned (arg_tp a)).

(** [if isNull || err != nil { return 0, isNull, err }] *)
Definition nbind {A B} (m : outcome (option A)) (k : A → outcome (option B)) : outcome (option B) :=
  o ← m; match o with Some x => k x | None => Ok None end.
Notation "x ⇐ m ; k" := (nbind m (λ x, k)) (at level 20, m at level 100, k at level 200, right associativity) : stdpp_scope.

Definition int_of_bool (b : bool) : Z := if b then 1 else 0.

(** The messages of errors of type ErrOverflow start with the type. *)
Definition overflow (tp : string) {A} : outcome A := Err (tp +:+ " value is out of range")%string.
Definition ErrBigInt {A} : outcome A := overflow "BIGINT".
Definition ErrBigIntUnsigned {A} : outcome A := overflow "BIGINT UNSIGNED".
Definition ErrDouble {A} : outcome A := overflow "DOUBLE".

Definition MaxInt64 : Z := two63 - 1.
Definition MinInt64 : Z := - two63.
Definition MaxUint64 : Z := two64 - 1.

(** Division by zero only adds a warning. *)
Definition handleDivisionByZeroError {A} : outcome (option A) := Ok None.

(** ** Arithmetic on integers *)

(** The overflow test of [+]; [-b] and [-a] are of 64 bits. *)
Definition plusOverflows (isLHSUnsigned isRHSUnsigned : bool) (a b : Z) : bool :=
  match isLHSUnsigned, isRHSUnsigned with
  | true, true => MaxUint64 - u64 b <? u64 a
  | true, false => ((b <? 0) && (u64 a <? u64 (i64 (- b)))) || ((0 <? b) && (MaxUint64 - u64 b <? u64 a))
  | false, true => ((a <? 0) && (u64 b <? u64 (i64 (- a)))) || ((0 <? a) && (MaxUint64 - u64 a <? u64 b))
  | false, false => ((0 <? a) && (MaxInt64 - a <? b)) || ((a <? 0) && (b <? MinInt64 - a))
  end.

Definition builtinArithmeticPlusIntSig_evalInt (args : list Arg) : outcome (option Z) :=
  a ⇐ argInt args 0;
  b ⇐ argInt args 1;
  isLHSUnsigned ← argUnsigned args 0;
  isRHSUnsigned ← argUnsigned args 1;
  if plusOverflows isLHSUnsigned isRHSUnsigned a b
  then (if isLHSUnsigned || isRHSUnsigned then ErrBigIntUnsigned else ErrBigInt)
  else Ok (Some (i64 (a + b))).

Definition testIfSumOverflowsUll (a b : Z) : bool := MaxUint64 - a <? b.

Definition overflowCheck (isLHSUnsigned isRHSUnsigned signed : bool) (a b : Z) : bool :=
  let res := i64 (a - b) in
  let ua := u64 a in
  let ub := u64 b in
  let last (resUnsigned : bool) :=
    (negb signed && negb resUnsigned && (res <? 0)) || (signed && resUnsigned && (MaxInt64 <? u64 res)) in
  if isLHSUnsigned then
    if isRHSUnsigned then
      if ua <? ub then (if 0 <=? res then true else last false) else last true
    else if 0 <=? b then last (ub <? ua)
    else if testIfSumOverflowsUll ua (u64 (i64 (- b))) then true else last true
  else if isRHSUnsigned then
    if u64 (i64 (a - MinInt64)) <? ub then true else last false
  else if (0 <? a) && (b <? 0) then last true
  else if (a <? 0) && (0 <? b) && (0 <=? res) then true
  else last false.

(** [forceToSigned]: the session has the mode NO_UNSIGNED_SUBTRACTION. *)
Definition builtinArithmeticMinusIntSig_evalInt (forceToSigned : bool) (args : list Arg) : outcome (option Z) :=
  a ⇐ argInt args 0;
  b ⇐ argInt args 1;
  isLHSUnsigned ← argUnsigned args 0;
  isRHSUnsigned ← argUnsigned args 1;
  let signed := forceToSigned || (negb isLHSUnsigned && negb isRHSUnsigned) in
  if overflowCheck isLHSUnsigned isRHSUnsigned signed a b then (if signed then ErrBigInt else ErrBigIntUnsigned)
  else Ok (Some (i64 (a - b))).

Definition builtinArithmeticMultiplyIntUnsignedSig_evalInt (args : list Arg) : outcome (option Z) :=
  a ⇐ argInt args 0;
  let unsignedA := u64 a in
  b ⇐ argInt args 1;
  let unsignedB := u64 b in
  let result := u64 (unsignedA * unsignedB) in
  if negb (unsignedA =? 0) && negb (result / unsignedA =? unsignedB) then ErrBigIntUnsigned
  else Ok (Some (i64 result)).

(** Go's quotient of the least number by -1 is the least number. *)
Definition builtinArithmeticMultiplyIntSig_evalInt (args : list Arg) : outcome (option Z) :=
  a ⇐ argInt args 0;
  b ⇐ argInt args 1;
  let result := i64 (a * b) in
  if (negb (a =? 0) && negb (i64 (result ÷ a) =? b)) || ((result =? MinInt64) && (a =? -1)) then ErrBigInt
  else Ok (Some result).

Definition DivInt64 (a b : Z) : outcome Z := if (a =? MinInt64) && (b =? -1) then ErrBigInt else Ok (i64 (a ÷ b)).
Definition DivUintWithInt (a b : Z) : outcome Z :=
  if b <? 0 then (if negb (a =? 0) && (u64 (i64 (- b)) <=? a) then ErrBigIntUnsigned else Ok 0)
  else Ok (a / u64 b).
Definition DivIntWithUint (a b : Z) : outcome Z :=
  if a <? 0 then (if b <=? u64 (i64 (- a)) then ErrBigIntUnsigned else Ok 0)
  else Ok (u64 a / b).

(** The divisor is evaluated first. *)
Definition builtinArithmeticIntDivideIntSig_evalInt (args : list Arg) : outcome (option Z) :=
  b ⇐ argInt args 1;
  a ⇐ argInt args 0;
  if b =? 0 then handleDivisionByZeroError
  else
    isLHSUnsigned ← argUnsigned args 0;
    isRHSUnsigned ← argUnsigned args 1;
    ret ← match isLHSUnsigned, isRHSUnsigned with
          | true, true => Ok (i64 (u64 a / u64 b))
          | true, false => val ← DivUintWithInt (u64 a) b; Ok (i64 val)
          | false, true => val ← DivIntWithUint a (u64 b); Ok (i64 val)
          | false, false => DivInt64 a b
          end;
    Ok (Some ret).

Definition modInt (args : list Arg) (rem : Z → Z → Z) : outcome (option Z) :=
  b ⇐ argInt args 1;
  if b =? 0 then handleDivisionByZeroError
  else
    a ⇐ argInt args 0;
    Ok (Some (rem a b)).

Definition builtinArithmeticModIntUnsignedUnsignedSig_evalInt (args : list Arg) : outcome (option Z) :=
  modInt args (λ a b, i64 (u64 a mod u64 b)).
Definition builtinArithmeticModIntUnsignedSignedSig_evalInt (args : list Arg) : outcome (option Z) :=
  modInt args (λ a b, if b <? 0 then i64 (u64 a mod u64 (i64 (- b))) else i64 (u64 a mod u64 b)).
Definition builtinArithmeticModIntSignedUnsignedSig_evalInt (args : list Arg) : outcome (option Z) :=
  modInt args (λ a b, if a <? 0 then i64 (- i64 (u64 (i64 (- a)) mod u64 b)) else i64 (u64 a mod u64 b)).
Definition builtinArithmeticModIntSignedSignedSig_evalInt (args : list Arg) : outcome (option Z) :=
  modInt args (λ a b, Z.rem a b).

(** ** Arithmetic on doubles and decimals *)

Definition IsFinite (x : spec_float) : bool := negb (sf_isNaN (sf_sub x x)).

(** Both arguments are evaluated before nulls are looked at. *)
Definition builtinArithmeticPlusRealSig_evalReal (args : list Arg) : outcome (option spec_float) :=
  a ← argReal args 0;
  b ← argReal args 1;
  match a, b with
  | Some a, Some b => if IsFinite (sf_add a b) then Ok (Some (sf_add a b)) else ErrDouble
  | _, _ => Ok None
  end.
Definition builtinArithmeticMinusRealSig_evalReal (args : list Arg) : outcome (option spec_float) :=
  a ⇐ argReal args 0;
  b ⇐ argReal args 1;
  if IsFinite (sf_sub a b) then Ok (Some (sf_sub a b)) else ErrDouble.
Definition builtinArithmeticMultiplyRealSig_evalReal (args : list Arg) : outcome (option spec_float) :=
  a ⇐ argReal args 0;
  b ⇐ argReal args 1;
  let result := sf_mul a b in
  if IsInf result then ErrDouble else Ok (Some result).
Definition builtinArithmeticDivideRealSig_evalReal (args : list Arg) : outcome (option spec_float) :=
  a ⇐ argReal args 0;
  b ⇐ argReal args 1;
  if sf_isZero b then handleDivisionByZeroError
  else
    let result := sf_div a b in
    if IsInf result then ErrDouble else Ok (Some result).

Definition builtinArithmeticPlusDecimalSig_evalDecimal (args : list Arg) : outcome (option MyDecimal) :=
  a ⇐ argDecimal args 0;
  b ⇐ argDecimal args 1;
  c ← or_error (DecimalAdd a b);
  Ok (Some c).
Definition builtinArithmeticMinusDecimalSig_evalDecimal (args : list Arg) : outcome (option MyDecimal) :=
  a ⇐ argDecimal args 0;
  b ⇐ argDecimal args 1;
  c ← or_error (DecimalSub a b);
  Ok (Some c).

(** ** Logic *)

Definition builtinLogicAndSig_evalInt (args : list Arg) : outcome (option Z) :=
  arg0 ← argInt args 0;
  if bool_decide (arg0 = Some 0) then Ok (Some 0)
  else
    arg1 ← argInt args 1;
    if bool_decide (arg1 = Some 0) then Ok (Some 0)
    else match arg0, arg1 with Some _, Some _ => Ok (Some 1) | _, _ => Ok None end.

Definition isTruth (arg : option Z) : bool := match arg with Some v => negb (v =? 0) | None => false end.

Definition builtinLogicOrSig_evalInt (args : list Arg) : outcome (option Z) :=
  arg0 ← argInt args 0;
  if isTruth arg0 then Ok (Some 1)
  else
    arg1 ← argInt args 1;
    if isTruth arg1 then Ok (Some 1)
    else match arg0, arg1 with Some _, Some _ => Ok (Some 0) | _, _ => Ok None end.

Definition builtinLogicXorSig_evalInt (args : list Arg) : outcome (option Z) :=
  arg0 ⇐ argInt args 0;
  arg1 ⇐ argInt args 1;
  if (negb (arg0 =? 0) && negb (arg1 =? 0)) || ((arg0 =? 0) && (arg1 =? 0)) then Ok (Some 0) else Ok (Some 1).

(** [keepNull]: a null stays null, rather than being false. *)
Definition isTrueOrFalse {A} (keepNull : bool) (test : A → bool) (arg : outcome (option A)) : outcome (option Z) :=
  input ← arg;
  match input with
  | None => if keepNull then Ok None else Ok (Some 0)
  | Some v => Ok (Some (int_of_bool (test v)))
  end.

Definition IsZero (d : MyDecimal) : bool := forallb (λ w, w =? 0) (wordBuf d).

Definition builtinIntIsTrueSig_evalInt (keepNull : bool) (args : list Arg) := isTrueOrFalse keepNull (λ v, negb (v =? 0)) (argInt args 0).
Definition builtinRealIsTrueSig_evalInt (keepNull : bool) (args : list Arg) := isTrueOrFalse keepNull (λ v, negb (sf_isZero v)) (argReal args 0).
Definition builtinDecimalIsTrueSig_evalInt (keepNull : bool) (args : list Arg) := isTrueOrFalse keepNull (λ v, negb (IsZero v)) (argDecimal args 0).
Definition builtinIntIsFalseSig_evalInt (keepNull : bool) (args : list Arg) := isTrueOrFalse keepNull (λ v, v =? 0) (argInt args 0).
Definition builtinRealIsFalseSig_evalInt (keepNull : bool) (args : list Arg) := isTrueOrFalse keepNull sf_isZero (argReal args 0).
Definition builtinDecimalIsFalseSig_evalInt (keepNull : bool) (args : list Arg) := isTrueOrFalse keepNull IsZero (argDecimal args 0).

Definition builtinUnaryNotIntSig_evalInt (args : list Arg) : outcome (option Z) := arg ⇐ argInt args 0; Ok (Some (int_of_bool (arg =? 0))).
Definition builtinUnaryNotRealSig_evalInt (args : list Arg) : outcome (option Z) := arg ⇐ argReal args 0; Ok (Some (int_of_bool (sf_isZero arg))).
Definition builtinUnaryNotDecimalSig_evalInt (args : list Arg) : outcome (option Z) := arg ⇐ argDecimal args 0; Ok (Some (int_of_bool (IsZero arg))).

Definition evalIsNull {A} (arg : outcome (option A)) : outcome (option Z) :=
  o ← arg; Ok (Some (match o with None => 1 | Some _ => 0 end)).

Definition builtinIntIsNullSig_evalInt (args : list Arg) : outcome (option Z) := evalIsNull (argInt args 0).
Definition builtinRealIsNullSig_evalInt (args : list Arg) : outcome (option Z) := evalIsNull (argReal args 0).
Definition builtinDecimalIsNullSig_evalInt (args : list Arg) : outcome (option Z) := evalIsNull (argDecimal args 0).
Definition builtinStringIsNullSig_evalInt (args : list Arg) : outcome (option Z) := evalIsNull (argString args 0).
Definition builtinTimeIsNullSig_evalInt (args : list Arg) : outcome (option Z) := evalIsNull (argTime args 0).

(** ** Bits and signs *)

Definition bitOp (op : Z → Z → Z) (args : list Arg) : outcome (option Z) :=
  arg0 ⇐ argInt args 0;
  arg1 ⇐ argInt args 1;
  Ok (Some (op arg0 arg1)).

Definition builtinBitAndSig_evalInt (args : list Arg) : outcome (option Z) := bitOp Z.land args.
Definition builtinBitOrSig_evalInt (args : list Arg) : outcome (option Z) := bitOp Z.lor args.
Definition builtinBitXorSig_evalInt (args : list Arg) : outcome (option Z) := bitOp Z.lxor args.
(** A shift by 64 or more leaves nothing. *)
Definition builtinLeftShiftSig_evalInt (args : list Arg) : outcome (option Z) :=
  bitOp (λ a b, if u64 b <? 64 then i64 (u64 (Z.shiftl (u64 a) (u64 b))) else 0) args.
Definition builtinRightShiftSig_evalInt (args : list Arg) : outcome (option Z) :=
  bitOp (λ a b, if u64 b <? 64 then i64 (Z.shiftr (u64 a) (u64 b)) else 0) args.
Definition builtinBitNegSig_evalInt (args : list Arg) : outcome (option Z) := arg ⇐ argInt args 0; Ok (Some (Z.lnot arg)).

Definition builtinUnaryMinusIntSig_evalInt (args : list Arg) : outcome (option Z) :=
  val ⇐ argInt args 0;
  isUnsigned ← argUnsigned args 0;
  if isUnsigned : bool then
    if two63 <? u64 val then ErrBigInt
    else if u64 val =? two63 then Ok (Some MinInt64)
    else Ok (Some (i64 (- val)))
  else if val =? MinInt64 then ErrBigInt
  else Ok (Some (i64 (- val))).

Definition DecimalNeg (from : MyDecimal) : MyDecimal :=
  if IsZero from then from
  else MkDecimal (digitsInt from) (digitsFrac from) (resultFrac from) (negb (negative from)) (wordBuf from).

Definition builtinUnaryMinusDecimalSig_evalDecimal (args : list Arg) : outcome (option MyDecimal) :=
  dec ⇐ argDecimal args 0; Ok (Some (DecimalNeg dec)).
Definition builtinUnaryMinusRealSig_evalReal (args : list Arg) : outcome (option spec_float) :=
  val ⇐ argReal args 0; Ok (Some (float_neg val)).

(** ** Control flow *)

(** The conditions and results alternate; a last argument without a condition is the else
    branch. *)
Fixpoint caseWhen {A} (eval : Evals → outcome (option A)) (args : list Arg) : outcome (option A) :=
  match args with
  | [] => Ok None
  | [e] => eval (arg_evals e)
  | c :: v :: rest =>
      condition ← evInt (arg_evals c);
      if isTruth condition then eval (arg_evals v) else caseWhen eval rest
  end.

Definition ifElse {A} (eval : Evals → outcome (option A)) (args : list Arg) : outcome (option A) :=
  arg0 ← argInt args 0;
  if isTruth arg0 then (a ← index args 1; eval (arg_evals a)) else (a ← index args 2; eval (arg_evals a)).

Definition ifNull {A} (eval : Evals → outcome (option A)) (args : list Arg) : outcome (option A) :=
  a0 ← index args 0;
  arg0 ← eval (arg_evals a0);
  match arg0 with
  | Some v => Ok (Some v)
  | None => a1 ← index args 1; eval (arg_evals a1)
  end.

Fixpoint coalesce {A} (eval : Evals → outcome (option A)) (args : list Arg) : outcome (option A) :=
  match args with
  | [] => Ok None
  | a :: rest => res ← eval (arg_evals a); match res with Some v => Ok (Some v) | None => coalesce eval rest end
  end.

Definition builtinCaseWhenIntSig_evalInt (args : list Arg) : outcome (option Z) := caseWhen evInt args.
Definition builtinIfIntSig_evalInt (args : list Arg) : outcome (option Z) := ifElse evInt args.
Definition builtinIfNullIntSig_evalInt (args : list Arg) : outcome (option Z) := ifNull evInt args.
Definition builtinCoalesceIntSig_evalInt (args : list Arg) : outcome (option Z) := coalesce evInt args.
Definition builtinCaseWhenRealSig_evalReal (args : list Arg) : outcome (option spec_float) := caseWhen evReal args.
Definition builtinIfRealSig_evalReal (args : list Arg) : outcome (option spec_float) := ifElse evReal args.
Definition builtinIfNullRealSig_evalReal (args : list Arg) : outcome (option spec_float) := ifNull evReal args.
Definition builtinCoalesceRealSig_evalReal (args : list Arg) : outcome (option spec_float) := coalesce evReal args.
Definition builtinCaseWhenDecimalSig_evalDecimal (args : list Arg) : outcome (option MyDecimal) := caseWhen evDecimal args.
Definition builtinIfDecimalSig_evalDecimal (args : list Arg) : outcome (option MyDecimal) := ifElse evDecimal args.
Definition builtinIfNullDecimalSig_evalDecimal (args : list Arg) : outcome (option MyDecimal) := ifNull evDecimal args.
Definition builtinCoalesceDecimalSig_evalDecimal (args : list Arg) : outcome (option MyDecimal) := coalesce evDecimal args.
Definition builtinCaseWhenStringSig_evalString (args : list Arg) : outcome (option bytes) := caseWhen evString args.
Definition builtinIfStringSig_evalString (args : list Arg) : outcome (option bytes) := ifElse evString args.
Definition builtinIfNullStringSig_evalString (args : list Arg) : outcome (option bytes) := ifNull evString args.
Definition builtinCoalesceStringSig_evalString (args : list Arg) : outcome (option bytes) := coalesce evString args.
Definition builtinCaseWhenTimeSig_evalTime (args : list Arg) : outcome (option Time) := caseWhen evTime args.
Definition builtinIfTimeSig_evalTime (args : list Arg) : outcome (option Time) := ifElse evTime args.
Definition builtinIfNullTimeSig_evalTime (args : list Arg) : outcome (option Time) := ifNull evTime args.
Definition builtinCoalesceTimeSig_evalTime (args : list Arg) : outcome (option Time) := coalesce evTime args.

(** ** Comparison *)

Definition CompareInt64 (x y : Z) : Z := if x <? y then -1 else if x =? y then 0 else 1.
Definition CompareUint64 (x y : Z) : Z := if x <? y then -1 else if x =? y then 0 else 1.
Definition CompareFloat64 (x y : spec_float) : Z := if sf_lt x y then -1 else if sf_eq x y then 0 else 1.
(** [strings.Compare], for every collation. *)
Definition CompareString (x y : bytes) : Z := match bytes_cmp x y with Lt => -1 | Eq => 0 | Gt => 1 end.
Definition time_Compare (x y : Time) : Z := match Compare x y with Lt => -1 | Eq => 0 | Gt => 1 end.

Definition compareInts (isUnsigned0 isUnsigned1 : bool) (arg0 arg1 : Z) : Z :=
  match isUnsigned0, isUnsigned1 with
  | true, true => CompareUint64 (u64 arg0) (u64 arg1)
  | true, false => if (arg1 <? 0) || (MaxInt64 <? u64 arg0) then 1 else CompareInt64 arg0 arg1
  | false, true => if (arg0 <? 0) || (MaxInt64 <? u64 arg1) then -1 else CompareInt64 arg0 arg1
  | false, false => CompareInt64 arg0 arg1
  end.

(** Both arguments are evaluated before nulls are looked at. *)
Definition compareArgs {A} (eval : list Arg → nat → outcome (option A)) (cmp : A → A → outcome Z) (args : list Arg) : outcome (option Z) :=
  arg0 ← eval args 0%nat;
  arg1 ← eval args 1%nat;
  match arg0, arg1 with
  | Some x, Some y => r ← cmp x y; Ok (Some r)
  | _, _ => Ok None
  end.

Definition CompareInt (args : list Arg) : outcome (option Z) :=
  compareArgs argInt (λ x y,
    isUnsigned0 ← argUnsigned args 0;
    isUnsigned1 ← argUnsigned args 1;
    Ok (compareInts isUnsigned0 isUnsigned1 x y)) args.
Definition CompareReal (args : list Arg) : outcome (option Z) := compareArgs argReal (λ x y, Ok (CompareFloat64 x y)) args.
Definition CompareDecimal (args : list Arg) : outcome (option Z) := compareArgs argDecimal decimal_Compare args.
Definition CompareStringWithCollationInfo (args : list Arg) : outcome (option Z) := compareArgs argString (λ x y, Ok (CompareString x y)) args.
Definition CompareTime (args : list Arg) : outcome (option Z) := compareArgs argTime (λ x y, Ok (time_Compare x y)) args.

Definition resOf (test : Z → bool) (r : outcome (option Z)) : outcome (option Z) := val ⇐ r; Ok (Some (int_of_bool (test val))).
Definition resOfLT := resOf (λ val, val <? 0).
Definition resOfLE := resOf (λ val, val <=? 0).
Definition resOfGT := resOf (λ val, 0 <? val).
Definition resOfGE := resOf (λ val, 0 <=? val).
Definition resOfEQ := resOf (λ val, val =? 0).
Definition resOfNE := resOf (λ val, negb (val =? 0)).

Definition builtinLTIntSig_evalInt (args : list Arg) : outcome (option Z) := resOfLT (CompareInt args).
Definition builtinLTRealSig_evalInt (args : list Arg) : outcome (option Z) := resOfLT (CompareReal args).
Definition builtinLTDecimalSig_evalInt (args : list Arg) : outcome (option Z) := resOfLT (CompareDecimal args).
Definition builtinLTStringSig_evalInt (args : list Arg) : outcome (option Z) := resOfLT (CompareStringWithCollationInfo args).
Definition builtinLTTimeSig_evalInt (args : list Arg) : outcome (option Z) := resOfLT (CompareTime args).
Definition builtinLEIntSig_evalInt (args : list Arg) : outcome (option Z) := resOfLE (CompareInt args).
Definition builtinLERealSig_evalInt (args : list Arg) : outcome (option Z) := resOfLE (CompareReal args).
Definition builtinLEDecimalSig_evalInt (args : list Arg) : outcome (option Z) := resOfLE (CompareDecimal args).
Definition builtinLEStringSig_evalInt (args : list Arg) : outcome (option Z) := resOfLE (CompareStringWithCollationInfo args).
Definition builtinLETimeSig_evalInt (args : list Arg) : outcome (option Z) := resOfLE (CompareTime args).
Definition builtinGTIntSig_evalInt (args : list Arg) : outcome (option Z) := resOfGT (CompareInt args).
Definition builtinGTRealSig_evalInt (args : list Arg) : outcome (option Z) := resOfGT (CompareReal args).
Definition builtinGTDecimalSig_evalInt (args : list Arg) : outcome (option Z) := resOfGT (CompareDecimal args).
Definition builtinGTStringSig_evalInt (args : list Arg) : outcome (option Z) := resOfGT (CompareStringWithCollationInfo args).
Definition builtinGTTimeSig_evalInt (args : list Arg) : outcome (option Z) := resOfGT (CompareTime args).
Definition builtinGEIntSig_evalInt (args : list Arg) : outcome (option Z) := resOfGE (CompareInt args).
Definition builtinGERealSig_evalInt (args : list Arg) : outcome (option Z) := resOfGE (CompareReal args).
Definition builtinGEDecimalSig_evalInt (args : list Arg) : outcome (option Z) := resOfGE (CompareDecimal args).
Definition builtinGEStringSig_evalInt (args : list Arg) : outcome (option Z) := resOfGE (CompareStringWithCollationInfo args).
Definition builtinGETimeSig_evalInt (args : list Arg) : outcome (option Z) := resOfGE (CompareTime args).
Definition builtinEQIntSig_evalInt (args : list Arg) : outcome (option Z) := resOfEQ (CompareInt args).
Definition builtinEQRealSig_evalInt (args : list Arg) : outcome (option Z) := resOfEQ (CompareReal args).
Definition builtinEQDecimalSig_evalInt (args : list Arg) : outcome (option Z) := resOfEQ (CompareDecimal args).
Definition builtinEQStringSig_evalInt (args : list Arg) : outcome (option Z) := resOfEQ (CompareStringWithCollationInfo args).
Definition builtinEQTimeSig_evalInt (args : list Arg) : outcome (option Z) := resOfEQ (CompareTime args).
Definition builtinNEIntSig_evalInt (args : list Arg) : outcome (option Z) := resOfNE (CompareInt args).
Definition builtinNERealSig_evalInt (args : list Arg) : outcome (option Z) := resOfNE (CompareReal args).
Definition builtinNEDecimalSig_evalInt (args : list Arg) : outcome (option Z) := resOfNE (CompareDecimal args).
Definition builtinNEStringSig_evalInt (args : list Arg) : outcome (option Z) := resOfNE (CompareStringWithCollationInfo args).
Definition builtinNETimeSig_evalInt (args : list Arg) : outcome (option Z) := resOfNE (CompareTime args).

(** [<=>]: nulls are equal to each other and to nothing else. *)
Definition nullEQ {A} (eval : list Arg → nat → outcome (option A)) (eq : A → A → outcome bool) (args : list Arg) : outcome (option Z) :=
  arg0 ← eval args 0%nat;
  arg1 ← eval args 1%nat;
  match arg0, arg1 with
  | None, None => Ok (Some 1)
  | Some x, Some y => b ← eq x y; Ok (Some (int_of_bool b))
  | _, _ => Ok (Some 0)
  end.

Definition equalInts (isUnsigned0 isUnsigned1 : bool) (arg0 arg1 : Z) : bool :=
  match isUnsigned0, isUnsigned1 with
  | true, true => CompareUint64 (u64 arg0) (u64 arg1) =? 0
  | true, false => if arg1 <? 0 then false else CompareInt64 arg0 arg1 =? 0
  | false, true => if arg0 <? 0 then false else CompareInt64 arg0 arg1 =? 0
  | false, false => CompareInt64 arg0 arg1 =? 0
  end.

Definition builtinNullEQIntSig_evalInt (args : list Arg) : outcome (option Z) :=
  nullEQ argInt (λ x y,
    isUnsigned0 ← argUnsigned args 0;
    isUnsigned1 ← argUnsigned args 1;
    Ok (equalInts isUnsigned0 isUnsigned1 x y)) args.
Definition builtinNullEQRealSig_evalInt (args : list Arg) : outcome (option Z) := nullEQ argReal (λ x y, Ok (CompareFloat64 x y =? 0)) args.
Definition builtinNullEQDecimalSig_evalInt (args : list Arg) : outcome (option Z) := nullEQ argDecimal (λ x y, r ← decimal_Compare x y; Ok (r =? 0)) args.
Definition builtinNullEQStringSig_evalInt (args : list Arg) : outcome (option Z) := nullEQ argString (λ x y, Ok (CompareString x y =? 0)) args.
Definition builtinNullEQTimeSig_evalInt (args : list Arg) : outcome (option Z) := nullEQ argTime (λ x y, Ok (time_Compare x y =? 0)) args.

(** The greatest and the least of the arguments; a null makes the result null. *)
Fixpoint extremum_loop {A} (eval : Evals → outcome (option A)) (better : A → A → outcome bool) (args : list Arg) (best : A) : outcome (option A) :=
  match args with
  | [] => Ok (Some best)
  | a :: rest =>
      v ⇐ eval (arg_evals a);
      b ← better v best;
      extremum_loop eval better rest (if b : bool then v else best)
  end.
Definition extremum {A} (eval : Evals → outcome (option A)) (better : A → A → outcome bool) (args : list Arg) : outcome (option A) :=
  a ← index args 0;
  best ⇐ eval (arg_evals a);
  extremum_loop eval better (tail args) best.

Definition builtinGreatestIntSig_evalInt (args : list Arg) : outcome (option Z) := extremum evInt (λ v m, Ok (m <? v)) args.
Definition builtinLeastIntSig_evalInt (args : list Arg) : outcome (option Z) := extremum evInt (λ v m, Ok (v <? m)) args.
Definition builtinGreatestRealSig_evalReal (args : list Arg) : outcome (option spec_float) := extremum evReal (λ v m, Ok (sf_lt m v)) args.
Definition builtinLeastRealSig_evalReal (args : list Arg) : outcome (option spec_float) := extremum evReal (λ v m, Ok (sf_lt v m)) args.
Definition builtinGreatestDecimalSig_evalDecimal (args : list Arg) : outcome (option MyDecimal) := extremum evDecimal (λ v m, r ← decimal_Compare v m; Ok (0 <? r)) args.
Definition builtinLeastDecimalSig_evalDecimal (args : list Arg) : outcome (option MyDecimal) := extremum evDecimal (λ v m, r ← decimal_Compare v m; Ok (r <? 0)) args.
Definition builtinGreatestStringSig_evalString (args : list Arg) : outcome (option bytes) := extremum evString (λ v m, Ok (0 <? CompareString v m)) args.
Definition builtinLeastStringSig_evalString (args : list Arg) : outcome (option bytes) := extremum evString (λ v m, Ok (CompareString v m <? 0)) args.

(** ** Intervals *)

Definition intervalLess (isUint1 isUint2 : bool) (target arg : Z) : bool :=
  match isUint1, isUint2 with
  | false, false => target <? arg
  | true, true => u64 target <? u64 arg
  | false, true => (target <? 0) || (u64 target <? u64 arg)
  | true, false => (0 <? arg) && (u64 target <? u64 arg)
  end.

Fixpoint linearSearch (target : Z) (isUint1 : bool) (args : list Arg) (i : Z) : outcome Z :=
  match args with
  | [] => Ok i
  | a :: rest =>
      arg ← evInt (arg_evals a);
      if match arg with Some v => intervalLess isUint1 (ft_Unsigned (arg_tp a)) target v | None => false end
      then Ok i else linearSearch target isUint1 rest (i + 1)
  end.

(** [j - i] halves in every round. *)
Fixpoint binSearch_loop (fuel : nat) (target : Z) (isUint1 : bool) (args : list Arg) (i j : nat) : outcome nat :=
  match fuel with
  | O => Undef
  | S fuel =>
      if (i <? j)%nat then
        let mid := (i + (j - i) / 2)%nat in
        a ← index args mid;
        o ← evInt (arg_evals a);
        let v := default target o in
        if intervalLess isUint1 (ft_Unsigned (arg_tp a)) target v
        then binSearch_loop fuel target isUint1 args i mid
        else binSearch_loop fuel target isUint1 args (mid + 1) j
      else Ok i
  end.
Definition binSearch (target : Z) (isUint1 : bool) (args : list Arg) : outcome nat :=
  binSearch_loop (S (length args)) target isUint1 args 0 (length args).

(** [hasNullable] is part of the signature. *)
Definition builtinIntervalIntSig_evalInt (hasNullable : bool) (args : list Arg) : outcome (option Z) :=
  arg0 ← argInt args 0;
  match arg0 with
  | None => Ok (Some (-1))
  | Some target =>
      isUint1 ← argUnsigned args 0;
      if hasNullable then (idx ← linearSearch target isUint1 (tail args) 0; Ok (Some idx))
      else (idx ← binSearch target isUint1 (tail args); Ok (Some (Z.of_nat idx)))
  end.

(** [Clone] does not copy the field. *)
Definition builtinIntervalIntSig_Clone (hasNullable : bool) : bool := false.
