(* ===== verification/Expressions.v ===== *)
(** * Expressions

    src/tidb/expression/column.go, constant.go and scalar_function.go: an expression is a
    column of the row, a constant, or a function of expressions. The
    evaluation methods of a function are those of its signature (see the builtin functions);
    the others give an error.

    Constants are those of the query text: parameters of prepared statements and deferred
    expressions are left out, and so are the conversions of strings and of numbers that
    Constant makes when a value of another type is asked for. *)

From stdpp Require Import base list list_numbers strings.
From Stdlib Require Import ZArith Lia SpecFloat.
From S2P Require Import Prelude Encoding Timestamp Floats Decimal DecimalArith Rows PullExec Builtins.

(** ** Signatures *)

Inductive Sig :=
  | builtinArithmeticPlusIntSig
  | builtinArithmeticMinusIntSig (forceToSigned : bool)
  | builtinArithmeticMultiplyIntUnsignedSig
  | builtinArithmeticMultiplyIntSig
  | builtinArithmeticIntDivideIntSig
  | builtinArithmeticModIntUnsignedUnsignedSig
  | builtinArithmeticModIntUnsignedSignedSig
  | builtinArithmeticModIntSignedUnsignedSig
  | builtinArithmeticModIntSignedSignedSig
  | builtinArithmeticPlusRealSig
  | builtinArithmeticMinusRealSig
  | builtinArithmeticMultiplyRealSig
  | builtinArithmeticDivideRealSig
  | builtinArithmeticPlusDecimalSig
  | builtinArithmeticMinusDecimalSig
  | builtinLogicAndSig
  | builtinLogicOrSig
  | builtinLogicXorSig
  | builtinBitAndSig
  | builtinBitOrSig
  | builtinBitXorSig
  | builtinLeftShiftSig
  | builtinRightShiftSig
  | builtinBitNegSig
  | builtinIntIsTrueSig (keepNull : bool)
  | builtinIntIsFalseSig (keepNull : bool)
  | builtinUnaryNotIntSig
  | builtinUnaryMinusIntSig
  | builtinRealIsTrueSig (keepNull : bool)
  | builtinRealIsFalseSig (keepNull : bool)
  | builtinUnaryNotRealSig
  | builtinUnaryMinusRealSig
  | builtinDecimalIsTrueSig (keepNull : bool)
  | builtinDecimalIsFalseSig (keepNull : bool)
  | builtinUnaryNotDecimalSig
  | builtinUnaryMinusDecimalSig
  | builtinIntIsNullSig
  | builtinRealIsNullSig
  | builtinDecimalIsNullSig
  | builtinStringIsNullSig
  | builtinTimeIsNullSig
  | builtinCaseWhenIntSig
  | builtinIfIntSig
  | builtinIfNullIntSig
  | builtinCoalesceIntSig
  | builtinCaseWhenRealSig
  | builtinIfRealSig
  | builtinIfNullRealSig
  | builtinCoalesceRealSig
  | builtinCaseWhenDecimalSig
  | builtinIfDecimalSig
  | builtinIfNullDecimalSig
  | builtinCoalesceDecimalSig
  | builtinCaseWhenStringSig
  | builtinIfStringSig
  | builtinIfNullStringSig
  | builtinCoalesceStringSig
  | builtinCaseWhenTimeSig
  | builtinIfTimeSig
  | builtinIfNullTimeSig
  | builtinCoalesceTimeSig
  | builtinLTIntSig
  | builtinLTRealSig
  | builtinLTDecimalSig
  | builtinLTStringSig
  | builtinLTTimeSig
  | builtinLEIntSig
  | builtinLERealSig
  | builtinLEDecimalSig
  | builtinLEStringSig
  | builtinLETimeSig
  | builtinGTIntSig
  | builtinGTRealSig
  | builtinGTDecimalSig
  | builtinGTStringSig
  | builtinGTTimeSig
  | builtinGEIntSig
  | builtinGERealSig
  | builtinGEDecimalSig
  | builtinGEStringSig
  | builtinGETimeSig
  | builtinEQIntSig
  | builtinEQRealSig
  | builtinEQDecimalSig
  | builtinEQStringSig
  | builtinEQTimeSig
  | builtinNEIntSig
  | builtinNERealSig
  | builtinNEDecimalSig
  | builtinNEStringSig
  | builtinNETimeSig
  | builtinNullEQIntSig
  | builtinNullEQRealSig
  | builtinNullEQDecimalSig
  | builtinNullEQStringSig
  | builtinNullEQTimeSig
  | builtinGreatestIntSig
  | builtinLeastIntSig
  | builtinGreatestRealSig
  | builtinLeastRealSig
  | builtinGreatestDecimalSig
  | builtinLeastDecimalSig
  | builtinGreatestStringSig
  | builtinLeastStringSig
  | builtinIntervalIntSig (hasNullable : bool).

(** The methods of [baseBuiltinFunc]. *)
Definition shouldNeverBeCalled : string := "should never be called, please contact the TiDB team for help".
Definition never {A} : outcome A := Err shouldNeverBeCalled.
Definition onlyInt (r : outcome (option Z)) : Evals := MkEvals r never never never never.
Definition onlyReal (r : outcome (option spec_float)) : Evals := MkEvals never r never never never.
Definition onlyDecimal (r : outcome (option MyDecimal)) : Evals := MkEvals never never r never never.
Definition onlyString (r : outcome (option bytes)) : Evals := MkEvals never never never r never.
Definition onlyTime (r : outcome (option Time)) : Evals := MkEvals never never never never r.

Definition sig_evals (f : Sig) (args : list Arg) : Evals :=
  match f with
  | builtinArithmeticPlusIntSig => onlyInt (builtinArithmeticPlusIntSig_evalInt args)
  | builtinArithmeticMinusIntSig forceToSigned => onlyInt (builtinArithmeticMinusIntSig_evalInt forceToSigned args)
  | builtinArithmeticMultiplyIntUnsignedSig => onlyInt (builtinArithmeticMultiplyIntUnsignedSig_evalInt args)
  | builtinArithmeticMultiplyIntSig => onlyInt (builtinArithmeticMultiplyIntSig_evalInt args)
  | builtinArithmeticIntDivideIntSig => onlyInt (builtinArithmeticIntDivideIntSig_evalInt args)
  | builtinArithmeticModIntUnsignedUnsignedSig => onlyInt (builtinArithmeticModIntUnsignedUnsignedSig_evalInt args)
  | builtinArithmeticModIntUnsignedSignedSig => onlyInt (builtinArithmeticModIntUnsignedSignedSig_evalInt args)
  | builtinArithmeticModIntSignedUnsignedSig => onlyInt (builtinArithmeticModIntSignedUnsignedSig_evalInt args)
  | builtinArithmeticModIntSignedSignedSig => onlyInt (builtinArithmeticModIntSignedSignedSig_evalInt args)
  | builtinArithmeticPlusRealSig => onlyReal (builtinArithmeticPlusRealSig_evalReal args)
  | builtinArithmeticMinusRealSig => onlyReal (builtinArithmeticMinusRealSig_evalReal args)
  | builtinArithmeticMultiplyRealSig => onlyReal (builtinArithmeticMultiplyRealSig_evalReal args)
  | builtinArithmeticDivideRealSig => onlyReal (builtinArithmeticDivideRealSig_evalReal args)
  | builtinArithmeticPlusDecimalSig => onlyDecimal (builtinArithmeticPlusDecimalSig_evalDecimal args)
  | builtinArithmeticMinusDecimalSig => onlyDecimal (builtinArithmeticMinusDecimalSig_evalDecimal args)
  | builtinLogicAndSig => onlyInt (builtinLogicAndSig_evalInt args)
  | builtinLogicOrSig => onlyInt (builtinLogicOrSig_evalInt args)
  | builtinLogicXorSig => onlyInt (builtinLogicXorSig_evalInt args)
  | builtinBitAndSig => onlyInt (builtinBitAndSig_evalInt args)
  | builtinBitOrSig => onlyInt (builtinBitOrSig_evalInt args)
  | builtinBitXorSig => onlyInt (builtinBitXorSig_evalInt args)
  | builtinLeftShiftSig => onlyInt (builtinLeftShiftSig_evalInt args)
  | builtinRightShiftSig => onlyInt (builtinRightShiftSig_evalInt args)
  | builtinBitNegSig => onlyInt (builtinBitNegSig_evalInt args)
  | builtinIntIsTrueSig keepNull => onlyInt (builtinIntIsTrueSig_evalInt keepNull args)
  | builtinIntIsFalseSig keepNull => onlyInt (builtinIntIsFalseSig_evalInt keepNull args)
  | builtinUnaryNotIntSig => onlyInt (builtinUnaryNotIntSig_evalInt args)
  | builtinUnaryMinusIntSig => onlyInt (builtinUnaryMinusIntSig_evalInt args)
  | builtinRealIsTrueSig keepNull => onlyInt (builtinRealIsTrueSig_evalInt keepNull args)
  | builtinRealIsFalseSig keepNull => onlyInt (builtinRealIsFalseSig_evalInt keepNull args)
  | builtinUnaryNotRealSig => onlyInt (builtinUnaryNotRealSig_evalInt args)
  | builtinUnaryMinusRealSig => onlyReal (builtinUnaryMinusRealSig_evalReal args)
  | builtinDecimalIsTrueSig keepNull => onlyInt (builtinDecimalIsTrueSig_evalInt keepNull args)
  | builtinDecimalIsFalseSig keepNull => onlyInt (builtinDecimalIsFalseSig_evalInt keepNull args)
  | builtinUnaryNotDecimalSig => onlyInt (builtinUnaryNotDecimalSig_evalInt args)
  | builtinUnaryMinusDecimalSig => onlyDecimal (builtinUnaryMinusDecimalSig_evalDecimal args)
  | builtinIntIsNullSig => onlyInt (builtinIntIsNullSig_evalInt args)
  | builtinRealIsNullSig => onlyInt (builtinRealIsNullSig_evalInt args)
  | builtinDecimalIsNullSig => onlyInt (builtinDecimalIsNullSig_evalInt args)
  | builtinStringIsNullSig => onlyInt (builtinStringIsNullSig_evalInt args)
  | builtinTimeIsNullSig => onlyInt (builtinTimeIsNullSig_evalInt args)
  | builtinCaseWhenIntSig => onlyInt (builtinCaseWhenIntSig_evalInt args)
  | builtinIfIntSig => onlyInt (builtinIfIntSig_evalInt args)
  | builtinIfNullIntSig => onlyInt (builtinIfNullIntSig_evalInt args)
  | builtinCoalesceIntSig => onlyInt (builtinCoalesceIntSig_evalInt args)
  | builtinCaseWhenRealSig => onlyReal (builtinCaseWhenRealSig_evalReal args)
  | builtinIfRealSig => onlyReal (builtinIfRealSig_evalReal args)
  | builtinIfNullRealSig => onlyReal (builtinIfNullRealSig_evalReal args)
  | builtinCoalesceRealSig => onlyReal (builtinCoalesceRealSig_evalReal args)
  | builtinCaseWhenDecimalSig => onlyDecimal (builtinCaseWhenDecimalSig_evalDecimal args)
  | builtinIfDecimalSig => onlyDecimal (builtinIfDecimalSig_evalDecimal args)
  | builtinIfNullDecimalSig => onlyDecimal (builtinIfNullDecimalSig_evalDecimal args)
  | builtinCoalesceDecimalSig => onlyDecimal (builtinCoalesceDecimalSig_evalDecimal args)
  | builtinCaseWhenStringSig => onlyString (builtinCaseWhenStringSig_evalString args)
  | builtinIfStringSig => onlyString (builtinIfStringSig_evalString args)
  | builtinIfNullStringSig => onlyString (builtinIfNullStringSig_evalString args)
  | builtinCoalesceStringSig => onlyString (builtinCoalesceStringSig_evalString args)
  | builtinCaseWhenTimeSig => onlyTime (builtinCaseWhenTimeSig_evalTime args)
  | builtinIfTimeSig => onlyTime (builtinIfTimeSig_evalTime args)
  | builtinIfNullTimeSig => onlyTime (builtinIfNullTimeSig_evalTime args)
  | builtinCoalesceTimeSig => onlyTime (builtinCoalesceTimeSig_evalTime args)
  | builtinLTIntSig => onlyInt (builtinLTIntSig_evalInt args)
  | builtinLTRealSig => onlyInt (builtinLTRealSig_evalInt args)
  | builtinLTDecimalSig => onlyInt (builtinLTDecimalSig_evalInt args)
  | builtinLTStringSig => onlyInt (builtinLTStringSig_evalInt args)
  | builtinLTTimeSig => onlyInt (builtinLTTimeSig_evalInt args)
  | builtinLEIntSig => onlyInt (builtinLEIntSig_evalInt args)
  | builtinLERealSig => onlyInt (builtinLERealSig_evalInt args)
  | builtinLEDecimalSig => onlyInt (builtinLEDecimalSig_evalInt args)
  | builtinLEStringSig => onlyInt (builtinLEStringSig_evalInt args)
  | builtinLETimeSig => onlyInt (builtinLETimeSig_evalInt args)
  | builtinGTIntSig => onlyInt (builtinGTIntSig_evalInt args)
  | builtinGTRealSig => onlyInt (builtinGTRealSig_evalInt args)
  | builtinGTDecimalSig => onlyInt (builtinGTDecimalSig_evalInt args)
  | builtinGTStringSig => onlyInt (builtinGTStringSig_evalInt args)
  | builtinGTTimeSig => onlyInt (builtinGTTimeSig_evalInt args)
  | builtinGEIntSig => onlyInt (builtinGEIntSig_evalInt args)
  | builtinGERealSig => onlyInt (builtinGERealSig_evalInt args)
  | builtinGEDecimalSig => onlyInt (builtinGEDecimalSig_evalInt args)
  | builtinGEStringSig => onlyInt (builtinGEStringSig_evalInt args)
  | builtinGETimeSig => onlyInt (builtinGETimeSig_evalInt args)
  | builtinEQIntSig => onlyInt (builtinEQIntSig_evalInt args)
  | builtinEQRealSig => onlyInt (builtinEQRealSig_evalInt args)
  | builtinEQDecimalSig => onlyInt (builtinEQDecimalSig_evalInt args)
  | builtinEQStringSig => onlyInt (builtinEQStringSig_evalInt args)
  | builtinEQTimeSig => onlyInt (builtinEQTimeSig_evalInt args)
  | builtinNEIntSig => onlyInt (builtinNEIntSig_evalInt args)
  | builtinNERealSig => onlyInt (builtinNERealSig_evalInt args)
  | builtinNEDecimalSig => onlyInt (builtinNEDecimalSig_evalInt args)
  | builtinNEStringSig => onlyInt (builtinNEStringSig_evalInt args)
  | builtinNETimeSig => onlyInt (builtinNETimeSig_evalInt args)
  | builtinNullEQIntSig => onlyInt (builtinNullEQIntSig_evalInt args)
  | builtinNullEQRealSig => onlyInt (builtinNullEQRealSig_evalInt args)
  | builtinNullEQDecimalSig => onlyInt (builtinNullEQDecimalSig_evalInt args)
  | builtinNullEQStringSig => onlyInt (builtinNullEQStringSig_evalInt args)
  | builtinNullEQTimeSig => onlyInt (builtinNullEQTimeSig_evalInt args)
  | builtinGreatestIntSig => onlyInt (builtinGreatestIntSig_evalInt args)
  | builtinLeastIntSig => onlyInt (builtinLeastIntSig_evalInt args)
  | builtinGreatestRealSig => onlyReal (builtinGreatestRealSig_evalReal args)
  | builtinLeastRealSig => onlyReal (builtinLeastRealSig_evalReal args)
  | builtinGreatestDecimalSig => onlyDecimal (builtinGreatestDecimalSig_evalDecimal args)
  | builtinLeastDecimalSig => onlyDecimal (builtinLeastDecimalSig_evalDecimal args)
  | builtinGreatestStringSig => onlyString (builtinGreatestStringSig_evalString args)
  | builtinLeastStringSig => onlyString (builtinLeastStringSig_evalString args)
  | builtinIntervalIntSig hasNullable => onlyInt (builtinIntervalIntSig_evalInt hasNullable args)
  end.

(** ** Expressions and their evaluation *)

Module expression.

Inductive Expression :=
  | Column (RetType : FieldType) (Index : nat)
  | Constant (RetType : FieldType) (Value : option value)
  | ScalarFunction (RetType : FieldType) (Function : Sig) (Args : list Expression).

Definition GetType (e : Expression) : FieldType :=
  match e with Column tp _ | Constant tp _ | ScalarFunction tp _ _ => tp end.

(** A null, or the value that [get] finds. *)
Definition unless_null {A} (row : Row) (i : nat) (get : outcome A) : outcome (option A) :=
  null ← IsNull row i;
  if null : bool then Ok None else (x ← get; Ok (Some x)).

Definition Column_evals (i : nat) (row : Row) : Evals :=
  MkEvals (unless_null row i (GetInt64 row i)) (unless_null row i (f ← GetFloat64 row i; Ok (float_decode f)))
    (unless_null row i (GetDecimal row i)) (unless_null row i (GetString row i)) (unless_null row i (GetTimestamp row i)).

Definition Constant_evals (v : option value) : Evals :=
  match v with
  | None => MkEvals (Ok None) (Ok None) (Ok None) (Ok None) (Ok None)
  | Some v =>
      MkEvals (match v with VInt z => Ok (Some z) | _ => Undef end) (match v with VFloat f => Ok (Some (float_decode f)) | _ => Undef end)
        (match v with VDecimal d => Ok (Some d) | _ => Undef end) (match v with VString s => Ok (Some s) | _ => Undef end)
        (match v with VTimestamp t => Ok (Some t) | _ => Undef end)
  end.

Fixpoint evals (e : Expression) (row : Row) : Evals :=
  match e with
  | Column _ i => Column_evals i row
  | Constant _ v => Constant_evals v
  | ScalarFunction _ f args => sig_evals f (map (λ a, MkArg (GetType a) (evals a row)) args)
  end.

Definition EvalInt (e : Expression) (row : Row) : outcome (option Z) := evInt (evals e row).
Definition EvalReal (e : Expression) (row : Row) : outcome (option spec_float) := evReal (evals e row).
Definition EvalDecimal (e : Expression) (row : Row) : outcome (option MyDecimal) := evDecimal (evals e row).
Definition EvalString (e : Expression) (row : Row) : outcome (option bytes) := evString (evals e row).
Definition EvalTime (e : Expression) (row : Row) : outcome (option Time) := evTime (evals e row).
End expression.

(** The expression of a query plan, as the executors use it. [retType]: what
    [ConvertTiDBTypeToPranaType] gives for the type of the expression. *)
Definition NewExpression (retType : outcome ColumnType) (e : expression.Expression) : Expression :=
  MkExpression
    (match e with
     | expression.Column _ i => ExprColumn i
     | expression.Constant _ _ => ExprConstant retType
     | expression.ScalarFunction _ _ _ => ExprScalarFunction retType
     end) None
    (expression.EvalInt e)
    (λ row, v ⇐ expression.EvalReal e row; f ← float_encode v; Ok (Some f))
    (expression.EvalDecimal e) (expression.EvalString e) (expression.EvalTime e).

(** ** The types of signatures *)

(** The evaluation method of a type; a timestamp is evaluated as a time. *)
Inductive Kind := KInt | KReal | KDecimal | KString | KTime.

#[global] Instance Kind_eq_dec : EqDecision Kind.
Proof. solve_decision. Defined.

Definition kind_of (t : EvalType) : option Kind :=
  match t with
  | ETInt => Some KInt
  | ETReal => Some KReal
  | ETDecimal => Some KDecimal
  | ETString => Some KString
  | ETDatetime | ETTimestamp => Some KTime
  | ETDuration | ETJson => None
  end.

Definition args1 (k : Kind) (ks : list Kind) : bool := bool_decide (ks = [k]).
Definition args2 (k1 k2 : Kind) (ks : list Kind) : bool := bool_decide (ks = [k1; k2]).
Definition args3 (k1 k2 k3 : Kind) (ks : list Kind) : bool := bool_decide (ks = [k1; k2; k3]).
Definition argsAll (k : Kind) (ks : list Kind) : bool := forallb (λ k', bool_decide (k' = k)) ks.
Definition argsSome (k : Kind) (ks : list Kind) : bool := negb (bool_decide (ks = [])) && argsAll k ks.
Fixpoint argsCase (k : Kind) (ks : list Kind) : bool :=
  match ks with
  | [] => true
  | [k'] => bool_decide (k' = k)
  | c :: v :: rest => bool_decide (c = KInt) && bool_decide (v = k) && argsCase k rest
  end.

(** The kinds of the arguments that a signature takes. The number of arguments, which
    INTERVAL counts, is an int. *)
Definition sig_takes (f : Sig) (ks : list Kind) : bool :=
  match f with
  | builtinArithmeticPlusIntSig => args2 KInt KInt ks
  | builtinArithmeticMinusIntSig _ => args2 KInt KInt ks
  | builtinArithmeticMultiplyIntUnsignedSig => args2 KInt KInt ks
  | builtinArithmeticMultiplyIntSig => args2 KInt KInt ks
  | builtinArithmeticIntDivideIntSig => args2 KInt KInt ks
  | builtinArithmeticModIntUnsignedUnsignedSig => args2 KInt KInt ks
  | builtinArithmeticModIntUnsignedSignedSig => args2 KInt KInt ks
  | builtinArithmeticModIntSignedUnsignedSig => args2 KInt KInt ks
  | builtinArithmeticModIntSignedSignedSig => args2 KInt KInt ks
  | builtinArithmeticPlusRealSig => args2 KReal KReal ks
  | builtinArithmeticMinusRealSig => args2 KReal KReal ks
  | builtinArithmeticMultiplyRealSig => args2 KReal KReal ks
  | builtinArithmeticDivideRealSig => args2 KReal KReal ks
  | builtinArithmeticPlusDecimalSig => args2 KDecimal KDecimal ks
  | builtinArithmeticMinusDecimalSig => args2 KDecimal KDecimal ks
  | builtinLogicAndSig => args2 KInt KInt ks
  | builtinLogicOrSig => args2 KInt KInt ks
  | builtinLogicXorSig => args2 KInt KInt ks
  | builtinBitAndSig => args2 KInt KInt ks
  | builtinBitOrSig => args2 KInt KInt ks
  | builtinBitXorSig => args2 KInt KInt ks
  | builtinLeftShiftSig => args2 KInt KInt ks
  | builtinRightShiftSig => args2 KInt KInt ks
  | builtinBitNegSig => args1 KInt ks
  | builtinIntIsTrueSig _ => args1 KInt ks
  | builtinIntIsFalseSig _ => args1 KInt ks
  | builtinUnaryNotIntSig => args1 KInt ks
  | builtinUnaryMinusIntSig => args1 KInt ks
  | builtinRealIsTrueSig _ => args1 KReal ks
  | builtinRealIsFalseSig _ => args1 KReal ks
  | builtinUnaryNotRealSig => args1 KReal ks
  | builtinUnaryMinusRealSig => args1 KReal ks
  | builtinDecimalIsTrueSig _ => args1 KDecimal ks
  | builtinDecimalIsFalseSig _ => args1 KDecimal ks
  | builtinUnaryNotDecimalSig => args1 KDecimal ks
  | builtinUnaryMinusDecimalSig => args1 KDecimal ks
  | builtinIntIsNullSig => args1 KInt ks
  | builtinRealIsNullSig => args1 KReal ks
  | builtinDecimalIsNullSig => args1 KDecimal ks
  | builtinStringIsNullSig => args1 KString ks
  | builtinTimeIsNullSig => args1 KTime ks
  | builtinCaseWhenIntSig => argsCase KInt ks
  | builtinIfIntSig => args3 KInt KInt KInt ks
  | builtinIfNullIntSig => args2 KInt KInt ks
  | builtinCoalesceIntSig => argsAll KInt ks
  | builtinCaseWhenRealSig => argsCase KReal ks
  | builtinIfRealSig => args3 KInt KReal KReal ks
  | builtinIfNullRealSig => args2 KReal KReal ks
  | builtinCoalesceRealSig => argsAll KReal ks
  | builtinCaseWhenDecimalSig => argsCase KDecimal ks
  | builtinIfDecimalSig => args3 KInt KDecimal KDecimal ks
  | builtinIfNullDecimalSig => args2 KDecimal KDecimal ks
  | builtinCoalesceDecimalSig => argsAll KDecimal ks
  | builtinCaseWhenStringSig => argsCase KString ks
  | builtinIfStringSig => args3 KInt KString KString ks
  | builtinIfNullStringSig => args2 KString KString ks
  | builtinCoalesceStringSig => argsAll KString ks
  | builtinCaseWhenTimeSig => argsCase KTime ks
  | builtinIfTimeSig => args3 KInt KTime KTime ks
  | builtinIfNullTimeSig => args2 KTime KTime ks
  | builtinCoalesceTimeSig => argsAll KTime ks
  | builtinLTIntSig => args2 KInt KInt ks
  | builtinLTRealSig => args2 KReal KReal ks
  | builtinLTDecimalSig => args2 KDecimal KDecimal ks
  | builtinLTStringSig => args2 KString KString ks
  | builtinLTTimeSig => args2 KTime KTime ks
  | builtinLEIntSig => args2 KInt KInt ks
  | builtinLERealSig => args2 KReal KReal ks
  | builtinLEDecimalSig => args2 KDecimal KDecimal ks
  | builtinLEStringSig => args2 KString KString ks
  | builtinLETimeSig => args2 KTime KTime ks
  | builtinGTIntSig => args2 KInt KInt ks
  | builtinGTRealSig => args2 KReal KReal ks
  | builtinGTDecimalSig => args2 KDecimal KDecimal ks
  | builtinGTStringSig => args2 KString KString ks
  | builtinGTTimeSig => args2 KTime KTime ks
  | builtinGEIntSig => args2 KInt KInt ks
  | builtinGERealSig => args2 KReal KReal ks
  | builtinGEDecimalSig => args2 KDecimal KDecimal ks
  | builtinGEStringSig => args2 KString KString ks
  | builtinGETimeSig => args2 KTime KTime ks
  | builtinEQIntSig => args2 KInt KInt ks
  | builtinEQRealSig => args2 KReal KReal ks
  | builtinEQDecimalSig => args2 KDecimal KDecimal ks
  | builtinEQStringSig => args2 KString KString ks
  | builtinEQTimeSig => args2 KTime KTime ks
  | builtinNEIntSig => args2 KInt KInt ks
  | builtinNERealSig => args2 KReal KReal ks
  | builtinNEDecimalSig => args2 KDecimal KDecimal ks
  | builtinNEStringSig => args2 KString KString ks
  | builtinNETimeSig => args2 KTime KTime ks
  | builtinNullEQIntSig => args2 KInt KInt ks
  | builtinNullEQRealSig => args2 KReal KReal ks
  | builtinNullEQDecimalSig => args2 KDecimal KDecimal ks
  | builtinNullEQStringSig => args2 KString KString ks
  | builtinNullEQTimeSig => args2 KTime KTime ks
  | builtinGreatestIntSig => argsSome KInt ks
  | builtinLeastIntSig => argsSome KInt ks
  | builtinGreatestRealSig => argsSome KReal ks
  | builtinLeastRealSig => argsSome KReal ks
  | builtinGreatestDecimalSig => argsSome KDecimal ks
  | builtinLeastDecimalSig => argsSome KDecimal ks
  | builtinGreatestStringSig => argsSome KString ks
  | builtinLeastStringSig => argsSome KString ks
  | builtinIntervalIntSig _ => argsSome KInt ks && (Z.of_nat (length ks) <? two63)
  end.

Definition sig_kind (f : Sig) : Kind :=
  match f with
  | builtinArithmeticPlusIntSig | builtinArithmeticMinusIntSig _ | builtinArithmeticMultiplyIntUnsignedSig | builtinArithmeticMultiplyIntSig | builtinArithmeticIntDivideIntSig | builtinArithmeticModIntUnsignedUnsignedSig | builtinArithmeticModIntUnsignedSignedSig | builtinArithmeticModIntSignedUnsignedSig | builtinArithmeticModIntSignedSignedSig | builtinLogicAndSig | builtinLogicOrSig | builtinLogicXorSig | builtinBitAndSig | builtinBitOrSig | builtinBitXorSig | builtinLeftShiftSig | builtinRightShiftSig | builtinBitNegSig | builtinIntIsTrueSig _ | builtinIntIsFalseSig _ | builtinUnaryNotIntSig | builtinUnaryMinusIntSig | builtinRealIsTrueSig _ | builtinRealIsFalseSig _ | builtinUnaryNotRealSig | builtinDecimalIsTrueSig _ | builtinDecimalIsFalseSig _ | builtinUnaryNotDecimalSig | builtinIntIsNullSig | builtinRealIsNullSig | builtinDecimalIsNullSig | builtinStringIsNullSig | builtinTimeIsNullSig | builtinCaseWhenIntSig | builtinIfIntSig | builtinIfNullIntSig | builtinCoalesceIntSig | builtinLTIntSig | builtinLTRealSig | builtinLTDecimalSig | builtinLTStringSig | builtinLTTimeSig | builtinLEIntSig | builtinLERealSig | builtinLEDecimalSig | builtinLEStringSig | builtinLETimeSig | builtinGTIntSig | builtinGTRealSig | builtinGTDecimalSig | builtinGTStringSig | builtinGTTimeSig | builtinGEIntSig | builtinGERealSig | builtinGEDecimalSig | builtinGEStringSig | builtinGETimeSig | builtinEQIntSig | builtinEQRealSig | builtinEQDecimalSig | builtinEQStringSig | builtinEQTimeSig | builtinNEIntSig | builtinNERealSig | builtinNEDecimalSig | builtinNEStringSig | builtinNETimeSig | builtinNullEQIntSig | builtinNullEQRealSig | builtinNullEQDecimalSig | builtinNullEQStringSig | builtinNullEQTimeSig | builtinGreatestIntSig | builtinLeastIntSig | builtinIntervalIntSig _ => KInt
  | builtinArithmeticPlusRealSig | builtinArithmeticMinusRealSig | builtinArithmeticMultiplyRealSig | builtinArithmeticDivideRealSig | builtinUnaryMinusRealSig | builtinCaseWhenRealSig | builtinIfRealSig | builtinIfNullRealSig | builtinCoalesceRealSig | builtinGreatestRealSig | builtinLeastRealSig => KReal
  | builtinArithmeticPlusDecimalSig | builtinArithmeticMinusDecimalSig | builtinUnaryMinusDecimalSig | builtinCaseWhenDecimalSig | builtinIfDecimalSig | builtinIfNullDecimalSig | builtinCoalesceDecimalSig | builtinGreatestDecimalSig | builtinLeastDecimalSig => KDecimal
  | builtinCaseWhenStringSig | builtinIfStringSig | builtinIfNullStringSig | builtinCoalesceStringSig | builtinGreatestStringSig | builtinLeastStringSig => KString
  | builtinCaseWhenTimeSig | builtinIfTimeSig | builtinIfNullTimeSig | builtinCoalesceTimeSig => KTime
  end.

(** ** Function classes

    [getFunction] of a class chooses the signature for the types of the arguments. The result
    is the signature, the types its arguments are cast to, the type of its result and the
    unsigned flag of that. [None]: the signature is not modelled, or there are too few
    arguments. *)

Record Built := MkBuilt {
  b_sig : Sig;
  b_argTps : list EvalType;
  b_retTp : EvalType;
  b_unsigned : bool
}.

Definition numericContextResultType (ft : FieldType) : EvalType :=
  match ft_EvalType ft with
  | ETDatetime | ETTimestamp | ETDuration => if 0 <? ft_Decimal ft then ETDecimal else ETInt
  | et => if ft_BinaryStr ft then ETInt else match et with ETDecimal => ETDecimal | ETInt => ETInt | _ => ETReal end
  end.

(** The type of an operation on two numbers: real if either is, or else decimal if either is. *)
Definition arithType (lhsTp rhsTp : FieldType) : EvalType :=
  match numericContextResultType lhsTp, numericContextResultType rhsTp with
  | ETReal, _ | _, ETReal => ETReal
  | ETDecimal, _ | _, ETDecimal => ETDecimal
  | _, _ => ETInt
  end.

Definition built2 (f : Sig) (t ret : EvalType) (unsigned : bool) : option Built := Some (MkBuilt f [t; t] ret unsigned).

Definition arithmeticPlusFunctionClass_getFunction (lhsTp rhsTp : FieldType) : option Built :=
  match arithType lhsTp rhsTp with
  | ETReal => built2 builtinArithmeticPlusRealSig ETReal ETReal false
  | ETDecimal => built2 builtinArithmeticPlusDecimalSig ETDecimal ETDecimal false
  | _ => built2 builtinArithmeticPlusIntSig ETInt ETInt (ft_Unsigned lhsTp || ft_Unsigned rhsTp)
  end.

(** [noUnsignedSubtraction]: the mode of the session. *)
Definition arithmeticMinusFunctionClass_getFunction (noUnsignedSubtraction : bool) (lhsTp rhsTp : FieldType) : option Built :=
  match arithType lhsTp rhsTp with
  | ETReal => built2 builtinArithmeticMinusRealSig ETReal ETReal false
  | ETDecimal => built2 builtinArithmeticMinusDecimalSig ETDecimal ETDecimal false
  | _ => built2 (builtinArithmeticMinusIntSig noUnsignedSubtraction) ETInt ETInt
           ((ft_Unsigned lhsTp || ft_Unsigned rhsTp) && negb noUnsignedSubtraction)
  end.

Definition arithmeticMultiplyFunctionClass_getFunction (lhsTp rhsTp : FieldType) : option Built :=
  match arithType lhsTp rhsTp with
  | ETReal => built2 builtinArithmeticMultiplyRealSig ETReal ETReal false
  | ETDecimal => None
  | _ => if ft_Unsigned lhsTp || ft_Unsigned rhsTp then built2 builtinArithmeticMultiplyIntUnsignedSig ETInt ETInt true
         else built2 builtinArithmeticMultiplyIntSig ETInt ETInt false
  end.

Definition arithmeticDivideFunctionClass_getFunction (lhsTp rhsTp : FieldType) : option Built :=
  match arithType lhsTp rhsTp with
  | ETReal => built2 builtinArithmeticDivideRealSig ETReal ETReal false
  | _ => None
  end.

Definition arithmeticIntDivideFunctionClass_getFunction (lhsTp rhsTp : FieldType) : option Built :=
  match arithType lhsTp rhsTp with
  | ETInt => built2 builtinArithmeticIntDivideIntSig ETInt ETInt (ft_Unsigned lhsTp || ft_Unsigned rhsTp)
  | _ => None
  end.

Definition arithmeticModFunctionClass_getFunction (lhsTp rhsTp : FieldType) : option Built :=
  match arithType lhsTp rhsTp with
  | ETInt =>
      built2 (match ft_Unsigned lhsTp, ft_Unsigned rhsTp with
              | true, true => builtinArithmeticModIntUnsignedUnsignedSig
              | true, false => builtinArithmeticModIntUnsignedSignedSig
              | false, true => builtinArithmeticModIntSignedUnsignedSig
              | false, false => builtinArithmeticModIntSignedSignedSig
              end) ETInt ETInt (ft_Unsigned lhsTp)
  | _ => None
  end.

(** The arguments of the connectives have been wrapped with IS TRUE that keeps nulls. *)
Definition logicAndFunctionClass_getFunction : option Built := built2 builtinLogicAndSig ETInt ETInt false.
Definition logicOrFunctionClass_getFunction : option Built := built2 builtinLogicOrSig ETInt ETInt false.
Definition logicXorFunctionClass_getFunction : option Built := built2 builtinLogicXorSig ETInt ETInt false.
Definition bitAndFunctionClass_getFunction : option Built := built2 builtinBitAndSig ETInt ETInt true.
Definition bitOrFunctionClass_getFunction : option Built := built2 builtinBitOrSig ETInt ETInt true.
Definition bitXorFunctionClass_getFunction : option Built := built2 builtinBitXorSig ETInt ETInt true.
Definition leftShiftFunctionClass_getFunction : option Built := built2 builtinLeftShiftSig ETInt ETInt true.
Definition rightShiftFunctionClass_getFunction : option Built := built2 builtinRightShiftSig ETInt ETInt true.
Definition bitNegFunctionClass_getFunction : option Built := Some (MkBuilt builtinBitNegSig [ETInt] ETInt true).

(** [op]: [true] for IS TRUE. *)
Definition isTrueOrFalseFunctionClass_getFunction (op keepNull : bool) (tp : FieldType) : option Built :=
  let sig t :=
    match t with
    | ETReal => Some (if op then builtinRealIsTrueSig keepNull else builtinRealIsFalseSig keepNull)
    | ETDecimal => Some (if op then builtinDecimalIsTrueSig keepNull else builtinDecimalIsFalseSig keepNull)
    | ETInt => Some (if op then builtinIntIsTrueSig keepNull else builtinIntIsFalseSig keepNull)
    | _ => None
    end in
  let argTp := match ft_EvalType tp with ETTimestamp | ETDatetime | ETDuration | ETJson | ETString => ETReal | t => t end in
  f ← sig argTp; Some (MkBuilt f [argTp] ETInt false).

Definition unaryNotFunctionClass_getFunction (tp : FieldType) : option Built :=
  let argTp := match ft_EvalType tp with ETTimestamp | ETDatetime | ETDuration => ETInt | ETJson | ETString => ETReal | t => t end in
  f ← match argTp with
      | ETReal => Some builtinUnaryNotRealSig
      | ETDecimal => Some builtinUnaryNotDecimalSig
      | ETInt => Some builtinUnaryNotIntSig
      | _ => None
      end;
  Some (MkBuilt f [argTp] ETInt false).

(** [argValue]: the value of an argument that is an integer constant. *)
Definition handleIntOverflow (unsigned : bool) (value : Z) : bool :=
  if unsigned then two63 <? u64 value else value =? MinInt64.

Definition unaryMinusFunctionClass_getFunction (tp : FieldType) (argValue : option Z) : option Built :=
  let intOverflow := match argValue with Some v => handleIntOverflow (ft_Unsigned tp) v | None => false end in
  match ft_EvalType tp with
  | ETInt => if intOverflow then Some (MkBuilt builtinUnaryMinusDecimalSig [ETDecimal] ETDecimal false)
             else Some (MkBuilt builtinUnaryMinusIntSig [ETInt] ETInt false)
  | ETDecimal | ETDatetime | ETTimestamp | ETDuration => Some (MkBuilt builtinUnaryMinusDecimalSig [ETDecimal] ETDecimal false)
  | _ => Some (MkBuilt builtinUnaryMinusRealSig [ETReal] ETReal false)
  end.

Definition isNullFunctionClass_getFunction (tp : FieldType) : option Built :=
  let argTp := match ft_EvalType tp with ETTimestamp => ETDatetime | ETJson => ETString | t => t end in
  f ← match argTp with
      | ETInt => Some builtinIntIsNullSig
      | ETDecimal => Some builtinDecimalIsNullSig
      | ETReal => Some builtinRealIsNullSig
      | ETDatetime => Some builtinTimeIsNullSig
      | ETString => Some builtinStringIsNullSig
      | _ => None
      end;
  Some (MkBuilt f [argTp] ETInt false).

(** The operators of [compareFunctionClass]. *)
Inductive CmpOp := LT | LE | GT | GE | EQ | NE | NullEQ.

Definition generateCmpSigs (op : CmpOp) (tp : EvalType) : option Built :=
  f ← match tp with
      | ETInt =>
          Some (match op with | LT => builtinLTIntSig | LE => builtinLEIntSig | GT => builtinGTIntSig | GE => builtinGEIntSig | EQ => builtinEQIntSig | NE => builtinNEIntSig | NullEQ => builtinNullEQIntSig end)
      | ETReal =>
          Some (match op with | LT => builtinLTRealSig | LE => builtinLERealSig | GT => builtinGTRealSig | GE => builtinGERealSig | EQ => builtinEQRealSig | NE => builtinNERealSig | NullEQ => builtinNullEQRealSig end)
      | ETDecimal =>
          Some (match op with | LT => builtinLTDecimalSig | LE => builtinLEDecimalSig | GT => builtinGTDecimalSig | GE => builtinGEDecimalSig | EQ => builtinEQDecimalSig | NE => builtinNEDecimalSig | NullEQ => builtinNullEQDecimalSig end)
      | ETString =>
          Some (match op with | LT => builtinLTStringSig | LE => builtinLEStringSig | GT => builtinGTStringSig | GE => builtinGEStringSig | EQ => builtinEQStringSig | NE => builtinNEStringSig | NullEQ => builtinNullEQStringSig end)
      | ETDatetime | ETTimestamp =>
          Some (match op with | LT => builtinLTTimeSig | LE => builtinLETimeSig | GT => builtinGTTimeSig | GE => builtinGETimeSig | EQ => builtinEQTimeSig | NE => builtinNETimeSig | NullEQ => builtinNullEQTimeSig end)
      | ETDuration | ETJson => None
      end;
  Some (MkBuilt f [tp; tp] ETInt false).

(** The switches on the result type of IF, IFNULL, CASE and COALESCE. The result type is
    merged from those of the arguments by a function that is not modelled. *)
Definition ifFunctionClass_sig (tp : EvalType) : option Sig :=
  match tp with
  | ETInt => Some builtinIfIntSig
  | ETReal => Some builtinIfRealSig
  | ETDecimal => Some builtinIfDecimalSig
  | ETString => Some builtinIfStringSig
  | ETDatetime | ETTimestamp => Some builtinIfTimeSig
  | ETDuration | ETJson => None
  end.
Definition ifNullFunctionClass_sig (tp : EvalType) : option Sig :=
  match tp with
  | ETInt => Some builtinIfNullIntSig
  | ETReal => Some builtinIfNullRealSig
  | ETDecimal => Some builtinIfNullDecimalSig
  | ETString => Some builtinIfNullStringSig
  | ETDatetime | ETTimestamp => Some builtinIfNullTimeSig
  | ETDuration | ETJson => None
  end.
Definition caseWhenFunctionClass_sig (tp : EvalType) : option Sig :=
  match tp with
  | ETInt => Some builtinCaseWhenIntSig
  | ETReal => Some builtinCaseWhenRealSig
  | ETDecimal => Some builtinCaseWhenDecimalSig
  | ETString => Some builtinCaseWhenStringSig
  | ETDatetime | ETTimestamp => Some builtinCaseWhenTimeSig
  | ETDuration | ETJson => None
  end.
Definition coalesceFunctionClass_sig (tp : EvalType) : option Sig :=
  match tp with
  | ETInt => Some builtinCoalesceIntSig
  | ETReal => Some builtinCoalesceRealSig
  | ETDecimal => Some builtinCoalesceDecimalSig
  | ETString => Some builtinCoalesceStringSig
  | ETDatetime | ETTimestamp => Some builtinCoalesceTimeSig
  | ETDuration | ETJson => None
  end.

Fixpoint caseArgTps (tp : EvalType) (l : nat) : list EvalType :=
  match l with O => [] | 1%nat => [tp] | S (S l) => ETInt :: tp :: caseArgTps tp l end.

(** [retTp]: the merged type; [l]: the number of arguments. *)
Definition ifFunctionClass_getFunction (retTp : FieldType) : option Built :=
  let tp := ft_EvalType retTp in f ← ifFunctionClass_sig tp; Some (MkBuilt f [ETInt; tp; tp] tp (ft_Unsigned retTp)).
Definition ifNullFunctionClass_getFunction (retTp : FieldType) : option Built :=
  let tp := ft_EvalType retTp in f ← ifNullFunctionClass_sig tp; Some (MkBuilt f [tp; tp] tp (ft_Unsigned retTp)).
Definition caseWhenFunctionClass_getFunction (retTp : FieldType) (l : nat) : option Built :=
  let tp := ft_EvalType retTp in f ← caseWhenFunctionClass_sig tp; Some (MkBuilt f (caseArgTps tp l) tp (ft_Unsigned retTp)).
Definition coalesceFunctionClass_getFunction (retTp : FieldType) (l : nat) : option Built :=
  let tp := ft_EvalType retTp in f ← coalesceFunctionClass_sig tp; Some (MkBuilt f (replicate l tp) tp (ft_Unsigned retTp)).

(** [tp]: the type that [resolveType4Extremum] finds for the [l] arguments. *)
Definition greatestFunctionClass_getFunction (tp : EvalType) (l : nat) : option Built :=
  let argTp := match tp with ETDatetime | ETTimestamp | ETDuration | ETJson => ETString | _ => tp end in
  f ← match tp with
      | ETInt => Some builtinGreatestIntSig
      | ETReal => Some builtinGreatestRealSig
      | ETDecimal => Some builtinGreatestDecimalSig
      | ETDatetime | ETTimestamp => None
      | ETString | ETDuration | ETJson => Some builtinGreatestStringSig
      end;
  if (l <? 2)%nat then None else Some (MkBuilt f (replicate l argTp) argTp false).
Definition leastFunctionClass_getFunction (tp : EvalType) (l : nat) : option Built :=
  let argTp := match tp with ETDatetime | ETTimestamp | ETDuration | ETJson => ETString | _ => tp end in
  f ← match tp with
      | ETInt => Some builtinLeastIntSig
      | ETReal => Some builtinLeastRealSig
      | ETDecimal => Some builtinLeastDecimalSig
      | ETDatetime | ETTimestamp => None
      | ETString | ETDuration | ETJson => Some builtinLeastStringSig
      end;
  if (l <? 2)%nat then None else Some (MkBuilt f (replicate l argTp) argTp false).

Definition intervalFunctionClass_getFunction (tps : list FieldType) : option Built :=
  let allInt := forallb (λ tp, bool_decide (ft_EvalType tp = ETInt)) tps in
  let hasNullable := existsb (λ tp, negb (ft_NotNull tp)) tps in
  if (length tps <? 2)%nat || negb allInt then None
  else Some (MkBuilt (builtinIntervalIntSig hasNullable) (replicate (length tps) ETInt) ETInt false).

(** The function classes, with what is decided before they choose: the mode of the session,
    the value of a constant argument, and the common type of the arguments. *)
Inductive FunctionClass :=
  | arithmeticPlusFunctionClass
  | arithmeticMinusFunctionClass (noUnsignedSubtraction : bool)
  | arithmeticMultiplyFunctionClass
  | arithmeticDivideFunctionClass
  | arithmeticIntDivideFunctionClass
  | arithmeticModFunctionClass
  | logicAndFunctionClass | logicOrFunctionClass | logicXorFunctionClass
  | bitAndFunctionClass | bitOrFunctionClass | bitXorFunctionClass
  | leftShiftFunctionClass | rightShiftFunctionClass | bitNegFunctionClass
  | isTrueOrFalseFunctionClass (op keepNull : bool)
  | unaryNotFunctionClass
  | unaryMinusFunctionClass (argValue : option Z)
  | isNullFunctionClass
  | compareFunctionClass (op : CmpOp) (tp : EvalType)
  | ifFunctionClass (retTp : FieldType)
  | ifNullFunctionClass (retTp : FieldType)
  | caseWhenFunctionClass (retTp : FieldType)
  | coalesceFunctionClass (retTp : FieldType)
  | greatestFunctionClass (tp : EvalType)
  | leastFunctionClass (tp : EvalType)
  | intervalFunctionClass.

(** [getFunction] for arguments of the types [tps]. *)
Definition getFunction (c : FunctionClass) (tps : list FieldType) : option Built :=
  let l := length tps in
  match c, tps with
  | arithmeticPlusFunctionClass, [lhs; rhs] => arithmeticPlusFunctionClass_getFunction lhs rhs
  | arithmeticMinusFunctionClass no, [lhs; rhs] => arithmeticMinusFunctionClass_getFunction no lhs rhs
  | arithmeticMultiplyFunctionClass, [lhs; rhs] => arithmeticMultiplyFunctionClass_getFunction lhs rhs
  | arithmeticDivideFunctionClass, [lhs; rhs] => arithmeticDivideFunctionClass_getFunction lhs rhs
  | arithmeticIntDivideFunctionClass, [lhs; rhs] => arithmeticIntDivideFunctionClass_getFunction lhs rhs
  | arithmeticModFunctionClass, [lhs; rhs] => arithmeticModFunctionClass_getFunction lhs rhs
  | logicAndFunctionClass, [_; _] => logicAndFunctionClass_getFunction
  | logicOrFunctionClass, [_; _] => logicOrFunctionClass_getFunction
  | logicXorFunctionClass, [_; _] => logicXorFunctionClass_getFunction
  | bitAndFunctionClass, [_; _] => bitAndFunctionClass_getFunction
  | bitOrFunctionClass, [_; _] => bitOrFunctionClass_getFunction
  | bitXorFunctionClass, [_; _] => bitXorFunctionClass_getFunction
  | leftShiftFunctionClass, [_; _] => leftShiftFunctionClass_getFunction
  | rightShiftFunctionClass, [_; _] => rightShiftFunctionClass_getFunction
  | bitNegFunctionClass, [_] => bitNegFunctionClass_getFunction
  | isTrueOrFalseFunctionClass op keepNull, [tp] => isTrueOrFalseFunctionClass_getFunction op keepNull tp
  | unaryNotFunctionClass, [tp] => unaryNotFunctionClass_getFunction tp
  | unaryMinusFunctionClass v, [tp] => unaryMinusFunctionClass_getFunction tp v
  | isNullFunctionClass, [tp] => isNullFunctionClass_getFunction tp
  | compareFunctionClass op tp, [_; _] => generateCmpSigs op tp
  | ifFunctionClass retTp, [_; _; _] => ifFunctionClass_getFunction retTp
  | ifNullFunctionClass retTp, [_; _] => ifNullFunctionClass_getFunction retTp
  | caseWhenFunctionClass retTp, _ => caseWhenFunctionClass_getFunction retTp l
  | coalesceFunctionClass retTp, _ => coalesceFunctionClass_getFunction retTp l
  | greatestFunctionClass tp, _ => greatestFunctionClass_getFunction tp l
  | leastFunctionClass tp, _ => leastFunctionClass_getFunction tp l
  | intervalFunctionClass, _ => intervalFunctionClass_getFunction tps
  | _, _ => None
  end.
