(* ===== verification/IntArith.v ===== *)
(** * Integer arithmetic is exact

    The integer operators of src/tidb/expression/builtin_arithmetic.go work on 64 bits that
    the types of the arguments read as signed or as unsigned. The result is the exact one,
    read in the type of the result, or an overflow error when that type does not have it,
    except that zero minus the least number is the least number, and that a product with one
    unsigned factor reads the other as unsigned too. *)

From stdpp Require Import base list list_numbers strings.
From Stdlib Require Import ZArith Lia.
From S2P Require Import Prelude Encoding Timestamp Floats Decimal DecimalArith Rows PullExec Builtins Expressions.

(** The number that 64 bits stand for, and the numbers of a type. *)
Definition intval (unsigned : bool) (a : Z) : Z := if unsigned then u64 a else a.
Definition in_type (unsigned : bool) (z : Z) : bool := if unsigned then (0 <=? z) && (z <? two64) else (- two63 <=? z) && (z <? two63).

Lemma u64_of_i64 z : u64 (i64 z) = u64 z.
Proof. unfold u64, i64. Z.to_euclidean_division_equations. lia. Qed.

Lemma i64_of_u64 z : i64 (u64 z) = i64 z.
Proof. unfold u64, i64. Z.to_euclidean_division_equations. lia. Qed.

Lemma u64_signed a : i64_ok a → u64 a = if a <? 0 then a + two64 else a.
Proof.
  unfold i64_ok, u64. intros Ha. destruct (Z.ltb_spec a 0); [|apply Z.mod_small; lia].
  rewrite <- (Z.mod_add a 1) by done. apply Z.mod_small. lia.
Qed.

(** The bits of a number of the type stand for it. *)
Lemma intval_i64 unsigned z : in_type unsigned z = true → intval unsigned (i64 z) = z.
Proof.
  unfold in_type, intval. destruct unsigned; rewrite andb_true_iff, Z.leb_le, Z.ltb_lt; intros Hz.
  - rewrite u64_of_i64. apply u64_small. unfold u64_ok. lia.
  - apply i64_small. unfold i64_ok. lia.
Qed.

Lemma i64_cases z : - two64 ≤ z < two64 → i64 z = if z <? - two63 then z + two64 else if two63 <=? z then z - two64 else z.
Proof.
  intros Hz. unfold i64. destruct (Z.ltb_spec z (- two63)); [|destruct (Z.leb_spec two63 z)].
  - replace ((z + two63) mod two64) with (z + two63 + two64); [lia|]. symmetry. rewrite <- (Z.mod_add _ 1) by done. apply Z.mod_small. lia.
  - replace ((z + two63) mod two64) with (z + two63 - two64); [lia|]. symmetry. rewrite <- (Z.mod_add _ (-1)) by done. rewrite Z.mod_small; lia.
  - rewrite Z.mod_small; lia.
Qed.

Lemma u64_cases z : - two64 ≤ z < two64 → u64 z = if z <? 0 then z + two64 else z.
Proof.
  intros Hz. unfold u64. destruct (Z.ltb_spec z 0); [|apply Z.mod_small; lia]. rewrite <- (Z.mod_add z 1) by done. apply Z.mod_small. lia.
Qed.

(** The bits are determined by the number modulo 2^64. *)
Lemma i64_intval z u a : i64 (z + intval u a) = i64 (z + a) ∧ i64 (z - intval u a) = i64 (z - a).
Proof. unfold intval. destruct u; [|done]. unfold i64, u64. split; Z.to_euclidean_division_equations; lia. Qed.

Lemma i64_intvals lu ru a b : i64 (intval lu a + intval ru b) = i64 (a + b) ∧ i64 (intval lu a - intval ru b) = i64 (a - b).
Proof.
  destruct (i64_intval (intval lu a) ru b) as [-> ->]. unfold Z.sub. rewrite !(Z.add_comm _ b), !(Z.add_comm _ (- b)). split; apply i64_intval.
Qed.

Ltac bits a b Ha Hb :=
  unfold in_type, intval, u64_ok, i64_ok, MaxUint64, MaxInt64, MinInt64 in *;
  rewrite ?u64_of_i64, ?(u64_signed a Ha), ?(u64_signed b Hb).

Lemma u64_neg a : i64_ok a → a < 0 → u64 (i64 (- a)) = - a.
Proof. unfold i64_ok. intros Ha Hn. rewrite u64_of_i64. apply u64_small. unfold u64_ok. lia. Qed.

Lemma plusOverflows_ok lu ru a b : i64_ok a → i64_ok b →
  plusOverflows lu ru a b = negb (in_type (lu || ru) (intval lu a + intval ru b)).
Proof.
  intros Ha Hb. unfold plusOverflows. destruct lu, ru; cbn [orb]; bits a b Ha Hb.
  - repeat case_match; lia.
  - destruct (Z.ltb_spec b 0) as [Hn|Hn].
    + rewrite u64_small by (unfold u64_ok; lia). repeat case_match; lia.
    + repeat case_match; lia.
  - destruct (Z.ltb_spec a 0) as [Hn|Hn].
    + rewrite u64_small by (unfold u64_ok; lia). repeat case_match; lia.
    + repeat case_match; lia.
  - lia.
Qed.

Lemma overflowCheck_ok lu ru signed a b : i64_ok a → i64_ok b → (lu || ru = false → signed = true ∧ ¬ (a = 0 ∧ b = MinInt64)) →
  overflowCheck lu ru signed a b = negb (in_type (negb signed) (intval lu a - intval ru b)).
Proof.
  intros Ha Hb Hs. unfold overflowCheck, testIfSumOverflowsUll. destruct lu, ru; cbn [orb] in Hs.
  - bits a b Ha Hb. rewrite (i64_cases (a - b)), (u64_cases (a - b)) by lia. destruct signed; cbn [negb]; repeat case_match; lia.
  - bits a b Ha Hb. rewrite (i64_cases (a - b)), (u64_cases (a - b)) by lia. destruct (Z.leb_spec 0 b).
    + destruct signed; cbn [negb]; repeat case_match; lia.
    + rewrite (u64_small (- b)) by (unfold u64_ok; lia). destruct signed; cbn [negb]; repeat case_match; lia.
  - bits a b Ha Hb. rewrite (i64_cases (a - b)), (u64_cases (a - b)) by lia. rewrite (u64_small (a - - two63)) by (unfold u64_ok; lia).
    destruct signed; cbn [negb]; repeat case_match; lia.
  - destruct (Hs eq_refl) as [-> Hne]. bits a b Ha Hb. rewrite (i64_cases (a - b)), (u64_cases (a - b)) by lia. cbn [negb andb orb]. repeat case_match; lia.
Qed.

(** A product that wraps around is not a multiple by the same factor. *)
Lemma mulUnsigned_ok x y : u64_ok x → u64_ok y →
  negb (x =? 0) && negb (u64 (x * y) / x =? y) = negb (in_type true (x * y)).
Proof.
  unfold u64_ok, in_type. intros Hx Hy. destruct (Z.eqb_spec x 0) as [->|Hx0]; [by rewrite Z.mul_0_l|]. cbn [negb andb].
  rewrite (proj2 (Z.leb_le 0 (x * y))) by nia. cbn [andb]. destruct (Z.ltb_spec (x * y) two64) as [Hlt|Hge].
  - rewrite u64_small by (unfold u64_ok; nia). rewrite Z.mul_comm, Z.div_mul by done. by rewrite Z.eqb_refl.
  - destruct (Z.eqb_spec (u64 (x * y) / x) y) as [E|]; [|done]. exfalso.
    pose proof (Z.mul_div_le (u64 (x * y)) x ltac:(lia)) as Hle. rewrite E in Hle. pose proof (u64_range (x * y)). unfold u64_ok in *. lia.
Qed.

Lemma i64_congruent z : ∃ k, i64 z = z + k * two64.
Proof. unfold i64. exists (- ((z + two63) / two64)). pose proof (Z.div_mod (z + two63) two64 ltac:(done)). lia. Qed.

Lemma quot_i64 r a : i64_ok r → a ≠ 0 → a ≠ -1 → i64_ok (r ÷ a).
Proof.
  intros Hr Ha0 Ha1. unfold i64_ok in *. destruct (Z.eq_dec a 1) as [->|Ha1']; [by rewrite Z.quot_1_r|].
  assert (Z.abs (r ÷ a) < two63); [|lia]. rewrite <- Z.quot_abs by done. apply Z.quot_lt_upper_bound; lia.
Qed.

Lemma mulSigned_ok a b : i64_ok a → i64_ok b →
  (negb (a =? 0) && negb (i64 (i64 (a * b) ÷ a) =? b)) || ((i64 (a * b) =? MinInt64) && (a =? -1)) = negb (in_type false (a * b)).
Proof.
  intros Ha Hb. unfold in_type, MinInt64. destruct (Z.eqb_spec a 0) as [->|Ha0]; [by rewrite Z.mul_0_l|].
  destruct (Z.eqb_spec a (-1)) as [->|Ha1].
  - replace (-1 * b) with (- b) by lia. unfold i64_ok in *. rewrite (i64_cases (- b)) by lia. destruct (Z.eq_dec b (- two63)) as [->|Hb']; [done|].
    replace (if - b <? - two63 then _ else _) with (- b) by (repeat case_match; lia).
    replace (- b ÷ -1) with b by (change (-1) with (- (1)); rewrite Z.quot_opp_opp by done; by rewrite Z.quot_1_r). rewrite i64_small by done. rewrite Z.eqb_refl. lia.
  - rewrite (andb_false_r (_ =? _)), orb_false_r. cbn [negb andb]. destruct ((- two63 <=? a * b) && (a * b <? two63)) eqn:Er.
    + rewrite (i64_small (a * b)) by (unfold i64_ok; lia). rewrite Z.mul_comm, Z.quot_mul by done. rewrite i64_small by done. by rewrite Z.eqb_refl.
    + destruct (Z.eqb_spec (i64 (i64 (a * b) ÷ a)) b) as [E|]; [|done]. exfalso. destruct (i64_congruent (a * b)) as [k Hk].
      pose proof (i64_range (a * b)) as Hr. set (r := i64 (a * b)) in *. pose proof (Z.quot_rem' r a) as Hq. pose proof (Z.rem_bound_abs r a Ha0) as Hrem.
      pose proof (quot_i64 r a Hr Ha0 Ha1).
      rewrite i64_small in E by done. rewrite E in Hq. unfold i64_ok in *. assert (k = 0) by lia. subst k. lia.
Qed.

Lemma quot_opp_div a b : 0 ≤ a → 0 < b → - a ÷ b = - (a / b).
Proof. intros Ha Hb. rewrite Z.quot_opp_l, Z.quot_div_nonneg by lia. done. Qed.

(** The quotient, with the sign of either operand. *)
Definition divide (lu ru : bool) (a b : Z) : outcome Z :=
  match lu, ru with
  | true, true => Ok (i64 (u64 a / u64 b))
  | true, false => val ← DivUintWithInt (u64 a) b; Ok (i64 val)
  | false, true => val ← DivIntWithUint a (u64 b); Ok (i64 val)
  | false, false => DivInt64 a b
  end.

Lemma in_type_true unsigned z : in_type unsigned z = true ↔ if unsigned then 0 ≤ z < two64 else - two63 ≤ z < two63.
Proof. unfold in_type. destruct unsigned; rewrite andb_true_iff, Z.leb_le, Z.ltb_lt; done. Qed.

Lemma divide_ok lu ru a b (q := intval lu a ÷ intval ru b) : i64_ok a → i64_ok b → b ≠ 0 →
  if in_type (lu || ru) q then divide lu ru a b = Ok (i64 q) else ∃ m, divide lu ru a b = Err m.
Proof.
  intros Ha Hb Hb0. assert (Hu : u64 b ≠ 0). { rewrite u64_signed by done. unfold i64_ok in Hb. case_match; lia. }
  pose proof (u64_range a) as Hua. pose proof (u64_range b) as Hub. unfold u64_ok in *. unfold divide, DivUintWithInt, DivIntWithUint, DivInt64, MinInt64, q, intval, i64_ok in *.
  destruct lu, ru; cbn [orb].
  - rewrite Z.quot_div_nonneg by lia. rewrite (proj2 (in_type_true true _)); [done|]. split; [apply Z.div_pos; lia|]. apply Z.div_lt_upper_bound; nia.
  - destruct (Z.ltb_spec b 0) as [Hn|Hn].
    + rewrite u64_neg by (unfold i64_ok; lia).
      assert (Hq : u64 a ÷ b = - (u64 a / - b)) by (rewrite <- (Z.opp_involutive b) at 1; rewrite Z.quot_opp_r, Z.quot_div_nonneg by lia; done). rewrite Hq.
      destruct (Z.leb_spec (- b) (u64 a)) as [Hle|Hgt].
      * assert (1 ≤ u64 a / - b) by (apply Z.div_le_lower_bound; lia). rewrite (proj2 (Z.eqb_neq (u64 a) 0)) by lia.
        unfold in_type. rewrite (proj2 (Z.leb_gt _ _)) by lia. cbn. by eexists.
      * rewrite Z.div_small by lia. rewrite andb_false_r. done.
    + rewrite (u64_small b) by (unfold u64_ok; lia). rewrite Z.quot_div_nonneg by lia. rewrite (proj2 (in_type_true true _)); [done|]. split; [apply Z.div_pos; lia|]. apply Z.div_lt_upper_bound; nia.
  - destruct (Z.ltb_spec a 0) as [Hn|Hn].
    + rewrite u64_neg by (unfold i64_ok; lia).
      assert (Hq : a ÷ u64 b = - (- a / u64 b)) by (rewrite <- (Z.opp_involutive a) at 1; apply quot_opp_div; lia). rewrite Hq. destruct (Z.leb_spec (u64 b) (- a)) as [Hle|Hgt].
      * assert (1 ≤ - a / u64 b) by (apply Z.div_le_lower_bound; lia). unfold in_type. rewrite (proj2 (Z.leb_gt _ _)) by lia. cbn. by eexists.
      * rewrite Z.div_small by lia. done.
    + rewrite (u64_small a) by (unfold u64_ok; lia). rewrite Z.quot_div_nonneg by lia. rewrite (proj2 (in_type_true true _)); [done|]. split; [apply Z.div_pos; lia|]. apply Z.div_lt_upper_bound; nia.
  - destruct (Z.eqb_spec b (-1)) as [->|Hb1].
    + replace (a ÷ -1) with (- a) by (change (-1) with (- (1)); rewrite Z.quot_opp_r by done; by rewrite Z.quot_1_r).
      destruct (Z.eqb_spec a (- two63)) as [->|]; [by eexists|]. rewrite (proj2 (in_type_true false _)) by lia. done.
    + rewrite andb_false_r. pose proof (quot_i64 a b). unfold i64_ok in *. rewrite (proj2 (in_type_true false _)) by auto. done.
Qed.

(** The remainder has the sign of the dividend. *)
Definition remainder (lu ru : bool) (a b : Z) : Z :=
  match lu, ru with
  | true, true => i64 (u64 a mod u64 b)
  | true, false => if b <? 0 then i64 (u64 a mod u64 (i64 (- b))) else i64 (u64 a mod u64 b)
  | false, true => if a <? 0 then i64 (- i64 (u64 (i64 (- a)) mod u64 b)) else i64 (u64 a mod u64 b)
  | false, false => Z.rem a b
  end.

Lemma i64_opp_i64 z : i64 (- i64 z) = i64 (- z).
Proof. unfold i64. Z.to_euclidean_division_equations. lia. Qed.

Lemma remainder_ok lu ru a b (r := Z.rem (intval lu a) (intval ru b)) : i64_ok a → i64_ok b → b ≠ 0 →
  in_type lu r = true ∧ remainder lu ru a b = i64 r.
Proof.
  intros Ha Hb Hb0. assert (Hu : u64 b ≠ 0). { rewrite u64_signed by done. unfold i64_ok in Hb. case_match; lia. }
  pose proof (u64_range a) as Hua. pose proof (u64_range b) as Hub. unfold u64_ok, remainder, r, intval in *. rewrite in_type_true.
  destruct lu, ru.
  - rewrite Z.rem_mod_nonneg by lia. pose proof (Z.mod_pos_bound (u64 a) (u64 b)). split; [lia|done].
  - destruct (Z.ltb_spec b 0) as [Hn|Hn].
    + rewrite u64_neg by done.
      assert (Hr : Z.rem (u64 a) b = u64 a mod - b) by (rewrite <- (Z.opp_involutive b) at 1; rewrite Z.rem_opp_r, Z.rem_mod_nonneg by lia; done). rewrite Hr.
      pose proof (Z.mod_pos_bound (u64 a) (- b)). unfold i64_ok in Hb. split; [lia|done].
    + unfold i64_ok in Hb. rewrite (u64_small b) by (unfold u64_ok; lia). rewrite Z.rem_mod_nonneg by lia. pose proof (Z.mod_pos_bound (u64 a) b). split; [lia|done].
  - destruct (Z.ltb_spec a 0) as [Hn|Hn].
    + rewrite u64_neg by done. rewrite i64_opp_i64.
      assert (Hr : Z.rem a (u64 b) = - (- a mod u64 b)) by (rewrite <- (Z.opp_involutive a) at 1; rewrite Z.rem_opp_l, Z.rem_mod_nonneg by lia; done). rewrite Hr.
      pose proof (Z.mod_pos_bound (- a) (u64 b)). pose proof (Z.mod_le (- a) (u64 b)). unfold i64_ok in Ha. split; [lia|done].
    + unfold i64_ok in Ha. rewrite (u64_small a) by (unfold u64_ok; lia). rewrite Z.rem_mod_nonneg by lia. pose proof (Z.mod_pos_bound a (u64 b)). pose proof (Z.mod_le a (u64 b)). split; [lia|done].
  - pose proof (Z.rem_bound_abs a b Hb0). pose proof (Z.rem_le (Z.abs a) (Z.abs b)). unfold i64_ok in *.
    assert (- two63 ≤ Z.rem a b < two63) by lia. split; [done|]. by rewrite i64_small.
Qed.

(** ** The operators *)

Inductive IntOp := OpPlus | OpMinus (noUnsignedSubtraction : bool) | OpMultiply | OpIntDivide | OpMod.

(** The signature that the class of the operator chooses. *)
Definition int_function (op : IntOp) : FieldType → FieldType → option Built :=
  match op with
  | OpPlus => arithmeticPlusFunctionClass_getFunction
  | OpMinus no => arithmeticMinusFunctionClass_getFunction no
  | OpMultiply => arithmeticMultiplyFunctionClass_getFunction
  | OpIntDivide => arithmeticIntDivideFunctionClass_getFunction
  | OpMod => arithmeticModFunctionClass_getFunction
  end.

(** The exact result; there is none for a division by zero. *)
Definition exact (op : IntOp) (x y : Z) : option Z :=
  match op with
  | OpPlus => Some (x + y)
  | OpMinus _ => Some (x - y)
  | OpMultiply => Some (x * y)
  | OpIntDivide => if y =? 0 then None else Some (x ÷ y)
  | OpMod => if y =? 0 then None else Some (Z.rem x y)
  end.

(** How an operand, signed or unsigned as [u] says, is read: a product with an unsigned
    factor reads both factors as unsigned. *)
Definition operand (op : IntOp) (lu ru u : bool) (a : Z) : Z :=
  match op with OpMultiply => intval (lu || ru) a | _ => intval u a end.

(** The difference that the overflow check lets through. *)
Definition least_from_zero (op : IntOp) (lu ru : bool) (a b : Z) : bool :=
  match op with OpMinus _ => negb (lu || ru) && (a =? 0) && (b =? MinInt64) | _ => false end.

(** What a result is when the exact one is [z]. *)
Definition exact_or_overflow (unsigned : bool) (z : Z) (res : outcome (option Z)) : Prop :=
  if in_type unsigned z then ∃ r, res = Ok (Some r) ∧ i64_ok r ∧ intval unsigned r = z else ∃ m, res = Err m.

Lemma exact_i64 unsigned z res : (if in_type unsigned z then res = Ok (Some (i64 z)) else ∃ m, res = Err m) → exact_or_overflow unsigned z res.
Proof.
  unfold exact_or_overflow. destruct (in_type unsigned z) eqn:E; [|done]. intros ->. exists (i64 z). split_and!; [done|apply i64_range|by apply intval_i64].
Qed.

Section operands.
Context (lhs rhs : FieldType) (e0 e1 : Evals) (a b : Z).
Context (Hlhs : ft_EvalType lhs = ETInt) (Hrhs : ft_EvalType rhs = ETInt) (H0 : evInt e0 = Ok (Some a)) (H1 : evInt e1 = Ok (Some b)).
Context (Ha : i64_ok a) (Hb : i64_ok b).
Abbreviation lu := (ft_Unsigned lhs).
Abbreviation ru := (ft_Unsigned rhs).
Abbreviation args := [MkArg lhs e0; MkArg rhs e1].

Lemma int_args : argInt args 0 = Ok (Some a) ∧ argInt args 1 = Ok (Some b) ∧ argUnsigned args 0 = Ok lu ∧ argUnsigned args 1 = Ok ru.
Proof using H0 H1. unfold argInt, argUnsigned, index. simpl. rewrite H0, H1. done. Qed.

Lemma arithType_int : arithType lhs rhs = ETInt.
Proof using Hlhs Hrhs. unfold arithType, numericContextResultType. rewrite Hlhs, Hrhs. by destruct (ft_BinaryStr lhs), (ft_BinaryStr rhs). Qed.

Lemma plus_exact : exact_or_overflow (lu || ru) (intval lu a + intval ru b) (builtinArithmeticPlusIntSig_evalInt args).
Proof using H0 H1 Ha Hb.
  destruct int_args as (E0 & E1 & Eu0 & Eu1). apply exact_i64. unfold builtinArithmeticPlusIntSig_evalInt, nbind. rewrite E0. osimpl. rewrite E1. osimpl. rewrite Eu0. osimpl. rewrite Eu1. osimpl.
  rewrite plusOverflows_ok by done. destruct (in_type _ _); cbn [negb].
  - by rewrite (proj1 (i64_intvals _ _ a b)).
  - destruct (lu || ru); by eexists.
Qed.

Lemma minus_exact no : least_from_zero (OpMinus no) lu ru a b = false →
  exact_or_overflow ((lu || ru) && negb no) (intval lu a - intval ru b) (builtinArithmeticMinusIntSig_evalInt no args).
Proof using H0 H1 Ha Hb.
  intros Hok. destruct int_args as (E0 & E1 & Eu0 & Eu1). apply exact_i64. unfold builtinArithmeticMinusIntSig_evalInt, nbind. rewrite E0. osimpl. rewrite E1. osimpl. rewrite Eu0. osimpl. rewrite Eu1. osimpl.
  set (signed := no || (negb lu && negb ru)). assert (Hs : negb signed = (lu || ru) && negb no) by (unfold signed; by destruct no, lu, ru).
  rewrite overflowCheck_ok; [|done..|].
  2:{ intros Hu. unfold least_from_zero in Hok. rewrite Hu in Hok. split; [unfold signed; by destruct no, lu, ru|]. intros [-> ->]. done. }
  rewrite Hs. destruct (in_type _ _); cbn [negb].
  - by rewrite (proj2 (i64_intvals _ _ a b)).
  - destruct signed; by eexists.
Qed.

Lemma minus_least no : least_from_zero (OpMinus no) lu ru a b = true → builtinArithmeticMinusIntSig_evalInt no args = Ok (Some MinInt64).
Proof using H0 H1.
  unfold least_from_zero. rewrite !andb_true_iff, negb_true_iff, orb_false_iff, !Z.eqb_eq. intros [[[El Er] Ea] Eb].
  destruct int_args as (E0 & E1 & Eu0 & Eu1). unfold builtinArithmeticMinusIntSig_evalInt, nbind. rewrite E0. osimpl. rewrite E1. osimpl. rewrite Eu0. osimpl. rewrite Eu1. osimpl.
  rewrite El, Er, Ea, Eb. by destruct no.
Qed.

Lemma multiply_exact : exact_or_overflow (lu || ru) (intval (lu || ru) a * intval (lu || ru) b)
    (if lu || ru then builtinArithmeticMultiplyIntUnsignedSig_evalInt args else builtinArithmeticMultiplyIntSig_evalInt args).
Proof using H0 H1 Ha Hb.
  destruct int_args as (E0 & E1 & _). apply exact_i64.
  unfold builtinArithmeticMultiplyIntUnsignedSig_evalInt, builtinArithmeticMultiplyIntSig_evalInt, nbind. rewrite E0. osimpl. rewrite E1. osimpl.
  destruct (lu || ru); unfold intval.
  - rewrite mulUnsigned_ok by apply u64_range. destruct (in_type _ _); cbn [negb]; [by rewrite i64_of_u64|by eexists].
  - rewrite mulSigned_ok by done. destruct (in_type _ _); cbn [negb]; [done|by eexists].
Qed.

Lemma intdiv_exact : if intval ru b =? 0 then builtinArithmeticIntDivideIntSig_evalInt args = Ok None
  else exact_or_overflow (lu || ru) (intval lu a ÷ intval ru b) (builtinArithmeticIntDivideIntSig_evalInt args).
Proof using H0 H1 Ha Hb.
  destruct int_args as (E0 & E1 & Eu0 & Eu1). unfold builtinArithmeticIntDivideIntSig_evalInt, nbind. rewrite E1. osimpl. rewrite E0. osimpl. rewrite Eu0. osimpl. rewrite Eu1. osimpl.
  assert (Hz : (intval ru b =? 0) = (b =? 0)). { unfold intval. destruct ru; [|done]. rewrite u64_signed by done. unfold i64_ok in Hb. case_match; lia. }
  rewrite Hz. destruct (Z.eqb_spec b 0) as [->|Hb0]; [done|]. apply exact_i64. fold (divide lu ru a b).
  pose proof (divide_ok lu ru a b Ha Hb Hb0) as Hd. cbv zeta in Hd. destruct (in_type _ _); [by rewrite Hd|]. destruct Hd as [m ->]. by exists m.
Qed.

Lemma mod_exact f : arithmeticModFunctionClass_getFunction lhs rhs = Some f →
  if intval ru b =? 0 then evInt (sig_evals (b_sig f) args) = Ok None
  else exact_or_overflow lu (Z.rem (intval lu a) (intval ru b)) (evInt (sig_evals (b_sig f) args)).
Proof using All.
  destruct int_args as (E0 & E1 & _). unfold arithmeticModFunctionClass_getFunction. rewrite arithType_int. intros [= <-]. cbn [b_sig].
  assert (Hz : (intval ru b =? 0) = (b =? 0)). { unfold intval. destruct ru; [|done]. rewrite u64_signed by done. unfold i64_ok in Hb. case_match; lia. }
  assert (Hm : ∀ rem, modInt args rem = if b =? 0 then Ok None else Ok (Some (rem a b))).
  { intros rem. unfold modInt, nbind. rewrite E1. osimpl. destruct (b =? 0); [done|]. rewrite E0. by osimpl. }
  rewrite Hz. pose proof (remainder_ok lu ru a b Ha Hb) as Hr. unfold remainder in Hr.
  destruct lu eqn:El, ru eqn:Er; cbn [sig_evals onlyInt evInt];
    unfold builtinArithmeticModIntUnsignedUnsignedSig_evalInt, builtinArithmeticModIntUnsignedSignedSig_evalInt, builtinArithmeticModIntSignedUnsignedSig_evalInt, builtinArithmeticModIntSignedSignedSig_evalInt;
    rewrite Hm; (destruct (Z.eqb_spec b 0) as [|Hb0]; [done|]); apply exact_i64; destruct (Hr Hb0) as [-> ->]; done.
Qed.
End operands.

(** What the value of an operator is, from the values of its operands. *)
Definition int_result (op : IntOp) (unsigned lu ru : bool) (oa ob : option Z) (res : outcome (option Z)) : Prop :=
  match oa, ob with
  | Some a, Some b =>
      if least_from_zero op lu ru a b then res = Ok (Some MinInt64)
      else
        match exact op (operand op lu ru lu a) (operand op lu ru ru b) with
        | Some z => exact_or_overflow unsigned z res
        | None => res = Ok None
        end
  | _, _ => res = Ok None
  end.

(** The signature on integers, and whether its result is unsigned. *)
Definition int_sig (op : IntOp) (lu ru : bool) : Sig :=
  match op with
  | OpPlus => builtinArithmeticPlusIntSig
  | OpMinus no => builtinArithmeticMinusIntSig no
  | OpMultiply => if lu || ru then builtinArithmeticMultiplyIntUnsignedSig else builtinArithmeticMultiplyIntSig
  | OpIntDivide => builtinArithmeticIntDivideIntSig
  | OpMod =>
      match lu, ru with
      | true, true => builtinArithmeticModIntUnsignedUnsignedSig
      | true, false => builtinArithmeticModIntUnsignedSignedSig
      | false, true => builtinArithmeticModIntSignedUnsignedSig
      | false, false => builtinArithmeticModIntSignedSignedSig
      end
  end.

Definition int_unsigned (op : IntOp) (lu ru : bool) : bool :=
  match op with
  | OpMinus no => (lu || ru) && negb no
  | OpMod => lu
  | _ => lu || ru
  end.

Lemma int_function_sig op lhs rhs : ft_EvalType lhs = ETInt → ft_EvalType rhs = ETInt →
  int_function op lhs rhs = built2 (int_sig op (ft_Unsigned lhs) (ft_Unsigned rhs)) ETInt ETInt (int_unsigned op (ft_Unsigned lhs) (ft_Unsigned rhs)).
Proof.
  intros Hl Hr. assert (E : arithType lhs rhs = ETInt) by by apply arithType_int.
  destruct op; cbn [int_function int_sig int_unsigned];
    unfold arithmeticPlusFunctionClass_getFunction, arithmeticMinusFunctionClass_getFunction, arithmeticMultiplyFunctionClass_getFunction, arithmeticIntDivideFunctionClass_getFunction, arithmeticModFunctionClass_getFunction;
    rewrite E; try done. by destruct (_ || _).
Qed.

Lemma int_sig_null op lu ru args oa ob : argInt args 0 = Ok oa → argInt args 1 = Ok ob → oa = None ∨ ob = None →
  evInt (sig_evals (int_sig op lu ru) args) = Ok None.
Proof.
  intros E0 E1 Hnull.
  destruct op, lu, ru; cbn [int_sig orb sig_evals onlyInt evInt];
    unfold builtinArithmeticPlusIntSig_evalInt, builtinArithmeticMinusIntSig_evalInt, builtinArithmeticMultiplyIntUnsignedSig_evalInt, builtinArithmeticMultiplyIntSig_evalInt, builtinArithmeticIntDivideIntSig_evalInt,
      builtinArithmeticModIntUnsignedUnsignedSig_evalInt, builtinArithmeticModIntUnsignedSignedSig_evalInt, builtinArithmeticModIntSignedUnsignedSig_evalInt, builtinArithmeticModIntSignedSignedSig_evalInt, modInt, nbind;
    rewrite ?E0, ?E1; osimpl; destruct oa, ob, Hnull; try done; osimpl; rewrite ?E0, ?E1; by repeat case_match.
Qed.


Definition bigint (unsigned : bool) : FieldType := MkFieldType ETInt unsigned false 0 false.
Definition int_const (z : Z) : Evals := onlyInt (Ok (Some z)).


(** The exceptions: zero minus the least number is the least number, and minus one times the
    unsigned one is the largest unsigned number. *)
Example zero_minus_least :
  evInt (sig_evals (builtinArithmeticMinusIntSig false) [MkArg (bigint false) (int_const 0); MkArg (bigint false) (int_const MinInt64)]) = Ok (Some MinInt64).
Proof. reflexivity. Qed.

Example minus_one_times_unsigned_one :
  builtinArithmeticMultiplyIntUnsignedSig_evalInt [MkArg (bigint false) (int_const (-1)); MkArg (bigint true) (int_const 1)] = Ok (Some (-1)) ∧
  intval true (-1) = MaxUint64.
Proof. split; reflexivity. Qed.
