(* ===== verification/ExprTyping.v ===== *)
(** * Types of expressions

    An expression is typed against the types of the columns of its rows: columns and
    constants have the values their types say, and every function has arguments of the kinds
    its signature asks for. The evaluation of a typed expression, by the method of its type,
    gives null, a value of the type, or an error that says that the result is out of range;
    it never reaches a method that must not be called, an argument that is not there, or a value read as one of
    another type. *)

From stdpp Require Import base list list_numbers strings.
From Stdlib Require Import ZArith Lia SpecFloat.
From S2P Require Import Prelude Encoding Timestamp Floats Decimal DecimalArith DecimalTotal Rows PullExec Builtins Expressions IntArith.
Import expression.

(** ** Values of a type *)

Definition finite (x : spec_float) : Prop := match x with S754_zero _ | S754_finite _ _ _ => True | _ => False end.

(** A decimal that stands for zero has no digits, so that its negation is not minus zero. *)
Definition plain_decimal (d : MyDecimal) : Prop := dec_ok d ∧ (magnitude d = 0 → IsZero d = true).

(** The errors of integers and doubles, and those of decimals. *)
Definition out_of_range (m : string) : bool :=
  bool_decide (m ∈ map (λ t, t +:+ " value is out of range")%string ["BIGINT"; "BIGINT UNSIGNED"; "DOUBLE"] ++ [ErrOverflow; ErrTruncated]).

(** Null, a value, or an error that says that the result is out of range. *)
Definition good {A} (P : A → Prop) (r : outcome (option A)) : Prop :=
  match r with
  | Ok None => True
  | Ok (Some v) => P v
  | Err m => out_of_range m = true
  | _ => False
  end.

(** The evaluation by the method of a kind. *)
Definition sound (k : Kind) (e : Evals) : Prop :=
  match k with
  | KInt => good i64_ok (evInt e)
  | KReal => good finite (evReal e)
  | KDecimal => good plain_decimal (evDecimal e)
  | KString => good (λ _, True) (evString e)
  | KTime => good (λ _, True) (evTime e)
  end.

(** ** Typing *)

Definition value_kind (v : value) : Kind :=
  match v with VInt _ => KInt | VFloat _ => KReal | VDecimal _ => KDecimal | VString _ => KString | VTimestamp _ => KTime end.

Definition value_sound (v : value) : Prop :=
  match v with
  | VInt z => i64_ok z
  | VFloat f => finite (float_decode f)
  | VDecimal d => plain_decimal d
  | VString _ | VTimestamp _ => True
  end.

Definition cell_sound (k : Kind) (c : option value) : Prop :=
  match c with Some v => value_kind v = k ∧ value_sound v | None => True end.

(** A row of a table with the given columns. *)
Definition row_typed (schema : list Kind) (row : Row) : Prop := Forall2 cell_sound schema row.

(** The kind of an expression, from the type that the planner has given it. *)
Definition expr_kind (e : Expression) : option Kind := kind_of (ft_EvalType (GetType e)).

Fixpoint typed (schema : list Kind) (e : Expression) : Prop :=
  match e with
  | Column tp i => ∃ k, schema !! i = Some k ∧ kind_of (ft_EvalType tp) = Some k
  | Constant tp None => ∃ k, kind_of (ft_EvalType tp) = Some k
  | Constant tp (Some v) => value_sound v ∧ kind_of (ft_EvalType tp) = Some (value_kind v)
  | ScalarFunction tp f args =>
      kind_of (ft_EvalType tp) = Some (sig_kind f) ∧
      (∃ ks, map expr_kind args = map Some ks ∧ sig_takes f ks = true) ∧
      foldr (λ a P, typed schema a ∧ P) True args
  end.

Lemma typed_args schema args : foldr (λ a P, typed schema a ∧ P) True args ↔ Forall (typed schema) args.
Proof. induction args as [|a args IH]; simpl; [done|]. by rewrite Forall_cons, IH. Qed.

(** ** Combinators *)

Definition ogood {A} (P : A → Prop) (o : option A) : Prop := match o with Some v => P v | None => True end.

Lemma good_bind {A B} (P : A → Prop) (Q : B → Prop) m (k : option A → outcome (option B)) :
  good P m → (∀ o, ogood P o → good Q (k o)) → good Q (o ← m; k o).
Proof. intros Hm Hk. destruct m as [[v|]|?|?|]; try done; by apply Hk. Qed.

Lemma good_nbind {A B} (P : A → Prop) (Q : B → Prop) m (k : A → outcome (option B)) :
  good P m → (∀ x, P x → good Q (k x)) → good Q (nbind m k).
Proof. intros Hm Hk. apply (good_bind P); [done|]. intros [v|] Hv; [by apply Hk|done]. Qed.

Lemma good_int z : i64_ok z → good i64_ok (Ok (Some z)).
Proof. done. Qed.

Lemma good_bool b : i64_ok (int_of_bool b).
Proof. by destruct b. Qed.

(** ** Doubles *)

Lemma IsFinite_finite x : IsFinite x = true → finite x.
Proof. unfold IsFinite. by destruct x as [|[]| |]. Qed.

Lemma shr_1_nonneg mrs : 0 ≤ shr_m mrs → 0 ≤ shr_m (shr_1 mrs).
Proof. destruct mrs as [[|[]|] r s]; simpl; lia. Qed.

Lemma iter_pos_ind {A} (P : A → Prop) f : (∀ x, P x → P (f x)) → ∀ n x, P x → P (iter_pos f n x).
Proof. intros Hf. induction n; intros x Hx; simpl; auto. Qed.

Lemma shr_fexp_nonneg prec emax m e l : 0 ≤ m → 0 ≤ shr_m (fst (shr_fexp prec emax m e l)).
Proof.
  intros Hm. unfold shr_fexp, shr. assert (H0 : 0 ≤ shr_m (shr_record_of_loc m l)) by by destruct l as [|[]].
  destruct (_ - _); simpl; [done| |done]. apply (iter_pos_ind (λ r, 0 ≤ shr_m r)); [apply shr_1_nonneg|done].
Qed.

Lemma round_aux_number prec emax s m e l : 0 ≤ m → binary_round_aux prec emax s m e l ≠ S754_nan.
Proof.
  intros Hm. unfold binary_round_aux. pose proof (shr_fexp_nonneg prec emax m e l Hm) as H1. destruct (shr_fexp prec emax m e l) as [r1 e1].
  set (m2 := round_nearest_even _ _). assert (H2 : 0 ≤ m2). { unfold m2, round_nearest_even. simpl in H1. repeat case_match; lia. }
  pose proof (shr_fexp_nonneg prec emax m2 e1 loc_Exact H2) as H3. destruct (shr_fexp prec emax m2 e1 loc_Exact) as [r2 e2]. simpl in H3.
  destruct (shr_m r2); [done|by case_match|lia].
Qed.

Lemma number_finite x : x ≠ S754_nan → IsInf x = false → finite x.
Proof. by destruct x. Qed.

Lemma mul_finite x y : finite x → finite y → IsInf (sf_mul x y) = false → finite (sf_mul x y).
Proof.
  intros Hx Hy. apply number_finite. unfold sf_mul. destruct x as [| | |sx mx ex], y as [| | |sy my ey]; try done. cbn [SFmul]. apply round_aux_number. lia.
Qed.

Lemma div_finite x y : finite x → finite y → sf_isZero y = false → IsInf (sf_div x y) = false → finite (sf_div x y).
Proof.
  intros Hx Hy Hz. apply number_finite. unfold sf_div. destruct x as [| | |sx mx ex], y as [| | |sy my ey]; try done. cbn [SFdiv].
  unfold SFdiv_core_binary. cbv zeta. set (m' := match _ with Z0 => _ | _ => _ end). assert (Hm : 0 ≤ m').
  { unfold m'. destruct (_ - _ - _); [lia|apply Z.shiftl_nonneg; lia|lia]. }
  pose proof (Z.div_pos m' (Zpos my) Hm ltac:(lia)) as Hq. unfold Z.div in Hq. destruct (Z.div_eucl m' (Zpos my)) as [q r]. by apply round_aux_number.
Qed.

Lemma neg_finite x : finite x → finite (float_neg x).
Proof. by destruct x. Qed.

(** ** Integers and decimals *)

Lemma i64_shiftr z : i64_ok z ↔ z ≫ 63 = 0 ∨ z ≫ 63 = -1.
Proof.
  unfold i64_ok. rewrite Z.shiftr_div_pow2 by done. pose proof (Z.div_mod z (2 ^ 63) ltac:(done)) as E. pose proof (Z.mod_pos_bound z (2 ^ 63) ltac:(done)).
  change (2 ^ 63) with two63 in *. split; [intros Hz|intros [H'|H']; rewrite H' in E; lia].
  assert (-1 ≤ z / two63 < 1) by (split; [apply Z.div_le_lower_bound; lia|apply Z.div_lt_upper_bound; lia]). lia.
Qed.

Lemma land_i64 a b : i64_ok a → i64_ok b → i64_ok (Z.land a b).
Proof. rewrite !i64_shiftr, Z.shiftr_land. by intros [-> | ->] [-> | ->]; auto. Qed.

Lemma lor_i64 a b : i64_ok a → i64_ok b → i64_ok (Z.lor a b).
Proof. rewrite !i64_shiftr, Z.shiftr_lor. by intros [-> | ->] [-> | ->]; auto. Qed.

Lemma lxor_i64 a b : i64_ok a → i64_ok b → i64_ok (Z.lxor a b).
Proof. rewrite !i64_shiftr, Z.shiftr_lxor. by intros [-> | ->] [-> | ->]; auto. Qed.

Lemma lnot_i64 a : i64_ok a → i64_ok (Z.lnot a).
Proof. unfold i64_ok, Z.lnot. lia. Qed.

Lemma rem_i64 a b : i64_ok a → i64_ok b → b ≠ 0 → i64_ok (Z.rem a b).
Proof. intros Ha Hb Hb0. pose proof (remainder_ok false false a b Ha Hb Hb0) as [H _]. apply in_type_true in H. done. Qed.

(** The sign has no part in the magnitude. *)
Lemma DecimalNeg_magnitude d : magnitude (DecimalNeg d) = magnitude d.
Proof. unfold DecimalNeg. destruct (IsZero d); [done|]. unfold magnitude. by replace (digit (MkDecimal _ _ _ _ _)) with (digit d) by reflexivity. Qed.

Lemma DecimalNeg_plain d : plain_decimal d → plain_decimal (DecimalNeg d).
Proof.
  intros [[H1 H2 H3 H4 H5 H6 H7] Hz]. pose proof (DecimalNeg_magnitude d) as Em. revert Em. unfold DecimalNeg. destruct (IsZero d) eqn:E; intros Em.
  - split; [by constructor|]. intros _. exact E.
  - split; [|intros Hm; rewrite Em in Hm; specialize (Hz Hm); congruence].
    constructor; cbn [wordBuf digitsInt digitsFrac negative resultFrac]; [done|done|done|done|exact H5| |done]. intros _. rewrite Em. intros Hm. specialize (Hz Hm). congruence.
Qed.

Lemma clean_plain d : clean d → plain_decimal d.
Proof.
  intros [Hd Hrest]. split; [done|]. intros Hm. unfold IsZero. apply forallb_forall. intros w (i & Hi)%list_elem_of_In%list_elem_of_lookup.
  apply Z.eqb_eq. assert (Hw : wd (wordBuf d) (Z.of_nat i) = w) by (unfold wd; by rewrite Nat2Z.id, Hi). rewrite <- Hw.
  destruct (dec_words d Hd) as (? & ? & ?). destruct (Z.le_gt_cases (wordsInt d + wordsFrac d) (Z.of_nat i)); [by apply Hrest|].
  pose proof (zero_digits d Hd Hm (wordsInt d - 1 - Z.of_nat i)) as Hz. rewrite digit_in in Hz by lia.
  by replace (wordsInt d - 1 - (wordsInt d - 1 - Z.of_nat i)) with (Z.of_nat i) in Hz by lia.
Qed.

(** A sum or difference of decimals. *)
Lemma decimal_sum_good r v : exact_or_error r v → good plain_decimal (c ← or_error r; Ok (Some c)).
Proof. intros (d & err & -> & [(-> & Hd & _)|[-> | ->]]); [by apply clean_plain|done..]. Qed.

Lemma decimal_Compare_total x y : plain_decimal x → plain_decimal y → ∃ r, decimal_Compare x y = Ok r.
Proof. intros [Hx _] [Hy _]. pose proof (CompareTo_ok x y Hx Hy) as E. unfold CompareTo in E. by eexists. Qed.

(** ** Families of functions *)

Abbreviation args_sound := (Forall2 (λ k a, sound k (arg_evals a))).

Lemma good_unsigned {B} (Q : B → Prop) args i (k : bool → outcome (option B)) a :
  args !! i = Some a → good Q (k (ft_Unsigned (arg_tp a))) → good Q (u ← argUnsigned args i; k u).
Proof. intros Hi Hk. unfold argUnsigned. rewrite (index_ok _ _ _ Hi). done. Qed.

Lemma args1_inv k ks args : args1 k ks = true → args_sound ks args → ∃ a, args = [a] ∧ sound k (arg_evals a).
Proof. unfold args1. intros ->%bool_decide_eq_true (a & ? & Ha & ->%Forall2_nil_inv_l & ->)%Forall2_cons_inv_l. eauto. Qed.

Lemma args2_inv k1 k2 ks args : args2 k1 k2 ks = true → args_sound ks args →
  ∃ a b, args = [a; b] ∧ sound k1 (arg_evals a) ∧ sound k2 (arg_evals b).
Proof.
  unfold args2. intros ->%bool_decide_eq_true (a & ? & Ha & (b & ? & Hb & ->%Forall2_nil_inv_l & ->)%Forall2_cons_inv_l & ->)%Forall2_cons_inv_l. eauto.
Qed.

Lemma args3_inv k1 k2 k3 ks args : args3 k1 k2 k3 ks = true → args_sound ks args →
  ∃ a b c, args = [a; b; c] ∧ sound k1 (arg_evals a) ∧ sound k2 (arg_evals b) ∧ sound k3 (arg_evals c).
Proof.
  unfold args3. intros ->%bool_decide_eq_true
    (a & ? & Ha & (b & ? & Hb & (c & ? & Hc & ->%Forall2_nil_inv_l & ->)%Forall2_cons_inv_l & ->)%Forall2_cons_inv_l & ->)%Forall2_cons_inv_l. eauto 10.
Qed.

Lemma argsAll_inv k ks args : argsAll k ks = true → args_sound ks args → Forall (λ a, sound k (arg_evals a)) args.
Proof.
  unfold argsAll. rewrite forallb_forall. intros Hks. induction 1 as [|k' a ks args Ha _ IH]; constructor.
  - specialize (Hks k' ltac:(by left)). apply bool_decide_eq_true in Hks. by subst.
  - apply IH. intros x Hx. apply Hks. by right.
Qed.

Lemma argsSome_inv k ks args : argsSome k ks = true → args_sound ks args →
  ∃ a rest, args = a :: rest ∧ sound k (arg_evals a) ∧ Forall (λ a, sound k (arg_evals a)) rest.
Proof.
  unfold argsSome. rewrite andb_true_iff, negb_true_iff, bool_decide_eq_false. intros [Hne Hall] Hs.
  pose proof (argsAll_inv _ _ _ Hall Hs) as Ha. destruct Hs as [|? a ? rest]; [done|]. apply Forall_cons in Ha as []. eauto.
Qed.

(** The method [eval] is that of the kind [k]. *)
Class KindEval (k : Kind) {A} (P : A → Prop) (eval : Evals → outcome (option A)) : Prop := kind_eval : ∀ e, sound k e → good P (eval e).

#[global] Instance KInt_eval : KindEval KInt i64_ok evInt := λ _ H, H.
#[global] Instance KReal_eval : KindEval KReal finite evReal := λ _ H, H.
#[global] Instance KDecimal_eval : KindEval KDecimal plain_decimal evDecimal := λ _ H, H.
#[global] Instance KString_eval : KindEval KString (λ _, True) evString := λ _ H, H.
#[global] Instance KTime_eval : KindEval KTime (λ _, True) evTime := λ _ H, H.

Section family.
Context {A : Type} (k : Kind) (P : A → Prop) (eval : Evals → outcome (option A)) {Heval : KindEval k P eval}.

Lemma caseWhen_good n : ∀ args ks, (length args ≤ n)%nat → argsCase k ks = true → args_sound ks args → good P (caseWhen eval args).
Proof using Heval.
  induction n as [|n IH]; intros args ks Hn Hks Hs.
  - by destruct args; [|simpl in Hn; lia].
  - destruct Hs as [|k1 c ks args Hc Hs]; [done|]. destruct Hs as [|k2 v ks args Hv Hs].
    + cbn [argsCase] in Hks. apply bool_decide_eq_true in Hks as ->. by apply Heval.
    + cbn [argsCase] in Hks. rewrite !andb_true_iff, !bool_decide_eq_true in Hks. destruct Hks as [[-> ->] Hks].
      cbn [caseWhen]. eapply good_bind; [exact Hc|]. intros o _. destruct (isTruth o); [by apply Heval|]. apply (IH _ ks); [simpl in Hn; lia|done|done].
Qed.

Lemma ifElse_good a b c : sound KInt (arg_evals a) → sound k (arg_evals b) → sound k (arg_evals c) → good P (ifElse eval [a; b; c]).
Proof using Heval. intros Ha Hb Hc. unfold ifElse. eapply good_bind; [exact Ha|]. intros o _. destruct (isTruth o); by apply Heval. Qed.

Lemma ifNull_good a b : sound k (arg_evals a) → sound k (arg_evals b) → good P (ifNull eval [a; b]).
Proof using Heval. intros Ha Hb. unfold ifNull. cbn [index lookup list_lookup]. eapply good_bind; [by apply Heval|]. intros [v|] Hv; [done|by apply Heval]. Qed.

Lemma coalesce_good args : Forall (λ a, sound k (arg_evals a)) args → good P (coalesce eval args).
Proof using Heval.
  induction 1 as [|a args Ha _ IH]; [done|]. cbn [coalesce]. eapply good_bind; [by apply Heval|]. intros [v|] Hv; [done|exact IH].
Qed.

Lemma isTrueOrFalse_good keepNull test r : good P r → good i64_ok (isTrueOrFalse keepNull test r).
Proof. intros Hr. unfold isTrueOrFalse. eapply good_bind; [exact Hr|]. intros [v|] _; [apply good_bool|by destruct keepNull]. Qed.

Lemma evalIsNull_good r : good P r → good i64_ok (evalIsNull r).
Proof. intros Hr. unfold evalIsNull. eapply good_bind; [exact Hr|]. by intros [v|] _. Qed.

Lemma compareArgs_good arg cmp args : good P (arg args 0%nat) → good P (arg args 1%nat) → (∀ x y, P x → P y → ∃ r, cmp x y = Ok r) →
  good (λ _, True) (compareArgs arg cmp args).
Proof.
  intros H0 H1 Hc. unfold compareArgs. eapply good_bind; [exact H0|]. intros o0 Ho0. eapply good_bind; [exact H1|]. intros o1 Ho1.
  destruct o0, o1; try done. destruct (Hc a a0 Ho0 Ho1) as [r ->]. done.
Qed.

Lemma nullEQ_good arg eq args : good P (arg args 0%nat) → good P (arg args 1%nat) → (∀ x y, P x → P y → ∃ b, eq x y = Ok b) →
  good i64_ok (nullEQ arg eq args).
Proof.
  intros H0 H1 Hc. unfold nullEQ. eapply good_bind; [exact H0|]. intros o0 Ho0. eapply good_bind; [exact H1|]. intros o1 Ho1.
  destruct o0, o1; try done. destruct (Hc a a0 Ho0 Ho1) as [r ->]. apply good_bool.
Qed.

Lemma extremum_good better a args : (∀ x y, P x → P y → ∃ b, better x y = Ok b) →
  sound k (arg_evals a) → Forall (λ a, sound k (arg_evals a)) args → good P (extremum eval better (a :: args)).
Proof using Heval.
  intros Hb Ha Hs. unfold extremum. cbn [index lookup list_lookup]. eapply good_nbind; [by apply Heval|]. cbn [tail].
  induction Hs as [|a' args Ha' _ IH]; intros best Hbest; [done|]. cbn [extremum_loop]. eapply good_nbind; [by apply Heval|]. intros v Hv.
  destruct (Hb v best Hv Hbest) as [b ->]. osimpl. apply IH. by destruct b.
Qed.
End family.

Lemma resOf_good test r : good (λ _, True) r → good i64_ok (resOf test r).
Proof. intros Hr. unfold resOf. eapply good_nbind; [exact Hr|]. intros v _. apply good_bool. Qed.

(** ** Intervals *)

Lemma linearSearch_good target u args : Forall (λ a, sound KInt (arg_evals a)) args → ∀ i,
  0 ≤ i → i + Z.of_nat (length args) < two63 →
  good i64_ok (idx ← linearSearch target u args i; Ok (Some idx)).
Proof.
  induction 1 as [|a args Ha _ IH]; intros i Hi Hn; cbn [linearSearch length] in *; [simpl; unfold i64_ok; lia|].
  simpl in Ha. destruct (evInt (arg_evals a)) as [o|?|?|]; try done. osimpl. destruct (match o with Some _ => _ | None => _ end); [simpl; unfold i64_ok; lia|].
  apply IH; lia.
Qed.

Lemma binSearch_good target u args fuel : Forall (λ a, sound KInt (arg_evals a)) args → ∀ i j, (j - i < fuel)%nat → (i ≤ j ≤ length args)%nat →
  Z.of_nat (length args) < two63 →
  good i64_ok (idx ← binSearch_loop fuel target u args i j; Ok (Some (Z.of_nat idx))).
Proof.
  intros Hs. induction fuel as [|fuel IH]; intros i j Hf Hij Hn; [lia|]. cbn [binSearch_loop].
  destruct (Nat.ltb_spec i j) as [Hlt|Hge]; [|simpl; unfold i64_ok; lia].
  set (mid := (i + (j - i) / 2)%nat). assert (Hmid : (i ≤ mid < j)%nat). { unfold mid. pose proof (Nat.div_lt (j - i) 2). lia. }
  destruct (lookup_lt_is_Some_2 args mid ltac:(lia)) as [a Ha]. rewrite (index_ok _ _ _ Ha). osimpl.
  rewrite Forall_lookup in Hs. specialize (Hs mid a Ha). simpl in Hs. destruct (evInt (arg_evals a)) as [o|?|?|]; try done. osimpl.
  destruct (intervalLess _ _ _ _); apply IH; lia.
Qed.

Lemma interval_good hasNullable a args : sound KInt (arg_evals a) → Forall (λ a, sound KInt (arg_evals a)) args → Z.of_nat (S (length args)) < two63 →
  good i64_ok (builtinIntervalIntSig_evalInt hasNullable (a :: args)).
Proof.
  intros Ha Hs Hn. unfold builtinIntervalIntSig_evalInt. eapply good_bind; [exact Ha|]. intros [target|] _; [|done].
  apply (good_unsigned _ _ _ _ a); [done|]. cbn [tail]. destruct hasNullable; [apply linearSearch_good; lia || done|].
  unfold binSearch. apply binSearch_good; lia || done.
Qed.

(** ** Signatures *)

Create HintDb sound.
#[export] Hint Resolve good_bool i64_range land_i64 lor_i64 lxor_i64 lnot_i64 rem_i64 neg_finite IsFinite_finite mul_finite div_finite DecimalNeg_plain : sound.

(** Evaluates the arguments in turn, and the tests on them. *)
Ltac sound_step :=
  match goal with
  | |- good _ (nbind _ _) => eapply good_nbind; [eassumption|intros ? ?]
  | |- good _ (argUnsigned _ _ ≫= _) => eapply good_unsigned; [reflexivity|]
  | |- good _ (mbind _ _) => eapply good_bind; [eassumption|intros ? ?]
  | |- good _ (if ?c then _ else _) => destruct c eqn:?
  | |- good _ (match ?c with Some _ => _ | None => _ end) => destruct c eqn:?
  | |- good _ (Ok (Some _)) => cbn [good]; eauto with sound
  | |- _ => done
  end.

Section arithmetic.
Context (a b : Arg).
Hypotheses (Ha : good i64_ok (argInt [a; b] 0)) (Hb : good i64_ok (argInt [a; b] 1)).

Lemma divide_good : good i64_ok (builtinArithmeticIntDivideIntSig_evalInt [a; b]).
Proof using Ha Hb.
  unfold builtinArithmeticIntDivideIntSig_evalInt, DivUintWithInt, DivIntWithUint, DivInt64. repeat sound_step.
  destruct (ft_Unsigned (arg_tp a)), (ft_Unsigned (arg_tp b)); repeat case_match; osimpl; try done; apply i64_range.
Qed.

Lemma modInt_good rem : (∀ x y, i64_ok x → i64_ok y → y ≠ 0 → i64_ok (rem x y)) → good i64_ok (modInt [a; b] rem).
Proof using Ha Hb. intros Hrem. unfold modInt. repeat sound_step. cbn [good]. apply Hrem; [done|done|lia]. Qed.

Lemma bitOp_good op : (∀ x y, i64_ok x → i64_ok y → i64_ok (op x y)) → good i64_ok (bitOp op [a; b]).
Proof using Ha Hb. intros Hop. unfold bitOp. repeat sound_step. Qed.

Lemma plus_good : good i64_ok (builtinArithmeticPlusIntSig_evalInt [a; b]).
Proof using Ha Hb. unfold builtinArithmeticPlusIntSig_evalInt. cbv zeta. repeat sound_step. Qed.

Lemma minus_good : ∀ no, good i64_ok (builtinArithmeticMinusIntSig_evalInt no [a; b]).
Proof using Ha Hb. unfold builtinArithmeticMinusIntSig_evalInt. cbv zeta. intros. repeat sound_step. Qed.

Lemma mulu_good : good i64_ok (builtinArithmeticMultiplyIntUnsignedSig_evalInt [a; b]).
Proof using Ha Hb. unfold builtinArithmeticMultiplyIntUnsignedSig_evalInt. cbv zeta. repeat sound_step. Qed.

Lemma mul_good : good i64_ok (builtinArithmeticMultiplyIntSig_evalInt [a; b]).
Proof using Ha Hb. unfold builtinArithmeticMultiplyIntSig_evalInt. cbv zeta. repeat sound_step. Qed.

Lemma and_good : good i64_ok (builtinLogicAndSig_evalInt [a; b]).
Proof using Ha Hb. unfold builtinLogicAndSig_evalInt. cbv zeta. repeat sound_step. Qed.

Lemma or_good : good i64_ok (builtinLogicOrSig_evalInt [a; b]).
Proof using Ha Hb. unfold builtinLogicOrSig_evalInt. cbv zeta. repeat sound_step. Qed.

Lemma xor_good : good i64_ok (builtinLogicXorSig_evalInt [a; b]).
Proof using Ha Hb. unfold builtinLogicXorSig_evalInt. cbv zeta. repeat sound_step. Qed.

End arithmetic.

Lemma shift_i64 y z : i64_ok (if u64 y <? 64 then i64 z else 0).
Proof. destruct (_ <? _); [apply i64_range|done]. Qed.
#[export] Hint Resolve shift_i64 : sound.

Section reals.
Context (a b : Arg).
Hypotheses (Ha : good finite (argReal [a; b] 0)) (Hb : good finite (argReal [a; b] 1)).

Lemma real_plus_good : good finite (builtinArithmeticPlusRealSig_evalReal [a; b]).
Proof using Ha Hb. unfold builtinArithmeticPlusRealSig_evalReal. cbv zeta. repeat sound_step. Qed.

Lemma real_minus_good : good finite (builtinArithmeticMinusRealSig_evalReal [a; b]).
Proof using Ha Hb. unfold builtinArithmeticMinusRealSig_evalReal. cbv zeta. repeat sound_step. Qed.

Lemma real_mul_good : good finite (builtinArithmeticMultiplyRealSig_evalReal [a; b]).
Proof using Ha Hb. unfold builtinArithmeticMultiplyRealSig_evalReal. cbv zeta. repeat sound_step. Qed.

Lemma real_div_good : good finite (builtinArithmeticDivideRealSig_evalReal [a; b]).
Proof using Ha Hb. unfold builtinArithmeticDivideRealSig_evalReal. cbv zeta. repeat sound_step. Qed.

End reals.

Lemma unaryMinus_good a : good i64_ok (argInt [a] 0) → good i64_ok (builtinUnaryMinusIntSig_evalInt [a]).
Proof. intros Ha. unfold builtinUnaryMinusIntSig_evalInt. repeat sound_step. Qed.

Lemma compare_good k a b : sound k (arg_evals a) → sound k (arg_evals b) →
  good (λ _, True) (match k with KInt => CompareInt [a; b] | KReal => CompareReal [a; b] | KDecimal => CompareDecimal [a; b]
    | KString => CompareStringWithCollationInfo [a; b] | KTime => CompareTime [a; b] end).
Proof.
  intros Ha Hb. destruct k; eapply compareArgs_good; try exact Ha; try exact Hb; intros x y; eauto using decimal_Compare_total.
Qed.

Lemma nulleq_good k a b : sound k (arg_evals a) → sound k (arg_evals b) →
  good i64_ok (match k with KInt => builtinNullEQIntSig_evalInt [a; b] | KReal => builtinNullEQRealSig_evalInt [a; b] | KDecimal => builtinNullEQDecimalSig_evalInt [a; b]
    | KString => builtinNullEQStringSig_evalInt [a; b] | KTime => builtinNullEQTimeSig_evalInt [a; b] end).
Proof.
  intros Ha Hb. destruct k; eapply nullEQ_good; try exact Ha; try exact Hb; intros x y; eauto.
  intros Hx Hy. destruct (decimal_Compare_total x y Hx Hy) as [r ->]. by eexists.
Qed.

Lemma decimal_plus_good a b : sound KDecimal (arg_evals a) → sound KDecimal (arg_evals b) → good plain_decimal (builtinArithmeticPlusDecimalSig_evalDecimal [a; b]).
Proof.
  intros Ha Hb. eapply good_nbind; [exact Ha|]. intros x [Hx _]. eapply good_nbind; [exact Hb|]. intros y [Hy _]. eapply decimal_sum_good, add_sub_total; done.
Qed.

Lemma decimal_minus_good a b : sound KDecimal (arg_evals a) → sound KDecimal (arg_evals b) → good plain_decimal (builtinArithmeticMinusDecimalSig_evalDecimal [a; b]).
Proof.
  intros Ha Hb. eapply good_nbind; [exact Ha|]. intros x [Hx _]. eapply good_nbind; [exact Hb|]. intros y [Hy _]. eapply decimal_sum_good, add_sub_total; done.
Qed.

(** The arguments of a signature, from the kinds it takes. *)
Ltac take_args Hk Hs :=
  lazymatch type of Hk with
  | args1 _ _ = true => destruct (args1_inv _ _ _ Hk Hs) as (a & -> & Ha)
  | args2 _ _ _ = true => destruct (args2_inv _ _ _ _ Hk Hs) as (a & b & -> & Ha & Hb)
  | args3 _ _ _ _ = true => destruct (args3_inv _ _ _ _ _ Hk Hs) as (a & b & c & -> & Ha & Hb & Hc)
  | argsAll _ _ = true => pose proof (argsAll_inv _ _ _ Hk Hs) as Hall
  | argsSome _ _ = true => destruct (argsSome_inv _ _ _ Hk Hs) as (a & rest & -> & Ha & Hrest)
  | _ => idtac
  end.

Lemma decimal_better x y (t : Z → bool) : plain_decimal x → plain_decimal y → ∃ r, (c ← decimal_Compare x y; Ok (t c)) = Ok r.
Proof. intros Hx Hy. destruct (decimal_Compare_total x y Hx Hy) as [r ->]. by eexists. Qed.

(** A signature that is an instance of a family is as good as the family. *)
Ltac by_family :=
  lazymatch goal with
  | |- good _ (caseWhen _ _) => eapply caseWhen_good; [exact _|reflexivity|eassumption|eassumption]
  | |- good _ (ifElse _ _) => eapply ifElse_good; [exact _|eassumption..]
  | |- good _ (ifNull _ _) => eapply ifNull_good; [exact _|eassumption..]
  | |- good _ (coalesce _ _) => eapply coalesce_good; [exact _|eassumption]
  | |- good _ (isTrueOrFalse _ _ _) => eapply isTrueOrFalse_good; eassumption
  | |- good _ (evalIsNull _) => eapply evalIsNull_good; eassumption
  | |- good _ (resOf _ (CompareInt _)) => apply resOf_good, (compare_good KInt); assumption
  | |- good _ (resOf _ (CompareReal _)) => apply resOf_good, (compare_good KReal); assumption
  | |- good _ (resOf _ (CompareDecimal _)) => apply resOf_good, (compare_good KDecimal); assumption
  | |- good _ (resOf _ (CompareStringWithCollationInfo _)) => apply resOf_good, (compare_good KString); assumption
  | |- good _ (resOf _ (CompareTime _)) => apply resOf_good, (compare_good KTime); assumption
  | |- good _ (nullEQ _ _ _) => eapply nullEQ_good; [eassumption|eassumption|eauto using decimal_better]
  | |- good _ (extremum _ _ _) => eapply extremum_good; [exact _|eauto using decimal_better|eassumption|eassumption]
  | |- good _ (modInt _ _) => apply modInt_good; [assumption|assumption|intros; repeat case_match; auto with sound]
  | |- good _ (bitOp _ _) => apply bitOp_good; [assumption|assumption|intros; auto with sound]
  | |- good _ (nbind _ _) => repeat sound_step
  end.

Ltac by_signature :=
  lazymatch goal with
  | |- good _ (builtinArithmeticMinusIntSig_evalInt _ _) => apply minus_good; assumption
  | |- good _ (builtinArithmeticPlusIntSig_evalInt _) => apply plus_good; assumption
  | |- good _ (builtinArithmeticMultiplyIntUnsignedSig_evalInt _) => apply mulu_good; assumption
  | |- good _ (builtinArithmeticMultiplyIntSig_evalInt _) => apply mul_good; assumption
  | |- good _ (builtinArithmeticIntDivideIntSig_evalInt _) => apply divide_good; assumption
  | |- good _ (builtinLogicAndSig_evalInt _) => apply and_good; assumption
  | |- good _ (builtinLogicOrSig_evalInt _) => apply or_good; assumption
  | |- good _ (builtinLogicXorSig_evalInt _) => apply xor_good; assumption
  | |- good _ (builtinArithmeticPlusRealSig_evalReal _) => apply real_plus_good; assumption
  | |- good _ (builtinArithmeticMinusRealSig_evalReal _) => apply real_minus_good; assumption
  | |- good _ (builtinArithmeticMultiplyRealSig_evalReal _) => apply real_mul_good; assumption
  | |- good _ (builtinArithmeticDivideRealSig_evalReal _) => apply real_div_good; assumption
  | |- good _ (builtinUnaryMinusIntSig_evalInt _) => apply unaryMinus_good; assumption
  | |- good _ (builtinArithmeticPlusDecimalSig_evalDecimal _) => apply decimal_plus_good; assumption
  | |- good _ (builtinArithmeticMinusDecimalSig_evalDecimal _) => apply decimal_minus_good; assumption
  | |- good _ (?f _ _) => unfold f; by_family
  | |- good _ (?f _) => unfold f, resOfLT, resOfLE, resOfGT, resOfGE, resOfEQ, resOfNE; by_family
  end.

Lemma sig_sound f ks args : sig_takes f ks = true → args_sound ks args → sound (sig_kind f) (sig_evals f args).
Proof.
  intros Hk Hs. destruct f; cbn [sig_takes] in Hk; try discriminate Hk;
    cbn [sig_kind sig_evals sound onlyInt onlyReal onlyDecimal onlyString onlyTime evInt evReal evDecimal evString evTime];
    take_args Hk Hs; try by_signature.
  apply andb_true_iff in Hk as [Hk Hn]. destruct (argsSome_inv _ _ _ Hk Hs) as (a & rest & -> & Ha & Hrest). apply Forall2_length in Hs. simpl in Hs. rewrite Hs in Hn.
  apply interval_good; [done|done|by apply Z.ltb_lt].
Qed.

(** ** Expressions *)

Lemma Column_sound schema row i k : row_typed schema row → schema !! i = Some k → sound k (Column_evals i row).
Proof.
  intros Hrow Hi. destruct (Forall2_lookup_l _ _ _ _ _ Hrow Hi) as (c & Hc & Hok). unfold Column_evals, unless_null, IsNull, GetInt64, GetFloat64, GetDecimal, GetString, GetTimestamp.
  rewrite (index_ok _ _ _ Hc). osimpl. destruct c as [v|]; [|by destruct k]. destruct Hok as [<- Hv]. by destruct v.
Qed.

(** An induction principle that reaches the arguments. *)
Lemma Expression_nested_ind (P : Expression → Prop) :
  (∀ tp i, P (Column tp i)) → (∀ tp v, P (Constant tp v)) → (∀ tp f args, Forall P args → P (ScalarFunction tp f args)) → ∀ e, P e.
Proof.
  intros Hcol Hconst Hfun. fix IH 1. intros [tp i|tp v|tp f args]; [apply Hcol|apply Hconst|]. apply Hfun.
  induction args as [|a args IHargs]; constructor; [apply IH|exact IHargs].
Qed.

Lemma typed_sound schema row e : row_typed schema row → typed schema e → ∃ k, expr_kind e = Some k ∧ sound k (evals e row).
Proof.
  intros Hrow. induction e as [tp i|tp v|tp f args IH] using Expression_nested_ind; cbn [typed expr_kind GetType evals].
  - intros (k & Hi & Hk). exists k. split; [done|]. by eapply Column_sound.
  - destruct v as [v|]; [intros [Hv Hk]|intros [k Hk]]; eexists; (split; [exact Hk|]); [by destruct v|by destruct k].
  - rewrite typed_args. intros (Hret & (ks & Hks & Htakes) & Hargs). exists (sig_kind f). split; [done|]. apply (sig_sound f ks); [done|]. clear Htakes Hret.
    revert ks Hks. induction args as [|a args IHargs]; intros [|k ks] Hks; [constructor|done|done|]. cbn [map] in Hks. injection Hks as Hk Hks.
    apply Forall_cons in IH as [IHa IH], Hargs as [Ha Hargs]. constructor; [|by apply IHargs].
    destruct (IHa Ha) as (k' & Hk' & Hs). assert (k' = k) as -> by (unfold expr_kind in *; congruence). exact Hs.
Qed.

(** ** Function classes *)

Lemma kinds_replicate t k n : kind_of t = Some k → map kind_of (replicate n t) = map Some (replicate n k) ∧ argsAll k (replicate n k) = true.
Proof.
  intros Ht. induction n as [|n [IH1 IH2]]; [done|]. cbn [replicate map]. rewrite Ht, IH1. split; [done|]. unfold argsAll in *. cbn [forallb]. rewrite IH2. by rewrite bool_decide_eq_true_2.
Qed.

Lemma argsSome_replicate k n : (1 ≤ n)%nat → argsSome k (replicate n k) = true.
Proof.
  intros Hn. destruct (kinds_replicate (match k with KInt => ETInt | KReal => ETReal | KDecimal => ETDecimal | KString => ETString | KTime => ETDatetime end) k n) as [_ H]; [by destruct k|].
  unfold argsSome. rewrite H. by destruct n; [lia|].
Qed.

Lemma kinds_case t k n : kind_of t = Some k → ∀ l, (l ≤ n)%nat → ∃ ks, map kind_of (caseArgTps t l) = map Some ks ∧ argsCase k ks = true.
Proof.
  intros Ht. induction n as [|n IH]; intros l Hl; [destruct l; [by exists []|lia]|]. destruct l as [|[|l]]; [by exists []| |].
  - exists [k]. cbn [caseArgTps map argsCase]. rewrite Ht. split; [done|]. by rewrite bool_decide_eq_true_2.
  - destruct (IH l ltac:(lia)) as (ks & Hks & Hc). exists (KInt :: k :: ks). cbn [caseArgTps map argsCase kind_of]. rewrite Ht, Hks, Hc. split; [done|]. by rewrite !bool_decide_eq_true_2.
Qed.

(** The signature that a class chooses takes the types the class casts the arguments to, and
    returns the type the class says. *)
Definition class_typed (f : Built) : Prop :=
  kind_of (b_retTp f) = Some (sig_kind (b_sig f)) ∧ ∃ ks, map kind_of (b_argTps f) = map Some ks ∧ sig_takes (b_sig f) ks = true.

Lemma fixed_typed f : kind_of (b_retTp f) = Some (sig_kind (b_sig f)) → map kind_of (b_argTps f) = map Some (omap kind_of (b_argTps f)) →
  sig_takes (b_sig f) (omap kind_of (b_argTps f)) = true → class_typed f.
Proof. intros H1 H2 H3. split; [done|]. by eexists. Qed.

Ltac class_cases := repeat match goal with |- context [match ?x with _ => _ end] => destruct x end.

Lemma arithmetic_typed lhs rhs f :
  (arithmeticPlusFunctionClass_getFunction lhs rhs = Some f ∨ (∃ no, arithmeticMinusFunctionClass_getFunction no lhs rhs = Some f) ∨
   arithmeticMultiplyFunctionClass_getFunction lhs rhs = Some f ∨ arithmeticDivideFunctionClass_getFunction lhs rhs = Some f ∨
   arithmeticIntDivideFunctionClass_getFunction lhs rhs = Some f ∨ arithmeticModFunctionClass_getFunction lhs rhs = Some f) → class_typed f.
Proof.
  unfold arithmeticPlusFunctionClass_getFunction, arithmeticMinusFunctionClass_getFunction, arithmeticMultiplyFunctionClass_getFunction, arithmeticDivideFunctionClass_getFunction,
    arithmeticIntDivideFunctionClass_getFunction, arithmeticModFunctionClass_getFunction, built2.
  intros Hf. destruct Hf as [Hf|[[no Hf]|[Hf|[Hf|[Hf|Hf]]]]]; revert Hf; class_cases; intros [= <-]; by apply fixed_typed.
Qed.

Lemma unary_typed tp f :
  ((∃ op keepNull, isTrueOrFalseFunctionClass_getFunction op keepNull tp = Some f) ∨ unaryNotFunctionClass_getFunction tp = Some f ∨
   (∃ v, unaryMinusFunctionClass_getFunction tp v = Some f) ∨ isNullFunctionClass_getFunction tp = Some f) → class_typed f.
Proof.
  unfold isTrueOrFalseFunctionClass_getFunction, unaryNotFunctionClass_getFunction, unaryMinusFunctionClass_getFunction, isNullFunctionClass_getFunction.
  intros [(op & keepNull & Hf)|[Hf|[[v Hf]|Hf]]]; revert Hf; destruct (ft_EvalType tp); cbn; class_cases; intros [= <-]; by apply fixed_typed.
Qed.

Lemma compare_typed op tp f : generateCmpSigs op tp = Some f → class_typed f.
Proof. destruct op, tp; intros [= <-]; by apply fixed_typed. Qed.

Lemma control_typed retTp l f :
  (ifFunctionClass_getFunction retTp = Some f ∨ ifNullFunctionClass_getFunction retTp = Some f ∨
   caseWhenFunctionClass_getFunction retTp l = Some f ∨ coalesceFunctionClass_getFunction retTp l = Some f) → class_typed f.
Proof.
  unfold ifFunctionClass_getFunction, ifNullFunctionClass_getFunction, caseWhenFunctionClass_getFunction, coalesceFunctionClass_getFunction.
  assert (Hcase : ∀ t k, kind_of t = Some k → ∃ ks, map kind_of (caseArgTps t l) = map Some ks ∧ argsCase k ks = true) by (intros; by eapply kinds_case).
  assert (Hrep : ∀ t k, kind_of t = Some k → ∃ ks, map kind_of (replicate l t) = map Some ks ∧ argsAll k ks = true) by (intros; eexists; by apply kinds_replicate).
  intros [Hf|[Hf|[Hf|Hf]]]; revert Hf; destruct (ft_EvalType retTp); intros [= <-]; try (by apply fixed_typed); (split; [done|]); (by apply Hcase) || (by apply Hrep).
Qed.

Lemma extremum_typed tp l f : (greatestFunctionClass_getFunction tp l = Some f ∨ leastFunctionClass_getFunction tp l = Some f) → class_typed f.
Proof.
  unfold greatestFunctionClass_getFunction, leastFunctionClass_getFunction.
  assert (Hrep : ∀ t k, (2 ≤ l)%nat → kind_of t = Some k → ∃ ks, map kind_of (replicate l t) = map Some ks ∧ argsSome k ks = true).
  { intros t k Hl Ht. exists (replicate l k). split; [by apply kinds_replicate|]. apply argsSome_replicate. lia. }
  destruct (Nat.ltb_spec l 2) as [|Hl]; intros [Hf|Hf]; revert Hf; destruct tp; intros [= <-]; (split; [done|]); by apply Hrep.
Qed.

Lemma interval_typed tps f : intervalFunctionClass_getFunction tps = Some f → Z.of_nat (length tps) < two63 → class_typed f.
Proof.
  unfold intervalFunctionClass_getFunction. destruct (Nat.ltb_spec (length tps) 2) as [|Hl]; [done|]. cbn [orb]. destruct (negb _); [done|]. intros [= <-] Hn.
  split; [done|]. exists (replicate (length tps) KInt). split; [by apply kinds_replicate|]. cbn [sig_takes b_sig]. rewrite argsSome_replicate by lia. rewrite length_replicate. by apply Z.ltb_lt.
Qed.

Lemma getFunction_typed c tps f : getFunction c tps = Some f → Z.of_nat (length tps) < two63 → class_typed f.
Proof.
  intros Hf Hn. assert (Hfix : ∀ s t u, built2 s t ETInt u = Some f → t = ETInt → sig_takes s [KInt; KInt] = true → sig_kind s = KInt → class_typed f).
  { intros s t u [= <-] -> H1 H2. apply fixed_typed; [by cbn; rewrite H2|done|done]. }
  destruct c; cbn [getFunction] in Hf;
    try (destruct tps as [|? [|? [|? [|]]]]; try discriminate Hf;
         first [by eapply Hfix | eapply arithmetic_typed; by eauto 10 | eapply unary_typed; by eauto 10
           | by eapply compare_typed | eapply (control_typed _ 0); by eauto 10 | injection Hf as <-; by apply fixed_typed]).
  all: first [eapply control_typed; by eauto 10 | eapply extremum_typed; by eauto | by eapply interval_typed].
Qed.

(** The expressions that the planner makes: columns of the rows, constants, and the functions
    that a class chooses, applied to arguments that have been cast to the types it asks for.
    [tps] are the types of the arguments before the casts. *)
Inductive planned (schema : list Kind) : Expression → Prop :=
  | planned_Column tp i k : schema !! i = Some k → kind_of (ft_EvalType tp) = Some k → planned schema (Column tp i)
  | planned_null tp k : kind_of (ft_EvalType tp) = Some k → planned schema (Constant tp None)
  | planned_Constant tp v : value_sound v → kind_of (ft_EvalType tp) = Some (value_kind v) → planned schema (Constant tp (Some v))
  | planned_ScalarFunction c tps f tp args :
      getFunction c tps = Some f → Z.of_nat (length tps) < two63 →
      map expr_kind args = map kind_of (b_argTps f) → ft_EvalType tp = b_retTp f →
      Forall (planned schema) args → planned schema (ScalarFunction tp (b_sig f) args).

Lemma planned_typed schema e : planned schema e → typed schema e.
Proof.
  induction e as [tp i|tp v|tp f args IH] using Expression_nested_ind; intros He; inversion He as [? ? k|? k|? ? Hv Hk|c tps g ? ? Hg Hn Hargs Htp Hall]; subst; cbn [typed].
  - eauto.
  - eauto.
  - eauto.
  - destruct (getFunction_typed _ _ _ Hg Hn) as (Hret & ks & Hks & Htakes). rewrite Htp, Hret, Hargs, Hks, typed_args.
    split_and!; [done|by exists ks|]. rewrite Forall_forall in IH, Hall |- *. auto.
Qed.

(** What a selection makes of the predicate. *)
Definition predicate_sound (r : outcome (option Z)) (accept : outcome bool) : Prop :=
  match accept with
  | Ok b => ∃ o, r = Ok o ∧ b = isTruth o
  | Err m => out_of_range m = true
  | _ => False
  end.

Lemma accepts_sound retType e row : sound KInt (evals e row) → predicate_sound (EvalInt e row) (accepts [NewExpression retType e] row).
Proof.
  cbn [sound accepts]. unfold EvalBoolean, predicate_sound, good. cbn [NewExpression PullExec.EvalInt]. unfold EvalInt.
  destruct (evInt (evals e row)) as [[v|]|?|?|]; intros H; osimpl; try done; [|by eexists]. destruct (v =? 0) eqn:E; cbn; (eexists; split; [done|]); cbn; by rewrite E.
Qed.

(** C10. Expressions are type safe. An expression of the planner - columns, constants, and the
    functions the modelled function classes choose for arithmetic, logic, comparison, bits,
    control flow, extremes and intervals - has on every row of the types of its columns,
    evaluated by the method of its own type, the value null, or a value of its type (an
    integer of 64 bits, a double that is neither infinite nor not-a-number, a well-formed
    decimal), or an error that says that the result is out of range: one of the three overflow
    errors of integers and doubles, or an overflow or truncation of a decimal. It never fails
    with a method that must not be called, never indexes past its arguments or columns, and
    never reads a value as one of another type. As a predicate it is accepted by a selection
    exactly when it is neither null nor zero. *)
Theorem expression_types schema row e retType :
  row_typed schema row → planned schema e →
  ∃ k, expr_kind e = Some k ∧ sound k (evals e row) ∧
    (k = KInt → predicate_sound (EvalInt e row) (accepts [NewExpression retType e] row)).
Proof.
  intros Hrow He%planned_typed. destruct (typed_sound schema row e Hrow He) as (k & Hk & Hs). exists k. split_and!; [done|done|].
  intros ->. by apply accepts_sound.
Qed.

(** IF(a < 10, b + b, NULL) on a row where a is 3 and b is 1234567890.1234. *)
Definition int_tp : FieldType := MkFieldType ETInt false false 0 false.
Definition dec_tp : FieldType := MkFieldType ETDecimal false false 0 false.
Definition demo_expr : Expression :=
  ScalarFunction dec_tp builtinIfDecimalSig
    [ScalarFunction int_tp builtinLTIntSig [Column int_tp 0; Constant int_tp (Some (VInt 10))];
     ScalarFunction dec_tp builtinArithmeticPlusDecimalSig [Column dec_tp 1; Column dec_tp 1];
     Constant dec_tp None].
Definition demo_row : Row := [Some (VInt 3); Some (VDecimal dec_1234567890_1234)].

Lemma demo_planned : planned [KInt; KDecimal] demo_expr.
Proof.
  unfold demo_expr. apply (planned_ScalarFunction _ (ifFunctionClass dec_tp) [int_tp; dec_tp; dec_tp] (MkBuilt builtinIfDecimalSig [ETInt; ETDecimal; ETDecimal] ETDecimal false)); try done.
  constructor; [|constructor; [|constructor; [|constructor]]].
  - apply (planned_ScalarFunction _ (compareFunctionClass LT ETInt) [int_tp; int_tp] (MkBuilt builtinLTIntSig [ETInt; ETInt] ETInt false)); try done.
    constructor; [by apply (planned_Column _ _ _ KInt)|]. constructor; [by apply planned_Constant|constructor].
  - apply (planned_ScalarFunction _ arithmeticPlusFunctionClass [dec_tp; dec_tp] (MkBuilt builtinArithmeticPlusDecimalSig [ETDecimal; ETDecimal] ETDecimal false)); try done.
    by repeat constructor; apply (planned_Column _ _ _ KDecimal).
  - by apply (planned_null _ _ KDecimal).
Qed.

Lemma demo_row_typed : row_typed [KInt; KDecimal] demo_row.
Proof.
  constructor; [done|]. constructor; [|constructor]. split; [done|]. split; [apply dec_ok_example|]. vm_compute. discriminate.
Qed.

Lemma expression_types_witness :
  EvalDecimal demo_expr demo_row = Ok (Some (MkDecimal 18 4 4 false [2; 469135780; 246800000; 0; 0; 0; 0; 0; 0])) ∧
  ∃ k, expr_kind demo_expr = Some k ∧ sound k (evals demo_expr demo_row) ∧
    (k = KInt → predicate_sound (EvalInt demo_expr demo_row) (accepts [NewExpression (Ok (NewDecimalColumnType 20 4)) demo_expr] demo_row)).
Proof.
  split; [reflexivity|]. apply (expression_types [KInt; KDecimal] demo_row demo_expr (Ok (NewDecimalColumnType 20 4))); [apply demo_row_typed|apply demo_planned].
Defined.
