(* ===== verification/ExprLogic.v ===== *)
(** * Logic and comparison

    The connectives of src/tidb/expression/builtin_op.go are those of three-valued logic, and
    the comparisons of builtin_compare.go compare what their arguments stand for: integers
    of either sign as numbers, decimals as numbers, strings by their bytes. A search for an
    interval finds the first bound above the target, by halving or one by one. *)

From stdpp Require Import base list list_numbers strings sorting sets.
From Stdlib Require Import ZArith Lia SpecFloat.
From S2P Require Import Prelude Encoding Timestamp Floats Decimal DecimalArith Rows PullExec Builtins Expressions IntArith ExprTyping.

(** ** Three-valued logic *)

(** The truth of a value; null is neither true nor false. *)
Definition truth (v : option Z) : option bool := option_map (λ z, negb (z =? 0)) v.
Definition of_truth (t : option bool) : option Z := option_map int_of_bool t.

Definition kleene_and (x y : option bool) : option bool :=
  match x, y with
  | Some false, _ | _, Some false => Some false
  | Some true, Some true => Some true
  | _, _ => None
  end.
Definition kleene_or (x y : option bool) : option bool :=
  match x, y with
  | Some true, _ | _, Some true => Some true
  | Some false, Some false => Some false
  | _, _ => None
  end.
Definition kleene_xor (x y : option bool) : option bool :=
  match x, y with Some x, Some y => Some (xorb x y) | _, _ => None end.

Inductive Connective := And | Or | Xor.

Definition connective_class (c : Connective) : FunctionClass :=
  match c with And => logicAndFunctionClass | Or => logicOrFunctionClass | Xor => logicXorFunctionClass end.
Definition kleene (c : Connective) : option bool → option bool → option bool :=
  match c with And => kleene_and | Or => kleene_or | Xor => kleene_xor end.

(** What the first argument alone decides; the second one is not evaluated then. *)
Definition decides (c : Connective) (x : option Z) : bool :=
  match c, x with
  | And, Some z => z =? 0
  | Or, Some z => negb (z =? 0)
  | Xor, None => true
  | _, _ => false
  end.

(** ** Comparison *)

(** The arguments of a comparison: nulls, or their order. *)
Inductive Compared := BothNull | OneNull | Order (c : comparison).

Definition compared {A} (cmp : A → A → comparison) (x y : option A) : Compared :=
  match x, y with
  | Some x, Some y => Order (cmp x y)
  | None, None => BothNull
  | _, _ => OneNull
  end.

Definition holds (op : CmpOp) (c : comparison) : bool :=
  match op, c with
  | LT, Lt | LE, Lt | LE, Eq | GT, Gt | GE, Gt | GE, Eq | EQ, Eq | NullEQ, Eq | NE, Lt | NE, Gt => true
  | _, _ => false
  end.

Definition answer (op : CmpOp) (c : Compared) : option Z :=
  match op, c with
  | _, Order c => Some (int_of_bool (holds op c))
  | NullEQ, BothNull => Some 1
  | NullEQ, OneNull => Some 0
  | _, _ => None
  end.

(** How two arguments of a kind compare. *)
Definition args_compared (k : Kind) (a b : Arg) : outcome Compared :=
  match k with
  | KInt =>
      x ← evInt (arg_evals a); y ← evInt (arg_evals b);
      Ok (compared (λ x y, intval (ft_Unsigned (arg_tp a)) x ?= intval (ft_Unsigned (arg_tp b)) y) x y)
  | KReal => x ← evReal (arg_evals a); y ← evReal (arg_evals b); Ok (compared (λ x y, default Gt (SFcompare x y)) x y)
  | KDecimal => x ← evDecimal (arg_evals a); y ← evDecimal (arg_evals b); Ok (compared (λ x y, value_of x ?= value_of y) x y)
  | KString => x ← evString (arg_evals a); y ← evString (arg_evals b); Ok (compared bytes_cmp x y)
  | KTime => x ← evTime (arg_evals a); y ← evTime (arg_evals b); Ok (compared Compare x y)
  end.

(** ** Lemmas *)

Definition sign (c : comparison) : Z := match c with Lt => -1 | Eq => 0 | Gt => 1 end.

Lemma CompareInt64_sign x y : CompareInt64 x y = sign (x ?= y).
Proof. unfold CompareInt64. destruct (Z.compare_spec x y); repeat case_match; simpl; lia. Qed.

Lemma compareInts_sign u0 u1 x y : i64_ok x → i64_ok y → compareInts u0 u1 x y = sign (intval u0 x ?= intval u1 y).
Proof.
  intros Hx Hy. rewrite <- CompareInt64_sign. unfold compareInts, CompareUint64, CompareInt64, intval, MaxInt64, i64_ok in *. rewrite ?u64_signed by (unfold i64_ok; lia).
  destruct u0, u1; repeat case_match; lia.
Qed.

Lemma equalInts_sign u0 u1 x y : i64_ok x → i64_ok y → equalInts u0 u1 x y = (sign (intval u0 x ?= intval u1 y) =? 0).
Proof.
  intros Hx Hy. rewrite <- CompareInt64_sign. unfold equalInts, CompareUint64, CompareInt64, intval, i64_ok in *. rewrite ?u64_signed by (unfold i64_ok; lia).
  destruct u0, u1; repeat case_match; lia.
Qed.

Lemma CompareFloat64_sign x y : CompareFloat64 x y = sign (default Gt (SFcompare x y)).
Proof. unfold CompareFloat64, sf_lt, sf_eq, SFltb, SFeqb. by destruct (SFcompare x y) as [[]|]. Qed.

Section compare.
Context {A : Type} (P : A → Prop) (arg : list Arg → nat → outcome (option A)) (order : A → A → comparison) (args : list Arg) (x y : option A).
Context (Hx : arg args 0%nat = Ok x) (Hy : arg args 1%nat = Ok y) (Px : ogood P x) (Py : ogood P y).

Lemma compareArgs_order op test cmp : (∀ x y, P x → P y → cmp x y = Ok (sign (order x y))) → (∀ c, test (sign c) = holds op c) → op ≠ NullEQ →
  resOf test (compareArgs arg cmp args) = Ok (answer op (compared order x y)).
Proof using Hx Hy Px Py.
  intros Hcmp Htest Hop. unfold resOf, compareArgs, nbind. rewrite Hx, Hy. osimpl. destruct x as [v|], y as [w|]; cbn [compared]; [|by destruct op..].
  rewrite Hcmp by done. osimpl. rewrite Htest. by destruct op.
Qed.

Lemma nullEQ_order eq : (∀ x y, P x → P y → eq x y = Ok (sign (order x y) =? 0)) → nullEQ arg eq args = Ok (answer NullEQ (compared order x y)).
Proof using Hx Hy Px Py.
  intros Heq. unfold nullEQ. rewrite Hx, Hy. osimpl. destruct x as [v|], y as [w|]; cbn [compared]; [|done..]. rewrite Heq by done. osimpl. by destruct (order v w).
Qed.

(** What an operator makes of the comparison [r], and [<=>] of [n]. *)
Definition cmp_result (op : CmpOp) (r n : outcome (option Z)) : outcome (option Z) :=
  match op with LT => resOfLT r | LE => resOfLE r | GT => resOfGT r | GE => resOfGE r | EQ => resOfEQ r | NE => resOfNE r | NullEQ => n end.

Lemma cmp_result_order op cmp eq : (∀ x y, P x → P y → cmp x y = Ok (sign (order x y)) ∧ eq x y = Ok (sign (order x y) =? 0)) →
  cmp_result op (compareArgs arg cmp args) (nullEQ arg eq args) = Ok (answer op (compared order x y)).
Proof using Hx Hy Px Py.
  intros H. destruct op; cbn [cmp_result]; first [apply nullEQ_order|apply compareArgs_order]; try done; try (by intros []); intros v w Hv Hw; by apply H.
Qed.
End compare.

Definition CompareKind (k : Kind) (args : list Arg) : outcome (option Z) :=
  match k with
  | KInt => CompareInt args
  | KReal => CompareReal args
  | KDecimal => CompareDecimal args
  | KString => CompareStringWithCollationInfo args
  | KTime => CompareTime args
  end.
Definition NullEQKind (k : Kind) (args : list Arg) : outcome (option Z) :=
  match k with
  | KInt => builtinNullEQIntSig_evalInt args
  | KReal => builtinNullEQRealSig_evalInt args
  | KDecimal => builtinNullEQDecimalSig_evalInt args
  | KString => builtinNullEQStringSig_evalInt args
  | KTime => builtinNullEQTimeSig_evalInt args
  end.

Lemma cmp_sig op tp k args : kind_of tp = Some k →
  ∃ f, generateCmpSigs op tp = Some f ∧ evInt (sig_evals (b_sig f) args) = cmp_result op (CompareKind k args) (NullEQKind k args).
Proof. destruct tp; intros [= <-]; destruct op; by eexists. Qed.

Lemma CompareString_sign x y : CompareString x y = sign (bytes_cmp x y).
Proof. done. Qed.

Lemma decimal_sign x y : plain_decimal x → plain_decimal y → decimal_Compare x y = Ok (sign (value_of x ?= value_of y)).
Proof. intros [Hx _] [Hy _]. exact (CompareTo_ok x y Hx Hy). Qed.

Lemma good_ok {A} (P : A → Prop) r o : good P r → r = Ok o → ogood P o.
Proof. intros Hr ->. by destruct o. Qed.

Lemma kind_order op k a b c : sound k (arg_evals a) → sound k (arg_evals b) → args_compared k a b = Ok c →
  cmp_result op (CompareKind k [a; b]) (NullEQKind k [a; b]) = Ok (answer op c).
Proof.
  intros Ha Hb. destruct k; cbn [args_compared sound CompareKind NullEQKind] in *.
  - destruct (evInt (arg_evals a)) as [x|?|?|] eqn:Ea, (evInt (arg_evals b)) as [y|?|?|] eqn:Eb; try done; osimpl; intros [= <-].
    apply (cmp_result_order i64_ok); [exact Ea|exact Eb|by destruct x|by destruct y|]. intros v w Hv Hw. cbn. by rewrite compareInts_sign, equalInts_sign.
  - destruct (evReal (arg_evals a)) as [x|?|?|] eqn:Ea, (evReal (arg_evals b)) as [y|?|?|] eqn:Eb; try done; osimpl; intros [= <-].
    apply (cmp_result_order finite); [exact Ea|exact Eb|by destruct x|by destruct y|]. intros v w Hv Hw. by rewrite CompareFloat64_sign.
  - destruct (evDecimal (arg_evals a)) as [x|?|?|] eqn:Ea, (evDecimal (arg_evals b)) as [y|?|?|] eqn:Eb; try done; osimpl; intros [= <-].
    apply (cmp_result_order plain_decimal); [exact Ea|exact Eb|by destruct x|by destruct y|]. intros v w Hv Hw. by rewrite decimal_sign.
  - destruct (evString (arg_evals a)) as [x|?|?|] eqn:Ea, (evString (arg_evals b)) as [y|?|?|] eqn:Eb; try done; osimpl; intros [= <-].
    apply (cmp_result_order (λ _, True)); [exact Ea|exact Eb|by destruct x|by destruct y|]. intros v w _ _. done.
  - destruct (evTime (arg_evals a)) as [x|?|?|] eqn:Ea, (evTime (arg_evals b)) as [y|?|?|] eqn:Eb; try done; osimpl; intros [= <-].
    apply (cmp_result_order (λ _, True)); [exact Ea|exact Eb|by destruct x|by destruct y|]. intros v w _ _. done.
Qed.

(** C24. Comparisons compare what the arguments stand for. For the six operators and [<=>], the
    signature that is chosen for a type says, of arguments of that type that have values, what
    the order of the two says: of integers the order of the numbers they are in their types,
    signed and unsigned mixed; of doubles that of the numbers; of decimals that of their
    values; of strings that of their bytes; of times that of the instants. A null makes the
    result null, but [<=>] says that two nulls are equal and that one is not. *)
Theorem comparison_correct op tp k a b c :
  kind_of tp = Some k → sound k (arg_evals a) → sound k (arg_evals b) → args_compared k a b = Ok c →
  ∃ f, generateCmpSigs op tp = Some f ∧ evInt (sig_evals (b_sig f) [a; b]) = Ok (answer op c).
Proof.
  intros Hk Ha Hb Hc. destruct (cmp_sig op tp k [a; b] Hk) as (f & Hf & E). exists f. split; [done|]. rewrite E. by apply kind_order.
Qed.

(** The unsigned 2^64 - 1 is above the signed -1, though the bits are the same. *)
Lemma comparison_correct_witness :
  ∃ f, generateCmpSigs GT ETInt = Some f ∧
    evInt (sig_evals (b_sig f) [MkArg (bigint true) (int_const (-1)); MkArg (bigint false) (int_const (-1))]) = Ok (Some 1).
Proof. apply (comparison_correct GT ETInt KInt _ _ (Order Gt)); done. Defined.

(** The connectives are those of three-valued logic, and what the first argument decides does
    not depend on the second, not even on whether that one fails. *)
Lemma connectives_three_valued c tps f a b x : getFunction (connective_class c) tps = Some f → evInt (arg_evals a) = Ok x →
  (decides c x = true → ∀ t, evInt (sig_evals (b_sig f) [a; b]) = Ok (of_truth (kleene c (truth x) t))) ∧
  (∀ y, evInt (arg_evals b) = Ok y → evInt (sig_evals (b_sig f) [a; b]) = Ok (of_truth (kleene c (truth x) (truth y)))).
Proof.
  intros Hf Hx. assert (Hx0 : argInt [a; b] 0 = Ok x) by done.
  assert (Hy1 : ∀ y, evInt (arg_evals b) = Ok y → argInt [a; b] 1 = Ok y) by done.
  destruct c; destruct tps as [|? [|? [|]]]; try discriminate Hf; injection Hf as <-; cbn [b_sig sig_evals onlyInt evInt decides];
    unfold builtinLogicAndSig_evalInt, builtinLogicOrSig_evalInt, builtinLogicXorSig_evalInt, nbind; rewrite Hx0; osimpl;
    (split; [intros Hd t|intros y Hy; try rewrite (Hy1 y Hy)]); destruct x as [v|]; try discriminate Hd; cbn [isTruth truth option_map];
    try (destruct (Z.eqb_spec v 0) as [->|]); rewrite ?bool_decide_eq_true_2, ?bool_decide_eq_false_2 by congruence; osimpl; try done;
    rewrite ?(Hy1 y Hy); osimpl; destruct y as [w|]; cbn [isTruth truth option_map]; try (destruct (Z.eqb_spec w 0) as [->|]);
    rewrite ?bool_decide_eq_true_2, ?bool_decide_eq_false_2 by congruence; try done.
Qed.

(** ** Intervals *)

Lemma intervalLess_ok u1 u2 target v : i64_ok target → i64_ok v → intervalLess u1 u2 target v = (intval u1 target <? intval u2 v).
Proof.
  intros Ht Hv. unfold intervalLess, intval, i64_ok in *. rewrite ?u64_signed by (unfold i64_ok; lia). destruct u1, u2; repeat case_match; lia.
Qed.

(** The bounds of an interval, as numbers. *)
Definition bounds (args : list Arg) (bs : list Z) : Prop :=
  Forall2 (λ a z, ∃ v, evInt (arg_evals a) = Ok (Some v) ∧ i64_ok v ∧ intval (ft_Unsigned (arg_tp a)) v = z) args bs.

(** The number of bounds up to the target. *)
Definition position (t : Z) (bs : list Z) : nat := length (filter (λ b, b ≤ t) bs).

Lemma position_above t bs : Forall (λ b, t < b) bs → position t bs = 0%nat.
Proof. intros H. unfold position. induction H as [|b bs Hb _ IH]; [done|]. rewrite filter_cons_False by lia. done. Qed.

Lemma position_below t bs : Forall (λ b, b ≤ t) bs → position t bs = length bs.
Proof. intros H. unfold position. induction H as [|b bs Hb _ IH]; [done|]. rewrite filter_cons_True by done. cbn [length]. by rewrite IH. Qed.

Lemma position_app t bs1 bs2 : position t (bs1 ++ bs2) = (position t bs1 + position t bs2)%nat.
Proof. unfold position. by rewrite filter_app, length_app. Qed.

(** A sorted list is split by any index between the bounds up to the target and those above. *)
Lemma position_split t bs i b : StronglySorted Z.le bs → bs !! i = Some b → if t <? b then (position t bs ≤ i)%nat else (i < position t bs)%nat.
Proof.
  intros Hs Hi. rewrite <- (take_drop_middle bs i b Hi) in Hs |- *. pose proof (lookup_lt_Some _ _ _ Hi). rewrite position_app.
  assert (Hlen : length (take i bs) = i) by (rewrite length_take; lia).
  destruct (Z.ltb_spec t b) as [Hlt|Hle].
  - rewrite (position_above t (b :: drop (S i) bs)).
    + pose proof (length_filter (λ b, b ≤ t) (take i bs)). unfold position. lia.
    + constructor; [done|]. apply Forall_forall. intros z Hz.
      assert (b ≤ z); [|lia]. apply (StronglySorted_app_1_elem_of Z.le (take i bs ++ [b]) (drop (S i) bs)); [by rewrite <- app_assoc|set_solver|done].
  - rewrite (position_below t (take i bs)).
    + assert (1 ≤ position t (b :: drop (S i) bs))%nat; [|lia]. unfold position. rewrite filter_cons_True by lia. cbn [length]. lia.
    + apply Forall_forall. intros z Hz. assert (z ≤ b); [|lia]. apply (StronglySorted_app_1_elem_of Z.le (take i bs) (b :: drop (S i) bs)); [done|done|set_solver].
Qed.

Section interval.
Context (target t : Z) (u1 : bool) (Ht : i64_ok target) (Et : intval u1 target = t).

Lemma linearSearch_position args bs : bounds args bs → StronglySorted Z.le bs → ∀ i,
  linearSearch target u1 args i = Ok (i + Z.of_nat (position t bs)).
Proof using Ht Et.
  induction 1 as [|a z args bs (v & Hv & Hok & Hz) _ IH]; intros Hs i; cbn [linearSearch]; [cbn; f_equal; lia|].
  rewrite Hv. osimpl. rewrite intervalLess_ok by done. rewrite Et, Hz. apply StronglySorted_inv in Hs as [Hs Hall]. destruct (Z.ltb_spec t z) as [Hlt|Hle].
  - rewrite position_above; [f_equal; lia|]. constructor; [done|]. eapply Forall_impl; [exact Hall|]. intros b Hb. simpl in Hb. lia.
  - rewrite IH by done. unfold position. rewrite filter_cons_True by done. cbn [length]. f_equal. lia.
Qed.

Lemma binSearch_position args bs fuel : bounds args bs → StronglySorted Z.le bs → ∀ i j, (j - i < fuel)%nat → (i ≤ position t bs ≤ j)%nat → (j ≤ length args)%nat →
  binSearch_loop fuel target u1 args i j = Ok (position t bs).
Proof using Ht Et.
  intros Hb Hs. induction fuel as [|fuel IH]; intros i j Hf Hij Hj; [lia|]. cbn [binSearch_loop].
  destruct (Nat.ltb_spec i j) as [Hlt|Hge]; [|f_equal; lia].
  set (mid := (i + (j - i) / 2)%nat). assert (Hmid : (i ≤ mid < j)%nat). { unfold mid. pose proof (Nat.div_lt (j - i) 2). lia. }
  destruct (lookup_lt_is_Some_2 args mid ltac:(lia)) as [a Ha]. rewrite (index_ok _ _ _ Ha). osimpl.
  destruct (Forall2_lookup_l _ _ _ _ _ Hb Ha) as (z & Hz & v & Hv & Hok & Ez). rewrite Hv. osimpl. change (default target (Some v)) with v. rewrite intervalLess_ok by done. rewrite Et, Ez.
  pose proof (position_split t bs mid z Hs Hz) as Hp. destruct (t <? z); apply IH; lia.
Qed.
End interval.

(** C25. A search for an interval finds the position of the target. For bounds that have
    values and do not decrease, signed and unsigned mixed, INTERVAL returns how many bounds
    are not above the target, whether it halves the list of the bounds or goes through it:
    the halving ends within its rounds and agrees with the scan. *)
Theorem interval_position hasNullable a args target bs :
  evInt (arg_evals a) = Ok (Some target) → i64_ok target → bounds args bs → StronglySorted Z.le bs →
  builtinIntervalIntSig_evalInt hasNullable (a :: args) =
    Ok (Some (Z.of_nat (position (intval (ft_Unsigned (arg_tp a)) target) bs))).
Proof.
  intros Ha Ht Hb Hs. unfold builtinIntervalIntSig_evalInt, argInt, argUnsigned. cbn [index lookup list_lookup]. osimpl. rewrite Ha. osimpl. cbn [tail]. destruct hasNullable.
  - by rewrite (linearSearch_position target _ _ Ht eq_refl args bs Hb Hs).
  - unfold binSearch. pose proof (length_filter (λ b, b ≤ intval (ft_Unsigned (arg_tp a)) target) bs) as Hl. pose proof (Forall2_length _ _ _ Hb) as Hlen.
    rewrite (binSearch_position target _ _ Ht eq_refl args bs _ Hb Hs); [done|lia| |lia]. unfold position. lia.
Qed.

Definition demo_bounds : list Arg := map (λ z, MkArg (bigint false) (int_const z)) [1; 5; 5; 9].

Lemma interval_position_witness :
  builtinIntervalIntSig_evalInt false (MkArg (bigint false) (int_const 5) :: demo_bounds) = Ok (Some 3).
Proof.
  apply (interval_position false (MkArg (bigint false) (int_const 5)) demo_bounds 5 [1; 5; 5; 9]); [done|unfold i64_ok; lia| |].
  - repeat constructor; eexists; (split; [reflexivity|]); unfold i64_ok; simpl; lia.
  - repeat constructor; lia.
Defined.

(** With a null bound the two differ, so the search depends on the field that [Clone] does not
    copy. *)
Example interval_clone_differs (args := [MkArg (bigint false) (int_const 5); MkArg (bigint false) (int_const 9);
    MkArg (bigint false) (onlyInt (Ok None)); MkArg (bigint false) (int_const 10)]) :
  builtinIntervalIntSig_evalInt true args = Ok (Some 0) ∧ builtinIntervalIntSig_evalInt (builtinIntervalIntSig_Clone true) args = Ok (Some 2).
Proof. split; reflexivity. Qed.
