(* ===== verification/AggFuncs.v ===== *)
(** * Aggregate functions

    src/aggfuncs: the state of the aggregate functions of one group ([AggState]) and the
    functions SUM, COUNT and FIRST_ROW, each of which can also take a value back
    ([reverse]). *)

From stdpp Require Import base list list_numbers strings gmap sorting.
From Stdlib Require Import ZArith Lia.
From S2P Require Import Prelude Encoding Timestamp Floats Decimal DecimalArith Rows PullExec.

(** ** The state of a group *)

(** The lists of strings and of decimals are made on first use. A decimal holds a pointer,
    which is nil ([None]) in the elements of a new list. *)
Record AggState := MkAggState {
  as_state : list Z;
  as_strState : option (list bytes);
  as_null : list bool;
  as_decimalState : option (list (option Decimal));
  as_set : list bool;
  as_changed : bool;
  as_size : nat
}.

Definition NewAggState (size : nat) : AggState :=
  MkAggState (replicate size 0) None (replicate size false) None (replicate size false) false size.

Definition store {A} (l : list A) (i : nat) (x : A) : outcome (list A) :=
  if decide (i < length l)%nat then Ok (<[i := x]> l) else Panic "index out of range".

(** [as.set[index] = true; as.changed = true] *)
Definition mark (st : AggState) (index : nat) : outcome AggState :=
  set ← store (as_set st) index true;
  Ok (MkAggState (as_state st) (as_strState st) (as_null st) (as_decimalState st) set true (as_size st)).

Definition SetNull (st : AggState) (index : nat) : outcome AggState :=
  st ← mark st index;
  null ← store (as_null st) index true;
  Ok (MkAggState (as_state st) (as_strState st) null (as_decimalState st) (as_set st) (as_changed st) (as_size st)).

Definition agg_IsNull (st : AggState) (i : nat) : outcome bool := index (as_null st) i.

(** The word at [index]. *)
Definition set_word (st : AggState) (index : nat) (w : Z) : outcome AggState :=
  st ← mark st index;
  words ← store (as_state st) index w;
  Ok (MkAggState words (as_strState st) (as_null st) (as_decimalState st) (as_set st) (as_changed st) (as_size st)).

Definition SetInt64 (st : AggState) (index : nat) (val : Z) : outcome AggState := set_word st index (u64 val).
Definition agg_GetInt64 (st : AggState) (i : nat) : outcome Z := w ← index (as_state st) i; Ok (i64 w).

Definition SetFloat64 (st : AggState) (index : nat) (val : float64) : outcome AggState := set_word st index (Float64bits val).
Definition agg_GetFloat64 (st : AggState) (i : nat) : outcome float64 := w ← index (as_state st) i; Ok (Float64frombits w).

Definition SetString (st : AggState) (index : nat) (val : bytes) : outcome AggState :=
  st ← mark st index;
  strs ← store (default (replicate (as_size st) []) (as_strState st)) index val;
  Ok (MkAggState (as_state st) (Some strs) (as_null st) (as_decimalState st) (as_set st) (as_changed st) (as_size st)).
Definition agg_GetString (st : AggState) (i : nat) : outcome bytes :=
  match as_strState st with None => Ok [] | Some strs => index strs i end.

Definition SetDecimal (st : AggState) (index : nat) (val : Decimal) : outcome AggState :=
  st ← mark st index;
  decs ← store (default (replicate (as_size st) None) (as_decimalState st)) index (Some val);
  Ok (MkAggState (as_state st) (as_strState st) (as_null st) (Some decs) (as_set st) (as_changed st) (as_size st)).
Definition agg_GetDecimal (st : AggState) (i : nat) : outcome (option Decimal) :=
  match as_decimalState st with None => Ok (Some zeroMyDecimal) | Some decs => index decs i end.

Definition SetTimestamp (st : AggState) (index : nat) (val : Timestamp) : outcome AggState :=
  st ← mark st index;
  packed ← ToPackedUint val;
  SetInt64 st index (i64 packed).
Definition agg_GetTimestamp (st : AggState) (i : nat) : outcome Timestamp :=
  packed ← agg_GetInt64 st i;
  FromPackedUint (MkTime 0) (u64 packed).

Definition IsSet (st : AggState) (i : nat) : outcome bool := index (as_set st) i.
Definition IsChanged (st : AggState) : bool := as_changed st.

(** A use of the decimal. *)
Definition deref {A} (d : option A) : outcome A := match d with Some d => Ok d | None => Panic "nil pointer dereference" end.

(** ** The functions *)

Inductive AggFunctionType := SumAggregateFunctionType | CountAggregateFunctionType | FirstRowAggregateFunctionType.

Record AggregateFunction := MkAggregateFunction {
  af_type : AggFunctionType;
  af_argExpression : Expression;
  af_valueType : ColumnType
}.

Definition NewAggregateFunction (argExpression : Expression) (funcType : AggFunctionType) (valueType : ColumnType) : AggregateFunction :=
  MkAggregateFunction funcType argExpression valueType.

Definition should_not_be_called {A} : outcome A := Panic "should not be called".

(** FIRST_ROW: the first value is kept. *)
Definition firstRow {A} (setter : AggState → nat → A → outcome AggState) (value : option A) (st : AggState) (index : nat) : outcome AggState :=
  isSet ← IsSet st index;
  if (isSet : bool) then Ok st
  else match value with None => SetNull st index | Some v => setter st index v end.

(** A value of [None] is null. *)
Definition agg_EvalInt64 (f : AggregateFunction) (value : option Z) (st : AggState) (index : nat) (reverse : bool) : outcome AggState :=
  match af_type f with
  | SumAggregateFunctionType => should_not_be_called
  | CountAggregateFunctionType =>
      match value with
      | None => Ok st
      | Some _ =>
          currVal ← agg_GetInt64 st index;
          SetInt64 st index (i64 (if reverse then currVal - 1 else currVal + 1))
      end
  | FirstRowAggregateFunctionType => firstRow SetInt64 value st index
  end.

Definition agg_EvalFloat64 (f : AggregateFunction) (value : option float64) (st : AggState) (index : nat) (reverse : bool) : outcome AggState :=
  match af_type f with
  | SumAggregateFunctionType =>
      match value with
      | None => Ok st
      | Some v =>
          currVal ← agg_GetFloat64 st index;
          newVal ← (if reverse then float_sub currVal v else float_add currVal v);
          SetFloat64 st index newVal
      end
  | CountAggregateFunctionType => should_not_be_called
  | FirstRowAggregateFunctionType => firstRow SetFloat64 value st index
  end.

Definition agg_EvalString (f : AggregateFunction) (value : option bytes) (st : AggState) (index : nat) (reverse : bool) : outcome AggState :=
  match af_type f with
  | SumAggregateFunctionType | CountAggregateFunctionType => should_not_be_called
  | FirstRowAggregateFunctionType => firstRow SetString value st index
  end.

Definition agg_EvalTimestamp (f : AggregateFunction) (value : option Timestamp) (st : AggState) (index : nat) (reverse : bool) : outcome AggState :=
  match af_type f with
  | SumAggregateFunctionType | CountAggregateFunctionType => should_not_be_called
  | FirstRowAggregateFunctionType => firstRow SetTimestamp value st index
  end.

Definition agg_EvalDecimal (f : AggregateFunction) (value : option Decimal) (st : AggState) (index : nat) (reverse : bool) : outcome AggState :=
  match af_type f with
  | SumAggregateFunctionType =>
      match value with
      | None => Ok st
      | Some v =>
          currVal ← agg_GetDecimal st index;
          currVal ← deref currVal;
          newVal ← (if reverse then Subtract currVal v else Add currVal v);
          SetDecimal st index newVal
      end
  | CountAggregateFunctionType => should_not_be_called
  | FirstRowAggregateFunctionType => firstRow SetDecimal value st index
  end.

(** * Properties *)

Definition no_expression : Expression := MkExpression ExprOther None (λ _, Undef) (λ _, Undef) (λ _, Undef) (λ _, Undef) (λ _, Undef).

(** Two sums of decimals cannot be kept in one group: the first sum to get a value makes
    the list of decimals, in which the other sum has a nil pointer, and the first value of
    the other sum panics. *)
Theorem second_decimal_sum_panics (f g : AggregateFunction) (n i j : nat) (v w : Decimal) (st : AggState) :
  af_type f = SumAggregateFunctionType → af_type g = SumAggregateFunctionType → (i < n)%nat → (j < n)%nat → i ≠ j →
  agg_EvalDecimal f (Some v) (NewAggState n) i false = Ok st →
  agg_EvalDecimal g (Some w) st j false = Panic "nil pointer dereference".
Proof.
  intros Hf Hg Hi Hj Hij. unfold agg_EvalDecimal. rewrite Hf, Hg. unfold agg_GetDecimal. cbn [as_decimalState NewAggState]. osimpl.
  change (deref (Some zeroMyDecimal)) with (Ok zeroMyDecimal). osimpl.
  destruct (Add zeroMyDecimal v) as [r| | |]; try done. osimpl. unfold SetDecimal, mark, store. cbn [as_set as_decimalState as_size NewAggState default].
  rewrite length_replicate, decide_True by done. osimpl. cbn [as_decimalState as_size default]. rewrite length_replicate, decide_True by done. osimpl.
  intros [= <-]. cbn [as_decimalState].
  rewrite (index_ok _ _ None) by (rewrite list_lookup_insert_ne by done; by apply lookup_replicate_2). done.
Qed.

(** A sum of doubles that takes values back can be wrong: 10^16, 1, and 10^16 taken
    back leave 0, not 1. *)
Theorem double_sum_forgets :
  (let f := MkAggregateFunction SumAggregateFunctionType no_expression DoubleColumnType in
   let big := Float64frombits 4846369599423283200 in
   let one := Float64frombits 4607182418800017408 in
   st ← agg_EvalFloat64 f (Some big) (NewAggState 1) 0 false;
   st ← agg_EvalFloat64 f (Some one) st 0 false;
   st ← agg_EvalFloat64 f (Some big) st 0 true;
   agg_GetFloat64 st 0) = Ok (Float64frombits 0).
Proof. vm_compute. reflexivity. Qed.

Lemma second_decimal_sum_panics_witness :
  ∃ st, agg_EvalDecimal (MkAggregateFunction SumAggregateFunctionType no_expression (NewDecimalColumnType 20 5)) (Some dec_1234567890_1234) (NewAggState 2) 0 false = Ok st ∧
    agg_EvalDecimal (MkAggregateFunction SumAggregateFunctionType no_expression (NewDecimalColumnType 20 5)) (Some dec_1234567890_1234) st 1 false =
      Panic "nil pointer dereference".
Proof.
  eexists. split; [vm_compute; reflexivity|].
  apply (second_decimal_sum_panics (MkAggregateFunction SumAggregateFunctionType no_expression (NewDecimalColumnType 20 5)) _ 2 0 1 dec_1234567890_1234);
    [reflexivity|reflexivity|lia|lia|lia|vm_compute; reflexivity].
Defined.
