(* ===== verification/Aggregator.v ===== *)
(** * The aggregator

    src/push/exec/aggregator.go. A change of the aggregated rows is forwarded to the shard
    of its group ([agg_HandleRows]); there the states of the groups of a batch of changes
    are loaded from the aggregate table, updated, stored, and the changed results handed on
    ([HandleRemoteRows]). *)

From stdpp Require Import base list list_numbers strings gmap sorting.
From Stdlib Require Import ZArith Lia.
From S2P Require Import Prelude Encoding Timestamp Decimal Rows KeyEncoding RowEncoding Store WriteBatch Table PullExec RowsBatch PushExec Sharder AggFuncs.

Record aggStateHolder := MkHolder {
  ah_aggState : AggState;
  ah_keyBytes : bytes;
  ah_initialRow : option Row;
  ah_row : option Row
}.

(** [ag_childColTypes]: the types of the child's rows. [ag_rangeOrder]: the order in which a
    loop visits the states of a batch. *)
Record Aggregator := MkAggregator {
  ag_colTypes : list ColumnType;
  ag_aggFuncs : list AggregateFunction;
  ag_tableID : Z;
  ag_groupByCols : list nat;
  ag_childColTypes : list ColumnType;
  ag_sharder : Sharder;
  ag_soloAggShard : Z;
  ag_rangeOrder : gmap bytes aggStateHolder → list bytes
}.

Record AggregateFunctionInfo := MkAggregateFunctionInfo {
  afi_FuncType : AggFunctionType;
  afi_ArgExpr : Expression;
  afi_ReturnType : ColumnType
}.

Definition createAggFunctions (infos : list AggregateFunctionInfo) : list AggregateFunction :=
  map (λ info, NewAggregateFunction (afi_ArgExpr info) (afi_FuncType info) (afi_ReturnType info)) infos.

(** Without columns to group by, the one group is on the shard of the table's name. *)
Definition NewAggregator (aggFunctions : list AggregateFunctionInfo) (tableID : Z) (schemaName name : bytes) (groupByCols : list nat)
    (childColTypes : list ColumnType) (shrdr : Sharder) (rangeOrder : gmap bytes aggStateHolder → list bytes) : outcome Aggregator :=
  soloAggShard ← (if (length groupByCols =? 0)%nat then
                    remoteShardID ← CalculateShard shrdr ShardTypeHash (schemaName ++ lit "." ++ name); Ok (i64 remoteShardID)
                  else Ok (-1));
  Ok (MkAggregator (map afi_ReturnType aggFunctions) (createAggFunctions aggFunctions) tableID groupByCols childColTypes shrdr soloAggShard rangeOrder).

(** ** Forwarding *)

Definition encodeOptional (colTypes : list ColumnType) (row : option Row) : outcome bytes :=
  match row with Some row => EncodeRow row colTypes [] | None => Ok [] end.

Definition rowOf (prevRow currRow : option Row) : outcome Row :=
  match currRow, prevRow with
  | Some row, _ => Ok row
  | None, Some row => Ok row
  | None, None => Panic "nil pointer dereference"
  end.

Definition groupShard (a : Aggregator) (prevRow currRow : option Row) : outcome Z :=
  if negb (ag_soloAggShard a =? -1) then Ok (u64 (ag_soloAggShard a))
  else
    row ← rowOf prevRow currRow;
    keyBytes ← EncodeKeyCols row (ag_groupByCols a) (ag_childColTypes a) [];
    CalculateShard (ag_sharder a) ShardTypeHash keyBytes.

Definition forward_entry (a : Aggregator) (ctx : ExecutionContext) (prevRow currRow : option Row) (receiverSeq : Z) : outcome ExecutionContext :=
  remoteShardID ← groupShard a prevRow currRow;
  prevRowBytes ← encodeOptional (ag_childColTypes a) prevRow;
  currRowBytes ← encodeOptional (ag_childColTypes a) currRow;
  if receiverSeq =? 0 then Panic "undefined receiver sequence in attempting to forward aggregation"
  else
    let origTableID := if negb (ctx_FillTableID ctx =? -1) then u64 (ctx_FillTableID ctx) else ag_tableID a in
    let forwardKey := EncodeKeyForForwardAggregation origTableID (wb_ShardID (ctx_WriteBatch ctx)) (u64 receiverSeq) (ag_tableID a) in
    Ok (AddToForwardBatch ctx remoteShardID forwardKey (EncodePrevAndCurrentRow prevRowBytes currRowBytes)).

Definition agg_HandleRows (a : Aggregator) : Handler :=
  λ rowsBatch ctx, forEntries rowsBatch (forward_entry a) ctx.

(** ** Evaluating the functions *)

Definition evaluateAggFunction (row : Row) (reverse : bool) (i : nat) (st : AggState) (f : AggregateFunction) : outcome AggState :=
  let e := af_argExpression f in
  match Type' (af_valueType f) with
  | TypeTinyInt | TypeInt | TypeBigInt => arg ← EvalInt e row; agg_EvalInt64 f arg st i reverse
  | TypeDecimal => arg ← EvalDec e row; agg_EvalDecimal f arg st i reverse
  | TypeDouble => arg ← EvalReal e row; agg_EvalFloat64 f arg st i reverse
  | TypeVarchar => arg ← EvalStr e row; agg_EvalString f arg st i reverse
  | TypeTimestamp => arg ← EvalTime e row; agg_EvalTimestamp f arg st i reverse
  | TypeUnknown => Err "unexpected column type"
  end.

Definition evaluateAggFunctions (a : Aggregator) (st : AggState) (row : Row) (reverse : bool) : outcome AggState :=
  foldMi (evaluateAggFunction row reverse) 0 st (ag_aggFuncs a).

(** ** Loading and storing *)

Definition initCell (row : Row) (i : nat) (st : AggState) (colType : ColumnType) : outcome AggState :=
  null ← IsNull row i;
  if (null : bool) then SetNull st i
  else
    match Type' colType with
    | TypeTinyInt | TypeInt | TypeBigInt => v ← GetInt64 row i; SetInt64 st i v
    | TypeDecimal => v ← GetDecimal row i; SetDecimal st i v
    | TypeDouble => v ← GetFloat64 row i; SetFloat64 st i v
    | TypeVarchar => v ← GetString row i; SetString st i v
    | TypeTimestamp => v ← GetTimestamp row i; SetTimestamp st i v
    | TypeUnknown => Err "unexpected column type"
    end.

Definition initAggStateWithRow (a : Aggregator) (row : Row) (st : AggState) : outcome AggState := foldMi (initCell row) 0 st (ag_colTypes a).

(** The holder of the group, from this batch or made from what is stored. *)
Definition loadAggregateState (a : Aggregator) (ctx : ExecutionContext) (keyBytes : bytes) (readRows : Rows) (holders : gmap bytes aggStateHolder) :
    outcome (Rows * aggStateHolder) :=
  match holders !! keyBytes with
  | Some stateHolder => Ok (readRows, stateHolder)
  | None =>
      rowBytes ← ctx_RowCache ctx keyBytes;
      match rowBytes with
      | None => Ok (readRows, MkHolder (NewAggState (length (ag_colTypes a))) keyBytes None None)
      | Some rowBytes =>
          readRows ← DecodeRow rowBytes (ag_colTypes a) readRows;
          currRow ← GetRow readRows (RowCount readRows - 1);
          aggState ← initAggStateWithRow a currRow (NewAggState (length (ag_colTypes a)));
          Ok (readRows, MkHolder aggState keyBytes (Some currRow) None)
      end
  end.

Definition createKeyFromPrevOrCurrRow (a : Aggregator) (prevRow currRow : option Row) (shardID : Z) : outcome bytes :=
  row ← rowOf prevRow currRow;
  EncodeKeyCols row (ag_groupByCols a) (ag_childColTypes a) (EncodeTableKeyPrefix (ag_tableID a) shardID).

Definition with_aggState (h : aggStateHolder) (st : AggState) : aggStateHolder := MkHolder st (ah_keyBytes h) (ah_initialRow h) (ah_row h).

Definition evaluateOptional (a : Aggregator) (st : AggState) (row : option Row) (reverse : bool) : outcome AggState :=
  match row with Some row => evaluateAggFunctions a st row reverse | None => Ok st end.

Definition calcAggregations (a : Aggregator) (ctx : ExecutionContext) (acc : Rows * gmap bytes aggStateHolder) (prevRow currRow : option Row) :
    outcome (Rows * gmap bytes aggStateHolder) :=
  let '(readRows, holders) := acc in
  keyBytes ← createKeyFromPrevOrCurrRow a prevRow currRow (wb_ShardID (ctx_WriteBatch ctx));
  '(readRows, stateHolder) ← loadAggregateState a ctx keyBytes readRows holders;
  st ← evaluateOptional a (ah_aggState stateHolder) prevRow true;
  st ← evaluateOptional a st currRow false;
  Ok (readRows, <[keyBytes := with_aggState stateHolder st]> holders).

(** A column of the result. *)
Definition resultCell (st : AggState) (colType : ColumnType) (i : nat) : outcome (option value) :=
  null ← agg_IsNull st i;
  if (null : bool) then Ok None
  else
    match Type' colType with
    | TypeTinyInt | TypeInt | TypeBigInt => v ← agg_GetInt64 st i; Ok (Some (VInt v))
    | TypeDecimal => v ← agg_GetDecimal st i; v ← deref v; Ok (Some (VDecimal v))
    | TypeDouble => v ← agg_GetFloat64 st i; Ok (Some (VFloat v))
    | TypeVarchar => v ← agg_GetString st i; Ok (Some (VString v))
    | TypeTimestamp => v ← agg_GetTimestamp st i; Ok (Some (VTimestamp v))
    | TypeUnknown => Err "unexpected column type"
    end.

Definition resultRow (a : Aggregator) (st : AggState) (resultRows : Rows) : outcome Rows :=
  foldMi (λ i rows colType, c ← resultCell st colType i; appendToColumn rows i c) 0 resultRows (ag_colTypes a).

Definition storeAggregateResult (a : Aggregator) (acc : Rows * nat * gmap bytes aggStateHolder * WriteBatch) (key : bytes) :
    outcome (Rows * nat * gmap bytes aggStateHolder * WriteBatch) :=
  let '(resultRows, rowCount, holders, wb) := acc in
  match holders !! key with
  | None => Ok acc
  | Some h =>
      if IsChanged (ah_aggState h) then
        resultRows ← resultRow a (ah_aggState h) resultRows;
        row ← GetRow resultRows rowCount;
        valueBuff ← EncodeRow row (ag_colTypes a) [];
        Ok (resultRows, S rowCount, <[key := MkHolder (ah_aggState h) (ah_keyBytes h) (ah_initialRow h) (Some row)]> holders,
            AddPut wb (ah_keyBytes h) valueBuff)
      else Ok acc
  end.

Definition storeAggregateResults (a : Aggregator) (holders : gmap bytes aggStateHolder) (wb : WriteBatch) :
    outcome (gmap bytes aggStateHolder * WriteBatch) :=
  '(_, _, holders, wb) ← foldM (storeAggregateResult a) (NewRows (ag_colTypes a), 0%nat, holders, wb) (ag_rangeOrder a holders);
  Ok (holders, wb).

(** The result of a group before and after, if it has changed. *)
Definition sendResult (holders : gmap bytes aggStateHolder) (acc : Rows * Z * list RowsEntry) (key : bytes) : outcome (Rows * Z * list RowsEntry) :=
  match holders !! key with
  | None => Ok acc
  | Some h => if IsChanged (ah_aggState h) then mapEntry (λ row rows, AppendRow rows row) acc (ah_initialRow h) (ah_row h) (-1) else Ok acc
  end.

Definition HandleRemoteRows (a : Aggregator) (parent : Handler) : Handler :=
  λ rowsBatch ctx,
    '(_, holders) ← forEntries rowsBatch (λ acc prevRow currentRow _, calcAggregations a ctx acc prevRow currentRow) (NewRows (ag_colTypes a), ∅);
    '(holders, wb) ← storeAggregateResults a holders (ctx_WriteBatch ctx);
    '(resultRows, _, entries) ← foldM (sendResult holders) (NewRows (ag_colTypes a), 0, []) (ag_rangeOrder a holders);
    parent (NewRowsBatch resultRows entries) (with_WriteBatch ctx wb).
