(* ===== verification/AggregatorProps.v ===== *)
(** * Aggregates follow the rows

    The aggregate table of [Aggregator] has, for every group, the counts and the group's
    columns of the rows of the group. A batch of changes, none of which moves a row to
    another group, leaves exactly the aggregates of the changed rows, in the table and in
    what is handed to the parent. *)

From stdpp Require Import base list list_numbers strings gmap sorting.
From Stdlib Require Import ZArith Lia.
From S2P Require Import Prelude Encoding Timestamp Decimal Rows KeyEncoding RowEncoding Store WriteBatch Table LocalStore PullExec PullScan RowsBatch PushExec TableExec Views Sharder AggFuncs Aggregator.

(** ** The columns of a state *)

(** Types that are stored and read back as they are. *)
Definition plain (ct : ColumnType) : Prop :=
  match Type' ct with TypeTinyInt | TypeInt | TypeBigInt | TypeDouble | TypeVarchar => True | _ => False end.

Record agg_wf (n : nat) (st : AggState) : Prop := {
  wf_state : length (as_state st) = n;
  wf_null : length (as_null st) = n;
  wf_set : length (as_set st) = n;
  wf_size : as_size st = n;
  wf_str strs : as_strState st = Some strs → length strs = n
}.

(** What a step on column [i] leaves alone. *)
Definition frame (i : nat) (st st' : AggState) : Prop :=
  (∀ j, j ≠ i → as_set st' !! j = as_set st !! j ∧ as_null st' !! j = as_null st !! j ∧ ∀ ct, plain ct → resultCell st' ct j = resultCell st ct j) ∧
  (as_changed st = true → as_changed st' = true).

Lemma store_ok {A} (l : list A) i x : (i < length l)%nat → store l i x = Ok (<[i := x]> l).
Proof. intros Hi. unfold store. by rewrite decide_True. Qed.

Lemma index_insert {A} (l : list A) i x : (i < length l)%nat → index (<[i := x]> l) i = Ok x.
Proof. intros Hi. apply index_ok. by apply list_lookup_insert_eq. Qed.

Lemma index_insert_ne {A} (l : list A) i j x : j ≠ i → index (<[i := x]> l) j = index l j.
Proof. intros Hj. unfold index. by rewrite list_lookup_insert_ne. Qed.

(** A cell is set. *)
Definition cell_set (n i : nat) (st : AggState) (r : outcome AggState) (Q : AggState → Prop) : Prop :=
  ∃ st', r = Ok st' ∧ agg_wf n st' ∧ frame i st st' ∧ as_changed st' = true ∧ as_set st' !! i = Some true ∧ Q st'.

Section setters.
Context (n i : nat) (st : AggState) (Hwf : agg_wf n st) (Hi : (i < n)%nat).

Lemma mark_eq : mark st i = Ok (MkAggState (as_state st) (as_strState st) (as_null st) (as_decimalState st) (<[i := true]> (as_set st)) true (as_size st)).
Proof using All. unfold mark. rewrite store_ok; [done|]. by rewrite (wf_set _ _ Hwf). Qed.

Lemma SetNull_ok : cell_set n i st (SetNull st i) (λ st', ∀ ct, resultCell st' ct i = Ok None).
Proof using All.
  destruct Hwf as [W1 W2 W3 W4 W5]. unfold SetNull. rewrite mark_eq. osimpl. rewrite store_ok by (cbn; lia). osimpl. eexists. split; [done|].
  split; [by split; cbn; rewrite ?length_insert|]. split_and!.
  - split; [|done]. intros j Hj. cbn. rewrite !list_lookup_insert_ne by done. split_and!; [done..|]. intros ct _. unfold resultCell, agg_IsNull. cbn. by rewrite index_insert_ne.
  - done.
  - cbn. apply list_lookup_insert_eq. lia.
  - intros ct. unfold resultCell, agg_IsNull. cbn. by rewrite index_insert by lia.
Qed.

Lemma set_word_ok w : as_null st !! i = Some false →
  cell_set n i st (set_word st i w) (λ st', (∀ ct, Type' ct ∈ [TypeTinyInt; TypeInt; TypeBigInt] → resultCell st' ct i = Ok (Some (VInt (i64 w)))) ∧
    (∀ ct, Type' ct = TypeDouble → resultCell st' ct i = Ok (Some (VFloat (Float64frombits w))))).
Proof using All.
  intros Hnull. destruct Hwf as [W1 W2 W3 W4 W5]. unfold set_word. rewrite mark_eq. osimpl. rewrite store_ok by (cbn; lia). osimpl. eexists. split; [done|].
  split; [by split; cbn; rewrite ?length_insert|]. split_and!.
  - split; [|done]. intros j Hj. cbn. rewrite !list_lookup_insert_ne by done. split_and!; [done..|]. intros ct Hct.
    unfold resultCell, agg_IsNull, agg_GetInt64, agg_GetFloat64, agg_GetString, plain in *. cbn. destruct (Type' ct); try done; by rewrite index_insert_ne.
  - done.
  - cbn. apply list_lookup_insert_eq. lia.
  - intros ct Hct. unfold resultCell, agg_IsNull, agg_GetInt64. cbn. rewrite (index_ok _ _ _ Hnull). osimpl. rewrite index_insert by lia.
    rewrite !elem_of_cons, elem_of_nil in Hct. destruct Hct as [->|[->|[->|[]]]]; done.
  - intros ct Hct. unfold resultCell, agg_IsNull, agg_GetFloat64. cbn. rewrite (index_ok _ _ _ Hnull). osimpl. rewrite Hct, index_insert by lia. done.
Qed.

Lemma SetString_ok v : as_null st !! i = Some false →
  cell_set n i st (SetString st i v) (λ st', ∀ ct, Type' ct = TypeVarchar → resultCell st' ct i = Ok (Some (VString v))).
Proof using All.
  intros Hnull. destruct Hwf as [W1 W2 W3 W4 W5]. unfold SetString. rewrite mark_eq. osimpl. cbn [as_size as_strState].
  set (strs := default (replicate (as_size st) []) (as_strState st)).
  assert (Hl : length strs = n) by (unfold strs; destruct (as_strState st) as [l|] eqn:E; simpl; [by apply W5|by rewrite length_replicate]).
  rewrite store_ok by lia. osimpl. eexists. split; [done|]. split; [split; cbn; rewrite ?length_insert; try done; by intros l [= <-]; rewrite length_insert|]. split_and!.
  - split; [|done]. intros j Hj. cbn. rewrite !list_lookup_insert_ne by done. split_and!; [done..|]. intros ct Hct.
    unfold resultCell, agg_IsNull, agg_GetInt64, agg_GetFloat64, agg_GetString, plain in *. cbn. destruct (Type' ct); try done. rewrite index_insert_ne by done.
    unfold strs. destruct (as_strState st) as [l|]; [done|]. simpl. destruct (index (as_null st) j) as [[]| | |] eqn:En; try done. osimpl.
    unfold index in *. destruct (as_null st !! j) eqn:Ej; [|done]. apply lookup_lt_Some in Ej. rewrite lookup_replicate_2 by lia. done.
  - done.
  - cbn. apply list_lookup_insert_eq. lia.
  - intros ct Hct. unfold resultCell, agg_IsNull, agg_GetString. cbn. rewrite (index_ok _ _ _ Hnull). osimpl. rewrite Hct, index_insert by lia. done.
Qed.
End setters.

(** ** A loop over the columns *)

Definition framed (P : nat → AggState → Prop) : Prop := ∀ i j st st', i ≠ j → frame j st st' → P i st → P i st'.

Lemma frame_null i j st st' : i ≠ j → frame j st st' → as_null st' !! i = as_null st !! i.
Proof. intros Hij [Hf _]. by destruct (Hf i Hij) as (_ & ? & _). Qed.
Lemma frame_set i j st st' : i ≠ j → frame j st st' → as_set st' !! i = as_set st !! i.
Proof. intros Hij [Hf _]. by destruct (Hf i Hij) as (? & _ & _). Qed.
Lemma frame_cell i j st st' ct : i ≠ j → frame j st st' → plain ct → resultCell st' ct i = resultCell st ct i.
Proof. intros Hij [Hf _]. destruct (Hf i Hij) as (_ & _ & ?). auto. Qed.

(** Each step takes its column from [Pre] to [Post], and leaves the others alone. *)
Lemma columns_loop {A} (step : nat → AggState → A → outcome AggState) (Pre Post : nat → A → AggState → Prop) n l : ∀ k st,
  (∀ x, framed (λ i, Pre i x)) → (∀ x, framed (λ i, Post i x)) →
  (∀ i x st, l !! i = Some x → agg_wf n st → Pre (k + i)%nat x st → ∃ st', step (k + i)%nat st x = Ok st' ∧ agg_wf n st' ∧ frame (k + i) st st' ∧ Post (k + i)%nat x st') →
  agg_wf n st → (∀ i x, l !! i = Some x → Pre (k + i)%nat x st) →
  ∃ st', foldMi step k st l = Ok st' ∧ agg_wf n st' ∧ (∀ i x, l !! i = Some x → Post (k + i)%nat x st') ∧ (as_changed st = true → as_changed st' = true) ∧
    ∀ P j, framed P → (j < k)%nat → P j st → P j st'.
Proof.
  induction l as [|x l IH]; intros k st HfPre HfPost Hstep Hwf Hpre; cbn [foldMi].
  { exists st. by split_and!. }
  destruct (Hstep 0%nat x st eq_refl Hwf (Hpre 0%nat x eq_refl)) as (st1 & Hs & Hwf1 & Hfr1 & Hpost1). rewrite Nat.add_0_r in Hs, Hfr1, Hpost1. rewrite Hs. osimpl.
  destruct (IH (S k) st1 HfPre HfPost) as (st2 & -> & Hwf2 & Hpost2 & Hch2 & Hkeep2).
  - intros i y st' Hi. replace (S k + i)%nat with (k + S i)%nat by lia. by apply Hstep.
  - done.
  - intros i y Hi. replace (S k + i)%nat with (k + S i)%nat by lia. eapply HfPre; [|exact Hfr1|by apply (Hpre (S i))]. lia.
  - exists st2. split_and!; [done|done| |intros ?; apply Hch2; by apply Hfr1|].
    + intros [|i] y Hi; simplify_eq/=; [rewrite Nat.add_0_r; apply (Hkeep2 (λ j, Post j y)); [done|lia|done]|]. rewrite Nat.add_succ_r. by apply (Hpost2 i).
    + intros P j HP Hj Hpj. apply Hkeep2; [done|lia|]. eapply HP; [|exact Hfr1|done]. lia.
Qed.

(** ** What the aggregates of a group are *)

Section groups.
Context (a : Aggregator) (shardID : Z).

(** The key of the group of a row. *)
Definition gkey (row : Row) : bytes :=
  match EncodeKeyCols row (ag_groupByCols a) (ag_childColTypes a) (EncodeTableKeyPrefix (ag_tableID a) shardID) with Ok k => k | _ => [] end.

Definition group (M : list Row) (k : bytes) : list Row := filter (λ row, gkey row = k) M.

(** The value a FIRST_ROW has in a group: a column to group by, for one. *)
Context (firstv : AggregateFunction → bytes → option value).

Definition counted (f : AggregateFunction) (row : Row) : Z := match EvalInt (af_argExpression f) row with Ok (Some _) => 1 | _ => 0 end.
Definition count (f : AggregateFunction) (rows : list Row) : Z := foldr (λ row n, counted f row + n) 0 rows.

Definition agg_cell (f : AggregateFunction) (k : bytes) (rows : list Row) : option value :=
  match af_type f with
  | CountAggregateFunctionType => Some (VInt (i64 (count f rows)))
  | FirstRowAggregateFunctionType => firstv f k
  | SumAggregateFunctionType => None
  end.
Definition agg_row (k : bytes) (rows : list Row) : Row := map (λ f, agg_cell f k rows) (ag_aggFuncs a).

(** Counts, and first rows of a plain type; at least one of these. *)
Record agg_funcs_ok : Prop := {
  fo_types : ag_colTypes a = map af_valueType (ag_aggFuncs a);
  fo_func f : f ∈ ag_aggFuncs a →
    match af_type f with
    | CountAggregateFunctionType => Type' (af_valueType f) ∈ [TypeTinyInt; TypeInt; TypeBigInt]
    | FirstRowAggregateFunctionType => plain (af_valueType f)
    | SumAggregateFunctionType => False
    end;
  fo_first : ∃ f, f ∈ ag_aggFuncs a ∧ af_type f = FirstRowAggregateFunctionType
}.

(** A row whose group key and arguments can be evaluated. *)
Definition arg_ok (row : Row) (f : AggregateFunction) : Prop :=
  match af_type f with
  | CountAggregateFunctionType => ∃ v, EvalInt (af_argExpression f) row = Ok v
  | FirstRowAggregateFunctionType =>
      evalColumn (af_argExpression f) (af_valueType f) row = Ok (firstv f (gkey row)) ∧ row_cell_ok (af_valueType f) (firstv f (gkey row))
  | SumAggregateFunctionType => False
  end.
Definition groupable (row : Row) : Prop :=
  EncodeKeyCols row (ag_groupByCols a) (ag_childColTypes a) (EncodeTableKeyPrefix (ag_tableID a) shardID) = Ok (gkey row) ∧
  EncodeTableKeyPrefix (ag_tableID a) shardID `prefix_of` gkey row ∧ Forall (arg_ok row) (ag_aggFuncs a).

(** ** The state of a group *)

(** The column of [f] is right for the group [k] with the counts [z]; unless it must be, a
    first row may not have been set yet. *)
Definition col_ok (must : bool) (k : bytes) (z : AggregateFunction → Z) (i : nat) (f : AggregateFunction) (st : AggState) : Prop :=
  plain (af_valueType f) ∧
  match af_type f with
  | CountAggregateFunctionType => resultCell st (af_valueType f) i = Ok (Some (VInt (i64 (z f))))
  | FirstRowAggregateFunctionType =>
      as_set st !! i = Some true ∧ resultCell st (af_valueType f) i = Ok (firstv f k) ∧ as_changed st = true ∨
      must = false ∧ as_set st !! i = Some false ∧ as_null st !! i = Some false
  | SumAggregateFunctionType => False
  end.

Definition state_ok (must : bool) (k : bytes) (z : AggregateFunction → Z) (st : AggState) : Prop :=
  agg_wf (length (ag_colTypes a)) st ∧ ∀ i f, ag_aggFuncs a !! i = Some f → col_ok must k z i f st.

Lemma col_ok_framed must k z f : framed (λ i, col_ok must k z i f).
Proof using Type.
  intros i j st st' Hij Hfr [Hp Hc]. split; [done|]. unfold frame in Hfr. destruct (af_type f); [done|..].
  - by rewrite (frame_cell _ _ _ _ _ Hij Hfr Hp).
  - rewrite (frame_cell _ _ _ _ _ Hij Hfr Hp), (frame_set _ _ _ _ Hij Hfr), (frame_null _ _ _ _ Hij Hfr).
    destruct Hc as [(? & ? & ?)|?]; [left|by right]. split_and!; [done..|by apply Hfr].
Qed.

Context (Hfuncs : agg_funcs_ok).

Lemma func_plain f : f ∈ ag_aggFuncs a → plain (af_valueType f).
Proof using Hfuncs.
  intros Hf. pose proof (fo_func Hfuncs f Hf) as Ho. destruct (af_type f); [done| |done]. unfold plain.
  rewrite !elem_of_cons, elem_of_nil in Ho. by destruct Ho as [->|[->|[->|[]]]].
Qed.

Lemma ncols : length (ag_colTypes a) = length (ag_aggFuncs a).
Proof using Hfuncs. by rewrite (fo_types Hfuncs), length_map. Qed.

(** A state that a row has been evaluated on counts as changed. *)
Lemma state_changed k z st : state_ok true k z st → as_changed st = true.
Proof using Hfuncs.
  intros [_ Hst]. destruct (fo_first Hfuncs) as (f & [i Hi]%list_elem_of_lookup & Ht). destruct (Hst i f Hi) as [_ Hc]. rewrite Ht in Hc.
  by destruct Hc as [(_ & _ & ?)|[? _]].
Qed.

Lemma new_state k : state_ok false k (λ _, 0) (NewAggState (length (ag_colTypes a))).
Proof using Hfuncs.
  split; [split; cbn; by rewrite ?length_replicate|]. intros i f Hi. pose proof (lookup_lt_Some _ _ _ Hi) as Hlt. rewrite <- ncols in Hlt.
  pose proof (list_elem_of_lookup_2 _ _ _ Hi) as Hin. split; [by apply func_plain|]. pose proof (fo_func Hfuncs f Hin) as Ho.
  assert (Hrep : ∀ A (x : A), replicate (length (ag_colTypes a)) x !! i = Some x) by (intros; by apply lookup_replicate_2).
  destruct (af_type f); [done| |right; cbn; by rewrite !Hrep].
  unfold resultCell, agg_IsNull, agg_GetInt64. cbn. rewrite (index_ok _ _ _ (Hrep _ false)), (index_ok _ _ _ (Hrep _ 0)). osimpl.
  rewrite !elem_of_cons, elem_of_nil in Ho. by destruct Ho as [->|[->|[->|[]]]].
Qed.

(** ** A row is evaluated *)

Lemma first_ok i f st v row reverse : agg_wf (length (ag_colTypes a)) st → (i < length (ag_colTypes a))%nat → plain (af_valueType f) →
  af_type f = FirstRowAggregateFunctionType → as_set st !! i = Some false → as_null st !! i = Some false →
  evalColumn (af_argExpression f) (af_valueType f) row = Ok v → row_cell_ok (af_valueType f) v →
  cell_set (length (ag_colTypes a)) i st (evaluateAggFunction row reverse i st f) (λ st', resultCell st' (af_valueType f) i = Ok v).
Proof using Type.
  clear Hfuncs. intros Hwf Hi Hp Ht Hset Hnull Hev Hok. unfold evaluateAggFunction, evalColumn, plain in *.
  assert (Hfirst : ∀ A (setter : AggState → nat → A → outcome AggState) (o : option A) (inj : A → value), option_map inj o = v →
    (∀ x, v = Some (inj x) → cell_set (length (ag_colTypes a)) i st (setter st i x) (λ st', resultCell st' (af_valueType f) i = Ok v)) →
    cell_set (length (ag_colTypes a)) i st (firstRow setter o st i) (λ st', resultCell st' (af_valueType f) i = Ok v)).
  { intros A setter o inj Ho Hx. unfold firstRow, IsSet. rewrite (index_ok _ _ _ Hset). osimpl. destruct o as [x|]; simpl in Ho; subst v; [by apply Hx|].
    destruct (SetNull_ok _ _ _ Hwf Hi) as (st' & -> & ? & ? & ? & ? & Hr). by exists st'. }
  assert (Hword : ∀ w, cell_set (length (ag_colTypes a)) i st (set_word st i w) (λ st',
    (∀ ct, Type' ct ∈ [TypeTinyInt; TypeInt; TypeBigInt] → resultCell st' ct i = Ok (Some (VInt (i64 w)))) ∧
    (∀ ct, Type' ct = TypeDouble → resultCell st' ct i = Ok (Some (VFloat (Float64frombits w)))))) by (intros w; by apply set_word_ok).
  assert (Hint : ∀ x, v = Some (VInt x) → Type' (af_valueType f) ∈ [TypeTinyInt; TypeInt; TypeBigInt] → i64_ok x →
    cell_set (length (ag_colTypes a)) i st (SetInt64 st i x) (λ st', resultCell st' (af_valueType f) i = Ok v)).
  { intros x -> Hin Hx. destruct (Hword (u64 x)) as (st' & E & ? & ? & ? & ? & Hr & _). exists st'. split_and!; try done. by rewrite Hr, i64_u64. }
  destruct (Type' (af_valueType f)) eqn:Et; try done; unfold agg_EvalInt64, agg_EvalFloat64, agg_EvalString; rewrite Ht.
  1-3: destruct (EvalInt (af_argExpression f) row) as [o| | |]; try done; osimpl in Hev; osimpl; injection Hev as Hv; apply (Hfirst _ _ _ VInt Hv);
    intros x Hx; apply Hint; [done|by repeat constructor|]; rewrite Hx in Hok; simpl in Hok; unfold row_value_ok in Hok; by rewrite Et in Hok.
  - destruct (EvalReal (af_argExpression f) row) as [o| | |]; try done. osimpl in Hev. osimpl. injection Hev as Hv. apply (Hfirst _ _ _ VFloat Hv).
    intros x ->. destruct (Hword (Float64bits x)) as (st' & E & ? & ? & ? & ? & _ & Hr). exists st'. split_and!; try done. rewrite Hr by done. by destruct x.
  - destruct (EvalStr (af_argExpression f) row) as [o| | |]; try done. osimpl in Hev. osimpl. injection Hev as Hv. apply (Hfirst _ _ _ VString Hv).
    intros x ->. destruct (SetString_ok _ _ _ Hwf Hi x Hnull) as (st' & E & ? & ? & ? & ? & Hr). exists st'. split_and!; try done. by rewrite Hr.
Qed.

Lemma result_not_null st ct i v : resultCell st ct i = Ok (Some v) → as_null st !! i = Some false.
Proof using Type.
  unfold resultCell, agg_IsNull, index. destruct (as_null st !! i) as [[]|] eqn:E; [|done|]; osimpl; done.
Qed.

Lemma result_int st ct i v : Type' ct ∈ [TypeTinyInt; TypeInt; TypeBigInt] → resultCell st ct i = Ok (Some (VInt v)) → agg_GetInt64 st i = Ok v.
Proof using Type.
  intros Ht Hr. pose proof (result_not_null _ _ _ _ Hr) as Hn. unfold resultCell, agg_IsNull in Hr. rewrite (index_ok _ _ _ Hn) in Hr. osimpl in Hr.
  assert (E : (v ← agg_GetInt64 st i; Ok (Some (VInt v))) = Ok (Some (VInt v))) by (rewrite !elem_of_cons, elem_of_nil in Ht; by destruct Ht as [Ht|[Ht|[Ht|[]]]]; rewrite Ht in Hr).
  destruct (agg_GetInt64 st i); try done. osimpl in E. congruence.
Qed.

(** Taken back or added. *)
Definition signed (reverse : bool) (n : Z) : Z := if reverse then - n else n.

Lemma i64_add z d : i64 (i64 z + d) = i64 (z + d).
Proof using Type.
  clear. unfold i64. f_equal. replace ((z + two63) mod two64 - two63 + d + two63) with ((z + two63) mod two64 + d) by lia.
  rewrite Zplus_mod_idemp_l. f_equal. lia.
Qed.

Lemma i64_step (reverse : bool) z : i64 (u64 (i64 (if reverse then i64 z - 1 else i64 z + 1))) = i64 (z + signed reverse 1).
Proof using Type. clear. rewrite i64_u64 by apply i64_range. unfold signed. by destruct reverse; [rewrite <- Z.add_opp_r|]; rewrite i64_add. Qed.

Lemma count_ok i f st z row reverse v : agg_wf (length (ag_colTypes a)) st → (i < length (ag_colTypes a))%nat →
  af_type f = CountAggregateFunctionType → Type' (af_valueType f) ∈ [TypeTinyInt; TypeInt; TypeBigInt] →
  EvalInt (af_argExpression f) row = Ok v → resultCell st (af_valueType f) i = Ok (Some (VInt (i64 z))) →
  ∃ st', evaluateAggFunction row reverse i st f = Ok st' ∧ agg_wf (length (ag_colTypes a)) st' ∧ frame i st st' ∧
    resultCell st' (af_valueType f) i = Ok (Some (VInt (i64 (z + signed reverse (counted f row))))).
Proof using Type.
  clear Hfuncs. intros Hwf Hi Ht Hty Hev Hr. pose proof (result_int _ _ _ _ Hty Hr) as Hget. pose proof (result_not_null _ _ _ _ Hr) as Hnull.
  assert (E : evaluateAggFunction row reverse i st f = (arg ← EvalInt (af_argExpression f) row; agg_EvalInt64 f arg st i reverse)).
  { unfold evaluateAggFunction. rewrite !elem_of_cons, elem_of_nil in Hty. by destruct Hty as [->|[->|[->|[]]]]. }
  rewrite E, Hev. osimpl. unfold agg_EvalInt64, counted. rewrite Ht, Hev. destruct v as [x|].
  - rewrite Hget. osimpl. unfold SetInt64. destruct (set_word_ok _ _ _ Hwf Hi (u64 (i64 (if reverse then i64 z - 1 else i64 z + 1))) Hnull)
      as (st' & -> & ? & ? & ? & ? & Hc & _). exists st'. split_and!; try done. by rewrite Hc, i64_step.
  - exists st. split_and!; [done|done|by split|]. replace (z + signed reverse 0) with z by (unfold signed; destruct reverse; lia). done.
Qed.

Lemma eval_step must k z row reverse i f st : agg_wf (length (ag_colTypes a)) st → ag_aggFuncs a !! i = Some f → groupable row → gkey row = k →
  col_ok must k z i f st →
  ∃ st', evaluateAggFunction row reverse i st f = Ok st' ∧ agg_wf (length (ag_colTypes a)) st' ∧ frame i st st' ∧
    col_ok true k (λ f, z f + signed reverse (counted f row)) i f st'.
Proof using Hfuncs.
  intros Hwf Hi (_ & _ & Hargs) <- [Hp Hc]. pose proof (lookup_lt_Some _ _ _ Hi) as Hlt. rewrite <- ncols in Hlt.
  pose proof (list_elem_of_lookup_2 _ _ _ Hi) as Hin. pose proof (fo_func Hfuncs f Hin) as Ho. rewrite Forall_forall in Hargs. specialize (Hargs f Hin).
  unfold col_ok, arg_ok in *. destruct (af_type f) eqn:Ht; [done|..].
  - destruct Hargs as [v Hv]. destruct (count_ok i f st (z f) row reverse v) as (st' & ? & ? & ? & ?); try done. by exists st'.
  - destruct Hargs as [Hev Hok]. destruct Hc as [(Hset & Hr & Hch)|(_ & Hset & Hnull)].
    + exists st. split_and!; [|done|by split|done|by left]. unfold evaluateAggFunction, evalColumn, plain in *.
      destruct (Type' (af_valueType f)); try done; unfold agg_EvalInt64, agg_EvalFloat64, agg_EvalString, firstRow, IsSet; rewrite Ht, (index_ok _ _ _ Hset);
        [destruct (EvalInt _ row)|destruct (EvalInt _ row)|destruct (EvalInt _ row)|destruct (EvalReal _ row)|destruct (EvalStr _ row)]; by osimpl.
    + destruct (first_ok i f st (firstv f (gkey row)) row reverse) as (st' & ? & ? & ? & ? & ? & ?); try done. exists st'. split_and!; try done. by left.
Qed.

Lemma eval_ok must k z row reverse st : state_ok must k z st → groupable row → gkey row = k →
  ∃ st', evaluateAggFunctions a st row reverse = Ok st' ∧ state_ok true k (λ f, z f + signed reverse (counted f row)) st'.
Proof using Hfuncs.
  intros [Hwf Hst] Hg Hk. unfold evaluateAggFunctions.
  destruct (columns_loop (evaluateAggFunction row reverse) (λ i f, col_ok must k z i f) (λ i f, col_ok true k (λ f, z f + signed reverse (counted f row)) i f)
    (length (ag_colTypes a)) (ag_aggFuncs a) 0 st) as (st' & -> & Hwf' & Hpost & _); [intros f; apply col_ok_framed|intros f; apply col_ok_framed| |done|done|].
  - intros i f st0 Hi Hwf0 Hpre. by apply (eval_step must).
  - by exists st'.
Qed.

(** ** The row of a group is stored and read back *)

Lemma agg_row_ok row rows : groupable row → Forall2 row_cell_ok (ag_colTypes a) (agg_row (gkey row) rows).
Proof using Hfuncs.
  intros (_ & _ & Hargs). unfold agg_row. rewrite (fo_types Hfuncs). apply Forall2_fmap, Forall_Forall2_diag, Forall_forall. intros f Hin.
  pose proof (fo_func Hfuncs f Hin) as Ho. rewrite Forall_forall in Hargs. specialize (Hargs f Hin). unfold agg_cell, arg_ok in *.
  destruct (af_type f); [done| |by destruct Hargs]. simpl. unfold row_value_ok. pose proof (i64_range (count f rows)).
  rewrite !elem_of_cons, elem_of_nil in Ho. by destruct Ho as [->|[->|[->|[]]]].
Qed.

(** A column that has been set to the cell of the row. *)
Definition col_loaded (row : Row) (i : nat) (ct : ColumnType) (st : AggState) : Prop :=
  plain ct ∧ as_changed st = true ∧ as_set st !! i = Some true ∧ ∃ c, row !! i = Some c ∧ resultCell st ct i = Ok c.

Lemma col_loaded_framed row ct : framed (λ i, col_loaded row i ct).
Proof using Type.
  intros i j st st' Hij Hfr (Hp & Hch & Hset & c & Hc & Hr). split_and!; [done|by apply Hfr|by rewrite (frame_set _ _ _ _ Hij Hfr)|].
  exists c. by rewrite (frame_cell _ _ _ _ _ Hij Hfr Hp).
Qed.

Lemma init_step row i ct c st n : agg_wf n st → (i < n)%nat → plain ct → row !! i = Some c → row_cell_ok ct c → as_null st !! i = Some false →
  ∃ st', initCell row i st ct = Ok st' ∧ agg_wf n st' ∧ frame i st st' ∧ col_loaded row i ct st'.
Proof using Type.
  clear Hfuncs firstv. intros Hwf Hi Hp Hc Hok Hnull.
  assert (Hset : cell_set n i st (initCell row i st ct) (λ st', resultCell st' ct i = Ok c)); [|].
  { unfold initCell, IsNull, GetInt64, GetFloat64, GetString. rewrite (index_ok _ _ _ Hc). osimpl. destruct c as [v|].
    - simpl in Hok. unfold plain, row_value_ok in *. destruct (Type' ct) eqn:Et; try done; destruct v as [x|x|x|x|x]; try done; osimpl.
      1-3: destruct (set_word_ok _ _ _ Hwf Hi (u64 x) Hnull) as (st' & E & ? & ? & ? & ? & Hr & _); exists st'; split_and!; try done;
        rewrite Hr, i64_u64; [done|done|rewrite Et; by repeat constructor].
      + destruct (set_word_ok _ _ _ Hwf Hi (Float64bits x) Hnull) as (st' & E & ? & ? & ? & ? & _ & Hr). exists st'. split_and!; try done.
        rewrite Hr by done. by destruct x.
      + destruct (SetString_ok _ _ _ Hwf Hi x Hnull) as (st' & E & ? & ? & ? & ? & Hr). exists st'. split_and!; try done. by rewrite Hr.
    - destruct (SetNull_ok _ _ _ Hwf Hi) as (st' & E & ? & ? & ? & ? & Hr). by exists st'. }
  destruct Hset as (st' & E & ? & ? & ? & ? & ?). exists st'. unfold col_loaded. by eauto 10.
Qed.

Lemma init_ok row rows (k := gkey row) : groupable row →
  ∃ st, initAggStateWithRow a (agg_row k rows) (NewAggState (length (ag_colTypes a))) = Ok st ∧ state_ok true k (λ f, count f rows) st.
Proof using Hfuncs.
  intros Hg. pose proof (agg_row_ok row rows Hg) as Hcells. fold k in Hcells. unfold initAggStateWithRow.
  assert (Hplain : ∀ i ct, ag_colTypes a !! i = Some ct → plain ct).
  { intros i ct Hi. rewrite (fo_types Hfuncs) in Hi. apply list_lookup_fmap_Some in Hi as (f & -> & Hf). by eapply func_plain, list_elem_of_lookup_2. }
  destruct (columns_loop (initCell (agg_row k rows)) (λ i _ st, as_null st !! i = Some false) (λ i ct, col_loaded (agg_row k rows) i ct)
    (length (ag_colTypes a)) (ag_colTypes a) 0 (NewAggState (length (ag_colTypes a)))) as (st & -> & Hwf & Hpost & _).
  - intros _ i j st st' Hij Hfr. by rewrite (frame_null _ _ _ _ Hij Hfr).
  - intros ct. apply col_loaded_framed.
  - intros i ct st Hi Hwf Hpre. destruct (Forall2_lookup_l _ _ _ _ _ Hcells Hi) as (c & Hc & Hok).
    apply (init_step (agg_row k rows) _ ct c); [done|by apply lookup_lt_Some in Hi|by eapply Hplain|done..].
  - apply new_state. exact k.
  - intros i ct Hi. cbn. apply lookup_replicate_2. by apply lookup_lt_Some in Hi.
  - exists st. split; [done|]. split; [done|]. intros i f Hi.
    assert (Hct : ag_colTypes a !! i = Some (af_valueType f)) by (rewrite (fo_types Hfuncs); by apply list_lookup_fmap_Some; exists f).
    destruct (Hpost i _ Hct) as (Hp & Hch & Hset & c & Hc & Hr). simpl in *. unfold agg_row in Hc. rewrite list_lookup_fmap, Hi in Hc. injection Hc as <-.
    split; [done|]. pose proof (fo_func Hfuncs f (list_elem_of_lookup_2 _ _ _ Hi)) as Ho. unfold agg_cell in Hr. destruct (af_type f); [done|done|by left].
Qed.

Lemma resultRow_ok row rows z st r rws : groupable row → state_ok true (gkey row) z st → (∀ f, f ∈ ag_aggFuncs a → i64 (z f) = i64 (count f rows)) →
  columnTypes r = ag_colTypes a → rows_rep r rws →
  ∃ r', resultRow a st r = Ok r' ∧ columnTypes r' = ag_colTypes a ∧ rows_rep r' (rws ++ [agg_row (gkey row) rows]).
Proof using Hfuncs.
  intros Hg [_ Hst] Hz Hc Hr. eapply (appends_cells (λ _, resultRow a st) (ag_colTypes a) row (agg_row (gkey row) rows) _ (λ i ct, resultCell st ct i) (ag_colTypes a));
    [by intros|by intros| |done|done|done].
  unfold agg_row. rewrite (fo_types Hfuncs).
  assert (Hcells : ∀ i f, ag_aggFuncs a !! i = Some f → resultCell st (af_valueType f) (0 + i) = Ok (agg_cell f (gkey row) rows)).
  { intros i f Hi. destruct (Hst i f Hi) as [_ Hcol]. pose proof (Hz f (list_elem_of_lookup_2 _ _ _ Hi)) as Hzf. unfold agg_cell. simpl.
    destruct (af_type f); [done|by rewrite <- Hzf|]. by destruct Hcol as [(_ & ? & _)|[? _]]. }
  clear -Hcells. revert Hcells. generalize 0%nat as k. induction (ag_aggFuncs a) as [|f l IH]; intros k Hcells; [done|]. cbn [map mapMi_o].
  pose proof (Hcells 0%nat f eq_refl) as Hf. rewrite Nat.add_0_r in Hf. rewrite Hf. osimpl. rewrite (IH (S k)); [done|].
  intros i g Hi. rewrite Nat.add_succ_l, <- Nat.add_succ_r. by apply Hcells.
Qed.
End groups.
