(* ===== verification/AggregateTable.v ===== *)
(** * The aggregate table follows the aggregated rows

    [HandleRemoteRows] of [Aggregator] on a batch of changes, none of which moves a row to
    another group: the loop over the changes ([calcAggregations]), the results it stores,
    and the changes it hands to its parent. *)

From stdpp Require Import base list list_numbers strings gmap sorting.
From Stdlib Require Import ZArith Lia.
From S2P Require Import Prelude Encoding Timestamp Decimal Rows KeyEncoding RowEncoding Store WriteBatch Table LocalStore PullExec PullScan RowsBatch PushExec TableExec Views Sharder AggFuncs Aggregator AggregatorProps.

(** ** Counting *)

Lemma count_app f l l' : count f (l ++ l') = count f l + count f l'.
Proof. unfold count. induction l as [|x l IH]; simpl; [done|]. rewrite IH. lia. Qed.

#[export] Instance count_perm f : Proper ((≡ₚ) ==> eq) (count f).
Proof. intros l l' Hl. unfold count. induction Hl; simpl; lia. Qed.

Section table.
Context (a : Aggregator) (shardID : Z) (firstv : AggregateFunction → bytes → option value) (U : Row → Prop).
Context (Hfuncs : agg_funcs_ok a) (HU : ∀ row, U row → groupable a shardID firstv row).
Context (Horder : ∀ hs, ag_rangeOrder a hs ≡ₚ (map_to_list hs).*1).

#[local] Abbreviation key := (gkey a shardID).
#[local] Abbreviation grp := (group a shardID).
#[local] Abbreviation arow := (agg_row a firstv).
#[local] Abbreviation st_ok := (state_ok a firstv).

Definition is_group (k : bytes) : Prop := ∃ row, U row ∧ key row = k.

(** The aggregates of the rows [M]: a row for every group that has rows; a group that has
    lost all its rows keeps one. *)
Definition aggregates (M : list Row) (G : gmap bytes Row) : Prop :=
  (∀ k row, G !! k = Some row → is_group k ∧ row = arow k (grp M k)) ∧ (∀ k, grp M k ≠ [] → is_Some (G !! k)).

(** The table the aggregates are stored in. *)
Definition agg_info : TableInfo := MkTableInfo (ag_tableID a) [] [] [] [] (ag_colTypes a) None 0 0.
Definition agg_stored {DB} `{KVStore DB} (db : DB) (G : gmap bytes Row) : Prop :=
  ∀ k, EncodeTableKeyPrefix (ag_tableID a) shardID `prefix_of` k → kv_get db k = row_bytes agg_info <$> G !! k.

(** A change of a row that stays in its group. *)
Definition in_group (ch : change) : Prop :=
  change_ok U ch ∧ (ch.1.1 ≠ None ∨ ch.1.2 ≠ None) ∧ ∀ p c, ch.1.1 = Some p → ch.1.2 = Some c → key p = key c.
Definition touched (chs : list change) : list bytes := map (λ ch, key (change_row ch)) chs.

(** The count in the group [k] of [M] after the changes. *)
Definition net (M : list Row) (chs : list change) (k : bytes) (f : AggregateFunction) : Z :=
  count f (grp M k) - count f (grp (prevs chs) k) + count f (grp (currs chs) k).

Lemma net_changed M chs M' k f : changed M chs M' → net M chs k f = count f (grp M' k).
Proof using Type.
  intros Hch. unfold net, changed in *. assert (E : grp (M' ++ prevs chs) k ≡ₚ grp (M ++ currs chs) k) by (unfold group; by rewrite Hch).
  unfold group in *. rewrite !filter_app in E. apply count_perm with (f := f) in E. rewrite !count_app in E. lia.
Qed.

Lemma net_snoc M chs p c n k f : net M (chs ++ [(p, c, n)]) k f =
  net M chs k f - count f (grp (option_list p) k) + count f (grp (option_list c) k).
Proof using Type.
  unfold net, group. rewrite prevs_app, currs_app, !filter_app, !count_app.
  assert (E1 : prevs [(p, c, n)] = option_list p) by by destruct p. assert (E2 : currs [(p, c, n)] = option_list c) by by destruct c.
  rewrite E1, E2. lia.
Qed.

Lemma in_group_keys ch x : in_group ch → x ∈ option_list ch.1.1 ++ option_list ch.1.2 → key x = key (change_row ch).
Proof using Type.
  intros (_ & _ & Hk) Hx. destruct ch as [[[p|] [c|]] n]; simpl in *; unfold change_row; simpl.
  - apply elem_of_cons in Hx as [->|Hx]; [by apply Hk|]. by apply list_elem_of_singleton in Hx as ->.
  - by apply list_elem_of_singleton in Hx as ->.
  - by apply list_elem_of_singleton in Hx as ->.
  - by apply not_elem_of_nil in Hx.
Qed.

Lemma grp_other ch k : in_group ch → k ≠ key (change_row ch) → grp (option_list ch.1.1) k = [] ∧ grp (option_list ch.1.2) k = [].
Proof using Type.
  intros Hg Hk. split; apply filter_none, Forall_forall; intros x Hx <-; apply Hk, in_group_keys; try done; apply elem_of_app; auto.
Qed.

Lemma grp_same ch : in_group ch → grp (option_list ch.1.1) (key (change_row ch)) = option_list ch.1.1 ∧ grp (option_list ch.1.2) (key (change_row ch)) = option_list ch.1.2.
Proof using Type.
  intros Hg. split; apply filter_all, Forall_forall; intros x Hx; apply in_group_keys; try done; apply elem_of_app; auto.
Qed.

Lemma net_untouched M chs k f : Forall in_group chs → k ∉ touched chs → net M chs k f = count f (grp M k).
Proof using Type.
  induction chs as [|[[p c] n] chs IH] using rev_ind; intros Hg Hk; [unfold net; simpl; lia|].
  apply Forall_app in Hg as [Hg [Hg1 _]%Forall_cons]. unfold touched in Hk. rewrite map_app, not_elem_of_app in Hk. destruct Hk as [Hk Hk1].
  destruct (grp_other (p, c, n) k Hg1) as [E1 E2]; [intros ->; apply Hk1; by left|]. simpl in E1, E2. rewrite net_snoc, E1, E2, IH by done. simpl. lia.
Qed.

(** ** The states of a batch *)

Lemma state_ok_ext must k z z' st : (∀ f, z f = z' f) → st_ok must k z st → st_ok must k z' st.
Proof using Type.
  intros Hz [Hwf Hst]. split; [done|]. intros i f Hi. destruct (Hst i f Hi) as [Hp Hc]. split; [done|]. destruct (af_type f); [done| |done]. by rewrite <- Hz.
Qed.

Lemma evaluateOptional_ok must k z row reverse st : st_ok must k z st → (∀ x, row = Some x → U x ∧ key x = k) →
  ∃ st', evaluateOptional a st row reverse = Ok st' ∧ st_ok (must || bool_decide (is_Some row)) k (λ f, z f + signed reverse (count f (option_list row))) st'.
Proof using Hfuncs HU.
  intros Hst Hrow. destruct row as [x|]; simpl.
  - destruct (Hrow x eq_refl) as [HUx Hk]. destruct (eval_ok a shardID firstv Hfuncs must k z x reverse st Hst) as (st' & -> & Hst'); [by apply HU|done|].
    exists st'. split; [done|]. rewrite orb_true_r. eapply state_ok_ext; [|exact Hst']. intros f. simpl. by rewrite Z.add_0_r.
  - exists st. split; [done|]. rewrite orb_false_r. eapply state_ok_ext; [|exact Hst]. intros f. simpl. unfold signed. destruct reverse; lia.
Qed.

Context {DB : Type} `{KVStore DB} (db : DB) (ctx : ExecutionContext) (M : list Row) (G : gmap bytes Row).
Context (HG : aggregates M G) (Hdb : agg_stored db G).
Context (Hcache : ∀ k, EncodeTableKeyPrefix (ag_tableID a) shardID `prefix_of` k → ctx_RowCache ctx k = Ok (kv_get db k)).
Context (Hsh : wb_ShardID (ctx_WriteBatch ctx) = shardID).

Record holder_ok (chs : list change) (k : bytes) (h : aggStateHolder) : Prop := {
  ho_key : ah_keyBytes h = k;
  ho_initial : ah_initialRow h = G !! k;
  ho_state : st_ok true k (net M chs k) (ah_aggState h)
}.
Definition holders_ok (chs : list change) (hs : gmap bytes aggStateHolder) : Prop :=
  (∀ k, is_Some (hs !! k) ↔ k ∈ touched chs) ∧ map_Forall (holder_ok chs) hs.

Lemma ncols_ne : ag_colTypes a ≠ [].
Proof using Hfuncs.
  destruct (fo_first _ Hfuncs) as (f & Hf & _). rewrite (fo_types _ Hfuncs). destruct (ag_aggFuncs a); [by apply not_elem_of_nil in Hf|done].
Qed.

(** The state of a group that has not been loaded yet is made from its stored row. *)
Lemma load_ok x (k := key x) rr rws hs : U x → hs !! k = None → columnTypes rr = ag_colTypes a → rows_rep rr rws →
  ∃ rr' rws' h, loadAggregateState a ctx k rr hs = Ok (rr', h) ∧ columnTypes rr' = ag_colTypes a ∧ rows_rep rr' rws' ∧
    ah_keyBytes h = k ∧ ah_initialRow h = G !! k ∧ ∃ must, st_ok must k (λ f, count f (grp M k)) (ah_aggState h).
Proof using Hfuncs HU HG Hdb Hcache.
  intros HUx Hnone Hc Hr. pose proof (HU x HUx) as Hgx. pose proof Hgx as (_ & Hpre & _). fold k in Hpre. destruct HG as [HG1 HG2].
  unfold loadAggregateState. rewrite Hnone, Hcache, Hdb by done. osimpl. destruct (G !! k) as [row|] eqn:Ek; simpl.
  - destruct (HG1 _ _ Ek) as [_ ->]. destruct (DecodeRow_stored agg_info (arow k (grp M k)) rr rws Hc Hr) as (rr' & HD & Hc' & Hr'); [by apply (agg_row_ok a shardID firstv Hfuncs x)|].
    change (ti_ColumnTypes agg_info) with (ag_colTypes a) in *. rewrite HD. osimpl.
    rewrite (rep_RowCount _ _ Hr'), length_app by (rewrite Hc'; apply ncols_ne). simpl.
    rewrite (rep_GetRow _ _ _ (arow k (grp M k)) Hr') by (rewrite lookup_app_r by lia; by replace (length rws + 1 - 1 - length rws)%nat with 0%nat by lia). osimpl.
    destruct (init_ok a shardID firstv Hfuncs x (grp M k) Hgx) as (st & Hst & Hok). fold k in Hst, Hok. rewrite Hst. osimpl.
    do 3 eexists. split; [done|]. split_and!; try done. by exists true.
  - do 3 eexists. split; [done|]. split_and!; try done. exists false. simpl. eapply state_ok_ext; [|apply (new_state a firstv Hfuncs k)].
    intros f. destruct (grp M k) eqn:Eg; [done|]. destruct (HG2 k) as [? Hs]; [by rewrite Eg|]. by rewrite Ek in Hs.
Qed.

Lemma holder_other chs ch k h : in_group ch → k ≠ key (change_row ch) → holder_ok chs k h → holder_ok (chs ++ [ch]) k h.
Proof using Type.
  intros Hg Hk [Hkey Hini Hst]. split; [done|done|]. eapply state_ok_ext; [|exact Hst]. intros f. destruct ch as [[p c] n].
  destruct (grp_other _ k Hg Hk) as [E1 E2]. simpl in E1, E2. rewrite net_snoc, E1, E2. simpl. lia.
Qed.

Lemma change_rows_ok ch (k := key (change_row ch)) : in_group ch →
  U (change_row ch) ∧ rowOf ch.1.1 ch.1.2 = Ok (change_row ch) ∧ (∀ x, ch.1.1 = Some x → U x ∧ key x = k) ∧ (∀ x, ch.1.2 = Some x → U x ∧ key x = k) ∧
  bool_decide (is_Some ch.1.1) || bool_decide (is_Some ch.1.2) = true.
Proof using Type.
  intros Hg. pose proof Hg as ([HUp HUc] & Hsome & _). pose proof (in_group_keys ch) as Hkeys. split_and!.
  - destruct ch as [[[p|] [c|]] n]; unfold change_row; simpl in *; [by apply HUc|by apply HUp|by apply HUc|]. by destruct Hsome.
  - destruct ch as [[[p|] [c|]] n]; unfold change_row; simpl in *; try done. by destruct Hsome.
  - intros x Hx. split; [by apply HUp|]. apply Hkeys; [done|]. rewrite Hx. by left.
  - intros x Hx. split; [by apply HUc|]. apply Hkeys; [done|]. rewrite Hx. apply elem_of_app. right. by left.
  - destruct ch as [[[p|] [c|]] n]; simpl in *; try done. by destruct Hsome.
Qed.

(** A change updates the state of its group. *)
Lemma calc_ok chs ch rr rws hs : in_group ch → Forall in_group chs → holders_ok chs hs → columnTypes rr = ag_colTypes a → rows_rep rr rws →
  ∃ rr' rws' hs', calcAggregations a ctx (rr, hs) ch.1.1 ch.1.2 = Ok (rr', hs') ∧ columnTypes rr' = ag_colTypes a ∧ rows_rep rr' rws' ∧ holders_ok (chs ++ [ch]) hs'.
Proof using Hfuncs HU HG Hdb Hcache Hsh.
  intros Hg Hgs [Hdom Hhs] Hc Hr. destruct (change_rows_ok ch Hg) as (HUx & Hrow & Hp & Hcu & Hone). set (k := key (change_row ch)) in *.
  pose proof (HU _ HUx) as (Hkey & _). unfold calcAggregations, createKeyFromPrevOrCurrRow. rewrite Hrow, Hsh. osimpl. rewrite Hkey. osimpl. fold k.
  assert (Hload : ∃ rr' rws' h must, loadAggregateState a ctx k rr hs = Ok (rr', h) ∧ columnTypes rr' = ag_colTypes a ∧ rows_rep rr' rws' ∧
    ah_keyBytes h = k ∧ ah_initialRow h = G !! k ∧ st_ok must k (net M chs k) (ah_aggState h)).
  { destruct (hs !! k) as [h|] eqn:Eh.
    - unfold loadAggregateState. rewrite Eh. destruct (Hhs _ _ Eh) as [? ? ?]. by exists rr, rws, h, true.
    - destruct (load_ok (change_row ch) rr rws hs HUx Eh Hc Hr) as (rr' & rws' & h & ? & ? & ? & ? & ? & must & Hst). exists rr', rws', h, must.
      split_and!; try done. eapply state_ok_ext; [|exact Hst]. intros f. rewrite net_untouched; [done|done|]. intros Hin%Hdom. by rewrite Eh in Hin; destruct Hin. }
  destruct Hload as (rr' & rws' & h & must & -> & Hc' & Hr' & Hhk & Hhi & Hst). osimpl.
  destruct (evaluateOptional_ok must k _ ch.1.1 true _ Hst Hp) as (st1 & -> & Hst1). osimpl.
  destruct (evaluateOptional_ok _ k _ ch.1.2 false _ Hst1 Hcu) as (st2 & -> & Hst2). osimpl.
  rewrite <- orb_assoc, Hone, orb_true_r in Hst2. do 3 eexists. split; [done|]. split_and!; [done|exact Hr'|]. split.
  - intros k'. unfold touched. rewrite map_app, elem_of_app. simpl. rewrite list_elem_of_singleton. fold k. destruct (decide (k' = k)) as [->|Hne].
    + rewrite lookup_insert_eq. split; [by auto|by eauto].
    + rewrite lookup_insert_ne by done. rewrite Hdom. unfold touched. tauto.
  - apply map_Forall_lookup_2. intros k' h' Hk'. destruct (decide (k' = k)) as [->|Hne].
    + rewrite lookup_insert_eq in Hk'. injection Hk' as <-. split; [done|done|]. eapply state_ok_ext; [|exact Hst2]. intros f.
      destruct ch as [[p c] n]. destruct (grp_same _ Hg) as [E1 E2]. fold k in E1, E2. cbn [fst snd] in E1, E2. rewrite net_snoc, E1, E2. unfold signed. simpl. lia.
    + rewrite lookup_insert_ne in Hk' by done. apply holder_other; [done|done|]. by apply Hhs.
Qed.

Lemma calcs_ok chs : ∀ before rr rws hs, Forall in_group chs → Forall in_group before → holders_ok before hs → columnTypes rr = ag_colTypes a → rows_rep rr rws →
  ∃ rr' hs', foldM (λ acc '(p, c, n), calcAggregations a ctx acc p c) (rr, hs) chs = Ok (rr', hs') ∧ holders_ok (before ++ chs) hs'.
Proof using Hfuncs HU HG Hdb Hcache Hsh.
  induction chs as [|ch chs IH]; intros before rr rws hs Hg Hgb Hhs Hc Hr; cbn [foldM].
  { exists rr, hs. by rewrite app_nil_r. }
  apply Forall_cons in Hg as [Hg1 Hg]. destruct (calc_ok before ch rr rws hs Hg1 Hgb Hhs Hc Hr) as (rr' & rws' & hs' & E & Hc' & Hr' & Hhs').
  destruct ch as [[p c] n]. cbn [fst snd] in E. rewrite E. osimpl.
  destruct (IH (before ++ [(p, c, n)]) rr' rws' hs' Hg) as (rr2 & hs2 & -> & Hhs2); [|done..|].
  - apply Forall_app. split; [done|]. by constructor.
  - exists rr2, hs2. by rewrite <- app_assoc in Hhs2.
Qed.

(** ** The results are stored *)

Context (chs : list change) (M' : list Row) (Hgs : Forall in_group chs) (Hchanged : changed M chs M').

Definition new_row (k : bytes) : Row := arow k (grp M' k).
Definition agg_put (k : bytes) : bytes * bytes := (k, row_bytes agg_info (new_row k)).

Lemma touched_group k : k ∈ touched chs → is_group k.
Proof using Hgs.
  intros (ch & -> & Hin)%list_elem_of_fmap. rewrite Forall_forall in Hgs. exists (change_row ch). split; [|done]. by apply change_rows_ok, Hgs.
Qed.

Lemma new_row_ok k : is_group k → Forall2 row_cell_ok (ag_colTypes a) (new_row k).
Proof using Hfuncs HU. intros (x & HUx & <-). by apply (agg_row_ok a shardID firstv Hfuncs), HU. Qed.

(** The holders once the groups [ks] have been stored. *)
Definition stored (ks : list bytes) (hs hs' : gmap bytes aggStateHolder) : Prop :=
  ∀ k, hs' !! k = (λ h, if decide (k ∈ ks) then MkHolder (ah_aggState h) (ah_keyBytes h) (ah_initialRow h) (Some (new_row k)) else h) <$> hs !! k.

Lemma store_result_ok k ks hs hs' rr rws wb puts dels rngs :
  holders_ok chs hs → k ∈ touched chs → k ∉ ks → stored ks hs hs' → columnTypes rr = ag_colTypes a → rows_rep rr rws → wb_rep wb puts dels rngs →
  ∃ rr' hs2 wb2, storeAggregateResult a (rr, length rws, hs', wb) k = Ok (rr', length (rws ++ [new_row k]), hs2, wb2) ∧
    columnTypes rr' = ag_colTypes a ∧ rows_rep rr' (rws ++ [new_row k]) ∧ stored (ks ++ [k]) hs hs2 ∧
    wb_rep wb2 (puts ++ [agg_put k]) dels rngs ∧ wb_ShardID wb2 = wb_ShardID wb.
Proof using Hfuncs HU Hgs Hchanged.
  intros [Hdom Hhs] Hk Hks Hst Hc Hr Hwb. destruct (touched_group k Hk) as (x & HUx & Hkx). destruct (proj2 (Hdom k) Hk) as [h Hh].
  destruct (Hhs _ _ Hh) as [Hkey Hini Hstate]. unfold storeAggregateResult. pose proof (Hst k) as Hstk. rewrite Hh in Hstk. simpl in Hstk.
  rewrite decide_False in Hstk by done. rewrite Hstk. unfold IsChanged. rewrite (state_changed a firstv Hfuncs _ _ _ Hstate). rewrite <- Hkx in Hstate.
  destruct (resultRow_ok a shardID firstv Hfuncs x (grp M' k) _ _ rr rws (HU x HUx) Hstate) as (rr' & -> & Hc' & Hr');
    [intros f _; by rewrite (net_changed _ _ M'), Hkx|done|done|]. rewrite Hkx in Hr'. fold (new_row k) in Hr'. osimpl.
  rewrite (rep_GetRow _ _ _ (new_row k) Hr') by by rewrite lookup_app_r, Nat.sub_diag. osimpl.
  rewrite (EncodeRow_eq _ _ _ (new_row_ok k (touched_group k Hk))). osimpl. do 3 eexists. rewrite length_app, Nat.add_1_r. split; [done|]. split_and!; [done..| | |done].
  - intros k'. destruct (decide (k' = k)) as [->|Hne].
    + rewrite lookup_insert_eq, Hh. simpl. by rewrite decide_True by (apply elem_of_app; right; by left).
    + rewrite lookup_insert_ne, Hst by done. destruct (hs !! k'); simpl; [|done]. f_equal. apply decide_ext. rewrite elem_of_app, list_elem_of_singleton. tauto.
  - rewrite Hkey. by apply AddPut_rep.
Qed.

Lemma store_results_ok hs ks2 : ∀ ks hs' rr rws wb puts dels rngs, holders_ok chs hs → Forall (λ k, k ∈ touched chs) ks2 → NoDup (ks ++ ks2) → stored ks hs hs' →
  columnTypes rr = ag_colTypes a → rows_rep rr rws → wb_rep wb puts dels rngs →
  ∃ rr' n hs2 wb2, foldM (storeAggregateResult a) (rr, length rws, hs', wb) ks2 = Ok (rr', n, hs2, wb2) ∧ stored (ks ++ ks2) hs hs2 ∧
    wb_rep wb2 (puts ++ map agg_put ks2) dels rngs ∧ wb_ShardID wb2 = wb_ShardID wb.
Proof using Hfuncs HU Hgs Hchanged.
  induction ks2 as [|k ks2 IH]; intros ks hs' rr rws wb puts dels rngs Hhs Hin Hnd Hst Hc Hr Hwb; cbn [foldM map].
  { do 4 eexists. rewrite !app_nil_r. by split_and!. }
  apply Forall_cons in Hin as [Hk Hin]. destruct (store_result_ok k ks hs hs' rr rws wb puts dels rngs) as (rr1 & hs1 & wb1 & -> & Hc1 & Hr1 & Hst1 & Hwb1 & Hsh1); try done.
  { apply NoDup_app in Hnd as (_ & Hd & _). intros Hkk. by apply (Hd k Hkk); left. }
  osimpl. destruct (IH (ks ++ [k]) hs1 rr1 (rws ++ [new_row k]) wb1 (puts ++ [agg_put k]) dels rngs) as (rr2 & n & hs2 & wb2 & -> & Hst2 & Hwb2 & Hsh2); try done.
  { by rewrite <- app_assoc. }
  exists rr2, n, hs2, wb2. rewrite <- app_assoc in Hst2, Hwb2. split_and!; try done. congruence.
Qed.

(** ** The changed results are handed on *)

Definition agg_change (k : bytes) : change := (G !! k, Some (new_row k), -1).

Lemma AppendRow_appends cts row : length row = length cts → appends (λ row rows, AppendRow rows row) cts row row.
Proof using Type.
  intros Hl r acc Hc Hr. destruct (AppendRow_rep r acc row Hr) as (r' & -> & Hc' & Hr'); [congruence|]. exists r'. split_and!; [done|congruence|done].
Qed.

Lemma agg_row_length k rows : length (arow k rows) = length (ag_colTypes a).
Proof using Hfuncs. unfold agg_row. by rewrite length_map, ncols. Qed.

Lemma send_results_ok hs hs2 ks ks2 : ∀ r rc es outs, holders_ok chs hs → stored ks hs hs2 → Forall (λ k, k ∈ ks ∧ k ∈ touched chs) ks2 →
  parts_rep (ag_colTypes a) r rc es outs →
  ∃ r' rc' es', foldM (sendResult hs2) (r, rc, es) ks2 = Ok (r', rc', es') ∧ parts_rep (ag_colTypes a) r' rc' es' (outs ++ map agg_change ks2).
Proof using Hfuncs HG.
  induction ks2 as [|k ks2 IH]; intros r rc es outs Hhs Hst Hin Hp; cbn [foldM map].
  { exists r, rc, es. by rewrite app_nil_r. }
  apply Forall_cons in Hin as [[Hk Ht] Hin]. destruct Hhs as [Hdom Hall] eqn:E. clear E. destruct (proj2 (Hdom k) Ht) as [h Hh].
  destruct (Hall _ _ Hh) as [Hkey Hini Hstate]. pose proof (Hst k) as Hstk. rewrite Hh in Hstk. simpl in Hstk. rewrite decide_True in Hstk by done.
  unfold sendResult at 2. rewrite Hstk. unfold IsChanged. cbn [ah_aggState ah_initialRow ah_row].
  rewrite (state_changed a firstv Hfuncs _ _ _ Hstate), Hini.
  destruct (mapEntry_ok (λ row rows, AppendRow rows row) (ag_colTypes a) r rc es outs (G !! k) (Some (new_row k)) (-1) (G !! k) (Some (new_row k)) Hp)
    as (r1 & rc1 & es1 & -> & Hp1).
  - destruct (G !! k) as [row|] eqn:Ek; constructor. apply AppendRow_appends. destruct HG as [HG1 _]. destruct (HG1 _ _ Ek) as [_ ->]. apply agg_row_length.
  - constructor. apply AppendRow_appends, agg_row_length.
  - osimpl. destruct (IH r1 rc1 es1 (outs ++ [agg_change k]) Hhs Hst Hin Hp1) as (r2 & rc2 & es2 & -> & Hp2).
    exists r2, rc2, es2. by rewrite <- app_assoc in Hp2.
Qed.

(** ** The tables after the batch *)

Definition agg_upd (k : bytes) : bytes * option Row := (k, Some (new_row k)).

Lemma agg_upds_keys ks : (map agg_upd ks).*1 = ks.
Proof using Type. rewrite <- list_fmap_compose. by apply list_fmap_id. Qed.

Lemma changed_aggs ks : ∀ T, NoDup ks → (∀ k, k ∈ ks → T !! k = G !! k) →
  changed (table_rows T) (map agg_change ks) (table_rows (foldl apply_upd T (map agg_upd ks))).
Proof using Type.
  induction ks as [|k ks IH]; intros T Hnd Hsame; [apply changed_nil|]. apply NoDup_cons in Hnd as [Hk Hnd].
  change (map agg_change (k :: ks)) with ([agg_change k] ++ map agg_change ks). cbn [map foldl]. eapply changed_app.
  - unfold agg_change. rewrite <- Hsame by by left. apply (changed_upd T k (Some (new_row k)) (-1)).
  - apply IH; [done|]. intros k' Hk'. unfold apply_upd. simpl. rewrite lookup_insert_ne by (intros ->; done). apply Hsame. by right.
Qed.

Lemma agg_upds_lookup ks k : NoDup ks → foldl apply_upd G (map agg_upd ks) !! k = if decide (k ∈ ks) then Some (new_row k) else G !! k.
Proof using Type.
  intros Hnd. case_decide as Hk.
  - apply apply_upds_hit; [by rewrite agg_upds_keys|]. by apply (list_elem_of_fmap_2 agg_upd).
  - apply apply_upds_lookup. by rewrite agg_upds_keys.
Qed.

Lemma aggregates_after ks : NoDup ks → (∀ k, k ∈ ks ↔ k ∈ touched chs) → aggregates M' (foldl apply_upd G (map agg_upd ks)).
Proof using HG Hgs Hchanged.
  intros Hnd Hks. destruct HG as [HG1 HG2]. split; intros k; [intros row|]; rewrite agg_upds_lookup by done; case_decide as Hk; [|..|done|].
  - intros [= <-]. split; [by apply touched_group, Hks|done].
  - intros Hrow. destruct (HG1 _ _ Hrow) as [? ->]. split; [done|]. unfold agg_row. apply map_ext_in. intros f _. unfold agg_cell. destruct (af_type f); [done| |done].
    by rewrite <- (net_changed M chs M' k f Hchanged), net_untouched by (done || by rewrite <- Hks).
  - intros Hne. apply HG2. intros Hnil. destruct (grp M' k) as [|x l] eqn:Eg; [done|].
    assert (Hx : x ∈ grp M' k) by (rewrite Eg; by left). apply list_elem_of_filter in Hx as [Hkx Hx].
    assert (Hx' : x ∈ M ++ currs chs) by (rewrite <- Hchanged; apply elem_of_app; by left). apply elem_of_app in Hx' as [HxM|Hxc].
    + assert (Hin : x ∈ grp M k) by by apply list_elem_of_filter. rewrite Hnil in Hin. by apply not_elem_of_nil in Hin.
    + apply Hk, Hks. apply list_elem_of_omap in Hxc as (ch & Hch & Hc). rewrite Forall_forall in Hgs. rewrite <- Hkx.
      rewrite (in_group_keys ch x (Hgs _ Hch)) by (rewrite Hc; apply elem_of_app; right; by left). by apply (list_elem_of_fmap_2 (λ ch, key (change_row ch))).
Qed.

Lemma agg_written ks ks2 P D : NoDup ks2 → (∀ k, k ∈ ks ↔ k ∈ ks2) → puts_under agg_info shardID P = map agg_put ks → dels_under agg_info shardID D = [] →
  agg_stored (kv_apply db (batch_ops P D)) (foldl apply_upd G (map agg_upd ks2)).
Proof using Hdb.
  intros Hnd Hks HP HD k Hk. rewrite kv_get_apply, (effect_under agg_info shardID), HP, HD, agg_upds_lookup, Hdb by done. unfold batch_ops. rewrite foldl_app. simpl.
  case_decide as Hin.
  - apply effect_sets_hit; [by apply (list_elem_of_fmap_2 agg_put), Hks|]. by intros w' (k' & [= <- ->] & _)%list_elem_of_fmap.
  - apply effect_sets_miss. rewrite map_map. simpl. rewrite map_id. by rewrite Hks.
Qed.

(** ** The whole handler *)

Context (c : Consumer (DB := DB)) (K' : Row → bytes) (U' : Row → Prop) (Hc : Maintains shardID c (ag_colTypes a) K' U').
Context (Hrows : ∀ k rows, is_group k → U' (arow k rows)).
Context (HK : ∀ k k' rows rows', is_group k → is_group k' → K' (arow k rows) = K' (arow k' rows') ↔ k = k').
Context (Hown : disjoint_owners (table_owns shardID agg_info) (c_owns c)).

Lemma agg_rows_keys : NoDup (map K' (table_rows G)).
Proof using HG HK.
  destruct HG as [HG1 _]. unfold table_rows. rewrite <- list_fmap_compose. apply (NoDup_map_inj fst); [apply NoDup_fst_map_to_list|].
  intros [k row] [k' row'] Hk%elem_of_map_to_list Hk'%elem_of_map_to_list. simpl. destruct (HG1 _ _ Hk) as [? ->], (HG1 _ _ Hk') as [? ->]. by apply HK.
Qed.

Lemma agg_changes_coherent ks : NoDup ks → Forall is_group ks → coherent K' (table_rows G) (map agg_change ks).
Proof using HG HK.
  intros Hnd Hks. rewrite Forall_forall in Hks. split_and!; [apply agg_rows_keys| |].
  - rewrite map_map. apply (NoDup_map_inj id); [by rewrite map_id|]. intros k k' Hk Hk'. unfold change_row, agg_change. simpl. apply HK; by apply Hks.
  - apply Forall_forall. intros ch (k & -> & Hk)%list_elem_of_fmap. unfold change_coherent, agg_change. simpl. destruct HG as [HG1 _].
    destruct (G !! k) as [row|] eqn:Ek.
    + split; [apply table_rows_elem; by exists k|]. destruct (HG1 _ _ Ek) as [? ->]. by apply HK.
    + intros (row & E & (k' & Hk')%table_rows_elem)%list_elem_of_fmap. destruct (HG1 _ _ Hk') as [? ->]. apply HK in E; [|by apply Hks|done]. congruence.
Qed.

Lemma order_keys hs : NoDup (ag_rangeOrder a hs) ∧ ∀ k, k ∈ ag_rangeOrder a hs ↔ is_Some (hs !! k).
Proof using Horder.
  split; [rewrite Horder; apply NoDup_fst_map_to_list|]. intros k. rewrite Horder, list_elem_of_fmap. split.
  - intros ([k' h] & -> & Hin%elem_of_map_to_list). by exists h.
  - intros [h Hh]. exists (k, h). split; [done|]. by apply elem_of_map_to_list.
Qed.

Lemma agg_U_rows ks : Forall is_group ks → Forall U' (table_rows G) ∧ Forall (change_ok U') (map agg_change ks).
Proof using HG Hrows.
  intros Hks. destruct HG as [HG1 _]. assert (HUG : ∀ k row, G !! k = Some row → U' row) by (intros k row Hk; destruct (HG1 _ _ Hk) as [? ->]; by apply Hrows). split.
  - apply Forall_forall. intros row (k & Hk)%table_rows_elem. by eapply HUG.
  - apply Forall_map. eapply Forall_impl; [exact Hks|]. intros k Hk. split; simpl; [intros x Hx; by eapply HUG|]. intros x [= <-]. by apply Hrows.
Qed.

Lemma HandleRemoteRows_ok b puts dels rngs : batch_rep (ag_childColTypes a) b chs → c_inv c db (table_rows G) →
  (∀ k, c_owns c k = true → ctx_RowCache ctx k = Ok (kv_get db k)) → wb_rep (ctx_WriteBatch ctx) puts dels rngs →
  ∃ wb puts' dels' G', HandleRemoteRows a (c_handle c) b ctx = Ok (with_WriteBatch ctx wb) ∧
    wb_ShardID wb = shardID ∧ wb_rep wb (puts ++ puts') (dels ++ dels') rngs ∧
    Forall (λ kv, table_owns shardID agg_info kv.1 || c_owns c kv.1 = true) puts' ∧ Forall (λ k, table_owns shardID agg_info k || c_owns c k = true) dels' ∧
    aggregates M' G' ∧
    ∀ P D, puts_of (λ k, table_owns shardID agg_info k || c_owns c k) P = puts' → dels_of (λ k, table_owns shardID agg_info k || c_owns c k) D = dels' →
      agg_stored (kv_apply db (batch_ops P D)) G' ∧ c_inv c (kv_apply db (batch_ops P D)) (table_rows G').
Proof using All.
  intros Hb Hinv Hcc Hwb. unfold HandleRemoteRows. rewrite (forEntries_eq _ _ _ Hb).
  destruct (calcs_ok chs [] (NewRows (ag_colTypes a)) [] ∅ Hgs) as (rr & hs & -> & Hhs); [done| |done|apply NewRows_rep|].
  { split; [|done]. intros k. rewrite lookup_empty. split; [by intros [? ?]|by intros ?%not_elem_of_nil]. }
  osimpl. simpl in Hhs. destruct (order_keys hs) as [Hnd1 Hks1]. set (ks := ag_rangeOrder a hs) in *. unfold storeAggregateResults. fold ks.
  assert (Hkt : ∀ k, k ∈ ks ↔ k ∈ touched chs) by (intros k; rewrite Hks1; apply (proj1 Hhs)).
  destruct (store_results_ok hs ks [] hs (NewRows (ag_colTypes a)) [] (ctx_WriteBatch ctx) puts dels rngs)
    as (rr2 & n & hs2 & wb1 & E1 & Hst & Hwb1 & Hs1); [done|apply Forall_forall; intros k; apply Hkt|done| |done|apply NewRows_rep|done|].
  { intros k. by destruct (hs !! k). }
  cbn [length] in E1. rewrite E1. osimpl. simpl in Hst. destruct (order_keys hs2) as [Hnd2 Hks2]. set (ks2 := ag_rangeOrder a hs2) in *.
  assert (Hkk : ∀ k, k ∈ ks ↔ k ∈ ks2) by (intros k; by rewrite Hks1, Hks2, Hst, fmap_is_Some).
  assert (Hgk : Forall is_group ks2) by (apply Forall_forall; intros k Hk; by apply touched_group, Hkt, Hkk).
  destruct (send_results_ok hs hs2 ks ks2 (NewRows (ag_colTypes a)) 0 [] []) as (r & rc & es & -> & Hparts); [done|done| | |].
  { apply Forall_forall. intros k Hk. split; [by apply Hkk|by apply Hkt, Hkk]. }
  { exists []. split_and!; [done|apply NewRows_rep|done|constructor]. }
  osimpl. simpl in Hparts. destruct (agg_U_rows ks2 Hgk) as [HUG HUc].
  destruct (maintains shardID (c := c) db (table_rows G) (map agg_change ks2) (table_rows (foldl apply_upd G (map agg_upd ks2))) (NewRowsBatch r es)
    (with_WriteBatch ctx wb1) (puts ++ map agg_put ks) dels rngs) as (wb2 & p2 & d2 & -> & Hs2 & Hw2 & Hp2 & Hd2 & Hinv2); try done;
    [eapply parts_batch_rep; [apply ncols_ne|exact Hparts]|by apply changed_aggs|by apply agg_changes_coherent|simpl; congruence|].
  assert (Hpa : Forall (λ kv, table_owns shardID agg_info kv.1 = true) (map agg_put ks)).
  { apply Forall_map, Forall_forall. intros k Hk. destruct (touched_group k) as (x & HUx & <-); [by apply Hkt|]. apply bool_decide_eq_true. by apply HU. }
  exists wb2, (map agg_put ks ++ p2), d2, (foldl apply_upd G (map agg_upd ks2)). rewrite <- (app_assoc puts) in Hw2.
  split_and!; [done..| | | |].
  - apply Forall_app. split; (eapply Forall_impl; [eassumption|]); intros kv Hk; simpl in *; rewrite Hk; by rewrite ?orb_true_r.
  - eapply Forall_impl; [eassumption|]. intros k Hk. simpl in *. by rewrite Hk, orb_true_r.
  - apply aggregates_after; [done|]. intros k. by rewrite <- Hkk.
  - intros P D HP HD. destruct (owned_part fst _ _ _ _ _ HP Hown Hpa Hp2) as [HP1 HP2].
    destruct (owned_part id _ _ D [] d2 HD Hown (Forall_nil_2 _) Hd2) as [HD1 HD2]. split; [|by apply Hinv2].
    apply (agg_written ks); try done; [by rewrite <- owned_under|by rewrite <- owned_dels_under].
Qed.
End table.
