(* ===== verification/Pipeline.v ===== *)
(** * A source with a materialized view and indexes

    The parts put together: the rows a source receives go through the engine into its
    table, the table's index, a materialized view over the table (scan, selection,
    projection), and the view's index, and all of it is committed with the removal of the
    received rows. *)

From stdpp Require Import base list list_numbers strings gmap sorting.
From Stdlib Require Import ZArith Lia.
From S2P Require Import Prelude Encoding Timestamp Decimal Rows KeyEncoding RowEncoding Store WriteBatch Table LocalStore ShardSM PullExec PullScan RowsBatch PushExec TableExec Views ViewKeys IndexExec RowCache Engine EngineProps SimCluster.

Lemma table_prefixes_disjoint (t t' shardID : Z) k : u64_ok t → u64_ok t' → u64_ok shardID → t ≠ t' →
  bool_decide (EncodeTableKeyPrefix t shardID `prefix_of` k) = true → bool_decide (EncodeTableKeyPrefix t' shardID `prefix_of` k) = true → False.
Proof.
  intros Ht Ht' Hs Hne [x ->]%bool_decide_eq_true [y E]%bool_decide_eq_true. apply EncodeTableKeyPrefix_inj in E as (-> & _); done.
Qed.

(** A source table [t] with an index [ii], and a view of it with the table [m] and an
    index [mii]. *)
Record Derived := MkDerived {
  d_source : TableExecutor;
  d_index : IndexInfo;
  d_view : TableExecutor;
  d_viewIndex : IndexInfo;
  d_scan : PushScan;
  d_predicates : list Expression;
  d_projection : PushProjection
}.
Abbreviation d_ti d := (te_TableInfo (d_source d)).
Abbreviation d_mti d := (te_TableInfo (d_view d)).

Section derived.
Context (d : Derived) (pkTypes ixTypes mpkTypes mixTypes : list ColumnType) (cols : option (list nat)) (projColumns : list Expression) (shardID : Z).

Definition table_ids : list Z := [ti_ID (d_ti d); ii_ID (d_index d); ti_ID (d_mti d); ii_ID (d_viewIndex d)].

Record derived_setup : Prop := {
  ds_view : built_view (d_ti d) cols projColumns (d_scan d) (d_projection d) (d_mti d);
  ds_source : table_storing (d_source d);
  ds_stored : table_storing (d_view d);
  ds_columns : ti_ColumnTypes (d_ti d) ≠ [];
  ds_distinct : NoDup table_ids;
  ds_ids : Forall (λ t, UserTableIDBase ≤ t ∧ u64_ok t) table_ids;
  ds_shard : u64_ok shardID
}.

(** Rows that can be stored and indexed, and whose view row can be computed, stored and
    indexed. *)
Definition derivable (row : Row) : Prop :=
  viewable (d_ti d) (d_mti d) (d_scan d) (d_projection d) pkTypes mpkTypes (d_predicates d) row ∧
  index_row_ok (d_ti d) (d_index d) pkTypes ixTypes row ∧
  (passes (d_predicates d) (scan_row (d_scan d) row) = true →
   index_row_ok (d_mti d) (d_viewIndex d) mpkTypes mixTypes (view_row (d_scan d) (d_projection d) row)).

Context {DB : Type} `{KVStore DB}.

(** The table has the rows [T], its index their entries, the view the result of its query
    on them, and the view's index the entries of that. *)
Definition derived (db : DB) (T : gmap bytes Row) : Prop :=
  table_is (d_ti d) shardID pkTypes db T ∧ index_is (d_ti d) (d_index d) shardID db (table_rows T) ∧
  ∃ V, table_is (d_mti d) shardID mpkTypes db V ∧ index_is (d_mti d) (d_viewIndex d) shardID db (table_rows V) ∧
    table_rows V ≡ₚ view (d_scan d) (d_predicates d) (d_projection d) (table_rows T).

Definition view_consumers : list (Consumer (DB := DB)) := [index_consumer (d_mti d) (d_viewIndex d) shardID].
Definition source_consumers : list (Consumer (DB := DB)) :=
  [index_consumer (d_ti d) (d_index d) shardID;
   view_consumer (d_scan d) (d_predicates d) (d_projection d) (table_consumer shardID (d_view d) mpkTypes view_consumers)].

Lemma derived_invs db T : table_invs shardID (d_ti d) pkTypes source_consumers db T ↔ derived db T.
Proof using Type.
  unfold table_invs, derived, source_consumers. rewrite !Forall_cons, Forall_nil. simpl. split.
  - intros (HT & Hi & (V & [HV HVi] & Hp) & _). apply Forall_cons in HVi as [HVi _]. simpl in HVi. split_and!; [done|done|]. by exists V.
  - intros (HT & Hi & V & HV & HVi & Hp). split_and!; [done|done| |done]. exists V. split; [|done]. split; [done|]. by apply Forall_singleton.
Qed.

(** Before anything is received there is nothing in the tables. *)
Lemma derived_empty : derived kv_empty ∅.
Proof using Type.
  assert (Hix : ∀ ti ii, index_is ti ii shardID (kv_empty : DB) []).
  { intros ti ii k _. split; [by intros row ?%not_elem_of_nil|]. intros _. apply kv_get_empty. }
  assert (Ht : ∀ ti pk, table_is ti shardID pk (kv_empty : DB) ∅).
  { intros ti pk. split; [apply map_Forall_empty|]. intros k _. rewrite kv_get_empty. by rewrite lookup_empty. }
  split_and!; [done|done|]. exists ∅. split_and!; [done|done|]. unfold table_rows. rewrite map_to_list_empty. done.
Qed.

Lemma source_consumers_ok : derived_setup →
  Forall (λ c, Maintains shardID c (ti_ColumnTypes (d_ti d)) (row_keyb (d_ti d) shardID) derivable) source_consumers ∧ separate source_consumers ∧
  disjoint_owners (table_owns shardID (d_ti d)) (all_own source_consumers).
Proof using Type.
  intros [HV Hsrc Hst Hcols Hnd Hids Hsh]. unfold table_ids in *. rewrite !Forall_cons in Hids. destruct Hids as ([_ H1] & [_ H2] & [_ H3] & [_ H4] & _).
  rewrite !NoDup_cons, !not_elem_of_cons in Hnd. destruct Hnd as ((N12 & N13 & N14 & _) & (N23 & N24 & _) & (N34 & _) & _).
  assert (Hmv : Maintains shardID (table_consumer shardID (d_view d) mpkTypes view_consumers) (pp_colTypes (d_projection d)) (row_keyb (d_mti d) shardID)
      (λ row, row_ok (d_mti d) mpkTypes row ∧ index_row_ok (d_mti d) (d_viewIndex d) mpkTypes mixTypes row)).
  { rewrite <- (bv_types _ _ _ _ _ _ HV). apply table_maintains; [done|by intros row [? _]| | |].
    - apply Forall_singleton. apply (index_maintains _ _ _ mpkTypes mixTypes). by intros row [_ ?].
    - split; [|done]. intros k _ Hk. done.
    - intros k Hk Hk'. unfold all_own in Hk'. simpl in Hk'. rewrite orb_false_r in Hk'. by apply (table_prefixes_disjoint _ _ _ _ H3 H4 Hsh N34 Hk Hk'). }
  split_and!.
  - constructor; [|apply Forall_singleton].
    + apply (index_maintains _ _ _ pkTypes ixTypes). by intros row (_ & ? & _).
    + eapply view_maintains; [|exact Hmv]. eapply built_view_of; [exact HV|by intros row (? & _)|].
      intros row ((Hr & _ & Hview) & _ & Hix) Hp. split; [by apply Hview|by apply Hix].
  - split; [|split; [intros k _ Hk; done|done]]. intros k Hk Hk'. simpl in Hk, Hk'. rewrite !orb_false_r in Hk'.
    apply orb_true_iff in Hk' as [Hk'|Hk'].
    + by apply (table_prefixes_disjoint _ _ _ _ H2 H3 Hsh N23 Hk Hk').
    + by apply (table_prefixes_disjoint _ _ _ _ H2 H4 Hsh N24 Hk Hk').
  - intros k Hk Hk'. unfold all_own in Hk'. simpl in Hk'. rewrite !orb_false_r in Hk'. apply orb_true_iff in Hk' as [Hk'|[Hk'|Hk']%orb_true_iff].
    + by apply (table_prefixes_disjoint _ _ _ _ H1 H2 Hsh N12 Hk Hk').
    + by apply (table_prefixes_disjoint _ _ _ _ H1 H3 Hsh N13 Hk Hk').
    + by apply (table_prefixes_disjoint _ _ _ _ H1 H4 Hsh N14 Hk Hk').
Qed.
End derived.

(** ** The source, its view and its indexes after a batch *)

Section pipeline.
Context {Cl DB : Type} `{ClusterContract Cl DB} {L : Type} `{RowLRU L}.
Context (d : Derived) (pkTypes ixTypes mpkTypes mixTypes : list ColumnType) (cols : option (list nat)) (projColumns : list Expression).
Context (pe : Engine) (st : ShardProcessor Cl L) (sourceID : Z) (T : gmap bytes Row).
Let shardID := sh_shardID (sp_cache st).

(** The source is registered, and the rows are rows for it that carry the changes: upserts,
    and deletes of rows it has, at most one for each key. *)
Record source_rows (rows : list ForwardRow) (chs : list change) : Prop := {
  sr_order m : en_rangeOrder pe m ≡ₚ (map_to_list m).*1;
  sr_source : en_remoteConsumers pe !! sourceID = Some (table_remote (d_source d) (source_consumers d mpkTypes shardID (DB := DB)));
  sr_rows : Forall (λ row, RemoteConsumerID row = sourceID ∧ receiver_key shardID (KeyBytes row)) rows;
  sr_received : Forall2 (received (ti_ColumnTypes (d_ti d))) (map raw_of rows) chs;
  sr_keys : NoDup (map (change_upd (d_ti d) shardID) chs).*1;
  sr_writes : Forall (writes_ok (d_ti d) shardID pkTypes T) chs;
  sr_currs : Forall (derivable d pkTypes ixTypes mpkTypes mixTypes) (currs chs);
  sr_stored : Forall (derivable d pkTypes ixTypes mpkTypes mixTypes) (table_rows T);
  sr_small : batch_small pe st rows
}.

Lemma rows_for_all rows : Forall (λ row, RemoteConsumerID row = sourceID) rows → rows_for rows sourceID = map raw_of rows.
Proof using. intros Hall. unfold rows_for. by rewrite filter_all. Qed.

Lemma source_received_ok rows chs : derived_setup d cols projColumns shardID → source_rows rows chs →
  derived d pkTypes mpkTypes shardID (committed (sp_cluster st) shardID) T →
  received_ok pe st rows (λ _, source_entity shardID (d_source d) pkTypes (derivable d pkTypes ixTypes mpkTypes mixTypes) (source_consumers d mpkTypes shardID) T) (λ _, chs).
Proof using Type.
  intros Hset Hrows Hder. destruct (source_consumers_ok d pkTypes ixTypes mpkTypes mixTypes cols projColumns shardID Hset (DB := DB)) as (Hcs & Hsep & Hown).
  destruct Hrows as [Hord Hsrc Hall Hrec Hkeys Hwr Hcur Hstored Hsmall].
  assert (Hid : Forall (λ row, RemoteConsumerID row = sourceID) rows) by (eapply Forall_impl; [exact Hall|by intros row [? _]]).
  assert (Hids : ∀ e, e ∈ map RemoteConsumerID rows → e = sourceID).
  { intros e (row & -> & Hin)%list_elem_of_fmap. rewrite Forall_forall in Hid. by apply Hid. }
  split; try done.
  - intros e ->%Hids _. split_and!; [done| |done|by apply derived_invs|by rewrite rows_for_all].
    apply source_handles; [apply (ds_columns _ _ _ _ Hset)|apply (ds_source _ _ _ _ Hset)|done..].
  - intros i j ->%Hids ->%Hids. done.
  - intros e k _ Hk. destruct Hset as [_ _ _ _ _ Huser _]. unfold table_ids in Huser. rewrite !Forall_cons in Huser.
    destruct Huser as ([U1 V1] & [U2 V2] & [U3 V3] & [U4 V4] & _).
    assert (Hp : ∀ t, UserTableIDBase ≤ t → u64_ok t → bool_decide (EncodeTableKeyPrefix t shardID `prefix_of` k) = true → user_key shardID k).
    { intros t Ht Hu [rest ->]%bool_decide_eq_true. by exists t, rest. }
    simpl in Hk. rewrite !orb_false_r in Hk. repeat (apply orb_true_iff in Hk as [Hk|Hk]);
      first [exact (Hp _ U1 V1 Hk)|exact (Hp _ U2 V2 Hk)|exact (Hp _ U3 V3 Hk)|exact (Hp _ U4 V4 Hk)].
  - eapply Forall_impl; [exact Hall|]. by intros row [_ ?].
Qed.

End pipeline.

(** ** An example: events with a value, and a view of the values above 10 *)

Definition demo_column (i : nat) : Expression :=
  MkExpression (ExprColumn i) None
    (λ row, match row !! i with Some (Some (VInt v)) => Ok (Some v) | Some None => Ok None | _ => Err "not an integer" end)
    (λ _, Err "not a real") (λ _, Err "not a decimal") (λ _, Err "not a string") (λ _, Err "not a time").
Definition demo_above (i : nat) (n : Z) : Expression :=
  MkExpression (ExprScalarFunction (Ok BigIntColumnType)) None
    (λ row, match row !! i with Some (Some (VInt v)) => Ok (Some (if n <? v then 1 else 0)) | _ => Err "not an integer" end)
    (λ _, Err "not a real") (λ _, Err "not a decimal") (λ _, Err "not a string") (λ _, Err "not a time").

Definition demo_types : list ColumnType := [BigIntColumnType; BigIntColumnType].
Definition demo_events : TableInfo := MkTableInfo 1001 [] (lit "events") [0%nat] [] demo_types None 0 0.
Definition demo_large : TableInfo := MkTableInfo 1003 [] (lit "large") [1%nat] [] demo_types (Some [true; false]) 0 0.
Definition demo_derived : Derived := {|
  d_source := MkTableExecutor demo_events false 0 false false;
  d_index := MkIndexInfo 1002 (lit "events") (lit "by_value") [1%nat];
  d_view := MkTableExecutor demo_large false 0 false false;
  d_viewIndex := MkIndexInfo 1004 (lit "large") (lit "by_value") [0%nat];
  d_scan := MkPushScan demo_types [1%nat] (Some [true; false]) (Some [1%nat; 0%nat]);
  d_predicates := [demo_above 0 10];
  d_projection := MkPushProjection demo_types [1%nat] [true; false] [demo_column 0] [1%nat]
|}.

Lemma demo_setup : derived_setup demo_derived (Some [1%nat]) [demo_column 0] 1000.
Proof.
  split; [|done|done|done|apply (bool_decide_unpack _); by vm_compute|..|split; vm_compute; congruence].
  - split; [reflexivity|reflexivity| |reflexivity|reflexivity|done|done]. apply Forall_singleton. intros c ct row v x [= <-] Hv He.
    unfold evalColumn, demo_column in He. cbn [EvalInt EvalReal EvalDec EvalStr EvalTime] in He. rewrite Hv in He.
    destruct (Type' ct), v; simplify_eq/=; done.
  - unfold table_ids. rewrite !Forall_cons, Forall_nil. split_and!; try done; split; vm_compute; congruence.
Qed.

Definition demo_event (a x : Z) : Row := [Some (VInt a); Some (VInt x)].

Lemma demo_derivable a x : i64_ok a → i64_ok x → derivable demo_derived [BigIntColumnType] [BigIntColumnType] [BigIntColumnType] [BigIntColumnType] (demo_event a x).
Proof.
  intros Ha Hx. assert (Hpk : row_ok demo_events [BigIntColumnType] (demo_event a x)).
  { split; [exists [VInt a]; split_and!; [done|done|by constructor]|by constructor; [|constructor]]. }
  assert (Hmpk : row_ok demo_large [BigIntColumnType] [Some (VInt x); Some (VInt a)]).
  { split; [exists [VInt a]; split_and!; [done|done|by constructor]|by constructor; [|constructor]]. }
  split_and!.
  - split_and!; [done|unfold decided; simpl; by destruct (10 <? x)|]. intros _. split; [done|]. exact Hmpk.
  - destruct Hpk as [Hvs _]. split_and!; [done|done|]. exists [Some (VInt x)]. split; [done|by constructor].
  - intros _. destruct Hmpk as [Hvs _]. split_and!; [done|done|]. exists [Some (VInt x)]. split; [done|by constructor].
Qed.

Definition demo_engine (consumers : gmap Z RemoteConsumer) : Engine :=
  MkEngine consumers (λ m, (map_to_list m).*1) (Ok tt) (λ _, Ok tt).
Definition demo_consumers : gmap Z RemoteConsumer :=
  {[ 1001 := table_remote (d_source demo_derived) (source_consumers demo_derived [BigIntColumnType] 1000 (DB := gmap bytes bytes)) ]}.
Definition demo_state : ShardProcessor SimCluster SimLRU :=
  MkShardProcessor (MkSimCluster [] 0 (NoDup_nil_2 (A := bytes))) (NewRowCache 1000 4096) ∅.

(** A row received for an entity. *)
Definition demo_received (entity seq : Z) (prev curr : option Row) : ForwardRow :=
  MkForwardRow seq entity (EncodeTableKeyPrefix ReceiverTableID 1000 ++ be_bytes 8 seq ++ be_bytes 8 entity)
    (EncodePrevAndCurrentRow (option_bytes demo_types prev) (option_bytes demo_types curr)) 0 false.
Definition demo_batch : list ForwardRow := [demo_received 1001 1 None (Some (demo_event 1 20)); demo_received 1001 2 None (Some (demo_event 2 5))].
Definition demo_changes : list change := [(None, Some (demo_event 1 20), 1); (None, Some (demo_event 2 5), 2)].
Definition demo_uid : bytes := replicate 16 7.

Lemma demo_coherent : cache_coherent (DB := gmap bytes bytes) (sp_cache demo_state) (sp_cluster demo_state).
Proof. split; done. Qed.

Lemma demo_source_rows : source_rows demo_derived [BigIntColumnType] [BigIntColumnType] [BigIntColumnType] [BigIntColumnType]
  (demo_engine demo_consumers) demo_state 1001 ∅ demo_batch demo_changes (DB := gmap bytes bytes).
Proof.
  assert (Hd : ∀ a x, i64_ok a → i64_ok x → derivable demo_derived [BigIntColumnType] [BigIntColumnType] [BigIntColumnType] [BigIntColumnType] (demo_event a x))
    by apply demo_derivable.
  split.
  - done.
  - done.
  - unfold demo_batch. rewrite !Forall_cons, Forall_nil. split_and!; try done; by eexists.
  - constructor; [|constructor; [|constructor]].
    + split_and!; [done| |done|done]. split; simpl; [done|]. intros x [= <-]. by repeat constructor.
    + split_and!; [done| |done|done]. split; simpl; [done|]. intros x [= <-]. by repeat constructor.
  - apply (bool_decide_unpack _). by vm_compute.
  - unfold demo_changes. rewrite !Forall_cons, Forall_nil. split_and!; [|split; [|done]..|done]; [split; [|done]|]; apply Hd; by_decide.
  - unfold demo_changes, currs. simpl. rewrite !Forall_cons, Forall_nil. split_and!; [apply Hd; by_decide..|done].
  - unfold table_rows. rewrite map_to_list_empty. constructor.
  - vm_compute. split; reflexivity.
Qed.


Definition demo_entity : Entity (DB := gmap bytes bytes) :=
  source_entity 1000 (d_source demo_derived) [BigIntColumnType] (derivable demo_derived [BigIntColumnType] [BigIntColumnType] [BigIntColumnType] [BigIntColumnType])
    (source_consumers demo_derived [BigIntColumnType] 1000) ∅.

Lemma demo_received_ok : received_ok (DB := gmap bytes bytes) (demo_engine demo_consumers) demo_state demo_batch (λ _, demo_entity) (λ _, demo_changes).
Proof.
  apply (source_received_ok demo_derived [BigIntColumnType] [BigIntColumnType] [BigIntColumnType] [BigIntColumnType] (Some [1%nat]) [demo_column 0]
    (demo_engine demo_consumers) demo_state 1001 ∅ demo_batch demo_changes demo_setup demo_source_rows), derived_empty.
Qed.


(** The same rows, and one for a view that was dropped. *)
Definition demo_batch_dropped : list ForwardRow := demo_batch ++ [demo_received 2000 3 None (Some (demo_event 3 30))].
Definition demo_nobody : Entity (DB := gmap bytes bytes) :=
  MkEntity (MkRemoteConsumer [] (λ _ ctx, Ok ctx)) (λ _, false) (λ _, True) (λ _, True) (λ _ _, True).
Definition demo_entities (e : Z) : Entity (DB := gmap bytes bytes) := if decide (e = 1001) then demo_entity else demo_nobody.

Lemma demo_dropped_ok : received_ok (DB := gmap bytes bytes) (demo_engine demo_consumers) demo_state demo_batch_dropped demo_entities (λ _, demo_changes).
Proof.
  destruct demo_received_ok as [Hord Hent _ Howns Hkeys _]. split.
  - done.
  - intros e _ Hk. assert (e = 1001) as ->. { cbn in Hk. unfold demo_consumers in Hk. symmetry. by apply lookup_singleton_is_Some in Hk. }
    change (rows_for demo_batch_dropped 1001) with (rows_for demo_batch 1001). apply (Hent 1001); [by left|by eexists].
  - intros i j _ _ Hij k Hi Hj. unfold demo_entities in Hi, Hj. repeat case_decide; [congruence|done..].
  - intros e k _ Hk. unfold demo_entities in Hk. case_decide; [|done]. subst e. apply (Howns 1001); [by left|done].
  - apply Forall_app. split; [done|]. apply Forall_singleton. by eexists.
  - vm_compute. split; reflexivity.
Qed.

Lemma unknown_entity_drops_batch_witness :
  ∃ wb, HandleBatch (demo_engine demo_consumers) demo_state (NewWriteBatch 1000) demo_batch_dropped false demo_uid = Ok (demo_state, wb, i64 3).
Proof.
  apply (unknown_entity_drops_batch (DB := gmap bytes bytes) (demo_engine demo_consumers) demo_state demo_batch_dropped
    (demo_received 2000 3 None (Some (demo_event 3 30))) demo_uid demo_entities (λ _, demo_changes));
    [split; vm_compute; congruence|reflexivity|exact demo_dropped_ok| |exact demo_coherent|apply sim_available].
  exists (demo_received 2000 3 None (Some (demo_event 3 30))). split; [right; right; by left|reflexivity].
Defined.

(** A processor that finds the rows in the receiver table. *)
Definition demo_restarted : ShardProcessor SimCluster SimLRU :=
  MkShardProcessor (MkSimCluster [(None, map (λ row, KVSet (KeyBytes row) (RowBytes row)) demo_batch)] 1 (NoDup_nil_2 (A := bytes))) (NewRowCache 1000 4096) ∅.

Lemma leftover_rows_reprocessed_witness :
  HandleBatch (demo_engine demo_consumers) demo_restarted (NewWriteBatch 1000) [] true demo_uid =
  HandleBatch (demo_engine demo_consumers) demo_restarted (NewWriteBatch 1000) demo_batch false demo_uid.
Proof.
  apply (leftover_rows_reprocessed (demo_engine demo_consumers) demo_restarted (NewWriteBatch 1000) demo_batch demo_uid);
    [discriminate| |reflexivity|vm_compute; reflexivity].
  constructor; [|constructor; [|constructor]]; (split; [split; vm_compute; congruence|]); (split; [split; vm_compute; congruence|]); exists []; reflexivity.
Defined.

Lemma view_rows_keyed_by_source_witness :
  row_keyb demo_large 1000 (view_row (d_scan demo_derived) (d_projection demo_derived) (demo_event 1 20)) =
    row_keyb demo_large 1000 (view_row (d_scan demo_derived) (d_projection demo_derived) (demo_event 2 20)) ↔
  row_keyb demo_events 1000 (demo_event 1 20) = row_keyb demo_events 1000 (demo_event 2 20).
Proof.
  apply (view_rows_keyed_by_source demo_events demo_large (Some [1%nat]) [demo_column 0] (d_scan demo_derived) (d_projection demo_derived)
    (ds_view _ _ _ _ demo_setup) 1000 [BigIntColumnType] [BigIntColumnType] (d_predicates demo_derived));
    [apply (demo_derivable 1 20); by_decide|apply (demo_derivable 2 20); by_decide|reflexivity|reflexivity].
Defined.

(** Two changes of one key in a batch break what is derived from the table. The row
    before the second change is read from the row cache, which has the batch's own writes
    only after the batch is committed; so both changes say they replace the row that was
    stored before the batch. The index ends up with two entries for the one row. *)
Theorem same_key_twice_breaks_index :
  match runBatch (demo_engine demo_consumers) demo_state
    [demo_received 1001 1 None (Some (demo_event 1 20)); demo_received 1001 2 None (Some (demo_event 1 30))] false demo_uid with
  | Ok (st', _) =>
      let scan t := LocalScan (committed (sp_cluster st') 1000 : gmap bytes bytes) (EncodeTableKeyPrefix t 1000) (Some (EncodeTableKeyPrefix (t + 1) 1000)) (-1) in
      (length (scan 1001), length (scan 1002))
  | _ => (0, 0)%nat
  end = (1, 2)%nat.
Proof. vm_compute. reflexivity. Qed.
