(* ===== verification/AggregateFlow.v ===== *)
(** * Aggregation across shards

    The two halves of an aggregation: a change is forwarded to the shard of its group
    ([agg_HandleRows]), with bytes that the engine there decodes to the same change; and the
    aggregate table there, with what is derived from it, follows the rows
    ([HandleRemoteRows]). *)

From stdpp Require Import base list list_numbers strings gmap sorting.
From Stdlib Require Import ZArith Lia.
From S2P Require Import Prelude Encoding Timestamp Decimal Rows KeyEncoding RowEncoding Store WriteBatch Table LocalStore PullExec PullScan RowsBatch PushExec TableExec Views IndexExec RowCache Engine EngineProps SimCluster Sharder AggFuncs Aggregator AggregatorProps AggregateTable Pipeline.

(** ** An aggregator is an entity *)

Section entity.
Context {DB : Type} `{KVStore DB}.

(** An aggregator of counts and group columns, with a parent that keeps what it derives from
    the aggregates up to date; the rows of the groups are identified by their groups. *)
Record agg_setup (a : Aggregator) (shardID : Z) (firstv : AggregateFunction → bytes → option value) (U : Row → Prop)
    (c : Consumer (DB := DB)) (K' : Row → bytes) (U' : Row → Prop) : Prop := {
  gs_funcs : agg_funcs_ok a;
  gs_rows row : U row → groupable a shardID firstv row;
  gs_order hs : ag_rangeOrder a hs ≡ₚ (map_to_list hs).*1;
  gs_types : ag_childColTypes a ≠ [];
  gs_parent : Maintains shardID c (ag_colTypes a) K' U';
  gs_results k rows : is_group a shardID U k → U' (agg_row a firstv k rows);
  gs_keys k k' rows rows' : is_group a shardID U k → is_group a shardID U k' →
    K' (agg_row a firstv k rows) = K' (agg_row a firstv k' rows') ↔ k = k';
  gs_own : disjoint_owners (table_owns shardID (agg_info a)) (c_owns c)
}.

Context (a : Aggregator) (shardID : Z) (firstv : AggregateFunction → bytes → option value) (U : Row → Prop).
Context (c : Consumer (DB := DB)) (K' : Row → bytes) (U' : Row → Prop).

Definition agg_owns (k : bytes) : bool := table_owns shardID (agg_info a) k || c_owns c k.

(** The store has the aggregates of the rows [M], and what is derived from them. *)
Definition agg_inv (db : DB) (M : list Row) : Prop :=
  ∃ G, aggregates a shardID firstv U M G ∧ agg_stored a shardID db G ∧ c_inv c db (table_rows G).

Lemma HandleRemoteRows_inv (db : DB) M chs M' b ctx puts dels rngs : agg_setup a shardID firstv U c K' U' →
  batch_rep (ag_childColTypes a) b chs → changed M chs M' → Forall (in_group a shardID U) chs → agg_inv db M →
  (∀ k, agg_owns k = true → ctx_RowCache ctx k = Ok (kv_get db k)) →
  wb_ShardID (ctx_WriteBatch ctx) = shardID → wb_rep (ctx_WriteBatch ctx) puts dels rngs →
  ∃ wb puts' dels', HandleRemoteRows a (c_handle c) b ctx = Ok (with_WriteBatch ctx wb) ∧
    wb_ShardID wb = shardID ∧ wb_rep wb (puts ++ puts') (dels ++ dels') rngs ∧
    Forall (λ kv, agg_owns kv.1 = true) puts' ∧ Forall (λ k, agg_owns k = true) dels' ∧
    ∀ P D, puts_of agg_owns P = puts' → dels_of agg_owns D = dels' → agg_inv (kv_apply db (batch_ops P D)) M'.
Proof using Type.
  intros [Hf HU Ho _ Hm Hr HK Hown] Hb Hch Hgs (G & HG & Hdb & Hinv) Hcache Hsh Hwb. unfold agg_owns in *.
  destruct (HandleRemoteRows_ok a shardID firstv U Hf HU Ho db ctx M G HG Hdb) with (chs := chs) (M' := M') (c := c) (K' := K') (U' := U') (b := b)
    (puts := puts) (dels := dels) (rngs := rngs) as (wb & p' & d' & G' & ? & ? & ? & ? & ? & ? & Hfin); try done.
  - intros k Hk. apply Hcache. unfold table_owns. by rewrite bool_decide_eq_true_2.
  - intros k Hk. apply Hcache. by rewrite Hk, orb_true_r.
  - exists wb, p', d'. split_and!; try done. intros P D HP HD. exists G'. by destruct (Hfin P D HP HD).
Qed.

Definition agg_entity (M : list Row) : Entity (DB := DB) := {|
  e_consumer := MkRemoteConsumer (ag_childColTypes a) (HandleRemoteRows a (c_handle c));
  e_owns := agg_owns;
  e_pre := λ db, agg_inv db M;
  e_accepts := λ chs, Forall (in_group a shardID U) chs ∧ ∃ M', changed M chs M';
  e_post := λ chs db, ∃ M', changed M chs M' ∧ agg_inv db M'
|}.

Lemma agg_handles M : agg_setup a shardID firstv U c K' U' → HandlesRows shardID (agg_entity M).
Proof using Type.
  intros Hs. split; [by apply Hs|]. intros db chs b ctx puts dels rngs Hb [Hgs [M' Hch]] Hpre Hcache Hsh Hwb. simpl in *.
  destruct (HandleRemoteRows_inv db M chs M' b ctx puts dels rngs) as (wb & p' & d' & ? & ? & ? & ? & ? & Hfin); try done.
  exists wb, p', d'. split_and!; try done. intros P D HP HD. exists M'. auto.
Qed.

End entity.

(** ** Forwarding *)

(** The batch for a shard, empty when there is none yet. *)
Definition remote (ctx : ExecutionContext) (s : Z) : WriteBatch := default (NewWriteBatch s) (ctx_RemoteBatches ctx !! s).

Section forwarding.
Context (a : Aggregator).

(** The shard of a group: the one picked by the hash of the key of its columns, or the one
    chosen for an aggregation without such columns. *)
Definition group_shard (ids : list Z) (gcts : list ColumnType) (vs : list value) : Z :=
  if decide (ag_soloAggShard a = -1) then hash_shard ids (cols_bytes key_bytes gcts vs) else u64 (ag_soloAggShard a).

(** The row whose group a change belongs to. *)
Definition group_row (ch : change) : option Row := match ch.1.2 with Some row => Some row | None => ch.1.1 end.

(** A change that can be forwarded: its rows can be encoded, it has a receiver sequence,
    and [group] has the values of its group columns, none of them null. *)
Definition forwardable (gcts : list ColumnType) (group : change → list value) (ch : change) : Prop :=
  change_ok (Forall2 row_cell_ok (ag_childColTypes a)) ch ∧ ch.2 ≠ 0 ∧ Forall2 key_value_ok gcts (group ch) ∧
  ∃ row, group_row ch = Some row ∧ cells_at row (ag_groupByCols a) = Some (map Some (group ch)).

Context (ids : list Z) (gcts : list ColumnType) (group : change → list value).
Hypothesis Hids : has_shards (ag_sharder a) ids.
Hypothesis Hgcts : types_at (ag_childColTypes a) (ag_groupByCols a) = Some gcts.

Definition change_shard (ch : change) : Z := group_shard ids gcts (group ch).

Lemma groupShard_ok ch : forwardable gcts group ch → groupShard a ch.1.1 ch.1.2 = Ok (change_shard ch).
Proof using Hids Hgcts.
  intros (_ & _ & Hok & row & Hrow & Hcells). unfold groupShard, change_shard, group_shard, group_row in *. case_decide as E; [|by rewrite (proj2 (Z.eqb_neq _ _) E)].
  rewrite E. cbn [Z.eqb negb]. replace (rowOf ch.1.1 ch.1.2) with (Ok row) by (unfold rowOf; destruct ch.1.2, ch.1.1; congruence). osimpl.
  rewrite (EncodeKeyCols_eq _ _ _ _ _ [] Hcells Hgcts Hok). osimpl. rewrite app_nil_l. by apply CalculateShard_ok.
Qed.

(** Changes with equal group columns have the same shard. *)
Lemma same_group_shard ch ch' : forwardable gcts group ch → forwardable gcts group ch' →
  cols_compare value_compare (group ch) (group ch') = Eq → change_shard ch = change_shard ch'.
Proof using Type.
  intros (_ & _ & Hok & _) (_ & _ & Hok' & _) E. unfold change_shard, group_shard. case_decide; [|done]. f_equal. apply bytes_cmp_eq.
  pose proof (cols_code key_value_ok key_bytes value_compare gcts (λ ct, value_code ct)) as Hcode.
  pose proof (ordered_code (OrderedCode := Hcode) _ _ [] [] Hok Hok') as Ho. rewrite !app_nil_r, E in Ho. done.
Qed.

Definition forward_key (ctx : ExecutionContext) (ch : change) : bytes :=
  EncodeKeyForForwardAggregation (if negb (ctx_FillTableID ctx =? -1) then u64 (ctx_FillTableID ctx) else ag_tableID a)
    (wb_ShardID (ctx_WriteBatch ctx)) (u64 ch.2) (ag_tableID a).
Definition forward_value (ch : change) : bytes :=
  EncodePrevAndCurrentRow (option_bytes (ag_childColTypes a) ch.1.1) (option_bytes (ag_childColTypes a) ch.1.2).
Definition forward_put (ctx : ExecutionContext) (ch : change) : bytes * bytes := (forward_key ctx ch, forward_value ch).

Lemma encodeOptional_ok cts row : (∀ x, row = Some x → Forall2 row_cell_ok cts x) → encodeOptional cts row = Ok (option_bytes cts row).
Proof using Type. intros Hok. destruct row as [row|]; [|done]. simpl. by rewrite (EncodeRow_eq _ _ _ (Hok _ eq_refl)). Qed.

Lemma forward_entry_ok ctx ch : forwardable gcts group ch →
  forward_entry a ctx ch.1.1 ch.1.2 ch.2 = Ok (AddToForwardBatch ctx (change_shard ch) (forward_key ctx ch) (forward_value ch)).
Proof using Hids Hgcts.
  intros Hf. pose proof Hf as ([Hp Hc] & Hn & _). unfold forward_entry. rewrite (groupShard_ok ch Hf), !encodeOptional_ok by done. osimpl. by rewrite (proj2 (Z.eqb_neq ch.2 0)).
Qed.

Lemma forward_entries_ok chs (shard := change_shard) : ∀ ctx, Forall (forwardable gcts group) chs →
  ∃ ctx', foldM (λ ctx '(p, c, n), forward_entry a ctx p c n) ctx chs = Ok ctx' ∧ ctx_WriteBatch ctx' = ctx_WriteBatch ctx ∧ ctx_FillTableID ctx' = ctx_FillTableID ctx ∧
    ∀ s puts dels rngs, wb_rep (remote ctx s) puts dels rngs →
      wb_rep (remote ctx' s) (puts ++ map (forward_put ctx) (filter (λ ch, shard ch = s) chs)) dels rngs.
Proof using Hids Hgcts.
  induction chs as [|ch chs IH]; intros ctx Hok; cbn [foldM].
  { exists ctx. split_and!; try done. intros s puts dels rngs Hr. by rewrite app_nil_r. }
  apply Forall_cons in Hok as [Hok1 Hok]. pose proof (forward_entry_ok ctx ch Hok1) as E. destruct ch as [[p c] n]. cbn [fst snd] in E. rewrite E. osimpl.
  set (ch := (p, c, n)) in *. set (ctx1 := AddToForwardBatch ctx (shard ch) (forward_key ctx ch) (forward_value ch)).
  destruct (IH ctx1 Hok) as (ctx' & Hrun & Hwb & Hfill & Hrem). exists ctx'. split_and!; [done..|]. intros s puts dels rngs Hr. rewrite filter_cons.
  assert (Hputs : ∀ l, map (forward_put ctx1) l = map (forward_put ctx) l) by done. rewrite <- Hputs. case_decide as Hs; cbn [map].
  - rewrite cons_middle, app_assoc. apply Hrem. unfold remote, ctx1. cbn [AddToForwardBatch ctx_RemoteBatches]. rewrite Hs, lookup_insert_eq. simpl.
    apply (AddPut_rep (remote ctx s)). done.
  - apply Hrem. unfold remote, ctx1. cbn [AddToForwardBatch ctx_RemoteBatches]. by rewrite lookup_insert_ne.
Qed.
End forwarding.

(** C19. The changes of a batch are forwarded each to the shard of its group, in order and
    once: the shard picked by hashing the encoded values of its group columns, or the
    aggregation's own shard when it has no group columns; changes whose group columns are
    equal go to the same shard. What is forwarded is decoded by the receiver to the same
    change, and the batch written locally is left alone. *)
Theorem group_changes_forwarded (a : Aggregator) (ids : list Z) (gcts : list ColumnType) (group : change → list value)
    (b : RowsBatch) (chs : list change) (ctx : ExecutionContext) (shard := change_shard a ids gcts group) :
  has_shards (ag_sharder a) ids → types_at (ag_childColTypes a) (ag_groupByCols a) = Some gcts →
  batch_rep (ag_childColTypes a) b chs → Forall (forwardable a gcts group) chs →
  Forall (λ ch, i64_ok ch.2 ∧ Z.of_nat (length (forward_value a ch)) < two32) chs →
  (∀ ch ch', ch ∈ chs → ch' ∈ chs → cols_compare value_compare (group ch) (group ch') = Eq → shard ch = shard ch') ∧
  ∃ ctx', agg_HandleRows a b ctx = Ok ctx' ∧ ctx_WriteBatch ctx' = ctx_WriteBatch ctx ∧
    ∀ s puts dels rngs, wb_rep (remote ctx s) puts dels rngs →
      wb_rep (remote ctx' s) (puts ++ map (forward_put a ctx) (filter (λ ch, shard ch = s) chs)) dels rngs ∧
      ∃ b', decodeRawRows (ag_childColTypes a) (map (λ ch : change, MkRawRow (u64 ch.2) (forward_value a ch)) (filter (λ ch, shard ch = s) chs)) = Ok b' ∧
        batch_rep (ag_childColTypes a) b' (filter (λ ch, shard ch = s) chs).
Proof.
  intros Hids Hg Hb Hok Hlen. split; [rewrite Forall_forall in Hok; intros; apply same_group_shard; auto|].
  unfold agg_HandleRows. rewrite (forEntries_eq _ _ _ Hb). destruct (forward_entries_ok a ids gcts group Hids Hg chs ctx Hok) as (ctx' & -> & Hwb & _ & Hrem).
  exists ctx'. split_and!; [done..|]. intros s puts dels rngs Hr. split; [by apply Hrem|]. apply decodeRawRows_ok; [by destruct Hb|].
  apply Forall2_fmap_l, Forall_Forall2_diag, Forall_forall. intros ch [_ Hin]%list_elem_of_filter. rewrite Forall_forall in Hok, Hlen.
  destruct (Hok _ Hin) as (Hrows & _), (Hlen _ Hin) as [Hn Hl]. split_and!; [done|done|done|]. simpl. by rewrite i64_u64.
Qed.

(** ** An example: events counted by their first column *)

Definition demo_count : Aggregator :=
  MkAggregator demo_types [MkAggregateFunction FirstRowAggregateFunctionType (demo_column 0) BigIntColumnType;
    MkAggregateFunction CountAggregateFunctionType (demo_column 1) BigIntColumnType]
    1010 [0%nat] demo_types (MkSharder (Some [1000; 1001]) true) (-1) (λ hs, (map_to_list hs).*1).
(** The counts as a materialized view. *)
Definition demo_counts : TableInfo := MkTableInfo 1011 [] (lit "counts") [0%nat] [] demo_types None 0 0.
Definition demo_parent : Consumer (DB := gmap bytes bytes) := table_consumer 1000 (MkTableExecutor demo_counts false 0 false false) [BigIntColumnType] [].

Definition is_event (row : Row) : Prop := ∃ x y, i64_ok x ∧ i64_ok y ∧ row = demo_event x y.
Definition demo_groupKey (x : Z) : bytes := EncodeTableKeyPrefix 1010 1000 ++ int64_bytes x.
Definition demo_first (f : AggregateFunction) (k : bytes) : option value := match KeyDecodeInt64 k 16 with Ok (v, _) => Some (VInt v) | _ => None end.

Lemma demo_gkey x y : i64_ok x →
  EncodeKeyCols (demo_event x y) [0%nat] demo_types (EncodeTableKeyPrefix 1010 1000) = Ok (demo_groupKey x) ∧ gkey demo_count 1000 (demo_event x y) = demo_groupKey x ∧
  ∀ f, demo_first f (demo_groupKey x) = Some (VInt x).
Proof.
  intros Hx. assert (E : EncodeKeyCols (demo_event x y) [0%nat] demo_types (EncodeTableKeyPrefix 1010 1000) = Ok (demo_groupKey x)).
  { rewrite (EncodeKeyCols_eq _ _ _ [BigIntColumnType] [VInt x]); [|done|done|by constructor]. unfold demo_groupKey. cbn [cols_bytes]. by rewrite app_nil_r. }
  split_and!; [done|unfold gkey; cbn [ag_groupByCols ag_childColTypes ag_tableID demo_count]; by rewrite E|]. intros f. unfold demo_first, demo_groupKey.
  rewrite <- (app_nil_r (int64_bytes x)), (KeyDecodeInt64_app _ _ []); [done|done|]. by vm_compute.
Qed.

Lemma demo_group_key x y : i64_ok x → i64_ok y → demo_groupKey x = demo_groupKey y → x = y.
Proof.
  intros Hx Hy E. destruct (demo_gkey x 0 Hx) as (_ & _ & Ex), (demo_gkey y 0 Hy) as (_ & _ & Ey).
  specialize (Ex (MkAggregateFunction CountAggregateFunctionType (demo_column 1) BigIntColumnType)). rewrite E, Ey in Ex. by injection Ex.
Qed.

Lemma demo_agg_row x rows (f := MkAggregateFunction CountAggregateFunctionType (demo_column 1) BigIntColumnType) : i64_ok x →
  agg_row demo_count demo_first (demo_groupKey x) rows = demo_event x (i64 (count f rows)).
Proof. intros Hx. unfold agg_row. simpl. unfold agg_cell. simpl. destruct (demo_gkey x 0 Hx) as (_ & _ & E). by rewrite E. Qed.

Lemma demo_counts_row x y : i64_ok x → i64_ok y → row_ok demo_counts [BigIntColumnType] (demo_event x y) ∧
  row_keyb demo_counts 1000 (demo_event x y) = EncodeTableKeyPrefix 1011 1000 ++ int64_bytes x.
Proof.
  intros Hx Hy. assert (Hpk : pk_values demo_counts (demo_event x y) [BigIntColumnType] [VInt x]) by (split_and!; [done|done|by constructor]). split.
  - split; [by exists [VInt x]|by constructor; [|constructor]].
  - unfold row_keyb. rewrite (encodeKeyFromRow_eq _ _ _ _ _ Hpk). unfold row_key. cbn [cols_bytes]. by rewrite app_nil_r.
Qed.

Lemma demo_agg_setup : agg_setup demo_count 1000 demo_first is_event demo_parent (row_keyb demo_counts 1000) (row_ok demo_counts [BigIntColumnType]).
Proof.
  assert (Hgroup : ∀ k, is_group demo_count 1000 is_event k → ∃ x, i64_ok x ∧ k = demo_groupKey x).
  { intros k (row & (x & y & Hx & Hy & ->) & <-). exists x. split; [done|]. by apply demo_gkey. }
  split.
  - split; [done| |].
    + intros f [->|[->|[]%not_elem_of_nil]%elem_of_cons]%elem_of_cons; [done|]. by repeat constructor.
    + eexists. split; [by left|done].
  - intros row (x & y & Hx & Hy & ->). destruct (demo_gkey x y Hx) as (E1 & E2 & E3). unfold groupable. rewrite E2. split_and!; [done|by apply prefix_app_r|].
    constructor; [|constructor; [by eexists|constructor]]. unfold arg_ok. simpl. rewrite E2, E3. done.
  - done.
  - done.
  - apply (table_maintains 1000 (MkTableExecutor demo_counts false 0 false false)); [done|done|constructor|done|]. by intros k _ ?.
  - intros k rows (x & Hx & ->)%Hgroup. rewrite demo_agg_row by done. apply demo_counts_row; [done|apply i64_range].
  - intros k k' rows rows' (x & Hx & ->)%Hgroup (x' & Hx' & ->)%Hgroup. rewrite !demo_agg_row by done.
    destruct (demo_counts_row x (i64 (count (MkAggregateFunction CountAggregateFunctionType (demo_column 1) BigIntColumnType) rows)) Hx (i64_range _)) as [_ ->].
    destruct (demo_counts_row x' (i64 (count (MkAggregateFunction CountAggregateFunctionType (demo_column 1) BigIntColumnType) rows')) Hx' (i64_range _)) as [_ ->].
    unfold demo_groupKey. split; intros E; f_equal; by apply app_inv_head in E.
  - intros k Hk Hk'. unfold demo_parent in Hk'. cbn [c_owns table_consumer all_own existsb te_TableInfo] in Hk'. rewrite orb_false_r in Hk'.
    unfold table_owns in Hk, Hk'. rewrite bool_decide_eq_true in Hk, Hk'. cbn [ti_ID agg_info demo_counts ag_tableID demo_count] in Hk, Hk'.
    destruct Hk as [s ->], Hk' as [s' E]. apply app_inj_1 in E as [E _]; [|done]. by vm_compute in E.
Qed.

Definition demo_agg_batch : RowsBatch :=
  NewRowsBatch (MkRows demo_types [[Some (VInt 1); Some (VInt 1); Some (VInt 2)]; [Some (VInt 10); Some (VInt 30); Some (VInt 7)]] 0)
    [NewRowsEntry (-1) 0 1; NewRowsEntry (-1) 1 2; NewRowsEntry (-1) 2 3].
Definition demo_agg_changes : list change := [(None, Some (demo_event 1 10), 1); (None, Some (demo_event 1 30), 2); (None, Some (demo_event 2 7), 3)].
Definition demo_context (cache : bytes → outcome (option bytes)) : ExecutionContext := NewExecutionContext (NewWriteBatch 1000) cache (-1) ∅.

Lemma demo_agg_rep : batch_rep demo_types demo_agg_batch demo_agg_changes.
Proof.
  split; [done|]. eexists _, [demo_event 1 10; demo_event 1 30; demo_event 2 7]. split; [done|]. split; [done|].
  split; [split; [reflexivity|by repeat constructor]|]. repeat constructor; vm_compute; try done; by split.
Qed.

Lemma demo_agg_in_group : Forall (in_group demo_count 1000 is_event) demo_agg_changes.
Proof.
  assert (Hev : ∀ x y n, i64_ok x → i64_ok y → in_group demo_count 1000 is_event (None, Some (demo_event x y), n)).
  { intros x y n Hx Hy. split; [|split; [right; discriminate|intros p c E; discriminate E]]. split; [intros r E; discriminate E|].
    intros r [= <-]. exists x, y. by split_and!. }
  repeat (apply Forall_cons; split; [apply Hev; by_decide|]). apply Forall_nil_2.
Qed.


(** The group of a change is the first column of its row. *)
Definition demo_group (ch : change) : list value := match group_row ch with Some (Some v :: _) => [v] | _ => [] end.
Definition demo_shard (ch : change) : Z := change_shard demo_count [1000; 1001] [BigIntColumnType] demo_group ch.

Lemma group_changes_forwarded_witness :
  ∃ ctx', agg_HandleRows demo_count demo_agg_batch (demo_context (λ _, Ok None)) = Ok ctx' ∧
    wb_rep (remote ctx' 1000) (map (forward_put demo_count (demo_context (λ _, Ok None))) (filter (λ ch, demo_shard ch = 1000) demo_agg_changes)) [] [].
Proof.
  destruct (group_changes_forwarded demo_count [1000; 1001] [BigIntColumnType] demo_group demo_agg_batch demo_agg_changes (demo_context (λ _, Ok None)))
    as (_ & ctx' & Hrun & _ & Hrem); [by split_and!|reflexivity|exact demo_agg_rep| | |].
  - unfold demo_agg_changes. rewrite !Forall_cons, Forall_nil. split_and!; [..|done];
      (split; [split; [done|]; intros x [= <-]; by repeat constructor|split; [done|split; [by repeat constructor|by eexists]]]).
  - unfold demo_agg_changes. rewrite !Forall_cons, Forall_nil. split_and!; [by_decide|vm_compute; reflexivity|by_decide|vm_compute; reflexivity|by_decide|vm_compute; reflexivity|done].
  - exists ctx'. split; [exact Hrun|]. apply (Hrem 1000 [] [] []). apply NewWriteBatch_rep.
Defined.

(** A change that moves a row to another group is counted in the new group only, once
    taken back and once added: an event moved from group 1, of which it is the only one,
    to group 2 leaves group 1 with its count of 1, and writes, under the key of group 2, a
    count of 0 with the group column of the old group. *)
Theorem group_change_miscounts (stored := row_bytes (agg_info demo_count) (demo_event 1 1)) :
  (let b := NewRowsBatch (MkRows demo_types [[Some (VInt 1); Some (VInt 2)]; [Some (VInt 10); Some (VInt 10)]] 0) [NewRowsEntry 0 1 1] in
   let cache k := Ok (if bool_decide (k = demo_groupKey 1) then Some stored else None) in
   ctx ← HandleRemoteRows demo_count (λ _ ctx, Ok ctx) b (demo_context cache);
   Ok (ctx_WriteBatch ctx)) = Ok (AddPut (NewWriteBatch 1000) (demo_groupKey 2) (row_bytes (agg_info demo_count) (demo_event 1 0))).
Proof. vm_compute. reflexivity. Qed.
