(* ===== verification/TableHeap.v ===== *)
(** * The heap of tables with a retention

    src/push/reaper/table_heap.go: the tables whose rows expire, ordered by the time of
    their next check, in a binary heap of Go's container/heap. The heap is a list; its
    specification is the multiset of its elements, of which the first is one of the
    earliest. *)

From stdpp Require Import base list list_numbers strings sorting.
From Stdlib Require Import ZArith Lia.
From S2P Require Import Prelude Encoding Table.

Record itemHolder := MkItemHolder {
  CheckTime : Z;
  it_Table : TableInfo
}.

(** ** container/heap over a list of elements with a key *)

Section heap.
Context {A : Type} (key : A → Z).

(** [Less(i, j)]; the indexes are in range where the heap calls it. *)
Definition Less (l : list A) (i j : nat) : bool :=
  match l !! i, l !! j with Some x, Some y => key x <? key y | _, _ => false end.

Definition Swap (l : list A) (i j : nat) : list A :=
  match l !! i, l !! j with Some x, Some y => <[i := y]> (<[j := x]> l) | _, _ => l end.

(** The element at [j] moves up; the parent of 0 is 0. *)
Fixpoint up (fuel : nat) (l : list A) (j : nat) : list A :=
  match fuel with
  | O => l
  | S fuel =>
      let i := ((j - 1) / 2)%nat in
      if (i =? j)%nat || negb (Less l j i) then l else up fuel (Swap l i j) i
  end.

(** The element at [i] moves down, among the first [n]. *)
Fixpoint down (fuel : nat) (l : list A) (i n : nat) : list A :=
  match fuel with
  | O => l
  | S fuel =>
      let j1 := (2 * i + 1)%nat in
      if (n <=? j1)%nat then l
      else
        let j2 := (j1 + 1)%nat in
        let j := if (j2 <? n)%nat && Less l j2 j1 then j2 else j1 in
        if negb (Less l j i) then l else down fuel (Swap l i j) j n
  end.

Definition heap_Push (l : list A) (x : A) : list A :=
  let l := l ++ [x] in
  up (length l) l (length l - 1).

Definition heap_Pop (l : list A) : outcome (A * list A) :=
  match l with
  | [] => Panic "index out of range [-1]"
  | _ =>
      let n := (length l - 1)%nat in
      let l := down n (Swap l 0 n) 0 n in
      x ← index l n;
      Ok (x, take n l)
  end.

(** ** Exchanges *)

Lemma Swap_length l i j : length (Swap l i j) = length l.
Proof using Type. unfold Swap. destruct (l !! i), (l !! j); by rewrite ?length_insert. Qed.

Definition transpose (i j k : nat) : nat := if decide (k = i) then j else if decide (k = j) then i else k.

Lemma Swap_lookup l i j k : (i < length l)%nat → (j < length l)%nat → Swap l i j !! k = l !! transpose i j k.
Proof using Type.
  intros Hi Hj. unfold Swap, transpose. destruct (lookup_lt_is_Some_2 l i Hi) as [x Hx], (lookup_lt_is_Some_2 l j Hj) as [y Hy]. rewrite Hx, Hy.
  destruct (decide (k = i)) as [->|Hki]; [by rewrite list_lookup_insert_eq by by rewrite length_insert|]. rewrite list_lookup_insert_ne by done.
  destruct (decide (k = j)) as [->|Hkj]; [by rewrite list_lookup_insert_eq|by rewrite list_lookup_insert_ne].
Qed.

Lemma Swap_perm l i j : (i < length l)%nat → (j < length l)%nat → Swap l i j ≡ₚ l.
Proof using Type.
  intros Hi Hj. apply Permutation_inj. split; [apply Swap_length|]. exists (transpose i j). split; [|intros k; by apply Swap_lookup].
  intros k k'. unfold transpose. repeat case_decide; lia.
Qed.

(** ** Heap order *)

Definition parent (i : nat) : nat := ((i - 1) / 2)%nat.

Definition le_at (l : list A) (i j : nat) : Prop := ∀ x y, l !! i = Some x → l !! j = Some y → key x ≤ key y.

Definition heap_ok (l : list A) : Prop := ∀ i, (0 < i)%nat → le_at l (parent i) i.

Lemma parent_lt i : (0 < i)%nat → (parent i < i)%nat.
Proof using Type. intros Hi. unfold parent. apply Nat.Div0.div_lt_upper_bound. lia. Qed.

Lemma parent_child i j : parent j = i ∧ (0 < j)%nat ↔ j = (2 * i + 1)%nat ∨ j = (2 * i + 2)%nat.
Proof using Type.
  unfold parent. pose proof (Nat.div_mod_eq (j - 1) 2). pose proof (Nat.mod_upper_bound (j - 1) 2). split; [lia|].
  intros [->| ->]; split; lia.
Qed.

Lemma heap_min l x : heap_ok l → head l = Some x → ∀ i y, l !! i = Some y → key x ≤ key y.
Proof using Type.
  intros Hl Hx i. induction i as [i IH] using lt_wf_ind. intros y Hy. destruct (decide (i = 0%nat)) as [->|Hi].
  - destruct l; [done|]. simpl in *. simplify_eq. lia.
  - pose proof (parent_lt i ltac:(lia)) as Hp. destruct (lookup_lt_is_Some_2 l (parent i)) as [z Hz]; [apply lookup_lt_Some in Hy; lia|].
    specialize (IH _ Hp z Hz). specialize (Hl i ltac:(lia) z y Hz Hy). lia.
Qed.

(** ** An element moves up *)

(** The order holds but for the element at [j], which may be too small for its parent. *)
Definition heap_above (l : list A) (j : nat) : Prop :=
  (∀ i, (0 < i)%nat → i ≠ j → le_at l (parent i) i) ∧ (∀ i, (0 < i)%nat → parent i = j → (0 < j)%nat → le_at l (parent j) i).

Lemma Less_true l i j x y : l !! i = Some x → l !! j = Some y → Less l i j = (key x <? key y).
Proof using Type. intros Hx Hy. unfold Less. by rewrite Hx, Hy. Qed.

Lemma up_step l j (i := parent j) : (0 < j)%nat → (j < length l)%nat → heap_above l j → Less l j i = true → heap_above (Swap l i j) i.
Proof using Type.
  intros Hj Hlt [Hheap Hkids] Hless. pose proof (parent_lt j Hj) as Hij. fold i in Hij.
  destruct (lookup_lt_is_Some_2 l i) as [xi Hxi]; [lia|]. destruct (lookup_lt_is_Some_2 l j Hlt) as [xj Hxj].
  rewrite (Less_true _ _ _ _ _ Hxj Hxi) in Hless. apply Z.ltb_lt in Hless.
  assert (Hsw : ∀ k, Swap l i j !! k = l !! transpose i j k) by (intros k; apply Swap_lookup; lia).
  split.
  - intros k Hk Hki x y. rewrite !Hsw. unfold transpose. destruct (decide (k = i)) as [|_]; [done|]. destruct (decide (k = j)) as [->|Hkj].
    + fold i. rewrite decide_True by done. rewrite Hxi. intros Hx [= <-]. rewrite Hxj in Hx. simplify_eq. lia.
    + destruct (decide (parent k = i)) as [Hpi|Hpi].
      * rewrite Hxj. intros [= <-] Hy. pose proof (Hheap k Hk Hkj xi y) as Hle. rewrite Hpi in Hle. specialize (Hle Hxi Hy). lia.
      * destruct (decide (parent k = j)) as [Hpj|Hpj]; [|by apply Hheap]. rewrite Hxi. intros [= <-] Hy. apply (Hkids k Hk Hpj Hj xi y Hxi Hy).
  - intros k Hk Hpk Hi x y. pose proof (parent_lt i Hi) as Hpi. rewrite !Hsw. unfold transpose.
    rewrite (decide_False (P := parent i = i)), (decide_False (P := parent i = j)) by lia. pose proof (parent_lt k Hk).
    rewrite (decide_False (P := k = i)) by lia. destruct (decide (k = j)) as [->|Hkj].
    + rewrite Hxi. intros Hx [= <-]. apply (Hheap i Hi ltac:(lia) x xi Hx Hxi).
    + intros Hx Hy. pose proof (Hheap i Hi ltac:(lia) x xi Hx Hxi). pose proof (Hheap k Hk Hkj xi y) as Hle. rewrite Hpk in Hle. specialize (Hle Hxi Hy). lia.
Qed.

Lemma up_ok fuel : ∀ l j, (j < fuel)%nat → (j < length l)%nat → heap_above l j → heap_ok (up fuel l j) ∧ up fuel l j ≡ₚ l.
Proof using Type.
  induction fuel as [|fuel IH]; intros l j Hf Hlt Hl; [lia|]. cbn [up]. fold (parent j). destruct (decide (j = 0%nat)) as [->|Hj].
  { simpl. split; [|done]. intros i Hi. destruct Hl as [Hl _]. apply Hl; lia. }
  pose proof (parent_lt j ltac:(lia)) as Hp. rewrite (proj2 (Nat.eqb_neq (parent j) j)) by lia. simpl. destruct (Less l j (parent j)) eqn:El; simpl.
  - destruct (IH (Swap l (parent j) j) (parent j)) as [H1 H2]; [lia|by rewrite Swap_length; lia|by apply up_step; [lia|..]|].
    split; [done|]. rewrite H2. apply Swap_perm; lia.
  - split; [|done]. intros i Hi. destruct (decide (i = j)) as [->|Hij]; [|by apply Hl]. intros x y Hx Hy.
    rewrite (Less_true _ _ _ _ _ Hy Hx) in El. apply Z.ltb_ge in El. done.
Qed.

Lemma heap_Push_ok l x : heap_ok l → heap_ok (heap_Push l x) ∧ heap_Push l x ≡ₚ x :: l.
Proof using Type.
  intros Hl. unfold heap_Push. rewrite length_app. simpl. rewrite Nat.add_1_r, Nat.sub_1_r, Nat.pred_succ.
  destruct (up_ok (S (length l)) (l ++ [x]) (length l)) as [H1 H2]; [lia|rewrite length_app; simpl; lia| |].
  - split.
    + intros i Hi Hne y z Hy Hz. pose proof (parent_lt i Hi). pose proof (lookup_lt_Some _ _ _ Hz) as Hlz. rewrite length_app in Hlz. simpl in Hlz.
      rewrite lookup_app_l in Hy, Hz by lia. by apply (Hl i Hi).
    + intros i Hi Hpi _ y z _ Hz. apply lookup_lt_Some in Hz. rewrite length_app in Hz. simpl in Hz. pose proof (parent_lt i Hi). lia.
  - split; [done|]. rewrite H2. by rewrite Permutation_app_comm.
Qed.

(** ** An element moves down *)

(** The order holds among the first [n], but the element at [i] may be too large. *)
Definition heap_below (n : nat) (l : list A) (i : nat) : Prop :=
  (∀ k, (0 < k < n)%nat → parent k ≠ i → le_at l (parent k) k) ∧ (∀ k, (0 < k < n)%nat → parent k = i → (0 < i)%nat → le_at l (parent i) k).
Definition heap_upto (n : nat) (l : list A) : Prop := ∀ k, (0 < k < n)%nat → le_at l (parent k) k.

(** [j] is a child of [i] that is no larger than its sibling. *)
Definition least_child (n : nat) (l : list A) (i j : nat) : Prop :=
  (0 < j < n)%nat ∧ parent j = i ∧ ∀ k, (0 < k < n)%nat → parent k = i → le_at l j k.

Lemma least_child_ok n l i (j1 := (2 * i + 1)%nat) (j2 := (j1 + 1)%nat) : (j1 < n)%nat → (n ≤ length l)%nat →
  least_child n l i (if (j2 <? n)%nat && Less l j2 j1 then j2 else j1).
Proof using Type.
  intros Hj1 Hn. destruct (lookup_lt_is_Some_2 l j1) as [x1 Hx1]; [lia|].
  assert (Hkids : ∀ k, (0 < k < n)%nat → parent k = i → k = j1 ∨ k = j2) by (intros k Hk Hp; destruct (proj1 (parent_child i k)); [lia|lia|subst j2; lia]).
  assert (Hp1 : parent j1 = i) by (apply (proj2 (parent_child i j1)); lia). assert (Hp2 : parent j2 = i) by (apply (proj2 (parent_child i j2)); lia).
  destruct (Nat.ltb_spec j2 n) as [Hj2|Hj2]; simpl.
  - destruct (lookup_lt_is_Some_2 l j2) as [x2 Hx2]; [lia|]. rewrite (Less_true _ _ _ _ _ Hx2 Hx1). destruct (Z.ltb_spec (key x2) (key x1)) as [Hlt|Hge].
    + split_and!; [lia|lia|done|]. intros k Hk Hpk x y Hx Hy. destruct (Hkids k Hk Hpk) as [->| ->]; simplify_eq; lia.
    + split_and!; [lia|lia|done|]. intros k Hk Hpk x y Hx Hy. destruct (Hkids k Hk Hpk) as [->| ->]; simplify_eq; lia.
  - split_and!; [lia|lia|done|]. intros k Hk Hpk x y Hx Hy. destruct (Hkids k Hk Hpk) as [->| ->]; [simplify_eq; lia|lia].
Qed.

Lemma down_step n l i j : (n ≤ length l)%nat → heap_below n l i → least_child n l i j → Less l j i = true → heap_below n (Swap l i j) j.
Proof using Type.
  intros Hn [Hheap Hkids] (Hj & Hpj & Hleast) Hless. pose proof (parent_lt j ltac:(lia)) as Hij. rewrite Hpj in Hij.
  destruct (lookup_lt_is_Some_2 l i) as [xi Hxi]; [lia|]. destruct (lookup_lt_is_Some_2 l j) as [xj Hxj]; [lia|].
  rewrite (Less_true _ _ _ _ _ Hxj Hxi) in Hless. apply Z.ltb_lt in Hless.
  assert (Hsw : ∀ k, Swap l i j !! k = l !! transpose i j k) by (intros k; apply Swap_lookup; lia).
  split.
  - intros k Hk Hpk x y. rewrite !Hsw. unfold transpose. rewrite (decide_False (P := parent k = j)) by done. pose proof (parent_lt k ltac:(lia)).
    destruct (decide (k = i)) as [->|Hki].
    + rewrite decide_False by lia. intros Hx Hy. simplify_eq. by apply (Hkids j); [lia|done|lia|..].
    + destruct (decide (k = j)) as [->|Hkj].
      * rewrite decide_True by done. intros Hx Hy. simplify_eq. lia.
      * destruct (decide (parent k = i)) as [Hpi|Hpi]; [|by apply Hheap]. intros Hx Hy. simplify_eq. by apply (Hleast k).
  - intros k Hk Hpk _ x y. rewrite !Hsw, Hpj. unfold transpose. rewrite (decide_True (P := i = i)) by done. pose proof (parent_lt k ltac:(lia)).
    rewrite (decide_False (P := k = i)), (decide_False (P := k = j)) by lia. intros Hx Hy. rewrite <- Hpk in Hx. apply (Hheap k Hk ltac:(lia) x y Hx Hy).
Qed.

Lemma down_ok n fuel : ∀ l i, (n ≤ fuel + i)%nat → (n ≤ length l)%nat → heap_below n l i →
  heap_upto n (down fuel l i n) ∧ down fuel l i n ≡ₚ l ∧ (∀ k, (n ≤ k)%nat → down fuel l i n !! k = l !! k).
Proof using Type.
  induction fuel as [|fuel IH]; intros l i Hf Hn Hl; cbn [down].
  { split_and!; [|done..]. intros k Hk. apply Hl; [lia|]. pose proof (parent_lt k ltac:(lia)). lia. }
  destruct (Nat.leb_spec n (2 * i + 1)) as [Hlast|Hlast].
  { split_and!; [|done..]. intros k Hk. apply Hl; [lia|]. intros Hp. destruct (proj1 (parent_child i k)); lia. }
  pose proof (least_child_ok n l i Hlast Hn) as Hc. set (j := if (2 * i + 1 + 1 <? n)%nat && Less l (2 * i + 1 + 1) (2 * i + 1) then (2 * i + 1 + 1)%nat else (2 * i + 1)%nat) in *. pose proof Hc as (Hj & Hpj & Hleast).
  pose proof (parent_lt j ltac:(lia)) as Hij. rewrite Hpj in Hij. destruct (Less l j i) eqn:El; simpl.
  - destruct (IH (Swap l i j) j) as (H1 & H2 & H3); [lia|by rewrite Swap_length|by apply down_step|]. split_and!; [done| |].
    + rewrite H2. apply Swap_perm; lia.
    + intros k Hk. rewrite H3, Swap_lookup by lia. unfold transpose. by rewrite !decide_False by lia.
  - split_and!; [|done..]. intros k Hk. destruct (decide (parent k = i)) as [Hp|Hp]; [|by apply Hl]. intros x y Hx Hy. rewrite Hp in Hx.
    destruct (lookup_lt_is_Some_2 l j) as [xj Hxj]; [lia|]. rewrite (Less_true _ _ _ _ _ Hxj Hx) in El. apply Z.ltb_ge in El.
    specialize (Hleast k Hk Hp xj y Hxj Hy). lia.
Qed.

(** What is popped is the first element, one with the least key. *)
Lemma heap_Pop_ok l x : heap_ok l → head l = Some x → ∃ l', heap_Pop l = Ok (x, l') ∧ heap_ok l' ∧ l ≡ₚ x :: l'.
Proof using Type.
  intros Hl Hx. destruct l as [|x0 l0] eqn:El; [done|]. rewrite <- El in *. unfold heap_Pop. rewrite El. rewrite <- El.
  set (n := (length l - 1)%nat). assert (Hn : length l = S n) by (subst n; rewrite El; simpl; lia).
  destruct (down_ok n n (Swap l 0 n) 0) as (H1 & H2 & H3); [lia|rewrite Swap_length; lia| |].
  - split; [|lia]. intros k Hk Hp y z. rewrite !Swap_lookup by lia. unfold transpose. pose proof (parent_lt k ltac:(lia)). rewrite !decide_False by lia. apply Hl. lia.
  - assert (Hxn : down n (Swap l 0 n) 0 n !! n = Some x).
    { rewrite H3, Swap_lookup by lia. unfold transpose. rewrite El in *. simpl in Hx. simplify_eq. case_decide as Hz; [|by rewrite decide_True].
      rewrite Hz. done. }
    rewrite (index_ok _ _ _ Hxn). osimpl. eexists. split; [done|]. split.
    + intros k Hk y z Hy Hz. pose proof (lookup_lt_Some _ _ _ Hz) as Hlz. rewrite length_take in Hlz. pose proof (parent_lt k Hk).
      rewrite lookup_take in Hy, Hz. case_decide; [|done]. case_decide; [|done]. by apply (H1 k); [lia|..].
    + rewrite <- (Swap_perm l 0 n), <- H2 at 1 by lia. rewrite <- (take_drop_middle _ _ _ Hxn) at 1. rewrite drop_ge.
      * by rewrite Permutation_app_comm.
      * apply Permutation_length in H2. rewrite Swap_length in H2. lia.
Qed.
End heap.

(** ** The heap of tables *)

Definition tableHeap := list itemHolder.

Definition heap_peek (h : tableHeap) : option itemHolder := head h.
Definition heap_push (h : tableHeap) (holder : itemHolder) : tableHeap := heap_Push CheckTime h holder.
Definition heap_pop (h : tableHeap) : outcome (itemHolder * tableHeap) := heap_Pop CheckTime h.
Definition heap_len (h : tableHeap) : nat := length h.

#[export] Instance itemHolder_inhabited : Inhabited itemHolder := populate (MkItemHolder 0 (MkTableInfo 0 [] [] [] [] [] None 0 0)).
