(* ===== verification/Reaper.v ===== *)
(** * Expiry of rows

    src/push/reaper/reaper.go: the reaper of a shard deletes the rows of tables with a
    retention once they are older than that. It finds them through the index on the time of
    the rows; a heap has the tables by the time of their next check. *)

From stdpp Require Import base list list_numbers strings gmap sorting.
From Stdlib Require Import ZArith Lia.
From S2P Require Import Prelude Encoding Timestamp Store WriteBatch Table TableHeap.

(** ** Time in microseconds *)

Definition leap (y : Z) : bool := ((y mod 4 =? 0) && negb (y mod 100 =? 0)) || (y mod 400 =? 0).
Definition daysIn (y m : Z) : Z :=
  if m =? 2 then (if leap y then 29 else 28) else if (m =? 4) || (m =? 6) || (m =? 9) || (m =? 11) then 30 else 31.
(** The days of the year before the month. *)
Definition daysBefore (y m : Z) : Z :=
  nth (Z.to_nat (m - 1)) [0; 31; 59; 90; 120; 151; 181; 212; 243; 273; 304; 334] 0 + (if (2 <? m) && leap y then 1 else 0).
(** The days from 1 January 1970 to the first of the year. *)
Definition yearStart (y : Z) : Z := 365 * (y - 1) + (y - 1) / 4 - (y - 1) / 100 + (y - 1) / 400 - 719162.
Definition days (y m d : Z) : Z := yearStart y + daysBefore y m + d - 1.

(** A date and time of the calendar. *)
Definition calendar_ok (c : Z) : bool :=
  (1 <=? Month c) && (Month c <=? 12) && (1 <=? Day c) && (Day c <=? daysIn (Year c) (Month c)) &&
  (Hour c <? 24) && (Minute c <? 60) && (Second c <? 60) && (Microsecond c <? 1000000).

Definition unixMicro (c : Z) : Z :=
  (((days (Year c) (Month c) (Day c) * 24 + Hour c) * 60 + Minute c) * 60 + Second c) * 1000000 + Microsecond c.

(** [GoTime(time.UTC)] and [UnixMicro] of its result. Go's [Date] normalizes a field that is
    out of its range, which the comparison with the fields finds. *)
Definition GoTime (c : Z) : outcome Z := if calendar_ok c then Ok (unixMicro c) else Err "incorrect time value".

(** ** The reaper *)

(** [r_runTimer]: the delay of the timer that is set, if one is. *)
Record Reaper := MkReaper {
  r_started : bool;
  r_shardID : Z;
  r_tableHeap : tableHeap;
  r_runTimer : option Z;
  r_maxDeleteBatchSize : Z
}.

Definition NewReaper (maxDeleteBatchSize shardID : Z) : Reaper := MkReaper false shardID [] None maxDeleteBatchSize.

Definition with_heap (r : Reaper) (h : tableHeap) : Reaper := MkReaper (r_started r) (r_shardID r) h (r_runTimer r) (r_maxDeleteBatchSize r).

(** A timer that is set is stopped first. *)
Definition scheduleRun (r : Reaper) (delay : Z) : Reaper := MkReaper (r_started r) (r_shardID r) (r_tableHeap r) (Some delay) (r_maxDeleteBatchSize r).

Definition reaper_start (schedule : bool) (r : Reaper) : Reaper :=
  if r_started r then r
  else
    let r := MkReaper true (r_shardID r) (r_tableHeap r) (r_runTimer r) (r_maxDeleteBatchSize r) in
    if schedule then scheduleRun r 0 else r.

Definition reaper_Stop (r : Reaper) : Reaper :=
  if r_started r then MkReaper false (r_shardID r) (r_tableHeap r) None (r_maxDeleteBatchSize r) else r.

Definition addTableNoSchedule (r : Reaper) (table : TableInfo) : outcome Reaper :=
  if r_started r then Ok (with_heap r (heap_push (r_tableHeap r) (MkItemHolder 0 table))) else Panic "not started".

(** One second, in nanoseconds. *)
Definition second : Z := 1000000000.

Definition AddTable (r : Reaper) (table : TableInfo) : outcome Reaper :=
  if RetentionDuration table <? second then Panic "retention must be >= 1 second"
  else r ← addTableNoSchedule r table; Ok (scheduleRun r 0).

Definition RemoveTable (r : Reaper) (table : TableInfo) : Reaper :=
  with_heap r (foldl (λ h item, if ti_ID (it_Table item) =? ti_ID table then h else heap_push h item) [] (r_tableHeap r)).

(** ** Deleting the rows of a table *)

(** The loop over the index entries: the check time if an entry is not ready, the number of
    rows, the last key, and the batch. *)
Fixpoint reapPairs (pkKeyBase : bytes) (nowUnixMicros retentionMicros maxRows : Z) (pairs : list (bytes * bytes))
    (rowCount : Z) (lastKey : option bytes) (wb : WriteBatch) : outcome (option Z * Z * option bytes * WriteBatch) :=
  match pairs with
  | [] => Ok (None, rowCount, lastKey, wb)
  | kvPair :: rest =>
      if rowCount <? maxRows then
        '(rowTime, _) ← KeyDecodeTimestamp kvPair.1 17 6;
        rowTimeUnixMicros ← GoTime (coreTime rowTime);
        if i64 (nowUnixMicros - rowTimeUnixMicros) <? retentionMicros then Ok (Some (i64 (rowTimeUnixMicros + retentionMicros)), rowCount, lastKey, wb)
        else
          pk ← slice_from kvPair.1 25;
          reapPairs pkKeyBase nowUnixMicros retentionMicros maxRows rest (rowCount + 1) (Some kvPair.1) (AddDelete wb (pkKeyBase ++ pk))
      else Ok (None, rowCount, lastKey, wb)
  end.

(** The index entries are deleted as a range. *)
Definition deleteEntries (keyStart : bytes) (lastKey : option bytes) (wb : WriteBatch) : outcome WriteBatch :=
  match lastKey with
  | None => Ok wb
  | Some lastKey => keyEnd ← IncrementBytesBigEndian lastKey; Ok (AddDeleteRange wb keyStart keyEnd)
  end.

Section store.
Context {DB : Type} `{KVStore DB}.

(** The time of the next check, the number of rows, and the batch. *)
Definition processDeletes (db : DB) (shardID : Z) (tab : TableInfo) (nowUnixMicros : Z) (wb : WriteBatch) (maxRows : Z) : outcome (Z * Z * WriteBatch) :=
  let keyStart := EncodeTableKeyPrefix (RowTimeIndexID tab) shardID in
  let keyEnd := EncodeTableKeyPrefix (RowTimeIndexID tab + 1) shardID in
  let pkKeyBase := EncodeTableKeyPrefix (ti_ID tab) shardID in
  let retentionMicros := RetentionDuration tab ÷ 1000 in
  '(notReady, rowCount, lastKey, wb) ← reapPairs pkKeyBase nowUnixMicros retentionMicros maxRows (kv_scan db keyStart (Some keyEnd)) 0 None wb;
  wb ← deleteEntries keyStart lastKey wb;
  match notReady with
  | Some checkTime => Ok (checkTime, rowCount, wb)
  | None => Ok (if rowCount =? maxRows then 0 else i64 (nowUnixMicros + retentionMicros), rowCount, wb)
  end.

(** ** A run *)

(** [clock]: the readings of the clock, [i] of which have been taken. The loop ends when no
    table is due or enough rows are deleted. *)
Fixpoint reapTables (fuel : nat) (clock : nat → Z) (i : nat) (db : DB) (shardID maxDeleteBatchSize : Z) (h : tableHeap) (wb : WriteBatch)
    (rowsDeleted : Z) (oldest : option itemHolder) : outcome (tableHeap * WriteBatch * Z * option itemHolder * nat) :=
  match fuel with
  | O => Undef
  | S fuel =>
      if rowsDeleted <? maxDeleteBatchSize then
        let oldest := heap_peek h in
        let nowUnixMicros := clock i in
        match oldest with
        | Some o =>
            if 0 <=? i64 (nowUnixMicros - CheckTime o) then
              '(_, h) ← heap_pop h;
              '(nextTime, numDeleted, wb) ← processDeletes db shardID (it_Table o) nowUnixMicros wb (maxDeleteBatchSize - rowsDeleted);
              reapTables fuel clock (S i) db shardID maxDeleteBatchSize (heap_push h (MkItemHolder nextTime (it_Table o))) wb (rowsDeleted + numDeleted) oldest
            else Ok (h, wb, rowsDeleted, oldest, S i)
        | None => Ok (h, wb, rowsDeleted, oldest, S i)
        end
      else Ok (h, wb, rowsDeleted, oldest, i)
  end.

(** 10 milliseconds, in nanoseconds. *)
Definition minBatchDelay : Z := 10000000.

(** [writeLocally]: the local write of the cluster. The result is the delay to the next run,
    -1 for none. *)
Definition doRun (fuel : nat) (clock : nat → Z) (writeLocally : DB → WriteBatch → outcome DB) (r : Reaper) (db : DB) : outcome (Z * Reaper * DB) :=
  if negb (r_started r) then Ok (0, r, db)
  else if (heap_len (r_tableHeap r) =? 0)%nat then Ok (-1, r, db)
  else
    let max := r_maxDeleteBatchSize r in
    '(h, wb, rowsDeleted, oldest, i) ← reapTables fuel clock 0 db (r_shardID r) max (r_tableHeap r) (NewWriteBatch (r_shardID r)) 0 None;
    let r := with_heap r h in
    db ← (if 0 <? rowsDeleted then writeLocally db wb else Ok db);
    if rowsDeleted =? max then Ok (0, r, db)
    else
      match oldest with
      | None => Panic "nil pointer dereference"
      | Some o =>
          let delay := i64 (i64 (CheckTime o - clock i) * 1000) in
          Ok (if delay <? minBatchDelay then minBatchDelay else delay, r, db)
      end.

Definition reaper_run (fuel : nat) (clock : nat → Z) (writeLocally : DB → WriteBatch → outcome DB) (schedule : bool) (r : Reaper) (db : DB) :
    outcome (Z * Reaper * DB) :=
  '(dur, r, db) ← doRun fuel clock writeLocally r db;
  let r := MkReaper (r_started r) (r_shardID r) (r_tableHeap r) None (r_maxDeleteBatchSize r) in
  Ok (dur, if schedule && negb (dur =? -1) then scheduleRun r dur else r, db).
End store.
