(* ===== verification/ReaperProps.v ===== *)
(** * The calendar of the reaper

    The instants that timestamps stand for are ordered as their fields are: a later date is
    later in microseconds, across months of different lengths and leap years. *)

From stdpp Require Import base list list_numbers strings gmap sorting.
From Stdlib Require Import ZArith Lia.
From S2P Require Import Prelude Encoding Timestamp Decimal Rows KeyEncoding RowEncoding Store WriteBatch Table LocalStore PullExec PullScan RowsBatch PushExec TableExec Views IndexExec TableHeap Reaper.

(** ** The calendar is ordered *)

Lemma div_step n y : 0 < n → y / n - (y - 1) / n = if y mod n =? 0 then 1 else 0.
Proof.
  intros Hn. pose proof (Z.div_mod y n ltac:(lia)) as E. pose proof (Z.mod_pos_bound y n Hn) as Hr. destruct (Z.eqb_spec (y mod n) 0) as [H0|H0].
  - assert ((y - 1) / n = y / n - 1) as ->; [|lia]. symmetry. apply (Z.div_unique _ _ _ (n - 1)); [lia|nia].
  - assert ((y - 1) / n = y / n) as ->; [|lia]. symmetry. apply (Z.div_unique _ _ _ (y mod n - 1)); lia.
Qed.

Lemma leap_spec y : (if leap y then 1 else 0) = y / 4 - (y - 1) / 4 - (y / 100 - (y - 1) / 100) + (y / 400 - (y - 1) / 400).
Proof.
  rewrite !div_step by lia. unfold leap.
  assert (H400 : y mod 400 = 0 → y mod 100 = 0) by (intros H; apply Z.mod_divide in H as [q ->]; [|done]; apply Z.mod_divide; [done|]; exists (q * 4); lia).
  assert (H100 : y mod 100 = 0 → y mod 4 = 0) by (intros H; apply Z.mod_divide in H as [q ->]; [|done]; apply Z.mod_divide; [done|]; exists (q * 25); lia).
  destruct (Z.eqb_spec (y mod 4) 0), (Z.eqb_spec (y mod 100) 0), (Z.eqb_spec (y mod 400) 0); simpl; tauto.
Qed.

Lemma yearStart_succ y : yearStart (y + 1) = yearStart y + 365 + (if leap y then 1 else 0).
Proof. rewrite leap_spec. unfold yearStart. replace (y + 1 - 1) with y by lia. lia. Qed.

Lemma yearStart_mono y y' : y ≤ y' → yearStart y ≤ yearStart y'.
Proof.
  intros Hy. replace y' with (y + Z.of_nat (Z.to_nat (y' - y))) by lia. clear Hy. induction (Z.to_nat (y' - y)) as [|n IH]; [by rewrite Z.add_0_r|].
  replace (y + Z.of_nat (S n)) with (y + Z.of_nat n + 1) by lia. rewrite yearStart_succ. destruct (leap _); lia.
Qed.

(** The months of a year follow one another, within the year. *)
Lemma daysBefore_next y m m' : 1 ≤ m → m < m' → m' ≤ 12 → daysBefore y m + daysIn y m ≤ daysBefore y m'.
Proof.
  intros H1 H2 H3. unfold daysBefore, daysIn. destruct (leap y);
  assert (Hm : m = 1 ∨ m = 2 ∨ m = 3 ∨ m = 4 ∨ m = 5 ∨ m = 6 ∨ m = 7 ∨ m = 8 ∨ m = 9 ∨ m = 10 ∨ m = 11) by lia;
  assert (Hm' : m' = 2 ∨ m' = 3 ∨ m' = 4 ∨ m' = 5 ∨ m' = 6 ∨ m' = 7 ∨ m' = 8 ∨ m' = 9 ∨ m' = 10 ∨ m' = 11 ∨ m' = 12) by lia;
  destruct_or!; subst; try lia; vm_compute; congruence.
Qed.

Lemma daysBefore_bound y m : 1 ≤ m ≤ 12 → 0 ≤ daysBefore y m ∧ daysBefore y m + daysIn y m ≤ 365 + (if leap y then 1 else 0).
Proof.
  intros Hm. assert (H : m = 1 ∨ m = 2 ∨ m = 3 ∨ m = 4 ∨ m = 5 ∨ m = 6 ∨ m = 7 ∨ m = 8 ∨ m = 9 ∨ m = 10 ∨ m = 11 ∨ m = 12) by lia.
  unfold daysBefore, daysIn. destruct (leap y); destruct_or!; subst; split; vm_compute; congruence.
Qed.

Lemma days_lt y m d y' m' d' : 1 ≤ m ≤ 12 → 1 ≤ d ≤ daysIn y m → 1 ≤ m' ≤ 12 → 1 ≤ d' →
  y < y' ∨ (y = y' ∧ (m < m' ∨ (m = m' ∧ d < d'))) → days y m d < days y' m' d'.
Proof.
  intros Hm Hd Hm' Hd' Hlt. unfold days. destruct Hlt as [Hy|[<- [Hmm|[<- Hdd]]]].
  - pose proof (yearStart_mono (y + 1) y' ltac:(lia)) as Hmono. rewrite yearStart_succ in Hmono.
    pose proof (daysBefore_bound y m Hm). pose proof (daysBefore_bound y' m' Hm'). lia.
  - pose proof (daysBefore_next y m m' ltac:(lia) Hmm ltac:(lia)). lia.
  - lia.
Qed.

Lemma calendar_fields c : calendar_ok c = true →
  1 ≤ Month c ≤ 12 ∧ 1 ≤ Day c ≤ daysIn (Year c) (Month c) ∧ Hour c < 24 ∧ Minute c < 60 ∧ Second c < 60 ∧ Microsecond c < 1000000.
Proof. unfold calendar_ok. rewrite !andb_true_iff, !Z.leb_le, !Z.ltb_lt. tauto. Qed.

Lemma daysIn_bound y m : daysIn y m ≤ 31.
Proof. unfold daysIn. repeat case_match; lia. Qed.

(** A later time has a later number of microseconds. *)
Lemma unixMicro_mono c c' : calendar_ok c = true → calendar_ok c' = true → compareTime c c' ≠ Gt → unixMicro c ≤ unixMicro c'.
Proof.
  intros (Hm & Hd & Hh & Hmi & Hs & Hus)%calendar_fields (Hm' & Hd' & Hh' & Hmi' & Hs' & Hus')%calendar_fields. unfold compareTime, datetimeToUint64.
  pose proof (time_field_bounds c) as Hb. pose proof (time_field_bounds c') as Hb'. pose proof (daysIn_bound (Year c) (Month c)).
  pose proof (daysIn_bound (Year c') (Month c')). rewrite !u64_small by (unfold u64_ok; lia).
  set (u := Year c * 10000000000 + Month c * 100000000 + Day c * 1000000 + Hour c * 10000 + Minute c * 100 + Second c).
  set (u' := Year c' * 10000000000 + Month c' * 100000000 + Day c' * 1000000 + Hour c' * 10000 + Minute c' * 100 + Second c').
  intros Hcmp. assert (Hle : u < u' ∨ u = u' ∧ Microsecond c ≤ Microsecond c').
  { destruct (Z.compare_spec u u') as [E|E|E]; [|by left|done]. right. split; [done|]. by destruct (Z.compare_spec (Microsecond c) (Microsecond c')) as [E'|E'|E']; try lia. }
  assert (Hday : days (Year c) (Month c) (Day c) < days (Year c') (Month c') (Day c') ∨
    (Year c = Year c' ∧ Month c = Month c' ∧ Day c = Day c')).
  { destruct (decide (Year c = Year c' ∧ Month c = Month c' ∧ Day c = Day c')) as [|Hne]; [by right|left]. apply days_lt; [done|done|done|lia|]. subst u u'. lia. }
  unfold unixMicro. destruct Hday as [Hday|(Ey & Em & Ed)]; [lia|]. rewrite Ey, Em, Ed. subst u u'. lia.
Qed.
