(* ===== verification/Reaping.v ===== *)
(** * A check of the reaper

    The expired rows are the first of the index on the time of the rows: a check of a table
    deletes the oldest of them, up to its limit, and a range that has exactly their index
    entries. *)

From stdpp Require Import base list list_numbers strings gmap sorting.
From Stdlib Require Import ZArith Lia.
From S2P Require Import Prelude Encoding Timestamp Decimal Rows KeyEncoding RowEncoding Store WriteBatch Table LocalStore PullExec PullScan KeyRanges RowsBatch PushExec TableExec Views IndexExec TableHeap Reaper ReaperProps.

(** ** The columns of an index key

    The index columns have a marker for null and the columns of the primary key have none. *)

Definition mixed_ok (x : bool * ColumnType) (c : option value) : Prop := col_ok x.1 x.2 c.
Definition mixed_bytes (x : bool * ColumnType) (c : option value) : bytes := col_bytes x.1 x.2 c.

#[local] Instance mixed_ordered x : OrderedCode (mixed_ok x) (mixed_bytes x) cell_compare.
Proof. destruct x as [pk ct]. apply (col_ordered pk ct). Qed.
#[local] Instance mixed_bounded x : BoundedCode (mixed_ok x) (mixed_bytes x).
Proof. destruct x as [pk ct]. apply (col_bounded pk ct). Qed.

Lemma mixed_keys cts vs : cols_bytes mixed_bytes (map (true,.) cts) (map Some vs) = cols_bytes key_bytes cts vs.
Proof. revert vs. induction cts as [|ct cts IH]; intros [|v vs]; [done..|]. cbn [map cols_bytes]. by rewrite IH. Qed.

Lemma mixed_keys_ok cts vs : Forall2 key_value_ok cts vs → Forall2 mixed_ok (map (true,.) cts) (map Some vs).
Proof. induction 1; simpl; constructor; [|done]. by split. Qed.

Section reap.
Context (ti : TableInfo) (ii : IndexInfo) (shardID : Z) (pkTypes : list ColumnType) (ct : ColumnType) (tc : nat).

(** The index of the reaper is on one column, of timestamps in microseconds. *)
Definition reap_index : Prop :=
  ii_ID ii = RowTimeIndexID ti ∧ IndexCols ii = [tc] ∧ Type' ct = TypeTimestamp ∧ FSP ct = 6 ∧
  u64_ok (RowTimeIndexID ti) ∧ RowTimeIndexID ti + 1 < two64 ∧ u64_ok (ti_ID ti) ∧ ti_ID ti ≠ RowTimeIndexID ti ∧ u64_ok shardID.
Context (Hix : reap_index).

Definition row_time (row : Row) : Z :=
  match row !! tc with Some (Some (VTimestamp t)) => unixMicro (coreTime t) | _ => 0 end.

(** A row whose time is a date of the calendar. *)
Definition timed (row : Row) : Prop :=
  index_row_ok ti ii pkTypes [ct] row ∧ ∃ t, row !! tc = Some (Some (VTimestamp t)) ∧ calendar_ok (coreTime t) = true.

Abbreviation index_key row := (index_pair ti ii shardID row).1.
Abbreviation index_cts := ((false, ct) :: map (true,.) pkTypes).

Lemma timed_key row : timed row → ∃ t vs,
  row !! tc = Some (Some (VTimestamp t)) ∧ calendar_ok (coreTime t) = true ∧ time_ok 6 t ∧
  Forall2 mixed_ok index_cts (Some (VTimestamp t) :: map Some vs) ∧
  index_key row = EncodeTableKeyPrefix (RowTimeIndexID ti) shardID ++ cols_bytes mixed_bytes index_cts (Some (VTimestamp t) :: map Some vs) ∧
  row_keyb ti shardID row = EncodeTableKeyPrefix (ti_ID ti) shardID ++ cols_bytes key_bytes pkTypes vs.
Proof using All.
  destruct Hix as (HID & Hcols & Hty & Hfsp & _). intros [([vs Hpk] & Ht & cs & Hc & Hok) (t & Htc & Hcal)]. exists t, vs.
  assert (cs = [Some (VTimestamp t)]) as ->. { rewrite Hcols in Hc. unfold cells_at in Hc. simpl in Hc. rewrite Htc in Hc. by injection Hc. }
  assert (Htime : time_ok 6 t). { inversion Hok as [|? ? ? ? Hcell]. unfold cell_ok, key_value_ok in Hcell. by rewrite Hty, Hfsp in Hcell. }
  split_and!; try done.
  - constructor; [|apply mixed_keys_ok, Hpk]. split; [|done]. by inversion Hok.
  - unfold index_pair. rewrite (EncodeIndexKeyValue_eq ti ii shardID row pkTypes vs [ct] [Some (VTimestamp t)]) by done. cbn [fst cols_bytes].
    rewrite HID, mixed_keys, app_nil_r. done.
  - unfold row_keyb. by rewrite (encodeKeyFromRow_eq _ _ _ _ _ Hpk).
Qed.

Lemma timed_bounds row : timed row → - 2 ^ 60 < row_time row < 2 ^ 60.
Proof using All.
  intros (t & vs & Htc & Hcal & _)%timed_key. unfold row_time. rewrite Htc.
  pose proof (calendar_fields _ Hcal) as (Hm & Hd & ?). pose proof (time_field_bounds (coreTime t)).
  pose proof (daysIn_bound (Year (coreTime t)) (Month (coreTime t))). pose proof (daysBefore_bound (Year (coreTime t)) (Month (coreTime t)) Hm).
  pose proof (yearStart_mono 0 (Year (coreTime t)) ltac:(lia)) as Hlo. pose proof (yearStart_mono (Year (coreTime t)) (2 ^ 14) ltac:(lia)) as Hhi.
  change (yearStart 0) with (-719528) in Hlo. change (yearStart (2 ^ 14)) with 5264605 in Hhi. unfold unixMicro, days. destruct (leap _); lia.
Qed.

(** Keys that are ordered are of rows whose times are. *)
Lemma key_time a b : timed a → timed b → bytes_lt (index_key a) (index_key b) → row_time a ≤ row_time b.
Proof using All.
  intros (t & vs & Htc & Hcal & _ & Hok & Hk & _)%timed_key (t' & vs' & Htc' & Hcal' & _ & Hok' & Hk' & _)%timed_key Hlt.
  unfold row_time. rewrite Htc, Htc'. apply unixMicro_mono; [done..|]. intros Hgt. unfold bytes_lt in Hlt. rewrite Hk, Hk', bytes_cmp_app_common in Hlt.
  rewrite <- (app_nil_r (cols_bytes _ _ (_ :: map Some vs))), <- (app_nil_r (cols_bytes _ _ (_ :: map Some vs'))) in Hlt.
  rewrite (ordered_code (OrderedCode := cols_code mixed_ok mixed_bytes cell_compare index_cts _)) in Hlt by done.
  cbn [cols_compare cell_compare value_compare map] in Hlt. unfold Compare in Hlt. rewrite Hgt in Hlt. discriminate Hlt.
Qed.

(** What lies from a prefix up to a key under it is under it. *)
Lemma range_under p q k : (length p ≤ length k)%nat → in_range p (Some (p ++ q)) k → p `prefix_of` k.
Proof using Type.
  intros Hl [Hle Hlt]. assert (Hh : length (take (length p) k) = length p) by (rewrite length_take; lia).
  revert Hle Hlt. rewrite <- (take_drop (length p) k). revert Hh. generalize (take (length p) k) as h, (drop (length p) k) as r. clear Hl. intros h r Hh Hle Hlt.
  assert (Eq' : bytes_cmp h p = Eq).
  { unfold bytes_le in Hle. unfold bytes_lt in Hlt. rewrite <- (app_nil_r p) in Hle at 1. rewrite bytes_cmp_antisym in Hle. rewrite bytes_cmp_app_lex in Hle, Hlt by done.
    by destruct (bytes_cmp h p). }
  apply bytes_cmp_eq in Eq'. rewrite Eq'. by apply prefix_app_r.
Qed.

(** The key after an entry bounds exactly the entries up to it. *)
Lemma key_upto row : timed row → ∃ keyEnd, IncrementBytesBigEndian (index_key row) = Ok keyEnd ∧
  (∀ a, timed a → in_range (EncodeTableKeyPrefix (RowTimeIndexID ti) shardID) (Some keyEnd) (index_key a) ↔ ¬ bytes_lt (index_key row) (index_key a)) ∧
  (∀ k, in_range (EncodeTableKeyPrefix (RowTimeIndexID ti) shardID) (Some keyEnd) k → (16 ≤ length k)%nat →
    EncodeTableKeyPrefix (RowTimeIndexID ti) shardID `prefix_of` k).
Proof using All.
  intros (t & vs & _ & _ & _ & Hok & Hk & _)%timed_key. set (P := EncodeTableKeyPrefix (RowTimeIndexID ti) shardID) in *.
  set (cs := Some (VTimestamp t) :: map Some vs) in *. pose proof (cols_bytes_ok mixed_ok mixed_bytes cell_compare _ _ Hok) as Hcb.
  assert (HP : bytes_ok P) by apply EncodeTableKeyPrefix_ok.
  destruct (Increment_inc (cols_bytes mixed_bytes index_cts cs) Hcb) as (q' & _ & Hq'). { apply Exists_app. left. apply Exists_cons_hd. lia. }
  destruct (Increment_inc (index_key row)) as (keyEnd & Hinc & Hof).
  { rewrite Hk. by apply bytes_ok_app. } { rewrite Hk. apply Exists_app. right. apply Exists_app. left. apply Exists_cons_hd. lia. }
  exists keyEnd. split; [done|]. rewrite Hk in Hof. assert (keyEnd = P ++ q') as -> by (eapply inc_of_unique; [done|by apply inc_of_app]).
  split; [|intros k Hin Hl; eapply range_under; [|done]; by unfold P; rewrite length_EncodeTableKeyPrefix].
  intros a (ta & va & _ & _ & _ & Hoka & Hka & _)%timed_key. fold P in Hka. rewrite Hk, Hka. set (ca := Some (VTimestamp ta) :: map Some va) in *.
  pose proof (key_after mixed_ok mixed_bytes cell_compare P index_cts ca cs [] (P ++ q') Hoka Hok HP ltac:(constructor) Hof) as Hafter.
  pose proof (key_bound_cmp mixed_ok mixed_bytes cell_compare P index_cts ca cs [] Hoka Hok) as Hcmp. rewrite app_nil_r in Hafter, Hcmp.
  assert (Hlt : bytes_lt (P ++ cols_bytes mixed_bytes index_cts cs) (P ++ cols_bytes mixed_bytes index_cts ca) ↔ cols_compare cell_compare ca cs = Gt).
  { unfold bytes_lt. rewrite bytes_cmp_antisym, Hcmp. by destruct (cols_compare cell_compare ca cs). }
  rewrite Hlt, <- Hafter. unfold in_range. split; [intros [_ H] H'|intros H; split].
  - by eapply (bytes_lt_irrefl (P ++ q')), bytes_le_lt_trans.
  - unfold bytes_le. rewrite <- (app_nil_r P) at 1. rewrite bytes_cmp_app_common. by destruct (cols_bytes _ _ _).
  - destruct (decide (bytes_lt (P ++ cols_bytes mixed_bytes index_cts ca) (P ++ q'))) as [|Hn%bytes_not_lt]; done.
Qed.
(** ** The loop over the entries *)

(** What the loop reads of an entry. *)
Lemma entry_reads row : timed row → ∃ t n pk,
  KeyDecodeTimestamp (index_key row) 17 6 = Ok (t, n) ∧ GoTime (coreTime t) = Ok (row_time row) ∧
  slice_from (index_key row) 25 = Ok pk ∧ EncodeTableKeyPrefix (ti_ID ti) shardID ++ pk = row_keyb ti shardID row.
Proof using All.
  intros (t & vs & Htc & Hcal & Htime & _ & Hk & Hrow)%timed_key. rewrite Hk, Hrow. unfold row_time. rewrite Htc.
  cbn [cols_bytes]. rewrite mixed_keys. cbn [mixed_bytes col_bytes cell_bytes key_bytes fst snd]. unfold timestamp_bytes.
  set (P := EncodeTableKeyPrefix (RowTimeIndexID ti) shardID). assert (HP : length P = 16%nat) by apply length_EncodeTableKeyPrefix.
  exists t, (17 + 8)%nat, (cols_bytes key_bytes pkTypes vs). unfold GoTime. rewrite Hcal. split_and!; try done.
  - unfold KeyDecodeTimestamp. change ((1 :: ?a) ++ ?b) with ([1] ++ a ++ b). rewrite (app_assoc P). apply ReadTimestampBE_app; [|done].
    rewrite length_app, HP. done.
  - change ((1 :: ?a) ++ ?b) with ([1] ++ a ++ b). rewrite !(app_assoc P), app_assoc. rewrite slice_from_ok by (rewrite !length_app, HP, length_be_bytes; simpl; lia).
    by f_equal.
Qed.

Context (now retention : Z) (Hnow : 0 ≤ now < 2 ^ 60) (Hret : 0 ≤ retention < 2 ^ 60).

Definition expired (row : Row) : bool := retention <=? now - row_time row.

(** The rows that are reaped, at most [n] of them, and the time the first row that is not
    ready will be. *)
Fixpoint reaped (n : nat) (rs : list Row) : list Row :=
  match n, rs with S n, row :: rs => if expired row then row :: reaped n rs else [] | _, _ => [] end.
Fixpoint upcoming (n : nat) (rs : list Row) : option Z :=
  match n, rs with S n, row :: rs => if expired row then upcoming n rs else Some (row_time row + retention) | _, _ => None end.

Lemma reapPairs_ok n maxRows rs : ∀ count lastKey wb puts dels rngs, Forall timed rs → maxRows = count + Z.of_nat n → wb_rep wb puts dels rngs →
  ∃ wb', reapPairs (EncodeTableKeyPrefix (ti_ID ti) shardID) now retention maxRows (map (index_pair ti ii shardID) rs) count lastKey wb =
    Ok (upcoming n rs, count + Z.of_nat (length (reaped n rs)),
        from_option (λ row, Some (index_key row)) lastKey (last (reaped n rs)), wb') ∧
    wb_rep wb' puts (dels ++ map (row_keyb ti shardID) (reaped n rs)) rngs ∧ wb_ShardID wb' = wb_ShardID wb.
Proof using All.
  revert rs. induction n as [|n IH]; intros rs count lastKey wb puts dels rngs Hrs Hmax Hwb.
  { exists wb. cbn [reaped upcoming length map last from_option]. rewrite app_nil_r, Z.add_0_r. destruct rs; cbn [map reapPairs]; [auto|]. rewrite (proj2 (Z.ltb_ge _ _)) by lia. auto. }
  destruct Hrs as [|row rs Hrow Hrs]; [exists wb; cbn; rewrite app_nil_r, Z.add_0_r; auto|]. cbn [map reapPairs].
  rewrite (proj2 (Z.ltb_lt _ _)) by lia. destruct (entry_reads row Hrow) as (t & m & pk & Hkd & Hgo & Hpk & Hkey). rewrite Hkd. osimpl. rewrite Hgo. osimpl.
  pose proof (timed_bounds row Hrow) as Hb. rewrite !i64_small by (unfold i64_ok; lia). cbn [reaped upcoming]. unfold expired.
  rewrite Z.leb_antisym. destruct (now - row_time row <? retention); cbn [negb].
  { exists wb. cbn [length map last from_option]. rewrite app_nil_r, Z.add_0_r. auto. }
  rewrite Hpk. osimpl. rewrite Hkey.
  destruct (IH rs (count + 1) (Some (index_key row)) (AddDelete wb (row_keyb ti shardID row)) puts (dels ++ [row_keyb ti shardID row]) rngs) as (wb' & -> & Hwb' & Hs);
    [done|lia|by apply AddDelete_rep|]. exists wb'. cbn [length map]. rewrite <- app_assoc in Hwb'. split_and!; [|done|by rewrite Hs].
  f_equal. f_equal. f_equal; [f_equal; lia|]. destruct (reaped n rs) as [|r l]; [done|]. rewrite last_cons_cons.
  destruct (last (r :: l)) eqn:E; [done|]. by apply last_None in E.
Qed.
Lemma reaped_prefix n rs : reaped n rs `prefix_of` rs.
Proof using Type.
  revert n. induction rs as [|row rs IH]; intros [|n]; cbn [reaped]; [apply prefix_nil..|]. destruct (expired row); [by apply prefix_cons|apply prefix_nil].
Qed.

(** The rows that are reaped are the first; those that remain are left for a later check, or
    none of them is expired. *)
Lemma reaped_split n rs : StronglySorted (λ a b, row_time a ≤ row_time b) rs → ∃ rest, rs = reaped n rs ++ rest ∧
  Forall (λ row, expired row = true) (reaped n rs) ∧
  ((length (reaped n rs) = n ∧ upcoming n rs = None) ∨
   ((length (reaped n rs) < n)%nat ∧ Forall (λ row, expired row = false) rest ∧ upcoming n rs = (λ row, row_time row + retention) <$> head rest)).
Proof using Type.
  revert n. induction rs as [|row rs IH]; intros n Hs.
  { exists []. destruct n; simpl; split_and!; try done; [by left|right; split_and!; [lia|done|done]]. }
  destruct n as [|n]; [exists (row :: rs); split_and!; [done|done|by left]|]. apply StronglySorted_inv in Hs as [Hs Hrow].
  cbn [reaped upcoming]. destruct (expired row) eqn:E.
  - destruct (IH n Hs) as (rest & Heq & Hexp & Hcase). exists rest. split_and!; [simpl; by f_equal|by constructor|].
    cbn [length]. destruct Hcase as [[Hl ?]|(? & ? & ?)]; [left; split; [by f_equal|done]|right; split_and!; [lia|done|done]].
  - exists (row :: rs). split_and!; [done|done|]. right. split_and!; [simpl; lia| |done]. constructor; [done|].
    eapply Forall_impl; [exact Hrow|]. unfold expired in *. intros r Hr. rewrite Z.leb_gt in *. simpl in Hr. lia.
Qed.
End reap.

(** ** The rows of the index, in order *)

Section scan.
Context {DB : Type} `{KVStore DB}.
Context (ti : TableInfo) (ii : IndexInfo) (shardID : Z) (pkTypes : list ColumnType) (ct : ColumnType) (tc : nat).
Context (Hix : reap_index ti ii shardID ct tc).
Context (db : DB) (T : gmap bytes Row) (Hkeys : keys_ok db) (HT : table_is ti shardID pkTypes db T).
Context (HI : index_is ti ii shardID db (table_rows T)) (Htimed : Forall (timed ti ii pkTypes ct tc) (table_rows T)).

Abbreviation index_key row := (index_pair ti ii shardID row).1.
Abbreviation keyStart := (EncodeTableKeyPrefix (RowTimeIndexID ti) shardID).
Abbreviation keyEnd := (EncodeTableKeyPrefix (RowTimeIndexID ti + 1) shardID).

Lemma index_scan_elem k v : (k, v) ∈ kv_scan db keyStart (Some keyEnd) ↔ kv_get db k = Some v ∧ index_owns ii shardID k = true.
Proof using Hix Hkeys.
  destruct Hix as (HID & _ & _ & _ & ? & ? & _ & _ & ?). rewrite table_scan_elem by done. unfold index_owns. by rewrite bool_decide_eq_true, HID.
Qed.

Lemma timed_elem row : row ∈ table_rows T → timed ti ii pkTypes ct tc row.
Proof using Htimed. rewrite Forall_forall in Htimed. apply Htimed. Qed.

Lemma timed_pair row : row ∈ table_rows T → index_owns ii shardID (index_key row) = true ∧ kv_get db (index_key row) = Some (index_pair ti ii shardID row).2.
Proof using HI Htimed.
  intros Hin. destruct (timed_elem row Hin) as [Hok _]. destruct (index_pair_ok ti ii shardID pkTypes [ct] row Hok) as (_ & Ho & _).
  split; [done|]. by apply (HI _ Ho).
Qed.

Lemma scan_pair kv : kv ∈ kv_scan db keyStart (Some keyEnd) ↔ ∃ row, row ∈ table_rows T ∧ index_pair ti ii shardID row = kv.
Proof using Hix Hkeys HI Htimed.
  destruct kv as [k v]. rewrite index_scan_elem. split.
  - intros [Hget Ho]. destruct (HI k Ho) as [Hhas Hnone].
    destruct (decide (Exists (λ row, index_key row = k) (table_rows T))) as [(row & Hin & E)%Exists_exists|Hno].
    + exists row. split; [done|]. rewrite (Hhas row Hin E) in Hget. injection Hget as <-. rewrite <- E. by destruct (index_pair ti ii shardID row).
    + rewrite Hnone in Hget; [done|]. intros row Hin E. apply Hno, Exists_exists. by exists row.
  - intros (row & Hin & E). destruct (timed_pair row Hin) as [Ho Hget]. rewrite E in *. done.
Qed.

Lemma same_entry row row' : row ∈ table_rows T → row' ∈ table_rows T → index_key row = index_key row' → row = row'.
Proof using Htimed HT.
  intros Hin Hin' E. destruct HT as [HT1 _]. pose proof (table_rows_nodup ti shardID pkTypes T HT1) as Hnd.
  apply (NoDup_map_eq (row_keyb ti shardID) (table_rows T)); [done..|].
  by apply (index_key_inj ti ii shardID pkTypes [ct] row row'); [apply timed_elem..|].
Qed.

Lemma scan_rows : ∃ rs, rs ≡ₚ table_rows T ∧ kv_scan db keyStart (Some keyEnd) = map (index_pair ti ii shardID) rs ∧
  StronglySorted (λ a b, bytes_lt (index_key a) (index_key b)) rs.
Proof using Hix Hkeys HI Htimed HT.
  assert (Hrs : ∃ rs, Forall (λ row, row ∈ table_rows T) rs ∧ kv_scan db keyStart (Some keyEnd) = map (index_pair ti ii shardID) rs).
  { assert (Hall : Forall (λ kv, ∃ row, row ∈ table_rows T ∧ index_pair ti ii shardID row = kv) (kv_scan db keyStart (Some keyEnd))) by (apply Forall_forall; intros kv; apply scan_pair).
    induction Hall as [|kv l (row & Hin & E) _ (rs & Hrs & IH)]; [by exists []|]. exists (row :: rs). split; [by constructor|]. cbn [map]. by rewrite E, IH. }
  destruct Hrs as (rs & Hrs & Hscan). exists rs.
  assert (Hsorted : StronglySorted (λ a b, bytes_lt (index_key a) (index_key b)) rs).
  { pose proof (kv_scan_sorted db keyStart (Some keyEnd)) as Hs. rewrite Hscan in Hs. clear Hscan Hrs. induction rs as [|row rs IH]; [constructor|].
    cbn [map] in Hs. apply StronglySorted_inv in Hs as [Hs Hr]. constructor; [by apply IH|]. by rewrite Forall_map in Hr. }
  split_and!; [|done|done]. apply NoDup_Permutation.
  - clear Hscan Hrs. induction Hsorted as [|row rs _ IH Hr]; constructor; [|done]. rewrite Forall_forall in Hr. intros Hin. by apply (bytes_lt_irrefl (index_key row)), Hr.
  - destruct HT as [HT1 _]. eapply NoDup_fmap_1, table_rows_nodup, HT1.
  - rewrite Forall_forall in Hrs. intros row. split; [apply Hrs|]. intros Hin.
    assert (Hp : index_pair ti ii shardID row ∈ map (index_pair ti ii shardID) rs) by (rewrite <- Hscan; apply scan_pair; by exists row).
    apply list_elem_of_fmap in Hp as (row' & E & Hin'). assert (row = row') as ->; [|done].
    apply same_entry; [done|by apply Hrs|by rewrite E].
Qed.
(** ** What a check writes *)

(** The range of the entries up to that of [row]. *)
Definition reap_range (row : Row) : bytes * bytes :=
  (keyStart, match IncrementBytesBigEndian (index_key row) with Ok k => k | _ => [] end).
Definition reap_ranges (gone : list Row) : list (bytes * bytes) := option_list (reap_range <$> last gone).

Section check.
Context (now : Z) (Hnow : 0 ≤ now < 2 ^ 60) (Hret : 0 ≤ RetentionDuration ti < 2 ^ 63).
Abbreviation retention := (RetentionDuration ti ÷ 1000).

Lemma processDeletes_ok n wb puts dels rngs rs (gone := reaped tc now retention n rs) :
  kv_scan db keyStart (Some keyEnd) = map (index_pair ti ii shardID) rs → Forall (timed ti ii pkTypes ct tc) rs → wb_rep wb puts dels rngs →
  ∃ wb', processDeletes db shardID ti now wb (Z.of_nat n) =
    Ok (default (if decide (length gone = n) then 0 else now + retention) (upcoming tc now retention n rs), Z.of_nat (length gone), wb') ∧
    wb_rep wb' puts (dels ++ map (row_keyb ti shardID) gone) (rngs ++ reap_ranges gone) ∧ wb_ShardID wb' = wb_ShardID wb.
Proof using Hix Hnow Hret.
  intros Hscan Hrs Hwb. unfold processDeletes. rewrite Hscan. assert (Hr : 0 ≤ retention < 2 ^ 60). { rewrite Z.quot_div_nonneg by lia. split; [apply Z.div_pos; lia|apply Z.div_lt_upper_bound; lia]. }
  destruct (reapPairs_ok ti ii shardID pkTypes ct tc Hix now retention Hnow Hr n (Z.of_nat n) rs 0 None wb puts dels rngs) as (wb1 & -> & Hwb1 & Hs1); [done|lia|done|].
  osimpl. fold gone in Hwb1 |- *. rewrite Z.add_0_l. unfold deleteEntries, reap_ranges.
  destruct (last gone) as [row|] eqn:El; cbn [from_option default fmap option_fmap option_map option_list].
  - destruct (key_upto ti ii shardID pkTypes ct tc Hix row) as (kend & Hinc & _).
    { rewrite Forall_forall in Hrs. apply Hrs. destruct (reaped_prefix tc now retention n rs) as [rest ->].
      apply last_Some in El as [g Hg]. fold gone. rewrite Hg, <- app_assoc. apply elem_of_app. right. left. }
    unfold reap_range. rewrite Hinc. osimpl. eexists. split; [|split; [by apply AddDeleteRange_rep|done]].
    destruct (upcoming _ _ _ _ _); [done|]. simpl. rewrite i64_small by (unfold i64_ok; lia). by destruct (Z.eqb_spec (Z.of_nat (length gone)) (Z.of_nat n)), (decide (length gone = n)); try lia.
  - osimpl. eexists. rewrite app_nil_r. split; [|split; [exact Hwb1|done]].
    destruct (upcoming _ _ _ _ _); [done|]. simpl. rewrite i64_small by (unfold i64_ok; lia). by destruct (Z.eqb_spec (Z.of_nat (length gone)) (Z.of_nat n)), (decide (length gone = n)); try lia.
Qed.
End check.

(** ** The store after it *)

Section gone.
Context (gone rest : list Row) (Hperm : gone ++ rest ≡ₚ table_rows T).
Context (Hsorted : StronglySorted (λ a b, bytes_lt (index_key a) (index_key b)) (gone ++ rest)).

(** The table without the rows that are gone. *)
Definition remaining : gmap bytes Row := filter (λ kr, kr.2 ∉ gone) T.

Lemma remaining_elem row : row ∈ table_rows remaining ↔ row ∈ table_rows T ∧ row ∉ gone.
Proof using Type.
  rewrite !table_rows_elem. unfold remaining. split.
  - intros (k & [Hk Hn]%map_lookup_filter_Some). split; [by exists k|done].
  - intros [(k & Hk) Hn]. exists k. by apply map_lookup_filter_Some.
Qed.

Lemma gone_elem row : row ∈ gone → row ∈ table_rows T.
Proof using Hperm. intros Hin. rewrite <- Hperm. apply elem_of_app. by left. Qed.

(** The range that is deleted has the entries of the rows that are gone and no key of another table. *)
Lemma ranges_gone row : row ∈ table_rows T → Exists (λ r, in_range r.1 (Some r.2) (index_key row)) (reap_ranges gone) ↔ row ∈ gone.
Proof using Hix Htimed Hperm Hsorted.
  intros Hin. unfold reap_ranges. destruct (last gone) as [l|] eqn:El; cbn [fmap option_fmap option_map option_list].
  2:{ apply last_None in El. rewrite El. by rewrite Exists_nil, elem_of_nil. }
  apply last_Some in El as [g Hg]. assert (Hl : l ∈ gone) by (rewrite Hg; apply elem_of_app; right; left).
  destruct (key_upto ti ii shardID pkTypes ct tc Hix l (timed_elem l (gone_elem l Hl))) as (kend & Hinc & Hup & _).
  rewrite Exists_cons, Exists_nil. unfold reap_range. rewrite Hinc. cbn [fst snd]. rewrite (Hup row (timed_elem row Hin)). split.
  - intros [Hn|[]]. rewrite <- Hperm in Hin. apply elem_of_app in Hin as [?|Hr]; [done|]. destruct Hn.
    by apply (StronglySorted_app_1_elem_of _ gone rest l row Hsorted).
  - intros Hr. left. rewrite Hg in Hr. apply elem_of_app in Hr as [Hr| ->%list_elem_of_singleton]; [|apply bytes_lt_irrefl].
    intros Hlt. apply (bytes_lt_irrefl (index_key l)). etrans; [exact Hlt|].
    rewrite Hg, <- app_assoc in Hsorted. apply (StronglySorted_app_1_elem_of _ g ([l] ++ rest) row l Hsorted); [done|left].
Qed.

Lemma ranges_index k : Exists (λ r, in_range r.1 (Some r.2) k) (reap_ranges gone) → (16 ≤ length k)%nat → index_owns ii shardID k = true.
Proof using Hix Htimed Hperm.
  unfold reap_ranges. destruct (last gone) as [l|] eqn:El; cbn [fmap option_fmap option_map option_list]; [|by intros ?%Exists_nil].
  apply last_Some in El as [g Hg]. assert (Hl : l ∈ gone) by (rewrite Hg; apply elem_of_app; right; left).
  destruct (key_upto ti ii shardID pkTypes ct tc Hix l (timed_elem l (gone_elem l Hl))) as (kend & Hinc & _ & Hunder).
  rewrite Exists_cons, Exists_nil. unfold reap_range. rewrite Hinc. cbn [fst snd]. intros [Hin|[]] Hlen.
  unfold index_owns. destruct Hix as (-> & _). apply bool_decide_eq_true. by apply Hunder.
Qed.

(** The store after the deletes and the ranges of the batch. *)
Definition reaped_db : DB :=
  kv_apply db (map KVDelete (map (row_keyb ti shardID) gone) ++ map (λ r, KVDeleteRange r.1 r.2) (reap_ranges gone)).

Lemma reaped_get k : kv_get reaped_db k =
  if decide (Exists (λ r, in_range r.1 (Some r.2) k) (reap_ranges gone)) then None
  else if decide (k ∈ map (row_keyb ti shardID) gone) then None else kv_get db k.
Proof using Type. unfold reaped_db. by rewrite kv_get_apply, foldl_app, effect_ranges, effect_deletes. Qed.

Lemma owns_disjoint k : EncodeTableKeyPrefix (ti_ID ti) shardID `prefix_of` k → index_owns ii shardID k = true → False.
Proof using Hix.
  destruct Hix as (HID & _ & _ & _ & ? & _ & ? & Hne & ?). unfold index_owns. rewrite bool_decide_eq_true, HID. intros [x ->] [y Hy].
  apply EncodeTableKeyPrefix_inj in Hy as (E & _); [by apply Hne|done..].
Qed.

Lemma reaped_table : table_is ti shardID pkTypes reaped_db remaining.
Proof using Hix Htimed HT Hperm.
  destruct HT as [HT1 HT2]. split; [intros k row [Hk _]%map_lookup_filter_Some; by apply HT1|]. intros k Hk. rewrite reaped_get.
  assert (Hlen : (16 ≤ length k)%nat). { destruct Hk as [x ->]. rewrite length_app, length_EncodeTableKeyPrefix. lia. }
  rewrite decide_False by (intros Hr; by eapply owns_disjoint, ranges_index). unfold remaining. case_decide as Hin.
  - apply list_elem_of_fmap in Hin as (row & -> & Hg). pose proof (proj1 (table_lookup_row ti shardID pkTypes T HT1 row) (gone_elem row Hg)) as Hrow.
    rewrite map_lookup_filter, Hrow. simpl. by rewrite option_guard_False by tauto.
  - rewrite HT2 by done. rewrite map_lookup_filter. destruct (T !! k) as [row|] eqn:E; [|done]. simpl. rewrite option_guard_True; [done|].
    simpl. intros Hg. apply Hin. apply list_elem_of_fmap. exists row. split; [|done]. by destruct (HT1 _ _ E) as [_ <-].
Qed.

Lemma reaped_index : index_is ti ii shardID reaped_db (table_rows remaining).
Proof using Hix Htimed HT HI Hperm Hsorted.
  intros k Hk. rewrite reaped_get. destruct (HI k Hk) as [Hhas Hnone].
  assert (Hd : k ∉ map (row_keyb ti shardID) gone).
  { intros (row & -> & Hg)%list_elem_of_fmap. destruct (timed_elem row (gone_elem row Hg)) as [_ _]. eapply owns_disjoint; [|done].
    destruct HT as [HT1 _]. apply gone_elem in Hg. apply table_rows_elem in Hg as (k & Hg). destruct (HT1 _ _ Hg) as [Hok _].
    by apply (row_keyb_ok ti shardID pkTypes row). }
  rewrite (decide_False (P := k ∈ _)) by done. split.
  - intros row [Hin Hg]%remaining_elem E. rewrite decide_False; [by apply Hhas|]. rewrite <- E. by rewrite ranges_gone.
  - intros Hno. case_decide as Hr; [done|]. apply Hnone. intros row Hin E. apply (Hno row); [|done]. apply remaining_elem. split; [done|].
    intros Hg. apply Hr. rewrite <- E. by apply ranges_gone.
Qed.
End gone.
End scan.
