(* ===== verification/Retention.v ===== *)
(** * Rows are kept for their retention

    What one check of the reaper does to the table and to its index, in a store that deletes
    ranges and with the local write of the cluster. *)

From stdpp Require Import base list list_numbers strings gmap sorting.
From Stdlib Require Import ZArith Lia.
From S2P Require Import Prelude Encoding Timestamp Decimal Rows KeyEncoding RowEncoding Store WriteBatch Table LocalStore PullExec PullScan KeyRanges RowsBatch PushExec TableExec Views IndexExec TableHeap Reaper ReaperProps Reaping.

Section retention.
Context {DB : Type} `{KVStore DB}.

(** A table with its index on the time of the rows, in the store. *)
Definition reapable (ti : TableInfo) (ii : IndexInfo) (shardID : Z) (pkTypes : list ColumnType) (ct : ColumnType) (tc : nat)
    (db : DB) (T : gmap bytes Row) : Prop :=
  reap_index ti ii shardID ct tc ∧ 0 ≤ RetentionDuration ti < 2 ^ 63 ∧ keys_ok db ∧ table_is ti shardID pkTypes db T ∧
  index_is ti ii shardID db (table_rows T) ∧ Forall (timed ti ii pkTypes ct tc) (table_rows T).

(** The rows of the index, in order. *)
Lemma reapable_rows ti ii shardID pkTypes ct tc db T : reapable ti ii shardID pkTypes ct tc db T → ∃ rs, rs ≡ₚ table_rows T ∧
  kv_scan db (EncodeTableKeyPrefix (RowTimeIndexID ti) shardID) (Some (EncodeTableKeyPrefix (RowTimeIndexID ti + 1) shardID)) = map (index_pair ti ii shardID) rs ∧
  Forall (timed ti ii pkTypes ct tc) rs ∧ StronglySorted (λ a b, bytes_lt (index_pair ti ii shardID a).1 (index_pair ti ii shardID b).1) rs ∧
  StronglySorted (λ a b, row_time tc a ≤ row_time tc b) rs.
Proof.
  intros (Hix & _ & Hkeys & HT & HI & Htimed). destruct (scan_rows ti ii shardID pkTypes ct tc Hix db T Hkeys HT HI Htimed) as (rs & Hp & Hscan & Hs).
  assert (Hrs : Forall (timed ti ii pkTypes ct tc) rs) by by rewrite Hp. exists rs. split_and!; try done. clear Hp Hscan.
  induction Hs as [|a rs Hs IH Ha]; [constructor|]. apply Forall_cons in Hrs as [Hta Hrs]. constructor; [by apply IH|].
  rewrite Forall_forall in Ha, Hrs |- *. intros b Hb. by apply (key_time ti ii shardID pkTypes ct tc Hix); [|apply Hrs|apply Ha].
Qed.

Lemma filter_count (P : Row → Prop) `{!∀ row, Decision (P row)} (gone rest M : list Row) : gone ++ rest ≡ₚ M → Forall P gone →
  length (filter P M) = (length gone + length (filter P rest))%nat.
Proof.
  intros Hp Hg. rewrite <- Hp, filter_app, length_app. f_equal. clear Hp. induction Hg as [|row gone Hr _ IH]; [done|].
  rewrite filter_cons, decide_True by done. simpl. by rewrite IH.
Qed.

Lemma filter_count_none (P : Row → Prop) `{!∀ row, Decision (P row)} (rest : list Row) : Forall (λ row, ¬ P row) rest → length (filter P rest) = 0%nat.
Proof. induction 1 as [|row rest Hr _ IH]; [done|]. by rewrite filter_cons, decide_False by done. Qed.

(** C22. A check of a table with a retention deletes the oldest expired rows, as many as there
    are up to its limit: once the deletes and the range of its batch are applied, the table and
    the index have exactly the other rows. The next check is due at once if the limit was
    reached; otherwise, when the first of the other rows expires, which is after now, or a
    retention period from now if there is no other row. *)
Theorem expired_rows_reaped ti ii shardID pkTypes ct tc (db : DB) T now n :
  reapable ti ii shardID pkTypes ct tc db T → 0 ≤ now < 2 ^ 60 → 1000 ≤ RetentionDuration ti →
  let ret := RetentionDuration ti ÷ 1000 in
  ∃ gone next wb dels rngs,
    processDeletes db shardID ti now (NewWriteBatch shardID) (Z.of_nat n) = Ok (next, Z.of_nat (length gone), wb) ∧ wb_rep wb [] dels rngs ∧
    NoDup gone ∧ (∀ row, row ∈ gone → row ∈ table_rows T ∧ ret ≤ now - row_time tc row) ∧
    length gone = Nat.min n (length (filter (λ row, ret ≤ now - row_time tc row) (table_rows T))) ∧
    (∀ row row', row ∈ gone → row' ∈ table_rows T → row' ∉ gone → row_time tc row ≤ row_time tc row') ∧
    let db' := kv_apply db (map KVDelete dels ++ map (λ r, KVDeleteRange r.1 r.2) rngs) in
    let T' := remaining T gone in
    table_is ti shardID pkTypes db' T' ∧ index_is ti ii shardID db' (table_rows T') ∧
    if decide (length gone = n) then next = 0
    else now < next ∧ (∀ row, row ∈ table_rows T' → next ≤ row_time tc row + ret) ∧
      if decide (table_rows T' = []) then next = now + ret else ∃ row, row ∈ table_rows T' ∧ next = row_time tc row + ret.
Proof.
  intros Hr Hnow Hret ret. destruct (reapable_rows _ _ _ _ _ _ _ _ Hr) as (rs & Hp & Hscan & Hrs & Hkeys & Htimes).
  destruct Hr as (Hix & Hret' & _ & HT & HI & Htimed). set (gone := reaped tc now ret n rs).
  destruct (reaped_split tc now ret n rs Htimes) as (rest & Heq & Hexp & Hcase). fold gone in Heq, Hexp, Hcase.
  destruct (processDeletes_ok ti ii shardID pkTypes ct tc Hix db now Hnow Hret' n (NewWriteBatch shardID) [] [] [] rs Hscan Hrs) as (wb & Hproc & Hwb & _);
    [apply NewWriteBatch_rep|]. fold ret gone in Hproc, Hwb. rewrite Heq in Hp, Hkeys, Htimes.
  exists gone. eexists. exists wb. eexists _, _. split; [exact Hproc|]. split; [exact Hwb|].
  assert (Hexp' : Forall (λ row, ret ≤ now - row_time tc row) gone) by (eapply Forall_impl; [exact Hexp|]; intros row; apply Z.leb_le).
  assert (Hnd : NoDup (gone ++ rest)). { rewrite Hp. destruct HT as [HT1 _]. eapply NoDup_fmap_1, table_rows_nodup, HT1. }
  assert (Hin : ∀ row, row ∈ table_rows T ↔ row ∈ gone ∨ row ∈ rest) by (intros row; by rewrite <- Hp, elem_of_app).
  rewrite Forall_forall in Hexp'. cbv zeta. split_and!.
  - by apply NoDup_app in Hnd as [? _].
  - intros row Hg. split; [apply Hin; by left|by apply Hexp'].
  - rewrite (filter_count _ gone rest) by (done || by apply Forall_forall). destruct Hcase as [[-> _]|(Hl & Hrest & _)]; [lia|].
    rewrite (filter_count_none _ rest); [lia|]. eapply Forall_impl; [exact Hrest|]. intros row Hr. apply Z.leb_gt in Hr. lia.
  - intros row row' Hg [?|Hr]%Hin Hng; [done|]. by apply (StronglySorted_app_1_elem_of _ gone rest row row' Htimes).
  - by apply (reaped_table ti ii shardID pkTypes ct tc Hix db T HT Htimed gone rest).
  - by apply (reaped_index ti ii shardID pkTypes ct tc Hix db T HT HI Htimed gone rest).
  - assert (1 ≤ ret) by (unfold ret; rewrite Z.quot_div_nonneg by lia; apply Z.div_le_lower_bound; lia).
    destruct Hcase as [[Hl ->]|(Hl & Hrest & ->)]; [by rewrite !decide_True by done|]. rewrite !(decide_False (P := length gone = n)) by lia.
    rewrite Forall_forall in Hrest. assert (Hr : ∀ row, row ∈ rest → now < row_time tc row + ret) by (intros row Hr%Hrest; apply Z.leb_gt in Hr; lia).
    apply StronglySorted_app_1_r in Htimes. destruct Htimes as [|row rest' Hs Hfirst]; simpl.
    + assert (Hnone : ∀ row, row ∉ table_rows (remaining T gone)) by (intros row [[?|[]%elem_of_nil]%Hin ?]%remaining_elem; done).
      split_and!; [lia|by intros row ?%Hnone|]. by rewrite decide_True by (by apply elem_of_nil_inv).
    + assert (Hrow : row ∈ table_rows (remaining T gone)).
      { apply remaining_elem. split; [apply Hin; right; left|]. apply NoDup_app in Hnd as (_ & Hnd & _). intros Hg. apply (Hnd _ Hg). left. }
      split_and!; [apply Hr; left| |].
      * intros row' [[?|[->|Hr']%elem_of_cons]%Hin ?]%remaining_elem; [done|lia|]. rewrite Forall_forall in Hfirst. specialize (Hfirst _ Hr'). simpl in Hfirst. lia.
      * rewrite decide_False by (intros E; rewrite E in Hrow; by apply elem_of_nil in Hrow). by exists row.
Qed.
(** A check that reaches its limit reaps the same rows at every later time. *)
Lemma reaped_later tc now now' ret n rs : now ≤ now' → length (reaped tc now ret n rs) = n →
  reaped tc now' ret n rs = reaped tc now ret n rs ∧ upcoming tc now' ret n rs = None.
Proof.
  intros Hle. revert rs. induction n as [|n IH]; intros [|row rs]; cbn [reaped upcoming length]; try done. unfold expired.
  destruct (Z.leb_spec ret (now - row_time tc row)); [|done]. rewrite (proj2 (Z.leb_le _ _)) by lia. cbn [length]. intros [= Hl].
  destruct (IH rs Hl) as [-> ->]. done.
Qed.

Lemma processDeletes_full ti ii shardID pkTypes ct tc (db : DB) now n rs : reap_index ti ii shardID ct tc → 0 ≤ RetentionDuration ti < 2 ^ 63 → 0 ≤ now < 2 ^ 60 →
  kv_scan db (EncodeTableKeyPrefix (RowTimeIndexID ti) shardID) (Some (EncodeTableKeyPrefix (RowTimeIndexID ti + 1) shardID)) = map (index_pair ti ii shardID) rs →
  Forall (timed ti ii pkTypes ct tc) rs → length (reaped tc now (RetentionDuration ti ÷ 1000) n rs) = n → upcoming tc now (RetentionDuration ti ÷ 1000) n rs = None →
  ∃ wb, processDeletes db shardID ti now (NewWriteBatch shardID) (Z.of_nat n) = Ok (0, Z.of_nat n, wb) ∧
    wb_rep wb [] (map (row_keyb ti shardID) (reaped tc now (RetentionDuration ti ÷ 1000) n rs)) (reap_ranges ti ii shardID (reaped tc now (RetentionDuration ti ÷ 1000) n rs)) ∧
    wb_ShardID wb = shardID.
Proof.
  intros Hix Hret Hnow Hscan Hrs Hl Hup.
  destruct (processDeletes_ok ti ii shardID pkTypes ct tc Hix db now Hnow Hret n (NewWriteBatch shardID) [] [] [] rs Hscan Hrs) as (wb & Hproc & Hwb & Hs);
    [apply NewWriteBatch_rep|]. rewrite Hup, Hl, decide_True in Hproc by done. by exists wb.
Qed.

(** Deleting keys of the table does not change the index. *)
Lemma index_scan_same ti ii shardID pkTypes ct tc (db db' : DB) T (gone : list Row) : reapable ti ii shardID pkTypes ct tc db T →
  (∀ row, row ∈ gone → row ∈ table_rows T) →
  (∀ k, kv_get db' k = if decide (k ∈ map (row_keyb ti shardID) gone) then None else kv_get db k) →
  kv_scan db' (EncodeTableKeyPrefix (RowTimeIndexID ti) shardID) (Some (EncodeTableKeyPrefix (RowTimeIndexID ti + 1) shardID)) =
  kv_scan db (EncodeTableKeyPrefix (RowTimeIndexID ti) shardID) (Some (EncodeTableKeyPrefix (RowTimeIndexID ti + 1) shardID)).
Proof.
  intros (Hix & _ & Hkeys & [HT _] & _) Hgone Hget. apply sorted_unique; [apply kv_scan_sorted..|]. intros [k v]. rewrite !kv_scan_elem, Hget.
  case_decide as Hk; [|done]. split; [by intros [_ ?]|]. intros Hin. exfalso. rewrite <- kv_scan_elem in Hin.
  apply (index_scan_elem ti ii shardID ct tc Hix db Hkeys) in Hin as [_ Ho]. apply list_elem_of_fmap in Hk as (row & -> & Hg).
  apply Hgone, table_rows_elem in Hg as (k & Hg). destruct (HT _ _ Hg) as [Hok _].
  eapply (owns_disjoint ti ii shardID ct tc Hix); [|exact Ho]. by apply (row_keyb_ok ti shardID pkTypes row).
Qed.

(** C38. With the local write of the cluster, which does not apply delete ranges, the reaper
    makes no progress once as many rows are expired as one batch deletes: the entries of the
    deleted rows stay in the index, and every later check deletes the same rows again and is
    due again at once. *)
Theorem reaper_repeats_itself ti ii shardID pkTypes ct tc (db : DB) T now n :
  reapable ti ii shardID pkTypes ct tc db T → 0 ≤ now → DataShardIDBase ≤ shardID →
  (n ≤ length (filter (λ row, RetentionDuration ti ÷ 1000 ≤ now - row_time tc row)%Z (table_rows T)))%nat →
  Forall (λ row, fits (row_keyb ti shardID row)) (table_rows T) →
  ∀ now', now ≤ now' < 2 ^ 60 → ∃ wb db' dels rngs,
    processDeletes db shardID ti now (NewWriteBatch shardID) (Z.of_nat n) = Ok (0, Z.of_nat n, wb) ∧ wb_rep wb [] dels rngs ∧
    WriteBatchLocally db wb = Ok db' ∧ ∃ wb',
    processDeletes db' shardID ti now' (NewWriteBatch shardID) (Z.of_nat n) = Ok (0, Z.of_nat n, wb') ∧ wb_rep wb' [] dels rngs.
Proof.
  intros Hr Hnow Hshard Hn Hfits now' Hnow'. destruct (reapable_rows _ _ _ _ _ _ _ _ Hr) as (rs & Hp & Hscan & Hrs & Hkeys & Htimes).
  set (ret := RetentionDuration ti ÷ 1000) in *. destruct (reaped_split tc now ret n rs Htimes) as (rest & Heq & Hexp & Hcase).
  assert (Hl : length (reaped tc now ret n rs) = n ∧ upcoming tc now ret n rs = None).
  { destruct Hcase as [?|(Hlt & Hrest & _)]; [done|exfalso]. rewrite Heq in Hp. rewrite (filter_count _ _ _ _ Hp) in Hn by (eapply Forall_impl; [exact Hexp|]; intros row; apply Z.leb_le).
    rewrite (filter_count_none _ rest) in Hn; [lia|]. eapply Forall_impl; [exact Hrest|]. intros row Hrow. apply Z.leb_gt in Hrow. lia. }
  assert (Hr' := Hr). destruct Hr' as (Hix & Hret & _). destruct Hl as [Hl Hup].
  destruct (processDeletes_full _ _ _ _ _ _ _ now n rs Hix Hret ltac:(lia) Hscan Hrs Hl Hup) as (wb & Hproc & Hwb & Hs). fold ret in Hwb.
  assert (Hgone : ∀ row, row ∈ reaped tc now ret n rs → row ∈ table_rows T) by (intros row Hg; rewrite <- Hp, Heq; apply elem_of_app; by left).
  destruct (WriteBatchLocally_effect db wb _ _ _ Hwb) as (db' & Hw & Hget); [constructor| |by rewrite Hs|].
  { rewrite Forall_map, Forall_forall in *. intros row Hg. by apply Hfits, Hgone. }
  exists wb, db'. eexists _, _. split_and!; [done|done|done|]. destruct (reaped_later tc now now' ret n rs ltac:(lia) Hl) as [Hsame Hup'].
  rewrite <- (index_scan_same _ _ _ _ _ _ db db' _ _ Hr Hgone Hget) in Hscan. rewrite <- Hsame in Hl.
  destruct (processDeletes_full _ _ _ _ _ _ _ now' n rs Hix Hret ltac:(lia) Hscan Hrs Hl Hup') as (wb' & Hproc' & Hwb' & _). fold ret in Hwb'.
  rewrite Hsame in Hwb'. by exists wb'.
Qed.
End retention.

(** ** An example *)

Definition demo_retained : TableInfo :=
  MkTableInfo 1001 [] (lit "events") [0%nat] [] [BigIntColumnType; NewTimestampColumnType 6] None 3600000000000 1002.
Definition demo_times : IndexInfo := MkIndexInfo 1002 (lit "events") (lit "row_time") [1%nat].
(** 1 January 2022, 00:00:00, as a timestamp with six digits. *)
Definition demo_time : Time := MkTime (Z.lor (FromDate 2022 1 1 0 0 0 0) 13).
Definition demo_old : Row := [Some (VInt 7); Some (VTimestamp demo_time)].
Definition demo_old_key : bytes := Eval vm_compute in row_keyb demo_retained 1000 demo_old.
Definition demo_old_pair : bytes * bytes := Eval vm_compute in index_pair demo_retained demo_times 1000 demo_old.
Definition demo_reap_table : gmap bytes Row := {[ demo_old_key := demo_old ]}.
Definition demo_reap_db : gmap bytes bytes := kv_apply kv_empty [KVSet demo_old_key (row_bytes demo_retained demo_old); KVSet demo_old_pair.1 demo_old_pair.2].

Lemma demo_reap_rows : table_rows demo_reap_table = [demo_old].
Proof. unfold table_rows, demo_reap_table. by rewrite map_to_list_singleton. Qed.

Lemma demo_timed : timed demo_retained demo_times [BigIntColumnType] (NewTimestampColumnType 6) 1 demo_old.
Proof.
  split; [|exists demo_time; split; vm_compute; reflexivity]. split_and!; [|reflexivity|].
  - exists [VInt 7]. split_and!; [reflexivity|reflexivity|]. by repeat constructor.
  - exists [Some (VTimestamp demo_time)]. split; [reflexivity|]. repeat constructor; by_decide || (vm_compute; congruence).
Qed.

Lemma demo_reap_get k : kv_get demo_reap_db k =
  if decide (k = demo_old_pair.1) then Some demo_old_pair.2 else if decide (k = demo_old_key) then Some (row_bytes demo_retained demo_old) else None.
Proof. unfold demo_reap_db. rewrite kv_get_apply. cbn [foldl op_effect]. rewrite kv_get_empty. done. Qed.

Lemma demo_reapable : reapable demo_retained demo_times 1000 [BigIntColumnType] (NewTimestampColumnType 6) 1 demo_reap_db demo_reap_table.
Proof.
  assert (Hk : row_keyb demo_retained 1000 demo_old = demo_old_key) by reflexivity.
  assert (Hp : index_pair demo_retained demo_times 1000 demo_old = demo_old_pair) by (vm_compute; reflexivity).
  unfold reapable. rewrite demo_reap_rows. split_and!.
  - by_decide.
  - simpl. lia.
  - simpl. lia.
  - intros k v. rewrite demo_reap_get. repeat case_decide; subst; intros [= <-]; by_decide.
  - split.
    + intros k row. unfold demo_reap_table. intros [<- <-]%lookup_singleton_Some. split; [|done]. split; [exists [VInt 7]; split_and!; [reflexivity|reflexivity|by repeat constructor]|].
      repeat constructor; by_decide || (vm_compute; congruence).
    + intros k [x ->]. rewrite demo_reap_get. rewrite decide_False by (vm_compute; congruence). unfold demo_reap_table.
      case_decide as E; [rewrite E; by rewrite lookup_singleton_eq|]. by rewrite lookup_singleton_ne.
  - intros k Ho. rewrite demo_reap_get. split.
    + intros row ->%list_elem_of_singleton E. rewrite Hp in *. by rewrite decide_True.
    + intros Hno. rewrite decide_False; [|intros ->; apply (Hno demo_old); [left|by rewrite Hp]]. rewrite decide_False; [done|]. intros ->. revert Ho. by_decide.
  - constructor; [apply demo_timed|constructor].
Qed.

Lemma expired_rows_reaped_witness :
  reapable demo_retained demo_times 1000 [BigIntColumnType] (NewTimestampColumnType 6) 1 demo_reap_db demo_reap_table ∧
  ∃ (gone : list Row) next wb, processDeletes demo_reap_db 1000 demo_retained 1641000000000000 (NewWriteBatch 1000) 10 = Ok (next, Z.of_nat (length gone), wb) ∧
    length gone = 1%nat ∧ 1641000000000000 < next.
Proof.
  split; [apply demo_reapable|].
  destruct (expired_rows_reaped demo_retained demo_times 1000 [BigIntColumnType] (NewTimestampColumnType 6) 1 demo_reap_db demo_reap_table 1641000000000000 10)
    as (gone & next & wb & dels & rngs & Hproc & _ & _ & _ & Hl & _ & _ & _ & Hnext); [apply demo_reapable|lia|simpl; lia|].
  rewrite demo_reap_rows in Hl. change (length gone = 1%nat) in Hl. exists gone, next, wb. split_and!; [exact Hproc|exact Hl|].
  rewrite decide_False in Hnext by lia. by destruct Hnext.
Defined.

Lemma reaper_repeats_itself_witness :
  reapable demo_retained demo_times 1000 [BigIntColumnType] (NewTimestampColumnType 6) 1 demo_reap_db demo_reap_table ∧
  ∃ wb db' dels rngs, processDeletes demo_reap_db 1000 demo_retained 1641000000000000 (NewWriteBatch 1000) 1 = Ok (0, 1, wb) ∧ wb_rep wb [] dels rngs ∧
    WriteBatchLocally demo_reap_db wb = Ok db' ∧ ∃ wb',
    processDeletes db' 1000 demo_retained 1642000000000000 (NewWriteBatch 1000) 1 = Ok (0, 1, wb') ∧ wb_rep wb' [] dels rngs.
Proof.
  split; [apply demo_reapable|].
  apply (reaper_repeats_itself demo_retained demo_times 1000 [BigIntColumnType] (NewTimestampColumnType 6) 1 demo_reap_db demo_reap_table 1641000000000000 1);
    [apply demo_reapable|lia|by_decide| | |lia].
  - rewrite demo_reap_rows. vm_compute. lia.
  - rewrite demo_reap_rows. by_decide.
Defined.
