(* ===== verification/ReaperRun.v ===== *)
(** * A run of the reaper

    What [doRun] of src/push/reaper/reaper.go does over all tables of its heap, from what a
    check does to one table and from the order of the heap. The clock is read once for each
    table that is checked and goes on during the run: a table can come due while others are
    checked, and even be checked again. *)

From stdpp Require Import base list list_numbers strings gmap sorting.
From Stdlib Require Import ZArith Lia.
From S2P Require Import Prelude Encoding Timestamp Decimal Rows KeyEncoding RowEncoding Store WriteBatch Table LocalStore PullExec PullScan KeyRanges RowsBatch PushExec TableExec Views IndexExec TableHeap Reaper ReaperProps Reaping Retention.

Section run.
Context {DB : Type} `{KVStore DB}.

(** What is known of a table: its index on the time of the rows, the types of its key columns,
    the column of the time, and the rows that are stored. *)
Record Retained := MkRetained {
  rt_index : IndexInfo;
  rt_pkTypes : list ColumnType;
  rt_ct : ColumnType;
  rt_tc : nat;
  rt_rows : gmap bytes Row
}.

Context (know : TableInfo → Retained) (shardID : Z) (db : DB).

Definition retained (ti : TableInfo) : Prop :=
  reapable ti (rt_index (know ti)) shardID (rt_pkTypes (know ti)) (rt_ct (know ti)) (rt_tc (know ti)) db (rt_rows (know ti)) ∧ 1000 ≤ RetentionDuration ti.

(** The keys of the rows that have expired at a time. *)
Definition expired_key (now : Z) (ti : TableInfo) (k : bytes) : Prop :=
  ∃ row, row ∈ table_rows (rt_rows (know ti)) ∧ RetentionDuration ti ÷ 1000 ≤ now - row_time (rt_tc (know ti)) row ∧ k = row_keyb ti shardID row.

Lemma expired_later now now' ti k : now ≤ now' → expired_key now ti k → expired_key now' ti k.
Proof using Type. intros Hle (row & ? & ? & ?). exists row. split_and!; [done|lia|done]. Qed.

Lemma table_check now ti n wb puts dels rngs : 0 ≤ now < 2 ^ 60 → retained ti → wb_rep wb puts dels rngs → ∃ keys rngs' next wb',
  processDeletes db shardID ti now wb (Z.of_nat n) = Ok (next, Z.of_nat (length keys), wb') ∧ wb_rep wb' puts (dels ++ keys) (rngs ++ rngs') ∧ wb_ShardID wb' = wb_ShardID wb ∧
  (length keys ≤ n)%nat ∧ Forall (expired_key now ti) keys ∧ 0 ≤ next < 2 ^ 62 ∧
  ((length keys < n)%nat → now < next ∧ ∀ t k, t < next → expired_key t ti k → k ∈ keys).
Proof using Type.
  intros Hnow [Hr Hret] Hwb. unfold expired_key. destruct (know ti) as [ii pkTypes ct tc T]. cbn [rt_index rt_pkTypes rt_ct rt_tc rt_rows] in *.
  destruct (reapable_rows _ _ _ _ _ _ _ _ Hr) as (rs & Hp & Hscan & Hrs & Hkeys & Htimes). destruct Hr as (Hix & Hret' & _).
  set (ret := RetentionDuration ti ÷ 1000) in *. assert (Hr : 1 ≤ ret < 2 ^ 60).
  { unfold ret. rewrite Z.quot_div_nonneg by lia. split; [apply Z.div_le_lower_bound; lia|apply Z.div_lt_upper_bound; lia]. }
  destruct (processDeletes_ok ti ii shardID pkTypes ct tc Hix db now Hnow Hret' n wb puts dels rngs rs Hscan Hrs Hwb) as (wb' & Hproc & Hwb' & Hsh). fold ret in Hproc, Hwb'.
  destruct (reaped_split tc now ret n rs Htimes) as (rest & Heq & Hexp & Hcase). set (gone := reaped tc now ret n rs) in *.
  exists (map (row_keyb ti shardID) gone), (reap_ranges ti ii shardID gone). eexists _, wb'. rewrite length_map. split; [exact Hproc|]. split; [exact Hwb'|]. split; [exact Hsh|].
  assert (Hgone : ∀ row, row ∈ gone → row ∈ table_rows T ∧ ret ≤ now - row_time tc row).
  { intros row Hg. rewrite Forall_forall in Hexp. split; [|apply Z.leb_le; exact (Hexp _ Hg)]. rewrite <- Hp, Heq. apply elem_of_app. left. exact Hg. }
  assert (Hb : ∀ row, row ∈ rest → - 2 ^ 60 < row_time tc row < 2 ^ 60).
  { intros row Hg. rewrite Forall_forall in Hrs. apply (timed_bounds ti ii shardID pkTypes ct tc Hix), Hrs. rewrite Heq. apply elem_of_app. right. exact Hg. }
  assert (Hnext : (length gone = n ∧ default (if decide (length gone = n) then 0 else now + ret) (upcoming tc now ret n rs) = 0) ∨
    ((length gone < n)%nat ∧ now < default (if decide (length gone = n) then 0 else now + ret) (upcoming tc now ret n rs) < 2 ^ 62 ∧
     ∀ t row, t < default (if decide (length gone = n) then 0 else now + ret) (upcoming tc now ret n rs) → row ∈ rest → t - row_time tc row < ret)).
  { destruct Hcase as [[Hl ->]|(Hl & Hrest & ->)]; [left; by rewrite decide_True by done|right]. rewrite decide_False by lia. rewrite Forall_forall in Hrest.
    assert (Hr' : ∀ row, row ∈ rest → now - row_time tc row < ret) by (intros row Hg; apply Z.leb_gt; exact (Hrest _ Hg)). split_and!; [done| | |].
    - destruct rest as [|row rest']; simpl; [lia|]. specialize (Hr' row ltac:(left)). lia.
    - destruct rest as [|row rest']; simpl; [lia|]. specialize (Hb row ltac:(left)). lia.
    - intros t row Ht Hin. destruct rest as [|row0 rest']; [by apply elem_of_nil in Hin|]. simpl in Ht.
      assert (row_time tc row0 ≤ row_time tc row); [|lia]. rewrite Heq in Htimes. apply StronglySorted_app in Htimes as (_ & _ & Hs).
      apply elem_of_cons in Hin as [->|Hin]; [lia|]. apply StronglySorted_inv in Hs as [_ Hs]. rewrite Forall_forall in Hs. by apply Hs. }
  split_and!; [lia| |lia|lia|].
  - apply Forall_map, Forall_forall. intros row Hg. destruct (Hgone row Hg). by exists row.
  - intros Hl. destruct Hnext as [[? _]|(_ & Hnext & Hrest)]; [lia|]. split; [lia|]. intros t k Ht (row & Hin & Hold & ->). apply list_elem_of_fmap. exists row. split; [done|].
    rewrite <- Hp, Heq in Hin. apply elem_of_app in Hin as [?|Hin]; [done|]. specialize (Hrest t row Ht Hin). lia.
Qed.

(** ** The loop *)

Context (clock : nat → Z) (stop : Z).
Hypothesis Hclock : ∀ i j, (i ≤ j)%nat → clock i ≤ clock j.
Hypothesis Hstop : ∀ i, 0 ≤ clock i ≤ stop ∧ stop < 2 ^ 60.

Definition due (now : Z) (item : itemHolder) : Prop := CheckTime item ≤ now.
#[local] Instance due_decision now item : Decision (due now item).
Proof using Type. unfold due. apply _. Defined.

Definition item_ok (item : itemHolder) : Prop := retained (it_Table item) ∧ 0 ≤ CheckTime item < 2 ^ 62.

Lemma due_test i item : item_ok item → (0 <=? i64 (clock i - CheckTime item)) = bool_decide (due (clock i) item).
Proof using Hstop.
  intros [_ Hc]. pose proof (Hstop i). unfold due. rewrite i64_small by (unfold i64_ok; lia).
  case_bool_decide; [apply Z.leb_le|apply Z.leb_gt]; lia.
Qed.

(** What the loop leaves, [now] being the last reading of the clock: the rows that were
    deleted, and if they are fewer than allowed, no table that is due and no expired row
    of the tables that were. *)
Definition loop_done (max : nat) (now : Z) (h h' : tableHeap) (keys : list bytes) (oldest : option itemHolder) : Prop :=
  (∀ k, k ∈ keys → Exists (λ item, due now item ∧ expired_key now (it_Table item) k) h) ∧
  ((length keys = max) ∨
   ((length keys < max)%nat ∧ oldest = head h' ∧ Forall (λ item, ¬ due now item) h' ∧
    ∀ item k, item ∈ h → due now item → expired_key now (it_Table item) k → k ∈ keys)).

(** How often a table can still be checked before the clock stands at [stop]: every check
    schedules the next one later. *)
Definition checks_left (item : itemHolder) : nat :=
  if decide (due stop item) then S (Z.to_nat (stop - Z.max (clock 0) (CheckTime item))) else 0.
Definition all_checks (h : list itemHolder) : nat := sum_list_with checks_left h.

Lemma all_checks_perm h h' : h ≡ₚ h' → all_checks h = all_checks h'.
Proof using Type. unfold all_checks. by intros ->. Qed.

Lemma all_checks_le h : (all_checks h ≤ length h * S (Z.to_nat (stop - clock 0)))%nat.
Proof using Type.
  induction h as [|item h IH]; [done|]. unfold all_checks in *. cbn [sum_list_with length]. rewrite Nat.mul_succ_l.
  assert (checks_left item ≤ S (Z.to_nat (stop - clock 0)))%nat by (unfold checks_left; case_decide; lia). lia.
Qed.

Lemma checks_left_lt i item next : due (clock i) item → clock i < next → (checks_left (MkItemHolder next (it_Table item)) < checks_left item)%nat.
Proof using Hclock Hstop.
  intros Hd Hn. pose proof (Hstop i). pose proof (Hclock 0 i ltac:(lia)). unfold checks_left, due in *. cbn [CheckTime].
  rewrite (decide_True (P := CheckTime item ≤ stop)) by lia. case_decide; lia.
Qed.

(** The loop has ended. *)
Lemma loop_full now h oldest : loop_done 0 now h h [] oldest.
Proof using Type. split; [by intros k ?%elem_of_nil|by left]. Qed.

Lemma loop_idle now n h : (0 < n)%nat → Forall (λ item, ¬ due now item) h → loop_done n now h h [] (head h).
Proof using Type.
  intros Hn Hh. split; [by intros k ?%elem_of_nil|]. right. split_and!; [done|done|done|]. intros item k Hin Hd. rewrite Forall_forall in Hh. by destruct (Hh item Hin).
Qed.

(** One table more, checked at [now], and the rest of the loop, with [now'] its last
    reading of the clock. *)
Lemma loop_table n now now' h o l next keys h' keys' oldest : h ≡ₚ o :: l → due now o → now ≤ now' → (length keys ≤ n)%nat →
  Forall (expired_key now (it_Table o)) keys →
  ((length keys < n)%nat → now < next ∧ ∀ t k, t < next → expired_key t (it_Table o) k → k ∈ keys) →
  loop_done (n - length keys) now' (heap_push l (MkItemHolder next (it_Table o))) h' keys' oldest → heap_ok CheckTime l →
  loop_done n now' h h' (keys ++ keys') oldest.
Proof using Type.
  intros Hp Ho Hnow Hle Hexp Hall [Hsrc Hcase] Hl. destruct (heap_Push_ok CheckTime l (MkItemHolder next (it_Table o)) Hl) as [_ Hpush]. fold (heap_push l (MkItemHolder next (it_Table o))) in Hpush.
  assert (Ho' : due now' o) by (unfold due in *; lia). unfold loop_done. rewrite length_app. split.
  - intros k [Hk|Hk]%elem_of_app; rewrite Exists_exists.
    + exists o. rewrite Forall_forall in Hexp. split_and!; [rewrite Hp; left|done|]. eapply expired_later; [exact Hnow|by apply Hexp].
    + apply Hsrc in Hk. rewrite Hpush in Hk. apply Exists_cons in Hk as [[_ Hk]|Hk]; [exists o; split_and!; [rewrite Hp; left|done|done]|].
      apply Exists_exists in Hk as (item & Hin & Hk). exists item. split; [rewrite Hp; by right|done].
  - destruct Hcase as [Hc|(Hc & -> & Hdue & Hc')]; [left; lia|]. right. destruct (Hall ltac:(lia)) as [_ Hkeys]. split_and!; [lia|done|done|].
    intros item k Hin Hd Hk. rewrite Hp in Hin. apply elem_of_app. apply elem_of_cons in Hin as [->|Hin].
    + destruct (decide (now' < next)) as [Hn|Hn]; [left; by apply (Hkeys now')|right].
      apply (Hc' (MkItemHolder next (it_Table o))); [rewrite Hpush; left|unfold due; simpl; lia|done].
    + right. apply (Hc' item); [rewrite Hpush; by right|done|done].
Qed.

Lemma reapTables_ok max fuel : ∀ h wb dels rngs deleted oldest i, heap_ok CheckTime h → Forall item_ok h → wb_rep wb [] dels rngs → (deleted ≤ max)%nat →
  (all_checks h < fuel)%nat ∨ (deleted = max ∧ 0 < fuel)%nat →
  ∃ h' wb' keys rngs' oldest' i' j,
    reapTables fuel clock i db shardID (Z.of_nat max) h wb (Z.of_nat deleted) oldest = Ok (h', wb', Z.of_nat (deleted + length keys), oldest', i') ∧
    wb_rep wb' [] (dels ++ keys) (rngs ++ rngs') ∧ wb_ShardID wb' = wb_ShardID wb ∧ heap_ok CheckTime h' ∧ Forall item_ok h' ∧ map it_Table h' ≡ₚ map it_Table h ∧
    (i ≤ j)%nat ∧ (deleted + length keys < max → i' = S j)%nat ∧ loop_done (max - deleted) (clock j) h h' keys oldest'.
Proof using Hclock Hstop.
  induction fuel as [|fuel IH]; intros h wb dels rngs deleted oldest i Hh Hok Hwb Hle Hfuel; [lia|]. cbn [reapTables].
  assert (Hnil : dels = dels ++ [] ∧ rngs = rngs ++ []) by (by rewrite !app_nil_r). destruct Hnil as [Hd0 Hr0].
  destruct (Z.ltb_spec (Z.of_nat deleted) (Z.of_nat max)) as [Hlt|Hge].
  2:{ exists h, wb, [], [], oldest, i, i. rewrite <- Hd0, <- Hr0, Nat.add_0_r. replace (max - deleted)%nat with 0%nat by lia. split_and!; [done..|lia|apply loop_full]. }
  unfold heap_peek. destruct (head h) as [o|] eqn:Eh.
  2:{ destruct h; [|done]. exists [], wb, [], [], None, (S i), i. rewrite <- Hd0, <- Hr0, Nat.add_0_r. split_and!; [done..|]. apply (loop_idle _ _ []); [lia|done]. }
  assert (Ho : o ∈ h) by (destruct h; simplify_eq/=; left). assert (Hitem : item_ok o) by (rewrite Forall_forall in Hok; by apply Hok).
  rewrite (due_test i o Hitem). case_bool_decide as Edue.
  2:{ exists h, wb, [], [], (Some o), (S i), i. rewrite <- Hd0, <- Hr0, Nat.add_0_r. split_and!; [done..|]. rewrite <- Eh. apply loop_idle; [lia|].
      apply Forall_forall. intros item [j Hj]%list_elem_of_lookup. pose proof (heap_min CheckTime h o Hh Eh j item Hj). unfold due in *. lia. }
  destruct (heap_Pop_ok CheckTime h o Hh Eh) as (l & Hpop & Hl & Hp). unfold heap_pop. rewrite Hpop. osimpl. destruct Hitem as [Hret _]. pose proof (Hstop i) as Hi.
  destruct (table_check (clock i) (it_Table o) (max - deleted) wb [] dels rngs ltac:(lia) Hret Hwb) as (keys & rngs1 & next & wb1 & Hproc & Hwb1 & Hsh1 & Hlen & Hexp & Hnext & Hall).
  replace (Z.of_nat max - Z.of_nat deleted) with (Z.of_nat (max - deleted)) by lia. rewrite Hproc. osimpl. rewrite <- Nat2Z.inj_add.
  destruct (heap_Push_ok CheckTime l (MkItemHolder next (it_Table o)) Hl) as [Hh2 Hpush]. fold (heap_push l (MkItemHolder next (it_Table o))) in Hh2, Hpush.
  assert (Hok2 : Forall item_ok (heap_push l (MkItemHolder next (it_Table o)))).
  { rewrite Hpush. rewrite Hp in Hok. apply Forall_cons in Hok as [_ Hok]. constructor; [by split|done]. }
  destruct (IH (heap_push l (MkItemHolder next (it_Table o))) wb1 _ _ (deleted + length keys)%nat (Some o) (S i) Hh2 Hok2 Hwb1)
    as (h' & wb' & keys' & rngs' & oldest' & i' & j & Hrun & Hwb' & Hsh' & Hh' & Hok' & Hperm & Hij & Hi' & Hdone); [lia| |].
  { rewrite (all_checks_perm _ _ Hp) in Hfuel. pose proof (checks_left_lt i o (clock i + 1) Edue ltac:(lia)).
    unfold all_checks in *. cbn [sum_list_with] in *. destruct (decide (length keys = max - deleted)%nat) as [El|Hne]; [right; lia|left].
    destruct (Hall ltac:(lia)) as [Hlater _]. pose proof (checks_left_lt i o next Edue Hlater).
    pose proof (all_checks_perm _ _ Hpush) as Heq. unfold all_checks in Heq. cbn [sum_list_with] in Heq. lia. }
  exists h', wb', (keys ++ keys'), (rngs1 ++ rngs'), oldest', i', j. rewrite length_app, !app_assoc, Nat.add_assoc. split_and!; [done|done|congruence|done|done| |lia|done|].
  - rewrite Hperm, Hpush, Hp. done.
  - eapply (loop_table _ (clock i)); [exact Hp|done|apply Hclock; lia|done|done|exact Hall| |done]. by replace (max - deleted - length keys)%nat with (max - (deleted + length keys))%nat by lia.
Qed.

End run.

(** ** An example *)

Definition demo_know (ti : TableInfo) : Retained := MkRetained demo_times [BigIntColumnType] (NewTimestampColumnType 6) 1 demo_reap_table.
Definition demo_reaper : Reaper := MkReaper true 1000 [MkItemHolder 0 demo_retained] None 10.

(** A clock that goes on for three microseconds. *)
Definition demo_clock (i : nat) : Z := 1641000000000000 + Z.of_nat (i `min` 3).

Lemma demo_expired_fits k : expired_key demo_know 1000 1641000000000003 demo_retained k → fits k.
Proof. intros (row & Hin & _ & ->). cbn [demo_know rt_rows] in Hin. rewrite demo_reap_rows in Hin. apply list_elem_of_singleton in Hin as ->. by_decide. Qed.

Lemma demo_local_write wb keys rngs : wb_rep wb [] keys rngs → wb_ShardID wb = 1000 →
  (∀ k, k ∈ keys → Exists (λ item, expired_key demo_know 1000 1641000000000003 (it_Table item) k) (r_tableHeap demo_reaper)) →
  is_ok (WriteBatchLocally demo_reap_db wb) = true.
Proof.
  intros Hwb Hsh Hk. destruct (WriteBatchLocally_effect demo_reap_db wb _ _ _ Hwb) as (db' & -> & _); [constructor| |by rewrite Hsh|done].
  apply Forall_forall. intros k Hin. apply Hk, Exists_cons in Hin as [Hin|Hin%Exists_nil]; [|done]. by apply demo_expired_fits.
Qed.

